(* ===== verification/_CoqProject ===== *)
-Q . S2P
Prelude.v
SchedCore.v
SchedInv.v
Fcfs.v
Mlfq.v
Lottery.v
Edf.v
WorkSteal.v
WorkStealCorrect.v
Rms.v
Driver.v
CString.v
Printf.v
Grep.v
Sh.v
ShSpec.v
ShPrint.v
ShRun.v
Ulib.v
Kernel.v
Ring.v
Umalloc.v
UmallocSpec.v
Console.v
ConsoleSpec.v
UartSpec.v
KLogic.v
KEquiv.v
Spinlock.v
Uart.v
SpinlockRace.v
KMem.v
Kalloc.v
Vm.v
VmSpec.v
VmUser.v
Proc.v
ProcSpec.v
Pipe.v
Fork.v
Sysproc.v
Trap.v
TrapSpec.v
Plic.v
Main.v
Start.v
Bio.v
BioSpec.v
PipeSpec.v
CacheSpec.v
Virtio.v
VirtioSpec.v
Log.v
LogSpec.v
Crash.v
TxView.v
Tx.v
Fs.v
FsSpec.v
FsPath.v
FileTx.v
FileSpec.v
FileData.v
FileInode.v
FileRw.v
FileClient.v
Dir.v
DirSpec.v
UserProg.v
Mkfs.v
MkfsFile.v
MkfsSpec.v
File.v
Exec.v
Sysfile.v
System.v
