(* ===== verification/Prelude.v ===== *)
(** * Verification of the OS lab project

    The repository holds two programs.  src/Group6_Project2 is a simulator of
    scheduling policies: a table of processes and of processors, six
    [run_*] functions that advance a clock over them, report printing and a
    menu.  src/Group6_Project1 is an xv6 kernel for RISC-V, extended with
    threads ([clone]), semaphores, a mailbox, alarms, [waitpid] and [psinfo],
    and its user programs.

    ** The simulators

    SchedCore has the structures of scheduler.h, the arrays of the [run_*]
    functions and the code they share.  SchedInv proves one invariant for all
    of them over a transition system of four kinds of steps (leave a core,
    take off a core, dispatch, execute).  Fcfs, Mlfq, Lottery, Edf and
    WorkSteal translate fcfs.c, mlfq.c, lottery.c, edf.c and work_steal.c;
    Rms translates rms.c, Driver main.c and metrics.c.  Every array access is
    checked ([aget], [aset] return [None] outside the bounds, which is
    undefined behaviour in C).  The loops run until every process has
    completed; the fuel of the models is a bound computed from the table, and
    the theorems [run_*_correct] show that it is enough: the functions return,
    every process completes, and the completion, turnaround and waiting times
    and the timeline are what the policy says.  The metrics, the ticket sums
    and the counters of rms.c are computed in [int], where overflow is
    undefined; the theorems state the bounds under which none happens (times
    below 2^29, tickets and released work below 2^31).  Further theorems state the
    policy itself: first come first served, the level of a process in the
    feedback queue is determined by its service, the earliest deadline runs,
    the lottery is proportional to the tickets, no core idles while work
    waits.  [rand] and floating point are parameters.

    ** Strings, formatted output and user programs

    CString models string.c over a byte memory; Ulib the string functions of
    ulib.c, which do the same or copy, compare and read strings as they should,
    and the filters wc, cat and echo, whose output does not depend on how
    [read] cuts the input.  Printf models both printfs
    and [atoi]: the digits printed denote the number, and [atoi] reads them
    back.  Grep shows that the matcher of grep.c decides the language of the
    pattern, and that [grep] prints the matching lines.  Sh translates the
    parser of sh.c with pointers into the line; ShSpec shows that it ends and
    that [nulterminate] cuts exactly the words; ShPrint that a printed command
    parses to itself; ShRun models the execution of commands as programs over
    the system calls and shows that descriptors and pipes are connected as the
    command says, whichever calls fail.  Umalloc translates the allocator of umalloc.c on a memory
    of words that faults outside the heap; UmallocSpec relates it to a tiling
    of the heap by blocks and shows that it is correct for every client.
    UserProg has the small programs (init, ls, mkdir, rm, ln, kill, psinfo) and
    the rest of ulib.c as interaction trees over the system calls: [init]
    keeps one shell whatever the calls return, and [ls] lists the entries of
    a directory in the format of Dir, in order, and closes what it opens.

    ** The kernel

    Kernel has the state: the locks and the interrupt flags of a hart ([Sync]),
    memory and the kernel's tables ([Data]), and the monad [M] of kernel paths,
    which return, halt (panic, a lock that is never released, undefined
    behaviour, a bounded loop out of fuel) or switch to the scheduler ([Sched]).
    KLogic has the program logic [wp] and the equivalence of states up to the
    saved interrupt flag of a hart that holds no lock, KEquiv the equivalence
    of paths.  The files translate the sources function by function:

    - Spinlock, SpinlockRace: spinlock.c on one hart, and under any
      interleaving of the memory accesses of any number of harts;
    - KMem, Kalloc: kalloc.c, the free list threaded through memory, which
      refines a stack of pages;
    - Vm, VmSpec, VmUser: vm.c on page tables in memory, related to a map from
      addresses to entries, and user memory with lazy allocation;
    - Proc, ProcSpec, Fork: proc.c; Pipe: pipe.c and the counts of file.c;
      PipeSpec: a pipe is a queue of bytes between two processes;
    - Sysproc: sysproc.c and the argument functions of syscall.c;
    - Trap, TrapSpec: trap.c, the dispatch of system calls through the array
      of handlers, the alarm;
    - Bio, BioSpec, CacheSpec: sleeplock.c and bio.c; the cache refines a map
      of the blocks in use;
    - Log, LogSpec, Crash, TxView, Tx: log.c; a transaction is atomic with
      respect to crashes at any disk write, and recovery leaves the log ready;
    - Fs: fs.c; FsSpec: the block allocator refines a set of block numbers;
      FsPath: path lookup follows the elements of the path; FileTx, FileSpec,
      FileData, FileInode, FileRw, FileClient: a file with direct and indirect
      blocks is a list of bytes, which [writei] changes atomically and [readi]
      returns; Dir, DirSpec: a directory is a map from names to inode numbers,
      to which [dirlink] adds atomically and which [dirlookup] reads;
    - File, Exec, Sysfile: file.c, exec.c and sysfile.c; System: these as the
      instances of the interfaces below;
    - Ring: queues in arrays with free-running counters, for pipes and for
      the next two;
    - Virtio, VirtioSpec: virtio_disk.c by its critical sections, with the
      device as a step relation that follows the virtio specification; the
      driver refines a disk that serves each call at one moment;
    - Console, ConsoleSpec: console.c and the interrupt half of uart.c by their
      critical sections; the input buffer refines a line editor; UartSpec: the
      processes that sleep in [uartwrite], the printfs and the echo next to a
      port with a FIFO; everything is sent in the end, because the transmit
      interrupt wakes the sleepers; Uart: the set-up of the serial
      port and the polling output on the registers of the chip;
    - Plic: plic.c next to the interrupt controller of the RISC-V
      specification; an interrupt is served by one hart at a time;
    - Start: start.c on the registers of a hart, which leaves machine mode as
      [main] needs it; Main: main.c on any number of harts with weakly ordered
      memory, where no hart goes on before it sees what hart 0 has initialised;
    - Mkfs, MkfsFile, MkfsSpec: mkfs.c, the program that builds the initial
      disk image; the image satisfies the invariants of the file system above
      and holds the files of the host.

    Interfaces are type classes: [KernelImage] (linker symbols), [FileLayer] and
    [SysFile] (the file system as seen by processes and by the system call
    table), [BootFs], [Devices] (interrupt controller), [DevSw] (the table of
    device drivers), [Disk] with [DiskLaw] (the driver; a transfer is complete
    when it returns, a block is written as a whole, and no other process runs
    meanwhile).  Fs and System are
    the instances of the file system interfaces; theorems about paths that do
    not reach the disk are proved for every instance.

    Loops that sleep have a bound on the number of sleeps; the theorems about
    them hold for every bound.  Other loops are structural or carry a fuel
    that the theorems show to be enough.

    ** Not modelled

    The assembly files and the test programs, and the messages that usertrap
    and kerneltrap print.  The disk device of Virtio never reports an error.  The models of virtio_disk.c,
    console.c and plic.c have a state of their own and are not instances of
    [Disk], [DevSw] and [Devices]; theorems about pipes are about calls that do
    not sleep. *)

From stdpp Require Export base option relations list list_numbers sorting gmap.
From Stdlib Require Export ZArith Lia.

(** ** Notation scope and hint database *)

Declare Scope os_scope.
Delimit Scope os_scope with os.

Create HintDb os discriminated.

Lemma bool_cases (b : bool) : b = true ∨ b = false.
Proof. destruct b; auto. Qed.

(** ** C arrays

    An array is a list; an access outside its bounds is undefined behaviour
    in C and is [None] here.  [l !! i] reads, [aset] writes. *)

Definition aset {A} (l : list A) (i : nat) (v : A) : option (list A) :=
  if decide (i < length l) then Some (<[i:=v]> l) else None.

Lemma aset_Some {A} (l : list A) i v : i < length l → aset l i v = Some (<[i:=v]> l).
Proof. intros H. unfold aset. by rewrite decide_True. Qed.

Lemma aset_None {A} (l : list A) i v : length l ≤ i → aset l i v = None.
Proof. intros H. unfold aset. rewrite decide_False; [done|lia]. Qed.

(** ** Counted loops

    [for_range lo n body s] runs [body lo], ..., [body (lo+n-1)] in order; a
    body that hits undefined behaviour stops the loop. *)

Fixpoint for_range {S} (lo n : nat) (body : nat → S → option S) (s : S) : option S :=
  match n with
  | O => Some s
  | Datatypes.S n' => s' ← body lo s; for_range (Datatypes.S lo) n' body s'
  end.

(** Total-correctness rule: an indexed invariant that every iteration
    re-establishes makes the loop return, with the invariant at the end. *)
Lemma for_range_total {S} (P : nat → S → Prop) body lo n (s : S) :
  P lo s →
  (∀ k s, lo ≤ k < lo + n → P k s → ∃ s', body k s = Some s' ∧ P (Datatypes.S k) s') →
  ∃ s', for_range lo n body s = Some s' ∧ P (lo + n) s'.
Proof.
  revert lo s. induction n as [|n IH]; intros lo s H0 Hstep; simpl.
  { exists s. by rewrite Nat.add_0_r. }
  destruct (Hstep lo s) as (s1 & -> & H1); [lia|done|]. simpl.
  destruct (IH (Datatypes.S lo) s1 H1) as (s2 & E2 & H2).
  { intros k s' Hk. apply Hstep. lia. }
  exists s2. split; [done|]. by replace (lo + Datatypes.S n) with (Datatypes.S lo + n) by lia.
Qed.

(** Peeling the last iteration. *)
Lemma for_range_snoc {S} lo n (body : nat → S → option S) s :
  for_range lo (Datatypes.S n) body s = (s' ← for_range lo n body s; body (lo + n) s').
Proof.
  revert lo s. induction n as [|n IH]; intros lo s.
  { simpl. rewrite Nat.add_0_r. by destruct (body lo s). }
  change (for_range lo (Datatypes.S (Datatypes.S n)) body s)
    with (s' ← body lo s; for_range (Datatypes.S lo) (Datatypes.S n) body s').
  change (for_range lo (Datatypes.S n) body s)
    with (s' ← body lo s; for_range (Datatypes.S lo) n body s').
  destruct (body lo s) as [s1|]; [|done].
  change (for_range (Datatypes.S lo) (Datatypes.S n) body s1 =
    (s' ← for_range (Datatypes.S lo) n body s1; body (lo + Datatypes.S n) s')).
  rewrite IH. by replace (Datatypes.S lo + n) with (lo + Datatypes.S n) by lia.
Qed.

(** Partial-correctness rule. *)
Lemma for_range_inv {S} (P : nat → S → Prop) body lo n (s s' : S) :
  for_range lo n body s = Some s' →
  P lo s →
  (∀ k s s', lo ≤ k < lo + n → P k s → body k s = Some s' → P (Datatypes.S k) s') →
  P (lo + n) s'.
Proof.
  revert lo s. induction n as [|n IH]; intros lo s E H0 Hstep; simpl in E.
  { simplify_eq. by rewrite Nat.add_0_r. }
  destruct (body lo s) as [s1|] eqn:E1; simplify_eq/=.
  replace (lo + Datatypes.S n) with (Datatypes.S lo + n) by lia.
  eapply IH; [done| |].
  - eapply Hstep; [lia|done..].
  - intros k t t' Hk. apply Hstep. lia.
Qed.

(** ** While loops with fuel

    [None] when the fuel runs out or the body hits undefined behaviour. *)

Fixpoint while {S} (fuel : nat) (cond : S → bool) (body : S → option S) (s : S) : option S :=
  if cond s then
    match fuel with
    | O => None
    | Datatypes.S f => s' ← body s; while f cond body s'
    end
  else Some s.

(** Total-correctness rule: the variant bounds the number of iterations. *)
Lemma while_total {S} (P : S → Prop) (m : S → nat) cond body fuel (s : S) :
  P s →
  m s ≤ fuel →
  (∀ s, P s → cond s = true → ∃ s', body s = Some s' ∧ P s' ∧ m s' < m s) →
  ∃ s', while fuel cond body s = Some s' ∧ P s' ∧ cond s' = false.
Proof.
  revert s. induction fuel as [|f IH]; intros s HP Hm Hstep; simpl.
  - destruct (cond s) eqn:E; [|by exists s].
    destruct (Hstep s HP E) as (s' & _ & _ & ?). lia.
  - destruct (cond s) eqn:E; [|by exists s].
    destruct (Hstep s HP E) as (s1 & -> & H1 & Hm1). simpl.
    apply IH; [done|lia|done].
Qed.

(** One iteration of such a loop, as a step relation. *)
Definition loop_step {S} (cond : S → bool) (body : S → option S) (s s' : S) : Prop :=
  cond s = true ∧ body s = Some s'.

Lemma while_rtc {S} cond body fuel (s s' : S) :
  while fuel cond body s = Some s' → rtc (loop_step cond body) s s'.
Proof.
  revert s. induction fuel as [|f IH]; intros s; simpl; destruct (cond s) eqn:E;
    intros H; simplify_eq; try done.
  destruct (body s) as [s1|] eqn:E1; simplify_eq/=. eapply rtc_l; [|by apply IH]. by split.
Qed.

(** ** Sums of integer lists *)

Fixpoint sumZ (l : list Z) : Z :=
  match l with
  | [] => 0
  | x :: l' => x + sumZ l'
  end%Z.

Lemma sumZ_app l k : sumZ (l ++ k) = (sumZ l + sumZ k)%Z.
Proof. induction l as [|x l IH]; simpl; [done|]. rewrite IH. lia. Qed.

#[export] Instance sumZ_perm : Proper ((≡ₚ) ==> (=)) sumZ.
Proof. intros l k HP. induction HP; simpl; lia. Qed.

Lemma sumZ_insert (l : list Z) i a b :
  l !! i = Some a → sumZ (<[i:=b]> l) = (sumZ l - a + b)%Z.
Proof.
  revert i. induction l as [|x l IH]; intros [|i] H; simplify_eq/=; [lia|].
  rewrite (IH _ H). lia.
Qed.

Lemma sumZ_const (l : list Z) c :
  Forall (λ x, x = c) l → sumZ l = (c * Z.of_nat (length l))%Z.
Proof. induction 1; simpl in *; subst; lia. Qed.

Lemma sumZ_nonneg (l : list Z) : Forall (λ x, 0 ≤ x)%Z l → (0 ≤ sumZ l)%Z.
Proof. induction 1; simpl; lia. Qed.

Lemma sumZ_ge_elem (l : list Z) i a :
  Forall (λ x, 0 ≤ x)%Z l → l !! i = Some a → (a ≤ sumZ l)%Z.
Proof.
  intros Hl. revert i. induction Hl as [|x l Hx Hl IH]; intros [|i] H; simplify_eq/=.
  - pose proof (sumZ_nonneg l Hl). lia.
  - specialize (IH _ H). lia.
Qed.

(** A 0/1 list whose sum is its length is all ones. *)
Lemma sumZ_bits_le (l : list Z) :
  Forall (λ x, x = 0 ∨ x = 1)%Z l → (sumZ l ≤ Z.of_nat (length l))%Z.
Proof. induction 1; simpl in *; lia. Qed.

Lemma sumZ_bits_full (l : list Z) i a :
  Forall (λ x, x = 0 ∨ x = 1)%Z l →
  sumZ l = Z.of_nat (length l) → l !! i = Some a → a = 1%Z.
Proof.
  intros Hl. revert i. induction Hl as [|x l Hx Hl IH]; intros i Hs Hi; [done|].
  pose proof (sumZ_bits_le l Hl). simpl in Hs. destruct i as [|i]; simplify_eq/=; [lia|].
  apply (IH i); [lia|done].
Qed.

Lemma sumZ_zero (l : list Z) i a :
  Forall (λ x, 0 ≤ x)%Z l → sumZ l = 0%Z → l !! i = Some a → a = 0%Z.
Proof.
  intros Hl Hs Hi. pose proof (sumZ_ge_elem l i a Hl Hi).
  pose proof (proj1 (Forall_lookup _ l) Hl i a Hi). simpl in *. lia.
Qed.

(** ** Counting indices below a bound *)

Fixpoint count (f : nat → bool) (n : nat) : nat :=
  match n with
  | O => 0
  | S n' => (if f n' then 1 else 0) + count f n'
  end.

Lemma count_bound f n : count f n ≤ n.
Proof. induction n as [|n IH]; simpl; [lia|]. destruct (f n); lia. Qed.

Lemma count_le f g n : (∀ i, i < n → f i = true → g i = true) → count f n ≤ count g n.
Proof.
  induction n as [|n IH]; intros H; simpl; [lia|].
  assert (count f n ≤ count g n) by (apply IH; intros i Hi; apply H; lia).
  destruct (f n) eqn:E; [rewrite (H n) by (done || lia); lia|]. destruct (g n); lia.
Qed.

(** [f] holds nowhere but possibly at [i] beyond where [g] does. *)
Lemma count_le_S f g n i :
  (∀ j, j < n → j ≠ i → f j = true → g j = true) → count f n ≤ S (count g n).
Proof.
  induction n as [|n IH]; intros H; simpl; [lia|].
  destruct (decide (n = i)) as [->|Hne].
  - assert (count f i ≤ count g i) by (apply count_le; intros j Hj; apply H; lia).
    destruct (f i), (g i); lia.
  - assert (count f n ≤ S (count g n)) by (apply IH; intros j Hj; apply H; lia).
    destruct (f n) eqn:E; [rewrite (H n) by (done || lia); lia|]. destruct (g n); lia.
Qed.

(** Losing the index [i]. *)
Lemma count_lt f g n i :
  i < n → (∀ j, j < n → f j = true → g j = true) → f i = false → g i = true →
  count f n < count g n.
Proof.
  induction n as [|n IH]; intros Hi H Hf Hg; simpl; [lia|].
  destruct (decide (n = i)) as [->|Hne].
  - assert (count f i ≤ count g i) by (apply count_le; intros j Hj; apply H; lia).
    rewrite Hf, Hg. lia.
  - assert (count f n < count g n) by (apply IH; [lia|intros j Hj; apply H; lia|done..]).
    destruct (f n) eqn:E; [rewrite (H n) by (done || lia); lia|]. destruct (g n); lia.
Qed.

Lemma count_zero f n i : count f n = 0 → i < n → f i = false.
Proof.
  induction n as [|n IH]; simpl; intros H Hi; [lia|].
  destruct (decide (n = i)) as [->|Hne]; [destruct (f i); [lia|done]|]. apply IH; lia.
Qed.

Lemma count_none f n : (∀ i, i < n → f i = false) → count f n = 0.
Proof.
  induction n as [|n IH]; intros H; simpl; [done|]. rewrite H by lia. apply IH. intros. apply H. lia.
Qed.

Lemma count_ext f g n : (∀ i, i < n → f i = g i) → count f n = count g n.
Proof.
  intros H. apply Nat.le_antisymm; apply count_le; intros i Hi; by rewrite H.
Qed.

(** Changing the predicate at one index. *)
Lemma count_change f g n i :
  i < n → (∀ j, j < n → j ≠ i → f j = g j) →
  count f n + (if g i then 1 else 0) = count g n + (if f i then 1 else 0).
Proof.
  induction n as [|n IH]; intros Hi H; simpl; [lia|].
  destruct (decide (n = i)) as [->|Hne].
  - rewrite (count_ext f g i) by (intros j Hj; apply H; lia). lia.
  - rewrite (H n) by lia. specialize (IH ltac:(lia) ltac:(intros j Hj; apply H; lia)). lia.
Qed.

(** An interval inside the bound counts its length. *)
Lemma count_interval lo hi n :
  lo ≤ hi ≤ n → count (λ i, (lo <=? i) && (i <? hi)) n = hi - lo.
Proof.
  revert hi. induction n as [|n IH]; intros hi Hh; simpl; [lia|].
  destruct (Nat.leb_spec lo n), (Nat.ltb_spec n hi); simpl.
  - assert (E : hi = S n) by lia. subst hi.
    rewrite (count_ext _ (λ i, (lo <=? i) && (i <? n))).
    + rewrite IH by lia. lia.
    + intros i Hi. destruct (Nat.ltb_spec i (S n)), (Nat.ltb_spec i n); (done || lia).
  - apply IH. lia.
  - rewrite count_none; [lia|]. intros i Hi. destruct (Nat.leb_spec lo i); [lia|done].
  - apply IH. lia.
Qed.

(** ** Tactics *)

(** Peel one monadic bind of the option monad in a hypothesis. *)
Ltac bind_inv H :=
  match type of H with
  | mbind _ ?m = Some _ =>
      let E := fresh "E" in destruct m eqn:E; simpl in H; [|discriminate H]
  end.

(** Case analysis on a looked-up updated list. *)
Ltac lookup_cases H :=
  apply list_lookup_insert_Some in H as [(?&?&?)|(?&H)]; simplify_eq/=.
