(* ===== verification/SchedCore.v ===== *)
(** * Data and machine state shared by the multiprocessor scheduling simulators

    [scheduler.h]'s structures, the arrays every [run_*] function of
    Group6_Project2 keeps (processes, [is_running], cpus, timeline), and the
    code fragments the simulators have in common: the pid-to-index searches,
    the completion bookkeeping and the one-millisecond execution step. *)

From S2P Require Import Prelude.
Open Scope Z_scope.

(** ** Machine integers

    The program computes with the C type [int].  A sum whose size depends on
    the input is computed by [int_add]; overflow is undefined behaviour. *)

Definition is_int (x : Z) : bool := (- 2 ^ 31 <=? x) && (x <? 2 ^ 31).
Definition int_add (x y : Z) : option Z := if is_int (x + y) then Some (x + y) else None.
Definition int_sub (x y : Z) : option Z := if is_int (x - y) then Some (x - y) else None.

Lemma is_int_true x : - 2 ^ 31 ≤ x < 2 ^ 31 → is_int x = true.
Proof. intros Hx. unfold is_int. rewrite andb_true_iff, Z.leb_le, Z.ltb_lt. lia. Qed.
Lemma int_add_ok x y : - 2 ^ 31 ≤ x + y < 2 ^ 31 → int_add x y = Some (x + y).
Proof. intros Hx. unfold int_add. by rewrite is_int_true. Qed.
Lemma int_sub_ok x y : - 2 ^ 31 ≤ x - y < 2 ^ 31 → int_sub x y = Some (x - y).
Proof. intros Hx. unfold int_sub. by rewrite is_int_true. Qed.

(** ** scheduler.h *)

Definition MAX_TIME : Z := 1000.

Record Process := mkProcess {
  pid : Z;
  arrival_time : Z;
  burst_time : Z;
  remaining_time : Z;
  priority : Z;
  deadline : Z;
  period : Z;
  io_wait_time : Z;
  completion_time : Z;
  turnaround_time : Z;
  waiting_time : Z;
  deadline_missed : Z }.

Record Processor := mkProcessor {
  core_id : Z;
  current_pid : Z;
  time_left_on_core : Z }.

(** Assignments to one field. *)

Definition set_remaining (v : Z) (p : Process) : Process :=
  mkProcess (pid p) (arrival_time p) (burst_time p) v (priority p) (deadline p)
    (period p) (io_wait_time p) (completion_time p) (turnaround_time p)
    (waiting_time p) (deadline_missed p).

Definition set_priority (v : Z) (p : Process) : Process :=
  mkProcess (pid p) (arrival_time p) (burst_time p) (remaining_time p) v (deadline p)
    (period p) (io_wait_time p) (completion_time p) (turnaround_time p)
    (waiting_time p) (deadline_missed p).

Definition set_missed (v : Z) (p : Process) : Process :=
  mkProcess (pid p) (arrival_time p) (burst_time p) (remaining_time p) (priority p)
    (deadline p) (period p) (io_wait_time p) (completion_time p) (turnaround_time p)
    (waiting_time p) v.

Definition set_metrics (ct tt wt : Z) (p : Process) : Process :=
  mkProcess (pid p) (arrival_time p) (burst_time p) (remaining_time p) (priority p)
    (deadline p) (period p) (io_wait_time p) ct tt wt (deadline_missed p).

Definition set_current (v : Z) (u : Processor) : Processor :=
  mkProcessor (core_id u) v (time_left_on_core u).

Definition set_left (v : Z) (u : Processor) : Processor :=
  mkProcessor (core_id u) (current_pid u) v.

(** ** The local variables of a [run_*] function *)

Record Sim := mkSim {
  procs : list Process;
  running : list Z;            (* is_running[100] *)
  cpus : list Processor;
  timeline : list (list Z);
  time : Z;
  completed : Z }.

Definition with_procs (l : list Process) (s : Sim) : Sim :=
  mkSim l (running s) (cpus s) (timeline s) (time s) (completed s).
Definition with_running (l : list Z) (s : Sim) : Sim :=
  mkSim (procs s) l (cpus s) (timeline s) (time s) (completed s).
Definition with_cpus (l : list Processor) (s : Sim) : Sim :=
  mkSim (procs s) (running s) l (timeline s) (time s) (completed s).
Definition with_timeline (l : list (list Z)) (s : Sim) : Sim :=
  mkSim (procs s) (running s) (cpus s) l (time s) (completed s).
Definition with_time (t : Z) (s : Sim) : Sim :=
  mkSim (procs s) (running s) (cpus s) (timeline s) t (completed s).
Definition with_completed (k : Z) (s : Sim) : Sim :=
  mkSim (procs s) (running s) (cpus s) (timeline s) (time s) k.

(** Array writes through the state; out of bounds is undefined behaviour. *)

Definition put_proc (i : nat) (p : Process) (s : Sim) : option Sim :=
  l ← aset (procs s) i p; Some (with_procs l s).
Definition put_running (i : nat) (v : Z) (s : Sim) : option Sim :=
  l ← aset (running s) i v; Some (with_running l s).
Definition put_cpu (c : nat) (u : Processor) (s : Sim) : option Sim :=
  l ← aset (cpus s) c u; Some (with_cpus l s).

(** [timeline[c][time] = v] *)
Definition put_cell (c : nat) (v : Z) (s : Sim) : option Sim :=
  row ← timeline s !! c;
  row' ← aset row (Z.to_nat (time s)) v;
  l ← aset (timeline s) c row';
  Some (with_timeline l s).

(** ** Initial values of the locals *)

Definition init_timeline (num_cpus : nat) : list (list Z) :=
  replicate num_cpus (replicate (Z.to_nat MAX_TIME) 0).

Definition init_running : list Z := replicate 100 0.

Definition init_cpus (num_cpus : nat) : list Processor :=
  (λ i, mkProcessor (Z.of_nat i) (-1) 0) <$> seq 0 num_cpus.

Definition init_sim (ps : list Process) (num_cpus : nat) : Sim :=
  mkSim ps init_running (init_cpus num_cpus) (init_timeline num_cpus) 0 0.

(** [while (completed < num_processes && time < MAX_TIME)] *)
Definition sim_cond (s : Sim) : bool :=
  (completed s <? Z.of_nat (length (procs s))) && (time s <? MAX_TIME).

(** ** Shared fragments *)

(** [for (i...) if (processes[i].pid == x) p_idx = i;] without a [break]: the
    last match.  [None] is the initial [-1]. *)
Fixpoint find_last_from (i : nat) (ps : list Process) (x : Z) (acc : option nat) : option nat :=
  match ps with
  | [] => acc
  | p :: ps' => find_last_from (S i) ps' x (if pid p =? x then Some i else acc)
  end.
Definition find_last (ps : list Process) (x : Z) : option nat := find_last_from 0 ps x None.

(** The same search with a [break]: the first match. *)
Fixpoint find_first_from (i : nat) (ps : list Process) (x : Z) : option nat :=
  match ps with
  | [] => None
  | p :: ps' => if pid p =? x then Some i else find_first_from (S i) ps' x
  end.
Definition find_first (ps : list Process) (x : Z) : option nat := find_first_from 0 ps x.

(** [processes[i].arrival_time <= time && processes[i].remaining_time > 0 &&
    !is_running[i]]; the third operand is read only when the first two hold. *)
Definition eligible (s : Sim) (i : nat) : option bool :=
  p ← procs s !! i;
  if (arrival_time p <=? time s) && (0 <? remaining_time p) then
    r ← running s !! i; Some (r =? 0)
  else Some false.

(** Completion bookkeeping of FCFS, MLFQ and EDF, which add the I/O wait. *)
Definition complete_io (t : Z) (p : Process) : option Process :=
  ct ← int_add t (io_wait_time p);
  tt ← int_sub ct (arrival_time p);
  d ← int_sub tt (burst_time p);
  wt ← int_sub d (io_wait_time p);
  Some (set_metrics ct tt wt p).

(** Lottery's and work stealing's bookkeeping does not. *)
Definition complete_plain (t : Z) (p : Process) : option Process :=
  tt ← int_sub t (arrival_time p);
  wt ← int_sub tt (burst_time p);
  Some (set_metrics t tt wt p).

(** The metrics when nothing overflows. *)
Definition io_metrics (t : Z) (p : Process) : Process :=
  let ct := t + io_wait_time p in
  let tt := ct - arrival_time p in
  set_metrics ct tt (tt - burst_time p - io_wait_time p) p.
Definition plain_metrics (t : Z) (p : Process) : Process :=
  let tt := t - arrival_time p in
  set_metrics t tt (tt - burst_time p) p.

(** The times of the process are below 2^29, far from the limits of [int]. *)
Definition moderate (p : Process) : Prop :=
  - 2 ^ 29 ≤ arrival_time p < 2 ^ 29 ∧ burst_time p < 2 ^ 29 ∧ - 2 ^ 29 ≤ io_wait_time p < 2 ^ 29.

Section Metrics.
Context (t : Z) (p : Process).
Hypothesis Ht : 0 ≤ t ≤ MAX_TIME.
Hypothesis Hb : 0 ≤ burst_time p.
Hypothesis Hm : moderate p.

Lemma complete_io_some : complete_io t p = Some (io_metrics t p).
Proof using Ht Hb Hm.
  destruct Hm as (? & ? & ?). unfold MAX_TIME in *. unfold complete_io.
  rewrite int_add_ok by lia. simpl. do 3 (rewrite int_sub_ok by lia; simpl). done.
Qed.

Lemma complete_plain_some : complete_plain t p = Some (plain_metrics t p).
Proof using Ht Hb Hm.
  destruct Hm as (? & ? & ?). unfold MAX_TIME in *. unfold complete_plain.
  do 2 (rewrite int_sub_ok by lia; simpl). done.
Qed.
End Metrics.

(** [processes[i] = p; is_running[i] = 0; cpus[c].current_pid = -1; completed++] *)
Definition finish (c i : nat) (u : Processor) (p : Process) (s : Sim) : option Sim :=
  s ← put_proc i p s;
  s ← put_running i 0 s;
  s ← put_cpu c (set_current (-1) u) s;
  Some (with_completed (completed s + 1) s).
