(* ===== verification/SchedInv.v ===== *)
(** * The invariant of the tick-based simulators

    FCFS, MLFQ, lottery and EDF keep the same arrays and change them in the
    same four ways: a finished process leaves its core, a process is taken
    off a core, an idle core takes an eligible process, and a core executes
    one millisecond of its process.  All four are instances of one state
    update [upd]; this file states the invariant of the arrays and proves
    that every such update keeps it.  The simulators' files then only have
    to show that their loops are made of these updates. *)

From S2P Require Import Prelude SchedCore.
Open Scope Z_scope.

(** ** Pid searches *)

Lemma find_first_from_spec k ps x i p :
  NoDup (pid <$> ps) → ps !! i = Some p → pid p = x →
  find_first_from k ps x = Some (k + i)%nat.
Proof.
  revert k i. induction ps as [|q ps IH]; intros k i Hnd Hi Hx; [done|].
  rewrite fmap_cons in Hnd. apply NoDup_cons in Hnd as [Hq Hnd].
  destruct i as [|i]; simplify_eq/=.
  - by rewrite Z.eqb_refl, Nat.add_0_r.
  - destruct (Z.eqb_spec (pid q) (pid p)) as [E|_].
    + destruct Hq. rewrite E. apply list_elem_of_fmap. eauto using list_elem_of_lookup_2.
    + rewrite (IH (S k) i) by done. f_equal. lia.
Qed.

Lemma find_last_from_none k ps x acc :
  x ∉ pid <$> ps → find_last_from k ps x acc = acc.
Proof.
  revert k. induction ps as [|q ps IH]; intros k H; [done|]. simpl.
  rewrite fmap_cons, not_elem_of_cons in H. destruct H as [Hq H].
  destruct (Z.eqb_spec (pid q) x); [congruence|]. by apply IH.
Qed.

Lemma find_last_from_spec k ps x i p acc :
  NoDup (pid <$> ps) → ps !! i = Some p → pid p = x →
  find_last_from k ps x acc = Some (k + i)%nat.
Proof.
  revert k i acc. induction ps as [|q ps IH]; intros k i acc Hnd Hi Hx; [done|].
  rewrite fmap_cons in Hnd. apply NoDup_cons in Hnd as [Hq Hnd].
  destruct i as [|i]; simplify_eq/=.
  - rewrite Z.eqb_refl, find_last_from_none by done. f_equal. lia.
  - rewrite (IH (S k) i) by done. f_equal. lia.
Qed.

Lemma find_first_spec ps x i p :
  NoDup (pid <$> ps) → ps !! i = Some p → pid p = x → find_first ps x = Some i.
Proof. apply (find_first_from_spec 0). Qed.

Lemma find_last_spec ps x i p :
  NoDup (pid <$> ps) → ps !! i = Some p → pid p = x → find_last ps x = Some i.
Proof. intros. by apply (find_last_from_spec 0 _ _ _ p). Qed.

(** ** The Gantt matrix *)

Definition cell (tl : list (list Z)) (c t : nat) : Z :=
  default 0 (row ← tl !! c; row !! t).

Definition hits (x : Z) (row : list Z) : Z := sumZ ((λ v, if v =? x then 1 else 0) <$> row).

(** The milliseconds the matrix records for pid [x], over all cores. *)
Definition served (tl : list (list Z)) (x : Z) : Z := sumZ (hits x <$> tl).

Lemma hits_insert x row t v w :
  row !! t = Some w →
  hits x (<[t:=v]> row) = hits x row - (if w =? x then 1 else 0) + (if v =? x then 1 else 0).
Proof.
  intros H. unfold hits. rewrite list_fmap_insert.
  apply sumZ_insert. by rewrite list_lookup_fmap, H.
Qed.

Lemma served_insert tl x c row t v w :
  tl !! c = Some row → row !! t = Some w →
  served (<[c:=<[t:=v]> row]> tl) x =
  served tl x - (if w =? x then 1 else 0) + (if v =? x then 1 else 0).
Proof.
  intros Hc Ht. unfold served. rewrite list_fmap_insert.
  erewrite sumZ_insert by (rewrite list_lookup_fmap, Hc; done).
  rewrite (hits_insert _ _ _ _ w) by done. lia.
Qed.

Lemma hits_nonneg x row : 0 ≤ hits x row.
Proof.
  apply sumZ_nonneg, Forall_fmap, Forall_true. intros v. simpl. destruct (v =? x); lia.
Qed.

(** A pid that occurs in the chart has been served. *)
Lemma served_pos tl x c t : x ≠ 0 → cell tl c t = x → 0 < served tl x.
Proof.
  intros Hx E. unfold cell in E. destruct (tl !! c) as [row|] eqn:Hc; [|done]. simpl in E.
  destruct (row !! t) as [v|] eqn:Ht; [|done]. simpl in E. subst v.
  assert (1 ≤ hits x row).
  { apply (sumZ_ge_elem _ t); [|by rewrite list_lookup_fmap, Ht; simpl; rewrite Z.eqb_refl].
    apply Forall_fmap, Forall_true. intros v. simpl. destruct (v =? x); lia. }
  assert (hits x row ≤ served tl x); [|lia].
  apply (sumZ_ge_elem _ c); [|by rewrite list_lookup_fmap, Hc].
  apply Forall_fmap, Forall_true. intros r. apply hits_nonneg.
Qed.

Lemma cell_insert tl c row t v c' t' :
  tl !! c = Some row → (t < length row)%nat →
  cell (<[c:=<[t:=v]> row]> tl) c' t' =
  if decide (c' = c ∧ t' = t) then v else cell tl c' t'.
Proof.
  intros Hc Ht. unfold cell.
  destruct (decide (c' = c)) as [->|Hne].
  - rewrite list_lookup_insert_eq by eauto using lookup_lt_Some. simpl.
    destruct (decide (t' = t)) as [->|Hnt].
    + rewrite list_lookup_insert_eq by done. by rewrite decide_True.
    + rewrite list_lookup_insert_ne by done. rewrite decide_False by (intros [? ?]; congruence).
      by rewrite Hc.
  - rewrite list_lookup_insert_ne by done. by rewrite decide_False by (intros [? ?]; congruence).
Qed.

(** ** What never changes about a process *)

Definition static (p : Process) : Z * Z * Z * Z * Z :=
  (pid p, arrival_time p, burst_time p, io_wait_time p, deadline p).

Lemma static_pid p q : static p = static q → pid p = pid q.
Proof. unfold static. congruence. Qed.

Lemma io_wait_static p q : static p = static q → io_wait_time p = io_wait_time q.
Proof. unfold static. congruence. Qed.

(** Inputs the simulators are meant for: distinct positive pids, at least one
    millisecond of work, nothing executed yet, times below 2^29, and no more
    processes than [is_running] has entries. *)
Definition fresh (p : Process) : Prop :=
  0 < pid p ∧ 0 < burst_time p ∧ remaining_time p = burst_time p ∧ moderate p.

Definition valid_input (ps : list Process) : Prop :=
  (length ps ≤ 100)%nat ∧ NoDup (pid <$> ps) ∧ Forall fresh ps.

Lemma valid_input_perm l k : valid_input l → k ≡ₚ l → valid_input k.
Proof.
  intros (Hl & Hn & HF) HP. split_and!.
  - by rewrite (Permutation_length HP).
  - by rewrite HP.
  - by rewrite HP.
Qed.

Section Invariant.

(** [P0]: the process table when the main loop starts; [m]: the number of
    cores; [io]: the I/O time the simulator adds to a completion time. *)
Context (P0 : list Process) (m : nat) (io : Process → Z).
Hypothesis Hvalid : valid_input P0.
Hypothesis io_static : ∀ p q, static p = static q → io p = io q.

(** Process [i] is the current process of core [c]. *)
Definition busy (s : Sim) (c i : nat) : Prop :=
  ∃ u p, cpus s !! c = Some u ∧ procs s !! i = Some p ∧ current_pid u = pid p.

Record shape (s : Sim) : Prop := {
  sh_running : length (running s) = 100%nat;
  sh_cpus : length (cpus s) = m;
  sh_tl : length (timeline s) = m;
  sh_rows : ∀ c row, timeline s !! c = Some row → length row = Z.to_nat MAX_TIME }.

(** Cores and flags agree, and no process is on two cores. *)
Record assign_ok (s : Sim) : Prop := {
  as_cpu : ∀ c u, cpus s !! c = Some u → current_pid u = -1 ∨ ∃ i, busy s c i;
  as_flag : ∀ c i, busy s c i → running s !! i = Some 1;
  as_core : ∀ i, (i < length (procs s))%nat → running s !! i = Some 1 → ∃ c, busy s c i;
  as_excl : ∀ c1 c2 i, busy s c1 i → busy s c2 i → c1 = c2;
  as_bit : ∀ i v, running s !! i = Some v → v = 0 ∨ v = 1 }.

(** The reported times of a completed process. *)
Definition metrics_ok (now : Z) (p : Process) : Prop :=
  turnaround_time p = completion_time p - arrival_time p ∧
  waiting_time p = turnaround_time p - burst_time p - io p ∧
  arrival_time p + burst_time p ≤ completion_time p - io p ≤ now.

(** Work accounting of process [i]; cores below [k] have executed this tick. *)
Record work_ok (k : nat) (s : Sim) (i : nat) (p : Process) : Prop := {
  wk_range : 0 ≤ remaining_time p ≤ burst_time p;
  wk_arrived : running s !! i = Some 1 → arrival_time p ≤ time s;
  wk_ran : burst_time p - remaining_time p ≤ Z.max 0 (time s - arrival_time p) + 1;
  wk_pace : (∀ c, busy s c i → (k ≤ c)%nat) →
    burst_time p - remaining_time p ≤ Z.max 0 (time s - arrival_time p);
  wk_served : served (timeline s) (pid p) = burst_time p - remaining_time p;
  wk_metrics : running s !! i = Some 0 → remaining_time p = 0 → metrics_ok (time s) p }.

(** The Gantt matrix: empty from now on, this column as the cores have it,
    no pid twice in a column, nothing before its arrival. *)
Record tl_ok (k : nat) (s : Sim) : Prop := {
  tl_future : ∀ c t, time s < Z.of_nat t ∨ (Z.of_nat t = time s ∧ (k ≤ c)%nat) →
    cell (timeline s) c t = 0;
  tl_now : ∀ c u, (c < k)%nat → cpus s !! c = Some u →
    cell (timeline s) c (Z.to_nat (time s)) = if current_pid u =? -1 then 0 else current_pid u;
  tl_excl : ∀ c1 c2 t, c1 ≠ c2 → cell (timeline s) c1 t = cell (timeline s) c2 t →
    cell (timeline s) c1 t = 0;
  tl_arr : ∀ c t i p, procs s !! i = Some p → cell (timeline s) c t = pid p →
    arrival_time p ≤ Z.of_nat t }.

Definition done_bit (p : Process) (r : Z) : Z :=
  if (remaining_time p =? 0) && (r =? 0) then 1 else 0.
Definition ndone (s : Sim) : Z := sumZ (zip_with done_bit (procs s) (running s)).

(** The invariant.  [k]: cores below it have executed in this tick.
    [live]: the cores whose process is known to have work left. *)
Record Inv (k : nat) (live : nat → Prop) (s : Sim) : Prop := {
  I_shape : shape s;
  I_static : static <$> procs s = static <$> P0;
  I_assign : assign_ok s;
  I_work : ∀ i p, procs s !! i = Some p → work_ok k s i p;
  I_live : ∀ c i p, live c → busy s c i → procs s !! i = Some p → 0 < remaining_time p;
  I_done : completed s = ndone s;
  I_tl : tl_ok k s;
  I_time : 0 ≤ time s ≤ MAX_TIME }.

(** ** Consequences of the static part *)

Section Static.
Context (s : Sim).
Hypothesis Hst : static <$> procs s = static <$> P0.

Lemma procs_length : length (procs s) = length P0.
Proof. rewrite <- (length_fmap static), Hst. by rewrite length_fmap. Qed.

Lemma procs_static i p :
  procs s !! i = Some p → ∃ q, P0 !! i = Some q ∧ static p = static q.
Proof.
  intros H. assert (E : (static <$> procs s) !! i = (static <$> P0) !! i) by by rewrite Hst.
  rewrite !list_lookup_fmap, H in E. simpl in E.
  destruct (P0 !! i) as [q|]; [|done]. apply (inj Some) in E. eauto.
Qed.

Lemma procs_pids : pid <$> procs s = pid <$> P0.
Proof.
  assert (E : ∀ l : list Process, pid <$> l = (λ x : Z * Z * Z * Z * Z, x.1.1.1.1) <$> (static <$> l)).
  { intros l. by rewrite <- list_fmap_compose. }
  by rewrite !E, Hst.
Qed.

Lemma procs_nodup : NoDup (pid <$> procs s).
Proof. rewrite procs_pids. apply Hvalid. Qed.

Lemma procs_fresh i p : procs s !! i = Some p → 0 < pid p ∧ 0 < burst_time p.
Proof.
  intros H. destruct (procs_static i p H) as (q & Hq & E).
  destruct Hvalid as (_ & _ & HF). rewrite Forall_lookup in HF.
  destruct (HF i q Hq) as (? & ? & _). unfold static in E. simplify_eq. lia.
Qed.

Lemma procs_moderate i p : procs s !! i = Some p → moderate p.
Proof.
  intros H. destruct (procs_static i p H) as (q & Hq & E).
  destruct Hvalid as (_ & _ & HF). rewrite Forall_lookup in HF.
  destruct (HF i q Hq) as (_ & _ & _ & HM). unfold static in E. unfold moderate in *. simplify_eq.
  by rewrite H2, H3, H4.
Qed.

Lemma procs_lt i p : procs s !! i = Some p → (i < 100)%nat.
Proof.
  intros H. apply lookup_lt_Some in H. rewrite procs_length in H.
  destruct Hvalid as (? & _). lia.
Qed.

Lemma pid_inj i j p q :
  procs s !! i = Some p → procs s !! j = Some q → pid p = pid q → i = j.
Proof.
  intros Hi Hj E. eapply NoDup_lookup; [apply procs_nodup| |].
  - rewrite list_lookup_fmap, Hi. done.
  - rewrite list_lookup_fmap, Hj. simpl. by rewrite E.
Qed.

Lemma busy_fun c i j : busy s c i → busy s c j → i = j.
Proof.
  intros (u & p & ? & ? & ?) (u' & q & ? & ? & ?). simplify_eq.
  eapply pid_inj; eauto. congruence.
Qed.

Lemma busy_not_idle c i u : busy s c i → cpus s !! c = Some u → current_pid u ≠ -1.
Proof.
  intros (u' & p & ? & Hp & ?) ?. simplify_eq. apply procs_fresh in Hp. lia.
Qed.

End Static.

(** ** The update *)

(** Core [c] and process [i] change to [u] and [p], flag [i] to [r]. *)
Definition upd (c i : nat) (u : Processor) (p : Process) (r : Z)
    (tl : list (list Z)) (k : Z) (s : Sim) : Sim :=
  mkSim (<[i:=p]> (procs s)) (<[i:=r]> (running s)) (<[c:=u]> (cpus s)) tl (time s) k.

Section Update.
Context (s : Sim) (c i : nat) (u u' : Processor) (p p' : Process) (tl : list (list Z)) (nd : Z).
(** Whether process [i] is on core [c] afterwards. *)
Context (occ : bool) (r : Z).
Hypothesis Hr : r = if occ then 1 else 0.
Hypothesis Hst : static <$> procs s = static <$> P0.
Hypothesis Has : assign_ok s.
Hypothesis Hsh : shape s.
Hypothesis Hc : cpus s !! c = Some u.
Hypothesis Hi : procs s !! i = Some p.
Hypothesis Hp : static p' = static p.
Hypothesis Hu : current_pid u' = if occ then pid p else -1.
(** Before, the core held this process, or both were free. *)
Hypothesis Hbefore : busy s c i ∨ (current_pid u = -1 ∧ running s !! i = Some 0).

Let s' := upd c i u' p' r tl nd s.

Lemma upd_static : static <$> procs s' = static <$> P0.
Proof using Hst Hi Hp.
  simpl. rewrite list_fmap_insert, Hp, list_insert_id; [done|].
  by rewrite list_lookup_fmap, Hi.
Qed.

Lemma upd_shape : length tl = m →
  (∀ c row, tl !! c = Some row → length row = Z.to_nat MAX_TIME) → shape s'.
Proof using Hsh.
  intros. destruct Hsh. split; simpl; rewrite ?length_insert; done.
Qed.

Lemma before_only j : busy s c j → j = i.
Proof using Hst Hc Hbefore Hvalid.
  intros Hj. destruct Hbefore as [Hb|[Hidle _]].
  - eapply busy_fun; eauto.
  - by destruct (busy_not_idle s Hst c j u Hj Hc).
Qed.

(** The procs array seen through the update, up to static data. *)
Lemma upd_procs j q :
  procs s' !! j = Some q →
  (j = i ∧ q = p') ∨ (j ≠ i ∧ procs s !! j = Some q).
Proof using.
  simpl. intros [(<- & <- & _)|(? & ?)]%list_lookup_insert_Some; eauto.
Qed.

Lemma upd_busy c' j : busy s' c' j ↔ (c' ≠ c ∧ busy s c' j) ∨ (c' = c ∧ j = i ∧ occ = true).
Proof using Hst Hc Hi Hp Hu Hvalid.
  pose proof (static_pid _ _ Hp) as Epid.
  assert (Hold : ∀ j q, procs s' !! j = Some q → ∃ q0, procs s !! j = Some q0 ∧ pid q0 = pid q).
  { intros j' q Hq. apply upd_procs in Hq as [[-> ->]|[_ Hq]]; eauto. }
  assert (Hnew : ∀ j q, procs s !! j = Some q → ∃ q0, procs s' !! j = Some q0 ∧ pid q0 = pid q).
  { intros j' q Hq. destruct (decide (j' = i)) as [->|Hne].
    - exists p'. simpl. rewrite list_lookup_insert_eq by eauto using lookup_lt_Some.
      split; [done|]. congruence.
    - exists q. simpl. by rewrite list_lookup_insert_ne by done. }
  split.
  - intros (w & q & Hw & Hq & E). apply Hold in Hq as (q0 & Hq0 & Eq).
    simpl in Hw. apply list_lookup_insert_Some in Hw as [(<- & <- & _)|(? & Hw)].
    + right. destruct (bool_cases occ) as [Eo|Eo]; rewrite Eo in Hu.
      * split; [done|]. split; [|done]. eapply (pid_inj s Hst j i q0 p); eauto. congruence.
      * apply procs_fresh in Hq0; [|done]. rewrite Hu in E. lia.
    + left. split; [done|]. exists w, q0. split_and!; [done..|congruence].
  - intros [[Hne (w & q & Hw & Hq & E)]|(-> & -> & Ho)].
    + apply Hnew in Hq as (q0 & Hq0 & Eq). exists w, q0.
      split_and!; [simpl; by rewrite list_lookup_insert_ne|done|congruence].
    + apply Hnew in Hi as (q0 & Hq0 & Eq). exists u', q0. rewrite Ho in Hu.
      split_and!; [simpl|done|congruence].
      rewrite list_lookup_insert_eq; eauto using lookup_lt_Some.
Qed.

Lemma upd_running j v :
  running s' !! j = Some v →
  (j = i ∧ v = r) ∨ (j ≠ i ∧ running s !! j = Some v).
Proof using.
  simpl. intros [(<- & <- & _)|(? & ?)]%list_lookup_insert_Some; eauto.
Qed.

Lemma upd_running_i : running s' !! i = Some r.
Proof using Hst Hi Hsh Hvalid.
  simpl. apply list_lookup_insert_eq. destruct Hsh as [-> _ _ _]. by eapply procs_lt.
Qed.

Lemma upd_assign : assign_ok s'.
Proof using Hr Hst Has Hsh Hc Hi Hp Hu Hbefore Hvalid.
  assert (Hci : ∀ c', busy s c' i → c' = c).
  { intros c' Hb. destruct Hbefore as [Hb'|[_ Hr0]].
    - by eapply as_excl.
    - apply as_flag in Hb; [|done]. congruence. }
  split.
  - intros c' w Hw. apply list_lookup_insert_Some in Hw as [(<- & <- & _)|(? & Hw)].
    + destruct (bool_cases occ) as [Eo|Eo]; [|rewrite Eo in Hu; by left].
      right. exists i. apply upd_busy. by right.
    + destruct (as_cpu s Has c' w Hw) as [?|[j Hj]]; [by left|].
      right. exists j. apply upd_busy. by left.
  - intros c' j [[Hne Hb]|(-> & -> & Ho)]%upd_busy; [|by rewrite upd_running_i, Hr, Ho].
    simpl. rewrite list_lookup_insert_ne; [by eapply as_flag|].
    intros ->. by apply Hci in Hb.
  - intros j Hj Hrj. apply upd_running in Hrj as [[-> Hv]|[Hne Hrj]].
    + destruct (bool_cases occ) as [Eo|Eo]; [|by rewrite Hr, Eo in Hv]. exists c. apply upd_busy. by right.
    + simpl in Hj. rewrite length_insert in Hj.
      destruct (as_core s Has j Hj Hrj) as [c' Hb]. exists c'. apply upd_busy. left.
      split; [|done]. intros ->. by apply before_only in Hb.
  - intros c1 c2 j [[? H1]|(-> & -> & Ho)]%upd_busy [[? H2]|(-> & Hj & Ho')]%upd_busy;
      subst; try done.
    + by eapply as_excl.
    + by apply Hci in H1.
    + by apply Hci in H2.
  - intros j v Hv. apply upd_running in Hv as [[-> ->]|[_ Hv]]; [|by eapply as_bit].
    rewrite Hr. destruct (bool_cases occ) as [->| ->]; auto.
Qed.

(** Only process [i]'s completion bit can change. *)
Lemma upd_ndone r0 :
  running s !! i = Some r0 →
  ndone s' = ndone s - done_bit p r0 + done_bit p' r.
Proof using Hi.
  intros Hr0. unfold ndone. simpl. rewrite <- insert_zip_with.
  apply sumZ_insert. rewrite lookup_zip_with, Hi, Hr0. done.
Qed.

(** The other processes' work accounting survives the update. *)
Lemma upd_work_other k j q :
  j ≠ i → served tl (pid q) = served (timeline s) (pid q) →
  procs s !! j = Some q → work_ok k s j q → work_ok k s' j q.
Proof using Hst Hc Hi Hp Hu Hbefore Hvalid.
  intros Hne Hserved Hq [].
  split; simpl; rewrite ?Hserved, ?(list_lookup_insert_ne _ i j) by done; auto.
  intros Hb. apply wk_pace0. intros c' Hb'. apply Hb. apply upd_busy. left.
  split; [|done]. intros ->. by apply before_only in Hb'.
Qed.

(** The other processes' remaining work survives the update. *)
Lemma upd_live_other (live : nat → Prop) c' j q :
  (∀ c i p, live c → busy s c i → procs s !! i = Some p → 0 < remaining_time p) →
  live c' → j ≠ i → busy s' c' j → procs s' !! j = Some q → 0 < remaining_time q.
Proof using Hst Hc Hi Hp Hu Hvalid.
  intros Hlive Hl Hne [[_ Hb]|(_ & ? & _)]%upd_busy Hq; [|done].
  apply upd_procs in Hq as [[? _]|[_ Hq]]; [done|]. eauto.
Qed.

End Update.

(** ** The events *)

Lemma Inv_weaken k (l1 l2 : nat → Prop) s : (∀ c, l2 c → l1 c) → Inv k l1 s → Inv k l2 s.
Proof. intros H []. split; try done. eauto. Qed.

Lemma busy_intro s c i u p :
  cpus s !! c = Some u → procs s !! i = Some p → current_pid u = pid p → busy s c i.
Proof. intros. by exists u, p. Qed.

(** A core that is idle, or whose process has work left, is live. *)
Lemma Inv_live_idle k live s c u :
  Inv k live s → cpus s !! c = Some u → current_pid u = -1 →
  Inv k (λ c', c' = c ∨ live c') s.
Proof.
  intros HI Hu Eu. destruct HI. split; try done.
  intros c' j q [->|?] Hb Hq; [|by eapply I_live0].
  by destruct (busy_not_idle s I_static0 c j u Hb Hu).
Qed.

Lemma Inv_live_busy k live s c i p :
  Inv k live s → busy s c i → procs s !! i = Some p → 0 < remaining_time p →
  Inv k (λ c', c' = c ∨ live c') s.
Proof.
  intros HI Hb Hp Hrem. destruct HI. split; try done.
  intros c' j q [->|?] Hb' Hq; [|by eapply I_live0].
  assert (j = i) as -> by by eapply busy_fun. by simplify_eq.
Qed.

(** Before the execution step, nobody is ahead of the clock. *)
Lemma Inv_pace live s i p :
  Inv 0 live s → procs s !! i = Some p →
  burst_time p - remaining_time p ≤ Z.max 0 (time s - arrival_time p).
Proof. intros HI Hp. apply (wk_pace 0 s i p); [by apply HI|lia]. Qed.

Section Event.
Context (live : nat → Prop) (s : Sim) (c i : nat) (u u' : Processor) (p p' : Process).
Hypothesis HI : Inv 0 live s.
Hypothesis Hc : cpus s !! c = Some u.
Hypothesis Hi : procs s !! i = Some p.
Hypothesis Hstat : static p' = static p.

(** Process [i] leaves core [c], finished or not. *)
Lemma Inv_leave k :
  current_pid u = pid p → current_pid u' = -1 →
  remaining_time p' = remaining_time p →
  (remaining_time p = 0 → metrics_ok (time s) p') →
  k = completed s + (if remaining_time p =? 0 then 1 else 0) →
  Inv 0 (λ c', c' = c ∨ live c') (upd c i u' p' 0 (timeline s) k s).
Proof.
  intros Hcur Hcur' Hrem Hmet Hk. pose proof (busy_intro _ _ _ _ _ Hc Hi Hcur) as Hb.
  pose proof HI as [Hsh Hst Has Hwk Hlv Hdn Htl Htm].
  pose proof (as_flag s Has c i Hb) as Hflag.
  pose proof (Hwk i p Hi) as Hw. pose proof Hstat as Hstat'. unfold static in Hstat'.
  assert (Hocc : current_pid u' = if false then pid p else -1) by done.
  split.
  - eapply upd_shape; [done|apply Hsh..].
  - by eapply upd_static.
  - eapply (upd_assign s c i u u' p p' _ _ false 0); eauto.
  - intros j q [[-> ->]|[Hne Hq]]%upd_procs;
      [|by eapply (upd_work_other s c i u u' p p' _ _ false 0); eauto].
    destruct Hw. simplify_eq. split; simpl; rewrite ?Hrem; try congruence; try lia.
    + rewrite list_lookup_insert_eq; [done|]. destruct Hsh as [-> _ _ _]. by eapply procs_lt.
    + intros _. replace (burst_time p') with (burst_time p) by congruence.
      replace (arrival_time p') with (arrival_time p) by congruence. by eapply Inv_pace.
    + intros _. auto.
  - intros c' j q Hl Hb' Hq. destruct (decide (j = i)) as [->|Hne].
    + apply (upd_busy s c i u u' p p' _ _ false 0) in Hb' as [[Hne Hb']|(_ & _ & ?)]; try done.
      destruct Hne. by eapply as_excl.
    + destruct Hl as [->|Hl]; [|by eapply (upd_live_other s c i u u' p p' _ _ false 0)].
      apply (upd_busy s c i u u' p p' _ _ false 0) in Hb' as [[? _]|(_ & ? & _)]; done.
  - simpl. rewrite (upd_ndone s c i u' p p' (timeline s) k 0 Hi 1), <- Hdn by done.
    unfold done_bit. rewrite Hrem. destruct (remaining_time p =? 0); simpl; lia.
  - destruct Htl. split; [done|simpl; lia|done|].
    intros c' t j q [[-> ->]|[_ Hq]]%upd_procs; [|by eauto].
    replace (pid p') with (pid p) by congruence.
    replace (arrival_time p') with (arrival_time p) by congruence. eauto.
  - done.
Qed.

(** An idle core takes an eligible process. *)
Lemma Inv_take :
  (∀ c, live c) →
  current_pid u = -1 → current_pid u' = pid p → p' = p →
  running s !! i = Some 0 → arrival_time p ≤ time s → 0 < remaining_time p →
  Inv 0 live (upd c i u' p' 1 (timeline s) (completed s) s).
Proof.
  intros Hall Hcur Hcur' -> Hflag Harr Hrem.
  pose proof HI as [Hsh Hst Has Hwk Hlv Hdn Htl Htm].
  assert (Hocc : current_pid u' = if true then pid p else -1) by done.
  split.
  - eapply upd_shape; [done|apply Hsh..].
  - by eapply upd_static.
  - eapply (upd_assign s c i u u' p p _ _ true 1); eauto.
  - intros j q [[-> ->]|[Hne Hq]]%upd_procs;
      [|by eapply (upd_work_other s c i u u' p p _ _ true 1); eauto].
    destruct (Hwk i p Hi). split; simpl; try done.
    + intros _. by eapply Inv_pace.
    + rewrite list_lookup_insert_eq; [done|]. destruct Hsh as [-> _ _ _]. by eapply procs_lt.
  - intros c' j q Hl Hb' Hq. destruct (decide (j = i)) as [->|Hne].
    + by apply upd_procs in Hq as [[_ ->]|[? _]].
    + by eapply (upd_live_other s c i u u' p p _ _ true 1).
  - simpl. rewrite (upd_ndone s c i u' p p (timeline s) _ 1 Hi 0), <- Hdn by done.
    unfold done_bit. destruct (Z.eqb_spec (remaining_time p) 0); simpl; lia.
  - destruct Htl. split; [done|simpl; lia|done|].
    intros c' t j q [[-> ->]|[_ Hq]]%upd_procs; by eauto.
  - done.
Qed.

End Event.

(** ** The execution step *)

Lemma work_ok_S k s i p : work_ok k s i p → work_ok (S k) s i p.
Proof. intros []. split; try done. intros H. apply wk_pace0. intros c Hb. apply H in Hb. lia. Qed.

(** The cell a core is about to write exists and is still empty. *)
Lemma Inv_cell k live s c :
  Inv k live s → (k ≤ c)%nat → (c < m)%nat → time s < MAX_TIME →
  ∃ row, timeline s !! c = Some row ∧ row !! Z.to_nat (time s) = Some 0.
Proof.
  intros HI Hk Hc Ht. destruct HI as [[_ _ Hl Hr] _ _ _ _ _ Htl H0].
  destruct (lookup_lt_is_Some_2 (timeline s) c) as [row Hrow]; [lia|].
  exists row. split; [done|].
  destruct (lookup_lt_is_Some_2 row (Z.to_nat (time s))) as [v Hv].
  { rewrite (Hr c row Hrow). lia. }
  rewrite Hv. f_equal. transitivity (cell (timeline s) c (Z.to_nat (time s))).
  - unfold cell. by rewrite Hrow; simpl; rewrite Hv.
  - apply (tl_future k s); [done|]. right. lia.
Qed.

Lemma put_cell_ok k live s c v :
  Inv k live s → (k ≤ c)%nat → (c < m)%nat → time s < MAX_TIME →
  ∃ row, timeline s !! c = Some row ∧ row !! Z.to_nat (time s) = Some 0 ∧
    put_cell c v s = Some (with_timeline (<[c:=<[Z.to_nat (time s):=v]> row]> (timeline s)) s).
Proof.
  intros HI Hk Hc Ht. destruct (Inv_cell k live s c HI Hk Hc Ht) as (row & Hrow & Hv).
  exists row. split_and!; [done..|]. unfold put_cell. rewrite Hrow. simpl.
  rewrite aset_Some by eauto using lookup_lt_Some. simpl.
  by rewrite aset_Some by eauto using lookup_lt_Some.
Qed.

(** Writing an idle core's [0] changes nothing. *)
Lemma put_cell_idle k live s c :
  Inv k live s → (k ≤ c)%nat → (c < m)%nat → time s < MAX_TIME → put_cell c 0 s = Some s.
Proof.
  intros HI Hk Hc Ht. destruct (put_cell_ok k live s c 0 HI Hk Hc Ht) as (row & Hrow & Hv & ->).
  rewrite (list_insert_id row), list_insert_id by done. by destruct s.
Qed.

Lemma Inv_exec_idle s c u :
  Inv c (λ c', c ≤ c')%nat s → cpus s !! c = Some u → current_pid u = -1 →
  Inv (S c) (λ c', S c ≤ c')%nat s.
Proof.
  intros HI Hu Eu. destruct HI as [Hsh Hst Has Hwk Hlv Hdn Htl H0].
  split; try done.
  - intros i p Hp. by apply work_ok_S, Hwk.
  - intros c' i p Hc'. apply Hlv. lia.
  - destruct Htl. split; try done.
    + intros c' t Ht. apply tl_future0. lia.
    + intros c' u' Hc' Hu'. destruct (decide (c' = c)) as [->|Hne]; [|apply tl_now0; [lia|done]].
      simplify_eq. rewrite Eu. simpl. apply tl_future0. lia.
Qed.

Section Exec.
Context (s : Sim) (c i : nat) (u u' : Processor) (p p' : Process) (row : list Z).
Hypothesis HI : Inv c (λ c', c ≤ c')%nat s.
Hypothesis Hc : cpus s !! c = Some u.
Hypothesis Hi : procs s !! i = Some p.
Hypothesis Hcur : current_pid u = pid p.
Hypothesis Hcur' : current_pid u' = pid p.
Hypothesis Hstat : static p' = static p.
Hypothesis Hrem : remaining_time p' = remaining_time p - 1.
Hypothesis Ht : time s < MAX_TIME.
Hypothesis Hrow : timeline s !! c = Some row.
Hypothesis Hcell : row !! Z.to_nat (time s) = Some 0.

Definition exec_tl : list (list Z) :=
  <[c:=<[Z.to_nat (time s):=pid p]> row]> (timeline s).

Lemma exec_cell c' t' :
  cell exec_tl c' t' =
  if decide (c' = c ∧ t' = Z.to_nat (time s)) then pid p else cell (timeline s) c' t'.
Proof using Hrow Hcell. apply cell_insert; eauto using lookup_lt_Some. Qed.

Lemma exec_served x : 0 < x →
  served exec_tl x = served (timeline s) x + (if pid p =? x then 1 else 0).
Proof using Hrow Hcell.
  intros Hx. unfold exec_tl. rewrite (served_insert _ _ _ _ _ _ 0) by done.
  destruct (Z.eqb_spec 0 x); lia.
Qed.

Lemma exec_now c' : c' ≠ c → cell (timeline s) c' (Z.to_nat (time s)) = pid p → False.
Proof using HI Hc Hi Hcur Hvalid.
  intros Hne E. pose proof HI as [Hsh Hst Has Hwk Hlv Hdn Htl H0].
  destruct (procs_fresh s Hst i p Hi) as [Hpos _].
  destruct (decide (c' < c)%nat) as [Hlt|Hge].
  - destruct (lookup_lt_is_Some_2 (cpus s) c') as [w Hw].
    { apply lookup_lt_Some in Hc. lia. }
    rewrite (tl_now c s Htl c' w) in E by done.
    destruct (Z.eqb_spec (current_pid w) (-1)); [lia|].
    apply Hne. eapply (as_excl s Has c' c i); by eapply busy_intro.
  - rewrite (tl_future c s Htl) in E; [lia|]. right. lia.
Qed.

Lemma exec_tl_ok : tl_ok (S c) (upd c i u' p' 1 exec_tl (completed s) s).
Proof using HI Hc Hi Hcur Hcur' Hstat Hrow Hcell Hvalid.
  pose proof HI as [Hsh Hst Has Hwk Hlv Hdn Htl H0]. pose proof Htl as [Hfut Hnow Hex Harr].
  destruct (procs_fresh s Hst i p Hi) as [Hpos _]. pose proof Hstat as Hs. unfold static in Hs.
  split.
  - intros c' t Hct. simpl in *. rewrite exec_cell. rewrite decide_False by lia.
    apply Hfut. lia.
  - intros c' w Hc' Hw. simpl in Hw |- *. rewrite exec_cell.
    apply list_lookup_insert_Some in Hw as [(<- & <- & _)|(Hne & Hw)].
    + rewrite decide_True by done. destruct (Z.eqb_spec (current_pid u') (-1)); lia.
    + rewrite decide_False by (intros [? ?]; congruence). apply Hnow; [lia|done].
  - intros c1 c2 t Hne. simpl. rewrite !exec_cell.
    destruct (decide (c1 = c ∧ t = Z.to_nat (time s))) as [[H1 Et]|];
      destruct (decide (c2 = c ∧ t = Z.to_nat (time s))) as [[H2 Et']|];
      [congruence| | |by apply Hex]; intros E; subst t.
    + symmetry in E. apply exec_now in E; [done|congruence].
    + apply exec_now in E; [done|congruence].
  - intros c' t j q Hq. simpl. rewrite exec_cell.
    assert (∃ q0, procs s !! j = Some q0 ∧ pid q0 = pid q ∧ arrival_time q0 = arrival_time q)
      as (q0 & Hq0 & <- & <-).
    { apply upd_procs in Hq as [[-> ->]|[_ Hq]]; [|by eauto]. exists p. split_and!; congruence. }
    case_decide as Hd; [|by eapply Harr]. destruct Hd as [_ ->]. intros E.
    assert (i = j) as <- by by eapply (pid_inj s Hst i j p q0). simplify_eq.
    rewrite Z2Nat.id by lia. apply (wk_arrived c s i p); [by apply Hwk|].
    eapply as_flag; [done|]. by eapply busy_intro.
Qed.

Lemma Inv_exec : Inv (S c) (λ c', S c ≤ c')%nat (upd c i u' p' 1 exec_tl (completed s) s).
Proof using HI Hc Hi Hcur Hcur' Hstat Hrem Ht Hrow Hcell Hvalid.
  pose proof HI as [Hsh Hst Has Hwk Hlv Hdn Htl H0].
  pose proof (busy_intro _ _ _ _ _ Hc Hi Hcur) as Hb.
  assert (Hpos : 0 < remaining_time p) by (eapply (Hlv c i); eauto).
  pose proof Hstat as Hs. unfold static in Hs.
  split.
  - eapply upd_shape; [done|..]; unfold exec_tl.
    + rewrite length_insert. apply Hsh.
    + intros c' row' Hr. apply list_lookup_insert_Some in Hr as [(<- & <- & _)|(_ & Hr)].
      * rewrite length_insert. by eapply sh_rows.
      * by eapply sh_rows.
  - by eapply upd_static.
  - by eapply (upd_assign s c i u u' p p' _ _ true 1); eauto.
  - intros j q [[-> ->]|[Hne Hq]]%upd_procs; cycle 1.
    { apply work_ok_S, (upd_work_other s c i u u' p p' _ _ true 1); auto.
      rewrite exec_served by (by eapply procs_fresh).
      destruct (Z.eqb_spec (pid p) (pid q)); [|lia].
      destruct Hne. by eapply (pid_inj s Hst j i q p). }
    assert (Hpc : burst_time p - remaining_time p ≤ Z.max 0 (time s - arrival_time p)).
    { apply (wk_pace c s i p); [by apply Hwk|]. intros c' Hb'.
      by rewrite (as_excl s Has c' c i). }
    destruct (Hwk i p Hi). injection Hs as Es1 Es2 Es3 Es4 Es5. split; simpl; rewrite ?Hrem.
    + lia.
    + intros _. replace (arrival_time p') with (arrival_time p) by congruence.
      apply wk_arrived0. by eapply as_flag.
    + lia.
    + intros Hbad. assert (S c ≤ c)%nat; [|lia]. apply Hbad.
      apply (upd_busy s c i u u' p p' _ _ true 1); auto.
    + replace (pid p') with (pid p) by congruence.
      rewrite exec_served, Z.eqb_refl by (by eapply procs_fresh). lia.
    + rewrite list_lookup_insert_eq; [done|]. rewrite (sh_running s Hsh). by eapply procs_lt.
  - intros c' j q Hl Hb' Hq.
    apply (upd_busy s c i u u' p p' _ _ true 1) in Hb' as [[Hne Hb']|(-> & _)]; auto; [|lia].
    apply upd_procs in Hq as [[-> _]|[_ Hq]].
    + destruct Hne. by eapply as_excl.
    + eapply (Hlv c' j); eauto. lia.
  - simpl. rewrite (upd_ndone s c i u' p p' _ _ 1 Hi 1), <- Hdn by (by eapply as_flag).
    unfold done_bit. rewrite !andb_false_r. lia.
  - by apply exec_tl_ok.
  - done.
Qed.

End Exec.

(** ** Start and end of a tick *)

Lemma Inv_tick live s : time s < MAX_TIME → Inv m live s → Inv 0 (λ _, False) (with_time (time s + 1) s).
Proof.
  intros Hlt [Hsh Hst Has Hwk Hlv Hdn Htl H0]. destruct Hsh as [Hl1 Hl2 Hl3 Hl4].
  split; try done.
  - by destruct Has.
  - intros i p Hp. destruct (Hwk i p Hp). split; simpl; try done; try lia.
    + intros Hr. apply wk_arrived0 in Hr. lia.
    + intros _. destruct (decide (running s !! i = Some 1)) as [Hr|Hr].
      * apply wk_arrived0 in Hr. lia.
      * assert (burst_time p - remaining_time p ≤ Z.max 0 (time s - arrival_time p)); [|lia].
        apply wk_pace0. intros c Hb. by apply (as_flag s Has) in Hb.
    + intros Hr Hz. destruct (wk_metrics0 Hr Hz) as (? & ? & ?).
      unfold metrics_ok. split_and!; lia.
  - destruct Htl. split; simpl; try done.
    + intros c t Hct. apply tl_future0. lia.
    + lia.
  - simpl. lia.
Qed.

Lemma init_running_lookup i v : init_running !! i = Some v → v = 0.
Proof. unfold init_running. intros H. by apply lookup_replicate in H as [-> _]. Qed.

Lemma init_cell c t : cell (init_timeline m) c t = 0.
Proof.
  unfold cell. destruct (init_timeline m !! c) as [row|] eqn:E; [|done].
  apply lookup_replicate in E as [-> _]. cbn [mbind option_bind].
  destruct (replicate (Z.to_nat MAX_TIME) 0 !! t) as [v|] eqn:E; [|done].
  by apply lookup_replicate in E as [-> _].
Qed.

Lemma init_cpus_idle n c u : init_cpus n !! c = Some u → current_pid u = -1.
Proof.
  unfold init_cpus. rewrite list_lookup_fmap.
  destruct (seq 0 n !! c); simpl; intros; by simplify_eq/=.
Qed.

Lemma init_served x : 0 < x → served (init_timeline m) x = 0.
Proof.
  intros Hx. unfold served, init_timeline. rewrite fmap_replicate.
  rewrite (sumZ_const _ 0); [lia|]. apply Forall_replicate.
  unfold hits. rewrite fmap_replicate. destruct (Z.eqb_spec 0 x); [lia|].
  rewrite (sumZ_const _ 0); [lia|]. by apply Forall_replicate.
Qed.

Lemma init_not_busy c i : ¬ busy (init_sim P0 m) c i.
Proof.
  intros (u & p & Hu & Hp & E). apply init_cpus_idle in Hu.
  simpl in Hp. destruct Hvalid as (_ & _ & HF). rewrite Forall_lookup in HF.
  destruct (HF i p Hp). lia.
Qed.

Lemma Inv_init : Inv 0 (λ _, False) (init_sim P0 m).
Proof.
  pose proof Hvalid as (Hlen & _ & HF). rewrite Forall_lookup in HF.
  split; try done.
  - split; simpl; unfold init_cpus, init_timeline;
      rewrite ?length_fmap, ?length_seq, ?length_replicate; try done.
    intros c row Hr. apply lookup_replicate in Hr as [-> _]. apply length_replicate.
  - split.
    + intros c u Hu. left. exact (init_cpus_idle m c u Hu).
    + intros c i Hb. by apply init_not_busy in Hb.
    + intros i _ Hr. by apply init_running_lookup in Hr.
    + intros c1 c2 i Hb. by apply init_not_busy in Hb.
    + intros i v Hr. left. exact (init_running_lookup i v Hr).
  - intros i p Hp. destruct (HF i p Hp) as (? & ? & ?). split; simpl; try lia.
    + intros Hr. by apply init_running_lookup in Hr.
    + rewrite init_served by done. lia.
  - simpl. unfold ndone. rewrite (sumZ_const _ 0); [done|].
    apply Forall_lookup. intros i b Hb. rewrite lookup_zip_with in Hb. simpl in Hb.
    destruct (P0 !! i) as [p|] eqn:Hp; simplify_eq/=.
    destruct (init_running !! i); simplify_eq/=.
    destruct (HF i p Hp) as (? & ? & ?). unfold done_bit.
    destruct (Z.eqb_spec (remaining_time p) 0); [lia|done].
  - split; simpl.
    + intros c t _. apply init_cell.
    + lia.
    + intros. apply init_cell.
    + intros c t i p Hp. rewrite init_cell. destruct (HF i p Hp). lia.
Qed.

(** ** Phases of a tick

    What the loop bodies of a simulator promise, and what the loops then
    achieve.  [St] is the simulator's state, [view] its arrays and [J c] what
    else holds before the loop's iteration [c]. *)

Definition rems (s : Sim) : list Z := remaining_time <$> procs s.
Definition total (s : Sim) : Z := sumZ (rems s).

(** Process [i] waits for a core. *)
Definition ready (s : Sim) (i : nat) (p : Process) : Prop :=
  procs s !! i = Some p ∧ arrival_time p ≤ time s ∧ 0 < remaining_time p ∧
  running s !! i = Some 0.
Definition nobody_ready (s : Sim) : Prop := ∀ i p, ¬ ready s i p.

Definition idle (s : Sim) (c : nat) : Prop :=
  ∃ u, cpus s !! c = Some u ∧ current_pid u = -1.

Record retire_step (c : nat) (s s' : Sim) : Prop := {
  re_inv : Inv 0 (λ c', c' < S c)%nat s';
  re_time : time s' = time s;
  re_rems : rems s' = rems s }.

Record preempt_step (s s' : Sim) : Prop := {
  pr_inv : Inv 0 (λ _, True) s';
  pr_time : time s' = time s;
  pr_completed : completed s' = completed s;
  pr_rems : rems s' = rems s }.

Record dispatch_step (c : nat) (s s' : Sim) : Prop := {
  di_inv : Inv 0 (λ _, True) s';
  di_time : time s' = time s;
  di_completed : completed s' = completed s;
  di_rems : rems s' = rems s;
  di_others : ∀ c', c' ≠ c → cpus s' !! c' = cpus s !! c';
  di_ready : ∀ i p, ready s' i p → ready s i p;
  di_busy : ∀ c' i, busy s c' i → busy s' c' i;
  di_work : idle s' c → nobody_ready s' }.

Record execute_step (c : nat) (s s' : Sim) : Prop := {
  ex_inv : Inv (S c) (λ c', S c ≤ c')%nat s';
  ex_time : time s' = time s;
  ex_completed : completed s' = completed s;
  ex_current : current_pid <$> cpus s' = current_pid <$> cpus s;
  ex_busy : ∀ c' i, busy s c' i → busy s' c' i;
  ex_le : total s' ≤ total s;
  ex_lt : ¬ idle s c → total s' < total s }.

Lemma rems_lookup s i : rems s !! i = remaining_time <$> procs s !! i.
Proof. apply list_lookup_fmap. Qed.

Lemma idle_current s s' c :
  current_pid <$> cpus s' = current_pid <$> cpus s → idle s' c → idle s c.
Proof.
  intros E (u & Hu & Hi). apply (f_equal (lookup c)) in E. rewrite !list_lookup_fmap, Hu in E.
  destruct (cpus s !! c) as [w|] eqn:Hw; simplify_eq/=. exists w. split; congruence.
Qed.

Section Phases.
Context {St : Type} (view : St → Sim) (J : nat → St → Prop).

Lemma retire_loop (body : nat → St → option St) (st : St) :
  (∀ c st, (c < m)%nat → J c st → Inv 0 (λ c', c' < c)%nat (view st) →
     ∃ st', body c st = Some st' ∧ J (S c) st' ∧ retire_step c (view st) (view st')) →
  J 0%nat st → Inv 0 (λ _, False) (view st) →
  ∃ st', for_range 0 m body st = Some st' ∧ J m st' ∧ Inv 0 (λ _, True) (view st') ∧
    time (view st') = time (view st) ∧ rems (view st') = rems (view st).
Proof.
  intros Hb HJ HI.
  destruct (for_range_total (λ c st', J c st' ∧ Inv 0 (λ c', c' < c)%nat (view st') ∧
    time (view st') = time (view st) ∧ rems (view st') = rems (view st)) body 0 m st)
    as (st' & E & HJ' & HI' & Ht & Hr).
  - split_and!; try done. eapply Inv_weaken; [|done]. simpl. lia.
  - intros c st1 Hc (HJ1 & HI1 & Ht1 & Hr1).
    destruct (Hb c st1) as (st2 & E2 & HJ2 & [HI2 Ht2 Hr2]); [lia|done..|].
    exists st2. split_and!; try done; congruence.
  - exists st'. split_and!; try done. destruct HI'. split; try done.
    intros c i p _ Hbusy. eapply I_live0; [|done]. destruct Hbusy as (u & _ & Hu & _).
    apply lookup_lt_Some in Hu. destruct I_shape0. lia.
Qed.

Lemma preempt_loop (body : nat → St → option St) (n : nat) (st : St) :
  (∀ i st, (i < n)%nat → J i st → Inv 0 (λ _, True) (view st) → length (procs (view st)) = n →
     ∃ st', body i st = Some st' ∧ J (S i) st' ∧ preempt_step (view st) (view st')) →
  J 0%nat st → Inv 0 (λ _, True) (view st) → length (procs (view st)) = n →
  ∃ st', for_range 0 n body st = Some st' ∧ J n st' ∧ preempt_step (view st) (view st').
Proof.
  intros Hb HJ HI Hn.
  destruct (for_range_total (λ i st', J i st' ∧ preempt_step (view st) (view st')) body 0 n st)
    as (st' & E & HJ' & HS); [| |by eauto].
  - split; [done|]. by split.
  - intros i st1 Hi (HJ1 & [HI1 Ht1 Hk1 Hr1]).
    destruct (Hb i st1) as (st2 & E2 & HJ2 & [HI2 Ht2 Hk2 Hr2]); try done; [lia| |].
    { rewrite (procs_length (view st1)), <- (procs_length (view st)); [done|apply HI|apply HI1]. }
    exists st2. split; [done|]. split; [done|]. split; congruence.
Qed.

Lemma dispatch_loop (body : nat → St → option St) (st : St) :
  (∀ c st, (c < m)%nat → J c st → Inv 0 (λ _, True) (view st) →
     ∃ st', body c st = Some st' ∧ J (S c) st' ∧ dispatch_step c (view st) (view st')) →
  J 0%nat st → Inv 0 (λ _, True) (view st) →
  ∃ st', for_range 0 m body st = Some st' ∧ J m st' ∧ preempt_step (view st) (view st') ∧
    ∀ c, idle (view st') c → nobody_ready (view st').
Proof.
  intros Hb HJ HI.
  destruct (for_range_total (λ k st', J k st' ∧ preempt_step (view st) (view st') ∧
    ∀ c, (c < k)%nat → idle (view st') c → nobody_ready (view st')) body 0 m st)
    as (st' & E & HJ' & HP & Hwc).
  - split; [done|]. split; [by split|lia].
  - intros c st1 Hc (HJ1 & [HI1 Ht1 Hk1 Hr1] & Hwc1).
    destruct (Hb c st1) as (st2 & E2 & HJ2 & [HI2 Ht2 Hk2 Hr2 Ho Hrd _ Hw]); [lia|done..|].
    exists st2. split; [done|]. split_and!; [done|split; congruence|].
    intros c' Hc' Hid. destruct (decide (c' = c)) as [->|Hne]; [by apply Hw|].
    intros i p Hready. apply (Hwc1 c') with i p; [lia| |by apply Hrd].
    destruct Hid as (u & Hu & Hi). exists u. by rewrite <- Ho.
  - exists st'. split_and!; try done. intros c Hid. apply (Hwc c); [|done].
    destruct Hid as (u & Hu & _). apply lookup_lt_Some in Hu.
    destruct HP as [[[_ Hl _ _] _ _ _ _ _ _ _] _ _ _]. simpl. lia.
Qed.

Lemma execute_loop (body : nat → St → option St) (st : St) :
  (∀ c st, (c < m)%nat → J c st → Inv c (λ c', c ≤ c')%nat (view st) → time (view st) < MAX_TIME →
     ∃ st', body c st = Some st' ∧ J (S c) st' ∧ execute_step c (view st) (view st')) →
  J 0%nat st → Inv 0 (λ _, True) (view st) → time (view st) < MAX_TIME →
  ∃ st', for_range 0 m body st = Some st' ∧ J m st' ∧ Inv m (λ c, m ≤ c)%nat (view st') ∧
    time (view st') = time (view st) ∧ completed (view st') = completed (view st) ∧
    total (view st') ≤ total (view st) ∧
    ((∃ c, (c < m)%nat ∧ ¬ idle (view st) c) → total (view st') < total (view st)).
Proof.
  intros Hb HJ HI Htm.
  destruct (for_range_total (λ k st', J k st' ∧ Inv k (λ c', k ≤ c')%nat (view st') ∧
    time (view st') = time (view st) ∧ completed (view st') = completed (view st) ∧
    current_pid <$> cpus (view st') = current_pid <$> cpus (view st) ∧
    total (view st') ≤ total (view st) ∧
    ((∃ c, (c < k)%nat ∧ ¬ idle (view st) c) → total (view st') < total (view st))) body 0 m st)
    as (st' & E & HJ' & HI' & Ht & Hk & Hcur & Hle & Hlt).
  - split_and!; try done; [by eapply Inv_weaken; [|done]|]. intros (c & ? & _). lia.
  - intros c st1 Hc (HJ1 & HI1 & Ht1 & Hk1 & Hcur1 & Hle1 & Hlt1).
    destruct (Hb c st1) as (st2 & E2 & HJ2 & [HI2 Ht2 Hk2 Hcur2 _ Hle2 Hlt2]);
      [lia|done..|by rewrite Ht1|].
    exists st2. split; [done|]. split_and!; try done; try congruence; [lia|].
    intros (c' & Hc' & Hid). destruct (decide (c' = c)) as [->|Hne].
    + assert (total (view st2) < total (view st1)); [|lia]. apply Hlt2.
      intros H. apply Hid. by eapply idle_current.
    + assert (total (view st1) < total (view st)); [|lia]. apply Hlt1. exists c'. split; [lia|done].
  - eauto 10.
Qed.

End Phases.

(** ** A whole tick *)

Record tick_step (s s' : Sim) : Prop := {
  ti_inv : Inv 0 (λ _, False) s';
  ti_time : time s' = time s + 1;
  ti_ran : ∀ c i p, busy s' c i → procs s' !! i = Some p → 0 < served (timeline s') (pid p);
  ti_le : total s' ≤ total s;
  ti_done : total s = 0 → completed s' = Z.of_nat (length P0);
  ti_lt : (0 < m)%nat → (∀ p, p ∈ P0 → arrival_time p ≤ time s) →
    0 < total s → total s' < total s }.

Lemma rems_nonneg k live s : Inv k live s → Forall (λ x, 0 ≤ x) (rems s).
Proof.
  intros HI. apply Forall_lookup. intros i x Hx. rewrite rems_lookup in Hx.
  destruct (procs s !! i) as [p|] eqn:Hp; simplify_eq/=.
  destruct (I_work k live s HI i p Hp). lia.
Qed.

Lemma done_bits s :
  Forall (λ x, x = 0 ∨ x = 1) (zip_with done_bit (procs s) (running s)).
Proof.
  apply Forall_lookup. intros i b Hb. rewrite lookup_zip_with in Hb.
  destruct (procs s !! i), (running s !! i); try done.
  injection Hb as <-. unfold done_bit. destruct (_ && _); auto.
Qed.

Lemma ndone_le s : static <$> procs s = static <$> P0 → ndone s ≤ Z.of_nat (length P0).
Proof.
  intros Hst. etransitivity; [apply sumZ_bits_le, done_bits|].
  rewrite length_zip_with, (procs_length s Hst). lia.
Qed.

(** With no work left, the retire phase has completed every process. *)
Lemma all_done s : Inv 0 (λ _, True) s → total s = 0 → completed s = Z.of_nat (length P0).
Proof.
  intros HI Ht. pose proof HI as [Hsh Hst Has Hwk Hlv Hdn _ _].
  assert (Hz : ∀ i p, procs s !! i = Some p → remaining_time p = 0).
  { intros i p Hp. apply (sumZ_zero (rems s) i); [by eapply rems_nonneg|done|].
    by rewrite rems_lookup, Hp. }
  assert (Hlen : length (zip_with done_bit (procs s) (running s)) = length P0).
  { rewrite length_zip_with, (procs_length s) by done. destruct Hsh as [-> _ _ _].
    destruct Hvalid. lia. }
  rewrite Hdn. unfold ndone. rewrite (sumZ_const _ 1), Hlen; [lia|].
  apply Forall_lookup. intros i b Hb. rewrite lookup_zip_with in Hb.
  destruct (procs s !! i) as [p|] eqn:Hp; simplify_eq/=.
  destruct (running s !! i) as [r|] eqn:Hr; simplify_eq/=.
  unfold done_bit. rewrite (Hz i p Hp). simpl.
  destruct (as_bit s Has i r Hr) as [->| ->]; [done|].
  destruct (as_core s Has i) as [c Hb]; [by eapply lookup_lt_Some|done|].
  pose proof (Hlv c i p I Hb Hp). rewrite (Hz i p Hp) in *. lia.
Qed.

(** With work left, everybody arrived and no core idle needlessly, some core works. *)
Lemma some_core_busy s :
  Inv 0 (λ _, True) s → (0 < m)%nat → (∀ p, p ∈ P0 → arrival_time p ≤ time s) →
  0 < total s → (∀ c, idle s c → nobody_ready s) → ∃ c, (c < m)%nat ∧ ¬ idle s c.
Proof.
  intros HI Hm Harr Ht Hwc. pose proof HI as [Hsh Hst Has Hwk Hlv Hdn _ _].
  assert (∃ i p, procs s !! i = Some p ∧ 0 < remaining_time p) as (i & p & Hp & Hrem).
  { destruct (decide (Forall (λ p, remaining_time p = 0) (procs s))) as [HF|HF].
    - unfold total, rems in Ht. rewrite (sumZ_const _ 0) in Ht; [lia|].
      by apply Forall_fmap.
    - apply not_Forall_Exists in HF; [|apply _].
      apply Exists_exists in HF as (p & Hin & Hne).
      apply list_elem_of_lookup in Hin as [i Hp]. exists i, p. split; [done|].
      pose proof (wk_range 0 s i p (Hwk i p Hp)). simpl in *. lia. }
  assert (Hbusy : ∀ c, busy s c i → ¬ idle s c).
  { intros c Hb (u & Hu & Hid). by eapply busy_not_idle. }
  assert (Hrl : (i < length (running s))%nat).
  { destruct Hsh as [-> _ _ _]. by eapply procs_lt. }
  destruct (lookup_lt_is_Some_2 _ _ Hrl) as [r Hr].
  destruct (as_bit s Has i r Hr) as [->| ->].
  - exists 0%nat. split; [done|]. intros Hid. apply (Hwc 0%nat Hid i p).
    split_and!; try done. destruct (procs_static s Hst i p Hp) as (q & Hq & E).
    unfold static in E. injection E as ? E' ???. rewrite E'. apply Harr.
    by eapply list_elem_of_lookup_2.
  - destruct (as_core s Has i) as [c Hb]; [by eapply lookup_lt_Some|done|].
    exists c. split; [|by apply Hbusy]. destruct Hb as (u & _ & Hu & _).
    apply lookup_lt_Some in Hu. destruct Hsh. lia.
Qed.

Lemma total_rems s s' : rems s' = rems s → total s' = total s.
Proof. unfold total. by intros ->. Qed.

(** The phases compose to a tick. *)
Lemma tick_of_phases s s1 s2 s3 :
  time s < MAX_TIME → Inv 0 (λ _, True) s1 → time s1 = time s → rems s1 = rems s →
  preempt_step s1 s2 → (∀ c, idle s2 c → nobody_ready s2) →
  Inv m (λ c, m ≤ c)%nat s3 → time s3 = time s2 → completed s3 = completed s2 →
  total s3 ≤ total s2 → ((∃ c, (c < m)%nat ∧ ¬ idle s2 c) → total s3 < total s2) →
  tick_step s (with_time (time s3 + 1) s3).
Proof.
  intros Hlt0 HI1 Ht1 Hr1 [HI2 Ht2 Hk2 Hr2] Hwc HI3 Ht3 Hk3 Hle Hlt.
  assert (E12 : total s2 = total s).
  { transitivity (total s1); by apply total_rems. }
  split.
  - eapply Inv_tick; [lia|done].
  - simpl. congruence.
  - intros c i p (u & q & Hu & Hq & E) Hp. simpl in *. assert (q = p) as -> by congruence.
    destruct (procs_fresh s3 (I_static _ _ _ HI3) i p Hp) as [Hpos _].
    eapply (served_pos _ _ c (Z.to_nat (time s3))); [lia|].
    rewrite (tl_now m s3 (I_tl _ _ _ HI3) c u); [|by apply lookup_lt_Some in Hu;
      rewrite (sh_cpus _ (I_shape _ _ _ HI3)) in Hu|done].
    destruct (Z.eqb_spec (current_pid u) (-1)); lia.
  - change (total (with_time (time s3 + 1) s3)) with (total s3). lia.
  - intros H0. change (completed s3 = Z.of_nat (length P0)). rewrite Hk3, Hk2.
    apply all_done; [done|]. by rewrite (total_rems s s1).
  - intros Hm Harr Hpos. change (total (with_time (time s3 + 1) s3)) with (total s3).
    assert (total s3 < total s2); [|lia]. apply Hlt. apply some_core_busy; auto; [|lia].
    intros p Hp. rewrite Ht2, Ht1. auto.
Qed.

(** ** Runs

    The interface a simulator's [tick] must satisfy, and what it gives for
    the whole [while] loop. *)

Class TickSystem {St : Type} (view : St → Sim) (J : St → Prop) (tick : St → option St) : Prop :=
  tick_ok : ∀ st, J st → Inv 0 (λ _, False) (view st) → time (view st) < MAX_TIME →
    ∃ st', tick st = Some st' ∧ J st' ∧ tick_step (view st) (view st').

(** Every state the loop passes through keeps the invariant. *)
Lemma reach_inv {St} (view : St → Sim) (J : St → Prop) tick `{!TickSystem view J tick} st0 st :
  view st0 = init_sim P0 m → J st0 →
  rtc (loop_step (λ st, sim_cond (view st)) tick) st0 st → J st ∧ Inv 0 (λ _, False) (view st).
Proof.
  intros E0 HJ0 Hrtc. assert (HI0 : Inv 0 (λ _, False) (view st0)) by (rewrite E0; apply Inv_init).
  clear E0. induction Hrtc as [|st1 st2 st3 [Hc Et] _ IH]; [done|].
  destruct (tick_ok st1 HJ0 HI0) as (st' & Et' & HJ' & []); [unfold sim_cond in Hc; lia|].
  simplify_eq. by apply IH.
Qed.

(** At every such state, a process on a core has already been served. *)
Lemma reach_ran {St} (view : St → Sim) (J : St → Prop) tick `{!TickSystem view J tick} st0 st :
  view st0 = init_sim P0 m → J st0 →
  rtc (loop_step (λ st, sim_cond (view st)) tick) st0 st →
  ∀ c i p, busy (view st) c i → procs (view st) !! i = Some p →
    0 < served (timeline (view st)) (pid p).
Proof.
  intros E0 HJ0 Hrtc. destruct (rtc_inv_r _ _ Hrtc) as [<-|(st1 & Hrtc1 & Hc & Et)].
  { rewrite E0. intros c i p Hb. by apply init_not_busy in Hb. }
  destruct (reach_inv view J tick st0 st1 E0 HJ0 Hrtc1) as [HJ1 HI1].
  destruct (tick_ok st1 HJ1 HI1) as (st' & Et' & _ & []); [unfold sim_cond in Hc; lia|].
  by simplify_eq.
Qed.

(** [A] bounds the arrival times; the remaining work shrinks from then on. *)
Definition on_schedule (A : Z) (s : Sim) : Prop :=
  completed s = Z.of_nat (length P0) ∨
  total s + Z.max 0 (time s - A) ≤ sumZ (burst_time <$> P0).

Lemma on_schedule_init A : on_schedule A (init_sim P0 m) ∨ A < 0.
Proof.
  destruct (decide (A < 0)) as [?|HA]; [by right|]. left. right. simpl.
  unfold total, rems. simpl. replace (remaining_time <$> P0) with (burst_time <$> P0); [lia|].
  apply list_fmap_ext. intros i p Hp. destruct Hvalid as (_ & _ & HF).
  rewrite Forall_lookup in HF. destruct (HF i p Hp) as (_ & _ & ? & _). done.
Qed.

Lemma on_schedule_tick A s s' :
  (0 < m)%nat → (∀ p, p ∈ P0 → arrival_time p ≤ A) →
  Inv 0 (λ _, False) s → sim_cond s = true → tick_step s s' →
  on_schedule A s → on_schedule A s'.
Proof.
  intros Hm HA HI Hcond [HI' Ht' _ Hle Hdone Hlt] [Hc|HS].
  { unfold sim_cond in Hcond. rewrite (procs_length s (I_static _ _ _ HI)) in Hcond. lia. }
  assert (H0 : 0 ≤ total s) by (eapply sumZ_nonneg, rems_nonneg; done).
  destruct (decide (total s = 0)) as [Ez|Hnz]; [left; auto|]. right.
  destruct (decide (A ≤ time s)) as [HAt|HAt]; [|lia].
  assert (total s' < total s); [|lia]. apply Hlt; [done| |lia].
  intros p Hp. specialize (HA p Hp). lia.
Qed.

Theorem run_total {St} (view : St → Sim) (J : St → Prop) tick `{!TickSystem view J tick} st0 :
  view st0 = init_sim P0 m → J st0 →
  ∃ st, while (Z.to_nat MAX_TIME) (λ st, sim_cond (view st)) tick st0 = Some st ∧
    J st ∧ Inv 0 (λ _, False) (view st) ∧ time (view st) ≤ MAX_TIME ∧
    ∀ A, (0 < m)%nat → 0 ≤ A → (∀ p, p ∈ P0 → arrival_time p ≤ A) →
      A + sumZ (burst_time <$> P0) < MAX_TIME →
      completed (view st) = Z.of_nat (length P0) ∧
      time (view st) ≤ A + sumZ (burst_time <$> P0) + 1.
Proof.
  intros E0 HJ0.
  set (W A := (0 < m)%nat ∧ 0 ≤ A ∧ (∀ p, p ∈ P0 → arrival_time p ≤ A)).
  destruct (while_total (λ st, J st ∧ Inv 0 (λ _, False) (view st) ∧ time (view st) ≤ MAX_TIME ∧
    ∀ A, W A → on_schedule A (view st) ∧ time (view st) ≤ A + sumZ (burst_time <$> P0) + 1)
    (λ st, Z.to_nat (MAX_TIME - time (view st)))
    (λ st, sim_cond (view st)) tick (Z.to_nat MAX_TIME) st0) as (st & E & (HJ & HI & Ht & HW) & Hc).
  - rewrite E0. split_and!; [done|apply Inv_init|simpl; unfold MAX_TIME; lia|].
    intros A (Hm & HA0 & HA). destruct (on_schedule_init A) as [HS|]; [|lia].
    split; [done|]. simpl.
    assert (0 ≤ sumZ (burst_time <$> P0)); [|lia]. apply sumZ_nonneg, Forall_fmap.
    destruct Hvalid as (_ & _ & HF). eapply Forall_impl; [exact HF|]. intros p (_ & ? & _).
    simpl. lia.
  - rewrite E0. simpl. lia.
  - intros st (HJ & HI & Ht & HW) Hc.
    assert (time (view st) < MAX_TIME) as Hlt by (unfold sim_cond in Hc; lia).
    destruct (tick_ok st HJ HI Hlt) as (st' & Et & HJ' & Hstep). exists st'.
    pose proof Hstep as [HI' Ht' _ Hle Hdone Hlt'].
    split; [done|]. split; [|lia]. split_and!; [done..|lia|].
    intros A HWA. destruct (HW A HWA) as [HS HT]. pose proof HWA as (Hm & HA0 & HA).
    split; [by apply (on_schedule_tick A (view st))|].
    destruct HS as [HS|HS].
    + unfold sim_cond in Hc. rewrite (procs_length _ (I_static _ _ _ HI)) in Hc. lia.
    + assert (0 ≤ total (view st)) by (eapply sumZ_nonneg, rems_nonneg; done). lia.
  - exists st. split_and!; try done. intros A Hm HA0 HA Hsum.
    destruct (HW A (conj Hm (conj HA0 HA))) as [[HS|HS] HT]; [done|].
    unfold sim_cond in Hc. rewrite (procs_length _ (I_static _ _ _ HI)) in Hc.
    assert (0 ≤ total (view st)) by (eapply sumZ_nonneg, rems_nonneg; done).
    apply andb_false_iff in Hc as [Hc|Hc]; [|lia].
    split; [|lia]. pose proof (ndone_le (view st) (I_static _ _ _ HI)).
    rewrite (I_done _ _ _ HI) in *. lia.
Qed.

(** ** What a run leaves behind *)

(** The Gantt matrix and the process table of a finished run. *)
Record schedule_ok (s : Sim) : Prop := {
  so_static : static <$> procs s = static <$> P0;
  so_excl : ∀ c1 c2 t, c1 ≠ c2 → cell (timeline s) c1 t = cell (timeline s) c2 t →
    cell (timeline s) c1 t = 0;
  so_arrival : ∀ c t i p, procs s !! i = Some p → cell (timeline s) c t = pid p →
    arrival_time p ≤ Z.of_nat t;
  so_served : ∀ i p, procs s !! i = Some p →
    0 ≤ remaining_time p ∧ served (timeline s) (pid p) = burst_time p - remaining_time p }.

(** Every process ran for its whole burst and has sound metrics. *)
Record all_complete (s : Sim) : Prop := {
  ac_count : completed s = Z.of_nat (length P0);
  ac_served : ∀ i p, procs s !! i = Some p → served (timeline s) (pid p) = burst_time p;
  ac_metrics : ∀ i p, procs s !! i = Some p →
    turnaround_time p = completion_time p - arrival_time p ∧
    waiting_time p = turnaround_time p - burst_time p - io p ∧ 0 ≤ waiting_time p }.

(** The same for a simulator that leaves the I/O wait out of its completion
    time: every process ran for its whole burst, and the waiting time is the
    documented one (turnaround minus burst minus I/O wait) for the processes
    that do not wait for I/O. *)
Record all_served (s : Sim) : Prop := {
  as_count : completed s = Z.of_nat (length P0);
  as_served : ∀ i p, procs s !! i = Some p → served (timeline s) (pid p) = burst_time p;
  as_turnaround : ∀ i p, procs s !! i = Some p → turnaround_time p = completion_time p - arrival_time p;
  as_waiting : ∀ i p, procs s !! i = Some p → io_wait_time p = 0 →
    waiting_time p = turnaround_time p - burst_time p - io_wait_time p ∧ 0 ≤ waiting_time p }.

Lemma all_complete_served s : (∀ p, io p = 0) → all_complete s → all_served s.
Proof.
  intros Hio [H1 H2 H3]. split; [done|done| |].
  - intros i p Hp. apply (H3 i p Hp).
  - intros i p Hp Hz. destruct (H3 i p Hp) as (_ & Hw & ?). rewrite Hio in Hw. lia.
Qed.

Lemma Inv_schedule_ok live s : Inv 0 live s → schedule_ok s.
Proof.
  intros [Hsh Hst Has Hwk Hlv Hdn [Hf Hn Hx Ha] H0]. split; try done.
  intros i p Hp. destruct (Hwk i p Hp). split; [lia|done].
Qed.

(** When all processes are counted, each has no work left and no core. *)
Lemma Inv_finished live s :
  Inv 0 live s → completed s = Z.of_nat (length P0) →
  ∀ i p, procs s !! i = Some p → remaining_time p = 0 ∧ running s !! i = Some 0.
Proof.
  intros HI Hk i p Hp. pose proof HI as [Hsh Hst Has Hwk Hlv Hdn _ _].
  assert (Hlen : length (zip_with done_bit (procs s) (running s)) = length P0).
  { rewrite length_zip_with, (procs_length s) by done. destruct Hsh as [-> _ _ _].
    destruct Hvalid. lia. }
  destruct (lookup_lt_is_Some_2 (running s) i) as [r Hr].
  { destruct Hsh as [-> _ _ _]. by eapply procs_lt. }
  assert (E : done_bit p r = 1).
  { eapply (sumZ_bits_full _ i); [apply done_bits|rewrite Hlen; unfold ndone in Hdn; lia|].
    by rewrite lookup_zip_with, Hp, Hr. }
  unfold done_bit in E. rewrite Hr.
  destruct (Z.eqb_spec (remaining_time p) 0), (Z.eqb_spec r 0); by subst.
Qed.

Lemma Inv_all_complete live s :
  Inv 0 live s → completed s = Z.of_nat (length P0) → all_complete s.
Proof.
  intros HI Hk. pose proof (Inv_finished live s HI Hk) as Hall.
  split; [done| |]; intros i p Hp; destruct (Hall i p Hp) as [Hz Hr];
    destruct (I_work _ _ _ HI i p Hp).
  - rewrite wk_served0. lia.
  - destruct (wk_metrics0 Hr Hz) as (E1 & E2 & ?). split_and!; [done..|]. rewrite E2, E1. lia.
Qed.

(** ** From the code's array operations to the events *)

Lemma core_cases k live s c u :
  Inv k live s → cpus s !! c = Some u →
  current_pid u = -1 ∨
  ∃ i p, current_pid u ≠ -1 ∧ procs s !! i = Some p ∧ current_pid u = pid p ∧
    running s !! i = Some 1 ∧ find_last (procs s) (current_pid u) = Some i ∧
    find_first (procs s) (current_pid u) = Some i.
Proof.
  intros HI Hu. pose proof HI as [Hsh Hst Has _ _ _ _ _].
  destruct (as_cpu s Has c u Hu) as [?|[i Hb]]; [by left|]. right.
  pose proof (busy_not_idle s Hst c i u Hb Hu). pose proof (as_flag s Has c i Hb).
  destruct Hb as (u' & p & Hu' & Hp & E). assert (u' = u) as -> by congruence.
  exists i, p. split_and!; try done.
  - eapply find_last_spec; eauto. by apply procs_nodup.
  - eapply find_first_spec; eauto. by apply procs_nodup.
Qed.

Lemma core_exists k live s c :
  Inv k live s → (c < m)%nat → ∃ u, cpus s !! c = Some u.
Proof.
  intros HI Hc. apply lookup_lt_is_Some_2. destruct HI as [[_ -> _ _] _ _ _ _ _ _ _]. done.
Qed.

Section Writes.
Context (k : nat) (live : nat → Prop) (s : Sim) (c i : nat) (u : Processor) (p : Process).
Hypothesis HI : Inv k live s.
Hypothesis Hu : cpus s !! c = Some u.
Hypothesis Hp : procs s !! i = Some p.

Lemma flag_range : (i < length (running s))%nat.
Proof using HI Hp Hvalid.
  destruct HI as [[-> _ _ _] Hst _ _ _ _ _ _]. by eapply procs_lt.
Qed.

Lemma put_proc_ok q : put_proc i q s = Some (with_procs (<[i:=q]> (procs s)) s).
Proof using Hp. unfold put_proc. by rewrite aset_Some by eauto using lookup_lt_Some. Qed.

Lemma put_running_ok v : put_running i v s = Some (with_running (<[i:=v]> (running s)) s).
Proof using HI Hp Hvalid. unfold put_running. by rewrite aset_Some by apply flag_range. Qed.

Lemma put_cpu_ok w : put_cpu c w s = Some (with_cpus (<[c:=w]> (cpus s)) s).
Proof using Hu. unfold put_cpu. by rewrite aset_Some by eauto using lookup_lt_Some. Qed.

(** [finish] is the leave event of a completed process. *)
Lemma finish_upd q :
  finish c i u q s =
  Some (upd c i (set_current (-1) u) q 0 (timeline s) (completed s + 1) s).
Proof using HI Hu Hp Hvalid.
  unfold finish. rewrite put_proc_ok. simpl. unfold put_running. simpl.
  rewrite aset_Some by apply flag_range. simpl. unfold put_cpu. simpl.
  by rewrite aset_Some by eauto using lookup_lt_Some.
Qed.

(** Writing back the same process record is no change. *)
Lemma upd_same_proc w r tl n :
  upd c i w p r tl n s =
  mkSim (procs s) (<[i:=r]> (running s)) (<[c:=w]> (cpus s)) tl (time s) n.
Proof using Hp. unfold upd. by rewrite (list_insert_id (procs s)). Qed.

End Writes.

Lemma eligible_ready k live s i :
  Inv k live s → (i < length (procs s))%nat →
  ∃ b p, eligible s i = Some b ∧ procs s !! i = Some p ∧ (b = true ↔ ready s i p).
Proof.
  intros HI Hi. destruct (lookup_lt_is_Some_2 _ _ Hi) as [p Hp].
  pose proof (flag_range k live s i p HI Hp) as Hr. destruct (lookup_lt_is_Some_2 _ _ Hr) as [r Er].
  unfold eligible. rewrite Hp. simpl. unfold ready.
  destruct (Z.leb_spec (arrival_time p) (time s)), (Z.ltb_spec 0 (remaining_time p)); simpl;
    rewrite ?Er; simpl; eexists _, p; (split_and!; [done..|]); try (split; [done|lia]).
  split.
  - intros ->%Z.eqb_eq. auto.
  - intros (_ & _ & _ & E). simplify_eq. done.
Qed.

(** ** Loop bodies as phase steps *)

Lemma upd_rems s c i u p q r tl n :
  procs s !! i = Some p → remaining_time q = remaining_time p →
  rems (upd c i u q r tl n s) = rems s.
Proof.
  intros Hp E. unfold rems. simpl. rewrite list_fmap_insert, E.
  apply list_insert_id. by rewrite list_lookup_fmap, Hp.
Qed.

Lemma upd_total s c i u p q r tl n :
  procs s !! i = Some p → remaining_time q = remaining_time p - 1 →
  total (upd c i u q r tl n s) = total s - 1.
Proof.
  intros Hp E. unfold total, rems. simpl. rewrite list_fmap_insert.
  erewrite sumZ_insert by (by rewrite list_lookup_fmap, Hp). lia.
Qed.

(** A process whose work is done has been in the system for its whole burst. *)
Lemma complete_metrics live s i p q :
  Inv 0 live s → procs s !! i = Some p → remaining_time p = 0 → static q = static p →
  completion_time q = time s + io p →
  turnaround_time q = completion_time q - arrival_time p →
  waiting_time q = turnaround_time q - burst_time p - io p →
  metrics_ok (time s) q.
Proof.
  intros HI Hp Hz Hst Ec Et Ew. pose proof (Inv_pace live s i p HI Hp).
  destruct (procs_fresh s (I_static _ _ _ HI) i p Hp) as [_ Hb].
  pose proof (io_static _ _ Hst). unfold static in Hst. injection Hst as E1 E2 E3 E4 E5.
  unfold metrics_ok. split_and!; lia.
Qed.

(** The metrics of a process of the table do not overflow. *)
Lemma complete_io_ok live s i p :
  Inv 0 live s → procs s !! i = Some p → complete_io (time s) p = Some (io_metrics (time s) p).
Proof.
  intros HI Hp. pose proof (I_static _ _ _ HI) as Hst. destruct (procs_fresh s Hst i p Hp).
  apply complete_io_some; [apply HI|lia|by eapply procs_moderate].
Qed.

Lemma complete_plain_ok live s i p :
  Inv 0 live s → procs s !! i = Some p → complete_plain (time s) p = Some (plain_metrics (time s) p).
Proof.
  intros HI Hp. pose proof (I_static _ _ _ HI) as Hst. destruct (procs_fresh s Hst i p Hp).
  apply complete_plain_some; [apply HI|lia|by eapply procs_moderate].
Qed.

Section Bodies.
Context (s : Sim) (c i : nat) (u : Processor) (p : Process).
Hypothesis Hu : cpus s !! c = Some u.

Lemma live_S (I1 : Inv 0 (λ c', c' = c ∨ c' < c)%nat s) : Inv 0 (λ c', c' < S c)%nat s.
Proof using. eapply Inv_weaken; [|done]. simpl. lia. Qed.

Lemma retire_idle :
  Inv 0 (λ c', c' < c)%nat s → current_pid u = -1 → retire_step c s s.
Proof using Hu Hvalid.
  intros HI Hid. split; [|done..]. apply live_S. by eapply Inv_live_idle.
Qed.

Hypothesis Hp : procs s !! i = Some p.

Lemma retire_keep :
  Inv 0 (λ c', c' < c)%nat s → current_pid u = pid p → remaining_time p ≠ 0 → retire_step c s s.
Proof using Hu Hp Hvalid.
  intros HI Hcur Hnz. split; [|done..]. apply live_S.
  eapply Inv_live_busy; [done|by eapply busy_intro|done|].
  destruct (I_work _ _ _ HI i p Hp). lia.
Qed.

Lemma retire_leave q w n :
  Inv 0 (λ c', c' < c)%nat s → current_pid u = pid p → static q = static p →
  remaining_time q = remaining_time p → current_pid w = -1 →
  (remaining_time p = 0 → metrics_ok (time s) q) →
  n = completed s + (if remaining_time p =? 0 then 1 else 0) →
  retire_step c s (upd c i w q 0 (timeline s) n s).
Proof using Hu Hp Hvalid.
  intros HI Hcur Hst Hrem Hw Hmet Hn. split; [|done|by eapply upd_rems].
  eapply Inv_weaken; [|by eapply Inv_leave]. simpl. lia.
Qed.

Lemma preempt_leave w :
  Inv 0 (λ _, True) s → current_pid u = pid p → current_pid w = -1 →
  preempt_step s (upd c i w p 0 (timeline s) (completed s) s).
Proof using Hu Hp Hvalid.
  intros HI Hcur Hw.
  assert (Hpos : 0 < remaining_time p) by (eapply (I_live _ _ _ HI c i); [done| |done];
    by eapply busy_intro).
  split; [|done|done|by eapply upd_rems].
  eapply Inv_weaken; [|apply (Inv_leave (λ _, True) s c i u w p p HI Hu Hp)]; try done.
  - by right.
  - intros ?. lia.
  - destruct (Z.eqb_spec (remaining_time p) 0); lia.
Qed.

Lemma dispatch_busy : Inv 0 (λ _, True) s → current_pid u ≠ -1 → dispatch_step c s s.
Proof using Hu. intros HI Hne. split; try done. intros (w & ? & ?). simplify_eq. Qed.

Lemma dispatch_none : Inv 0 (λ _, True) s → nobody_ready s → dispatch_step c s s.
Proof using. intros HI Hn. by split. Qed.

Lemma dispatch_take w :
  Inv 0 (λ _, True) s → current_pid u = -1 → current_pid w = pid p → ready s i p →
  dispatch_step c s (upd c i w p 1 (timeline s) (completed s) s).
Proof using Hu Hp Hvalid.
  intros HI Hid Hw (_ & Harr & Hrem & Hr). split; try done.
  - by eapply (Inv_take (λ _, True) s c i u w p p).
  - by eapply upd_rems.
  - intros c' Hne. simpl. by rewrite list_lookup_insert_ne.
  - intros j q (Hq & ? & ? & Hrj). rewrite upd_same_proc in Hq by done.
    split_and!; try done. by apply upd_running in Hrj as [[_ ?]|[_ ?]].
  - intros c' j Hb. apply (upd_busy s c i u w p p _ _ true 1); try done; [apply HI|].
    left. split; [|done]. intros ->. by destruct (busy_not_idle s (I_static _ _ _ HI) c j u Hb Hu).
  - intros (w' & Hw' & E). simpl in Hw'.
    rewrite list_lookup_insert_eq in Hw' by eauto using lookup_lt_Some. simplify_eq.
    destruct (procs_fresh s (I_static _ _ _ HI) i p Hp). lia.
Qed.

Lemma execute_idle :
  Inv c (λ c', c ≤ c')%nat s → current_pid u = -1 → execute_step c s s.
Proof using Hu.
  intros HI Hid. split; try done; [by eapply Inv_exec_idle|].
  intros Hne. destruct Hne. by exists u.
Qed.

Lemma execute_busy q w row :
  Inv c (λ c', c ≤ c')%nat s → time s < MAX_TIME →
  timeline s !! c = Some row → row !! Z.to_nat (time s) = Some 0 →
  current_pid u = pid p → current_pid w = pid p → static q = static p →
  remaining_time q = remaining_time p - 1 →
  execute_step c s
    (upd c i w q 1 (<[c:=<[Z.to_nat (time s):=pid p]> row]> (timeline s)) (completed s) s).
Proof using Hu Hp Hvalid.
  intros HI Ht Hrow Hcell Hcur Hw Hst Hrem. split; try done.
  - by apply (Inv_exec s c i u w p q row).
  - simpl. rewrite list_fmap_insert. apply list_insert_id.
    rewrite list_lookup_fmap, Hu. simpl. congruence.
  - intros c' j Hb. apply (upd_busy s c i u w p q _ _ true 1); try done; [apply HI|].
    destruct (decide (c' = c)) as [->|]; [right|by left].
    split_and!; try done. eapply (busy_fun s (I_static _ _ _ HI) c); [done|by eapply busy_intro].
  - rewrite (upd_total s c i w p) by done. lia.
  - intros _. rewrite (upd_total s c i w p) by done. lia.
Qed.

End Bodies.

(** ** Selection scans

    The simulators pick a process with one pass over the table that keeps the
    best candidate so far.  [enc] is the code's accumulator for a candidate. *)

Section Scan.
Context {Acc : Type} (enc : option (nat * Process) → Acc).
Context (body : nat → Acc → option Acc) (before : Process → Process → Prop).
Context (k : nat) (live : nat → Prop) (s : Sim).
Hypothesis HI : Inv k live s.
Hypothesis before_refl : ∀ p, before p p.
Hypothesis before_trans : ∀ p q r, before p q → before q r → before p r.
Hypothesis scan_skip : ∀ i a, eligible s i = Some false → body i a = Some a.
Hypothesis scan_first : ∀ i p, eligible s i = Some true → ready s i p →
  body i (enc None) = Some (enc (Some (i, p))).
Hypothesis scan_next : ∀ i p b pb, eligible s i = Some true → ready s i p → ready s b pb →
  (body i (enc (Some (b, pb))) = Some (enc (Some (i, p))) ∧ before p pb) ∨
  (body i (enc (Some (b, pb))) = Some (enc (Some (b, pb))) ∧ before pb p).

(** [r] is a best candidate among the processes below [n]. *)
Definition best_upto (n : nat) (r : option (nat * Process)) : Prop :=
  match r with
  | None => ∀ i q, (i < n)%nat → ¬ ready s i q
  | Some (b, pb) => ready s b pb ∧ ∀ i q, (i < n)%nat → ready s i q → before pb q
  end.

Lemma scan_step i r :
  (i < length (procs s))%nat → best_upto i r →
  ∃ r', body i (enc r) = Some (enc r') ∧ best_upto (S i) r'.
Proof using HI Hvalid before_refl before_trans scan_skip scan_first scan_next.
  intros Hi Hr. destruct (eligible_ready k live s i HI Hi) as (e & p & He & Hp & Hx).
  assert (Hlast : ∀ j q, (j < S i)%nat → ready s j q → (j < i)%nat ∨ (e = true ∧ q = p)).
  { intros j q Hj Hq. destruct (decide (j = i)) as [->|]; [right|left; lia].
    assert (q = p) as -> by (destruct Hq; congruence). by rewrite Hx. }
  destruct e.
  - assert (Hp' : ready s i p) by by apply Hx.
    destruct r as [[b pb]|]; simpl in Hr.
    + destruct Hr as [Hb Hbest]. destruct (scan_next i p b pb He Hp' Hb) as [[E Hbef]|[E Hbef]].
      * exists (Some (i, p)). split; [done|]. split; [done|]. intros j q Hj Hq.
        destruct (Hlast j q Hj Hq) as [?|[_ ->]]; [|done]. by eapply before_trans, Hbest.
      * exists (Some (b, pb)). split; [done|]. split; [done|]. intros j q Hj Hq.
        destruct (Hlast j q Hj Hq) as [?|[_ ->]]; [|done]. by eapply Hbest.
    + exists (Some (i, p)). split; [by apply scan_first|]. split; [done|]. intros j q Hj Hq.
      destruct (Hlast j q Hj Hq) as [Hlt|[_ ->]]; [|done]. by destruct (Hr j q Hlt).
  - exists r. split; [by apply scan_skip|]. destruct r as [[b pb]|]; simpl in *.
    + destruct Hr as [Hb Hbest]. split; [done|]. intros j q Hj Hq.
      destruct (Hlast j q Hj Hq) as [?|[? _]]; [by eapply Hbest|done].
    + intros j q Hj Hq. destruct (Hlast j q Hj Hq) as [?|[? _]]; [by eapply Hr|done].
Qed.

Lemma scan_best :
  ∃ r, for_range 0 (length (procs s)) body (enc None) = Some (enc r) ∧
    match r with
    | None => nobody_ready s
    | Some (b, pb) => ready s b pb ∧ ∀ i q, ready s i q → before pb q
    end.
Proof using HI Hvalid before_refl before_trans scan_skip scan_first scan_next.
  destruct (for_range_total (λ i a, ∃ r, a = enc r ∧ best_upto i r) body 0
    (length (procs s)) (enc None)) as (a & E & r & -> & Hr).
  - exists None. split; [done|]. intros i q Hi. lia.
  - intros i a Hi (r & -> & Hr). destruct (scan_step i r) as (r' & E & Hr'); [lia|done|].
    eauto.
  - exists r. split; [done|].
    assert (Hlt : ∀ i q, ready s i q → (i < length (procs s))%nat).
    { intros i q [Hq _]. by eapply lookup_lt_Some. }
    destruct r as [[b pb]|]; simpl in *.
    + split; [apply Hr|]. intros i q Hq. eapply Hr; eauto.
    + intros i q Hq. eapply Hr; eauto.
Qed.

End Scan.

End Invariant.

(** [A] bounds the arrivals, and all the work fits behind it on one core. *)
Definition enough_time (ps : list Process) (num_cpus : nat) (A : Z) : Prop :=
  (0 < num_cpus)%nat ∧ 0 ≤ A ∧ (∀ p, p ∈ ps → arrival_time p ≤ A) ∧
  A + sumZ (burst_time <$> ps) < MAX_TIME.

(** ** A concrete table

    The five processes of the reports' sample runs, as [initialize_test_data]
    generates them: pid, arrival, burst, deadline and I/O wait. *)

Definition sample_proc (id arr burst dl io : Z) : Process :=
  mkProcess id arr burst burst 0 dl (dl + 5) io 0 0 0 0.

Definition sample : list Process :=
  [sample_proc 1 1 8 9 2; sample_proc 2 4 9 15 2; sample_proc 3 0 6 13 1;
   sample_proc 4 1 6 14 0; sample_proc 5 1 5 9 1].

Lemma sample_valid : valid_input sample.
Proof.
  split_and!; [simpl; lia| |].
  - refine (bool_decide_unpack (NoDup (pid <$> sample)) _). by vm_compute.
  - repeat constructor; simpl; lia.
Qed.

Lemma sample_arrivals p : p ∈ sample → arrival_time p ≤ 4.
Proof.
  intros Hp. unfold sample in Hp. repeat (apply elem_of_cons in Hp as [->|Hp]; [simpl; lia|]).
  by apply not_elem_of_nil in Hp.
Qed.

Lemma sample_enough : enough_time sample 2 4.
Proof. split; [lia|]. split; [lia|]. split; [exact sample_arrivals|]. vm_compute. reflexivity. Qed.
