(* ===== verification/Fcfs.v ===== *)
(** * First-come first-served (fcfs.c) *)

From S2P Require Import Prelude SchedCore SchedInv.
Open Scope Z_scope.

(** ** Arrival-time sort *)

(** One comparison of the selection sort: [processes[i]] and [processes[j]]
    swap when [j] arrives strictly earlier. *)
Definition fcfs_sort_step (i j : nat) (ps : list Process) : option (list Process) :=
  a ← ps !! i;
  b ← ps !! j;
  if arrival_time b <? arrival_time a then
    l ← aset ps i b; aset l j a
  else Some ps.

Definition fcfs_sort (ps : list Process) : option (list Process) :=
  let n := length ps in
  for_range 0 (n - 1) (λ i, for_range (S i) (n - S i) (fcfs_sort_step i)) ps.

(** ** Step 1: completions *)
Definition fcfs_retire (c : nat) (s : Sim) : option Sim :=
  u ← cpus s !! c;
  if current_pid u =? -1 then Some s else
  i ← find_last (procs s) (current_pid u);
  p ← procs s !! i;
  if remaining_time p =? 0
  then q ← complete_io (time s) p; finish c i u q s
  else Some s.

(** ** Step 2: dispatch *)

(** One iteration of the scan; the accumulator is [(best_idx, earliest_arrival)]. *)
Definition fcfs_scan (s : Sim) (i : nat) (acc : option nat * Z) : option (option nat * Z) :=
  let '(best, earliest) := acc in
  e ← eligible s i;
  if e : bool then
    p ← procs s !! i;
    if arrival_time p <? earliest then Some (Some i, arrival_time p)
    else if arrival_time p =? earliest then
      match best with
      | Some b => q ← procs s !! b;
                  if pid p <? pid q then Some (Some i, earliest) else Some acc
      | None => Some acc
      end
    else Some acc
  else Some acc.

Definition fcfs_select (s : Sim) : option (option nat) :=
  r ← for_range 0 (length (procs s)) (fcfs_scan s) (None, 9999);
  Some (fst r).

Definition fcfs_dispatch (c : nat) (s : Sim) : option Sim :=
  u ← cpus s !! c;
  if current_pid u =? -1 then
    b ← fcfs_select s;
    match b with
    | Some i =>
        p ← procs s !! i;
        s ← put_cpu c (set_left (remaining_time p) (set_current (pid p) u)) s;
        put_running i 1 s
    | None => Some s
    end
  else Some s.

(** ** Step 3: execute one millisecond *)
Definition fcfs_execute (c : nat) (s : Sim) : option Sim :=
  u ← cpus s !! c;
  if current_pid u =? -1 then put_cell c 0 s else
  s ← put_cell c (current_pid u) s;
  i ← find_last (procs s) (current_pid u);
  p ← procs s !! i;
  s ← put_proc i (set_remaining (remaining_time p - 1) p) s;
  put_cpu c (set_left (time_left_on_core u - 1) u) s.

(** ** The main loop *)
Definition fcfs_tick (num_cpus : nat) (s : Sim) : option Sim :=
  s ← for_range 0 num_cpus fcfs_retire s;
  s ← for_range 0 num_cpus fcfs_dispatch s;
  s ← for_range 0 num_cpus fcfs_execute s;
  Some (with_time (time s + 1) s).

(** The loop runs at most [MAX_TIME] times because [time] grows by one in
    each iteration, so [MAX_TIME] is enough fuel. *)
Definition run_fcfs (processes : list Process) (num_cpus : nat) : option Sim :=
  ps ← fcfs_sort processes;
  while (Z.to_nat MAX_TIME) sim_cond (fcfs_tick num_cpus) (init_sim ps num_cpus).

(** ** The sort *)

(** Positions below [i] are in order with everything after them. *)
Definition sorted_upto (i : nat) (l : list Process) : Prop :=
  ∀ a b x y, (a < i)%nat → (a ≤ b)%nat → l !! a = Some x → l !! b = Some y →
    arrival_time x ≤ arrival_time y.

Lemma fcfs_sort_step_ok i j l :
  (i < j < length l)%nat → sorted_upto i l →
  (∀ b x y, (i < b < j)%nat → l !! i = Some x → l !! b = Some y → arrival_time x ≤ arrival_time y) →
  ∃ l', fcfs_sort_step i j l = Some l' ∧ l' ≡ₚ l ∧ sorted_upto i l' ∧
    ∀ b x y, (i < b < S j)%nat → l' !! i = Some x → l' !! b = Some y →
      arrival_time x ≤ arrival_time y.
Proof.
  intros Hij Hout Hin. unfold fcfs_sort_step.
  destruct (lookup_lt_is_Some_2 l i) as [a Ha]; [lia|].
  destruct (lookup_lt_is_Some_2 l j) as [b Hb]; [lia|].
  rewrite Ha, Hb. simpl. destruct (Z.ltb_spec (arrival_time b) (arrival_time a)) as [Hlt|Hge].
  - rewrite aset_Some by lia. simpl. rewrite aset_Some by (rewrite length_insert; lia).
    eexists. split; [done|]. split; [by apply Permutation_insert_swap|]. split.
    + intros k k' x y Hk Hkk Hx Hy.
      rewrite !list_lookup_insert_ne in Hx by lia.
      apply list_lookup_insert_Some in Hy as [(<- & <- & _)|(? & Hy)]; [eapply (Hout k i); (done || lia)|].
      apply list_lookup_insert_Some in Hy as [(<- & <- & _)|(? & Hy)]; [eapply (Hout k j); (done || lia)|].
      eapply (Hout k k'); (done || lia).
    + intros k x y Hk Hx Hy.
      rewrite list_lookup_insert_ne, list_lookup_insert_eq in Hx by lia.
      injection Hx as <-.
      apply list_lookup_insert_Some in Hy as [(<- & <- & _)|(? & Hy)]; [lia|].
      rewrite list_lookup_insert_ne in Hy by lia.
      pose proof (Hin k a y ltac:(lia) Ha Hy). lia.
  - exists l. split; [done|]. split; [done|]. split; [done|].
    intros k x y Hk Hx Hy. assert (x = a) as -> by congruence.
    destruct (decide (k = j)) as [->|Hne]; [congruence|]. eapply (Hin k); [lia|done..].
Qed.

Lemma fcfs_sort_inner i l :
  (i < length l)%nat → sorted_upto i l →
  ∃ l', for_range (S i) (length l - S i) (fcfs_sort_step i) l = Some l' ∧
    l' ≡ₚ l ∧ sorted_upto (S i) l'.
Proof.
  intros Hi Hs.
  destruct (for_range_total (λ j l', l' ≡ₚ l ∧ sorted_upto i l' ∧
    ∀ b x y, (i < b < j)%nat → l' !! i = Some x → l' !! b = Some y →
      arrival_time x ≤ arrival_time y) (fcfs_sort_step i) (S i) (length l - S i) l)
    as (l' & E & HP & H1 & H2).
  - split_and!; [done..|]. intros. lia.
  - intros j l1 Hj (HP & H1 & H2). pose proof (Permutation_length HP).
    destruct (fcfs_sort_step_ok i j l1) as (l2 & E2 & HP2 & ?); [lia|done..|].
    exists l2. split; [done|]. split; [by etrans|done].
  - exists l'. split_and!; [done..|]. pose proof (Permutation_length HP) as Hl.
    intros a b x y Ha Hab Hx Hy. destruct (decide (a = i)) as [->|Hne].
    + destruct (decide (b = i)) as [->|?]; [by simplify_eq|].
      eapply H2; [|done..]. apply lookup_lt_Some in Hy. lia.
    + eapply H1; [|done..]. lia.
Qed.

(** [fcfs_sort] returns a permutation ordered by arrival time. *)
Lemma fcfs_sort_spec ps :
  ∃ l, fcfs_sort ps = Some l ∧ l ≡ₚ ps ∧
    ∀ a b x y, (a ≤ b)%nat → l !! a = Some x → l !! b = Some y → arrival_time x ≤ arrival_time y.
Proof.
  unfold fcfs_sort.
  destruct (for_range_total (λ i l, l ≡ₚ ps ∧ sorted_upto i l)
    (λ i, for_range (S i) (length ps - S i) (fcfs_sort_step i)) 0 (length ps - 1) ps)
    as (l & E & HP & Hs).
  - split; [done|]. intros a. lia.
  - intros i l1 Hi (HP & H1). pose proof (Permutation_length HP) as Hl.
    destruct (fcfs_sort_inner i l1) as (l2 & E2 & HP2 & H2); [lia|done|].
    rewrite Hl in E2. exists l2. split; [done|]. split; [by etrans|done].
  - exists l. split_and!; [done..|]. pose proof (Permutation_length HP).
    intros a b x y Hab Hx Hy. destruct (decide (a < length ps - 1)%nat).
    + by eapply (Hs a b).
    + pose proof (lookup_lt_Some _ _ _ Hx). pose proof (lookup_lt_Some _ _ _ Hy).
      assert (a = b) as -> by lia. by simplify_eq.
Qed.

(** ** Selection *)

(** Earlier arrival first, then lower pid. *)
Definition fcfs_before (p q : Process) : Prop :=
  arrival_time p < arrival_time q ∨ (arrival_time p = arrival_time q ∧ pid p ≤ pid q).

Section Correct.
Context (P0 : list Process) (m : nat).
Hypothesis Hvalid : valid_input P0.

Local Abbreviation Inv := (Inv P0 m io_wait_time).

Definition fcfs_enc (r : option (nat * Process)) : option nat * Z :=
  match r with
  | None => (None, 9999)
  | Some (b, p) => (Some b, arrival_time p)
  end.

Lemma fcfs_select_ok live s :
  Inv 0 live s → time s < MAX_TIME →
  ∃ r, fcfs_select s = Some (fst <$> r) ∧
    match r with
    | None => nobody_ready s
    | Some (b, pb) => ready s b pb ∧ ∀ i q, ready s i q → fcfs_before pb q
    end.
Proof using Hvalid.
  intros HI Ht. unfold fcfs_select.
  edestruct (scan_best P0 m io_wait_time Hvalid fcfs_enc (fcfs_scan s) fcfs_before 0 live s)
    as (r & E & Hr); try done.
  - intros p. right. split; lia.
  - unfold fcfs_before. intros. lia.
  - intros i [b e] He. unfold fcfs_scan. by rewrite He.
  - intros i p He (Hp & Ha & _). unfold fcfs_scan. simpl. rewrite He. simpl. rewrite Hp. simpl.
    unfold MAX_TIME in Ht. destruct (Z.ltb_spec (arrival_time p) 9999); [done|lia].
  - intros i p b pb He (Hp & _) (Hb & _). unfold fcfs_scan, fcfs_before. simpl.
    rewrite He. simpl. rewrite Hp. simpl. rewrite Hb. simpl.
    destruct (Z.ltb_spec (arrival_time p) (arrival_time pb)); [left; split; [done|lia]|].
    destruct (Z.eqb_spec (arrival_time p) (arrival_time pb)); [|right; split; [done|lia]].
    destruct (Z.ltb_spec (pid p) (pid pb)); [left|right]; (split; [|lia]); by f_equal; f_equal.
  - unfold fcfs_enc in E at 1. rewrite E. exists r. split; [|done]. by destruct r as [[??]|].
Qed.

(** ** Start order *)

(** Process [i] has been given a core at least once. *)
Definition started (s : Sim) (i : nat) : Prop :=
  ∃ p, procs s !! i = Some p ∧
    (remaining_time p < burst_time p ∨ running s !! i = Some 1).

(** Nobody starts before a process that precedes it. *)
Definition start_order (s : Sim) : Prop :=
  ∀ i j p q, procs s !! i = Some p → procs s !! j = Some q → fcfs_before p q →
    started s j → started s i.

Lemma fcfs_before_static p p' q q' :
  static p = static p' → static q = static q' → fcfs_before p q → fcfs_before p' q'.
Proof using. unfold static, fcfs_before. intros. simplify_eq. lia. Qed.

(** A change that starts only [st]arted processes and best candidates keeps the order. *)
Lemma start_order_step s s' :
  static <$> procs s = static <$> P0 → static <$> procs s' = static <$> P0 →
  (∀ i, started s i → started s' i) →
  (∀ j q, procs s !! j = Some q → started s' j → started s j ∨
     ∀ i p, procs s !! i = Some p → fcfs_before p q → started s' i) →
  start_order s → start_order s'.
Proof using.
  intros Hst Hst' Hmono Hnew Ho i j p q Hp Hq Hbef Hj.
  assert (Hold : ∀ k r, procs s' !! k = Some r → ∃ r0, procs s !! k = Some r0 ∧ static r0 = static r).
  { intros k r Hr. destruct (procs_static P0 s' Hst' k r Hr) as (r1 & H1 & E1).
    destruct (lookup_lt_is_Some_2 (procs s) k) as [r0 H0].
    { rewrite (procs_length P0 s Hst). by eapply lookup_lt_Some. }
    exists r0. split; [done|]. destruct (procs_static P0 s Hst k r0 H0) as (r2 & H2 & E2). congruence. }
  destruct (Hold i p Hp) as (p0 & Hp0 & Ep). destruct (Hold j q Hq) as (q0 & Hq0 & Eq).
  assert (Hbef0 : fcfs_before p0 q0) by (by eapply (fcfs_before_static p _ q)).
  destruct (Hnew j q0 Hq0 Hj) as [Hs|Hall]; [|by eapply Hall].
  apply Hmono. by eapply (Ho i j p0 q0).
Qed.

Lemma started_upd s c i u p q r tl n j :
  procs s !! i = Some p → (i < length (running s))%nat →
  (remaining_time q < burst_time q ∨ r = 1 ↔ started s i) →
  started (upd c i u q r tl n s) j ↔ started s j.
Proof using.
  intros Hp Hi Hiff. destruct (decide (j = i)) as [->|Hne].
  - rewrite <- Hiff. unfold started. simpl.
    rewrite !list_lookup_insert_eq by eauto using lookup_lt_Some.
    split; [intros (x & ? & [?|?])|intros ?; exists q]; simplify_eq; auto.
    split; [done|]. destruct H; [by left|right; by f_equal].
  - unfold started. simpl. by rewrite !list_lookup_insert_ne by done.
Qed.

(** ** The loop bodies *)

Lemma fcfs_retire_ok c s :
  (c < m)%nat → Inv 0 (λ c', c' < c)%nat s →
  ∃ s', fcfs_retire c s = Some s' ∧ retire_step P0 m io_wait_time c s s' ∧
    (∀ c' i p, busy s c' i → procs s !! i = Some p → 0 < remaining_time p → busy s' c' i) ∧
    (start_order s → start_order s').
Proof using Hvalid.
  intros Hc HI. destruct (core_exists _ _ _ _ _ _ _ HI Hc) as [u Hu].
  unfold fcfs_retire. rewrite Hu. simpl.
  destruct (core_cases _ _ _ Hvalid _ _ _ _ _ HI Hu) as [E|(i & p & Hne & Hp & Hcur & Hr & Hl & _)].
  { rewrite E. exists s. split; [done|]. split_and!; [by eapply retire_idle|done..]. }
  rewrite (proj2 (Z.eqb_neq _ _) Hne), Hl. simpl. rewrite Hp. simpl.
  pose proof (I_static _ _ _ _ _ _ HI) as Hst.
  destruct (Z.eqb_spec (remaining_time p) 0) as [Hz|Hnz]; [|by eauto 6 using retire_keep].
  rewrite (complete_io_ok _ _ _ Hvalid _ s i p HI Hp). simpl.
  eexists. split; [by eapply finish_upd|]. split_and!.
  { eapply retire_leave; try done; [|by rewrite Hz].
    intros _. by eapply complete_metrics; try done; apply io_wait_static. }
  { intros c' j q Hb Hq Hpos.
    apply (upd_busy P0 Hvalid s c i u (set_current (-1) u) p _ _ _ false); try done.
    left. split; [|done]. intros ->.
    assert (j = i) as -> by (eapply (busy_fun P0 Hvalid s Hst c); [done|by eapply busy_intro]).
    by simplify_eq; lia. }
  destruct (procs_fresh P0 Hvalid s Hst i p Hp).
  apply start_order_step; [done|by eapply upd_static|..];
    intros j *; rewrite (started_upd _ _ i _ p); auto; try (by eapply flag_range);
    (split; [intros _; exists p; auto|simpl; lia]).
Qed.

(** Giving a core to the best candidate respects the start order. *)
Lemma fcfs_take_order s c i p u tl n :
  Inv 0 (λ _, True) s → ready s i p → (∀ j q, ready s j q → fcfs_before p q) →
  start_order s → start_order (upd c i u p 1 tl n s).
Proof using Hvalid.
  intros HI Hready Hmin. pose proof (I_static _ _ _ _ _ _ HI) as Hst.
  pose proof Hready as (Hp & Harr & _). pose proof (flag_range _ _ _ Hvalid _ _ _ _ _ HI Hp) as Hri.
  assert (Hne : ∀ j, j ≠ i → started (upd c i u p 1 tl n s) j ↔ started s j).
  { intros j Hji. unfold started. simpl. by rewrite !list_lookup_insert_ne by done. }
  assert (Hi : started (upd c i u p 1 tl n s) i).
  { exists p. simpl. rewrite !list_lookup_insert_eq by eauto using lookup_lt_Some. auto. }
  apply start_order_step; [done|by eapply upd_static|..].
  - intros j Hj. destruct (decide (j = i)) as [->|]; [done|by apply Hne].
  - intros j q Hq Hj. destruct (decide (j = i)) as [->|]; [right|left; by apply Hne].
    assert (q = p) as -> by congruence. intros k r Hr Hbef.
    destruct (decide (k = i)) as [->|Hk]; [done|]. apply Hne; [done|]. exists r. split; [done|].
    destruct (I_work _ _ _ _ _ _ HI k r Hr).
    destruct (lookup_lt_is_Some_2 (running s) k) as [v Hv]; [by eapply flag_range|].
    destruct (as_bit _ (I_assign _ _ _ _ _ _ HI) k v Hv) as [->| ->]; [|by right].
    destruct (decide (remaining_time r < burst_time r)) as [|Hfull]; [by left|].
    destruct (procs_fresh P0 Hvalid s Hst k r Hr) as [_ Hbr].
    assert (Hrk : ready s k r) by (split_and!; try done; unfold fcfs_before in Hbef; lia).
    pose proof (Hmin k r Hrk). destruct Hk.
    apply (pid_inj P0 Hvalid s Hst k i r p); try done. unfold fcfs_before in *. lia.
Qed.

Lemma fcfs_dispatch_ok c s :
  (c < m)%nat → Inv 0 (λ _, True) s → time s < MAX_TIME →
  ∃ s', fcfs_dispatch c s = Some s' ∧ dispatch_step P0 m io_wait_time c s s' ∧
    (start_order s → start_order s').
Proof using Hvalid.
  intros Hc HI Ht. destruct (core_exists _ _ _ _ _ _ _ HI Hc) as [u Hu].
  unfold fcfs_dispatch. rewrite Hu. simpl.
  destruct (Z.eqb_spec (current_pid u) (-1)) as [Hid|Hbusy]; [|by eauto 6 using dispatch_busy].
  destruct (fcfs_select_ok _ s HI Ht) as (r & -> & Hr). simpl.
  destruct r as [[i p]|]; simpl; [|by eauto 6 using dispatch_none].
  destruct Hr as [Hready Hmin]. pose proof Hready as [Hp _]. rewrite Hp. simpl.
  rewrite (put_cpu_ok s c u) by done. simpl. unfold put_running. simpl.
  rewrite aset_Some by (by eapply flag_range). simpl. eexists. split; [done|].
  unfold with_running, with_cpus. simpl. rewrite <- (upd_same_proc s c i p Hp).
  split; [by eapply dispatch_take|].
  by eapply fcfs_take_order.
Qed.

(** What one execution step writes: nothing on an idle core, otherwise one
    millisecond charged to the core's process. *)
Lemma fcfs_execute_upd c s u :
  (c < m)%nat → Inv c (λ c', c ≤ c')%nat s → time s < MAX_TIME → cpus s !! c = Some u →
  (fcfs_execute c s = Some s ∧ execute_step P0 m io_wait_time c s s) ∨
  ∃ i p tl, let s' := upd c i (set_left (time_left_on_core u - 1) u)
      (set_remaining (remaining_time p - 1) p) 1 tl (completed s) s in
    procs s !! i = Some p ∧ current_pid u = pid p ∧ running s !! i = Some 1 ∧
    fcfs_execute c s = Some s' ∧ execute_step P0 m io_wait_time c s s'.
Proof using Hvalid.
  intros Hc HI Ht Hu. unfold fcfs_execute. rewrite Hu. simpl.
  destruct (core_cases _ _ _ Hvalid _ _ _ _ _ HI Hu) as [E|(i & p & Hne & Hp & Hcur & Hr & Hl & _)].
  { left. rewrite E. simpl. split; [by eapply put_cell_idle|by eapply execute_idle]. }
  right. rewrite (proj2 (Z.eqb_neq _ _) Hne).
  destruct (put_cell_ok _ _ _ _ _ s c (current_pid u) HI) as (row & Hrow & Hcell & ->); try done.
  exists i, p, (<[c:=<[Z.to_nat (time s):=pid p]> row]> (timeline s)).
  simpl. rewrite Hl. simpl. rewrite Hp. simpl. unfold put_proc. simpl.
  rewrite aset_Some by eauto using lookup_lt_Some. simpl. unfold put_cpu. simpl.
  rewrite aset_Some by eauto using lookup_lt_Some. simpl. split_and!; try done.
  - unfold with_procs, with_cpus, with_timeline, upd. simpl. by rewrite Hcur, (list_insert_id (running s)).
  - by eapply (execute_busy P0 m io_wait_time Hvalid s c i u p); try done; simpl; rewrite ?Hcur.
Qed.

Lemma fcfs_execute_ok c s :
  (c < m)%nat → Inv c (λ c', c ≤ c')%nat s → time s < MAX_TIME →
  ∃ s', fcfs_execute c s = Some s' ∧ execute_step P0 m io_wait_time c s s' ∧
    (start_order s → start_order s').
Proof using Hvalid.
  intros Hc HI Ht. destruct (core_exists _ _ _ _ _ _ _ HI Hc) as [u Hu].
  destruct (fcfs_execute_upd c s u Hc HI Ht Hu) as [[E HS]|(i & p & tl & Hp & _ & Hr & E & HS)];
    [by eauto|].
  eexists. split; [exact E|]. split; [exact HS|].
  pose proof (I_static _ _ _ _ _ _ HI) as Hst.
  apply start_order_step; [done|by eapply upd_static|..];
    intros j *; rewrite (started_upd _ _ i _ p); auto; try (by eapply flag_range);
    (split; [intros _; exists p; auto|auto]).
Qed.

Instance fcfs_system : TickSystem P0 m io_wait_time (λ s, s) start_order (fcfs_tick m).
Proof using Hvalid.
  intros s Ho HI Ht. unfold fcfs_tick.
  destruct (retire_loop P0 m io_wait_time (λ s, s) (λ _, start_order) fcfs_retire s)
    as (s1 & -> & Ho1 & HI1 & Ht1 & Hr1); try done.
  { intros c s1 Hc Ho1 HI1. destruct (fcfs_retire_ok c s1 Hc HI1) as (? & ? & ? & _ & ?). eauto. }
  simpl. destruct (dispatch_loop P0 m io_wait_time (λ s, s) (λ _ s', start_order s' ∧ time s' = time s)
    fcfs_dispatch s1) as (s2 & -> & [Ho2 _] & HP2 & Hwc); try done.
  { intros c s2 Hc [Ho2 Ht2] HI2.
    destruct (fcfs_dispatch_ok c s2) as (s' & ? & HS & Ho'); try done; [lia|].
    exists s'. split_and!; try done; [auto|]. destruct HS. congruence. }
  simpl. pose proof HP2 as [HI2 Ht2 _ _].
  destruct (execute_loop P0 m io_wait_time (λ s, s) (λ _, start_order) fcfs_execute s2)
    as (s3 & -> & Ho3 & HI3 & Ht3 & Hk3 & Hle & Hlt); try done; [|lia|].
  { intros c s3 Hc Ho3 HI3 Ht3. destruct (fcfs_execute_ok c s3) as (? & ? & ? & ?); eauto. }
  simpl. eexists. split_and!; [done|by destruct s3|].
  by eapply (tick_of_phases P0 m _ Hvalid s s1 s2 s3).
Qed.

Lemma start_order_init : start_order (init_sim P0 m).
Proof using Hvalid.
  intros i j p q Hp Hq _ (q' & Hq' & Hs). simpl in *.
  destruct Hvalid as (_ & _ & HF). rewrite Forall_lookup in HF. destruct (HF j q' Hq') as (_ & _ & E).
  destruct Hs as [Hs|Hs]; [lia|by apply init_running_lookup in Hs].
Qed.


(** A process with work left stays on its core through the tick, and the
    chart shows it there. *)
Lemma fcfs_tick_keeps s s' c i p :
  Inv 0 (λ _, False) s → time s < MAX_TIME → fcfs_tick m s = Some s' →
  busy s c i → procs s !! i = Some p → 0 < remaining_time p →
  busy s' c i ∧ cell (timeline s') c (Z.to_nat (time s)) = pid p.
Proof using Hvalid.
  intros HI Ht Htick Hb Hp Hpos. unfold fcfs_tick in Htick.
  destruct (retire_loop P0 m io_wait_time (λ s, s) (λ _ s', busy s' c i ∧ rems s' = rems s)
    fcfs_retire s) as (s1 & E1 & [Hb1 _] & HI1 & Ht1 & Hr1); try done.
  { intros c1 s1 Hc [Hb1 Hr1] HI1. destruct (fcfs_retire_ok c1 s1 Hc HI1) as (s2 & E & HS & Hk & _).
    exists s2. split; [done|]. split; [|done]. split; [|destruct HS; congruence].
    destruct Hb1 as (u1 & p1 & Hu1 & Hp1 & Eu). apply (Hk c i p1); [by eapply busy_intro|done|].
    apply (f_equal (lookup i)) in Hr1. rewrite !rems_lookup, Hp1, Hp in Hr1. simplify_eq/=. lia. }
  rewrite E1 in Htick. simpl in Htick.
  destruct (dispatch_loop P0 m io_wait_time (λ s, s) (λ _ s', busy s' c i ∧ time s' = time s)
    fcfs_dispatch s1) as (s2 & E2 & [Hb2 Ht2] & HP2 & _); try done.
  { intros c2 s2 Hc [Hb2 Ht2] HI2. destruct (fcfs_dispatch_ok c2 s2) as (s3 & E & HS & _); try done; [lia|].
    exists s3. split; [done|]. split; [|done]. destruct HS. split; [auto|congruence]. }
  rewrite E2 in Htick. simpl in Htick.
  destruct (execute_loop P0 m io_wait_time (λ s, s) (λ _ s', busy s' c i) fcfs_execute s2)
    as (s3 & E3 & Hb3 & HI3 & Ht3 & _); try done; [|apply HP2|lia|].
  { intros c3 s3 Hc Hb3 HI3 Ht3. destruct (fcfs_execute_ok c3 s3) as (s4 & E & HS & _); try done.
    exists s4. split; [done|]. split; [|done]. destruct HS. auto. }
  rewrite E3 in Htick. simplify_eq/=.
  split; [by destruct Hb3 as (u & q & ? & ? & ?); exists u, q|].
  destruct Hb3 as (u & q & Hu & Hq & Eu). pose proof (I_static _ _ _ _ _ _ HI3) as Hst3.
  assert (Hcm : (c < m)%nat).
  { apply lookup_lt_Some in Hu. by rewrite (sh_cpus _ _ (I_shape _ _ _ _ _ _ HI3)) in Hu. }
  assert (Eq : pid q = pid p).
  { destruct (procs_static P0 s3 Hst3 i q Hq) as (q0 & H1 & F1).
    destruct (procs_static P0 s (I_static _ _ _ _ _ _ HI) i p Hp) as (q1 & H2 & F2).
    apply static_pid in F1, F2. congruence. }
  rewrite <- Ht2, <- Ht3, (tl_now _ _ (I_tl _ _ _ _ _ _ HI3) c u Hcm Hu).
  destruct (Z.eqb_spec (current_pid u) (-1)); [|congruence].
  destruct (procs_fresh P0 Hvalid s3 Hst3 i q Hq). lia.
Qed.

End Correct.
(** ** The whole simulator *)

Lemma run_fcfs_result ps m :
  valid_input ps →
  ∃ P0 s, fcfs_sort ps = Some P0 ∧ run_fcfs ps m = Some s ∧ P0 ≡ₚ ps ∧
    Inv P0 m io_wait_time 0 (λ _, False) s ∧
    ∀ A, enough_time ps m A →
      completed s = Z.of_nat (length P0) ∧ time s ≤ A + sumZ (burst_time <$> ps) + 1.
Proof.
  intros Hv. destruct (fcfs_sort_spec ps) as (P0 & E0 & HP & _).
  assert (Hv0 : valid_input P0) by (by eapply valid_input_perm).
  pose proof (fcfs_system P0 m Hv0) as Hsys.
  destruct (run_total P0 m io_wait_time Hv0 (λ s, s) start_order (fcfs_tick m) (init_sim P0 m))
    as (s & E & _ & HI & _ & Hlive); [done|by apply start_order_init|].
  exists P0, s. unfold run_fcfs. rewrite E0. simpl. split_and!; try done.
  intros A (Hm & HA & Harr & Hsum).
  assert (Es : sumZ (burst_time <$> P0) = sumZ (burst_time <$> ps)) by (by rewrite HP).
  rewrite <- Es. apply Hlive; try done; [|lia].
  intros p Hp. apply Harr. by rewrite <- HP.
Qed.

(** C26: FCFS never fails on a valid table (times below 2^29, so that no metric
    overflows) and produces a legal multiprocessor
    schedule of the processes sorted by arrival: no process is on two cores in
    the same millisecond, none runs before it arrives, and the Gantt chart
    shows exactly the milliseconds charged to each process.  With at least one
    core and enough of the 1000 simulated milliseconds for the arrivals and
    the work, it completes every process: each one is served for exactly its
    burst, its turnaround and waiting times satisfy the report's formulas, and
    no waiting time is negative. *)
Theorem run_fcfs_correct (ps : list Process) (num_cpus : nat) (Hv : valid_input ps) :
  ∃ P0 s, fcfs_sort ps = Some P0 ∧ P0 ≡ₚ ps ∧ run_fcfs ps num_cpus = Some s ∧ schedule_ok P0 s ∧
    ∀ A, enough_time ps num_cpus A →
      all_complete P0 io_wait_time s ∧ time s ≤ A + sumZ (burst_time <$> ps) + 1.
Proof.
  destruct (run_fcfs_result ps num_cpus Hv) as (P0 & s & E0 & E & HP & HI & Hlive).
  exists P0, s. split_and!; try done; [by eapply Inv_schedule_ok|].
  intros A HA. destruct (Hlive A HA) as [Hk Ht]. split; [|done].
  eapply Inv_all_complete; [by eapply valid_input_perm|done..].
Qed.

(** C31: FCFS is first come, first served: at every point of the simulation a
    process that has received service implies that every process that arrived
    earlier (or at the same time with a lower pid) has received service too. *)
Theorem fcfs_first_served (ps : list Process) (num_cpus : nat) (s : Sim) (i j : nat) (p q : Process)
    (Hv : valid_input ps)
    (Hreach : rtc (loop_step sim_cond (fcfs_tick num_cpus)) (init_sim ps num_cpus) s)
    (Hp : procs s !! i = Some p) (Hq : procs s !! j = Some q) (Hbef : fcfs_before p q)
    (Hserved : 0 < served (timeline s) (pid q)) :
  0 < served (timeline s) (pid p).
Proof.
  pose proof (fcfs_system ps num_cpus Hv) as Hsys.
  destruct (reach_inv ps num_cpus io_wait_time Hv (λ s, s) start_order (fcfs_tick num_cpus)
    (init_sim ps num_cpus) s) as [Ho HI]; try done; [by apply start_order_init|].
  pose proof (I_work _ _ _ _ _ _ HI j q Hq) as [].
  destruct (Ho i j p q Hp Hq Hbef) as (p' & Hp' & Hs).
  { exists q. split; [done|]. left. lia. }
  assert (p' = p) as -> by congruence. destruct Hs as [Hs|Hs].
  - pose proof (I_work _ _ _ _ _ _ HI i p Hp) as []. lia.
  - destruct (as_core _ (I_assign _ _ _ _ _ _ HI) i) as [c Hb]; [by eapply lookup_lt_Some|done|].
    by eapply (reach_ran ps num_cpus io_wait_time Hv (λ s, s) start_order (fcfs_tick num_cpus)
      (init_sim ps num_cpus) s); eauto using start_order_init.
Qed.

(** FCFS is not preemptive: a process that is on a core with work left is
    on the same core after the next tick, and the chart shows it running there
    during that millisecond. *)
Theorem fcfs_nonpreemptive (ps : list Process) (num_cpus : nat) (s s' : Sim) (c i : nat) (p : Process)
    (Hv : valid_input ps)
    (Hreach : rtc (loop_step sim_cond (fcfs_tick num_cpus)) (init_sim ps num_cpus) s)
    (Hstep : loop_step sim_cond (fcfs_tick num_cpus) s s')
    (Hb : busy s c i) (Hp : procs s !! i = Some p) (Hpos : 0 < remaining_time p) :
  busy s' c i ∧ cell (timeline s') c (Z.to_nat (time s)) = pid p.
Proof.
  pose proof (fcfs_system ps num_cpus Hv) as Hsys. destruct Hstep as [Hc Ht].
  destruct (reach_inv ps num_cpus io_wait_time Hv (λ s, s) start_order (fcfs_tick num_cpus)
    (init_sim ps num_cpus) s) as [_ HI]; try done; [by apply start_order_init|].
  eapply (fcfs_tick_keeps ps num_cpus Hv s s' c i p); try done. unfold sim_cond in Hc. lia.
Qed.

(** ** Sample run *)

(** The run that fcfs.md prints: the same chart, completion, turnaround and
    waiting times. *)
Example run_fcfs_sample :
  (λ s, ((λ p, (pid p, completion_time p, turnaround_time p, waiting_time p)) <$> procs s,
         take 22 <$> timeline s)) <$> run_fcfs sample 2 =
  Some ([(3, 7, 7, 0); (1, 11, 10, 0); (4, 12, 11, 5); (5, 15, 14, 8); (2, 23, 19, 8)],
        [[3; 3; 3; 3; 3; 3; 4; 4; 4; 4; 4; 4; 2; 2; 2; 2; 2; 2; 2; 2; 2; 0];
         [0; 1; 1; 1; 1; 1; 1; 1; 1; 5; 5; 5; 5; 5; 0; 0; 0; 0; 0; 0; 0; 0]]).
Proof. vm_compute. reflexivity. Qed.

(** The same table after one and after two milliseconds. *)
Definition fcfs_after1 : Sim := default (init_sim sample 2) (fcfs_tick 2 (init_sim sample 2)).
Definition fcfs_after2 : Sim := default (init_sim sample 2) (fcfs_tick 2 fcfs_after1).

Lemma fcfs_step1 : loop_step sim_cond (fcfs_tick 2) (init_sim sample 2) fcfs_after1.
Proof. split; vm_compute; reflexivity. Qed.

Lemma fcfs_step2 : loop_step sim_cond (fcfs_tick 2) fcfs_after1 fcfs_after2.
Proof. split; vm_compute; reflexivity. Qed.

Lemma run_fcfs_correct_witness :
  ∃ P0 s, fcfs_sort sample = Some P0 ∧ run_fcfs sample 2 = Some s ∧ schedule_ok P0 s ∧
    all_complete P0 io_wait_time s ∧ time s ≤ 4 + sumZ (burst_time <$> sample) + 1.
Proof.
  destruct (run_fcfs_correct sample 2 sample_valid) as (P0 & s & H1 & _ & H2 & H3 & H4).
  destruct (H4 4 sample_enough) as [H5 H6].
  exists P0, s. split; [exact H1|]. split; [exact H2|]. split; [exact H3|]. split; assumption.
Defined.

Lemma fcfs_first_served_witness :
  ∃ p, procs fcfs_after2 !! 2%nat = Some p ∧ pid p = 3 ∧ 0 < served (timeline fcfs_after2) (pid p).
Proof.
  assert (H : ∃ p q, procs fcfs_after2 !! 2%nat = Some p ∧ procs fcfs_after2 !! 0%nat = Some q ∧
    pid p = 3 ∧ fcfs_before p q ∧ 0 < served (timeline fcfs_after2) (pid q)).
  { eexists _, _. split; [vm_compute; reflexivity|]. split; [vm_compute; reflexivity|].
    split; [reflexivity|]. split; [left; simpl; lia|vm_compute; reflexivity]. }
  destruct H as (p & q & Hp & Hq & Epid & Hbef & Hs). exists p.
  split; [exact Hp|]. split; [exact Epid|].
  apply (fcfs_first_served sample 2 fcfs_after2 2 0 p q sample_valid); try assumption.
  eapply rtc_l; [exact fcfs_step1|]. apply rtc_once. exact fcfs_step2.
Defined.

Lemma fcfs_nonpreemptive_witness :
  ∃ p, procs fcfs_after1 !! 2%nat = Some p ∧ pid p = 3 ∧
    busy fcfs_after2 0 2 ∧ cell (timeline fcfs_after2) 0 (Z.to_nat (time fcfs_after1)) = pid p.
Proof.
  assert (H : ∃ p, procs fcfs_after1 !! 2%nat = Some p ∧ pid p = 3 ∧ 0 < remaining_time p ∧
    busy fcfs_after1 0 2).
  { eexists. split; [vm_compute; reflexivity|]. split; [reflexivity|]. split; [simpl; lia|].
    eexists _, _. split; [vm_compute; reflexivity|]. split; vm_compute; reflexivity. }
  destruct H as (p & Hp & Epid & Hpos & Hb). exists p.
  split; [exact Hp|]. split; [exact Epid|].
  apply (fcfs_nonpreemptive sample 2 fcfs_after1 fcfs_after2 0 2 p sample_valid); try assumption.
  - apply rtc_once. exact fcfs_step1.
  - exact fcfs_step2.
Defined.
