(* ===== verification/Mlfq.v ===== *)
(** * Multilevel feedback queue (mlfq.c) *)

From S2P Require Import Prelude SchedCore SchedInv Fcfs.
Open Scope Z_scope.

Definition Q0_QUANTUM : Z := 2.
Definition Q1_QUANTUM : Z := 4.
Definition Q2_QUANTUM : Z := 999.

(** All new processes start in Q0. *)
Definition mlfq_init (ps : list Process) : list Process := set_priority 0 <$> ps.

(** ** Step 1: completions and demotions *)
Definition mlfq_retire (c : nat) (s : Sim) : option Sim :=
  u ← cpus s !! c;
  if current_pid u =? -1 then Some s else
  i ← find_last (procs s) (current_pid u);
  p ← procs s !! i;
  if remaining_time p =? 0
  then q ← complete_io (time s) p; finish c i u q s
  else if time_left_on_core u =? 0 then
    s ← (if priority p <? 2 then put_proc i (set_priority (priority p + 1) p) s else Some s);
    s ← put_running i 0 s;
    put_cpu c (set_current (-1) u) s
  else Some s.

(** ** Step 2: dispatch.  The accumulator is [(best_idx, best_priority,
    earliest_arrival)]. *)
Definition mlfq_scan (s : Sim) (i : nat) (acc : option nat * Z * Z) : option (option nat * Z * Z) :=
  let '(best, bprio, earliest) := acc in
  e ← eligible s i;
  if e : bool then
    p ← procs s !! i;
    if priority p <? bprio then Some (Some i, priority p, arrival_time p)
    else if (priority p =? bprio) && (arrival_time p <? earliest)
    then Some (Some i, bprio, arrival_time p)
    else Some acc
  else Some acc.

Definition mlfq_select (s : Sim) : option (option nat) :=
  r ← for_range 0 (length (procs s)) (mlfq_scan s) (None, 999, 9999);
  Some (fst (fst r)).

Definition mlfq_quantum (prio : Z) : Z :=
  if prio =? 0 then Q0_QUANTUM else if prio =? 1 then Q1_QUANTUM else Q2_QUANTUM.

Definition mlfq_dispatch (c : nat) (s : Sim) : option Sim :=
  u ← cpus s !! c;
  if current_pid u =? -1 then
    b ← mlfq_select s;
    match b with
    | Some i =>
        p ← procs s !! i;
        s ← put_cpu c (set_left (mlfq_quantum (priority p)) (set_current (pid p) u)) s;
        put_running i 1 s
    | None => Some s
    end
  else Some s.

(** ** Step 3: execute one millisecond *)
Definition mlfq_execute (c : nat) (s : Sim) : option Sim :=
  u ← cpus s !! c;
  if current_pid u =? -1 then put_cell c 0 s else
  s ← put_cell c (current_pid u) s;
  i ← find_last (procs s) (current_pid u);
  p ← procs s !! i;
  s ← put_proc i (set_remaining (remaining_time p - 1) p) s;
  put_cpu c (set_left (time_left_on_core u - 1) u) s.

Definition mlfq_tick (num_cpus : nat) (s : Sim) : option Sim :=
  s ← for_range 0 num_cpus mlfq_retire s;
  s ← for_range 0 num_cpus mlfq_dispatch s;
  s ← for_range 0 num_cpus mlfq_execute s;
  Some (with_time (time s + 1) s).

Definition run_mlfq (processes : list Process) (num_cpus : nat) : option Sim :=
  while (Z.to_nat MAX_TIME) sim_cond (mlfq_tick num_cpus)
    (init_sim (mlfq_init processes) num_cpus).

(** ** Levels and quanta *)

(** Milliseconds a process has received when it enters a level. *)
Definition level_base (prio : Z) : Z :=
  if prio =? 0 then 0 else if prio =? 1 then Q0_QUANTUM else Q0_QUANTUM + Q1_QUANTUM.

Definition ran (p : Process) : Z := burst_time p - remaining_time p.

(** What the level of process [i] says about the service it received; the
    core [c] that runs it has at least [lo c] of its quantum left. *)
Record level_at (lo : nat → Z) (s : Sim) (i : nat) (p : Process) : Prop := {
  lv_range : 0 ≤ priority p ≤ 2;
  lv_base : level_base (priority p) ≤ ran p;
  lv_cap : priority p < 2 → ran p ≤ level_base (priority p) + mlfq_quantum (priority p);
  lv_wait : running s !! i = Some 0 → 0 < remaining_time p → priority p < 2 →
    ran p = level_base (priority p);
  lv_run : ∀ c u, cpus s !! c = Some u → current_pid u = pid p → lo c ≤ time_left_on_core u ∧
    (priority p < 2 →
     ran p + time_left_on_core u = level_base (priority p) + mlfq_quantum (priority p)) }.

Definition levels (lo : nat → Z) (s : Sim) : Prop :=
  ∀ i p, procs s !! i = Some p → level_at lo s i p.

Lemma levels_weaken lo lo' s : (∀ c, lo' c ≤ lo c) → levels lo s → levels lo' s.
Proof.
  intros Hlo Hl i p Hp. destruct (Hl i p Hp). split; try done.
  intros c u Hu E. destruct (lv_run0 c u Hu E). split; [|done]. specialize (Hlo c). lia.
Qed.

(** Lower priority value first, then earlier arrival. *)
Definition mlfq_before (p q : Process) : Prop :=
  priority p < priority q ∨ (priority p = priority q ∧ arrival_time p ≤ arrival_time q).

Section Correct.
Context (P0 : list Process) (m : nat).
Hypothesis Hvalid : valid_input P0.

Local Abbreviation Inv := (Inv P0 m io_wait_time).

(** An event on core [c] and process [i] keeps the levels when it keeps the
    level of [i]. *)
Lemma levels_upd lo lo' s c i u u' p p' r tl n :
  static <$> procs s = static <$> P0 → cpus s !! c = Some u → procs s !! i = Some p →
  (i < length (running s))%nat → static p' = static p →
  current_pid u' = -1 ∨ current_pid u' = pid p →
  (∀ c', busy s c' i → c' = c) → (∀ c', c' ≠ c → lo' c' ≤ lo c') →
  0 ≤ priority p' ≤ 2 → level_base (priority p') ≤ ran p' →
  (priority p' < 2 → ran p' ≤ level_base (priority p') + mlfq_quantum (priority p')) →
  (r = 0 → 0 < remaining_time p' → priority p' < 2 → ran p' = level_base (priority p')) →
  (current_pid u' = pid p → lo' c ≤ time_left_on_core u' ∧
     (priority p' < 2 →
      ran p' + time_left_on_core u' = level_base (priority p') + mlfq_quantum (priority p'))) →
  levels lo s → levels lo' (upd c i u' p' r tl n s).
Proof using Hvalid.
  intros Hst Hu Hp Hri Hps Hcur Honly Hlo H1 H2 H3 H4 H5 Hl j q Hq.
  pose proof (static_pid _ _ Hps) as Epid.
  apply upd_procs in Hq as [[-> ->]|[Hne Hq]].
  - split; try done.
    + simpl. rewrite list_lookup_insert_eq by done. intros [= ->]. by apply H4.
    + intros c' w Hw E. simpl in Hw. rewrite Epid in E.
      apply list_lookup_insert_Some in Hw as [(<- & <- & _)|(Hcc & Hw)]; [by apply H5|].
      destruct Hcc. symmetry. apply Honly. by exists w, p.
  - destruct (Hl j q Hq) as [L1 L2 L3 L4 L5]. split; try done.
    + simpl. rewrite list_lookup_insert_ne by done. done.
    + intros c' w Hw E. simpl in Hw.
      apply list_lookup_insert_Some in Hw as [(<- & <- & _)|(Hcc & Hw)].
      * destruct (procs_fresh P0 Hvalid s Hst j q Hq). destruct Hcur as [Hc|Hc]; [lia|].
        destruct Hne. eapply (pid_inj P0 Hvalid s Hst j i q p); try done. congruence.
      * destruct (L5 c' w Hw E). split; [|done]. specialize (Hlo c' (not_eq_sym Hcc)). lia.
Qed.

(** ** Selection *)

Definition mlfq_enc (r : option (nat * Process)) : option nat * Z * Z :=
  match r with
  | None => (None, 999, 9999)
  | Some (b, p) => (Some b, priority p, arrival_time p)
  end.

Lemma mlfq_select_ok live lo s :
  Inv 0 live s → levels lo s →
  ∃ r, mlfq_select s = Some (fst <$> r) ∧
    match r with
    | None => nobody_ready s
    | Some (b, pb) => ready s b pb ∧ ∀ i q, ready s i q → mlfq_before pb q
    end.
Proof using Hvalid.
  intros HI Hl. unfold mlfq_select.
  edestruct (scan_best P0 m io_wait_time Hvalid mlfq_enc (mlfq_scan s) mlfq_before 0 live s)
    as (r & E & Hr); try done.
  - intros p. right. split; lia.
  - unfold mlfq_before. intros. lia.
  - intros i [[b x] e] He. unfold mlfq_scan. by rewrite He.
  - intros i p He (Hp & _). unfold mlfq_scan. simpl. rewrite He. simpl. rewrite Hp. simpl.
    destruct (Hl i p Hp). destruct (Z.ltb_spec (priority p) 999); [done|lia].
  - intros i p b pb He (Hp & _) (Hb & _). unfold mlfq_scan, mlfq_before. simpl.
    rewrite He. simpl. rewrite Hp. simpl.
    destruct (Z.ltb_spec (priority p) (priority pb)); [left; split; [done|lia]|].
    destruct (Z.eqb_spec (priority p) (priority pb)) as [Ep|]; simpl; [|right; split; [done|lia]].
    destruct (Z.ltb_spec (arrival_time p) (arrival_time pb)); [left|right]; (split; [|lia]);
      by rewrite ?Ep.
  - unfold mlfq_enc in E at 1. rewrite E. exists r. split; [|done]. by destruct r as [[??]|].
Qed.

(** ** The loop bodies *)

Lemma only_core s c i live : Inv 0 live s → busy s c i → ∀ c', busy s c' i → c' = c.
Proof using. intros HI Hb c' Hb'. by eapply (as_excl _ (I_assign _ _ _ _ _ _ HI)). Qed.

(** Cores below [c] have time left. *)
Definition fresh_below (c c' : nat) : Z := if decide (c' < c)%nat then 1 else 0.
Definition fresh_from (c c' : nat) : Z := if decide (c' < c)%nat then 0 else 1.

(** Raising the bound of core [c] is sound when its process has that much left. *)
Lemma levels_raise lo lo' s c :
  (∀ c', c' ≠ c → lo' c' ≤ lo c') →
  (∀ j q u, procs s !! j = Some q → cpus s !! c = Some u → current_pid u = pid q →
     lo' c ≤ time_left_on_core u) →
  levels lo s → levels lo' s.
Proof using.
  intros Hlo Hc Hl j q Hq. destruct (Hl j q Hq). split; try done. intros c' w Hw Ew.
  destruct (lv_run0 c' w Hw Ew). split; [|done].
  destruct (decide (c' = c)) as [->|Hcc]; [by eapply Hc|]. specialize (Hlo c' Hcc). lia.
Qed.

(** The record [mlfq_retire] writes when a quantum expires. *)
Definition demoted (p : Process) : Process :=
  if priority p <? 2 then set_priority (priority p + 1) p else p.

Lemma demoted_same p :
  static (demoted p) = static p ∧ remaining_time (demoted p) = remaining_time p ∧
  ran (demoted p) = ran p.
Proof using. unfold demoted. by destruct (priority p <? 2). Qed.

(** A used-up quantum is exactly the entry ticket of the next level. *)
Lemma demoted_level p :
  0 ≤ priority p ≤ 2 → level_base (priority p) ≤ ran p →
  (priority p < 2 → ran p = level_base (priority p) + mlfq_quantum (priority p)) →
  let q := demoted p in
  0 ≤ priority q ≤ 2 ∧ level_base (priority q) ≤ ran p ∧
  (priority q < 2 → ran p = level_base (priority q)) ∧
  (priority q < 2 → ran p ≤ level_base (priority q) + mlfq_quantum (priority q)).
Proof using.
  intros H1 H2 H3. unfold demoted, level_base, mlfq_quantum, Q0_QUANTUM, Q1_QUANTUM, Q2_QUANTUM in *.
  destruct (Z.ltb_spec (priority p) 2); simpl; [|lia].
  assert (priority p = 0 ∨ priority p = 1) as [E|E] by lia; rewrite E in *; simpl in *; lia.
Qed.

Lemma mlfq_demote_upd s c i u p :
  cpus s !! c = Some u → procs s !! i = Some p → (i < length (running s))%nat →
  (s ← (if priority p <? 2 then put_proc i (set_priority (priority p + 1) p) s else Some s);
   s ← put_running i 0 s; put_cpu c (set_current (-1) u) s) =
  Some (upd c i (set_current (-1) u) (demoted p) 0 (timeline s) (completed s) s).
Proof using.
  intros Hu Hp Hri. unfold demoted.
  destruct (priority p <? 2); simpl; rewrite ?(put_proc_ok s i p) by done; simpl;
    unfold put_running; simpl; rewrite aset_Some by done; simpl; unfold put_cpu; simpl;
    rewrite aset_Some by eauto using lookup_lt_Some; simpl; [done|].
  unfold upd. by rewrite (list_insert_id (procs s)).
Qed.

Lemma mlfq_retire_ok c s :
  (c < m)%nat → levels (fresh_below c) s → Inv 0 (λ c', c' < c)%nat s →
  ∃ s', mlfq_retire c s = Some s' ∧ levels (fresh_below (S c)) s' ∧
    retire_step P0 m io_wait_time c s s'.
Proof using Hvalid.
  intros Hc Hl HI. destruct (core_exists _ _ _ _ _ _ _ HI Hc) as [u Hu].
  pose proof (I_static _ _ _ _ _ _ HI) as Hst.
  assert (Hlo : ∀ c', c' ≠ c → fresh_below (S c) c' ≤ fresh_below c c').
  { intros c' ?. unfold fresh_below. repeat destruct decide; lia. }
  assert (Hlc : fresh_below (S c) c = 1 ∧ fresh_below c c = 0).
  { unfold fresh_below; repeat destruct decide; lia. }
  unfold mlfq_retire. rewrite Hu. simpl.
  destruct (core_cases _ _ _ Hvalid _ _ _ _ _ HI Hu) as [E|(i & p & Hne & Hp & Hcur & Hr & Hf & _)].
  { rewrite E. exists s. split; [done|]. split; [|by eapply retire_idle].
    eapply (levels_raise _ _ s c Hlo); [|done]. intros j q w Hq Hw Ew.
    destruct (procs_fresh P0 Hvalid s Hst j q Hq). simplify_eq. lia. }
  rewrite (proj2 (Z.eqb_neq _ _) Hne), Hf. simpl. rewrite Hp. simpl.
  pose proof (flag_range _ _ _ Hvalid _ _ _ _ _ HI Hp) as Hri.
  pose proof (only_core _ _ _ _ HI (busy_intro s c i u p Hu Hp Hcur)) as Honly.
  destruct (Hl i p Hp) as [L1 L2 L3 L4 L5]. destruct (L5 c u Hu Hcur) as [Llo Lsum].
  destruct (procs_fresh P0 Hvalid s Hst i p Hp) as [Hpid _].
  destruct (Z.eqb_spec (remaining_time p) 0) as [Hz|Hnz].
  { rewrite (complete_io_ok _ _ _ Hvalid _ s i p HI Hp). simpl.
    eexists. split; [by eapply finish_upd|]. split.
    - eapply levels_upd; try done; [by left|simpl; lia|simpl; lia].
    - eapply retire_leave; try done; [|by rewrite Hz].
      intros _. by eapply complete_metrics; try done; apply io_wait_static. }
  destruct (Z.eqb_spec (time_left_on_core u) 0) as [Hlz|Hlnz].
  - destruct (demoted_same p) as (Ep1 & Ep2 & Ep3).
    destruct (demoted_level p) as (Hv1 & Hv2 & Hv3 & Hv4); [done..|intros; rewrite <- Lsum; lia|].
    eexists. split; [by apply mlfq_demote_upd|]. split.
    + eapply levels_upd; try done; rewrite ?Ep3; auto. simpl. lia.
    + eapply retire_leave; try done.
      destruct (Z.eqb_spec (remaining_time p) 0); lia.
  - exists s. split; [done|]. split; [|by eapply retire_keep].
    eapply (levels_raise _ _ s c Hlo); [|done]. intros j q w Hq Hw Ew.
    assert (w = u) as -> by congruence. lia.
Qed.

Lemma mlfq_dispatch_ok c s :
  (c < m)%nat → levels (fresh_from 0) s → Inv 0 (λ _, True) s →
  ∃ s', mlfq_dispatch c s = Some s' ∧ levels (fresh_from 0) s' ∧
    dispatch_step P0 m io_wait_time c s s' ∧
    (idle s c → nobody_ready s ∨ ∃ i p u, ready s i p ∧ (∀ j q, ready s j q → mlfq_before p q) ∧
       busy s' c i ∧ cpus s' !! c = Some u ∧ time_left_on_core u = mlfq_quantum (priority p)).
Proof using Hvalid.
  intros Hc Hl HI. destruct (core_exists _ _ _ _ _ _ _ HI Hc) as [u Hu].
  pose proof (I_static _ _ _ _ _ _ HI) as Hst.
  unfold mlfq_dispatch. rewrite Hu. simpl.
  destruct (Z.eqb_spec (current_pid u) (-1)) as [Hid|Hbusy].
  2: { exists s. split_and!; [done..|by eapply dispatch_busy|]. intros (w & ? & ?). congruence. }
  destruct (mlfq_select_ok _ _ s HI Hl) as (r & -> & Hr). simpl.
  destruct r as [[i p]|]; simpl; [|by eauto 8 using dispatch_none].
  destruct Hr as [Hready Hmin]. pose proof Hready as (Hp & Harr & Hrem & Hr). rewrite Hp. simpl.
  pose proof (flag_range _ _ _ Hvalid _ _ _ _ _ HI Hp) as Hri.
  rewrite (put_cpu_ok s c u) by done. simpl. unfold put_running. simpl.
  rewrite aset_Some by done. simpl. eexists. split; [done|].
  unfold with_running, with_cpus. simpl. rewrite <- (upd_same_proc s c i p Hp).
  destruct (Hl i p Hp) as [L1 L2 L3 L4 L5]. split_and!.
  - eapply levels_upd; try done; [by right| |].
    + intros c' Hb. apply (as_flag _ (I_assign _ _ _ _ _ _ HI)) in Hb. congruence.
    + intros _. simpl. split; [|intros ?; by rewrite L4].
      unfold fresh_from, mlfq_quantum, Q0_QUANTUM, Q1_QUANTUM, Q2_QUANTUM.
      destruct decide; [lia|]. repeat case_match; lia.
  - by eapply dispatch_take.
  - intros _. right. eexists i, p, _. split_and!; try done.
    + apply (upd_busy P0 Hvalid s c i u _ p p _ _ true); try done. by right.
    + simpl. by rewrite list_lookup_insert_eq by eauto using lookup_lt_Some.
    + done.
Qed.

Lemma mlfq_execute_ok c s :
  (c < m)%nat → levels (fresh_from c) s → Inv c (λ c', c ≤ c')%nat s → time s < MAX_TIME →
  ∃ s', mlfq_execute c s = Some s' ∧ levels (fresh_from (S c)) s' ∧
    execute_step P0 m io_wait_time c s s'.
Proof using Hvalid.
  intros Hc Hl HI Ht. destruct (core_exists _ _ _ _ _ _ _ HI Hc) as [u Hu].
  assert (Hlo : ∀ c', fresh_from (S c) c' ≤ fresh_from c c').
  { intros c'. unfold fresh_from. repeat destruct decide; lia. }
  assert (Hlc : fresh_from (S c) c = 0 ∧ fresh_from c c = 1).
  { unfold fresh_from; repeat destruct decide; lia. }
  change (mlfq_execute c s) with (fcfs_execute c s).
  destruct (fcfs_execute_upd P0 m Hvalid c s u Hc HI Ht Hu)
    as [[E HS]|(i & p & tl & Hp & Hcur & Hr & E & HS)].
  { exists s. split; [done|]. split; [by eapply levels_weaken|done]. }
  eexists. split; [exact E|]. split; [|exact HS].
  destruct (Hl i p Hp) as [L1 L2 L3 L4 L5]. destruct (L5 c u Hu Hcur) as [Llo Lsum].
  assert (Hran : ran (set_remaining (remaining_time p - 1) p) = ran p + 1) by (unfold ran; simpl; lia).
  assert (Hri : (i < length (running s))%nat) by by eapply lookup_lt_Some.
  eapply (levels_upd (fresh_from c)); try done; rewrite ?Hran; simpl; try done; auto; try lia; [apply HI|].
  intros c' Hb. eapply (as_excl _ (I_assign _ _ _ _ _ _ HI)); [done|]. by exists u, p.
Qed.

(** After the retire loop every core has time left in its quantum. *)
Lemma mlfq_retired s :
  levels (λ _, 0) s → Inv 0 (λ _, False) s →
  ∃ s1, for_range 0 m mlfq_retire s = Some s1 ∧ levels (fresh_from 0) s1 ∧
    Inv 0 (λ _, True) s1 ∧ time s1 = time s ∧ rems s1 = rems s.
Proof using Hvalid.
  intros Hl HI.
  destruct (retire_loop P0 m io_wait_time (λ s, s) (λ c, levels (fresh_below c)) mlfq_retire s)
    as (s1 & E & Hl1 & HI1 & Ht1 & Hr1); [by apply mlfq_retire_ok| |done|].
  { eapply levels_weaken; [|exact Hl]. intros c. done. }
  exists s1. split_and!; try done.
  intros i p Hp. destruct (Hl1 i p Hp). split; try done. intros c u Hu Eu.
  destruct (lv_run0 c u Hu Eu) as [Hlo ?]. split; [|done].
  assert (c < m)%nat by (apply lookup_lt_Some in Hu; by destruct HI1 as [[_ <- _ _] _ _ _ _ _ _ _]).
  unfold fresh_from, fresh_below in *. destruct (decide (c < 0)%nat); [lia|].
  rewrite decide_True in Hlo; done.
Qed.

(** Any prefix of the dispatch loop keeps the invariant. *)
Lemma mlfq_dispatched c s s' :
  (c ≤ m)%nat → levels (fresh_from 0) s → Inv 0 (λ _, True) s →
  for_range 0 c mlfq_dispatch s = Some s' → levels (fresh_from 0) s' ∧ Inv 0 (λ _, True) s'.
Proof using Hvalid.
  intros Hc Hl HI E. eapply (for_range_inv (λ _ s, levels (fresh_from 0) s ∧ Inv 0 (λ _, True) s)
    mlfq_dispatch 0 c); [done..|].
  intros k s1 s2 Hk [Hl1 HI1] E1. destruct (mlfq_dispatch_ok k s1) as (s3 & E3 & Hl3 & [] & _);
    [lia|done..|]. by simplify_eq.
Qed.

Instance mlfq_system :
  TickSystem P0 m io_wait_time (λ s, s) (levels (λ _, 0)) (mlfq_tick m).
Proof using Hvalid.
  intros s Hl HI Ht. unfold mlfq_tick.
  destruct (mlfq_retired s Hl HI) as (s1 & -> & Hl1 & HI1 & Ht1 & Hr1). simpl.
  destruct (dispatch_loop P0 m io_wait_time (λ s, s) (λ _, levels (fresh_from 0))
    mlfq_dispatch s1) as (s2 & -> & Hl2 & HP2 & Hwc); try done.
  { intros c s2 Hc Hl2 HI2. destruct (mlfq_dispatch_ok c s2) as (s' & ? & ? & ? & _); eauto. }
  simpl. pose proof HP2 as [HI2 Ht2 _ _].
  destruct (execute_loop P0 m io_wait_time (λ s, s) (λ c, levels (fresh_from c)) mlfq_execute s2)
    as (s3 & -> & Hl3 & HI3 & Ht3 & Hk3 & Hle & Hlt); try done; [by apply mlfq_execute_ok|lia|].
  simpl. eexists. split_and!; [done| |by eapply (tick_of_phases P0 m _ Hvalid s s1 s2 s3)].
  apply (levels_weaken (fresh_from m)).
  { intros c. unfold fresh_from. destruct decide; lia. }
  intros i p Hp. destruct (Hl3 i p Hp). by split.
Qed.

End Correct.

(** ** The whole simulator *)

Lemma mlfq_init_static ps : static <$> mlfq_init ps = static <$> ps.
Proof. unfold mlfq_init. rewrite <- list_fmap_compose. by apply list_fmap_ext. Qed.

Lemma mlfq_init_valid ps : valid_input ps → valid_input (mlfq_init ps).
Proof.
  intros (Hl & Hn & HF). unfold mlfq_init. split_and!.
  - by rewrite length_fmap.
  - by rewrite <- list_fmap_compose.
  - by apply Forall_fmap.
Qed.

Lemma mlfq_init_levels ps m :
  valid_input ps → levels (λ _, 0) (init_sim (mlfq_init ps) m).
Proof.
  intros (_ & _ & HF) i p Hp. simpl in Hp. unfold mlfq_init in Hp.
  rewrite list_lookup_fmap in Hp. destruct (ps !! i) as [q|] eqn:Hq; simplify_eq/=.
  rewrite Forall_lookup in HF. destruct (HF i q Hq) as (Hpid & Hb & E & _).
  split; unfold ran; simpl; rewrite ?E, ?Z.sub_diag; try done.
  intros c u Hu. simpl in Hu. apply init_cpus_idle in Hu. lia.
Qed.

Lemma run_mlfq_result ps m :
  valid_input ps →
  ∃ s, run_mlfq ps m = Some s ∧ Inv (mlfq_init ps) m io_wait_time 0 (λ _, False) s ∧
    ∀ A, enough_time ps m A →
      completed s = Z.of_nat (length ps) ∧ time s ≤ A + sumZ (burst_time <$> ps) + 1.
Proof.
  intros Hv. pose proof (mlfq_init_valid ps Hv) as Hv0.
  pose proof (mlfq_system (mlfq_init ps) m Hv0) as Hsys.
  destruct (run_total (mlfq_init ps) m io_wait_time Hv0 (λ s, s) (levels (λ _, 0)) (mlfq_tick m)
    (init_sim (mlfq_init ps) m)) as (s & E & _ & HI & _ & Hlive);
    [done|by apply mlfq_init_levels|].
  exists s. split_and!; [exact E|done|]. intros A (Hm & HA & Harr & Hsum).
  assert (Es : burst_time <$> mlfq_init ps = burst_time <$> ps).
  { unfold mlfq_init. rewrite <- list_fmap_compose. by apply list_fmap_ext. }
  rewrite Es in Hlive. replace (length ps) with (length (mlfq_init ps)) by apply length_fmap.
  apply Hlive; try done. intros p (q & -> & Hq)%list_elem_of_fmap. exact (Harr q Hq).
Qed.

(** C29: MLFQ never fails on a valid table (times below 2^29, so that no metric
    overflows) and produces a legal multiprocessor
    schedule: exclusive cores, no service before arrival, and a Gantt chart
    that shows exactly the milliseconds charged to each process.  With at
    least one core and enough simulated time it completes every process:
    nobody starves in the lowest queue, each is served for exactly its burst,
    and the reported times satisfy the report's formulas. *)
Theorem run_mlfq_correct (ps : list Process) (num_cpus : nat) (Hv : valid_input ps) :
  ∃ s, run_mlfq ps num_cpus = Some s ∧ schedule_ok ps s ∧
    ∀ A, enough_time ps num_cpus A →
      all_complete ps io_wait_time s ∧ time s ≤ A + sumZ (burst_time <$> ps) + 1.
Proof.
  destruct (run_mlfq_result ps num_cpus Hv) as (s & E & HI & Hlive). exists s. split; [done|].
  split.
  { destruct (Inv_schedule_ok _ _ _ _ _ HI). split; try done. etrans; [done|apply mlfq_init_static]. }
  intros A HA. destruct (Hlive A HA) as [Hk Ht]. split; [|done].
  assert (El : length (mlfq_init ps) = length ps) by apply length_fmap.
  destruct (Inv_all_complete (mlfq_init ps) num_cpus io_wait_time (mlfq_init_valid ps Hv) _ s HI);
    [by rewrite El|]. by split; rewrite <- ?El.
Qed.

(** C30: a process's queue level is exactly what its service so far has earned:
    in Q0 it has run at most 2 ms, in Q1 between 2 and 6 ms, and in Q2 at
    least 6 ms; there is no other level. *)
Theorem mlfq_level_by_service (ps : list Process) (num_cpus : nat) (s : Sim) (i : nat) (p : Process)
    (Hv : valid_input ps)
    (Hreach : rtc (loop_step sim_cond (mlfq_tick num_cpus)) (init_sim (mlfq_init ps) num_cpus) s)
    (Hp : procs s !! i = Some p) :
  (priority p = 0 ∧ served (timeline s) (pid p) ≤ 2) ∨
  (priority p = 1 ∧ 2 ≤ served (timeline s) (pid p) ≤ 6) ∨
  (priority p = 2 ∧ 6 ≤ served (timeline s) (pid p)).
Proof.
  pose proof (mlfq_init_valid ps Hv) as Hv0.
  pose proof (mlfq_system (mlfq_init ps) num_cpus Hv0) as Hsys.
  destruct (reach_inv (mlfq_init ps) num_cpus io_wait_time Hv0 (λ s, s) (levels (λ _, 0))
    (mlfq_tick num_cpus) (init_sim (mlfq_init ps) num_cpus) s) as [Hl HI];
    [done|by apply mlfq_init_levels|done|].
  pose proof (I_work _ _ _ _ _ _ HI i p Hp) as []. rewrite wk_served.
  destruct (Hl i p Hp) as [L1 L2 L3 _ _].
  unfold ran, level_base, mlfq_quantum, Q0_QUANTUM, Q1_QUANTUM, Q2_QUANTUM in *.
  assert (priority p = 0 ∨ priority p = 1 ∨ priority p = 2) as [E|[E|E]] by lia;
    rewrite E in *; simpl in *; lia.
Qed.

(** Whenever the dispatcher looks at an idle core, it either finds nobody
    waiting or gives the core to a waiting process of the highest non-empty
    queue, the earliest arrival in it, with the quantum of that queue. *)
Theorem mlfq_dispatch_highest (ps : list Process) (num_cpus c : nat) (s s1 s2 : Sim)
    (Hv : valid_input ps)
    (Hreach : rtc (loop_step sim_cond (mlfq_tick num_cpus)) (init_sim (mlfq_init ps) num_cpus) s)
    (H1 : for_range 0 num_cpus mlfq_retire s = Some s1) (Hc : (c < num_cpus)%nat)
    (H2 : for_range 0 c mlfq_dispatch s1 = Some s2) (Hidle : idle s2 c) :
  ∃ s3, mlfq_dispatch c s2 = Some s3 ∧
    (nobody_ready s2 ∨
     ∃ i p u, ready s2 i p ∧ (∀ j q, ready s2 j q → mlfq_before p q) ∧
       busy s3 c i ∧ cpus s3 !! c = Some u ∧ time_left_on_core u = mlfq_quantum (priority p)).
Proof.
  pose proof (mlfq_init_valid ps Hv) as Hv0.
  pose proof (mlfq_system (mlfq_init ps) num_cpus Hv0) as Hsys.
  destruct (reach_inv (mlfq_init ps) num_cpus io_wait_time Hv0 (λ s, s) (levels (λ _, 0))
    (mlfq_tick num_cpus) (init_sim (mlfq_init ps) num_cpus) s) as [Hl HI];
    [done|by apply mlfq_init_levels|done|].
  destruct (mlfq_retired _ _ Hv0 s Hl HI) as (t1 & E1 & Hl1 & HI1 & _). simplify_eq.
  destruct (mlfq_dispatched _ num_cpus Hv0 c s1 s2) as [Hl2 HI2]; [lia|done..|].
  destruct (mlfq_dispatch_ok _ _ Hv0 c s2 Hc Hl2 HI2) as (s3 & E3 & _ & _ & H3). eauto.
Qed.

(** ** Sample run *)

Example run_mlfq_sample :
  (λ s, ((λ p, (pid p, completion_time p, waiting_time p, priority p)) <$> procs s,
         take 22 <$> timeline s)) <$> run_mlfq sample 2 =
  Some ([(1, 17, 6, 2); (2, 22, 7, 2); (3, 10, 3, 1); (4, 13, 6, 1); (5, 14, 7, 1)],
    [[3; 3; 4; 4; 2; 2; 1; 1; 1; 1; 5; 5; 5; 2; 2; 2; 2; 2; 2; 2; 0; 0];
     [0; 1; 1; 5; 5; 3; 3; 3; 3; 4; 4; 4; 4; 1; 1; 0; 0; 0; 0; 0; 0; 0]]).
Proof. vm_compute. reflexivity. Qed.

Definition mlfq_start : Sim := init_sim (mlfq_init sample) 2.
Definition mlfq_after1 : Sim := default mlfq_start (mlfq_tick 2 mlfq_start).
Definition mlfq_retired1 : Sim := default mlfq_start (for_range 0 2 mlfq_retire mlfq_after1).

Lemma mlfq_step1 : loop_step sim_cond (mlfq_tick 2) mlfq_start mlfq_after1.
Proof. split; vm_compute; reflexivity. Qed.

Lemma run_mlfq_correct_witness :
  ∃ s, run_mlfq sample 2 = Some s ∧ schedule_ok sample s ∧ all_complete sample io_wait_time s ∧
    time s ≤ 4 + sumZ (burst_time <$> sample) + 1.
Proof.
  destruct (run_mlfq_correct sample 2 sample_valid) as (s & H1 & H2 & H3).
  destruct (H3 4 sample_enough) as [H4 H5].
  exists s. split; [exact H1|]. split; [exact H2|]. split; assumption.
Defined.

Lemma mlfq_level_by_service_witness :
  ∃ p, procs mlfq_after1 !! 2%nat = Some p ∧
  ((priority p = 0 ∧ served (timeline mlfq_after1) (pid p) ≤ 2) ∨
   (priority p = 1 ∧ 2 ≤ served (timeline mlfq_after1) (pid p) ≤ 6) ∨
   (priority p = 2 ∧ 6 ≤ served (timeline mlfq_after1) (pid p))).
Proof.
  assert (H : ∃ p, procs mlfq_after1 !! 2%nat = Some p) by (eexists; vm_compute; reflexivity).
  destruct H as [p Hp]. exists p. split; [exact Hp|].
  apply (mlfq_level_by_service sample 2 mlfq_after1 2 p sample_valid); [|exact Hp].
  apply rtc_once. exact mlfq_step1.
Defined.

Lemma mlfq_dispatch_highest_witness :
  ∃ s3, mlfq_dispatch 1 mlfq_retired1 = Some s3 ∧
    (nobody_ready mlfq_retired1 ∨
     ∃ i p u, ready mlfq_retired1 i p ∧ (∀ j q, ready mlfq_retired1 j q → mlfq_before p q) ∧
       busy s3 1 i ∧ cpus s3 !! 1%nat = Some u ∧ time_left_on_core u = mlfq_quantum (priority p)).
Proof.
  apply (mlfq_dispatch_highest sample 2 1 mlfq_after1 mlfq_retired1 mlfq_retired1 sample_valid).
  - apply rtc_once. exact mlfq_step1.
  - vm_compute. reflexivity.
  - lia.
  - vm_compute. reflexivity.
  - eexists. split; vm_compute; reflexivity.
Defined.
