(* ===== verification/Lottery.v ===== *)
(** * Lottery scheduling (lottery.c) *)

From S2P Require Import Prelude SchedCore SchedInv.
Open Scope Z_scope.

(** [rand()] is the C library's generator: an arbitrary stream of values,
    consumed one per call; [draws] counts the calls made so far. *)
Record LotSim := mkLot { lot_sim : Sim; draws : nat }.

(** ** Step 1: release CPUs from finished processes *)
Definition lottery_retire (c : nat) (s : Sim) : option Sim :=
  u ← cpus s !! c;
  if current_pid u =? -1 then Some s else
  i ← find_last (procs s) (current_pid u);
  p ← procs s !! i;
  if remaining_time p =? 0
  then q ← complete_plain (time s) p; finish c i u q s
  else Some s.

(** ** Step 2: the draw *)

(** [total_tickets += processes[i].priority + 1] for every eligible process. *)
Definition count_tickets (s : Sim) (i : nat) (acc : Z) : option Z :=
  e ← eligible s i;
  if e : bool then p ← procs s !! i; k ← int_add (priority p) 1; int_add acc k else Some acc.

Definition total_tickets (s : Sim) : option Z :=
  for_range 0 (length (procs s)) (count_tickets s) 0.

(** The scan that stops ([break]) at the first process whose running ticket
    sum exceeds the winning ticket. *)
Fixpoint find_winner (s : Sim) (winning_ticket : Z) (i n : nat) (current_sum : Z)
    : option (option nat) :=
  match n with
  | O => Some None
  | S n' =>
      e ← eligible s i;
      if e : bool then
        p ← procs s !! i;
        k ← int_add (priority p) 1;
        sum ← int_add current_sum k;
        if winning_ticket <? sum then Some (Some i)
        else find_winner s winning_ticket (S i) n' sum
      else find_winner s winning_ticket (S i) n' current_sum
  end.

Definition lottery_dispatch (rand : nat → Z) (c : nat) (l : LotSim) : option LotSim :=
  let s := lot_sim l in
  u ← cpus s !! c;
  if current_pid u =? -1 then
    total ← total_tickets s;
    if 0 <? total then
      let winning_ticket := Z.rem (rand (draws l)) total in
      w ← find_winner s winning_ticket 0 (length (procs s)) 0;
      match w with
      | Some i =>
          p ← procs s !! i;
          s ← put_cpu c (set_current (pid p) u) s;
          s ← put_running i 1 s;
          Some (mkLot s (S (draws l)))
      | None => Some (mkLot s (S (draws l)))
      end
    else Some l
  else Some l.

(** ** Step 3: execute one millisecond: every process with the pid is charged *)
Definition charge (x : Z) (p : Process) : Process :=
  if pid p =? x then set_remaining (remaining_time p - 1) p else p.

Definition lottery_execute (c : nat) (s : Sim) : option Sim :=
  u ← cpus s !! c;
  if current_pid u =? -1 then Some s else
  s ← put_cell c (current_pid u) s;
  Some (with_procs (charge (current_pid u) <$> procs s) s).

Definition lottery_tick (rand : nat → Z) (num_cpus : nat) (l : LotSim) : option LotSim :=
  s ← for_range 0 num_cpus lottery_retire (lot_sim l);
  l ← for_range 0 num_cpus (lottery_dispatch rand) (mkLot s (draws l));
  s ← for_range 0 num_cpus lottery_execute (lot_sim l);
  Some (mkLot (with_time (time s + 1) s) (draws l)).

(** [run_lottery] leaves [time_left_on_core] uninitialised and never reads it. *)
Definition run_lottery (rand : nat → Z) (processes : list Process) (num_cpus : nat)
    : option LotSim :=
  while (Z.to_nat MAX_TIME) (λ l, sim_cond (lot_sim l)) (lottery_tick rand num_cpus)
    (mkLot (init_sim processes num_cpus) 0).

(** ** Tickets *)

(** The tickets process [i] holds in a draw. *)
Definition tickets (s : Sim) (i : nat) : Z :=
  match eligible s i, procs s !! i with
  | Some true, Some p => priority p + 1
  | _, _ => 0
  end.

(** The tickets of the processes below [i]. *)
Definition ticket_offset (s : Sim) (i : nat) : Z := sumZ (tickets s <$> seq 0 i).

Lemma ticket_offset_S s i : ticket_offset s (S i) = ticket_offset s i + tickets s i.
Proof.
  unfold ticket_offset. rewrite seq_S, fmap_app, sumZ_app. simpl. lia.
Qed.

(** No priority is negative, and the tickets of all processes together are
    fewer than 2^31. *)
Definition tickets_fit (ps : list Process) : Prop :=
  Forall (λ x, 0 ≤ x) (priority <$> ps) ∧ sumZ ((λ x, x + 1) <$> (priority <$> ps)) < 2 ^ 31.

Section Correct.
Context (P0 : list Process) (m : nat).
Hypothesis Hvalid : valid_input P0.

Definition no_io (p : Process) : Z := 0.
Local Abbreviation Inv := (Inv P0 m no_io).

Lemma no_io_static p q : static p = static q → no_io p = no_io q.
Proof using. done. Qed.

(** Every process holds at least one ticket, and all tickets fit in [int]. *)
Definition ticketed (s : Sim) : Prop := tickets_fit (procs s).

Lemma ticketed_upd s c i u p q r tl n :
  procs s !! i = Some p → priority q = priority p → ticketed s → ticketed (upd c i u q r tl n s).
Proof using.
  intros Hp Eq. unfold ticketed, tickets_fit. simpl. rewrite list_fmap_insert, Eq.
  by rewrite list_insert_id by (by rewrite list_lookup_fmap, Hp).
Qed.

Lemma ticketed_priority s i p : ticketed s → procs s !! i = Some p → 0 ≤ priority p.
Proof using.
  intros [HF _] Hp. eapply (Forall_lookup_1 _ _ i) in HF; [exact HF|]. by rewrite list_lookup_fmap, Hp.
Qed.

Section Draw.
Context (live : nat → Prop) (s : Sim).
Hypothesis HI : Inv 0 live s.
Hypothesis Htick : ticketed s.

Lemma tickets_ready i p : ready s i p → tickets s i = priority p + 1.
Proof using HI Hvalid.
  intros Hr. pose proof Hr as [Hp _]. unfold tickets.
  destruct (eligible_ready _ _ _ Hvalid _ _ s i HI) as (b & q & -> & Hq & Hb); [by eapply lookup_lt_Some|].
  assert (q = p) as -> by congruence. rewrite Hp. by rewrite (proj2 Hb Hr).
Qed.

Lemma tickets_cases i :
  (i < length (procs s))%nat →
  (∃ p, ready s i p ∧ eligible s i = Some true ∧ procs s !! i = Some p ∧
     tickets s i = priority p + 1 ∧ 0 < tickets s i) ∨
  ((∀ p, ¬ ready s i p) ∧ eligible s i = Some false ∧ tickets s i = 0).
Proof using HI Hvalid Htick.
  intros Hi. destruct (eligible_ready _ _ _ Hvalid _ _ s i HI Hi) as (b & p & He & Hp & Hb).
  pose proof (ticketed_priority s i p Htick Hp). unfold tickets. rewrite He, Hp. destruct b.
  - left. exists p. split_and!; try done; [by apply Hb|lia].
  - right. split_and!; try done. intros q Hq. assert (q = p) as -> by (destruct Hq; congruence).
    by apply Hb in Hq.
Qed.

Lemma ticket_offset_mono i j : (i ≤ j ≤ length (procs s))%nat → ticket_offset s i ≤ ticket_offset s j.
Proof using HI Hvalid Htick.
  intros [Hij Hj]. induction Hij as [|j Hij IH]; [done|]. rewrite ticket_offset_S.
  destruct (tickets_cases j) as [(p & _ & _ & _ & _ & ?)|(_ & _ & ?)]; lia.
Qed.

(** Every partial sum of tickets is an [int]. *)
Lemma ticket_offset_bound i : (i ≤ length (procs s))%nat → 0 ≤ ticket_offset s i < 2 ^ 31.
Proof using HI Hvalid Htick.
  intros Hi. pose proof (ticket_offset_mono 0 i ltac:(lia)). change (ticket_offset s 0) with 0 in *.
  pose proof (ticket_offset_mono i (length (procs s)) ltac:(lia)).
  assert (Hle : ∀ j, (j ≤ length (procs s))%nat →
    ticket_offset s j ≤ sumZ ((λ x, x + 1) <$> (priority <$> take j (procs s)))).
  { induction j as [|j IH]; intros Hj; [done|]. rewrite ticket_offset_S.
    destruct (lookup_lt_is_Some_2 (procs s) j ltac:(lia)) as [p Hp].
    rewrite (take_S_r _ _ _ Hp), !fmap_app, sumZ_app. specialize (IH ltac:(lia)).
    pose proof (ticketed_priority s j p Htick Hp). simpl.
    destruct (tickets_cases j) as [(q & _ & _ & Hq & Et & _)|(_ & _ & Et)]; [lia| |]; simplify_eq; lia. }
  specialize (Hle _ (le_n _)). rewrite firstn_all in Hle. destruct Htick as [_ Hsum]. lia.
Qed.

Lemma ticket_step i p :
  (i < length (procs s))%nat → procs s !! i = Some p → tickets s i = priority p + 1 →
  int_add (priority p) 1 = Some (tickets s i) ∧
  int_add (ticket_offset s i) (tickets s i) = Some (ticket_offset s (S i)).
Proof using HI Hvalid Htick.
  intros Hi Hp Et. pose proof (ticketed_priority s i p Htick Hp).
  pose proof (ticket_offset_bound i ltac:(lia)). pose proof (ticket_offset_bound (S i) ltac:(lia)).
  pose proof (ticket_offset_S s i). split; rewrite int_add_ok by lia; f_equal; lia.
Qed.

Lemma total_tickets_ok : total_tickets s = Some (ticket_offset s (length (procs s))).
Proof using HI Hvalid Htick.
  unfold total_tickets.
  destruct (for_range_total (λ i a, a = ticket_offset s i) (count_tickets s) 0 (length (procs s)) 0)
    as (a & E & ->); [done| |done].
  intros i a Hi ->. unfold count_tickets.
  destruct (tickets_cases i) as [(p & _ & -> & Hp & Et & _)|(_ & -> & Et)]; [lia|..]; simpl.
  - rewrite Hp. simpl. destruct (ticket_step i p ltac:(lia) Hp Et) as [-> E]. simpl. rewrite E. eauto.
  - eexists. split; [done|]. rewrite ticket_offset_S. lia.
Qed.

(** The scan from [i] finds the process whose ticket interval holds the ticket. *)
Lemma find_winner_from t n i :
  (i + n = length (procs s))%nat → ticket_offset s i ≤ t < ticket_offset s (length (procs s)) →
  ∃ j p, find_winner s t i n (ticket_offset s i) = Some (Some j) ∧ ready s j p ∧
    ticket_offset s j ≤ t < ticket_offset s (S j).
Proof using HI Hvalid Htick.
  revert i. induction n as [|n IH]; intros i Hn Ht.
  { replace i with (length (procs s)) in Ht by lia. lia. }
  simpl. pose proof (ticket_offset_S s i) as ES.
  destruct (tickets_cases i) as [(p & Hr & -> & Hp & Et & _)|(_ & -> & Et)]; [lia|..]; simpl.
  - rewrite Hp. simpl. destruct (ticket_step i p ltac:(lia) Hp Et) as [-> E]. simpl. rewrite E. simpl.
    destruct (Z.ltb_spec t (ticket_offset s (S i))); [exists i, p; split_and!; (done || lia)|]. apply IH; lia.
  - rewrite <- (Z.add_0_r (ticket_offset s i)), <- Et, <- ES. apply IH; lia.
Qed.

(** Ticket intervals do not overlap. *)
Lemma ticket_owner t i j :
  (i < length (procs s))%nat → (j < length (procs s))%nat →
  ticket_offset s i ≤ t < ticket_offset s (S i) → ticket_offset s j ≤ t < ticket_offset s (S j) →
  i = j.
Proof using HI Hvalid Htick.
  intros Hi Hj Hti Htj. destruct (lt_eq_lt_dec i j) as [[H|?]|H]; [|done|].
  - pose proof (ticket_offset_mono (S i) j). lia.
  - pose proof (ticket_offset_mono (S j) i). lia.
Qed.

Lemma find_winner_spec t :
  0 ≤ t < ticket_offset s (length (procs s)) →
  ∃ j p, find_winner s t 0 (length (procs s)) 0 = Some (Some j) ∧ ready s j p ∧
    ticket_offset s j ≤ t < ticket_offset s (S j).
Proof using HI Hvalid Htick. intros Ht. by apply (find_winner_from t (length (procs s)) 0). Qed.

Lemma no_tickets : ticket_offset s (length (procs s)) ≤ 0 → nobody_ready s.
Proof using HI Hvalid Htick.
  intros H0 i p Hr. pose proof Hr as [Hp _]. pose proof (lookup_lt_Some _ _ _ Hp).
  pose proof (ticket_offset_mono (S i) (length (procs s))).
  pose proof (ticket_offset_mono 0 i). pose proof (ticket_offset_S s i).
  rewrite (tickets_ready i p Hr) in *. pose proof (ticketed_priority s i p Htick Hp).
  change (ticket_offset s 0) with 0 in *. lia.
Qed.

End Draw.

(** ** The loop bodies *)

Lemma lottery_retire_ok c s :
  (c < m)%nat → Inv 0 (λ c', c' < c)%nat s →
  ∃ s', lottery_retire c s = Some s' ∧ retire_step P0 m no_io c s s' ∧
    (ticketed s → ticketed s') ∧ timeline s' = timeline s ∧
    (∀ c' i, busy s' c' i → busy s c' i).
Proof using Hvalid.
  intros Hc HI. destruct (core_exists _ _ _ _ _ _ _ HI Hc) as [u Hu].
  unfold lottery_retire. rewrite Hu. simpl.
  destruct (core_cases _ _ _ Hvalid _ _ _ _ _ HI Hu) as [E|(i & p & Hne & Hp & Hcur & Hr & Hl & _)].
  { rewrite E. exists s. split_and!; try done. by eapply retire_idle. }
  rewrite (proj2 (Z.eqb_neq _ _) Hne), Hl. simpl. rewrite Hp. simpl.
  destruct (Z.eqb_spec (remaining_time p) 0) as [Hz|Hnz].
  2: { exists s. split_and!; try done. by eapply retire_keep. }
  rewrite (complete_plain_ok _ _ _ Hvalid _ s i p HI Hp). simpl.
  eexists. split; [by eapply finish_upd|]. split_and!; [|by eapply ticketed_upd|done|].
  - eapply retire_leave; try done; [|by rewrite Hz].
    intros _. eapply complete_metrics; try done; unfold no_io; simpl; lia.
  - intros c' j Hb. apply (upd_busy P0 Hvalid s c i u _ p _ _ _ false) in Hb; try done; [|apply HI].
    by destruct Hb as [[_ ?]|(_ & _ & ?)].
Qed.

Lemma lottery_dispatch_ok rand c l :
  (∀ k, 0 ≤ rand k) → (c < m)%nat → ticketed (lot_sim l) → Inv 0 (λ _, True) (lot_sim l) →
  ∃ l', lottery_dispatch rand c l = Some l' ∧ ticketed (lot_sim l') ∧
    dispatch_step P0 m no_io c (lot_sim l) (lot_sim l').
Proof using Hvalid.
  intros Hrand Hc Hk HI. destruct l as [s d]. simpl in *.
  destruct (core_exists _ _ _ _ _ _ _ HI Hc) as [u Hu].
  unfold lottery_dispatch. simpl. rewrite Hu. simpl.
  destruct (Z.eqb_spec (current_pid u) (-1)) as [Hid|Hbusy];
    [|by eexists; split_and!; [done..|by eapply dispatch_busy]].
  rewrite (total_tickets_ok _ s HI Hk). simpl.
  destruct (Z.ltb_spec 0 (ticket_offset s (length (procs s)))) as [Hpos|Hz].
  - destruct (find_winner_spec _ s HI Hk (Z.rem (rand d) (ticket_offset s (length (procs s)))))
      as (i & p & -> & Hready & _); [apply Z.rem_bound_pos; auto|]. simpl.
    pose proof Hready as [Hp _]. rewrite Hp. simpl.
    rewrite (put_cpu_ok s c u) by done. simpl. unfold put_running. simpl.
    rewrite aset_Some by (by eapply flag_range). simpl. eexists. split; [done|]. simpl.
    unfold with_running, with_cpus. simpl. rewrite <- (upd_same_proc s c i p Hp).
    split; [by eapply ticketed_upd|by eapply dispatch_take].
  - eexists. split_and!; [done..|]. eapply dispatch_none; [done|]. by eapply no_tickets.
Qed.

(** With distinct pids, charging by pid charges one process. *)
Lemma charge_insert ps i p :
  NoDup (pid <$> ps) → ps !! i = Some p →
  charge (pid p) <$> ps = <[i:=set_remaining (remaining_time p - 1) p]> ps.
Proof using.
  intros Hnd Hi. apply list_eq. intros j. rewrite list_lookup_fmap.
  destruct (decide (j = i)) as [->|Hne].
  - rewrite Hi, list_lookup_insert_eq by eauto using lookup_lt_Some. simpl. unfold charge.
    by rewrite Z.eqb_refl.
  - rewrite list_lookup_insert_ne by done. destruct (ps !! j) as [q|] eqn:Hj; [|done]. simpl.
    unfold charge. destruct (Z.eqb_spec (pid q) (pid p)) as [E|]; [|done]. destruct Hne.
    eapply NoDup_lookup; [exact Hnd|rewrite list_lookup_fmap, Hj; done|].
    rewrite list_lookup_fmap, Hi. simpl. congruence.
Qed.

Lemma lottery_execute_ok c s :
  (c < m)%nat → ticketed s → Inv c (λ c', c ≤ c')%nat s → time s < MAX_TIME →
  ∃ s', lottery_execute c s = Some s' ∧ ticketed s' ∧ execute_step P0 m no_io c s s'.
Proof using Hvalid.
  intros Hc Hk HI Ht. destruct (core_exists _ _ _ _ _ _ _ HI Hc) as [u Hu].
  unfold lottery_execute. rewrite Hu. simpl.
  destruct (core_cases _ _ _ Hvalid _ _ _ _ _ HI Hu) as [E|(i & p & Hne & Hp & Hcur & Hr & _ & _)].
  { rewrite E. simpl. exists s. split_and!; [done..|by eapply execute_idle]. }
  rewrite (proj2 (Z.eqb_neq _ _) Hne).
  destruct (put_cell_ok _ _ _ _ _ s c (current_pid u) HI) as (row & Hrow & Hcell & ->); try done.
  simpl. rewrite Hcur, (charge_insert (procs s) i p);
    [|by apply (procs_nodup P0 Hvalid s (I_static _ _ _ _ _ _ HI))|done].
  eexists. split; [done|]. unfold with_procs, with_timeline. simpl.
  rewrite <- (list_insert_id (running s) i 1), <- (list_insert_id (cpus s) c u) by done.
  split; [by eapply (ticketed_upd s c i _ p)|].
  by eapply (execute_busy P0 m no_io Hvalid s c i u p).
Qed.

Lemma lottery_dispatch_loop rand l :
  (∀ k, 0 ≤ rand k) → ticketed (lot_sim l) → Inv 0 (λ _, True) (lot_sim l) →
  ∃ l', for_range 0 m (lottery_dispatch rand) l = Some l' ∧ ticketed (lot_sim l') ∧
    preempt_step P0 m no_io (lot_sim l) (lot_sim l') ∧
    ∀ c, idle (lot_sim l') c → nobody_ready (lot_sim l').
Proof using Hvalid.
  intros Hrand. apply (dispatch_loop P0 m no_io lot_sim (λ _ l, ticketed (lot_sim l))).
  intros c l1 Hc. by apply lottery_dispatch_ok.
Qed.

(** Any prefix of the dispatch loop keeps the invariant. *)
Lemma lottery_dispatched rand c l l' :
  (∀ k, 0 ≤ rand k) → (c ≤ m)%nat → ticketed (lot_sim l) → Inv 0 (λ _, True) (lot_sim l) →
  for_range 0 c (lottery_dispatch rand) l = Some l' →
  ticketed (lot_sim l') ∧ Inv 0 (λ _, True) (lot_sim l').
Proof using Hvalid.
  intros Hrand Hc Hl HI E.
  eapply (for_range_inv (λ _ l, ticketed (lot_sim l) ∧ Inv 0 (λ _, True) (lot_sim l))
    (lottery_dispatch rand) 0 c); [done..|].
  intros k l1 l2 Hk [Hl1 HI1] E1.
  destruct (lottery_dispatch_ok rand k l1) as (l3 & E3 & Hl3 & []); [done|lia|done..|]. by simplify_eq.
Qed.

Lemma lottery_retired s :
  ticketed s → Inv 0 (λ _, False) s →
  ∃ s1, for_range 0 m lottery_retire s = Some s1 ∧ ticketed s1 ∧ Inv 0 (λ _, True) s1 ∧
    time s1 = time s ∧ rems s1 = rems s.
Proof using Hvalid.
  apply (retire_loop P0 m no_io (λ s, s) (λ _, ticketed)). intros c s1 Hc Hk HI.
  destruct (lottery_retire_ok c s1 Hc HI) as (s' & ? & ? & ? & _). eauto.
Qed.

Lemma lottery_system rand :
  (∀ k, 0 ≤ rand k) →
  TickSystem P0 m no_io lot_sim (λ l, ticketed (lot_sim l)) (lottery_tick rand m).
Proof using Hvalid.
  intros Hrand l Hl HI Ht. unfold lottery_tick.
  destruct (lottery_retired (lot_sim l) Hl HI) as (s1 & -> & Hl1 & HI1 & Ht1 & Hr1). simpl.
  destruct (lottery_dispatch_loop rand (mkLot s1 (draws l))) as (l2 & -> & Hl2 & HP2 & Hwc); try done.
  simpl in *. pose proof HP2 as [HI2 Ht2 _ _].
  destruct (execute_loop P0 m no_io (λ s, s) (λ _, ticketed) lottery_execute (lot_sim l2))
    as (s3 & -> & Hl3 & HI3 & Ht3 & Hk3 & Hle & Hlt); try done; [|lia|].
  { intros c s3 Hc. by apply lottery_execute_ok. }
  simpl. eexists. split_and!; [done|done|].
  by eapply (tick_of_phases P0 m _ Hvalid (lot_sim l) s1 (lot_sim l2) s3).
Qed.

(** The winning tickets of a ready process are [priority + 1] of the drawn ones. *)
Lemma lottery_share live s i p :
  Inv 0 live s → ticketed s → ready s i p →
  count (λ t, bool_decide (find_winner s (Z.of_nat t) 0 (length (procs s)) 0 = Some (Some i)))
    (Z.to_nat (ticket_offset s (length (procs s)))) = Z.to_nat (priority p + 1).
Proof using Hvalid.
  intros HI Hk Hr. pose proof Hr as [Hp _]. pose proof (lookup_lt_Some _ _ _ Hp) as Hi.
  pose proof (ticket_offset_S s i) as ES. rewrite (tickets_ready _ s HI i p Hr) in ES.
  pose proof (ticket_offset_mono _ s HI Hk (S i) (length (procs s))).
  pose proof (ticket_offset_mono _ s HI Hk 0 i). change (ticket_offset s 0) with 0 in *.
  pose proof (ticketed_priority s i p Hk Hp).
  rewrite (count_ext _ (λ t, (Z.to_nat (ticket_offset s i) <=? t)%nat &&
    (t <? Z.to_nat (ticket_offset s (S i)))%nat)).
  { rewrite count_interval by lia. lia. }
  intros t Ht. destruct (find_winner_spec _ s HI Hk (Z.of_nat t)) as (j & q & E & Hrj & Hj); [lia|].
  rewrite E. case_bool_decide as Hd.
  - simplify_eq. symmetry. apply andb_true_iff. rewrite Nat.leb_le, Nat.ltb_lt. lia.
  - destruct (Nat.leb_spec (Z.to_nat (ticket_offset s i)) t),
      (Nat.ltb_spec t (Z.to_nat (ticket_offset s (S i)))); try done.
    destruct Hd. do 2 f_equal. pose proof Hrj as [Hq _]. apply lookup_lt_Some in Hq.
    apply (ticket_owner _ s HI Hk (Z.of_nat t)); (done || lia).
Qed.

End Correct.

(** ** The whole simulator *)

(** Priorities are the ticket counts less one, so they are not negative. *)
Definition lottery_input (ps : list Process) : Prop := valid_input ps ∧ tickets_fit ps.

Lemma lottery_init_ticketed ps m : lottery_input ps → ticketed (init_sim ps m).
Proof. by intros [_ HF]. Qed.

Lemma run_lottery_result rand ps m :
  (∀ k, 0 ≤ rand k) → lottery_input ps →
  ∃ l, run_lottery rand ps m = Some l ∧ Inv ps m no_io 0 (λ _, False) (lot_sim l) ∧
    ∀ A, enough_time ps m A →
      completed (lot_sim l) = Z.of_nat (length ps) ∧
      time (lot_sim l) ≤ A + sumZ (burst_time <$> ps) + 1.
Proof.
  intros Hrand Hin. pose proof Hin as [Hv _]. pose proof (lottery_system ps m Hv rand Hrand) as Hsys.
  destruct (run_total ps m no_io Hv lot_sim (λ l, ticketed (lot_sim l)) (lottery_tick rand m)
    (mkLot (init_sim ps m) 0)) as (l & E & _ & HI & _ & Hlive);
    [done|by apply lottery_init_ticketed|].
  exists l. split_and!; [done..|]. intros A (? & ? & ? & ?). by apply Hlive.
Qed.

(** C32: whatever values [rand] returns, the lottery scheduler never fails on a
    valid table whose priorities are not negative and whose tickets
    (priority + 1 of every process) sum to less than 2^31, and produces a
    legal multiprocessor schedule; with enough simulated time it completes
    every process (nobody starves), with turnaround times that agree with the
    completion times and the documented waiting time for the processes that do
    not wait for I/O. *)
Theorem run_lottery_correct (rand : nat → Z) (ps : list Process) (num_cpus : nat)
    (Hrand : ∀ k, 0 ≤ rand k) (Hv : lottery_input ps) :
  ∃ l, run_lottery rand ps num_cpus = Some l ∧ schedule_ok ps (lot_sim l) ∧
    ∀ A, enough_time ps num_cpus A →
      all_served ps (lot_sim l) ∧
      time (lot_sim l) ≤ A + sumZ (burst_time <$> ps) + 1.
Proof.
  destruct (run_lottery_result rand ps num_cpus Hrand Hv) as (l & E & HI & Hlive).
  exists l. split_and!; [done|by eapply Inv_schedule_ok|].
  intros A HA. destruct (Hlive A HA) as [Hk Ht]. split; [|done].
  apply (all_complete_served ps no_io); [done|]. eapply Inv_all_complete; [apply Hv|done..].
Qed.

(** The draw is proportional: at every point where the dispatcher draws,
    out of the [total] equally likely tickets exactly [priority + 1] make a
    waiting process the winner. *)
Theorem lottery_proportional (rand : nat → Z) (ps : list Process) (num_cpus c : nat)
    (l l2 : LotSim) (s1 : Sim) (i : nat) (p : Process)
    (Hrand : ∀ k, 0 ≤ rand k) (Hv : lottery_input ps)
    (Hreach : rtc (loop_step (λ l, sim_cond (lot_sim l)) (lottery_tick rand num_cpus))
      (mkLot (init_sim ps num_cpus) 0) l)
    (H1 : for_range 0 num_cpus lottery_retire (lot_sim l) = Some s1) (Hc : (c ≤ num_cpus)%nat)
    (H2 : for_range 0 c (lottery_dispatch rand) (mkLot s1 (draws l)) = Some l2)
    (Hready : ready (lot_sim l2) i p) :
  ∃ total, total_tickets (lot_sim l2) = Some total ∧
    count (λ t, bool_decide (find_winner (lot_sim l2) (Z.of_nat t) 0
                               (length (procs (lot_sim l2))) 0 = Some (Some i)))
      (Z.to_nat total) = Z.to_nat (priority p + 1).
Proof.
  pose proof Hv as [Hvi _]. pose proof (lottery_system ps num_cpus Hvi rand Hrand) as Hsys.
  destruct (reach_inv ps num_cpus no_io Hvi lot_sim (λ l, ticketed (lot_sim l))
    (lottery_tick rand num_cpus) (mkLot (init_sim ps num_cpus) 0) l) as [Hk HI];
    [done|by apply lottery_init_ticketed|done|].
  destruct (lottery_retired _ _ Hvi (lot_sim l) Hk HI) as (t1 & E1 & Hk1 & HI1 & _).
  assert (t1 = s1) as -> by congruence.
  destruct (lottery_dispatched ps num_cpus Hvi rand c (mkLot s1 (draws l)) l2) as [Hk2 HI2];
    [done..|].
  eexists. split; [by eapply total_tickets_ok|]. by eapply lottery_share.
Qed.

(** ** Sample run *)

(** A generator that always returns the same value. *)
Definition rand7 (k : nat) : Z := 7.

Lemma rand7_ok k : 0 ≤ rand7 k.
Proof. unfold rand7. lia. Qed.

Lemma sample_lottery : lottery_input sample.
Proof. split; [exact sample_valid|]. split; [repeat constructor; simpl; lia|reflexivity]. Qed.

Lemma run_lottery_correct_witness :
  ∃ l, run_lottery rand7 sample 2 = Some l ∧ schedule_ok sample (lot_sim l) ∧
    all_served sample (lot_sim l) ∧
    time (lot_sim l) ≤ 4 + sumZ (burst_time <$> sample) + 1.
Proof.
  destruct (run_lottery_correct rand7 sample 2 rand7_ok sample_lottery) as (l & H1 & H2 & H3).
  destruct (H3 4 sample_enough) as [H4 H5].
  exists l. split; [exact H1|]. split; [exact H2|]. split; assumption.
Defined.

(** The bound on the tickets is needed: two priorities of 2^30 overflow the sum. *)
Example lottery_tickets_overflow :
  total_tickets (init_sim (set_priority (2 ^ 30) <$> [sample_proc 1 0 5 9 0; sample_proc 2 0 5 9 0]) 1) = None.
Proof. vm_compute. reflexivity. Qed.

Definition lottery_start : LotSim := mkLot (init_sim sample 2) 0.

Lemma lottery_proportional_witness :
  ∃ p, ready (init_sim sample 2) 2 p ∧
  ∃ total, total_tickets (init_sim sample 2) = Some total ∧
    count (λ t, bool_decide (find_winner (init_sim sample 2) (Z.of_nat t) 0 5 0 = Some (Some 2%nat)))
      (Z.to_nat total) = Z.to_nat (priority p + 1).
Proof.
  assert (H : ∃ p, ready (init_sim sample 2) 2 p).
  { eexists. split; [vm_compute; reflexivity|]. split_and!; try (simpl; lia). vm_compute. reflexivity. }
  destruct H as [p Hp]. exists p. split; [exact Hp|].
  apply (lottery_proportional rand7 sample 2 0 lottery_start lottery_start (init_sim sample 2) 2 p
    rand7_ok sample_lottery); [apply rtc_refl| |lia|reflexivity|exact Hp].
  vm_compute. reflexivity.
Defined.
