(* ===== verification/Edf.v ===== *)
(** * Earliest deadline first (edf.c) *)

From S2P Require Import Prelude SchedCore SchedInv.
Open Scope Z_scope.

(** The locals of [run_edf]: those of every simulator and the miss counter. *)
Record EdfSim := mkEdf { edf_sim : Sim; deadline_misses : Z }.

(** ** Step 1: completions and deadline misses *)
Definition edf_retire (c : nat) (e : EdfSim) : option EdfSim :=
  let s := edf_sim e in
  u ← cpus s !! c;
  if current_pid u =? -1 then Some e else
  i ← find_first (procs s) (current_pid u);
  p ← procs s !! i;
  if remaining_time p =? 0 then
    q ← complete_io (time s) p;
    let '(q, misses) :=
      if deadline q <? completion_time q
      then (set_missed 1 q, deadline_misses e + 1)
      else (q, deadline_misses e) in
    s ← finish c i u q s;
    Some (mkEdf s misses)
  else Some e.

(** ** Step 2: preemption by newly arrived processes *)

(** The cpu that runs the process with the latest deadline;
    the accumulator is [(worst_cpu, worst_deadline)]. *)
Definition edf_worst_scan (s : Sim) (c : nat) (acc : option nat * Z) : option (option nat * Z) :=
  let '(worst, wdl) := acc in
  u ← cpus s !! c;
  if current_pid u =? -1 then Some acc else
  k ← find_first (procs s) (current_pid u);
  p ← procs s !! k;
  if wdl <? deadline p then Some (Some c, deadline p) else Some acc.

Definition edf_worst (num_cpus : nat) (s : Sim) : option (option nat * Z) :=
  for_range 0 num_cpus (edf_worst_scan s) (None, -1).

Definition edf_preempt (num_cpus : nat) (i : nat) (s : Sim) : option Sim :=
  p ← procs s !! i;
  arrived ← (if (arrival_time p =? time s) && (0 <? remaining_time p)
             then r ← running s !! i; Some (r =? 0) else Some false);
  if arrived : bool then
    '(worst, wdl) ← edf_worst num_cpus s;
    match worst with
    | Some c =>
        if deadline p <? wdl then
          u ← cpus s !! c;
          k ← find_first (procs s) (current_pid u);
          s ← put_running k 0 s;
          put_cpu c (set_current (-1) u) s
        else Some s
    | None => Some s
    end
  else Some s.

(** ** Step 3: dispatch.  The accumulator is [(best_idx, earliest_deadline)]. *)
Definition edf_scan (s : Sim) (i : nat) (acc : option nat * Z) : option (option nat * Z) :=
  let '(best, earliest) := acc in
  e ← eligible s i;
  if e : bool then
    p ← procs s !! i;
    if deadline p <? earliest then Some (Some i, deadline p) else Some acc
  else Some acc.

Definition edf_select (s : Sim) : option (option nat) :=
  r ← for_range 0 (length (procs s)) (edf_scan s) (None, 999999);
  Some (fst r).

Definition edf_dispatch (c : nat) (s : Sim) : option Sim :=
  u ← cpus s !! c;
  if current_pid u =? -1 then
    b ← edf_select s;
    match b with
    | Some i =>
        p ← procs s !! i;
        s ← put_cpu c (set_current (pid p) u) s;
        put_running i 1 s
    | None => Some s
    end
  else Some s.

(** ** Step 4: execute one time unit *)
Definition edf_execute (c : nat) (s : Sim) : option Sim :=
  u ← cpus s !! c;
  if current_pid u =? -1 then put_cell c 0 s else
  s ← put_cell c (current_pid u) s;
  i ← find_first (procs s) (current_pid u);
  p ← procs s !! i;
  put_proc i (set_remaining (remaining_time p - 1) p) s.

Definition edf_tick (num_cpus : nat) (e : EdfSim) : option EdfSim :=
  e ← for_range 0 num_cpus edf_retire e;
  s ← for_range 0 (length (procs (edf_sim e))) (edf_preempt num_cpus) (edf_sim e);
  s ← for_range 0 num_cpus edf_dispatch s;
  s ← for_range 0 num_cpus edf_execute s;
  Some (mkEdf (with_time (time s + 1) s) (deadline_misses e)).

Definition run_edf (processes : list Process) (num_cpus : nat) : option EdfSim :=
  while (Z.to_nat MAX_TIME) (λ e, sim_cond (edf_sim e)) (edf_tick num_cpus)
    (mkEdf (init_sim processes num_cpus) 0).

(** ** The EDF order *)

(** Deadlines the scans' sentinels [-1] and [999999] can tell apart. *)
Definition deadlines_ok (ps : list Process) : Prop := Forall (λ p, 0 ≤ deadline p < 999999) ps.

(** Every running process arrived before this tick and no process that waits
    since before this tick has an earlier deadline. *)
Definition edf_order (s : Sim) : Prop :=
  ∀ c i p, busy s c i → procs s !! i = Some p → arrival_time p < time s ∧
    ∀ j q, ready s j q → arrival_time q < time s → deadline p ≤ deadline q.

(** The same after this tick's arrivals have been dispatched. *)
Definition edf_dispatched (s : Sim) : Prop :=
  ∀ c i p, busy s c i → procs s !! i = Some p → arrival_time p ≤ time s ∧
    ∀ j q, ready s j q → deadline p ≤ deadline q.

(** Waiting process [i] has a deadline before [D]. *)
Definition urgent (s : Sim) (D : Z) (i : nat) : bool :=
  match procs s !! i, running s !! i with
  | Some p, Some r =>
      (arrival_time p <=? time s) && (0 <? remaining_time p) && (r =? 0) && (deadline p <? D)
  | _, _ => false
  end.

Definition arriving (s : Sim) (i : nat) : bool :=
  match procs s !! i with Some p => arrival_time p =? time s | None => false end.

Definition idle_core (s : Sim) (c : nat) : bool :=
  match cpus s !! c with Some u => current_pid u =? -1 | None => false end.

Lemma urgent_ready s D i :
  urgent s D i = true ↔ ∃ p, ready s i p ∧ deadline p < D.
Proof.
  unfold urgent, ready. split.
  - intros H. destruct (procs s !! i) as [p|]; [|done]. destruct (running s !! i) as [r|]; [|done].
    apply andb_true_iff in H as [[[H1 H2]%andb_true_iff ->%Z.eqb_eq]%andb_true_iff H4].
    exists p. split_and!; try done; lia.
  - intros (p & (-> & H1 & H2 & ->) & H4). repeat (apply andb_true_iff; split); lia.
Qed.

(** ** Deadline misses *)

(** Exactly the completed processes that finished late are marked. *)
Definition missed_at (p : Process) (r : Z) : Prop :=
  deadline_missed p = if (done_bit p r =? 1) && (deadline p <? completion_time p) then 1 else 0.

Definition misses_ok (k : Z) (s : Sim) : Prop :=
  k = sumZ (deadline_missed <$> procs s) ∧
  ∀ i p r, procs s !! i = Some p → running s !! i = Some r → missed_at p r.

Lemma misses_upd k k' s c i u p p' r tl n :
  procs s !! i = Some p → k' = k - deadline_missed p + deadline_missed p' → missed_at p' r →
  misses_ok k s → misses_ok k' (upd c i u p' r tl n s).
Proof.
  intros Hp Ek Hat [Hs Ha]. split.
  - simpl. rewrite list_fmap_insert. erewrite sumZ_insert by (by rewrite list_lookup_fmap, Hp). lia.
  - intros j q v Hq Hv. apply upd_procs in Hq as [[-> ->]|[Hne Hq]].
    + simpl in Hv. apply list_lookup_insert_Some in Hv as [(_ & <- & _)|(? & _)]; done.
    + simpl in Hv. rewrite list_lookup_insert_ne in Hv by done. by eapply Ha.
Qed.

(** Moving a process that has work left on or off a core changes no mark. *)
Lemma missed_move p r r' : 0 < remaining_time p → missed_at p r → missed_at p r'.
Proof.
  intros Hpos. unfold missed_at, done_bit. destruct (Z.eqb_spec (remaining_time p) 0); [lia|done].
Qed.

Lemma missed_running p q :
  missed_at p 1 → deadline_missed q = deadline_missed p → missed_at q 1.
Proof.
  unfold missed_at, done_bit. intros H ->. by rewrite H, !andb_false_r.
Qed.

Section Correct.
Context (P0 : list Process) (m : nat).
Hypothesis Hvalid : valid_input P0.
Hypothesis Hdl : deadlines_ok P0.

Local Abbreviation Inv := (Inv P0 m io_wait_time).

Lemma deadline_range s i p :
  static <$> procs s = static <$> P0 → procs s !! i = Some p → 0 ≤ deadline p < 999999.
Proof using Hdl.
  intros Hst Hp. destruct (procs_static P0 s Hst i p Hp) as (q & Hq & E).
  unfold static in E. injection E as _ _ _ _ ->. by eapply Forall_lookup_1 in Hdl.
Qed.

(** Leaving a core keeps the order when the process is done or is not
    earlier than what keeps running. *)
Lemma edf_order_leave s c i u w p q r tl n :
  static <$> procs s = static <$> P0 → cpus s !! c = Some u → procs s !! i = Some p →
  current_pid w = -1 → static q = static p → remaining_time q = remaining_time p → r = 0 →
  (0 < remaining_time p → ∀ c' j x, busy s c' j → procs s !! j = Some x → deadline x ≤ deadline p) →
  edf_order s → edf_order (upd c i w q r tl n s).
Proof using Hvalid.
  intros Hst Hu Hp Hw Hq Hrem -> Hmax Ho c' j x Hb Hx.
  assert (Edl : deadline q = deadline p ∧ arrival_time q = arrival_time p).
  { unfold static in Hq. by injection Hq. }
  apply (upd_busy P0 Hvalid s c i u w p q tl n false) in Hb as [[_ Hb]|(_ & _ & ?)]; try done.
  assert (∃ x0, procs s !! j = Some x0 ∧ deadline x0 = deadline x ∧ arrival_time x0 = arrival_time x)
    as (x0 & Hx0 & <- & <-).
  { apply upd_procs in Hx as [[-> ->]|[_ Hx]]; [|by eauto]. exists p. by destruct Edl. }
  destruct (Ho c' j x0 Hb Hx0) as [Ha Hd]. split; [done|].
  intros k y (Hy & Hy1 & Hy2 & Hy3) Harr.
  apply upd_procs in Hy as [[-> ->]|[Hne Hy]].
  - destruct Edl as [-> _]. eapply Hmax; [lia|done..].
  - apply upd_running in Hy3 as [[? _]|[_ Hy3]]; [done|]. apply (Hd k y); [by split_and!|done].
Qed.

(** ** Step 1 *)

Lemma edf_retire_ok c e :
  (c < m)%nat → (edf_order (edf_sim e) ∧ misses_ok (deadline_misses e) (edf_sim e)) →
  Inv 0 (λ c', c' < c)%nat (edf_sim e) →
  ∃ e', edf_retire c e = Some e' ∧
    (edf_order (edf_sim e') ∧ misses_ok (deadline_misses e') (edf_sim e')) ∧
    retire_step P0 m io_wait_time c (edf_sim e) (edf_sim e').
Proof using Hvalid.
  intros Hc [Ho Hm] HI. destruct e as [s k]. simpl in *.
  destruct (core_exists _ _ _ _ _ _ _ HI Hc) as [u Hu]. unfold edf_retire. simpl. rewrite Hu. simpl.
  destruct (core_cases _ _ _ Hvalid _ _ _ _ _ HI Hu) as [E|(i & p & Hne & Hp & Hcur & Hr & _ & Hf)].
  { rewrite E. eexists. split_and!; [done..|by eapply retire_idle]. }
  rewrite (proj2 (Z.eqb_neq _ _) Hne), Hf. simpl. rewrite Hp. simpl.
  destruct (Z.eqb_spec (remaining_time p) 0) as [Hz|Hnz];
    [|by eexists; split_and!; [done..|by eapply retire_keep]].
  rewrite (complete_io_ok _ _ _ Hvalid _ s i p HI Hp). simpl.
  set (q := io_metrics (time s) p).
  set (q' := if deadline p <? completion_time q then set_missed 1 q else q).
  set (k' := if deadline p <? completion_time q then k + 1 else k).
  exists (mkEdf (upd c i (set_current (-1) u) q' 0 (timeline s) (completed s + 1) s) k').
  assert (Hq : static q' = static p ∧ remaining_time q' = remaining_time p ∧
    completion_time q' = completion_time q ∧ turnaround_time q' = turnaround_time q ∧
    waiting_time q' = waiting_time q) by (unfold q'; by destruct (_ <? _)).
  destruct Hq as (Q1 & Q2 & Q3 & Q4 & Q5).
  assert (Hm0 : deadline_missed p = 0).
  { pose proof (proj2 Hm i p 1 Hp Hr) as H1. unfold missed_at, done_bit in H1.
    by rewrite andb_false_r in H1. }
  split_and!.
  - unfold q', k'. change (completion_time q) with (time s + io_wait_time p).
    destruct (deadline p <? time s + io_wait_time p); by rewrite (finish_upd P0 m _ Hvalid _ _ s c i u p HI).
  - eapply (edf_order_leave s c i u); try done; [apply HI|intros; lia].
  - eapply (misses_upd k); [done| | |done]; unfold k', q', missed_at, done_bit.
    + destruct (deadline p <? completion_time q); simpl; lia.
    + destruct (deadline p <? completion_time q) eqn:El; simpl; rewrite Hz; simpl.
      * unfold q in El. simpl in El. by rewrite El.
      * unfold q in El. simpl in El. by rewrite El.
  - simpl. eapply retire_leave; try done; [|by rewrite Hz].
    intros _. eapply (complete_metrics P0 m io_wait_time Hvalid io_wait_static _ s i p); try done;
      by rewrite ?Q5, ?Q4, ?Q3.
Qed.

(** ** Step 2 *)

(** The scan finds a core whose process has the latest deadline. *)
Definition worst_upto (s : Sim) (n : nat) (acc : option nat * Z) : Prop :=
  match acc with
  | (None, w) => w = -1 ∧ ∀ c i, (c < n)%nat → ¬ busy s c i
  | (Some c, w) => (∃ i p, busy s c i ∧ procs s !! i = Some p ∧ w = deadline p) ∧
      ∀ c' j q, (c' < n)%nat → busy s c' j → procs s !! j = Some q → deadline q ≤ w
  end.

Lemma edf_worst_ok s :
  Inv 0 (λ _, True) s → ∃ acc, edf_worst m s = Some acc ∧ worst_upto s m acc.
Proof using Hvalid Hdl.
  intros HI. pose proof (I_static _ _ _ _ _ _ HI) as Hst. unfold edf_worst.
  destruct (for_range_total (worst_upto s) (edf_worst_scan s) 0 m (None, -1))
    as (acc & E & H); [split; [done|lia]| |by eauto].
  intros c [w d] Hc Hw. destruct (core_exists P0 m io_wait_time 0 _ s c HI) as [u Hu]; [lia|].
  unfold edf_worst_scan. rewrite Hu. simpl.
  destruct (core_cases _ _ _ Hvalid _ _ _ _ _ HI Hu) as [E|(i & p & Hne & Hp & Hcur & Hr & _ & Hf)].
  { rewrite E. simpl. eexists. split; [done|].
    assert (Hno : ∀ i, ¬ busy s c i).
    { intros i Hb. by destruct (busy_not_idle P0 Hvalid s Hst c i u Hb Hu). }
    destruct w as [cw|]; destruct Hw as [H1 H2]; (split; [done|]).
    - intros c' j q Hc' Hb. destruct (decide (c' = c)) as [->|]; [by destruct (Hno j)|].
      apply (H2 c'); [lia|done].
    - intros c' j Hc' Hb. destruct (decide (c' = c)) as [->|]; [by destruct (Hno j)|].
      apply (H2 c' j); [lia|done]. }
  rewrite (proj2 (Z.eqb_neq _ _) Hne), Hf. simpl. rewrite Hp. simpl.
  assert (Hb : busy s c i) by by exists u, p.
  pose proof (deadline_range s i p Hst Hp).
  assert (Honly : ∀ j q, busy s c j → procs s !! j = Some q → q = p).
  { intros j q Hj Hq. assert (j = i) as -> by (by eapply (busy_fun P0 Hvalid s Hst c)). congruence. }
  destruct (Z.ltb_spec d (deadline p)) as [Hlt|Hge]; (eexists; split; [done|]).
  - split; [by exists i, p|]. intros c' j q Hc' Hj Hq.
    destruct (decide (c' = c)) as [->|]; [by rewrite (Honly j q)|].
    destruct w as [cw|]; destruct Hw as [H1 H2].
    + specialize (H2 c' j q ltac:(lia) Hj Hq). lia.
    + by destruct (H2 c' j ltac:(lia)).
  - destruct w as [cw|]; destruct Hw as [H1 H2]; [|lia]. split; [done|].
    intros c' j q Hc' Hj Hq. destruct (decide (c' = c)) as [->|]; [by rewrite (Honly j q)|].
    apply (H2 c' j); [lia|done..].
Qed.

(** Before iteration [i]: the new arrivals below [i] that are more urgent
    than a running process are not more than the idle cores. *)
Definition preempt_inv (k : Z) (i : nat) (s : Sim) : Prop :=
  edf_order s ∧ misses_ok k s ∧
  ∀ c j q, busy s c j → procs s !! j = Some q →
    (count (λ x, urgent s (deadline q) x && arriving s x) i ≤ count (idle_core s) m)%nat.

Lemma preempt_inv_keep k i s :
  preempt_inv k i s →
  (∀ c j q, busy s c j → procs s !! j = Some q →
     urgent s (deadline q) i && arriving s i = false) → preempt_inv k (S i) s.
Proof using.
  intros (Ho & Hm & Hc) Hi. split_and!; try done. intros c j q Hb Hq. simpl.
  rewrite (Hi c j q Hb Hq). by eapply Hc.
Qed.

(** Preempting the core with the latest deadline pays for one more arrival. *)
Lemma preempt_inv_leave k i s c j u p tl n :
  Inv 0 (λ _, True) s → cpus s !! c = Some u → procs s !! j = Some p → busy s c j →
  (∀ c' j' q, busy s c' j' → procs s !! j' = Some q → deadline q ≤ deadline p) →
  preempt_inv k i s → preempt_inv k (S i) (upd c j (set_current (-1) u) p 0 tl n s).
Proof using Hvalid.
  intros HI Hu Hp Hb Hmax (Ho & Hm & Hc). pose proof (I_static _ _ _ _ _ _ HI) as Hst.
  assert (Hpos : 0 < remaining_time p) by (by eapply (I_live _ _ _ _ _ _ HI c)).
  pose proof (as_flag _ (I_assign _ _ _ _ _ _ HI) c j Hb) as Hr.
  destruct (Ho c j p Hb Hp) as [Harr _]. split_and!.
  - by eapply (edf_order_leave s c j u).
  - eapply (misses_upd k); [done|lia| |done]. eapply missed_move; [done|]. by eapply (proj2 Hm).
  - intros c' j' q Hb' Hq.
    apply (upd_busy P0 Hvalid s c j u _ p p tl n false) in Hb' as [[Hne Hb']|(_ & _ & ?)]; try done.
    rewrite upd_same_proc in Hq by done. simpl in Hq.
    specialize (Hc c' j' q Hb' Hq). set (s' := upd c j _ p 0 tl n s).
    assert (H1 : (count (λ x, urgent s' (deadline q) x && arriving s' x) i
      ≤ count (λ x, urgent s (deadline q) x && arriving s x) i)%nat).
    { apply count_le. intros x _ [H1 H2]%andb_true_iff. apply andb_true_iff.
      apply urgent_ready in H1 as (y & (Hy & Hy1 & Hy2 & Hy3) & Hy4).
      unfold arriving in H2. rewrite Hy in H2. apply Z.eqb_eq in H2. simpl in H2.
      apply upd_procs in Hy as [[-> ->]|[Hxj Hy]]; [lia|].
      apply upd_running in Hy3 as [[? _]|[_ Hy3]]; [done|]. split.
      - apply urgent_ready. exists y. by split_and!.
      - unfold arriving. rewrite Hy. by apply Z.eqb_eq. }
    assert (H2 : (count (idle_core s) m < count (idle_core s') m)%nat).
    { pose proof (lookup_lt_Some _ _ _ Hu) as Hcl.
      apply (count_lt _ _ _ c).
      - by rewrite (sh_cpus _ _ (I_shape _ _ _ _ _ _ HI)) in Hcl.
      - intros x _. unfold idle_core. simpl. destruct (decide (x = c)) as [->|Hxc].
        + by rewrite list_lookup_insert_eq.
        + by rewrite list_lookup_insert_ne.
      - unfold idle_core. rewrite Hu. apply Z.eqb_neq. by eapply (busy_not_idle P0 Hvalid s Hst c j).
      - unfold idle_core. simpl. by rewrite list_lookup_insert_eq. }
    simpl. destruct (_ && _); lia.
Qed.

Lemma edf_preempt_ok k i s :
  (i < length P0)%nat → preempt_inv k i s → Inv 0 (λ _, True) s →
  ∃ s', edf_preempt m i s = Some s' ∧ preempt_inv k (S i) s' ∧
    preempt_step P0 m io_wait_time s s'.
Proof using Hvalid Hdl.
  intros Hi HK HI. pose proof (I_static _ _ _ _ _ _ HI) as Hst.
  destruct (lookup_lt_is_Some_2 (procs s) i) as [p Hp]; [by rewrite (procs_length P0)|].
  destruct (lookup_lt_is_Some_2 (running s) i) as [r Hr]; [by eapply flag_range|].
  assert (Hsame : (∀ c j q, busy s c j → procs s !! j = Some q →
      urgent s (deadline q) i && arriving s i = false) →
    preempt_inv k (S i) s ∧ preempt_step P0 m io_wait_time s s).
  { intros Hn. split; [by apply preempt_inv_keep|by split]. }
  unfold edf_preempt. rewrite Hp. simpl.
  destruct ((arrival_time p =? time s) && (0 <? remaining_time p)) eqn:Ea; rewrite ?Hr; simpl.
  2: { exists s. split; [done|]. apply Hsame. intros c j q _ _.
       unfold urgent, arriving. rewrite Hp, Hr.
       destruct (arrival_time p =? time s), (0 <? remaining_time p); simpl in *; try done;
         by rewrite ?andb_false_r. }
  destruct (Z.eqb_spec r 0) as [->|Hnz].
  2: { exists s. split; [done|]. apply Hsame. intros c j q _ _. unfold urgent. rewrite Hp, Hr.
       rewrite (proj2 (Z.eqb_neq _ _) Hnz). by rewrite andb_false_r. }
  destruct (edf_worst_ok s HI) as ([w d] & -> & Hw). simpl.
  assert (Hcore : ∀ c j, busy s c j → (c < m)%nat).
  { intros c j (u & _ & Hu & _). apply lookup_lt_Some in Hu.
    by rewrite (sh_cpus _ _ (I_shape _ _ _ _ _ _ HI)) in Hu. }
  destruct w as [c|].
  2: { exists s. split; [done|]. apply Hsame. intros c j q Hb _. destruct Hw as [_ Hw].
       by destruct (Hw c j (Hcore c j Hb)). }
  destruct Hw as [(j & q & Hb & Hq & ->) Hmax].
  destruct (Z.ltb_spec (deadline p) (deadline q)) as [Hlt|Hge].
  2: { exists s. split; [done|]. apply Hsame. intros c' j' q' Hb' Hq'.
       specialize (Hmax c' j' q' (Hcore _ _ Hb') Hb' Hq'). unfold urgent. rewrite Hp, Hr.
       destruct (Z.ltb_spec (deadline p) (deadline q')); [lia|]. by rewrite andb_false_r. }
  pose proof Hb as (u & q0 & Hu & Hq0 & Hcur). assert (q0 = q) as -> by congruence.
  rewrite Hu. simpl.
  rewrite (find_first_spec _ _ j q) by (done || by apply (procs_nodup P0 Hvalid s Hst)). simpl.
  rewrite (put_running_ok P0 m io_wait_time Hvalid _ _ s j q HI Hq). simpl. unfold put_cpu. simpl.
  rewrite aset_Some by eauto using lookup_lt_Some. simpl. eexists. split; [done|].
  unfold with_running, with_cpus. simpl. rewrite <- (upd_same_proc s c j q Hq).
  split; [|by eapply preempt_leave].
  apply preempt_inv_leave; try done. intros c' j' q' Hb'. apply (Hmax c'); [by eapply Hcore|done].
Qed.

(** ** Step 3 *)

Definition edf_before (p q : Process) : Prop := deadline p ≤ deadline q.

Definition edf_enc (r : option (nat * Process)) : option nat * Z :=
  match r with
  | None => (None, 999999)
  | Some (b, p) => (Some b, deadline p)
  end.

Lemma edf_select_ok live s :
  Inv 0 live s →
  ∃ r, edf_select s = Some (fst <$> r) ∧
    match r with
    | None => nobody_ready s
    | Some (b, pb) => ready s b pb ∧ ∀ i q, ready s i q → edf_before pb q
    end.
Proof using Hvalid Hdl.
  intros HI. pose proof (I_static _ _ _ _ _ _ HI) as Hst. unfold edf_select.
  edestruct (scan_best P0 m io_wait_time Hvalid edf_enc (edf_scan s) edf_before 0 live s)
    as (r & E & Hr); try done.
  - unfold edf_before. intros. lia.
  - unfold edf_before. intros. lia.
  - intros i [b e] He. unfold edf_scan. by rewrite He.
  - intros i p He (Hp & _). unfold edf_scan. simpl. rewrite He. simpl. rewrite Hp. simpl.
    pose proof (deadline_range s i p Hst Hp). destruct (Z.ltb_spec (deadline p) 999999); [done|lia].
  - intros i p b pb He (Hp & _) _. unfold edf_scan, edf_before. simpl. rewrite He. simpl.
    rewrite Hp. simpl. destruct (Z.ltb_spec (deadline p) (deadline pb)); [left|right]; (split; [done|lia]).
  - unfold edf_enc in E at 1. rewrite E. exists r. split; [|done]. by destruct r as [[??]|].
Qed.

(** Before core [c] is looked at: the waiting processes more urgent than a
    running one are not more than the idle cores still to come. *)
Definition dispatch_inv (k : Z) (c : nat) (s : Sim) : Prop :=
  misses_ok k s ∧
  ∀ c' j q, busy s c' j → procs s !! j = Some q → arrival_time q ≤ time s ∧
    (count (urgent s (deadline q)) (length P0) ≤ count (λ x, (c <=? x) && idle_core s x) m)%nat.

Lemma preempt_to_dispatch k s : preempt_inv k (length P0) s → dispatch_inv k 0 s.
Proof using.
  intros (Ho & Hm & Hc). split; [done|]. intros c j q Hb Hq.
  destruct (Ho c j q Hb Hq) as [Ha Hd]. split; [lia|]. etrans; [|by eapply (Hc c j q)].
  apply count_le. intros x _ Hx. rewrite Hx. simpl.
  apply urgent_ready in Hx as (y & Hr & Hlt). pose proof Hr as (Hy & Hy1 & _).
  unfold arriving. rewrite Hy. apply Z.eqb_eq.
  destruct (decide (arrival_time y < time s)) as [Hy2|]; [|lia]. specialize (Hd x y Hr Hy2). lia.
Qed.

Lemma count_skip (f : nat → bool) c :
  f c = false → (count (λ x, (c <=? x)%nat && f x) m ≤ count (λ x, (S c <=? x)%nat && f x) m)%nat.
Proof using.
  intros Hc. apply count_le. intros x _ [H1 H2]%andb_true_iff. apply andb_true_iff.
  split; [|done]. apply Nat.leb_le in H1. apply Nat.leb_le.
  destruct (decide (x = c)) as [->|]; [congruence|lia].
Qed.

(** An idle core takes an earliest-deadline process. *)
Lemma dispatch_inv_take k c s i p u w tl n :
  Inv 0 (λ _, True) s → (c < m)%nat → cpus s !! c = Some u → current_pid u = -1 →
  ready s i p → (∀ j q, ready s j q → edf_before p q) → current_pid w = pid p →
  dispatch_inv k c s → dispatch_inv k (S c) (upd c i w p 1 tl n s).
Proof using Hvalid.
  intros HI Hcm Hu Hid Hready Hmin Hw [Hm Hc].
  pose proof (I_static _ _ _ _ _ _ HI) as Hst. pose proof Hready as (Hp & Harr & Hpos & Hr).
  set (s' := upd c i w p 1 tl n s).
  assert (Hsub : ∀ x y, ready s' x y → x ≠ i ∧ ready s x y).
  { intros x y (Hy & Hy1 & Hy2 & Hy3). apply upd_running in Hy3 as [[_ ?]|[Hne Hy3]]; [done|].
    split; [done|]. apply upd_procs in Hy as [[? _]|[_ Hy]]; [done|]. by split_and!. }
  assert (Hurg : ∀ D x, urgent s' D x = true → x ≠ i ∧ urgent s D x = true).
  { intros D x (y & Hy & Hlt)%urgent_ready. destruct (Hsub x y Hy). split; [done|].
    apply urgent_ready. eauto. }
  split.
  { eapply (misses_upd k); [done|lia| |done]. eapply missed_move; [done|]. by eapply (proj2 Hm). }
  intros c' j q Hb Hq. unfold s' in Hq. rewrite upd_same_proc in Hq by done. simpl in Hq.
  apply (upd_busy P0 Hvalid s c i u w p p tl n true) in Hb as [[Hne Hb]|(-> & -> & _)]; try done.
  - destruct (Hc c' j q Hb Hq) as [Ha Hcount]. split; [done|].
    assert (H2 : (count (λ x, (c <=? x)%nat && idle_core s x) m ≤
      S (count (λ x, (S c <=? x)%nat && idle_core s' x) m))%nat).
    { apply (count_le_S _ _ _ c). intros x _ Hxc [H1 H2]%andb_true_iff. apply andb_true_iff.
      apply Nat.leb_le in H1. split; [apply Nat.leb_le; lia|]. unfold idle_core in *. simpl.
      by rewrite list_lookup_insert_ne. }
    destruct (decide (deadline p < deadline q)) as [Hlt|Hge].
    + assert (count (urgent s' (deadline q)) (length P0) < count (urgent s (deadline q)) (length P0))%nat; [|lia].
      apply (count_lt _ _ _ i).
      * rewrite <- (procs_length P0 s Hst). by eapply lookup_lt_Some.
      * intros x _ Hx. by apply Hurg.
      * apply not_true_iff_false. intros [? _]%Hurg. done.
      * apply urgent_ready. eauto.
    + rewrite count_none; [lia|]. intros x _. apply not_true_iff_false.
      intros (y & Hy & Hlt)%urgent_ready. destruct (Hsub x y Hy) as [_ Hy'].
      specialize (Hmin x y Hy'). unfold edf_before in Hmin. lia.
  - assert (q = p) as -> by congruence. split; [done|]. rewrite count_none; [lia|].
    intros x _. apply not_true_iff_false. intros (y & Hy & Hlt)%urgent_ready.
    destruct (Hsub x y Hy) as [_ Hy']. specialize (Hmin x y Hy'). unfold edf_before in Hmin. lia.
Qed.

Lemma edf_dispatch_ok k c s :
  (c < m)%nat → dispatch_inv k c s → Inv 0 (λ _, True) s →
  ∃ s', edf_dispatch c s = Some s' ∧ dispatch_inv k (S c) s' ∧
    dispatch_step P0 m io_wait_time c s s'.
Proof using Hvalid Hdl.
  intros Hc HD HI. destruct (core_exists _ _ _ _ _ _ _ HI Hc) as [u Hu].
  unfold edf_dispatch. rewrite Hu. simpl.
  destruct (Z.eqb_spec (current_pid u) (-1)) as [Hid|Hbusy].
  2: { exists s. split_and!; [done| |by eapply dispatch_busy]. destruct HD as [Hm HD].
       split; [done|]. intros c' j q Hb Hq. destruct (HD c' j q Hb Hq). split; [done|].
       etrans; [done|]. apply count_skip. unfold idle_core. rewrite Hu. by apply Z.eqb_neq. }
  destruct (edf_select_ok _ s HI) as (r & -> & Hr). simpl. destruct r as [[i p]|]; simpl.
  - destruct Hr as [Hready Hmin]. pose proof Hready as [Hp _]. rewrite Hp. simpl.
    rewrite (put_cpu_ok s c u) by done. simpl. unfold put_running. simpl.
    rewrite aset_Some by (by eapply flag_range). simpl. eexists. split; [done|].
    unfold with_running, with_cpus. simpl. rewrite <- (upd_same_proc s c i p Hp).
    split; [by eapply dispatch_inv_take|by eapply dispatch_take].
  - exists s. split_and!; [done| |by eapply dispatch_none]. destruct HD as [Hm HD].
    split; [done|]. intros c' j q Hb Hq. destruct (HD c' j q Hb Hq). split; [done|].
    rewrite count_none; [lia|]. intros x _. apply not_true_iff_false.
    intros (y & Hy & _)%urgent_ready. by apply (Hr x y).
Qed.

Lemma dispatch_to_order k s :
  Inv 0 (λ _, True) s → dispatch_inv k m s → edf_dispatched s.
Proof using.
  intros HI [_ HD] c i p Hb Hp. destruct (HD c i p Hb Hp) as [Ha Hc]. split; [done|].
  intros j q Hr. pose proof Hr as [Hq _].
  destruct (decide (deadline p ≤ deadline q)) as [|Hlt]; [done|].
  rewrite (count_none (λ x, _ && _) m) in Hc.
  2: { intros x Hx. destruct (Nat.leb_spec m x); [lia|done]. }
  assert (E : urgent s (deadline p) j = false).
  { eapply (count_zero _ (length P0)); [lia|].
    rewrite <- (procs_length P0 s (I_static _ _ _ _ _ _ HI)). by eapply lookup_lt_Some. }
  apply not_true_iff_false in E. destruct E. apply urgent_ready. exists q. split; [done|lia].
Qed.

(** ** Step 4 *)

Lemma edf_execute_ok k c s :
  (c < m)%nat → (edf_dispatched s ∧ misses_ok k s) → Inv c (λ c', c ≤ c')%nat s →
  time s < MAX_TIME →
  ∃ s', edf_execute c s = Some s' ∧ (edf_dispatched s' ∧ misses_ok k s') ∧
    execute_step P0 m io_wait_time c s s'.
Proof using Hvalid.
  intros Hc [Ho Hm] HI Ht. destruct (core_exists _ _ _ _ _ _ _ HI Hc) as [u Hu].
  pose proof (I_static _ _ _ _ _ _ HI) as Hst. unfold edf_execute. rewrite Hu. simpl.
  destruct (core_cases _ _ _ Hvalid _ _ _ _ _ HI Hu) as [E|(i & p & Hne & Hp & Hcur & Hr & _ & Hf)].
  { rewrite E. simpl. exists s. split_and!; [by eapply put_cell_idle|done..|by eapply execute_idle]. }
  rewrite (proj2 (Z.eqb_neq _ _) Hne).
  destruct (put_cell_ok _ _ _ _ _ s c (current_pid u) HI) as (row & Hrow & Hcell & ->); try done.
  simpl. rewrite Hf. simpl. rewrite Hp. simpl. unfold put_proc. simpl.
  rewrite aset_Some by eauto using lookup_lt_Some. simpl. eexists. split; [done|].
  unfold with_procs, with_timeline. simpl. rewrite Hcur.
  rewrite <- (list_insert_id (running s) i 1), <- (list_insert_id (cpus s) c u) by done.
  set (q := set_remaining (remaining_time p - 1) p).
  assert (Hb0 : busy s c i) by by exists u, p.
  split; [split|].
  - intros c' j x Hb Hx.
    apply (upd_busy P0 Hvalid s c i u u p q _ _ true) in Hb; try done.
    assert (Hb' : busy s c' j) by (destruct Hb as [[_ ?]|(-> & -> & _)]; done).
    assert (∃ x0, procs s !! j = Some x0 ∧ deadline x0 = deadline x ∧ arrival_time x0 = arrival_time x)
      as (x0 & Hx0 & <- & <-) by (apply upd_procs in Hx as [[-> ->]|[_ Hx]]; eauto).
    destruct (Ho c' j x0 Hb' Hx0) as [Ha Hd]. split; [done|].
    intros y z (Hz & Hz1 & Hz2 & Hz3). apply upd_running in Hz3 as [[_ ?]|[Hyi Hz3]]; [done|].
    apply upd_procs in Hz as [[? _]|[_ Hz]]; [done|]. apply (Hd y z). by split_and!.
  - eapply (misses_upd k); [done|simpl; lia| |done].
    apply (missed_running p); [by eapply (proj2 Hm)|done].
  - by eapply (execute_busy P0 m io_wait_time Hvalid s c i u p).
Qed.

Definition edf_state_ok (e : EdfSim) : Prop :=
  edf_order (edf_sim e) ∧ misses_ok (deadline_misses e) (edf_sim e).

Instance edf_system : TickSystem P0 m io_wait_time edf_sim edf_state_ok (edf_tick m).
Proof using Hvalid Hdl.
  intros e He HI Ht. unfold edf_tick.
  destruct (retire_loop P0 m io_wait_time edf_sim (λ _, edf_state_ok) edf_retire e)
    as (e1 & -> & [Ho1 Hm1] & HI1 & Ht1 & Hr1); try done; [by apply edf_retire_ok|].
  simpl. rewrite (procs_length P0 _ (I_static _ _ _ _ _ _ HI1)).
  destruct (preempt_loop P0 m io_wait_time (λ s, s) (preempt_inv (deadline_misses e1))
    (edf_preempt m) (length P0) (edf_sim e1)) as (s2 & -> & HK2 & HP2); try done.
  { intros i s2 Hi HK HI2 _. by apply edf_preempt_ok. }
  { split_and!; try done. intros c j q Hb Hq. simpl. lia. }
  { apply (procs_length P0 _ (I_static _ _ _ _ _ _ HI1)). }
  simpl. pose proof HP2 as [HI2 Ht2 _ _].
  destruct (dispatch_loop P0 m io_wait_time (λ s, s) (dispatch_inv (deadline_misses e1))
    edf_dispatch s2) as (s3 & -> & HD3 & HP3 & Hwc); try done; [by apply edf_dispatch_ok| |].
  { by apply preempt_to_dispatch. }
  simpl. pose proof HP3 as [HI3 Ht3 _ _].
  destruct (execute_loop P0 m io_wait_time (λ s, s)
    (λ _ s, edf_dispatched s ∧ misses_ok (deadline_misses e1) s) edf_execute s3)
    as (s4 & -> & [Ho4 Hm4] & HI4 & Ht4 & Hk4 & Hle & Hlt); try done;
    [by apply edf_execute_ok|split; [by eapply dispatch_to_order|apply HD3]|lia|].
  simpl. eexists. split; [done|]. split; [split; simpl; [|done]|].
  - intros c i p Hb Hp. destruct (Ho4 c i p Hb Hp) as [Ha Hd]. simpl. split; [lia|].
    intros j q (Hq & H1 & H2 & H3) Hlt'. simpl in *. apply (Hd j q). split_and!; try done; lia.
  - eapply (tick_of_phases P0 m _ Hvalid (edf_sim e) (edf_sim e1) s3 s4); try done.
    destruct HP2, HP3. split; [done|congruence..].
Qed.

End Correct.

(** ** The whole simulator *)

Definition edf_input (ps : list Process) : Prop :=
  valid_input ps ∧ deadlines_ok ps ∧ Forall (λ p, deadline_missed p = 0) ps.

Lemma edf_init_ok ps m : edf_input ps → edf_state_ok (mkEdf (init_sim ps m) 0).
Proof.
  intros (Hv & _ & HF). split; simpl.
  - intros c i p Hb. by apply init_not_busy in Hb.
  - split; simpl.
    + rewrite (sumZ_const _ 0); [lia|]. by apply Forall_fmap.
    + intros i p r Hp Hr. unfold missed_at, done_bit. rewrite Forall_lookup in HF.
      destruct Hv as (_ & _ & Hf). rewrite Forall_lookup in Hf.
      destruct (Hf i p Hp) as (_ & ? & ?). rewrite (HF i p Hp).
      destruct (Z.eqb_spec (remaining_time p) 0); [lia|done].
Qed.

Lemma run_edf_result ps m :
  edf_input ps →
  ∃ e, run_edf ps m = Some e ∧ Inv ps m io_wait_time 0 (λ _, False) (edf_sim e) ∧
    edf_state_ok e ∧
    ∀ A, enough_time ps m A →
      completed (edf_sim e) = Z.of_nat (length ps) ∧
      time (edf_sim e) ≤ A + sumZ (burst_time <$> ps) + 1.
Proof.
  intros Hin. pose proof Hin as (Hv & Hd & _). pose proof (edf_system ps m Hv Hd) as Hsys.
  destruct (run_total ps m io_wait_time Hv edf_sim edf_state_ok (edf_tick m)
    (mkEdf (init_sim ps m) 0)) as (e & E & He & HI & _ & Hlive); [done|by apply edf_init_ok|].
  exists e. split_and!; [done..|apply He|]. intros A (? & ? & ? & ?). by apply Hlive.
Qed.

(** C28: EDF never fails on a valid table (times below 2^29, so that no metric
    overflows) and produces a legal multiprocessor
    schedule; with enough simulated time it completes every process, with the
    report's turnaround and waiting times. *)
Theorem run_edf_correct (ps : list Process) (num_cpus : nat) (Hv : edf_input ps) :
  ∃ e, run_edf ps num_cpus = Some e ∧ schedule_ok ps (edf_sim e) ∧
    ∀ A, enough_time ps num_cpus A →
      all_complete ps io_wait_time (edf_sim e) ∧
      time (edf_sim e) ≤ A + sumZ (burst_time <$> ps) + 1.
Proof.
  destruct (run_edf_result ps num_cpus Hv) as (e & E & HI & _ & Hlive).
  exists e. split_and!; [done|by eapply Inv_schedule_ok|].
  intros A HA. destruct (Hlive A HA) as [Hk Ht]. split; [|done].
  eapply Inv_all_complete; [apply Hv|done..].
Qed.

(** C27: preemptive EDF on several cores: between ticks, no process that was
    waiting during the last millisecond has an earlier deadline than a process
    that ran in it, although only the arrivals of one tick can preempt. *)
Theorem edf_earliest_deadline_runs (ps : list Process) (num_cpus : nat) (e : EdfSim)
    (c i j : nat) (p q : Process) (Hv : edf_input ps)
    (Hreach : rtc (loop_step (λ e, sim_cond (edf_sim e)) (edf_tick num_cpus))
      (mkEdf (init_sim ps num_cpus) 0) e)
    (Hrun : busy (edf_sim e) c i) (Hp : procs (edf_sim e) !! i = Some p)
    (Hwait : ready (edf_sim e) j q) (Harr : arrival_time q < time (edf_sim e)) :
  deadline p ≤ deadline q.
Proof.
  pose proof Hv as (Hvi & Hd & _). pose proof (edf_system ps num_cpus Hvi Hd) as Hsys.
  destruct (reach_inv ps num_cpus io_wait_time Hvi edf_sim edf_state_ok (edf_tick num_cpus)
    (mkEdf (init_sim ps num_cpus) 0) e) as [[Ho _] _]; [done|by apply edf_init_ok|done|].
  destruct (Ho c i p Hrun Hp) as [_ Hle]. by apply (Hle j).
Qed.

(** The deadline summary is right: when every process completes, the
    counter is the number of processes marked as having missed, the marked
    ones are exactly those whose completion time is after their deadline, and
    the run is reported feasible exactly when all deadlines were met. *)
Theorem edf_misses_counted (ps : list Process) (num_cpus : nat) (A : Z)
    (Hv : edf_input ps) (HA : enough_time ps num_cpus A) :
  ∃ e, run_edf ps num_cpus = Some e ∧
    deadline_misses e = sumZ (deadline_missed <$> procs (edf_sim e)) ∧
    (∀ i p, procs (edf_sim e) !! i = Some p →
       deadline_missed p = if deadline p <? completion_time p then 1 else 0) ∧
    (deadline_misses e = 0 ↔
     ∀ i p, procs (edf_sim e) !! i = Some p → completion_time p ≤ deadline p).
Proof.
  destruct (run_edf_result ps num_cpus Hv) as (e & E & HI & [_ [Hs Hm]] & Hlive).
  destruct (Hlive A HA) as [Hk _]. exists e.
  assert (Hall : ∀ i p, procs (edf_sim e) !! i = Some p →
    deadline_missed p = if deadline p <? completion_time p then 1 else 0).
  { intros i p Hp. destruct (Inv_finished ps num_cpus io_wait_time (proj1 Hv) _ _ HI Hk i p Hp) as [Hz Hr].
    pose proof (Hm i p 0 Hp Hr) as H. unfold missed_at, done_bit in H. by rewrite Hz in H. }
  split_and!; try done. rewrite Hs. split.
  - intros H0 i p Hp. pose proof (Hall i p Hp) as Hi.
    assert (deadline_missed p = 0).
    { eapply (sumZ_zero _ i); [|done|by rewrite list_lookup_fmap, Hp].
      apply Forall_fmap, Forall_lookup. intros j q Hq. simpl. rewrite (Hall j q Hq).
      by destruct (deadline q <? completion_time q). }
    destruct (Z.ltb_spec (deadline p) (completion_time p)); lia.
  - intros H. rewrite (sumZ_const _ 0); [lia|]. apply Forall_fmap, Forall_lookup.
    intros i p Hp. simpl. rewrite (Hall i p Hp). specialize (H i p Hp).
    destruct (Z.ltb_spec (deadline p) (completion_time p)); lia.
Qed.

(** ** Sample run *)

Example run_edf_sample :
  (λ e, ((λ p, (pid p, completion_time p, deadline_missed p)) <$> procs (edf_sim e),
         take 22 <$> timeline (edf_sim e), deadline_misses e)) <$> run_edf sample 2 =
  Some ([(1, 11, 1); (2, 22, 1); (3, 12, 0); (4, 15, 1); (5, 7, 0)],
    [[3; 1; 1; 1; 1; 1; 1; 1; 1; 4; 4; 4; 4; 4; 4; 0; 0; 0; 0; 0; 0; 0];
     [0; 5; 5; 5; 5; 5; 3; 3; 3; 3; 3; 2; 2; 2; 2; 2; 2; 2; 2; 2; 0; 0]], 3).
Proof. vm_compute. reflexivity. Qed.

Definition edf_start : EdfSim := mkEdf (init_sim sample 2) 0.
Definition edf_after1 : EdfSim := default edf_start (edf_tick 2 edf_start).
Definition edf_after2 : EdfSim := default edf_start (edf_tick 2 edf_after1).

Lemma edf_reach2 :
  rtc (loop_step (λ e, sim_cond (edf_sim e)) (edf_tick 2)) edf_start edf_after2.
Proof.
  apply (rtc_l _ _ edf_after1); [|apply rtc_once]; split; vm_compute; reflexivity.
Qed.

Lemma sample_edf : edf_input sample.
Proof. split; [exact sample_valid|]. split; repeat constructor; simpl; lia. Qed.

Lemma run_edf_correct_witness :
  ∃ e, run_edf sample 2 = Some e ∧ schedule_ok sample (edf_sim e) ∧
    all_complete sample io_wait_time (edf_sim e) ∧
    time (edf_sim e) ≤ 4 + sumZ (burst_time <$> sample) + 1.
Proof.
  destruct (run_edf_correct sample 2 sample_edf) as (e & H1 & H2 & H3).
  destruct (H3 4 sample_enough) as [H4 H5].
  exists e. split; [exact H1|]. split; [exact H2|]. split; assumption.
Defined.

(** At time 2, process 1 (deadline 9) has preempted process 3 (deadline 13). *)
Lemma edf_earliest_deadline_runs_witness :
  ∃ p q, procs (edf_sim edf_after2) !! 0%nat = Some p ∧ procs (edf_sim edf_after2) !! 2%nat = Some q ∧
    deadline p ≤ deadline q.
Proof.
  assert (H : ∃ p q, procs (edf_sim edf_after2) !! 0%nat = Some p ∧ ready (edf_sim edf_after2) 2 q ∧
    arrival_time q < time (edf_sim edf_after2) ∧ busy (edf_sim edf_after2) 0 0).
  { eexists _, _. split; [vm_compute; reflexivity|].
    split; [split; [vm_compute; reflexivity|]; split_and!; try (vm_compute; done); vm_compute; reflexivity|].
    split; [vm_compute; reflexivity|].
    eexists _, _. split; [vm_compute; reflexivity|]. split; vm_compute; reflexivity. }
  destruct H as (p & q & Hp & Hq & Ha & Hb). exists p, q.
  split; [exact Hp|]. split; [exact (proj1 Hq)|].
  exact (edf_earliest_deadline_runs sample 2 edf_after2 0 0 2 p q sample_edf edf_reach2 Hb Hp Hq Ha).
Defined.

Lemma edf_misses_counted_witness :
  ∃ e, run_edf sample 2 = Some e ∧
    deadline_misses e = sumZ (deadline_missed <$> procs (edf_sim e)).
Proof.
  destruct (edf_misses_counted sample 2 4 sample_edf sample_enough) as (e & H1 & H2 & _).
  exists e. split; assumption.
Defined.
