(* ===== verification/WorkSteal.v ===== *)
(** * Work stealing (work_steal.c)

    The array deque of a core, shown to implement a list with a front and a
    back, and the simulator built on it: arrivals go to the shortest queue, an
    idle core takes from its own front or steals from the back of the longest
    queue. *)

From S2P Require Import Prelude SchedCore SchedInv.
Open Scope Z_scope.

(** ** The deque *)

(** The slots are uninitialised until they are written; reading such a slot
    or one outside the array is undefined behaviour. *)
Record CPUQueue := mkQueue {
  process_indices : list (option Z);
  front : Z;
  rear : Z;
  size : Z }.

(** [queues[i].front = 0; queues[i].rear = 0; queues[i].size = 0] *)
Definition empty_queue : CPUQueue := mkQueue (replicate 100 None) 0 0 0.

Definition slot (z : Z) : option nat := if 0 <=? z then Some (Z.to_nat z) else None.

Definition push_back (q : CPUQueue) (p_idx : Z) : option CPUQueue :=
  k ← slot (rear q);
  l ← aset (process_indices q) k (Some p_idx);
  Some (mkQueue l (front q) (rear q + 1) (size q + 1)).

Definition pop_front (q : CPUQueue) : option (CPUQueue * Z) :=
  if size q =? 0 then Some (q, -1) else
  k ← slot (front q);
  v ← process_indices q !! k;
  x ← v;
  Some (mkQueue (process_indices q) (front q + 1) (rear q) (size q - 1), x).

Definition pop_back (q : CPUQueue) : option (CPUQueue * Z) :=
  if size q =? 0 then Some (q, -1) else
  k ← slot (rear q - 1);
  v ← process_indices q !! k;
  x ← v;
  Some (mkQueue (process_indices q) (front q) (rear q - 1) (size q - 1), x).

(** ** The simulator *)

Record WsSim := mkWs {
  ws_procs : list Process;
  queues : list CPUQueue;
  arrived : list Z;
  cores : list Processor;
  ws_timeline : list (list Z);
  current_time : Z;
  completed_processes : Z }.

Definition ws_init (ps : list Process) (num_cpus : nat) : WsSim :=
  mkWs ps (replicate num_cpus empty_queue) (replicate 100 0) (init_cpus num_cpus)
    (init_timeline num_cpus) 0 0.

Definition put_queue (c : nat) (q : CPUQueue) (s : WsSim) : option WsSim :=
  l ← aset (queues s) c q;
  Some (mkWs (ws_procs s) l (arrived s) (cores s) (ws_timeline s) (current_time s)
    (completed_processes s)).
Definition put_core (c : nat) (u : Processor) (s : WsSim) : option WsSim :=
  l ← aset (cores s) c u;
  Some (mkWs (ws_procs s) (queues s) (arrived s) l (ws_timeline s) (current_time s)
    (completed_processes s)).
Definition put_arrived (i : nat) (v : Z) (s : WsSim) : option WsSim :=
  l ← aset (arrived s) i v;
  Some (mkWs (ws_procs s) (queues s) l (cores s) (ws_timeline s) (current_time s)
    (completed_processes s)).
Definition ws_put_proc (i : nat) (p : Process) (s : WsSim) : option WsSim :=
  l ← aset (ws_procs s) i p;
  Some (mkWs l (queues s) (arrived s) (cores s) (ws_timeline s) (current_time s)
    (completed_processes s)).
Definition ws_put_cell (c : nat) (v : Z) (s : WsSim) : option WsSim :=
  row ← ws_timeline s !! c;
  row' ← aset row (Z.to_nat (current_time s)) v;
  l ← aset (ws_timeline s) c row';
  Some (mkWs (ws_procs s) (queues s) (arrived s) (cores s) l (current_time s)
    (completed_processes s)).

(** *** A. Arrivals go to the shortest queue *)

Definition shortest_scan (s : WsSim) (c : nat) (min_q : nat) : option nat :=
  a ← queues s !! c;
  b ← queues s !! min_q;
  Some (if size a <? size b then c else min_q).

Definition shortest (num_cpus : nat) (s : WsSim) : option nat :=
  for_range 1 (num_cpus - 1) (shortest_scan s) 0%nat.

Definition ws_arrive (num_cpus : nat) (i : nat) (s : WsSim) : option WsSim :=
  p ← ws_procs s !! i;
  now ← (if arrival_time p =? current_time s
         then a ← arrived s !! i; Some (a =? 0) else Some false);
  if now : bool then
    c ← shortest num_cpus s;
    q ← queues s !! c;
    q ← push_back q (Z.of_nat i);
    s ← put_queue c q s;
    put_arrived i 1 s
  else Some s.

(** *** B. Idle cores take or steal *)

(** The accumulator is [(max_q, max_size)]. *)
Definition longest_scan (s : WsSim) (i c : nat) (acc : option nat * Z) : option (option nat * Z) :=
  if Nat.eqb c i then Some acc else
  q ← queues s !! c;
  if snd acc <? size q then Some (Some c, size q) else Some acc.

Definition longest (num_cpus i : nat) (s : WsSim) : option (option nat) :=
  r ← for_range 0 num_cpus (longest_scan s i) (None, 0);
  Some (fst r).

(** The index of the process core [i] gets, [-1] if none. *)
Definition ws_take (num_cpus i : nat) (s : WsSim) : option (WsSim * Z) :=
  q ← queues s !! i;
  '(q, p_idx) ← pop_front q;
  s ← put_queue i q s;
  if p_idx =? -1 then
    v ← longest num_cpus i s;
    match v with
    | Some c =>
        q ← queues s !! c;
        '(q, p_idx) ← pop_back q;
        s ← put_queue c q s;
        Some (s, p_idx)
    | None => Some (s, p_idx)
    end
  else Some (s, p_idx).

Definition ws_assign (num_cpus i : nat) (s : WsSim) : option WsSim :=
  u ← cores s !! i;
  if current_pid u =? -1 then
    '(s, p_idx) ← ws_take num_cpus i s;
    if p_idx =? -1 then Some s else
    k ← slot p_idx;
    p ← ws_procs s !! k;
    put_core i (set_current (pid p) u) s
  else Some s.

(** *** C. Execution *)

Definition ws_execute (i : nat) (s : WsSim) : option WsSim :=
  u ← cores s !! i;
  if current_pid u =? -1 then ws_put_cell i 0 s else
  s ← ws_put_cell i (current_pid u) s;
  match find_first (ws_procs s) (current_pid u) with
  | None => Some s
  | Some k =>
      p ← ws_procs s !! k;
      let p := set_remaining (remaining_time p - 1) p in
      if remaining_time p =? 0 then
        q ← complete_plain (current_time s + 1) p;
        s ← ws_put_proc k q s;
        s ← put_core i (set_current (-1) u) s;
        Some (mkWs (ws_procs s) (queues s) (arrived s) (cores s) (ws_timeline s)
          (current_time s) (completed_processes s + 1))
      else ws_put_proc k p s
  end.

Definition ws_tick (num_cpus : nat) (s : WsSim) : option WsSim :=
  s ← for_range 0 (length (ws_procs s)) (ws_arrive num_cpus) s;
  s ← for_range 0 num_cpus (ws_assign num_cpus) s;
  s ← for_range 0 num_cpus ws_execute s;
  Some (mkWs (ws_procs s) (queues s) (arrived s) (cores s) (ws_timeline s)
    (current_time s + 1) (completed_processes s)).

Definition ws_cond (s : WsSim) : bool :=
  (completed_processes s <? Z.of_nat (length (ws_procs s))) && (current_time s <? MAX_TIME).

Definition run_work_steal (processes : list Process) (num_cpus : nat) : option WsSim :=
  while (Z.to_nat MAX_TIME) ws_cond (ws_tick num_cpus) (ws_init processes num_cpus).

(** ** The deque implements a list *)

(** [l] is what the queue holds, front first. *)
Record queue_rep (q : CPUQueue) (l : list Z) : Prop := {
  qr_len : length (process_indices q) = 100%nat;
  qr_front : 0 ≤ front q;
  qr_rear : rear q = front q + Z.of_nat (length l);
  qr_max : rear q ≤ 100;
  qr_size : size q = Z.of_nat (length l);
  qr_elem : ∀ k x, l !! k = Some x →
    process_indices q !! (Z.to_nat (front q) + k)%nat = Some (Some x) }.

Lemma slot_nonneg z : 0 ≤ z → slot z = Some (Z.to_nat z).
Proof. intros. unfold slot. destruct (Z.leb_spec 0 z); [done|lia]. Qed.

Lemma empty_queue_rep : queue_rep empty_queue [].
Proof. split; simpl; (done || lia). Qed.

Lemma push_back_rep q l x :
  queue_rep q l → rear q < 100 → ∃ q', push_back q x = Some q' ∧ queue_rep q' (l ++ [x]) ∧
    rear q' = rear q + 1.
Proof.
  intros [H1 H2 H3 H4 H5 H6] Hr. unfold push_back.
  rewrite slot_nonneg by lia. simpl. rewrite aset_Some by lia. simpl. eexists. split; [done|].
  split; [|done]. split; simpl; rewrite ?length_insert, ?length_app; simpl; try lia.
  intros k y Hy. apply lookup_app_Some in Hy as [Hy|[Hk Hy]].
  - rewrite list_lookup_insert_ne; [by apply H6|]. apply lookup_lt_Some in Hy. lia.
  - apply list_lookup_singleton_Some in Hy as [Hk0 <-].
    replace (Z.to_nat (front q) + k)%nat with (Z.to_nat (rear q)) by lia.
    apply list_lookup_insert_eq. lia.
Qed.

Lemma pop_front_rep q l :
  queue_rep q l →
  match l with
  | [] => pop_front q = Some (q, -1)
  | x :: l' => ∃ q', pop_front q = Some (q', x) ∧ queue_rep q' l' ∧ rear q' = rear q
  end.
Proof.
  intros [H1 H2 H3 H4 H5 H6]. unfold pop_front. rewrite H5. destruct l as [|x l]; [done|].
  simpl length. destruct (Z.eqb_spec (Z.of_nat (S (length l))) 0); [lia|].
  rewrite slot_nonneg by lia. simpl. pose proof (H6 0%nat x eq_refl) as Hx.
  rewrite Nat.add_0_r in Hx. rewrite Hx. simpl. eexists. split; [done|]. split; [|done].
  simpl length in H3. split; simpl; try lia. intros k y Hy. rewrite <- (H6 (S k) y Hy). f_equal. lia.
Qed.

Lemma pop_back_rep q l :
  queue_rep q l →
  (l = [] ∧ pop_back q = Some (q, -1)) ∨
  ∃ l' x q', l = l' ++ [x] ∧ pop_back q = Some (q', x) ∧ queue_rep q' l' ∧ rear q' = rear q - 1.
Proof.
  intros [H1 H2 H3 H4 H5 H6]. destruct l as [|x l' _] using rev_ind.
  { left. split; [done|]. unfold pop_back. by rewrite H5. }
  right. exists l', x. rewrite length_app in H3, H5. simpl in H3, H5. unfold pop_back. rewrite H5.
  destruct (Z.eqb_spec (Z.of_nat (length l' + 1)) 0); [lia|]. rewrite slot_nonneg by lia. simpl.
  assert (Hx : process_indices q !! Z.to_nat (rear q - 1) = Some (Some x)).
  { rewrite <- (H6 (length l') x) by (by rewrite list_lookup_middle). f_equal. lia. }
  rewrite Hx. simpl. eexists. split; [done|]. split; [done|]. split; [|done].
  split; simpl; try lia. intros k y Hy. apply H6. by apply lookup_app_l_Some.
Qed.

(** *** Sequences of operations *)

Inductive DequeOp := PushBack (x : Z) | PopFront | PopBack.

(** What the code's deque returns ([push_back] returns nothing). *)
Fixpoint deque_run (ops : list DequeOp) (q : CPUQueue) : option (list Z) :=
  match ops with
  | [] => Some []
  | PushBack x :: ops' => q ← push_back q x; deque_run ops' q
  | PopFront :: ops' => '(q, x) ← pop_front q; out ← deque_run ops' q; Some (x :: out)
  | PopBack :: ops' => '(q, x) ← pop_back q; out ← deque_run ops' q; Some (x :: out)
  end.

(** The abstract deque. *)
Fixpoint deque_spec (ops : list DequeOp) (l : list Z) : list Z :=
  match ops with
  | [] => []
  | PushBack x :: ops' => deque_spec ops' (l ++ [x])
  | PopFront :: ops' => default (-1) (head l) :: deque_spec ops' (tail l)
  | PopBack :: ops' => default (-1) (last l) :: deque_spec ops' (removelast l)
  end.

Fixpoint pushes (ops : list DequeOp) : Z :=
  match ops with
  | [] => 0
  | PushBack _ :: ops' => 1 + pushes ops'
  | _ :: ops' => pushes ops'
  end.

Lemma pushes_nonneg ops : 0 ≤ pushes ops.
Proof. induction ops as [|[] ops IH]; simpl; lia. Qed.

Lemma deque_run_rep ops q l :
  queue_rep q l → rear q + pushes ops ≤ 100 → deque_run ops q = Some (deque_spec ops l).
Proof.
  revert q l. induction ops as [|op ops IH]; intros q l Hr Hb; [done|].
  pose proof (pushes_nonneg ops). destruct op as [x| |]; simpl in *.
  - destruct (push_back_rep q l x Hr) as (q' & -> & Hr' & Hrear); [lia|]. simpl. apply IH; [done|lia].
  - pose proof (pop_front_rep q l Hr) as Hp. destruct l as [|y l].
    + rewrite Hp. simpl. by rewrite (IH q []).
    + destruct Hp as (q' & -> & Hr' & Hrear). simpl. rewrite (IH q' l); [done..|lia].
  - destruct (pop_back_rep q l Hr) as [[-> ->]|(l' & y & q' & -> & -> & Hr' & Hrear)]; simpl.
    + by rewrite (IH q []).
    + rewrite (IH q' l') by (done || lia). simpl. by rewrite last_snoc, removelast_last.
Qed.

(** The array deque of a core implements a double-ended list: as long as
    at most 100 elements are ever pushed, every sequence of pushes, own pops
    (front) and steals (back) returns what the list returns, and [-1] exactly
    when the list is empty; no slot is read before it was written. *)
Theorem deque_refines_list (ops : list DequeOp) (Hroom : pushes ops ≤ 100) :
  deque_run ops empty_queue = Some (deque_spec ops []).
Proof. apply deque_run_rep; [apply empty_queue_rep|]. simpl. lia. Qed.

Lemma deque_refines_list_witness :
  deque_run [PushBack 4; PushBack 7; PushBack 9; PopBack; PopFront; PopBack; PopFront] empty_queue =
  Some [9; 4; 7; -1].
Proof. apply (deque_refines_list [PushBack 4; PushBack 7; PushBack 9; PopBack; PopFront; PopBack; PopFront]).
  simpl. lia. Defined.

(** ** Sample run *)

Example run_ws_sample :
  (λ s, ((λ p, (pid p, completion_time p, waiting_time p)) <$> ws_procs s,
         take 22 <$> ws_timeline s)) <$> run_work_steal sample 2 =
  Some ([(1, 14, 5); (2, 16, 3); (3, 6, 0); (4, 7, 0); (5, 19, 13)],
    [[3; 3; 3; 3; 3; 3; 1; 1; 1; 1; 1; 1; 1; 1; 5; 5; 5; 5; 5; 0; 0; 0];
     [0; 4; 4; 4; 4; 4; 4; 2; 2; 2; 2; 2; 2; 2; 2; 2; 0; 0; 0; 0; 0; 0]]).
Proof. vm_compute. reflexivity. Qed.
