(* ===== verification/WorkStealCorrect.v ===== *)
(** * Correctness of the work-stealing simulator

    The simulator completes a process in the execution step itself.  Executing
    all cores first and completing afterwards gives the same state, because
    different cores hold different processes; in that order the tick is made
    of the same phases as the other simulators', and their invariant applies. *)

From S2P Require Import Prelude SchedCore SchedInv Lottery Edf WorkSteal.
Open Scope Z_scope.

(** ** Running flags

    The simulator has no [is_running] array; the flags that the invariant of
    the other simulators needs are a function of the cores. *)

Definition on_core (us : list Processor) (x : Z) : bool :=
  existsb (λ u, current_pid u =? x) us.

Definition ws_flags (ps : list Process) (us : list Processor) : list Z :=
  (λ i, match ps !! i with
        | Some p => if on_core us (pid p) then 1 else 0
        | None => 0
        end) <$> seq 0 100.

Definition ws_view (s : WsSim) : Sim :=
  mkSim (ws_procs s) (ws_flags (ws_procs s) (cores s)) (cores s) (ws_timeline s)
    (current_time s) (completed_processes s).

Lemma on_core_true us x : on_core us x = true ↔ ∃ c u, us !! c = Some u ∧ current_pid u = x.
Proof.
  unfold on_core. rewrite existsb_exists. split.
  - intros (u & Hu & E%Z.eqb_eq). apply list_elem_of_In, list_elem_of_lookup in Hu as [c Hc]. eauto.
  - intros (c & u & Hu & E). exists u. split; [|by apply Z.eqb_eq].
    apply list_elem_of_In. by eapply list_elem_of_lookup_2.
Qed.

Lemma ws_flags_lookup ps us i v :
  ws_flags ps us !! i = Some v ↔ (i < 100)%nat ∧
    v = match ps !! i with Some p => if on_core us (pid p) then 1 else 0 | None => 0 end.
Proof.
  unfold ws_flags. rewrite list_lookup_fmap_Some. split.
  - intros (j & -> & Hj). apply lookup_seq in Hj as [-> ?]. done.
  - intros [Hi ->]. exists i. split; [done|]. by apply lookup_seq.
Qed.


Lemma ws_flags_length ps us : length (ws_flags ps us) = 100%nat.
Proof. unfold ws_flags. by rewrite length_fmap, length_seq. Qed.

(** Flags after a change that concerns process [i] only. *)
Lemma ws_flags_insert ps ps' us us' i p v :
  (i < 100)%nat → pid <$> ps' = pid <$> ps → ps !! i = Some p →
  v = (if on_core us' (pid p) then 1 else 0) →
  (∀ j q, j ≠ i → ps !! j = Some q → on_core us' (pid q) = on_core us (pid q)) →
  ws_flags ps' us' = <[i:=v]> (ws_flags ps us).
Proof.
  intros Hi Hpid Hp -> Hother.
  assert (Hps : ∀ j, pid <$> ps' !! j = pid <$> ps !! j).
  { intros j. rewrite <- !list_lookup_fmap. by rewrite Hpid. }
  apply list_eq. intros j. destruct (decide (j = i)) as [->|Hne].
  - rewrite list_lookup_insert_eq by (by rewrite ws_flags_length).
    apply ws_flags_lookup. split; [done|]. specialize (Hps i). rewrite Hp in Hps.
    destruct (ps' !! i) as [p'|]; [|done]. injection Hps as ->. done.
  - rewrite list_lookup_insert_ne by done. apply option_eq. intros v. rewrite !ws_flags_lookup.
    specialize (Hps j). specialize (Hother j).
    destruct (ps !! j) as [q|], (ps' !! j) as [q'|]; try done.
    injection Hps as ->. by rewrite (Hother q).
Qed.

Lemma ws_flags_same ps ps' us : pid <$> ps' = pid <$> ps → ws_flags ps' us = ws_flags ps us.
Proof.
  intros E. unfold ws_flags. apply list_fmap_ext. intros k i _.
  assert (Hps : pid <$> ps' !! i = pid <$> ps !! i) by (by rewrite <- !list_lookup_fmap, E).
  destruct (ps !! i), (ps' !! i); try done. injection Hps as ->. done.
Qed.

(** ** Searches depend on the pids only *)

Lemma find_last_from_pids k ps ps' x acc :
  pid <$> ps' = pid <$> ps → find_last_from k ps' x acc = find_last_from k ps x acc.
Proof.
  revert k ps' acc. induction ps as [|p ps IH]; intros k [|p' ps'] acc E; try done. simpl.
  injection E as Ep E. rewrite Ep. by apply IH.
Qed.

Lemma find_first_from_pids k ps ps' x :
  pid <$> ps' = pid <$> ps → find_first_from k ps' x = find_first_from k ps x.
Proof.
  revert k ps'. induction ps as [|p ps IH]; intros k [|p' ps'] E; try done. simpl.
  injection E as Ep E. rewrite Ep. destruct (_ =? _); [done|]. by apply IH.
Qed.

Lemma insert_pids (ps : list Process) i p q : ps !! i = Some p → pid q = pid p → pid <$> <[i:=q]> ps = pid <$> ps.
Proof.
  intros Hp E. rewrite list_fmap_insert, E. apply list_insert_id. by rewrite list_lookup_fmap, Hp.
Qed.

(** ** Executing and completing commute across cores *)

(** Completion with the time the tick will have at its end. *)
Definition fin (c : nat) (s : Sim) : option Sim :=
  with_time (time s) <$> lottery_retire c (with_time (time s + 1) s).

Definition exec_fin (c : nat) (s : Sim) : option Sim := s ← edf_execute c s; fin c s.

Section Correct.
Context (P0 : list Process) (m : nat).
Hypothesis Hvalid : valid_input P0.

Local Abbreviation Inv := (Inv P0 m no_io).

(** What both steps need of a state. *)
Record steady (s : Sim) : Prop := {
  sd_static : static <$> procs s = static <$> P0;
  sd_assign : assign_ok s;
  sd_shape : shape m s;
  sd_time : 0 ≤ time s < MAX_TIME }.

Lemma steady_row s c : steady s → (c < m)%nat →
  ∃ row, timeline s !! c = Some row ∧ (Z.to_nat (time s) < length row)%nat.
Proof using.
  intros [_ _ [_ _ Ht Hr] Htime] Hc. destruct (lookup_lt_is_Some_2 (timeline s) c) as [row Hrow]; [lia|].
  exists row. split; [done|]. rewrite (Hr c row Hrow). lia.
Qed.

(** The two cases of a core. *)
Lemma steady_core s c : steady s → (c < m)%nat →
  ∃ u, cpus s !! c = Some u ∧
    (current_pid u = -1 ∨ ∃ i p, (current_pid u =? -1) = false ∧ procs s !! i = Some p ∧
       current_pid u = pid p ∧ running s !! i = Some 1 ∧ busy s c i ∧
       find_last (procs s) (current_pid u) = Some i ∧ find_first (procs s) (current_pid u) = Some i).
Proof using Hvalid.
  intros [Hst Has [_ Hl _ _] _] Hc. destruct (lookup_lt_is_Some_2 (cpus s) c) as [u Hu]; [lia|].
  exists u. split; [done|]. destruct (as_cpu s Has c u Hu) as [?|[i Hb]]; [by left|]. right.
  pose proof (busy_not_idle P0 Hvalid s Hst c i u Hb Hu) as Hne. pose proof (as_flag s Has c i Hb).
  pose proof Hb as (u' & p & Hu' & Hp & E). assert (u' = u) as -> by congruence.
  exists i, p. split_and!; try done; [by apply Z.eqb_neq|..].
  - eapply find_last_spec; eauto. by apply (procs_nodup P0).
  - eapply find_first_spec; eauto. by apply (procs_nodup P0).
Qed.

Lemma exec_idle s c u row :
  cpus s !! c = Some u → current_pid u = -1 → timeline s !! c = Some row →
  (Z.to_nat (time s) < length row)%nat →
  edf_execute c s = Some (with_timeline (<[c:=<[Z.to_nat (time s):=0]> row]> (timeline s)) s).
Proof using.
  intros Hu E Hrow Ht. unfold edf_execute. rewrite Hu. simpl. rewrite E. simpl. unfold put_cell.
  rewrite Hrow. simpl. rewrite aset_Some by done. simpl.
  by rewrite aset_Some by eauto using lookup_lt_Some.
Qed.

Lemma exec_busy s c u row i p :
  cpus s !! c = Some u → (current_pid u =? -1) = false → timeline s !! c = Some row →
  (Z.to_nat (time s) < length row)%nat → find_first (procs s) (current_pid u) = Some i →
  procs s !! i = Some p →
  edf_execute c s = Some (mkSim (<[i:=set_remaining (remaining_time p - 1) p]> (procs s)) (running s)
    (cpus s) (<[c:=<[Z.to_nat (time s):=current_pid u]> row]> (timeline s)) (time s) (completed s)).
Proof using.
  intros Hu E Hrow Ht Hf Hp. unfold edf_execute. rewrite Hu. simpl. rewrite E. unfold put_cell.
  rewrite Hrow. simpl. rewrite aset_Some by done. simpl.
  rewrite aset_Some by eauto using lookup_lt_Some. simpl. rewrite Hf. simpl. rewrite Hp. simpl.
  unfold put_proc. simpl. by rewrite aset_Some by eauto using lookup_lt_Some.
Qed.

Lemma fin_idle s c u : cpus s !! c = Some u → current_pid u = -1 → fin c s = Some s.
Proof using.
  intros Hu E. unfold fin, lottery_retire. simpl. rewrite Hu. simpl. rewrite E. simpl. by destruct s.
Qed.

Lemma fin_keep s c u i p :
  cpus s !! c = Some u → (current_pid u =? -1) = false →
  find_last (procs s) (current_pid u) = Some i → procs s !! i = Some p → remaining_time p ≠ 0 →
  fin c s = Some s.
Proof using.
  intros Hu E Hf Hp Hz. unfold fin, lottery_retire. simpl. rewrite Hu. simpl. rewrite E, Hf. simpl.
  rewrite Hp. simpl. rewrite (proj2 (Z.eqb_neq _ _) Hz). simpl. by destruct s.
Qed.

Lemma fin_done s c u i p :
  cpus s !! c = Some u → (current_pid u =? -1) = false →
  find_last (procs s) (current_pid u) = Some i → procs s !! i = Some p → remaining_time p = 0 →
  (i < length (running s))%nat → complete_plain (time s + 1) p = Some (plain_metrics (time s + 1) p) →
  fin c s = Some (upd c i (set_current (-1) u) (plain_metrics (time s + 1) p) 0
    (timeline s) (completed s + 1) s).
Proof using.
  intros Hu E Hf Hp Hz Hr Hq. unfold fin, lottery_retire. simpl. rewrite Hu. simpl. rewrite E, Hf. simpl.
  rewrite Hp. simpl. rewrite Hz. simpl. rewrite Hq. simpl. unfold finish, put_proc. simpl.
  rewrite aset_Some by eauto using lookup_lt_Some. simpl. unfold put_running. simpl.
  rewrite aset_Some by done. simpl. unfold put_cpu. simpl.
  by rewrite aset_Some by eauto using lookup_lt_Some.
Qed.

Lemma steady_flag s i p : steady s → procs s !! i = Some p → (i < length (running s))%nat.
Proof using Hvalid. intros [Hst _ [-> _ _ _] _] Hp. by eapply (procs_lt P0). Qed.

(** The metrics at the end of the tick do not overflow. *)
Lemma steady_metrics s i p :
  steady s → procs s !! i = Some p → complete_plain (time s + 1) p = Some (plain_metrics (time s + 1) p).
Proof using Hvalid.
  intros [Hst _ _ Ht] Hp. destruct (procs_fresh P0 Hvalid s Hst i p Hp).
  apply complete_plain_some; [lia|lia|by eapply (procs_moderate P0 Hvalid)].
Qed.

(** Different cores hold different processes. *)
Lemma steady_other s c k i j : steady s → c ≠ k → busy s c i → busy s k j → i ≠ j.
Proof using. intros [_ Has _ _] Hne Hi Hj ->. by destruct Hne; eapply (as_excl s Has). Qed.

Lemma fin_exec_comm c k s :
  c ≠ k → (c < m)%nat → (k < m)%nat → steady s →
  (s' ← fin c s; edf_execute k s') = (s' ← edf_execute k s; fin c s').
Proof using Hvalid.
  intros Hck Hc Hk Hs. destruct (steady_core s c Hs Hc) as (u & Hu & Cu).
  destruct (steady_core s k Hs Hk) as (w & Hw & Cw). destruct (steady_row s k Hs Hk) as (row & Hrow & Ht).
  destruct Cu as [Eu|(i & p & Eu & Hp & Hcp & Hri & Hbi & Hl & Hf)].
  { rewrite (fin_idle s c u) by done. simpl.
    destruct Cw as [Ew|(j & q & Ew & Hq & _ & _ & _ & _ & Hfj)].
    - rewrite (exec_idle s k w row) by done. simpl. by rewrite (fin_idle _ c u).
    - rewrite (exec_busy s k w row j q) by done. simpl. by rewrite (fin_idle _ c u). }
  pose proof (steady_flag s i p Hs Hp) as Hir. pose proof (steady_metrics s i p Hs Hp) as Hmet.
  destruct (decide (remaining_time p = 0)) as [Hz|Hnz].
  - rewrite (fin_done s c u i p) by done. simpl.
    destruct Cw as [Ew|(j & q & Ew & Hq & _ & _ & Hbj & _ & Hfj)].
    + rewrite (exec_idle s k w row) by done. simpl.
      rewrite (exec_idle _ k w row); [|simpl; by rewrite list_lookup_insert_ne|done..].
      by rewrite (fin_done _ c u i p).
    + pose proof (steady_other s c k i j Hs Hck Hbi Hbj) as Hij.
      rewrite (exec_busy s k w row j q) by done. simpl.
      rewrite (exec_busy _ k w row j q); simpl; try done.
      * rewrite (fin_done _ c u i p); simpl; try done.
        -- unfold upd. simpl. by rewrite (list_insert_insert_ne _ i j) by done.
        -- unfold find_last. rewrite (find_last_from_pids _ (procs s)); [done|by eapply insert_pids].
        -- by rewrite list_lookup_insert_ne.
      * by rewrite list_lookup_insert_ne.
      * unfold find_first. rewrite (find_first_from_pids _ (procs s)); [done|by eapply insert_pids].
      * by rewrite list_lookup_insert_ne.
  - rewrite (fin_keep s c u i p) by done. simpl.
    destruct Cw as [Ew|(j & q & Ew & Hq & _ & _ & Hbj & _ & Hfj)].
    + rewrite (exec_idle s k w row) by done. simpl. by rewrite (fin_keep _ c u i p).
    + pose proof (steady_other s c k i j Hs Hck Hbi Hbj) as Hij.
      rewrite (exec_busy s k w row j q) by done. simpl.
      rewrite (fin_keep _ c u i p); simpl; try done.
      * unfold find_last. rewrite (find_last_from_pids _ (procs s)); [done|by eapply insert_pids].
      * by rewrite list_lookup_insert_ne.
Qed.

(** Completing keeps the state steady. *)
Lemma fin_steady c s : (c < m)%nat → steady s → ∃ s', fin c s = Some s' ∧ steady s'.
Proof using Hvalid.
  intros Hc Hs. destruct (steady_core s c Hs Hc) as (u & Hu & Cu).
  destruct Cu as [Eu|(i & p & Eu & Hp & Hcp & Hri & Hbi & Hl & Hf)];
    [exists s; by rewrite (fin_idle s c u)|].
  destruct (decide (remaining_time p = 0)) as [Hz|Hnz]; [|exists s; by rewrite (fin_keep s c u i p)].
  rewrite (fin_done s c u i p) by (done || (by eapply steady_flag) || by eapply steady_metrics). eexists. split; [done|].
  destruct Hs as [Hst Has Hsh Htm]. split.
  - by eapply upd_static.
  - eapply (upd_assign P0 m Hvalid s c i u (set_current (-1) u) p _ _ _ false); try done. by left.
  - apply upd_shape; [done|apply Hsh..].
  - done.
Qed.

Lemma fins_exec_comm k s n :
  (n ≤ k < m)%nat → steady s →
  (s' ← for_range 0 n fin s; edf_execute k s') = (s' ← edf_execute k s; for_range 0 n fin s').
Proof using Hvalid.
  intros Hn Hs. revert Hn. induction n as [|n IH]; intros Hn.
  { simpl. by destruct (edf_execute k s). }
  destruct (for_range_total (λ _, steady) fin 0 n s) as (s1 & E1 & Hs1); [done| |].
  { intros c s1 Hc Hs1. apply fin_steady; [lia|done]. }
  specialize (IH ltac:(lia)). rewrite E1 in IH. simpl in IH.
  rewrite for_range_snoc, E1. simpl. rewrite (fin_exec_comm n k s1) by (done || lia). rewrite IH.
  destruct (edf_execute k s) as [s2|]; [|done]. symmetry. apply (for_range_snoc 0 n fin s2).
Qed.

(** The simulator's loop is an execution loop followed by a completion loop. *)
Lemma exec_fin_loop n s :
  (n ≤ m)%nat → steady s →
  (∀ j s', (j < n)%nat → for_range 0 j edf_execute s = Some s' → steady s') →
  for_range 0 n exec_fin s = (s' ← for_range 0 n edf_execute s; for_range 0 n fin s').
Proof using Hvalid.
  intros Hn Hs Hst. induction n as [|n IH]; [done|].
  rewrite !for_range_snoc, IH; [|lia|intros j s' Hj; apply Hst; lia].
  destruct (for_range 0 n edf_execute s) as [s1|] eqn:E1; [|done]. cbn [mbind option_bind].
  pose proof (Hst n s1 ltac:(lia) E1) as Hs1. unfold exec_fin.
  pose proof (fins_exec_comm n s1 n ltac:(lia) Hs1) as Hcomm.
  change (0 + n)%nat with n.
  transitivity ((s' ← for_range 0 n fin s1; edf_execute n s') ≫= fin n).
  { by destruct (for_range 0 n fin s1). }
  rewrite Hcomm.
  destruct (edf_execute n s1) as [s2|]; [|done]. cbn [mbind option_bind].
  by rewrite (for_range_snoc 0 n fin s2).
Qed.

Lemma lottery_retire_time c s s' : lottery_retire c s = Some s' → time s' = time s.
Proof using.
  unfold lottery_retire. intros E. bind_inv E. destruct (_ =? -1); [by simplify_eq|].
  bind_inv E. bind_inv E. destruct (_ =? 0); [|by simplify_eq].
  bind_inv E. unfold finish, put_proc, put_running, put_cpu in E. simpl in E.
  repeat (destruct (aset _ _ _); simpl in E; [|done]). by simplify_eq/=.
Qed.

(** Completion loops at the end-of-tick time. *)
Lemma fin_loop lo n s :
  for_range lo n fin s =
  with_time (time s) <$> for_range lo n lottery_retire (with_time (time s + 1) s).
Proof using.
  revert lo s. induction n as [|n IH]; intros lo s; simpl; [by destruct s|].
  assert (Ef : fin lo s = with_time (time s) <$> lottery_retire lo (with_time (time s + 1) s)) by done.
  rewrite Ef. destruct (lottery_retire lo (with_time (time s + 1) s)) as [s1|] eqn:E; [|done].
  simpl. rewrite IH. simpl. apply lottery_retire_time in E. simpl in E.
  replace (with_time (time s + 1) (with_time (time s) s1)) with s1 by (destruct s1; unfold with_time; simpl in *; by subst).
  by destruct (for_range (S lo) n lottery_retire s1).
Qed.

Lemma exec_steady c s : (c < m)%nat → steady s → ∃ s', edf_execute c s = Some s' ∧ steady s'.
Proof using Hvalid.
  intros Hc Hs. destruct (steady_core s c Hs Hc) as (u & Hu & Cu).
  destruct (steady_row s c Hs Hc) as (row & Hrow & Ht). pose proof Hs as [Hst Has Hsh Htm].
  assert (Htl : ∀ v, length (<[c:=<[Z.to_nat (time s):=v]> row]> (timeline s)) = m ∧
    ∀ c' r', <[c:=<[Z.to_nat (time s):=v]> row]> (timeline s) !! c' = Some r' →
      length r' = Z.to_nat MAX_TIME).
  { intros v. destruct Hsh as [_ _ H3 H4]. rewrite length_insert. split; [done|].
    intros c' r' Hr. apply list_lookup_insert_Some in Hr as [(_ & <- & _)|(_ & Hr)]; [|by eapply H4].
    rewrite length_insert. by eapply H4. }
  destruct Cu as [Eu|(i & p & Eu & Hp & Hcp & Hri & Hbi & Hl & Hf)].
  - rewrite (exec_idle s c u row) by done. eexists. split; [done|].
    destruct (Htl 0). split; try done.
    + destruct Has. split; try done.
    + destruct Hsh. by split.
  - rewrite (exec_busy s c u row i p) by done. eexists. split; [done|].
    destruct (Htl (current_pid u)).
    rewrite <- (list_insert_id (running s) i 1), <- (list_insert_id (cpus s) c u) by done.
    split; [| | |done].
    + by eapply (upd_static P0 s c i u p).
    + eapply (upd_assign P0 m Hvalid s c i u u p _ _ _ true); try done. by left.
    + by apply (upd_shape m s c i u).
Qed.

(** ** The code's execution step *)

Lemma pids_nodup_other s i j p q :
  static <$> procs s = static <$> P0 → procs s !! i = Some p → procs s !! j = Some q → j ≠ i →
  pid q ≠ pid p.
Proof using Hvalid.
  intros Hst Hp Hq Hne E. destruct Hne. by eapply (pid_inj P0 Hvalid s Hst j i q p).
Qed.

(** Flags after a core is freed. *)
Lemma ws_flags_leave st c i u p q :
  steady (ws_view st) → cores st !! c = Some u → busy (ws_view st) c i →
  ws_procs st !! i = Some p → pid q = pid p →
  ws_flags (<[i:=q]> (ws_procs st)) (<[c:=set_current (-1) u]> (cores st)) =
  <[i:=0]> (ws_flags (ws_procs st) (cores st)).
Proof using Hvalid.
  intros Hs Hu Hb Hp Hq. pose proof Hs as [Hst Has _ _].
  destruct (procs_fresh P0 Hvalid _ Hst i p Hp) as [Hpos _].
  apply (ws_flags_insert _ _ (cores st) _ i p); try done.
  - by eapply (procs_lt P0 Hvalid (ws_view st)).
  - by eapply insert_pids.
  - destruct (on_core _ (pid p)) eqn:E; [|done].
    apply on_core_true in E as (c' & w & Hw & Ew).
    apply list_lookup_insert_Some in Hw as [(_ & <- & _)|(Hne & Hw)]; [simpl in Ew; lia|].
    destruct Hne. eapply (as_excl _ Has c c' i); [done|]. by exists w, p.
  - intros j x Hne Hx. apply eq_true_iff_eq. rewrite !on_core_true.
    destruct (procs_fresh P0 Hvalid _ Hst j x Hx) as [Hpx _]. split.
    + intros (c' & w & Hw & Ew).
      apply list_lookup_insert_Some in Hw as [(_ & <- & _)|(_ & Hw)]; [simpl in Ew; lia|eauto].
    + intros (c' & w & Hw & Ew). exists c', w. split; [|done].
      rewrite list_lookup_insert_ne; [done|]. intros <-. assert (w = u) as -> by congruence.
      destruct Hb as (u' & p' & Hu' & Hp' & E'). simpl in *.
      destruct (pids_nodup_other (ws_view st) i j p x Hst Hp Hx Hne). congruence.
Qed.

Lemma ws_execute_view c st :
  (c < m)%nat → steady (ws_view st) →
  ∃ st', ws_execute c st = Some st' ∧ exec_fin c (ws_view st) = Some (ws_view st') ∧
    queues st' = queues st ∧ arrived st' = arrived st.
Proof using Hvalid.
  intros Hc Hs. destruct (steady_core _ c Hs Hc) as (u & Hu & Cu).
  destruct (steady_row _ c Hs Hc) as (row & Hrow & Ht). pose proof Hs as [Hst Has Hsh Htm].
  unfold ws_execute, exec_fin. simpl in Hu, Hrow, Ht.
  destruct Cu as [Eu|(i & p & Eu & Hp & Hcp & Hri & Hbi & Hl & Hf)].
  - rewrite (exec_idle _ c u row) by done. rewrite Hu. simpl. rewrite Eu. simpl.
    unfold ws_put_cell. rewrite Hrow. simpl. rewrite aset_Some by done. simpl.
    rewrite aset_Some by eauto using lookup_lt_Some. simpl. eexists. split; [done|].
    by rewrite (fin_idle _ c u).
  - rewrite (exec_busy _ c u row i p) by done. rewrite Hu. simpl. rewrite Eu. simpl in *.
    unfold ws_put_cell. rewrite Hrow. simpl. rewrite aset_Some by done. simpl.
    rewrite aset_Some by eauto using lookup_lt_Some. simpl. rewrite Hf. simpl. rewrite Hp. simpl.
    set (p' := set_remaining (remaining_time p - 1) p).
    pose proof (lookup_lt_Some _ _ _ Hp) as Hlt.
    assert (Hpid : pid <$> <[i:=p']> (ws_procs st) = pid <$> ws_procs st) by by eapply insert_pids.
    assert (Hl' : find_last (<[i:=p']> (ws_procs st)) (current_pid u) = Some i).
    { unfold find_last. by rewrite (find_last_from_pids _ (ws_procs st)). }
    assert (Hi' : <[i:=p']> (ws_procs st) !! i = Some p') by by apply list_lookup_insert_eq.
    destruct (Z.eqb_spec (remaining_time p - 1) 0) as [Hz|Hnz]; unfold ws_put_proc; simpl.
    + assert (Hmet : complete_plain (current_time st + 1) p' = Some (plain_metrics (current_time st + 1) p')).
      { pose proof (procs_fresh P0 Hvalid (ws_view st) Hst i p Hp).
        apply complete_plain_some; [lia|simpl; lia|by eapply (procs_moderate P0 Hvalid (ws_view st) Hst i p)]. }
      rewrite Hmet. simpl. rewrite aset_Some by done. simpl. unfold put_core. simpl.
      rewrite aset_Some by eauto using lookup_lt_Some. simpl. eexists. split; [done|]. split; [|done].
      rewrite (fin_done _ c u i p') by (done || by eapply (steady_flag (ws_view st))).
      unfold upd, ws_view. simpl. rewrite list_insert_insert_eq.
      by rewrite (ws_flags_leave st c i u p).
    + rewrite aset_Some by done. simpl. eexists. split; [done|]. split; [|done].
      rewrite (fin_keep _ c u i p') by done. unfold ws_view. simpl.
      by rewrite (ws_flags_same _ (<[i:=p']> (ws_procs st)) _ Hpid).
Qed.

(** ** Queues *)

Local Opaque count.

Definition arrived_bit (s : WsSim) (i : nat) : bool := bool_decide (arrived s !! i = Some 1).

(** The queues hold exactly the processes that arrived before [bnd], have
    work and are on no core; [ls] are their contents. *)
Record ws_ok (bnd : nat → Z) (s : WsSim) (ls : list (list Z)) : Prop := {
  wq_len : length (queues s) = m;
  wq_arr : length (arrived s) = 100%nat;
  wq_bits : ∀ i p, ws_procs s !! i = Some p →
    arrived s !! i = Some (if arrival_time p <? bnd i then 1 else 0);
  wq_reps : Forall2 queue_rep (queues s) ls;
  wq_nodup : NoDup (concat ls);
  wq_elem : ∀ z, z ∈ concat ls ↔ ∃ i p, z = Z.of_nat i ∧ ws_procs s !! i = Some p ∧
    arrival_time p < bnd i ∧ 0 < remaining_time p ∧ running (ws_view s) !! i = Some 0;
  wq_busy : ∀ c i p, busy (ws_view s) c i → ws_procs s !! i = Some p → arrival_time p < bnd i;
  wq_rear : ∀ c q, queues s !! c = Some q → rear q ≤ Z.of_nat (count (arrived_bit s) 100) }.

Lemma ws_queue bnd s ls c : ws_ok bnd s ls → (c < m)%nat →
  ∃ q l, queues s !! c = Some q ∧ ls !! c = Some l ∧ queue_rep q l.
Proof using.
  intros Hk Hc. destruct (lookup_lt_is_Some_2 (queues s) c) as [q Hq]; [by rewrite (wq_len _ _ _ Hk)|].
  destruct (Forall2_lookup_l _ _ _ _ _ (wq_reps _ _ _ Hk) Hq) as (l & Hl & Hr). eauto.
Qed.

(** Changing the contents of one queue. *)
Lemma concat_insert (ls : list (list Z)) c l l' :
  ls !! c = Some l → l ++ concat (<[c:=l']> ls) ≡ₚ l' ++ concat ls.
Proof using.
  revert c. induction ls as [|k ls IH]; intros [|c] H; simplify_eq/=.
  - rewrite !(assoc_L (++)). by rewrite (comm (++) l l').
  - specialize (IH c H). rewrite (assoc_L (++) l), (comm (++) l k), <- (assoc_L (++)), IH.
    by rewrite !(assoc_L (++)), (comm (++) l' k).
Qed.

Lemma concat_snoc (ls : list (list Z)) c l x :
  ls !! c = Some l → concat (<[c:=l ++ [x]]> ls) ≡ₚ x :: concat ls.
Proof using.
  intros H. apply (Permutation_app_inv_l l). rewrite (concat_insert ls c l (l ++ [x]) H).
  rewrite <- (assoc_L (++)). simpl. by apply Permutation_app_head.
Qed.

Lemma concat_uncons (ls : list (list Z)) c l l' x :
  ls !! c = Some l → l ≡ₚ x :: l' → concat ls ≡ₚ x :: concat (<[c:=l']> ls).
Proof using.
  intros H Hl. apply (Permutation_app_inv_l l'). rewrite <- (concat_insert ls c l l' H), Hl.
  simpl. apply Permutation_middle.
Qed.

(** *** Arrivals *)

Lemma shortest_ok bnd s ls : ws_ok bnd s ls → (0 < m)%nat →
  ∃ c, shortest m s = Some c ∧ (c < m)%nat.
Proof using.
  intros Hk Hm. unfold shortest.
  destruct (for_range_total (λ _ c, (c < m)%nat) (shortest_scan s) 1 (m - 1) 0%nat) as (c & E & Hc);
    [done| |by eauto].
  intros k c Hkm Hc. unfold shortest_scan.
  destruct (ws_queue bnd s ls k Hk) as (q & l & -> & _); [lia|].
  destruct (ws_queue bnd s ls c Hk Hc) as (q' & l' & -> & _). simpl. eexists. split; [done|].
  destruct (_ <? _); lia.
Qed.

(** Before iteration [i] the processes below [i] have been let in. *)
Definition arriving_bnd (t : Z) (i j : nat) : Z := if decide (j < i)%nat then t + 1 else t.

Lemma arriving_bnd_ne t i j : j ≠ i → arriving_bnd t (S i) j = arriving_bnd t i j.
Proof using. intros. unfold arriving_bnd. repeat destruct decide; lia. Qed.

Lemma count_room s i :
  (i < 100)%nat → arrived s !! i = Some 0 → (count (arrived_bit s) 100 < 100)%nat.
Proof using.
  intros Hi H0. eapply Nat.lt_le_trans; [apply (count_lt _ (λ _, true) 100 i); try done|].
  - unfold arrived_bit. by rewrite H0.
  - done.
Qed.

(** A process that has not arrived has all its work and no core. *)
Lemma not_arrived st bnd ls i p :
  Inv 0 (λ _, True) (ws_view st) → ws_ok bnd st ls → ws_procs st !! i = Some p →
  bnd i ≤ arrival_time p → current_time st ≤ arrival_time p →
  0 < remaining_time p ∧ running (ws_view st) !! i = Some 0.
Proof using Hvalid.
  intros HI Hk Hp Hb Ht. pose proof (I_static _ _ _ _ _ _ HI) as Hst.
  destruct (I_work _ _ _ _ _ _ HI i p Hp) as [Hrange _ _ Hpace _ _].
  destruct (procs_fresh P0 Hvalid _ Hst i p Hp) as [_ Hburst]. split.
  - specialize (Hpace ltac:(intros; lia)). simpl in Hpace. lia.
  - destruct (lookup_lt_is_Some_2 (running (ws_view st)) i) as [r Hr].
    { by eapply (flag_range P0 m no_io Hvalid _ _ (ws_view st) i p). }
    destruct (as_bit _ (I_assign _ _ _ _ _ _ HI) i r Hr) as [->| ->]; [done|].
    destruct (as_core _ (I_assign _ _ _ _ _ _ HI) i) as [c Hc]; [by eapply lookup_lt_Some|done|].
    pose proof (wq_busy _ _ _ Hk c i p Hc Hp). lia.
Qed.

(** Letting process [i] in. *)
Lemma ws_ok_push bnd bnd' st ls c q q' l i p :
  ws_ok bnd st ls → (∀ j, j ≠ i → bnd' j = bnd j) → ws_procs st !! i = Some p →
  bnd i ≤ arrival_time p < bnd' i → 0 < remaining_time p → running (ws_view st) !! i = Some 0 →
  queues st !! c = Some q → ls !! c = Some l → queue_rep q' (l ++ [Z.of_nat i]) →
  rear q' = rear q + 1 → (i < 100)%nat →
  ws_ok bnd' (mkWs (ws_procs st) (<[c:=q']> (queues st)) (<[i:=1]> (arrived st)) (cores st)
    (ws_timeline st) (current_time st) (completed_processes st)) (<[c:=l ++ [Z.of_nat i]]> ls).
Proof using Hvalid.
  intros [K1 K2 K3 K4 K5 K6 K7 K8] Hbnd Hp Ha Hrem Hfl Hq Hl Hrep Hrear Hi.
  set (st' := mkWs _ _ _ _ _ _ _).
  assert (Hbit : arrived_bit st i = false).
  { unfold arrived_bit. rewrite (K3 i p Hp). destruct (Z.ltb_spec (arrival_time p) (bnd i)); [lia|done]. }
  assert (Hcnt : (count (arrived_bit st) 100 < count (arrived_bit st') 100)%nat).
  { apply (count_lt _ _ 100 i); [done| |done|].
    - intros j _. unfold arrived_bit. simpl. rewrite !bool_decide_eq_true.
      intros Hj. destruct (decide (j = i)) as [->|Hne]; [|by rewrite list_lookup_insert_ne].
      unfold arrived_bit in Hbit. by rewrite bool_decide_true in Hbit.
    - unfold arrived_bit. apply bool_decide_eq_true. simpl. apply list_lookup_insert_eq. by rewrite K2. }
  split; simpl.
  - by rewrite length_insert.
  - by rewrite length_insert.
  - intros j x Hx. destruct (decide (j = i)) as [->|Hne].
    + rewrite list_lookup_insert_eq by (by rewrite K2). assert (x = p) as -> by congruence.
      destruct (Z.ltb_spec (arrival_time p) (bnd' i)); [done|lia].
    + rewrite list_lookup_insert_ne by done. rewrite (Hbnd j Hne). by apply K3.
  - by apply Forall2_insert.
  - rewrite (concat_snoc ls c l) by done. apply NoDup_cons. split; [|done].
    rewrite K6. intros (j & x & Ej & Hx & Hax & _). assert (j = i) as -> by lia.
    assert (x = p) as -> by congruence. lia.
  - intros z. rewrite (concat_snoc ls c l) by done. rewrite elem_of_cons, K6. split.
    + intros [->|(j & x & -> & Hx & Hax & Hrx & Hfx)]; [exists i, p; split_and!; (done || lia)|].
      exists j, x. split_and!; try done. destruct (decide (j = i)) as [->|Hne]; [|by rewrite Hbnd].
      assert (x = p) as -> by congruence. lia.
    + intros (j & x & -> & Hx & Hax & Hrx & Hfx). destruct (decide (j = i)) as [->|Hne]; [by left|].
      right. exists j, x. rewrite Hbnd in Hax by done. by split_and!.
  - intros c' j x Hb Hx. destruct (decide (j = i)) as [->|Hne]; [assert (x = p) as -> by congruence; lia|].
    rewrite Hbnd by done. by eapply K7.
  - intros c' x Hx. apply list_lookup_insert_Some in Hx as [(_ & <- & _)|(_ & Hx)].
    + specialize (K8 c q Hq). lia.
    + specialize (K8 c' x Hx). lia.
Qed.

Lemma ws_ok_bnd bnd bnd' st ls :
  (∀ i p, ws_procs st !! i = Some p → (arrival_time p < bnd i ↔ arrival_time p < bnd' i)) →
  ws_ok bnd st ls → ws_ok bnd' st ls.
Proof using.
  intros Hb [K1 K2 K3 K4 K5 K6 K7 K8]. split; try done.
  - intros i p Hp. rewrite (K3 i p Hp). specialize (Hb i p Hp).
    destruct (Z.ltb_spec (arrival_time p) (bnd i)), (Z.ltb_spec (arrival_time p) (bnd' i)); (done || lia).
  - intros z. rewrite K6. split; intros (i & p & ? & Hp & Ha & ?); exists i, p;
      (split_and!; try done; [by apply (Hb i p Hp)|apply H0..]).
  - intros c i p Hbz Hp. by apply (Hb i p Hp), (K7 c).
Qed.

Lemma ws_arrive_ok i st ls :
  (0 < m)%nat → (i < length P0)%nat → Inv 0 (λ _, True) (ws_view st) →
  ws_ok (arriving_bnd (current_time st) i) st ls →
  ∃ st' ls', ws_arrive m i st = Some st' ∧ ws_view st' = ws_view st ∧
    ws_ok (arriving_bnd (current_time st) (S i)) st' ls'.
Proof using Hvalid.
  intros Hm Hi HI Hk. pose proof (I_static _ _ _ _ _ _ HI) as Hst. simpl in Hst.
  destruct (lookup_lt_is_Some_2 (ws_procs st) i) as [p Hp].
  { by rewrite (procs_length P0 (ws_view st) Hst : (length (ws_procs st) = length P0)). }
  pose proof (wq_bits _ _ _ Hk i p Hp) as Hbit.
  assert (Ebi : arriving_bnd (current_time st) i i = current_time st ∧
    arriving_bnd (current_time st) (S i) i = current_time st + 1).
  { unfold arriving_bnd. repeat destruct decide; lia. }
  destruct Ebi as [Eb1 Eb2]. rewrite Eb1 in Hbit. unfold ws_arrive. rewrite Hp. simpl.
  destruct (Z.eqb_spec (arrival_time p) (current_time st)) as [Ea|Ena]; simpl.
  - rewrite Ea, Z.ltb_irrefl in Hbit. rewrite Hbit. simpl.
    destruct (shortest_ok _ _ _ Hk Hm) as (c & -> & Hc). simpl.
    destruct (ws_queue _ _ _ c Hk Hc) as (q & l & Hq & Hl & Hrep). rewrite Hq. simpl.
    assert (Hi100 : (i < 100)%nat) by (by eapply (procs_lt P0 Hvalid (ws_view st))).
    pose proof (count_room st i Hi100 Hbit). pose proof (wq_rear _ _ _ Hk c q Hq).
    destruct (push_back_rep q l (Z.of_nat i) Hrep) as (q' & -> & Hrep' & Hrear); [lia|]. simpl.
    unfold put_queue. rewrite aset_Some by (by rewrite (wq_len _ _ _ Hk)). simpl.
    unfold put_arrived. simpl. rewrite aset_Some by (by rewrite (wq_arr _ _ _ Hk)). simpl.
    destruct (not_arrived st _ ls i p HI Hk Hp); [lia..|].
    eexists _, (<[c:=l ++ [Z.of_nat i]]> ls). split; [done|]. split; [done|].
    eapply (ws_ok_push _ _ st ls c q); try done; [|lia]. apply arriving_bnd_ne.
  - exists st, ls. split; [done|]. split; [done|]. eapply ws_ok_bnd; [|done].
    intros j x Hx. destruct (decide (j = i)) as [->|Hne]; [|by rewrite arriving_bnd_ne].
    assert (x = p) as -> by congruence. lia.
Qed.

(** *** Taking and stealing *)

Definition with_queues (Q : list CPUQueue) (s : WsSim) : WsSim :=
  mkWs (ws_procs s) Q (arrived s) (cores s) (ws_timeline s) (current_time s) (completed_processes s).

(** The queues [Q] hold [ls] and nothing was ever pushed beyond slot [B]. *)
Record queues_hold (B : Z) (Q : list CPUQueue) (ls : list (list Z)) : Prop := {
  qh_len : length Q = m;
  qh_reps : Forall2 queue_rep Q ls;
  qh_rear : ∀ c q, Q !! c = Some q → rear q ≤ B }.

Lemma queues_hold_put B Q ls c q l :
  queues_hold B Q ls → queue_rep q l → rear q ≤ B → queues_hold B (<[c:=q]> Q) (<[c:=l]> ls).
Proof using.
  intros [H1 H2 H3] Hr HB. split.
  - by rewrite length_insert.
  - by apply Forall2_insert.
  - intros c' q' Hq. apply list_lookup_insert_Some in Hq as [(_ & <- & _)|(_ & Hq)]; eauto.
Qed.

Lemma queues_hold_get B Q ls c :
  queues_hold B Q ls → (c < m)%nat → ∃ q l, Q !! c = Some q ∧ ls !! c = Some l ∧ queue_rep q l.
Proof using.
  intros [H1 H2 _] Hc. destruct (lookup_lt_is_Some_2 Q c) as [q Hq]; [by rewrite H1|].
  destruct (Forall2_lookup_l _ _ _ _ _ H2 Hq) as (l & Hl & Hr). eauto.
Qed.

Lemma longest_ok B i st ls :
  queues_hold B (queues st) ls →
  ∃ r, longest m i st = Some r ∧
    match r with
    | None => ∀ c l, (c < m)%nat → c ≠ i → ls !! c = Some l → l = []
    | Some c => (c < m)%nat ∧ ∃ l, ls !! c = Some l ∧ l ≠ []
    end.
Proof using.
  intros HQ. unfold longest.
  destruct (for_range_total (λ n (a : option nat * Z), 0 ≤ a.2 ∧
    match a.1 with
    | None => a.2 = 0 ∧ ∀ c l, (c < n)%nat → c ≠ i → ls !! c = Some l → l = []
    | Some c => (c < m)%nat ∧ ∃ l, ls !! c = Some l ∧ l ≠ []
    end) (longest_scan st i) 0 m (None, 0)) as ([r z] & E & H0 & Hr).
  - split; [done|]. split; [done|]. lia.
  - intros k [r z] Hk [H0 Hr]. unfold longest_scan. simpl in *.
    destruct (Nat.eqb_spec k i) as [->|Hne].
    { eexists. split; [done|]. split; [done|]. destruct r as [c|]; [done|]. destruct Hr as [-> Hr].
      split; [done|]. intros c l Hc Hci. apply Hr; [lia|done]. }
    destruct (queues_hold_get B _ ls k HQ) as (q & l & Hq & Hl & Hrep); [lia|]. rewrite Hq. simpl.
    pose proof (qr_size _ _ Hrep) as Hsz.
    destruct (Z.ltb_spec z (size q)); (eexists; split; [done|]); simpl.
    + split; [lia|]. split; [lia|]. exists l. split; [done|]. intros ->. simpl in *. lia.
    + split; [done|]. destruct r as [c|]; [done|]. destruct Hr as [-> Hr]. split; [done|].
      intros c l' Hc Hci Hl'. destruct (decide (c = k)) as [->|]; [|apply (Hr c); [lia|done..]].
      assert (l' = l) as -> by congruence. destruct l; [done|]. simpl in *. lia.
  - rewrite E. simpl. exists r. split; [done|]. destruct r as [c|]; [done|]. apply Hr.
Qed.

Lemma all_empty (ls : list (list Z)) : (∀ c l, ls !! c = Some l → l = []) → concat ls = [].
Proof using.
  induction ls as [|l ls IH]; intros H; [done|]. simpl. rewrite (H 0%nat l eq_refl). simpl.
  apply IH. intros c. apply (H (S c)).
Qed.

(** Core [i] gets the head of its queue, or the tail of another one, and only
    fails when every queue is empty. *)
Lemma ws_take_ok B i st ls :
  (i < m)%nat → queues_hold B (queues st) ls → (∀ z, z ∈ concat ls → 0 ≤ z) →
  ∃ Q ls' x, ws_take m i st = Some (with_queues Q st, x) ∧ queues_hold B Q ls' ∧
    ((x = -1 ∧ concat ls = [] ∧ concat ls' = []) ∨ (0 ≤ x ∧ concat ls ≡ₚ x :: concat ls')).
Proof using.
  intros Hi HQ Hpos. unfold ws_take.
  destruct (queues_hold_get B _ ls i HQ Hi) as (q & l & Hq & Hl & Hrep). rewrite Hq. simpl.
  pose proof (qh_rear _ _ _ HQ i q Hq) as HB. pose proof (pop_front_rep q l Hrep) as Hpop.
  pose proof (lookup_lt_Some _ _ _ Hq) as Hlt.
  destruct l as [|x l].
  - rewrite Hpop. simpl. unfold put_queue. rewrite aset_Some by done. simpl.
    rewrite list_insert_id by done.
    destruct (longest_ok B i (with_queues (queues st) st) ls HQ) as (r & Er & Hr).
    unfold with_queues in Er. rewrite Er. simpl. destruct r as [c|].
    + destruct Hr as [Hc (lc & Hlc & Hne)].
      destruct (queues_hold_get B _ ls c HQ Hc) as (qc & l' & Hqc & Hlc' & Hrc).
      assert (l' = lc) as -> by congruence. rewrite Hqc. simpl.
      destruct (pop_back_rep qc lc Hrc) as [[? _]|(l0 & y & q' & -> & Ep & Hrep' & Hrear)]; [done|].
      rewrite Ep. simpl. rewrite aset_Some by eauto using lookup_lt_Some. simpl.
      eexists _, (<[c:=l0]> ls), y. split; [done|]. split.
      * apply queues_hold_put; [done..|]. pose proof (qh_rear _ _ _ HQ c qc Hqc). lia.
      * right. assert (Hperm : concat ls ≡ₚ y :: concat (<[c:=l0]> ls)).
        { eapply concat_uncons; [done|]. by rewrite (comm (++)). }
        split; [|done]. apply Hpos. rewrite Hperm. left.
    + eexists _, ls, (-1). split; [done|]. split; [done|]. left.
      assert (concat ls = []); [|done]. apply all_empty. intros c lc Hlc.
      destruct (decide (c = i)) as [->|Hne]; [congruence|]. apply (Hr c); try done.
      apply lookup_lt_Some in Hlc. by rewrite <- (Forall2_length _ _ _ (qh_reps _ _ _ HQ)), (qh_len _ _ _ HQ) in Hlc.
  - destruct Hpop as (q' & -> & Hrep' & Hrear). simpl. unfold put_queue. rewrite aset_Some by done.
    simpl. assert (Hperm : concat ls ≡ₚ x :: concat (<[i:=l]> ls)) by by eapply concat_uncons.
    assert (0 ≤ x) by (apply Hpos; rewrite Hperm; left).
    destruct (Z.eqb_spec x (-1)); [lia|]. eexists _, (<[i:=l]> ls), x. split; [done|]. split.
    + apply queues_hold_put; [done..|lia].
    + by right.
Qed.

Lemma ws_flags_take st c i u p :
  static <$> ws_procs st = static <$> P0 → cores st !! c = Some u → current_pid u = -1 →
  ws_procs st !! i = Some p →
  ws_flags (ws_procs st) (<[c:=set_current (pid p) u]> (cores st)) =
  <[i:=1]> (ws_flags (ws_procs st) (cores st)).
Proof using Hvalid.
  intros Hst Hu Hid Hp. apply (ws_flags_insert _ _ (cores st) _ i p); try done.
  - by eapply (procs_lt P0 Hvalid (ws_view st)).
  - rewrite (proj2 (on_core_true _ (pid p))); [done|]. exists c, (set_current (pid p) u).
    split; [|done]. apply list_lookup_insert_eq. by eapply lookup_lt_Some.
  - intros j x Hne Hx. apply eq_true_iff_eq. rewrite !on_core_true.
    pose proof (pids_nodup_other (ws_view st) i j p x Hst Hp Hx Hne) as Hpx.
    destruct (procs_fresh P0 Hvalid (ws_view st) Hst j x Hx) as [Hpos _]. split.
    + intros (c' & w & Hw & Ew).
      apply list_lookup_insert_Some in Hw as [(_ & <- & _)|(_ & Hw)]; [simpl in Ew; congruence|eauto].
    + intros (c' & w & Hw & Ew). exists c', w. split; [|done].
      rewrite list_lookup_insert_ne; [done|]. intros <-. assert (w = u) as -> by congruence. lia.
Qed.

(** After the arrivals of the tick the queues hold exactly the ready processes. *)
Lemma ws_elem_ready st ls z :
  ws_ok (λ _, current_time st + 1) st ls →
  z ∈ concat ls ↔ ∃ i p, z = Z.of_nat i ∧ ready (ws_view st) i p.
Proof using.
  intros Hk. rewrite (wq_elem _ _ _ Hk). unfold ready. simpl.
  split; intros (i & p & -> & H); exists i, p; (split; [done|]); destruct H as (? & ? & ? & ?);
    split_and!; try done; lia.
Qed.

Lemma ws_assign_ok c st ls :
  (c < m)%nat → ws_ok (λ _, current_time st + 1) st ls → Inv 0 (λ _, True) (ws_view st) →
  ∃ st' ls', ws_assign m c st = Some st' ∧ ws_ok (λ _, current_time st' + 1) st' ls' ∧
    dispatch_step P0 m no_io c (ws_view st) (ws_view st').
Proof using Hvalid.
  intros Hc Hk HI. destruct (core_exists _ _ _ _ _ _ _ HI Hc) as [u Hu]. simpl in Hu.
  pose proof (I_static _ _ _ _ _ _ HI) as Hst. simpl in Hst.
  unfold ws_assign. rewrite Hu. simpl.
  destruct (Z.eqb_spec (current_pid u) (-1)) as [Hid|Hbusy].
  2: { exists st, ls. split_and!; [done..|]. by eapply dispatch_busy. }
  destruct (ws_take_ok (Z.of_nat (count (arrived_bit st) 100)) c st ls Hc) as (Q & ls' & x & -> & HQ & Hx).
  { destruct Hk. by split. }
  { intros z Hz. apply (ws_elem_ready st ls z Hk) in Hz as (i & p & -> & _). lia. }
  simpl. destruct Hx as [(-> & E1 & E2)|[Hx Hperm]]; simpl.
  - assert (Hno : nobody_ready (ws_view st)).
    { intros i p Hr. assert (Hin : Z.of_nat i ∈ concat ls) by (apply (ws_elem_ready st ls _ Hk); eauto).
      rewrite E1 in Hin. by apply not_elem_of_nil in Hin. }
    exists (with_queues Q st), ls'. split_and!; [done| |by eapply dispatch_none].
    destruct Hk as [K1 K2 K3 K4 K5 K6 K7 K8], HQ as [H1 H2 H3]. split; try done.
    + rewrite E2. constructor.
    + intros z. rewrite E2, <- E1. apply K6.
  - destruct (Z.eqb_spec x (-1)); [lia|]. rewrite slot_nonneg by done. simpl.
    destruct (proj1 (ws_elem_ready st ls x Hk)) as (i & p & -> & Hready); [rewrite Hperm; left|].
    pose proof Hready as (Hp & Harr & Hrem & Hfl). simpl in *. rewrite Nat2Z.id, Hp. simpl.
    unfold put_core. simpl. rewrite aset_Some by eauto using lookup_lt_Some. simpl.
    pose proof (ws_flags_take st c i u p Hst Hu Hid Hp) as Efl.
    set (st' := mkWs _ _ _ (<[c:=_]> _) _ _ _).
    assert (Ev : ws_view st' = upd c i (set_current (pid p) u) p 1 (ws_timeline st)
      (completed_processes st) (ws_view st)).
    { rewrite upd_same_proc by done. unfold ws_view. simpl. by rewrite Efl. }
    exists st', ls'. split_and!; [done| |rewrite Ev; by eapply (dispatch_take P0 m no_io Hvalid (ws_view st))].
    assert (Hi100 : (i < 100)%nat) by (by eapply (procs_lt P0 Hvalid (ws_view st))).
    destruct Hk as [K1 K2 K3 K4 K5 K6 K7 K8], HQ as [H1 H2 H3].
    assert (Hnd : (Z.of_nat i ∉ concat ls') ∧ NoDup (concat ls')).
    { rewrite Hperm in K5. by apply NoDup_cons in K5. }
    split; try done; [apply Hnd| |].
    + intros z. assert (Hz : z ∈ concat ls' ↔ z ∈ concat ls ∧ z ≠ Z.of_nat i).
      { rewrite Hperm, elem_of_cons. split.
        - intros Hz. split; [by right|]. intros ->. by destruct Hnd.
        - by intros [[->|?] ?]. }
      rewrite Hz, K6. simpl. rewrite Efl. split.
      * intros [(j & y & -> & Hy & Hy1 & Hy2 & Hy3) Hne]. exists j, y.
        rewrite list_lookup_insert_ne by congruence. by split_and!.
      * intros (j & y & -> & Hy & Hy1 & Hy2 & Hy3). destruct (decide (j = i)) as [->|Hne].
        { rewrite list_lookup_insert_eq in Hy3; [done|]. by rewrite ws_flags_length. }
        rewrite list_lookup_insert_ne in Hy3 by done. split; [|lia]. exists j, y. by split_and!.
    + intros c' j y Hb Hy. rewrite Ev in Hb.
      apply (upd_busy P0 Hvalid (ws_view st) c i u _ p p _ _ true) in Hb as [[_ Hb]|(-> & -> & _)]; try done.
      * by eapply K7.
      * assert (y = p) as -> by (simpl in Hy; congruence). simpl. lia.
Qed.

(** *** Execution leaves the queues alone *)

Definition waits (s : Sim) (i : nat) : Prop :=
  ∃ p, procs s !! i = Some p ∧ 0 < remaining_time p ∧ running s !! i = Some 0.

Lemma ws_ok_exec bnd st st' ls :
  queues st' = queues st → arrived st' = arrived st →
  static <$> ws_procs st' = static <$> ws_procs st →
  (∀ i, waits (ws_view st') i ↔ waits (ws_view st) i) → (∀ c i, busy (ws_view st') c i → busy (ws_view st) c i) →
  ws_ok bnd st ls → ws_ok bnd st' ls.
Proof using.
  intros Eq Ea Est Hw Hb [K1 K2 K3 K4 K5 K6 K7 K8].
  assert (Hold : ∀ i p', ws_procs st' !! i = Some p' →
    ∃ p, ws_procs st !! i = Some p ∧ arrival_time p = arrival_time p').
  { intros i p' Hp'. apply (f_equal (lookup i)) in Est. rewrite !list_lookup_fmap, Hp' in Est.
    destruct (ws_procs st !! i) as [p|]; [|done]. exists p. split; [done|].
    unfold static in Est. by injection Est. }
  assert (Hnew : ∀ i p, ws_procs st !! i = Some p →
    ∃ p', ws_procs st' !! i = Some p' ∧ arrival_time p' = arrival_time p).
  { intros i p Hp. apply (f_equal (lookup i)) in Est. rewrite !list_lookup_fmap, Hp in Est.
    destruct (ws_procs st' !! i) as [p'|]; [|done]. exists p'. split; [done|].
    unfold static in Est. by injection Est. }
  split; rewrite ?Eq, ?Ea; try done.
  - intros i p' Hp'. destruct (Hold i p' Hp') as (p & Hp & <-). by apply K3.
  - intros z. rewrite K6. split; intros (i & p & -> & Hp & Ha & H).
    + destruct (Hnew i p Hp) as (p' & Hp' & E). destruct (proj2 (Hw i)) as (x & Hx & ?); [by exists p|].
      simpl in Hx. exists i, p'. assert (x = p') as -> by congruence. split_and!; try done; [lia|apply H0..].
    + destruct (Hold i p Hp) as (p' & Hp' & E). destruct (proj1 (Hw i)) as (x & Hx & ?); [by exists p|].
      simpl in Hx. exists i, p'. assert (x = p') as -> by congruence. split_and!; try done; [lia|apply H0..].
  - intros c i p' Hbz Hp'. destruct (Hold i p' Hp') as (p & Hp & <-). eapply K7; [by apply Hb|done].
  - intros c q Hq. specialize (K8 c q Hq). unfold arrived_bit in *. by rewrite Ea.
Qed.

Lemma waits_upd s c i u p q r tl n j :
  procs s !! i = Some p → running s !! i = Some 1 → (r = 1 ∨ remaining_time q = 0) →
  waits (upd c i u q r tl n s) j ↔ waits s j.
Proof using.
  intros Hp Hr Hq. pose proof (lookup_lt_Some _ _ _ Hp). pose proof (lookup_lt_Some _ _ _ Hr).
  unfold waits. simpl. destruct (decide (j = i)) as [->|Hne]; [|by rewrite !list_lookup_insert_ne].
  rewrite !list_lookup_insert_eq by done. split; intros (x & ? & ? & ?); simplify_eq. lia.
Qed.

Lemma exec_fin_ok c s :
  (c < m)%nat → steady s →
  ∃ s', exec_fin c s = Some s' ∧ steady s' ∧ (∀ i, waits s' i ↔ waits s i) ∧
    (∀ c' i, busy s' c' i → busy s c' i).
Proof using Hvalid.
  intros Hc Hs. destruct (exec_steady c s Hc Hs) as (s1 & E1 & Hs1).
  destruct (fin_steady c s1 Hc Hs1) as (s2 & E2 & Hs2).
  exists s2. unfold exec_fin. rewrite E1. simpl. split; [done|]. split; [done|].
  assert (H1 : (∀ i, waits s1 i ↔ waits s i) ∧ (∀ c' i, busy s1 c' i → busy s c' i)).
  { destruct (steady_core s c Hs Hc) as (u & Hu & Cu).
    destruct (steady_row s c Hs Hc) as (row & Hrow & Ht). pose proof Hs as [Hst Has _ _].
    destruct Cu as [Eu|(i & p & Eu & Hp & Hcp & Hri & Hbi & Hl & Hf)].
    { rewrite (exec_idle s c u row) in E1 by done. by simplify_eq/=. }
    rewrite (exec_busy s c u row i p) in E1 by done. simplify_eq.
    rewrite <- (list_insert_id (running s) i 1), <- (list_insert_id (cpus s) c u) by done. split.
    - intros j. by apply (waits_upd s c i u p); [..|left].
    - intros c' j Hb. apply (upd_busy P0 Hvalid s c i u u p _ _ _ true) in Hb; try done.
      by destruct Hb as [[_ ?]|(-> & -> & _)]. }
  assert (H2 : (∀ i, waits s2 i ↔ waits s1 i) ∧ (∀ c' i, busy s2 c' i → busy s1 c' i)).
  { destruct (steady_core s1 c Hs1 Hc) as (u & Hu & Cu). pose proof Hs1 as [Hst Has _ _].
    destruct Cu as [Eu|(i & p & Eu & Hp & Hcp & Hri & Hbi & Hl & Hf)];
      [rewrite (fin_idle s1 c u) in E2 by done; by simplify_eq|].
    destruct (decide (remaining_time p = 0)) as [Hz|Hnz];
      [|rewrite (fin_keep s1 c u i p) in E2 by done; by simplify_eq].
    rewrite (fin_done s1 c u i p) in E2 by (done || (by eapply steady_flag) || by eapply steady_metrics). simplify_eq. split.
    - intros j. by apply (waits_upd s1 c i _ p); [..|right].
    - intros c' j Hb. apply (upd_busy P0 Hvalid s1 c i u _ p _ _ _ false) in Hb; try done.
      by destruct Hb as [[_ ?]|(_ & _ & ?)]. }
  destruct H1 as [W1 B1], H2 as [W2 B2]. split; [|by auto]. intros i. by rewrite W2.
Qed.

Lemma ws_execute_loop bnd st ls n :
  (n ≤ m)%nat → steady (ws_view st) → ws_ok bnd st ls →
  ∃ st', for_range 0 n ws_execute st = Some st' ∧
    for_range 0 n exec_fin (ws_view st) = Some (ws_view st') ∧ ws_ok bnd st' ls.
Proof using Hvalid.
  intros Hn Hs Hk.
  destruct (for_range_total (λ k st', for_range 0 k exec_fin (ws_view st) = Some (ws_view st') ∧
    ws_ok bnd st' ls ∧ steady (ws_view st')) ws_execute 0 n st) as (st' & E & H1 & H2 & _);
    [done| |by eauto].
  intros c st1 Hc (E1 & Hk1 & Hs1).
  destruct (ws_execute_view c st1) as (st2 & E2 & Ev & Eq & Ea); [lia|done|].
  destruct (exec_fin_ok c (ws_view st1)) as (s' & Es & Hs2 & Hw & Hb); [lia|done|].
  rewrite Ev in Es. simplify_eq. exists st2. split; [done|].
  rewrite for_range_snoc, E1. simpl. rewrite Ev. split; [done|]. split; [|done].
  eapply ws_ok_exec; try done. transitivity (static <$> P0); [apply Hs2|symmetry; apply Hs1].
Qed.

(** ** The tick *)

Lemma Inv_steady k live s : Inv k live s → time s < MAX_TIME → steady s.
Proof using. intros HI Ht. destruct HI. split; [done..|lia]. Qed.

(** Completion loop, from the end of the execution loop. *)
Lemma retire_after s s1 :
  tick_step P0 m no_io s s1 →
  ∃ s2, for_range 0 m lottery_retire s1 = Some s2 ∧ Inv 0 (λ _, True) s2 ∧ tick_step P0 m no_io s s2.
Proof using Hvalid.
  intros [HI Ht Hran Hle Hdone Hlt].
  destruct (retire_loop P0 m no_io (λ s, s) (λ _ s', timeline s' = timeline s1 ∧
    ∀ c i, busy s' c i → busy s1 c i) lottery_retire s1) as (s2 & E & [Etl Hb] & HI2 & Ht2 & Hr2); try done.
  { intros c s' Hc [Etl Hb] HI'. destruct (lottery_retire_ok P0 m Hvalid c s' Hc HI')
      as (s'' & E & HS & _ & Etl' & Hb'). exists s''. split; [done|]. split; [|done].
    split; [congruence|auto]. }
  exists s2. split; [done|]. split; [done|]. pose proof (total_rems s1 s2 Hr2) as Htot. split.
  - by eapply Inv_weaken; [|done].
  - congruence.
  - intros c i p Hbz Hp. rewrite Etl.
    destruct (Hb c i Hbz) as (u & q & Hu & Hq & Eq).
    assert (E1 : pid p = pid q).
    { destruct (procs_static P0 s2 (I_static _ _ _ _ _ _ HI2) i p Hp) as (a & Ha & Ea).
      destruct (procs_static P0 s1 (I_static _ _ _ _ _ _ HI) i q Hq) as (b & Hb' & Eb).
      apply static_pid in Ea, Eb. congruence. }
    rewrite E1. apply (Hran c i q); [by exists u, q|done].
  - lia.
  - intros H0. eapply all_done; [done..|].
    assert (0 ≤ total s2) by (eapply sumZ_nonneg, rems_nonneg; done). lia.
  - rewrite Htot. done.
Qed.

Lemma exec_step_ok c s :
  (c < m)%nat → Inv c (λ c', c ≤ c')%nat s → time s < MAX_TIME →
  ∃ s', edf_execute c s = Some s' ∧ True ∧ execute_step P0 m no_io c s s'.
Proof using Hvalid.
  intros Hc HI Ht. destruct (core_exists _ _ _ _ _ _ _ HI Hc) as [u Hu].
  unfold edf_execute. rewrite Hu. simpl.
  destruct (core_cases _ _ _ Hvalid _ _ _ _ _ HI Hu) as [E|(i & p & Hne & Hp & Hcur & Hr & _ & Hf)].
  { rewrite E. simpl. exists s. split_and!; [by eapply put_cell_idle|done|by eapply execute_idle]. }
  rewrite (proj2 (Z.eqb_neq _ _) Hne).
  destruct (put_cell_ok _ _ _ _ _ s c (current_pid u) HI) as (row & Hrow & Hcell & ->); try done.
  simpl. rewrite Hf. simpl. rewrite Hp. simpl. unfold put_proc. simpl.
  rewrite aset_Some by eauto using lookup_lt_Some. simpl. eexists. split; [done|]. split; [done|].
  unfold with_procs, with_timeline. simpl. rewrite Hcur.
  rewrite <- (list_insert_id (running s) i 1), <- (list_insert_id (cpus s) c u) by done.
  by eapply (execute_busy P0 m no_io Hvalid s c i u p).
Qed.

Definition ws_state_ok (st : WsSim) : Prop :=
  Inv 0 (λ _, True) (ws_view st) ∧ ∃ ls, ws_ok (λ _, current_time st) st ls.

(** After step A. *)
Lemma ws_arrived st :
  (0 < m)%nat → ws_state_ok st →
  ∃ st1 ls, for_range 0 (length (ws_procs st)) (ws_arrive m) st = Some st1 ∧
    ws_view st1 = ws_view st ∧ ws_ok (λ _, current_time st1 + 1) st1 ls.
Proof using Hvalid.
  intros Hm [HI (ls & Hk)]. pose proof (I_static _ _ _ _ _ _ HI) as Hst.
  pose proof (procs_length P0 _ Hst) as Hlen. simpl in Hlen. rewrite Hlen.
  destruct (for_range_total (λ i st', ws_view st' = ws_view st ∧
    ∃ ls', ws_ok (arriving_bnd (current_time st) i) st' ls') (ws_arrive m) 0 (length P0) st)
    as (st1 & E & Ev & ls1 & Hk1).
  - split; [done|]. exists ls. eapply ws_ok_bnd; [|done]. intros i p _. unfold arriving_bnd. done.
  - intros i st1 Hi (Ev & ls1 & Hk1). assert (Et : current_time st1 = current_time st) by by injection Ev.
    rewrite <- Et in Hk1.
    destruct (ws_arrive_ok i st1 ls1) as (st2 & ls2 & E2 & Ev2 & Hk2); [done|lia|by rewrite Ev|done|].
    exists st2. split; [done|]. rewrite <- Et. split; [congruence|eauto].
  - exists st1, ls1. assert (Et : current_time st1 = current_time st) by by injection Ev.
    split_and!; try done. eapply ws_ok_bnd; [|done]. intros i p Hp. rewrite Et. unfold arriving_bnd.
    rewrite decide_True; [done|]. apply lookup_lt_Some in Hp. simpl.
    assert (ws_procs st1 = ws_procs st) as Ep by by injection Ev. rewrite Ep in Hp. lia.
Qed.

(** After step B: no core idles while a process waits. *)
Lemma ws_assigned st ls :
  ws_ok (λ _, current_time st + 1) st ls → Inv 0 (λ _, True) (ws_view st) →
  ∃ st' ls', for_range 0 m (ws_assign m) st = Some st' ∧
    ws_ok (λ _, current_time st' + 1) st' ls' ∧
    preempt_step P0 m no_io (ws_view st) (ws_view st') ∧
    ∀ c, idle (ws_view st') c → nobody_ready (ws_view st').
Proof using Hvalid.
  intros Hk HI.
  destruct (dispatch_loop P0 m no_io ws_view (λ _ st, ∃ ls, ws_ok (λ _, current_time st + 1) st ls)
    (ws_assign m) st) as (st' & E & (ls' & Hk') & HP & Hwc); eauto 6.
  intros c st1 Hc (ls1 & Hk1) HI1.
  destruct (ws_assign_ok c st1 ls1 Hc Hk1 HI1) as (st2 & ls2 & ? & ? & ?). eauto 6.
Qed.

(** Step C: the code's loop reaches the state of the separate loops. *)
Lemma ws_executed st ls s3 s5 :
  Inv 0 (λ _, True) (ws_view st) → current_time st < MAX_TIME →
  ws_ok (λ _, current_time st + 1) st ls →
  for_range 0 m edf_execute (ws_view st) = Some s3 → time s3 = current_time st →
  for_range 0 m lottery_retire (with_time (time s3 + 1) s3) = Some s5 →
  ∃ st', for_range 0 m ws_execute st = Some st' ∧
    ws_view st' = with_time (current_time st) s5 ∧ ws_ok (λ _, current_time st + 1) st' ls.
Proof using Hvalid.
  intros HI Ht Hk E3 Et3 E5. assert (Hs : steady (ws_view st)) by by eapply Inv_steady.
  destruct (ws_execute_loop _ st ls m (le_n m) Hs Hk) as (st' & E & Ev & Hk').
  exists st'. split; [done|]. split; [|done].
  rewrite (exec_fin_loop m (ws_view st)) in Ev; [|done..|].
  - rewrite E3 in Ev. cbn [mbind option_bind] in Ev. rewrite fin_loop, E5 in Ev. simpl in Ev.
    rewrite Et3 in Ev. congruence.
  - intros j s' Hj Ej. apply (for_range_inv (λ _, steady) edf_execute 0 j (ws_view st)); [done..|].
    intros c s1 s2 Hc Hs1 E1. destruct (exec_steady c s1) as (? & ? & ?); [lia|done|]. by simplify_eq.
Qed.

Lemma ws_system :
  (0 < m)%nat → TickSystem P0 m no_io ws_view ws_state_ok (ws_tick m).
Proof using Hvalid.
  intros Hm st Hok _ Ht. pose proof Hok as [HI _]. unfold ws_tick.
  destruct (ws_arrived st Hm Hok) as (st1 & ls1 & -> & Ev1 & Hk1). simpl.
  assert (HI1 : Inv 0 (λ _, True) (ws_view st1)) by (by rewrite Ev1).
  destruct (ws_assigned st1 ls1 Hk1 HI1) as (st2 & ls2 & -> & Hk2 & HP2 & Hwc). simpl.
  pose proof HP2 as [HI2 Ht2 _ _].
  assert (Et : current_time st2 = current_time st) by (rewrite Ev1 in Ht2; exact Ht2).
  destruct (execute_loop P0 m no_io (λ s, s) (λ _ _, True) edf_execute (ws_view st2))
    as (s3 & E3 & _ & HI3 & Ht3 & Hk3 & Hle & Hlt); try done; [intros c s3 Hc _; by apply exec_step_ok| |].
  { simpl. rewrite Et. exact Ht. }
  assert (Hstep : tick_step P0 m no_io (ws_view st) (with_time (time s3 + 1) s3)).
  { eapply (tick_of_phases P0 m no_io Hvalid (ws_view st) (ws_view st) (ws_view st2) s3); try done.
    by rewrite <- Ev1. }
  destruct (retire_after _ _ Hstep) as (s5 & E5 & HI5 & Hstep5).
  destruct (ws_executed st2 ls2 s3 s5) as (st3 & -> & Ev3 & Hk3'); try done; [by rewrite Et|]. simpl.
  eexists. split; [done|].
  set (st4 := mkWs _ _ _ _ _ _ _).
  assert (Et5 : time s5 = current_time st2 + 1).
  { destruct Hstep5 as [_ -> _ _ _ _]. simpl. by rewrite Et. }
  assert (Et3 : current_time st3 = current_time st2) by by injection Ev3.
  assert (Ev4 : ws_view st4 = s5).
  { transitivity (with_time (current_time st3 + 1) (ws_view st3)); [done|]. rewrite Ev3, Et3.
    destruct s5. unfold with_time. simpl in *. by subst. }
  rewrite Ev4. split; [|done]. split; [by rewrite Ev4|]. exists ls2. unfold st4. simpl. rewrite Et3.
  by destruct Hk3'.
Qed.

End Correct.

(** ** The whole simulator *)

(** Processes enter when the clock equals their arrival time, so the arrivals
    must not be negative. *)
Definition ws_input (ps : list Process) : Prop :=
  valid_input ps ∧ Forall (λ p, 0 ≤ arrival_time p) ps.

Lemma ws_init_view ps m : valid_input ps → ws_view (ws_init ps m) = init_sim ps m.
Proof.
  intros (_ & _ & HF). unfold ws_view, ws_init, init_sim. simpl. f_equal.
  apply list_eq. intros i. apply option_eq. intros v. rewrite ws_flags_lookup.
  unfold init_running. rewrite lookup_replicate. split.
  - intros [Hi ->]. split; [|done]. destruct (ps !! i) as [p|] eqn:Hp; [|done].
    destruct (on_core (init_cpus m) (pid p)) eqn:E; [|done].
    apply on_core_true in E as (c & u & Hu & Eu). apply init_cpus_idle in Hu.
    rewrite Forall_lookup in HF. destruct (HF i p Hp). lia.
  - intros [-> Hi]. split; [done|]. destruct (ps !! i) as [p|] eqn:Hp; [|done].
    destruct (on_core (init_cpus m) (pid p)) eqn:E; [|done].
    apply on_core_true in E as (c & u & Hu & Eu). apply init_cpus_idle in Hu.
    rewrite Forall_lookup in HF. destruct (HF i p Hp). lia.
Qed.

Lemma concat_nils m : concat (replicate m (@nil Z)) = [].
Proof. induction m; done. Qed.

Lemma ws_init_ok ps m : ws_input ps → ws_state_ok ps m (ws_init ps m).
Proof.
  intros [Hv Ha]. split.
  - rewrite ws_init_view by done. pose proof (Inv_init ps m no_io Hv) as HI. destruct HI. split; try done.
    intros c i p _ Hb. by apply init_not_busy in Hb.
  - exists (replicate m []).
    assert (Hnb : ∀ c i, ¬ busy (ws_view (ws_init ps m)) c i).
    { intros c i Hb. rewrite ws_init_view in Hb by done. by eapply init_not_busy. }
    rewrite Forall_lookup in Ha. split; cbn [ws_init queues arrived ws_procs current_time].
    + apply length_replicate.
    + done.
    + intros i p Hp. pose proof (procs_lt ps Hv (init_sim ps m) eq_refl i p Hp).
      destruct (Z.ltb_spec (arrival_time p) 0); [specialize (Ha i p Hp); lia|].
      by apply lookup_replicate_2.
    + apply Forall2_replicate. apply empty_queue_rep.
    + rewrite concat_nils. constructor.
    + intros z. rewrite concat_nils. split; [by intros ?%not_elem_of_nil|].
      intros (i & p & _ & Hp & Hlt & _). specialize (Ha i p Hp). simpl in *. lia.
    + intros c i p Hb. by destruct (Hnb c i).
    + intros c q Hq. apply lookup_replicate in Hq as [-> _]. simpl. lia.
Qed.

Lemma run_ws_result ps m :
  ws_input ps → (0 < m)%nat →
  ∃ st, run_work_steal ps m = Some st ∧ Inv ps m no_io 0 (λ _, False) (ws_view st) ∧
    ∀ A, enough_time ps m A →
      completed_processes st = Z.of_nat (length ps) ∧
      current_time st ≤ A + sumZ (burst_time <$> ps) + 1.
Proof.
  intros Hin Hm. pose proof Hin as [Hv _]. pose proof (ws_system ps m Hv Hm) as Hsys.
  destruct (run_total ps m no_io Hv ws_view (ws_state_ok ps m) (ws_tick m) (ws_init ps m))
    as (st & E & _ & HI & _ & Hlive); [by apply ws_init_view|by apply ws_init_ok|].
  exists st. split_and!; [done..|]. intros A (? & ? & ? & ?). by apply Hlive.
Qed.

(** C33: on at least one core and a valid table the work-stealing simulator
    never fails (no queue overflows, no slot is misread), its Gantt chart is
    a legal multiprocessor schedule, and with enough simulated time every
    process is executed for exactly its burst: none is lost in a queue and
    none is run twice.  The turnaround times agree with the completion times;
    the waiting time is the documented one for the processes that do not wait
    for I/O (for the others the code leaves the I/O wait in). *)
Theorem run_work_steal_correct (ps : list Process) (num_cpus : nat)
    (Hv : ws_input ps) (Hm : (0 < num_cpus)%nat) :
  ∃ st, run_work_steal ps num_cpus = Some st ∧ schedule_ok ps (ws_view st) ∧
    ∀ A, enough_time ps num_cpus A →
      all_served ps (ws_view st) ∧ current_time st ≤ A + sumZ (burst_time <$> ps) + 1.
Proof.
  destruct (run_ws_result ps num_cpus Hv Hm) as (st & E & HI & Hlive).
  exists st. split_and!; [done|by eapply Inv_schedule_ok|].
  intros A HA. destruct (Hlive A HA) as [Hk Ht]. split; [|done].
  apply (all_complete_served ps no_io); [done|]. eapply Inv_all_complete; [apply Hv|done..].
Qed.

(** C34: no core stays idle while work is queued anywhere: after the assignment
    step of a tick, an idle core implies that every queue is empty. *)
Theorem ws_no_idle_core_with_work (ps : list Process) (num_cpus c k : nat) (st st1 st2 : WsSim)
    (q : CPUQueue) (Hv : ws_input ps) (Hm : (0 < num_cpus)%nat)
    (Hreach : rtc (loop_step ws_cond (ws_tick num_cpus)) (ws_init ps num_cpus) st)
    (HA : for_range 0 (length (ws_procs st)) (ws_arrive num_cpus) st = Some st1)
    (HB : for_range 0 num_cpus (ws_assign num_cpus) st1 = Some st2)
    (Hidle : idle (ws_view st2) c) (Hq : queues st2 !! k = Some q) :
  size q = 0.
Proof.
  pose proof Hv as [Hvi _].
  pose proof (ws_system ps num_cpus Hvi Hm) as Hsys.
  destruct (reach_inv ps num_cpus no_io Hvi ws_view (ws_state_ok ps num_cpus) (ws_tick num_cpus)
    (ws_init ps num_cpus) st) as [Hok _]; [by apply ws_init_view|by apply ws_init_ok|done|].
  destruct (ws_arrived ps num_cpus Hvi st Hm Hok) as (t1 & ls1 & E1 & Ev1 & Hk1).
  rewrite HA in E1. injection E1 as <-.
  destruct (ws_assigned ps num_cpus Hvi st1 ls1 Hk1) as (t2 & ls2 & E2 & Hk2 & _ & Hwc).
  { rewrite Ev1. apply Hok. }
  rewrite HB in E2. injection E2 as <-.
  destruct (Forall2_lookup_l _ _ _ _ _ (wq_reps _ _ _ _ Hk2) Hq) as (l & Hl & Hrep).
  rewrite (qr_size _ _ Hrep). destruct l as [|z l]; [done|]. exfalso.
  assert (Hz : z ∈ concat ls2).
  { apply list_elem_of_In, in_concat. exists (z :: l). split; [|by left].
    apply list_elem_of_In. by eapply list_elem_of_lookup_2. }
  apply (ws_elem_ready num_cpus st2 ls2 z Hk2) in Hz as (i & p & _ & Hr).
  by apply (Hwc c Hidle i p).
Qed.

(** ** Sample run *)

Lemma sample_ws : ws_input sample.
Proof. split; [exact sample_valid|]. repeat constructor; simpl; lia. Qed.

Lemma run_work_steal_correct_witness :
  ∃ st, run_work_steal sample 2 = Some st ∧ schedule_ok sample (ws_view st) ∧
    all_served sample (ws_view st) ∧
    current_time st ≤ 4 + sumZ (burst_time <$> sample) + 1.
Proof.
  destruct (run_work_steal_correct sample 2 sample_ws) as (st & H1 & H2 & H3); [lia|].
  destruct (H3 4 sample_enough) as [H4 H5].
  exists st. split; [exact H1|]. split; [exact H2|]. split; assumption.
Defined.

(** In the first tick only process 3 has arrived: core 1 stays idle. *)
Definition ws_arrived0 : WsSim :=
  default (ws_init sample 2) (for_range 0 5 (ws_arrive 2) (ws_init sample 2)).
Definition ws_assigned0 : WsSim :=
  default (ws_init sample 2) (for_range 0 2 (ws_assign 2) ws_arrived0).

Lemma ws_no_idle_core_with_work_witness :
  ∃ q, queues ws_assigned0 !! 0%nat = Some q ∧ size q = 0.
Proof.
  assert (H : ∃ q, queues ws_assigned0 !! 0%nat = Some q) by (eexists; vm_compute; reflexivity).
  destruct H as [q Hq]. exists q. split; [exact Hq|].
  apply (ws_no_idle_core_with_work sample 2 1 0 (ws_init sample 2) ws_arrived0 ws_assigned0 q sample_ws);
    [lia|apply rtc_refl|vm_compute; reflexivity|vm_compute; reflexivity| |exact Hq].
  eexists. split; vm_compute; reflexivity.
Defined.
