(* ===== verification/Rms.v ===== *)
(** * Partitioned rate-monotonic scheduling (rms.c)

    Reading and partitioning the tasks, the hyperperiod, the discrete
    simulation of every core and the schedulability test.  The floating-point
    unit is a parameter: the code's decisions are stated over an arbitrary
    [DoubleOps], and nothing proved about the simulation depends on it. *)

From Stdlib Require Import QArith.
From S2P Require Import Prelude SchedCore SchedInv.
Open Scope Z_scope.

(** ** Integer helpers *)

(** [while (b != 0) { t = a % b; a = b; b = t; }]; [|b|] decreases, so
    [|b| + 1] iterations are enough. *)
Fixpoint gcdi_loop (fuel : nat) (a b : Z) : option Z :=
  if b =? 0 then Some a else
  match fuel with
  | O => None
  | S f => gcdi_loop f b (Z.rem a b)
  end.

Definition gcdi (a b : Z) : option Z := gcdi_loop (Z.abs_nat b + 1) a b.

(** Division by zero is undefined behaviour. *)
Definition lcm_cap (a b cap : Z) : option Z :=
  g ← gcdi a b;
  if g =? 0 then None else
  let v := Z.quot a g * b in
  Some (if cap <? v then cap else v).

(** ** Doubles *)

Record DoubleOps := mkDouble {
  double : Type;
  d_of_int : Z → double;
  d_add : double → double → double;
  d_sub : double → double → double;
  d_mul : double → double → double;
  d_div : double → double → double;
  d_lt : double → double → bool;
  d_le : double → double → bool;
  d_eps : double }.   (* 1e-12 *)

Section Code.
Context (D : DoubleOps).

Definition pwi (x : double D) (n : nat) : double D :=
  Nat.iter n (λ r, d_mul D r x) (d_of_int D 1).

(** One bisection step on [(lo, hi)]. *)
Definition root_step (n : nat) (b : double D * double D) : double D * double D :=
  let '(lo, hi) := b in
  let mid := d_div D (d_add D lo hi) (d_of_int D 2) in
  if d_le D (d_of_int D 2) (pwi mid n) then (lo, mid) else (mid, hi).

Definition root2n (n : nat) : double D :=
  let '(lo, hi) := Nat.iter 80 (root_step n) (d_of_int D 1, d_of_int D 2) in
  d_div D (d_add D lo hi) (d_of_int D 2).

Definition rms_bound (n : nat) : double D :=
  match n with
  | O => d_of_int D 0
  | _ => d_mul D (d_of_int D (Z.of_nat n)) (d_sub D (root2n n) (d_of_int D 1))
  end.

(** ** Reading and partitioning *)

Inductive RmsError := InvalidTasks | InvalidCpus | AllocFailed | InvalidExec | InvalidPeriod.

(** Per task: execution time, period, core; per core: utilisation and count;
    and the process table, whose pid, burst and period the loop overwrites. *)
Record Tasks := mkTasks {
  e : list Z;
  p : list Z;
  a : list nat;
  su : list (double D);
  cnt : list nat;
  tprocs : list Process }.

Definition set_task (i : nat) (ei pi : Z) (q : Process) : Process :=
  mkProcess (Z.of_nat i + 1) (arrival_time q) ei (remaining_time q) (priority q) (deadline q) pi
    (io_wait_time q) (completion_time q) (turnaround_time q) (waiting_time q) (deadline_missed q).

Definition best_scan (su : list (double D)) (cnt : list nat) (c best : nat) : option nat :=
  sc ← su !! c; sb ← su !! best; nc ← cnt !! c; nb ← cnt !! best;
  Some (if d_lt D sc (d_sub D sb (d_eps D)) then c
        else if d_le D sc (d_add D sb (d_eps D)) && (nc <? nb)%nat then c else best).

Definition best_cpu (num_cpus : nat) (su : list (double D)) (cnt : list nat) : option nat :=
  for_range 1 (num_cpus - 1) (best_scan su cnt) 0%nat.

(** The body of the reading loop for a task whose two numbers were read. *)
Definition place (num_cpus : nat) (ei pi : Z) (t : Tasks) : option Tasks :=
  c ← best_cpu num_cpus (su t) (cnt t);
  s ← su t !! c; k ← cnt t !! c;
  su' ← aset (su t) c (d_add D s (d_div D (d_of_int D ei) (d_of_int D pi)));
  cnt' ← aset (cnt t) c (S k);
  let i := length (e t) in
  q ← tprocs t !! i;
  qs ← aset (tprocs t) i (set_task i ei pi q);
  Some (mkTasks (e t ++ [ei]) (p t ++ [pi]) (a t ++ [c]) su' cnt' qs).

(** [inputs]: the numbers [scanf] delivers, [None] where it fails. *)
Fixpoint read_tasks (num_cpus n : nat) (inputs : list (option Z)) (t : Tasks)
    : option (RmsError + Tasks) :=
  match n with
  | O => Some (inr t)
  | S n' =>
      match inputs with
      | Some ei :: rest =>
          if ei <=? 0 then Some (inl InvalidExec) else
          match rest with
          | Some pi :: rest' =>
              if pi <=? 0 then Some (inl InvalidPeriod) else
              t ← place num_cpus ei pi t;
              read_tasks num_cpus n' rest' t
          | _ => Some (inl InvalidPeriod)
          end
      | _ => Some (inl InvalidExec)
      end
  end.

(** [h = 1; for (i...) h = lcm_cap(h, p[i], MAX_TIME); if (h <= 0) h = 1;] *)
Fixpoint hyper_loop (ps : list Z) (h : Z) : option Z :=
  match ps with
  | [] => Some (if h <=? 0 then 1 else h)
  | pi :: ps' => h' ← lcm_cap h pi MAX_TIME; hyper_loop ps' h'
  end.
Definition hyperperiod (ps : list Z) : option Z := hyper_loop ps 1.

End Code.

(** ** The simulation

    The integer part of the state: remaining work, misses, the flat timeline
    [timeline[c * h + t]] and the busy counters. *)

Record RmsSim := mkRms {
  r : list Z;
  m : list Z;
  rtimeline : list Z;
  rbusy : list Z }.

(** [if (t % p[i] == 0) { if (t > 0 && r[i] > 0) m[i]++; r[i] += e[i]; }] *)
Definition release_job (es ps : list Z) (t : Z) (i : nat) (s : RmsSim) : option RmsSim :=
  pi ← ps !! i;
  if Z.rem t pi =? 0 then
    ri ← r s !! i; mi ← m s !! i; ei ← es !! i;
    mi' ← (if (0 <? t) && (0 <? ri) then int_add mi 1 else Some mi);
    m' ← aset (m s) i mi';
    ri' ← int_add ri ei;
    r' ← aset (r s) i ri';
    Some (mkRms r' m' (rtimeline s) (rbusy s))
  else Some s.

(** The ready task of core [c] with the smallest period, the lowest index
    among equals. *)
Definition pick_scan (ps : list Z) (asg : list nat) (rs : list Z) (c i : nat) (k : option nat)
    : option (option nat) :=
  ai ← asg !! i; ri ← rs !! i;
  if (Nat.eqb ai c) && (0 <? ri) then
    match k with
    | None => Some (Some i)
    | Some j =>
        pi ← ps !! i; pj ← ps !! j;
        Some (if (pi <? pj) || ((pi =? pj) && (i <? j)%nat) then Some i else Some j)
    end
  else Some k.

Definition pick (n : nat) (ps : list Z) (asg : list nat) (rs : list Z) (c : nat) : option (option nat) :=
  for_range 0 n (pick_scan ps asg rs c) None.

(** [c * h + t], computed in [int]. *)
Definition cell_of (c h t : nat) : option nat :=
  if is_int (Z.of_nat (c * h + t)) then Some (c * h + t)%nat else None.

Definition run_core (n : nat) (ps : list Z) (asg : list nat) (h t c : nat) (s : RmsSim) : option RmsSim :=
  k ← pick n ps asg (r s) c;
  match k with
  | None =>
      x ← cell_of c h t;
      tl ← aset (rtimeline s) x 0;
      Some (mkRms (r s) (m s) tl (rbusy s))
  | Some i =>
      x ← cell_of c h t;
      tl ← aset (rtimeline s) x (Z.of_nat i + 1);
      ri ← r s !! i;
      ri' ← int_add ri (-1);
      bc ← rbusy s !! c;
      bc' ← int_add bc 1;
      Some (mkRms (<[i:=ri']> (r s)) (m s) tl (<[c:=bc']> (rbusy s)))
  end.

Definition rms_tick (n num_cpus : nat) (es ps : list Z) (asg : list nat) (h t : nat) (s : RmsSim)
    : option RmsSim :=
  s ← for_range 0 n (release_job es ps (Z.of_nat t)) s;
  for_range 0 num_cpus (run_core n ps asg h t) s.

Definition rms_sim0 (n num_cpus h : nat) : RmsSim :=
  mkRms (replicate n 0) (replicate n 0) (replicate (num_cpus * h) 0) (replicate num_cpus 0).

Definition simulate (num_cpus : nat) (es ps : list Z) (asg : list nat) (h : nat) : option RmsSim :=
  for_range 0 h (rms_tick (length es) num_cpus es ps asg h) (rms_sim0 (length es) num_cpus h).

Definition total_miss (s : RmsSim) : Z := sumZ (m s).

(** ** The whole function *)

Section Run.
Context (D : DoubleOps).

Record RmsReport := mkReport {
  rep_tasks : Tasks D;
  rep_h : Z;
  rep_sim : RmsSim;
  rep_ok : list bool;
  rep_all_ok : bool }.

(** [ok[c] = (cnt[c] == 0) || (su[c] <= b[c] + 1e-12)] *)
Definition core_ok (s : double D) (k : nat) : bool :=
  (Nat.eqb k 0) || d_le D s (d_add D (rms_bound D k) (d_eps D)).

(** [alloc1] and [alloc2]: whether the allocations succeed. *)
Definition run_rms (alloc1 alloc2 : bool) (inputs : list (option Z)) (processes : list Process)
    (n num_cpus : Z) : option (RmsError + RmsReport) :=
  if n <=? 0 then Some (inl InvalidTasks) else
  if num_cpus <=? 0 then Some (inl InvalidCpus) else
  if negb alloc1 then Some (inl AllocFailed) else
  let nc := Z.to_nat num_cpus in
  rd ← read_tasks D nc (Z.to_nat n) inputs
         (mkTasks D [] [] [] (replicate nc (d_of_int D 0)) (replicate nc 0%nat) processes);
  match rd with
  | inl err => Some (inl err)
  | inr t =>
      h ← hyperperiod (p D t);
      if negb alloc2 then Some (inl AllocFailed) else
      s ← simulate nc (e D t) (p D t) (a D t) (Z.to_nat h);
      let oks := zip_with core_ok (su D t) (cnt D t) in
      Some (inr (mkReport t h s oks (forallb id oks)))
  end.

End Run.

(** An exact instance: rational arithmetic in lowest terms. *)
Definition QOps : DoubleOps :=
  mkDouble Q inject_Z (λ x y, Qred (x + y)) (λ x y, Qred (x - y)) (λ x y, Qred (x * y))
    (λ x y, Qred (x / y)) (λ x y, negb (Qle_bool y x)) Qle_bool (1 # 1000000000000).

(** ** The hyperperiod *)

Lemma gcdi_loop_ok fuel x y :
  0 ≤ x → 0 ≤ y → (Z.abs_nat y < fuel)%nat → gcdi_loop fuel x y = Some (Z.gcd x y).
Proof.
  revert x y. induction fuel as [|f IH]; intros x y Hx Hy Hf; [lia|]. simpl.
  destruct (Z.eqb_spec y 0) as [->|Hne]; [by rewrite Z.gcd_0_r, Z.abs_eq|].
  pose proof (Z.rem_bound_pos x y Hx ltac:(lia)) as Hrem. rewrite IH by lia.
  f_equal. rewrite Z.rem_mod_nonneg by lia. by rewrite Z.gcd_comm, Z.gcd_mod, Z.gcd_comm by lia.
Qed.

Lemma lcm_cap_ok x y cap : 0 < x → 0 < y → lcm_cap x y cap = Some (Z.min (Z.lcm x y) cap).
Proof.
  intros Hx Hy. unfold lcm_cap, gcdi. rewrite gcdi_loop_ok by lia. simpl.
  pose proof (Z.gcd_nonneg x y). pose proof (Z.gcd_eq_0_l x y).
  destruct (Z.eqb_spec (Z.gcd x y) 0); [lia|].
  rewrite Z.quot_div_nonneg by lia.
  assert (E : Z.lcm x y = x / Z.gcd x y * y).
  { destruct (Z.gcd_divide_l x y) as [x' Ex], (Z.gcd_divide_r x y) as [y' Ey].
    unfold Z.lcm. set (g := Z.gcd x y) in *.
    assert (Hxg : x / g = x') by (rewrite Ex; by apply Z.div_mul).
    assert (Hyg : y / g = y') by (rewrite Ey; by apply Z.div_mul).
    rewrite Hxg, Hyg, Z.abs_eq by nia. nia. }
  rewrite E. f_equal. destruct (Z.ltb_spec cap (x / Z.gcd x y * y)); lia.
Qed.

(** The least common multiple of a list of periods. *)
Definition lcm_list (ps : list Z) : Z := foldl Z.lcm 1 ps.

Lemma lcm_ge x y : 0 < x → 0 < y → x ≤ Z.lcm x y ∧ y ≤ Z.lcm x y.
Proof.
  intros Hx Hy. assert (0 < Z.lcm x y).
  { pose proof (Z.lcm_nonneg x y). pose proof (Z.lcm_eq_0 x y). lia. }
  split; (apply Z.divide_pos_le; [done|]); [apply Z.divide_lcm_l|apply Z.divide_lcm_r].
Qed.

Lemma lcm_min L q : 0 < L → 0 < q →
  Z.min (Z.lcm (Z.min L MAX_TIME) q) MAX_TIME = Z.min (Z.lcm L q) MAX_TIME.
Proof.
  intros HL Hq. pose proof (lcm_ge L q HL Hq). unfold MAX_TIME.
  destruct (Z.le_gt_cases L 1000); [by rewrite (Z.min_l L 1000)|].
  rewrite (Z.min_r L 1000) by lia. pose proof (lcm_ge 1000 q ltac:(lia) Hq). lia.
Qed.

Lemma hyper_loop_ok ps L :
  Forall (λ q, 0 < q) ps → 0 < L →
  hyper_loop ps (Z.min L MAX_TIME) = Some (Z.min (foldl Z.lcm L ps) MAX_TIME).
Proof.
  intros HF. revert L. induction HF as [|q ps Hq _ IH]; intros L HL; simpl.
  - destruct (Z.leb_spec (Z.min L MAX_TIME) 0); [unfold MAX_TIME in *; lia|done].
  - rewrite lcm_cap_ok by (unfold MAX_TIME; lia). simpl. rewrite lcm_min by done.
    apply IH. pose proof (lcm_ge L q HL Hq). lia.
Qed.

(** The simulation length is the least common multiple of all periods,
    capped at 1000, although every intermediate result is capped as well. *)
Theorem hyperperiod_is_lcm (ps : list Z) (Hpos : Forall (λ q, 0 < q) ps) :
  hyperperiod ps = Some (Z.min (lcm_list ps) MAX_TIME).
Proof. apply (hyper_loop_ok ps 1); [done|lia]. Qed.

(** ** Selection *)

(** Rate-monotonic order: smaller period, then smaller index. *)
Definition rm_before (ps : list Z) (i j : nat) : Prop :=
  ∃ x y, ps !! i = Some x ∧ ps !! j = Some y ∧ (x < y ∨ (x = y ∧ (i ≤ j)%nat)).

(** Task [i] has pending work on core [c]. *)
Definition pending (asg : list nat) (rs : list Z) (c i : nat) : Prop :=
  ∃ x, asg !! i = Some c ∧ rs !! i = Some x ∧ 0 < x.

Section Pick.
Context (n : nat) (ps : list Z) (asg : list nat) (rs : list Z) (c : nat).
Hypothesis Hps : length ps = n.
Hypothesis Hasg : length asg = n.
Hypothesis Hrs : length rs = n.

Lemma rm_before_refl i : (i < n)%nat → rm_before ps i i.
Proof using Hps.
  intros Hi. destruct (lookup_lt_is_Some_2 ps i) as [x Hx]; [by rewrite Hps|]. exists x, x. auto.
Qed.

Lemma pick_ok :
  ∃ k, pick n ps asg rs c = Some k ∧
    match k with
    | None => ∀ i, ¬ pending asg rs c i
    | Some j => pending asg rs c j ∧ ∀ i, pending asg rs c i → rm_before ps j i
    end.
Proof using Hps Hasg Hrs.
  assert (Hlt : ∀ i, pending asg rs c i → (i < n)%nat).
  { intros i (x & _ & Hx & _). apply lookup_lt_Some in Hx. lia. }
  destruct (for_range_total (λ i k, match k with
    | None => ∀ j, (j < i)%nat → ¬ pending asg rs c j
    | Some j => pending asg rs c j ∧ ∀ i', (i' < i)%nat → pending asg rs c i' → rm_before ps j i'
    end) (pick_scan ps asg rs c) 0 n None) as (k & E & Hk); [lia| |].
  2: { exists k. split; [done|]. destruct k as [j|].
       - split; [apply Hk|]. intros i Hi. by apply Hk; [apply Hlt|].
       - intros i Hi. apply (Hk i); [by apply Hlt|done]. }
  intros i k Hi Hk. unfold pick_scan.
  destruct (lookup_lt_is_Some_2 asg i) as [ai Ha]; [lia|].
  destruct (lookup_lt_is_Some_2 rs i) as [ri Hr]; [lia|]. rewrite Ha, Hr. simpl.
  assert (Hpi : pending asg rs c i ↔ (Nat.eqb ai c) && (0 <? ri) = true).
  { rewrite andb_true_iff, Nat.eqb_eq, Z.ltb_lt. unfold pending. split.
    - intros (x & ? & ? & ?). simplify_eq. done.
    - intros [-> ?]. by exists ri. }
  destruct ((Nat.eqb ai c) && (0 <? ri)).
  - assert (Hp : pending asg rs c i) by by apply Hpi. destruct k as [j|].
    + destruct Hk as [Hj Hbest]. pose proof (Hlt j Hj).
      destruct (lookup_lt_is_Some_2 ps i) as [pi Ei]; [lia|].
      destruct (lookup_lt_is_Some_2 ps j) as [pj Ej]; [lia|]. rewrite Ei, Ej. simpl.
      eexists. split; [done|].
      destruct (Z.ltb_spec pi pj), (Z.eqb_spec pi pj), (Nat.ltb_spec i j); simpl;
        (split; [done|]); intros i' Hi' Hpi';
        (destruct (decide (i' = i)) as [->|Hne]; [try (by apply rm_before_refl; lia);
          exists pj, pi; split_and!; try done; lia|]);
        destruct (Hbest i' ltac:(lia) Hpi') as (x & y & Hx & Hy & Hxy); simplify_eq;
        try (by exists pj, y; split_and!; try done; lia); exists pi, y; split_and!; try done; lia.
    + eexists. split; [done|]. split; [done|]. intros i' Hi' Hpi'.
      destruct (decide (i' = i)) as [->|Hne]; [apply rm_before_refl; lia|].
      by destruct (Hk i' ltac:(lia)).
  - exists k. split; [done|].
    assert (Hnp : ¬ pending asg rs c i) by (by rewrite Hpi). destruct k as [j|].
    + split; [apply Hk|]. intros i' Hi' Hpi'. destruct (decide (i' = i)) as [->|Hne]; [done|].
      apply Hk; [lia|done].
    + intros i' Hi'. destruct (decide (i' = i)) as [->|Hne]; [done|]. apply Hk. lia.
Qed.

End Pick.

(** ** Accounting *)

(** Jobs of a task with period [q] released before time [t]. *)
Definition released (q : Z) (t : nat) : Z := (Z.of_nat t + q - 1) / q.

Lemma released_S q t : 0 < q →
  released q (S t) = released q t + (if Z.rem (Z.of_nat t) q =? 0 then 1 else 0).
Proof.
  intros Hq. unfold released. rewrite Z.rem_mod_nonneg by lia.
  pose proof (Z.div_mod (Z.of_nat t) q ltac:(lia)) as Hd.
  pose proof (Z.mod_pos_bound (Z.of_nat t) q Hq).
  set (d := Z.of_nat t / q) in *. set (y := Z.of_nat t mod q) in *.
  assert (E1 : (Z.of_nat (S t) + q - 1) / q = d + 1).
  { symmetry. apply (Z.div_unique _ _ _ y); lia. }
  rewrite E1. destruct (Z.eqb_spec y 0) as [E|E].
  - assert ((Z.of_nat t + q - 1) / q = d); [|lia]. symmetry. apply (Z.div_unique _ _ _ (q - 1)); lia.
  - assert ((Z.of_nat t + q - 1) / q = d + 1); [|lia]. symmetry. apply (Z.div_unique _ _ _ (y - 1)); lia.
Qed.

Lemma released_multiple q t : 0 < q → Z.rem (Z.of_nat t) q = 0 → released q t = Z.of_nat t / q.
Proof.
  intros Hq. rewrite Z.rem_mod_nonneg by lia. intros Hz.
  pose proof (Z.div_mod (Z.of_nat t) q ltac:(lia)) as Hd. unfold released.
  symmetry. apply (Z.div_unique _ _ _ (q - 1)); lia.
Qed.

Lemma released_mono q t t' : 0 < q → (t ≤ t')%nat → 0 ≤ released q t ≤ released q t'.
Proof. intros Hq Ht. unfold released. split; [apply Z.div_pos; lia|apply Z.div_le_mono; lia]. Qed.

(** What the simulation computes is in the range of [int]: the length, the
    index of a cell of the timeline, and the work released for each task. *)
Record fits_int (num_cpus : nat) (es ps : list Z) (h : nat) : Prop := {
  ft_length : Z.of_nat h < 2 ^ 31;
  ft_cells : Z.of_nat (num_cpus * h) < 2 ^ 31;
  ft_work : ∀ i ei pi, es !! i = Some ei → ps !! i = Some pi → ei * released pi h < 2 ^ 31 }.

Section Account.
Context (num_cpus : nat) (es ps : list Z) (asg : list nat) (h : nat).
Local Abbreviation n := (length es).
Hypothesis Hps : length ps = n.
Hypothesis Hasg : length asg = n.
Hypothesis Hes_pos : Forall (λ x, 0 < x) es.
Hypothesis Hps_pos : Forall (λ x, 0 < x) ps.
Hypothesis Hfit : fits_int num_cpus es ps h.

(** Milliseconds the timeline gives task [i] in the columns before [t]. *)
Definition done_before (tl : list Z) (i t : nat) : nat :=
  count (λ x, bool_decide (tl !! x = Some (Z.of_nat i + 1)) && (x mod h <? t)%nat) (num_cpus * h).

(** At time [t] a job of task [i] arrives while earlier work is unfinished. *)
Definition late (tl : list Z) (i t : nat) : bool :=
  match es !! i, ps !! i with
  | Some ei, Some pi =>
      (0 <? t)%nat && (Z.rem (Z.of_nat t) pi =? 0) &&
      (Z.of_nat (done_before tl i t) <? ei * (Z.of_nat t / pi))
  | _, _ => false
  end.

(** The state in tick [t]: task [i] was released up to [b i], the cores below
    [c] have run. *)
Record account (b : nat → nat) (t c : nat) (s : RmsSim) : Prop := {
  ac_r : length (r s) = n;
  ac_m : length (m s) = n;
  ac_tl : length (rtimeline s) = (num_cpus * h)%nat;
  ac_busy : length (rbusy s) = num_cpus;
  ac_left : ∀ i x ei pi, r s !! i = Some x → es !! i = Some ei → ps !! i = Some pi →
    0 ≤ x ∧ x = ei * released pi (b i) - Z.of_nat (done_before (rtimeline s) i (S t));
  ac_miss : ∀ i y, m s !! i = Some y → y = Z.of_nat (count (late (rtimeline s) i) (b i));
  ac_future : ∀ x v, rtimeline s !! x = Some v →
    ((t < x mod h) ∨ (x mod h = t ∧ c ≤ x / h))%nat → v = 0;
  ac_cell : ∀ x v, rtimeline s !! x = Some v →
    v = 0 ∨ ∃ i, v = Z.of_nat i + 1 ∧ asg !! i = Some (x / h)%nat;
  ac_used : ∀ k y, rbusy s !! k = Some y →
    y = Z.of_nat (count (λ x, bool_decide (x / h = k)%nat && bool_decide (rtimeline s !! x ≠ Some 0))
      (num_cpus * h)) }.

Lemma cell_col c t : (t < h)%nat → ((c * h + t) mod h = t)%nat ∧ ((c * h + t) / h = c)%nat.
Proof.
  intros Ht. split.
  - rewrite Nat.add_comm, Nat.Div0.mod_add. by apply Nat.mod_small.
  - rewrite Nat.div_add_l by lia. rewrite Nat.div_small by lia. lia.
Qed.

(** Filling the empty cell [x] of column [t]. *)
Lemma done_before_insert tl x v i t' :
  (x < num_cpus * h)%nat → length tl = (num_cpus * h)%nat → tl !! x = Some 0 →
  done_before (<[x:=v]> tl) i t' =
  (done_before tl i t' + if bool_decide ((v = Z.of_nat i + 1)%Z) && (x mod h <? t') then 1 else 0)%nat.
Proof.
  intros Hx Hl H0. unfold done_before.
  set (f1 := λ y, bool_decide (tl !! y = Some (Z.of_nat i + 1)) && (y mod h <? t')%nat).
  set (f2 := λ y, bool_decide (<[x:=v]> tl !! y = Some (Z.of_nat i + 1)) && (y mod h <? t')%nat).
  pose proof (count_change f1 f2 (num_cpus * h) x Hx) as Hc.
  assert (E1 : f1 x = false).
  { unfold f1. rewrite H0, bool_decide_false; [done|]. intros [= ?]. lia. }
  assert (E2 : f2 x = bool_decide (v = Z.of_nat i + 1) && (x mod h <? t')%nat).
  { unfold f2. rewrite list_lookup_insert_eq by (by rewrite Hl). f_equal. apply bool_decide_ext.
    split; [by intros [= ?]|by intros ->]. }
  rewrite E1, E2 in Hc. specialize (Hc ltac:(intros j _ Hj; unfold f1, f2; by rewrite list_lookup_insert_ne)).
  fold f1 f2. lia.
Qed.

(** Filling a cell of column [t] changes nothing about earlier deadlines. *)
Lemma late_insert tl x v i t' :
  (x < num_cpus * h)%nat → length tl = (num_cpus * h)%nat → tl !! x = Some 0 →
  (t' ≤ x mod h)%nat → late (<[x:=v]> tl) i t' = late tl i t'.
Proof.
  intros Hx Hl H0 Ht. unfold late. rewrite done_before_insert by done.
  destruct (Nat.ltb_spec (x mod h) t'); [lia|]. by rewrite andb_false_r, Nat.add_0_r.
Qed.

Lemma es_lookup i : (i < n)%nat → ∃ ei pi, es !! i = Some ei ∧ ps !! i = Some pi ∧ 0 < ei ∧ 0 < pi.
Proof.
  intros Hi. destruct (lookup_lt_is_Some_2 es i Hi) as [ei He].
  destruct (lookup_lt_is_Some_2 ps i) as [pi Hp]; [by rewrite Hps|].
  exists ei, pi. split_and!; try done; [by eapply (Forall_lookup_1 _ _ _ _ Hes_pos)|
    by eapply (Forall_lookup_1 _ _ _ _ Hps_pos)].
Qed.

(** Before column [t] is filled, [t] and [S t] columns hold the same. *)
Lemma done_before_empty b t s i :
  account b t 0 s → done_before (rtimeline s) i (S t) = done_before (rtimeline s) i t.
Proof.
  intros HA. apply count_ext. intros x Hx.
  destruct (decide (x mod h = t)%nat) as [E|Hne].
  - destruct (lookup_lt_is_Some_2 (rtimeline s) x) as [v Hv]; [by rewrite (ac_tl _ _ _ _ HA)|].
    rewrite Hv. rewrite (ac_future _ _ _ _ HA x v Hv) by lia.
    by rewrite bool_decide_false by (intros [= ?]; lia).
  - f_equal. destruct (Nat.ltb_spec (x mod h) (S t)), (Nat.ltb_spec (x mod h) t); (done || lia).
Qed.

Lemma release_ok t i s :
  (t < h)%nat → (i < n)%nat → account (λ j, if decide (j < i)%nat then S t else t) t 0 s →
  ∃ s', release_job es ps (Z.of_nat t) i s = Some s' ∧
    account (λ j, if decide (j < S i)%nat then S t else t) t 0 s'.
Proof.
  intros Ht Hi HA. destruct (es_lookup i Hi) as (ei & pi & He & Hp & Hpe & Hpp).
  pose proof (done_before_empty _ _ _ i HA) as Hdone.
  destruct HA as [A1 A2 A3 A4 A5 A6 A7 A8 A9].
  destruct (lookup_lt_is_Some_2 (r s) i) as [ri Hr]; [by rewrite A1|].
  destruct (lookup_lt_is_Some_2 (m s) i) as [mi Hm]; [by rewrite A2|].
  destruct (A5 i ri ei pi Hr He Hp) as [Hr0 Hr1]. pose proof (A6 i mi Hm) as Hm1.
  rewrite decide_False in Hr1, Hm1 by lia. pose proof (released_S pi t Hpp) as HrelS.
  assert (Hb : ∀ j, j ≠ i → (if decide (j < S i)%nat then S t else t) = (if decide (j < i)%nat then S t else t)).
  { intros j Hj. repeat destruct decide; lia. }
  assert (Hbi : (if decide (i < S i)%nat then S t else t) = S t) by (rewrite decide_True; lia).
  assert (Hlate : late (rtimeline s) i t =
    (0 <? t)%nat && (Z.rem (Z.of_nat t) pi =? 0) && (0 <? ri)).
  { unfold late. rewrite He, Hp. destruct (Z.eqb_spec (Z.rem (Z.of_nat t) pi) 0) as [Hz|]; simpl;
      [|by rewrite andb_false_r]. f_equal. rewrite <- (released_multiple pi t) by done.
    rewrite <- Hdone. destruct (Z.ltb_spec 0 ri), (Z.ltb_spec (Z.of_nat (done_before (rtimeline s) i (S t)))
      (ei * released pi t)); (done || lia). }
  unfold release_job. rewrite Hp. simpl.
  destruct (Z.rem (Z.of_nat t) pi =? 0) eqn:Erem.
  - rewrite Hr, Hm, He. simpl. rewrite andb_true_r in Hlate.
    replace (0 <? Z.of_nat t) with (0 <? t)%nat in * by
      (destruct (Nat.ltb_spec 0 t), (Z.ltb_spec 0 (Z.of_nat t)); (done || lia)).
    remember (mi + Z.of_nat (if (0 <? t)%nat && (0 <? ri) then 1 else 0)) as mi' eqn:Hmi'.
    pose proof (count_bound (late (rtimeline s) i) t). pose proof (ft_length _ _ _ _ Hfit).
    assert (Emi : (if (0 <? t)%nat && (0 <? ri) then int_add mi 1 else Some mi) = Some mi').
    { rewrite Hmi'. destruct (_ && _); [apply int_add_ok; lia|f_equal; lia]. }
    rewrite Emi. simpl. rewrite aset_Some by (by rewrite A2). simpl.
    pose proof (ft_work _ _ _ _ Hfit i ei pi He Hp). pose proof (released_mono pi (S t) h Hpp ltac:(lia)).
    assert (ri + ei ≤ ei * released pi (S t)) by (rewrite HrelS; lia).
    assert (ei * released pi (S t) ≤ ei * released pi h) by (apply Z.mul_le_mono_nonneg_l; lia).
    rewrite int_add_ok by lia. simpl.
    rewrite aset_Some by (by rewrite A1). simpl. eexists. split; [done|].
    split; simpl; rewrite ?length_insert; try done.
    + intros j x ej pj Hx Hej Hpj. destruct (decide (j = i)) as [->|Hne].
      * rewrite list_lookup_insert_eq in Hx by (by rewrite A1). simplify_eq. rewrite Hbi. lia.
      * rewrite list_lookup_insert_ne in Hx by done. rewrite Hb by done. by apply A5.
    + intros j y Hy. destruct (decide (j = i)) as [->|Hne].
      * rewrite Hbi. simpl. rewrite Hlate. rewrite list_lookup_insert_eq in Hy by (by rewrite A2).
        injection Hy as <-. rewrite Hmi'. destruct ((0 <? t)%nat && (0 <? ri)); lia.
      * rewrite Hb by done. apply A6. by rewrite list_lookup_insert_ne in Hy.
  - exists s. split; [done|]. split; try done.
    + intros j x ej pj Hx Hej Hpj. destruct (decide (j = i)) as [->|Hne]; [|rewrite Hb by done; by apply A5].
      simplify_eq. rewrite Hbi. lia.
    + intros j y Hy. destruct (decide (j = i)) as [->|Hne]; [|rewrite Hb by done; by apply A6].
      simplify_eq. rewrite Hbi. simpl. rewrite Hlate, andb_false_r. simpl. done.
Qed.

(** The busy counter of a core counts its filled cells. *)
Lemma used_insert tl x v k :
  (x < num_cpus * h)%nat → length tl = (num_cpus * h)%nat → tl !! x = Some 0 →
  let used tl := count (λ y, bool_decide (y / h = k)%nat && bool_decide (tl !! y ≠ Some 0)) (num_cpus * h) in
  used (<[x:=v]> tl) =
  (used tl + if bool_decide (x / h = k)%nat && bool_decide ((v ≠ 0)%Z) then 1 else 0)%nat.
Proof.
  intros Hx Hl H0 used. unfold used.
  pose proof (count_change (λ y, bool_decide (y / h = k)%nat && bool_decide (tl !! y ≠ Some 0))
    (λ y, bool_decide (y / h = k)%nat && bool_decide (<[x:=v]> tl !! y ≠ Some 0)) (num_cpus * h) x Hx) as Hc.
  simpl in Hc. rewrite H0, list_lookup_insert_eq in Hc by (by rewrite Hl).
  rewrite (bool_decide_false (Some 0 ≠ Some 0)) in Hc by naive_solver. rewrite andb_false_r in Hc.
  rewrite (bool_decide_ext (Some v ≠ Some 0) (v ≠ 0)) in Hc by naive_solver.
  rewrite Nat.add_0_r in Hc. symmetry. apply Hc. intros j _ Hj. by rewrite list_lookup_insert_ne.
Qed.

Lemma late_count_insert tl x v i k :
  (x < num_cpus * h)%nat → length tl = (num_cpus * h)%nat → tl !! x = Some 0 →
  (k ≤ S (x mod h))%nat → count (late (<[x:=v]> tl) i) k = count (late tl i) k.
Proof. intros. apply count_ext. intros t' Ht'. apply late_insert; (done || lia). Qed.

Lemma cell_index c t : (c < num_cpus)%nat → (t < h)%nat → (c * h + t < num_cpus * h)%nat.
Proof. intros Hc Ht. assert ((c + 1) * h ≤ num_cpus * h)%nat by (apply Nat.mul_le_mono_r; lia). lia. Qed.

Section RunCore.
Context (t c : nat) (s : RmsSim).
Hypothesis Ht : (t < h)%nat.
Hypothesis Hc : (c < num_cpus)%nat.
Hypothesis HA : account (λ _, S t) t c s.

(** Writing cell [(c, t)] with a task number or with 0. *)
Lemma account_write v r' busy' :
  length r' = n → length busy' = num_cpus →
  (v = 0 ∨ ∃ i, v = Z.of_nat i + 1 ∧ asg !! i = Some c) →
  (∀ i x, r' !! i = Some x → ∃ x0, r s !! i = Some x0 ∧
     x = x0 - (if bool_decide (v = Z.of_nat i + 1) then 1 else 0) ∧ 0 ≤ x) →
  (∀ k y, busy' !! k = Some y → ∃ y0, rbusy s !! k = Some y0 ∧
     y = y0 + (if bool_decide (k = c) && bool_decide (v ≠ 0) then 1 else 0)) →
  account (λ _, S t) t (S c) (mkRms r' (m s) (<[(c * h + t)%nat:=v]> (rtimeline s)) busy').
Proof.
  intros Hl Hlb Hv Hr Hb. destruct HA as [A1 A2 A3 A4 A5 A6 A7 A8 A9].
  destruct (cell_col c t Ht) as [Ecol Ecore]. pose proof (cell_index c t Hc Ht) as Hx.
  set (x0 := (c * h + t)%nat) in *.
  assert (H0 : rtimeline s !! x0 = Some 0).
  { destruct (lookup_lt_is_Some_2 (rtimeline s) x0) as [w Hw]; [by rewrite A3|].
    by rewrite (A7 x0 w Hw) in Hw by lia. }
  split; cbn [r m rtimeline rbusy]; rewrite ?length_insert; try done.
  - intros i x ei pi Hxi He Hp. destruct (Hr i x Hxi) as (xi & Hxi0 & -> & Hpos). split; [done|].
    destruct (A5 i xi ei pi Hxi0 He Hp) as [_ ->]. rewrite done_before_insert by done.
    rewrite Ecol. destruct (Nat.ltb_spec t (S t)); [|lia]. rewrite andb_true_r.
    repeat case_bool_decide; lia.
  - intros i y Hy. rewrite (A6 i y Hy). f_equal. symmetry. apply late_count_insert; try done. lia.
  - intros x w Hw Hfut. apply list_lookup_insert_Some in Hw as [(<- & <- & _)|(Hne & Hw)]; [lia|].
    apply (A7 x w Hw). destruct Hfut as [?|[? ?]]; [by left|right; lia].
  - intros x w Hw. apply list_lookup_insert_Some in Hw as [(<- & <- & _)|(Hne & Hw)]; [|by apply A8].
    by rewrite Ecore.
  - intros k y Hy. destruct (Hb k y Hy) as (y0 & Hy0 & ->). rewrite (A9 k y0 Hy0).
    rewrite used_insert by done. rewrite Ecore. rewrite (bool_decide_ext (c = k)%nat (k = c)) by (split; done).
    destruct (_ && _); lia.
Qed.

(** The counters the tick changes have room. *)
Lemma left_range i x : r s !! i = Some x → 0 ≤ x < 2 ^ 31.
Proof.
  intros Hi. destruct (es_lookup i) as (ei & pi & He & Hp & Hpe & Hpp).
  { apply lookup_lt_Some in Hi. by rewrite (ac_r _ _ _ _ HA) in Hi. }
  destruct (ac_left _ _ _ _ HA i x ei pi Hi He Hp) as [H0 Hwork].
  pose proof (ft_work _ _ _ _ Hfit i ei pi He Hp). pose proof (released_mono pi (S t) h Hpp ltac:(lia)).
  assert (ei * released pi (S t) ≤ ei * released pi h) by (apply Z.mul_le_mono_nonneg_l; lia). lia.
Qed.

Lemma busy_range y : rbusy s !! c = Some y → 0 ≤ y < Z.of_nat (num_cpus * h).
Proof.
  intros Hy. rewrite (ac_used _ _ _ _ HA c y Hy).
  set (used := λ x, bool_decide (x / h = c)%nat && bool_decide (rtimeline s !! x ≠ Some 0)).
  assert (count used (num_cpus * h) < num_cpus * h)%nat; [|lia].
  eapply Nat.lt_le_trans; [|apply (count_bound (λ _, true))].
  pose proof (cell_index c t Hc Ht) as Hx.
  apply (count_lt _ _ _ (c * h + t)); [done|done| |done]. unfold used.
  destruct (lookup_lt_is_Some_2 (rtimeline s) (c * h + t)) as [w Hw]; [by rewrite (ac_tl _ _ _ _ HA)|]. rewrite Hw.
  destruct (cell_col c t Ht) as [Ecol Ecore]. rewrite (ac_future _ _ _ _ HA _ w Hw) by lia.
  rewrite (bool_decide_false (_ ≠ _)) by naive_solver. apply andb_false_r.
Qed.

Lemma run_core_ok :
  ∃ s', run_core n ps asg h t c s = Some s' ∧ account (λ _, S t) t (S c) s' ∧
    ∃ v, rtimeline s' !! (c * h + t)%nat = Some v ∧
      ((v = 0 ∧ ∀ i, ¬ pending asg (r s) c i) ∨
       ∃ k, v = Z.of_nat k + 1 ∧ pending asg (r s) c k ∧
         ∀ i, pending asg (r s) c i → rm_before ps k i).
Proof.
  pose proof (cell_index c t Hc Ht) as Hx. pose proof (ac_tl _ _ _ _ HA) as Htl.
  assert (Hx' : (c * h + t < length (rtimeline s))%nat) by (by rewrite Htl).
  pose proof (ft_cells _ _ _ _ Hfit) as Hcells.
  assert (Ecell : cell_of c h t = Some (c * h + t)%nat) by (unfold cell_of; rewrite is_int_true; [done|lia]).
  unfold run_core.
  destruct (pick_ok n ps asg (r s) c Hps Hasg (ac_r _ _ _ _ HA)) as (k & -> & Hk). simpl.
  destruct k as [k|].
  - destruct Hk as [Hpend Hbest]. pose proof Hpend as (ri & Hak & Hri & Hpos).
    destruct (lookup_lt_is_Some_2 (rbusy s) c) as [bc Hbc]; [by rewrite (ac_busy _ _ _ _ HA)|].
    rewrite Ecell. simpl. rewrite aset_Some by done. simpl. rewrite Hri. simpl.
    pose proof (left_range k ri Hri).
    rewrite int_add_ok by lia. simpl. rewrite Hbc. simpl.
    pose proof (busy_range bc Hbc).
    rewrite int_add_ok by lia. simpl.
    eexists. split; [done|]. split.
    + apply account_write.
      * rewrite length_insert. apply HA.
      * rewrite length_insert. apply HA.
      * right. by exists k.
      * intros i x Hi. apply list_lookup_insert_Some in Hi as [(<- & <- & _)|(Hne & Hi)].
        -- exists ri. rewrite bool_decide_true by done. split_and!; (done || lia).
        -- exists x. pose proof (left_range i x Hi). rewrite bool_decide_false by lia. split_and!; (done || lia).
      * intros j y Hj. apply list_lookup_insert_Some in Hj as [(<- & <- & _)|(Hne & Hj)].
        -- exists bc. rewrite !bool_decide_true by lia. done.
        -- exists y. rewrite (bool_decide_false (j = c)) by congruence. simpl. split; [done|lia].
    + exists (Z.of_nat k + 1). simpl. rewrite list_lookup_insert_eq by done. split; [done|].
      right. by exists k.
  - rewrite Ecell. simpl. rewrite aset_Some by done. simpl. eexists. split; [done|]. split.
    + apply account_write; [apply HA|apply HA|by left| |].
      * intros i x Hi. exists x. pose proof (left_range i x Hi). rewrite bool_decide_false by lia. split_and!; (done || lia).
      * intros j y Hj. exists y. rewrite (bool_decide_false (0 ≠ 0)) by naive_solver.
        rewrite andb_false_r. split; [done|lia].
    + exists 0. simpl. rewrite list_lookup_insert_eq by done. split; [done|]. by left.
Qed.

End RunCore.

(** Between ticks. *)
Definition account_at (t : nat) (s : RmsSim) : Prop := account (λ _, t) t 0 s.

Lemma release_loop t s :
  (t < h)%nat → account_at t s →
  ∃ s', for_range 0 n (release_job es ps (Z.of_nat t)) s = Some s' ∧ account (λ _, S t) t 0 s'.
Proof.
  intros Ht HA.
  destruct (for_range_total (λ i, account (λ j, if decide (j < i)%nat then S t else t) t 0)
    (release_job es ps (Z.of_nat t)) 0 n s) as (s' & E & HA').
  - destruct HA as [A1 A2 A3 A4 A5 A6 A7 A8 A9]. by split.
  - intros i s1 Hi. apply release_ok; [done|lia].
  - exists s'. split; [done|]. destruct HA' as [A1 A2 A3 A4 A5 A6 A7 A8 A9]. split; try done.
    + intros i x ei pi Hx He Hp. specialize (A5 i x ei pi Hx He Hp).
      rewrite decide_True in A5; [done|]. apply lookup_lt_Some in He. simpl. lia.
    + intros i y Hy. specialize (A6 i y Hy).
      rewrite decide_True in A6; [done|]. apply lookup_lt_Some in Hy. simpl. lia.
Qed.

Lemma run_cores t s c :
  (t < h)%nat → (c ≤ num_cpus)%nat → account (λ _, S t) t 0 s →
  ∃ s', for_range 0 c (run_core n ps asg h t) s = Some s' ∧ account (λ _, S t) t c s'.
Proof.
  intros Ht Hc HA.
  destruct (for_range_total (λ c, account (λ _, S t) t c) (run_core n ps asg h t) 0 c s)
    as (s' & E & HA'); [done| |by eauto].
  intros k s1 Hk HA1. destruct (run_core_ok t k s1) as (s2 & ? & ? & _); [done|lia|done|eauto].
Qed.

Lemma rms_tick_ok t s :
  (t < h)%nat → account_at t s →
  ∃ s', rms_tick n num_cpus es ps asg h t s = Some s' ∧ account_at (S t) s'.
Proof.
  intros Ht HA. unfold rms_tick. destruct (release_loop t s Ht HA) as (s1 & -> & HA1). simpl.
  destruct (run_cores t s1 num_cpus Ht (le_n _) HA1) as (s2 & -> & HA2). eexists. split; [done|].
  destruct HA2 as [A1 A2 A3 A4 A5 A6 A7 A8 A9]. split; try done.
  - intros i x ei pi Hx He Hp. destruct (A5 i x ei pi Hx He Hp) as [H0 ->]. split; [done|].
    do 2 f_equal. apply count_ext. intros y Hy.
    destruct (decide (y mod h = S t)%nat) as [E|Hne].
    + destruct (lookup_lt_is_Some_2 (rtimeline s2) y) as [v Hv]; [by rewrite A3|].
      rewrite Hv, (A7 y v Hv) by lia. by rewrite bool_decide_false by (intros [= ?]; lia).
    + f_equal. destruct (Nat.ltb_spec (y mod h) (S t)), (Nat.ltb_spec (y mod h) (S (S t))); (done || lia).
  - intros x v Hv Hfut. apply (A7 x v Hv). lia.
Qed.

Lemma account_init : account_at 0 (rms_sim0 n num_cpus h).
Proof.
  split; simpl; try apply length_replicate.
  - intros i x ei pi Hx He Hp. apply lookup_replicate in Hx as [-> _]. split; [done|].
    assert (0 < pi) by (by eapply (Forall_lookup_1 _ _ _ _ Hps_pos)).
    unfold released. rewrite Z.div_small by (simpl; lia).
    unfold done_before. rewrite count_none; [lia|]. intros y Hy.
    rewrite lookup_replicate_2 by done. by rewrite bool_decide_false by (intros [= ?]; lia).
  - intros i y Hy. by apply lookup_replicate in Hy as [-> _].
  - intros x v Hv _. by apply lookup_replicate in Hv as [-> _].
  - intros x v Hv. left. by apply lookup_replicate in Hv as [-> _].
  - intros k y Hy. apply lookup_replicate in Hy as [-> _]. rewrite count_none; [done|].
    intros x Hx. rewrite lookup_replicate_2 by done. rewrite (bool_decide_false (_ ≠ _)) by naive_solver.
    by rewrite andb_false_r.
Qed.

Lemma simulate_upto t :
  (t ≤ h)%nat →
  ∃ s, for_range 0 t (rms_tick n num_cpus es ps asg h) (rms_sim0 n num_cpus h) = Some s ∧ account_at t s.
Proof.
  intros Ht. apply (for_range_total account_at); [apply account_init|].
  intros k s Hk. apply rms_tick_ok. lia.
Qed.

End Account.

(** Inputs of the simulation: as many periods and cores as execution times,
    all positive. *)
Record task_set (es ps : list Z) (asg : list nat) : Prop := {
  ts_ps : length ps = length es;
  ts_asg : length asg = length es;
  ts_es : Forall (λ x, 0 < x) es;
  ts_pos : Forall (λ x, 0 < x) ps }.

Lemma done_before_all num_cpus h tl i :
  done_before num_cpus h tl i (S h) = done_before num_cpus h tl i h.
Proof.
  apply count_ext. intros x Hx. f_equal. destruct h as [|h']; [lia|].
  pose proof (Nat.mod_upper_bound x (S h')).
  destruct (Nat.ltb_spec (x mod S h') (S (S h'))), (Nat.ltb_spec (x mod S h') (S h')); (done || lia).
Qed.

(** C35: the simulation never fails and accounts for every millisecond: what
    remains of a task at the end is its released work (one job per period)
    minus the cells of the timeline that show it, never negative; a core only
    shows tasks of its own partition; the busy counter of a core is the number
    of its non-idle columns; and the miss counter of a task is the number of
    its release instants before the end at which earlier jobs were unfinished.
    The work released for each task (and the number of cells) is below 2^31,
    so that no [int] overflows. *)
Theorem rms_simulation_accounts (num_cpus : nat) (es ps : list Z) (asg : list nat) (h : nat)
    (Hts : task_set es ps asg) (Hfit : fits_int num_cpus es ps h) :
  ∃ s, simulate num_cpus es ps asg h = Some s ∧
    (∀ i x ei pi, r s !! i = Some x → es !! i = Some ei → ps !! i = Some pi →
       0 ≤ x ∧ x = ei * released pi h - Z.of_nat (done_before num_cpus h (rtimeline s) i h)) ∧
    (∀ x v, rtimeline s !! x = Some v →
       v = 0 ∨ ∃ i, v = Z.of_nat i + 1 ∧ asg !! i = Some (x / h)%nat) ∧
    (∀ c y, rbusy s !! c = Some y →
       y = Z.of_nat (count (λ x, bool_decide (x / h = c)%nat &&
             bool_decide (rtimeline s !! x ≠ Some 0)) (num_cpus * h))) ∧
    (∀ i y, m s !! i = Some y →
       y = Z.of_nat (count (late num_cpus es ps h (rtimeline s) i) h)).
Proof.
  destruct Hts as [H1 H2 H3 H4].
  destruct (simulate_upto num_cpus es ps asg h H1 H2 H3 H4 Hfit h (le_n h)) as (s & E & HA).
  exists s. split; [exact E|]. destruct HA as [A1 A2 A3 A4 A5 A6 A7 A8 A9].
  split_and!; try done. intros i x ei pi Hx He Hp.
  destruct (A5 i x ei pi Hx He Hp) as [? ->]. split; [done|]. by rewrite done_before_all.
Qed.

(** Rate-monotonic priority: whenever a core picks a task, the cell of the
    timeline is idle only if no task of its partition is pending, and otherwise
    shows the pending task with the smallest period, the lowest number among
    equal periods. *)
Theorem rms_picks_shortest_period (num_cpus : nat) (es ps : list Z) (asg : list nat) (h t c : nat)
    (s0 s1 s2 : RmsSim) (Hts : task_set es ps asg) (Hfit : fits_int num_cpus es ps h) (Ht : (t < h)%nat) (Hc : (c < num_cpus)%nat)
    (H0 : for_range 0 t (rms_tick (length es) num_cpus es ps asg h)
            (rms_sim0 (length es) num_cpus h) = Some s0)
    (H1 : for_range 0 (length es) (release_job es ps (Z.of_nat t)) s0 = Some s1)
    (H2 : for_range 0 c (run_core (length es) ps asg h t) s1 = Some s2) :
  ∃ s3 v, run_core (length es) ps asg h t c s2 = Some s3 ∧ rtimeline s3 !! (c * h + t)%nat = Some v ∧
    ((v = 0 ∧ ∀ i, ¬ pending asg (r s2) c i) ∨
     ∃ k, v = Z.of_nat k + 1 ∧ pending asg (r s2) c k ∧
       ∀ i, pending asg (r s2) c i → rm_before ps k i).
Proof.
  destruct Hts as [T1 T2 T3 T4].
  destruct (simulate_upto num_cpus es ps asg h T1 T2 T3 T4 Hfit t) as (s & E & HA); [lia|].
  rewrite H0 in E. injection E as <-.
  destruct (release_loop num_cpus es ps asg h T1 T2 T3 T4 Hfit t s0 Ht HA) as (s & E & HA1).
  rewrite H1 in E. injection E as <-.
  destruct (run_cores num_cpus es ps asg h T1 T2 T3 T4 Hfit t s1 c Ht) as (s & E & HA2); [lia|done|].
  rewrite H2 in E. injection E as <-.
  destruct (run_core_ok num_cpus es ps asg h T1 T2 T3 T4 Hfit t c s2 Ht Hc HA2) as (s3 & E3 & _ & v & Hv & Hk).
  eauto.
Qed.

(** ** Reading and partitioning *)

Section Partition.
Context (D : DoubleOps) (num_cpus : nat).
Hypothesis Hcpus : (0 < num_cpus)%nat.

Lemma best_cpu_ok su cnt :
  length su = num_cpus → length cnt = num_cpus →
  ∃ c, best_cpu D num_cpus su cnt = Some c ∧ (c < num_cpus)%nat.
Proof using Hcpus.
  intros Hs Hk. unfold best_cpu.
  destruct (for_range_total (λ _ c, (c < num_cpus)%nat) (best_scan D su cnt) 1 (num_cpus - 1) 0%nat)
    as (c & E & Hc); [done| |by eauto].
  intros c b Hc Hb. unfold best_scan.
  destruct (lookup_lt_is_Some_2 su c) as [? ->]; [lia|]. destruct (lookup_lt_is_Some_2 su b) as [? ->]; [lia|].
  destruct (lookup_lt_is_Some_2 cnt c) as [? ->]; [lia|]. destruct (lookup_lt_is_Some_2 cnt b) as [? ->]; [lia|].
  simpl. eexists. split; [done|]. repeat case_match; lia.
Qed.

(** The arrays after [k] tasks have been read. *)
Record tasks_ok (N k : nat) (t : Tasks D) : Prop := {
  tk_e : length (e D t) = k;
  tk_ts : task_set (e D t) (p D t) (a D t);
  tk_cores : Forall (λ c, (c < num_cpus)%nat) (a D t);
  tk_su : length (su D t) = num_cpus;
  tk_cnt : length (cnt D t) = num_cpus;
  tk_procs : length (tprocs D t) = N }.

Lemma place_ok N k ei pi t :
  (k < N)%nat → 0 < ei → 0 < pi → tasks_ok N k t →
  ∃ t', place D num_cpus ei pi t = Some t' ∧ tasks_ok N (S k) t'.
Proof using Hcpus.
  intros HkN Hei Hpi [T1 [U1 U2 U3 U4] T3 T4 T5 T6]. unfold place.
  destruct (best_cpu_ok (su D t) (cnt D t) T4 T5) as (c & -> & Hc). simpl.
  destruct (lookup_lt_is_Some_2 (su D t) c) as [? ->]; [lia|].
  destruct (lookup_lt_is_Some_2 (cnt D t) c) as [? ->]; [lia|]. simpl.
  rewrite aset_Some by lia. simpl. rewrite aset_Some by lia. simpl.
  destruct (lookup_lt_is_Some_2 (tprocs D t) (length (e D t))) as [? ->]; [lia|]. simpl.
  rewrite aset_Some by lia. simpl. eexists. split; [done|].
  split; simpl; rewrite ?length_insert, ?length_app; simpl; try lia.
  - split; rewrite ?length_app; simpl; try lia; apply Forall_app; (split; [done|by constructor]).
  - apply Forall_app. split; [done|by constructor].
Qed.

Lemma read_tasks_ok N n k inputs t :
  (k + n ≤ N)%nat → tasks_ok N k t →
  ∃ res, read_tasks D num_cpus n inputs t = Some res ∧
    ∀ t', res = inr t' → tasks_ok N (k + n) t'.
Proof using Hcpus.
  revert k inputs t. induction n as [|n IH]; intros k inputs t Hk Ht; simpl.
  { eexists. split; [done|]. intros t' [= <-]. by rewrite Nat.add_0_r. }
  destruct inputs as [|[ei|] rest]; try (eexists; split; [done|]; by intros).
  destruct (Z.leb_spec ei 0); [eexists; split; [done|]; by intros|].
  destruct rest as [|[pi|] rest]; try (eexists; split; [done|]; by intros).
  destruct (Z.leb_spec pi 0); [eexists; split; [done|]; by intros|].
  destruct (place_ok N k ei pi t) as (t1 & -> & Ht1); [lia..|done|]. simpl.
  destruct (IH (S k) rest t1) as (res & E & Hres); [lia|done|]. exists res. split; [done|].
  intros t' Et. replace (k + S n)%nat with (S k + n)%nat by lia. by apply Hres.
Qed.

End Partition.

(** The tables when the reading loop starts. *)
Definition rms_tasks0 (D : DoubleOps) (nc : nat) (processes : list Process) : Tasks D :=
  mkTasks D [] [] [] (replicate nc (d_of_int D 0)) (replicate nc 0%nat) processes.

(** [run_rms] is total as long as the tasks it reads fit in [int]: it either reports one of its errors or
    a schedule, whatever the floating-point unit computes.  In a schedule every
    task of the table was read with positive execution time and period, was
    given a core that exists, and the simulated length is the capped least
    common multiple of the periods. *)
Theorem run_rms_total (D : DoubleOps) (alloc1 alloc2 : bool) (inputs : list (option Z))
    (processes : list Process) (num_cpus : Z)
    (Hfit : ∀ t, read_tasks D (Z.to_nat num_cpus) (length processes) inputs
                   (rms_tasks0 D (Z.to_nat num_cpus) processes) = Some (inr t) →
       fits_int (Z.to_nat num_cpus) (e D t) (p D t) (Z.to_nat (Z.min (lcm_list (p D t)) MAX_TIME))) :
  ∃ res, run_rms D alloc1 alloc2 inputs processes (Z.of_nat (length processes)) num_cpus = Some res ∧
    ∀ rep, res = inr rep →
      let t := rep_tasks D rep in
      length (e D t) = length processes ∧ task_set (e D t) (p D t) (a D t) ∧
      Forall (λ c, Z.of_nat c < num_cpus) (a D t) ∧
      rep_h D rep = Z.min (lcm_list (p D t)) MAX_TIME ∧
      simulate (Z.to_nat num_cpus) (e D t) (p D t) (a D t) (Z.to_nat (rep_h D rep)) = Some (rep_sim D rep).
Proof.
  unfold run_rms. destruct (Z.leb_spec (Z.of_nat (length processes)) 0); [eexists; split; [done|]; by intros|].
  destruct (Z.leb_spec num_cpus 0); [eexists; split; [done|]; by intros|].
  destruct alloc1; simpl; [|eexists; split; [done|]; by intros].
  rewrite Nat2Z.id.
  destruct (read_tasks_ok D (Z.to_nat num_cpus) ltac:(lia) (length processes) (length processes) 0 inputs
    (rms_tasks0 D (Z.to_nat num_cpus) processes)) as (res & E & Hres); [lia| |].
  { split; simpl; rewrite ?length_replicate; done. }
  unfold rms_tasks0 in E at 1. rewrite E. simpl. destruct res as [err|t]; [eexists; split; [done|]; by intros|].
  destruct (Hres t eq_refl) as [T1 Hts T3 T4 T5 T6].
  assert (Eh : hyperperiod (p D t) = Some (Z.min (lcm_list (p D t)) MAX_TIME)).
  { apply (hyper_loop_ok (p D t) 1); [apply Hts|lia]. }
  rewrite Eh. simpl. destruct alloc2; simpl; [|eexists; split; [done|]; by intros].
  pose proof Hts as [U1 U2 U3 U4].
  destruct (simulate_upto (Z.to_nat num_cpus) (e D t) (p D t) (a D t)
    (Z.to_nat (Z.min (lcm_list (p D t)) MAX_TIME)) U1 U2 U3 U4 (Hfit t E) _ (le_n _)) as (s & Es & _).
  unfold simulate. rewrite Es. simpl. eexists. split; [done|]. intros rep [= <-]. simpl.
  split_and!; try done. eapply Forall_impl; [exact T3|]. simpl. intros c Hc. lia.
Qed.

(** ** Sample runs *)

(** The task set of the report, with exact arithmetic: the least loaded core
    takes T3, so the partition is 0, 1, 1, 0 and core 0 is busy for 14 of 40
    units, core 1 for 18. *)
Example rms_report_sample :
  match run_rms QOps true true
    (Some <$> [1; 4; 1; 5; 2; 8; 1; 10]) (take 4 sample) 4 2 with
  | Some (inr rep) => (a QOps (rep_tasks QOps rep), rep_h QOps rep, rbusy (rep_sim QOps rep),
      total_miss (rep_sim QOps rep), rep_ok QOps rep)
      = ([0; 1; 1; 0]%nat, 40, [14; 18], 0, [true; true])
  | _ => False
  end.
Proof. vm_compute. reflexivity. Qed.

(** A single task that needs 3 units every 2 units misses its deadline at the
    end of the hyperperiod, but the simulation stops before it looks: no miss
    is counted although work is left over. *)
Example rms_last_deadline_unchecked :
  (λ s, (total_miss s, r s)) <$> simulate 1 [3] [2] [0%nat] 2 = Some (0, [1]).
Proof. vm_compute. reflexivity. Qed.

(** The execution times are typed in without an upper bound: with 2000000000
    units every millisecond the remaining work overflows at the second release. *)
Example rms_work_overflows : simulate 1 [2000000000; 1] [1; 1000] [0; 0]%nat 1000 = None.
Proof. vm_compute. reflexivity. Qed.

Lemma rms_sample_set : task_set [1; 1; 2; 1] [4; 5; 8; 10] [0; 1; 0; 1]%nat.
Proof. split; try reflexivity; repeat constructor; lia. Qed.

Lemma rms_sample_fits : fits_int 2 [1; 1; 2; 1] [4; 5; 8; 10] 40.
Proof.
  split; [lia|lia|]. intros i ei pi He Hp.
  do 4 (destruct i as [|i]; [injection He as <-; injection Hp as <-; vm_compute; reflexivity|]). done.
Qed.

Lemma hyperperiod_is_lcm_witness : hyperperiod [4; 5; 8; 10] = Some (Z.min (lcm_list [4; 5; 8; 10]) MAX_TIME).
Proof. apply (hyperperiod_is_lcm [4; 5; 8; 10]). repeat constructor; lia. Defined.

Lemma rms_simulation_accounts_witness :
  ∃ s, simulate 2 [1; 1; 2; 1] [4; 5; 8; 10] [0; 1; 0; 1]%nat 40 = Some s ∧
    ∀ i y, m s !! i = Some y → y = Z.of_nat (count (late 2 [1; 1; 2; 1] [4; 5; 8; 10] 40 (rtimeline s) i) 40).
Proof.
  destruct (rms_simulation_accounts 2 [1; 1; 2; 1] [4; 5; 8; 10] [0; 1; 0; 1]%nat 40 rms_sample_set rms_sample_fits)
    as (s & H1 & _ & _ & _ & H2). exists s. split; assumption.
Defined.

Definition rms_start : RmsSim := rms_sim0 4 2 40.
Definition rms_released : RmsSim :=
  default rms_start (for_range 0 4 (release_job [1; 1; 2; 1] [4; 5; 8; 10] 0) rms_start).

Lemma rms_picks_shortest_period_witness :
  ∃ s3 v, run_core 4 [4; 5; 8; 10] [0; 1; 0; 1]%nat 40 0 0 rms_released = Some s3 ∧
    rtimeline s3 !! 0%nat = Some v ∧
    ((v = 0 ∧ ∀ i, ¬ pending [0; 1; 0; 1]%nat (r rms_released) 0 i) ∨
     ∃ k, v = Z.of_nat k + 1 ∧ pending [0; 1; 0; 1]%nat (r rms_released) 0 k ∧
       ∀ i, pending [0; 1; 0; 1]%nat (r rms_released) 0 i → rm_before [4; 5; 8; 10] k i).
Proof.
  apply (rms_picks_shortest_period 2 [1; 1; 2; 1] [4; 5; 8; 10] [0; 1; 0; 1]%nat 40 0 0
    rms_start rms_released rms_released rms_sample_set rms_sample_fits); [lia|lia| | |]; vm_compute; reflexivity.
Defined.
