(* ===== verification/Driver.v ===== *)
(** * The simulator program (main.c, metrics.c, the charts of rms.c)

    Test-data generation, the menu, and what the report functions print, as
    data.  The generated tables satisfy the preconditions of every simulator,
    so the program as a whole completes its processes. *)

From S2P Require Import Prelude SchedCore SchedInv Fcfs Mlfq Lottery Edf WorkSteal WorkStealCorrect Rms.
Open Scope Z_scope.

(** ** main.c *)

(** Process [i] of [initialize_test_data]; [rand] is called five times for it,
    starting with call number [k].  The fields the code does not assign keep
    their (uninitialised) values, given by [q]. *)
Definition gen_process (rand : nat → Z) (k i : nat) (q : Process) : Process :=
  let arr := Z.rem (rand k) 5 in
  let burst := Z.rem (rand (k + 1)%nat) 10 + 1 in
  let prio := Z.rem (rand (k + 2)%nat) 5 in
  let dl := arr + burst + Z.rem (rand (k + 3)%nat) 10 in
  mkProcess (Z.of_nat i + 1) arr burst burst prio dl (dl + 5) (Z.rem (rand (k + 4)%nat) 3)
    (completion_time q) (turnaround_time q) (waiting_time q) 0.

Definition initialize_test_data (rand : nat → Z) (k : nat) (p : list Process) : list Process :=
  imap (λ i q, gen_process rand (k + 5 * i) i q) p.

(** What one choice of the menu produces. *)
Inductive Outcome :=
  | RanSim (s : Sim)
  | RanLottery (l : LotSim)
  | RanEdf (e : EdfSim)
  | RanRms (D : DoubleOps) (x : RmsError + RmsReport D)
  | RanWorkSteal (w : WsSim)
  | InvalidChoice.

(** The [switch]; [None] is undefined behaviour inside the chosen simulator. *)
Definition run_choice (D : DoubleOps) (rand : nat → Z) (inputs : list (option Z)) (choice : Z)
    (ps : list Process) (num_cpus : nat) : option Outcome :=
  if choice =? 1 then s ← run_mlfq ps num_cpus; Some (RanSim s)
  else if choice =? 2 then s ← run_fcfs ps num_cpus; Some (RanSim s)
  else if choice =? 3 then l ← run_lottery rand ps num_cpus; Some (RanLottery l)
  else if choice =? 4 then e ← run_edf ps num_cpus; Some (RanEdf e)
  else if choice =? 5 then
    x ← run_rms D true true inputs ps (Z.of_nat (length ps)) (Z.of_nat num_cpus); Some (RanRms D x)
  else if choice =? 6 then w ← run_work_steal ps num_cpus; Some (RanWorkSteal w)
  else Some InvalidChoice.

(** One round of the [do ... while] loop: the table is generated from fresh
    memory [junk] and the chosen simulator runs on it.  The second component
    says whether the loop goes on. *)
Definition main_round (D : DoubleOps) (rand : nat → Z) (k : nat) (inputs : list (option Z))
    (junk : list Process) (num_cpus : nat) (choice : Z) : option (Outcome * bool) :=
  let ps := initialize_test_data rand k junk in
  o ← run_choice D (λ j, rand (k + 5 * length junk + j)%nat) inputs choice ps num_cpus;
  Some (o, (1 <=? choice) && (choice <=? 6)).

(** ** metrics.c *)

Section Print.
(** Single-precision arithmetic is a parameter. *)
Context {F : Type} (f_of_int : Z → F) (f_add f_div : F → F → F).

(** One line of the table. *)
Definition metrics_row (p : Process) : list Z :=
  [pid p; arrival_time p; burst_time p; io_wait_time p; deadline p; completion_time p;
   turnaround_time p; waiting_time p].

(** The printed rows and the two averages. *)
Definition print_metrics (ps : list Process) : list (list Z) * F * F :=
  let tw := foldl (λ t p, f_add t (f_of_int (waiting_time p))) (f_of_int 0) ps in
  let tt := foldl (λ t p, f_add t (f_of_int (turnaround_time p))) (f_of_int 0) ps in
  let n := f_of_int (Z.of_nat (length ps)) in
  (metrics_row <$> ps, f_div tt n, f_div tw n).

End Print.

(** The cells of the chart: [Some pid] or [None] for IDLE. *)
Definition chart_cell (v : Z) : option Z := if 0 <? v then Some v else None.

(** Reads [timeline[i][j]] for [i < num_cpus], [j < total_time]. *)
Definition print_gantt_chart (num_cpus total_time : nat) (tl : list (list Z))
    : option (list (list (option Z))) :=
  mapM (λ i, row ← tl !! i; mapM (λ j, v ← row !! j; Some (chart_cell v)) (seq 0 total_time))
    (seq 0 num_cpus).

(** ** The charts of rms.c *)

(** [print_gantt]: the segments [(start, value, end)] of a row; the scan keeps
    the segments found, the start of the open one and its value. *)
Definition gantt_step (tl : list Z) (i : nat) (acc : list (Z * nat) * Z) : option (list (Z * nat) * Z) :=
  let '(segs, cur) := acc in
  let h := length tl in
  if Nat.eqb i h then Some (segs ++ [(cur, i)], cur) else
  v ← tl !! i;
  if v =? cur then Some acc else Some (segs ++ [(cur, i)], v).

Definition print_gantt (tl : list Z) : option (list (Z * nat)) :=
  match tl with
  | [] => Some []
  | cur :: _ => acc ← for_range 1 (length tl) (gantt_step tl) ([], cur); Some (fst acc)
  end.

(** The [Events] line of [print_timeline]: the instants the running task changes. *)
Definition event_step (tl : list Z) (i : nat) (acc : list (nat * Z) * Z) : option (list (nat * Z) * Z) :=
  let '(evs, prev) := acc in
  v ← tl !! i;
  if (Nat.eqb i 0) || negb (v =? prev) then Some (evs ++ [(i, v)], v) else Some acc.

Definition print_events (tl : list Z) : option (list (nat * Z)) :=
  acc ← for_range 0 (length tl) (event_step tl) ([], -1); Some (fst acc).

(** ** The generated tables *)

Section Generated.
Context (rand : nat → Z) (k : nat) (junk : list Process).
Hypothesis Hrand : ∀ j, 0 ≤ rand j.
Local Abbreviation ps := (initialize_test_data rand k junk).

Lemma rem_range j q : 0 < q → 0 ≤ Z.rem (rand j) q < q.
Proof using Hrand. intros. by apply Z.rem_bound_pos. Qed.

Lemma generated_lookup i p : ps !! i = Some p →
  ∃ q, junk !! i = Some q ∧ p = gen_process rand (k + 5 * i) i q.
Proof using. unfold initialize_test_data. rewrite list_lookup_imap. by destruct (junk !! i); intros; simplify_eq/=; eauto. Qed.

Lemma generated_length : length ps = length junk.
Proof using. apply length_imap. Qed.

(** Every generated process is within these ranges. *)
Lemma generated_ranges i p : ps !! i = Some p →
  pid p = Z.of_nat i + 1 ∧ 0 ≤ arrival_time p ≤ 4 ∧ 1 ≤ burst_time p ≤ 10 ∧
  remaining_time p = burst_time p ∧ 0 ≤ priority p ≤ 4 ∧
  arrival_time p + burst_time p ≤ deadline p ≤ 23 ∧ deadline_missed p = 0.
Proof using Hrand.
  intros Hp. apply generated_lookup in Hp as (q & _ & ->). generalize (k + 5 * i)%nat as x. intros x.
  pose proof (rem_range x 5 ltac:(lia)). pose proof (rem_range (x + 1) 10 ltac:(lia)).
  pose proof (rem_range (x + 2) 5 ltac:(lia)). pose proof (rem_range (x + 3) 10 ltac:(lia)).
  unfold gen_process. cbn [pid arrival_time burst_time remaining_time priority deadline deadline_missed].
  split_and!; lia.
Qed.

Lemma generated_moderate i p : ps !! i = Some p → moderate p.
Proof using Hrand.
  intros Hp. apply generated_lookup in Hp as (q & _ & ->). generalize (k + 5 * i)%nat as x. intros x.
  pose proof (rem_range x 5 ltac:(lia)). pose proof (rem_range (x + 1) 10 ltac:(lia)).
  pose proof (rem_range (x + 4) 3 ltac:(lia)).
  unfold moderate, gen_process. cbn [arrival_time burst_time io_wait_time]. lia.
Qed.

Lemma generated_valid : (length junk ≤ 100)%nat → valid_input ps.
Proof using Hrand.
  intros Hl. split_and!.
  - by rewrite generated_length.
  - apply NoDup_alt. intros i j x Hi Hj. rewrite list_lookup_fmap in Hi, Hj.
    destruct (ps !! i) as [p|] eqn:Ep; simplify_eq/=. destruct (ps !! j) as [q|] eqn:Eq; simplify_eq/=.
    destruct (generated_ranges i p Ep) as (E1 & _), (generated_ranges j q Eq) as (E2 & _). lia.
  - apply Forall_lookup. intros i p Hp. destruct (generated_ranges i p Hp) as (? & ? & ? & ? & _).
    split_and!; [lia..|by eapply generated_moderate].
Qed.

Lemma generated_forall (P : Process → Prop) :
  (∀ i p, ps !! i = Some p → P p) → Forall P ps.
Proof using. intros H. by apply Forall_lookup. Qed.

Lemma generated_tickets : (length junk ≤ 100)%nat → tickets_fit ps.
Proof using Hrand.
  rewrite <- generated_length. intros Hl.
  assert (HF : Forall (λ p, 0 ≤ priority p ≤ 4) ps).
  { apply generated_forall. intros i p Hp. by destruct (generated_ranges i p Hp) as (_ & _ & _ & _ & ? & _). }
  assert (Hsum : sumZ ((λ x, x + 1) <$> (priority <$> ps)) ≤ 5 * Z.of_nat (length ps)).
  { clear Hl. revert HF. generalize ps. intros l; induction 1; simpl in *; [lia|]. unfold fmap in *. lia. }
  split; [|lia]. apply Forall_fmap. eapply Forall_impl; [exact HF|]. simpl. lia.
Qed.

Lemma generated_inputs :
  (length junk ≤ 100)%nat → lottery_input ps ∧ edf_input ps ∧ ws_input ps.
Proof using Hrand.
  intros Hl. pose proof (generated_valid Hl) as Hv.
  split; [split; [done|by apply generated_tickets]|].
  split; (split; [done|]); try split; apply generated_forall; intros i p Hp;
    destruct (generated_ranges i p Hp) as (? & ? & ? & ? & ? & ? & ?); (done || lia).
Qed.

Lemma sum_bursts : sumZ (burst_time <$> ps) ≤ 10 * Z.of_nat (length junk).
Proof using Hrand.
  rewrite <- generated_length.
  assert (HF : Forall (λ p, burst_time p ≤ 10) ps).
  { apply generated_forall. intros i p Hp. destruct (generated_ranges i p Hp) as (_ & _ & ? & _). lia. }
  revert HF. generalize ps. intros l; induction 1; simpl in *; [lia|]. unfold fmap in *. lia.
Qed.

Lemma generated_enough m :
  (length junk ≤ 99)%nat → (0 < m)%nat → enough_time ps m 4.
Proof using Hrand.
  intros Hl Hm. split_and!; [done|lia| |].
  - intros p Hp. apply list_elem_of_lookup in Hp as [i Hp].
    destruct (generated_ranges i p Hp) as (_ & ? & _). lia.
  - pose proof sum_bursts. unfold MAX_TIME. lia.
Qed.

End Generated.

(** The process table and the chart an outcome leaves behind. *)
Definition outcome_table (o : Outcome) : option (list Process * list (list Z)) :=
  match o with
  | RanSim s => Some (procs s, timeline s)
  | RanLottery l => Some (procs (lot_sim l), timeline (lot_sim l))
  | RanEdf e => Some (procs (edf_sim e), timeline (edf_sim e))
  | RanWorkSteal w => Some (ws_procs w, ws_timeline w)
  | _ => None
  end.

(** Everybody of [ps] was served for exactly its burst, with consistent times. *)
Definition table_complete (ps table : list Process) (tl : list (list Z)) : Prop :=
  pid <$> table ≡ₚ pid <$> ps ∧
  ∀ i p, table !! i = Some p → served tl (pid p) = burst_time p ∧
    turnaround_time p = completion_time p - arrival_time p ∧ 0 ≤ waiting_time p.

Lemma table_complete_of P0 ps io s :
  P0 ≡ₚ ps → schedule_ok P0 s → all_complete P0 io s → table_complete ps (procs s) (timeline s).
Proof.
  intros HP [Hst _ _ _] [_ Hs Hm]. split.
  - by rewrite (procs_pids P0 s Hst), HP.
  - intros i p Hp. destruct (Hm i p Hp) as (? & _ & ?). split_and!; eauto.
Qed.

(** The program completes what it generates: for at most 99 processes and at
    least one core, whatever [rand] returns, each tick-based simulator of the
    menu (choices 1, 2, 3, 4 and 6) terminates without undefined behaviour,
    the menu goes on, and every process has been executed for exactly its
    burst with consistent turnaround and non-negative waiting time. *)
Theorem generated_runs_complete (D : DoubleOps) (rand : nat → Z) (k : nat) (inputs : list (option Z))
    (junk : list Process) (num_cpus : nat) (choice : Z)
    (Hrand : ∀ j, 0 ≤ rand j) (Hn : (length junk ≤ 99)%nat) (Hm : (0 < num_cpus)%nat)
    (Hchoice : choice ∈ [1; 2; 3; 4; 6]) :
  ∃ o table tl, main_round D rand k inputs junk num_cpus choice = Some (o, true) ∧
    outcome_table o = Some (table, tl) ∧
    table_complete (initialize_test_data rand k junk) table tl.
Proof.
  pose proof (generated_enough rand k junk Hrand num_cpus Hn Hm) as Henough.
  pose proof (generated_valid rand k junk Hrand ltac:(lia)) as Hv.
  destruct (generated_inputs rand k junk Hrand ltac:(lia)) as (Hl & He & Hw).
  unfold main_round. set (ps := initialize_test_data rand k junk) in *.
  rewrite !elem_of_cons in Hchoice.
  destruct Hchoice as [->|[->|[->|[->|[->|?%not_elem_of_nil]]]]]; [..|done]; unfold run_choice; simpl.
  - destruct (run_mlfq_result ps num_cpus Hv) as (s & -> & HI & Hlive). simpl.
    eexists _, _, _. split; [done|]. split; [done|]. destruct (Hlive 4 Henough) as [Hk _].
    assert (El : length (mlfq_init ps) = length ps) by apply length_fmap.
    pose proof (Inv_schedule_ok _ _ _ _ _ HI) as Hs.
    pose proof (Inv_all_complete _ _ _ (mlfq_init_valid ps Hv) _ s HI ltac:(by rewrite El)) as Hc.
    destruct (table_complete_of _ (mlfq_init ps) io_wait_time s (reflexivity _) Hs Hc) as [Hp Ht].
    split; [|done]. rewrite Hp. unfold mlfq_init. by rewrite <- list_fmap_compose.
  - destruct (run_fcfs_result ps num_cpus Hv) as (P0 & s & _ & -> & HP & HI & Hlive). simpl.
    eexists _, _, _. split; [done|]. split; [done|]. destruct (Hlive 4 Henough) as [Hk _].
    eapply table_complete_of; [exact HP|by eapply Inv_schedule_ok|].
    eapply Inv_all_complete; [by eapply valid_input_perm|done..].
  - destruct (run_lottery_result (λ j, rand (k + 5 * length junk + j)%nat) ps num_cpus) as (l & E & HI & Hlive);
      [done|done|]. simpl in E. rewrite E. simpl.
    eexists _, _, _. split; [done|]. split; [done|]. destruct (Hlive 4 Henough) as [Hk _].
    eapply table_complete_of; [done|by eapply Inv_schedule_ok|]. by eapply Inv_all_complete.
  - destruct (run_edf_result ps num_cpus He) as (e & -> & HI & _ & Hlive). simpl.
    eexists _, _, _. split; [done|]. split; [done|]. destruct (Hlive 4 Henough) as [Hk _].
    eapply table_complete_of; [done|by eapply Inv_schedule_ok|]. by eapply Inv_all_complete.
  - destruct (run_ws_result ps num_cpus Hw Hm) as (w & -> & HI & Hlive). simpl.
    eexists _, _, _. split; [done|]. split; [done|]. destruct (Hlive 4 Henough) as [Hk _].
    apply (table_complete_of ps ps no_io (ws_view w)); [done|by eapply Inv_schedule_ok|].
    by eapply Inv_all_complete.
Qed.

Lemma generated_runs_complete_witness :
  ∃ o table tl, main_round QOps rand7 0 [] sample 2 4 = Some (o, true) ∧
    outcome_table o = Some (table, tl) ∧
    table_complete (initialize_test_data rand7 0 sample) table tl.
Proof.
  apply (generated_runs_complete QOps rand7 0 [] sample 2 4 rand7_ok); [simpl; lia|lia|].
  right. right. right. left.
Defined.

(** The bound is the program's: with 101 generated processes every tick-based
    simulator reads or writes outside its [is_running] or [arrived] array. *)
Example over_100_processes_undefined :
  (λ c, run_choice QOps rand7 [] c
     (initialize_test_data rand7 0 (replicate 101 (sample_proc 0 0 0 0 0))) 1) <$> [1; 2; 3; 4; 6] =
  [None; None; None; None; None].
Proof. vm_compute. reflexivity. Qed.

(** ** The RMS Gantt chart *)

(** The row a list of segments stands for. *)
Fixpoint expand (start : nat) (segs : list (Z * nat)) : list Z :=
  match segs with
  | [] => []
  | (v, e) :: segs' => replicate (e - start) v ++ expand e segs'
  end.

Definition seg_end (segs : list (Z * nat)) : nat := from_option snd 0%nat (last segs).

Lemma expand_snoc start segs v e :
  expand start (segs ++ [(v, e)]) =
  expand start segs ++ replicate (e - from_option snd start (last segs)) v.
Proof.
  revert start. induction segs as [|[w e'] segs IH]; intros start; [simpl; by rewrite app_nil_r|].
  simpl. rewrite IH, (assoc_L (++)). rewrite last_cons. by destruct (last segs).
Qed.

(** The open segment continues the closed ones to a prefix of the row. *)
Definition gantt_inv (tl : list Z) (i : nat) (acc : list (Z * nat) * Z) : Prop :=
  (seg_end (fst acc) < i)%nat ∧
  expand 0 (fst acc) ++ replicate (i - seg_end (fst acc)) (snd acc) = take i tl.

(** The Gantt chart of the RMS report is a faithful run-length encoding:
    expanding its segments gives back the core's timeline. *)
Theorem print_gantt_roundtrip (tl : list Z) :
  ∃ segs, print_gantt tl = Some segs ∧ expand 0 segs = tl.
Proof.
  destruct tl as [|x tl]; [by exists []|]. unfold print_gantt. set (l := x :: tl).
  assert (Hlen : length l = S (length tl)) by done. rewrite Hlen, for_range_snoc.
  destruct (for_range_total (gantt_inv l) (gantt_step l) 1 (length tl) ([], x))
    as ([segs cur] & -> & Hend & Hrow).
  - unfold gantt_inv, seg_end. simpl. split; [lia|done].
  - intros i [segs cur] Hi [Hend Hrow]. unfold gantt_step. simpl fst in *. simpl snd in *.
    destruct (Nat.eqb_spec i (length l)); [lia|].
    destruct (lookup_lt_is_Some_2 l i) as [v Hv]; [lia|]. rewrite Hv. simpl.
    destruct (Z.eqb_spec v cur) as [->|Hne]; (eexists; split; [done|]); unfold gantt_inv; simpl fst; simpl snd.
    + split; [lia|]. rewrite (take_S_r l i cur Hv), <- Hrow, <- (assoc_L (++)). f_equal.
      replace (S i - seg_end segs)%nat with ((i - seg_end segs) + 1)%nat by lia. by rewrite replicate_add.
    + assert (Ee : seg_end (segs ++ [(cur, i)]) = i) by (unfold seg_end; by rewrite last_snoc).
      rewrite Ee. split; [lia|]. rewrite (take_S_r l i v Hv), <- Hrow, expand_snoc.
      by replace (S i - i)%nat with 1%nat by lia.
  - simpl. unfold gantt_step. change (S (length tl)) with (length l). simpl fst in *. simpl snd in *.
    rewrite Nat.eqb_refl. simpl. eexists. split; [done|]. rewrite expand_snoc.
    rewrite (firstn_all2 l) in Hrow by (simpl; lia). exact Hrow.
Qed.
