(* ===== verification/CString.v ===== *)
(** * Byte memory and string.c

    Memory is a finite map from addresses to bytes; an address that was never
    written reads as 0.  Addresses are unbounded: the functions below are used
    on objects that do not wrap around the address space. *)

From S2P Require Import Prelude.
Open Scope Z_scope.

Abbreviation mem := (gmap Z Z).

Definition rd (m : mem) (a : Z) : Z := default 0 (m !! a).
Definition wr (m : mem) (a v : Z) : mem := <[a:=v]> m.

Lemma rd_wr m a v b : rd (wr m a v) b = if decide (b = a) then v else rd m b.
Proof.
  unfold rd, wr. destruct (decide (b = a)) as [->|Hne].
  - by rewrite lookup_insert_eq.
  - by rewrite lookup_insert_ne by congruence.
Qed.

(** ** The functions *)

(** [for (i = 0; i < n; i++) cdst[i] = c;] *)
Fixpoint memset_loop (m : mem) (dst c : Z) (n : nat) : mem :=
  match n with
  | O => m
  | S n' => memset_loop (wr m dst (c mod 256)) (dst + 1) c n'
  end.
Definition memset (m : mem) (dst c n : Z) : mem := memset_loop m dst c (Z.to_nat n).

(** [while (n-- > 0) { if ( *s1 != *s2) return *s1 - *s2; s1++, s2++; } return 0;] *)
Fixpoint memcmp_loop (m : mem) (s1 s2 : Z) (n : nat) : Z :=
  match n with
  | O => 0
  | S n' => if rd m s1 =? rd m s2 then memcmp_loop m (s1 + 1) (s2 + 1) n' else rd m s1 - rd m s2
  end.
Definition memcmp (m : mem) (v1 v2 n : Z) : Z := memcmp_loop m v1 v2 (Z.to_nat n).

(** [while (n-- > 0) *--d = *--s;] *)
Fixpoint move_back (m : mem) (d s : Z) (n : nat) : mem :=
  match n with
  | O => m
  | S n' => move_back (wr m (d - 1) (rd m (s - 1))) (d - 1) (s - 1) n'
  end.

(** [while (n-- > 0) *d++ = *s++;] *)
Fixpoint move_fwd (m : mem) (d s : Z) (n : nat) : mem :=
  match n with
  | O => m
  | S n' => move_fwd (wr m d (rd m s)) (d + 1) (s + 1) n'
  end.

Definition memmove (m : mem) (dst src n : Z) : mem :=
  if n =? 0 then m else
  if (src <? dst) && (dst <? src + n)
  then move_back m (dst + n) (src + n) (Z.to_nat n)
  else move_fwd m dst src (Z.to_nat n).

#[global] Arguments memset : simpl never.
#[global] Arguments memmove : simpl never.

Definition memcpy (m : mem) (dst src n : Z) : mem := memmove m dst src n.

(** [while (n > 0 && *p && *p == *q) n--, p++, q++;] *)
Fixpoint strncmp_loop (m : mem) (p q : Z) (n : nat) : Z :=
  match n with
  | O => 0
  | S n' => if negb (rd m p =? 0) && (rd m p =? rd m q)
            then strncmp_loop m (p + 1) (q + 1) n' else rd m p - rd m q
  end.
Definition strncmp (m : mem) (p q n : Z) : Z := strncmp_loop m p q (Z.to_nat n).

(** The second loop of [strncpy]: [while (n-- > 0) *s++ = 0;] *)
Fixpoint pad (m : mem) (s : Z) (n : nat) : mem :=
  match n with
  | O => m
  | S n' => pad (wr m s 0) (s + 1) n'
  end.

(** [while (n-- > 0 && ( *s++ = *t++) != 0);] followed by the padding. *)
Fixpoint strncpy_loop (m : mem) (s t : Z) (n : nat) : mem :=
  match n with
  | O => m
  | S n' =>
      let c := rd m t in
      let m := wr m s c in
      if c =? 0 then pad m (s + 1) n' else strncpy_loop m (s + 1) (t + 1) n'
  end.
Definition strncpy (m : mem) (s t n : Z) : mem := strncpy_loop m s t (Z.to_nat n).

(** [while (--n > 0 && ( *s++ = *t++) != 0); *s = 0;] with [n] the bytes left
    besides the terminator.  After a copied NUL the final store writes the
    byte behind it. *)
Fixpoint safestrcpy_loop (m : mem) (s t : Z) (n : nat) : mem :=
  match n with
  | O => wr m s 0
  | S n' =>
      let c := rd m t in
      let m := wr m s c in
      if c =? 0 then wr m (s + 1) 0 else safestrcpy_loop m (s + 1) (t + 1) n'
  end.
Definition safestrcpy (m : mem) (s t n : Z) : mem :=
  if n <=? 0 then m else safestrcpy_loop m s t (Z.to_nat (n - 1)).

(** [for (n = 0; s[n]; n++);]  Memory is finite, so a zero is met within
    [size m + 1] steps. *)
Fixpoint strlen_loop (fuel : nat) (m : mem) (s n : Z) : option Z :=
  if rd m (s + n) =? 0 then Some n else
  match fuel with
  | O => None
  | S f => strlen_loop f m s (n + 1)
  end.
Definition strlen (m : mem) (s : Z) : option Z := strlen_loop (size m) m s 0.

(** ** What they do *)

Lemma memset_loop_spec m dst c n a :
  rd (memset_loop m dst c n) a =
  if decide (dst ≤ a < dst + Z.of_nat n) then c mod 256 else rd m a.
Proof.
  revert m dst. induction n as [|n IH]; intros m dst; simpl.
  { rewrite decide_False by lia. done. }
  rewrite IH, rd_wr. repeat destruct decide; (done || lia).
Qed.

Lemma memset_spec m dst c n a :
  rd (memset m dst c n) a = if decide (dst ≤ a < dst + n) then c mod 256 else rd m a.
Proof.
  unfold memset. rewrite memset_loop_spec. repeat destruct decide; (done || lia).
Qed.

Lemma move_fwd_spec m d s n a :
  d ≤ s ∨ s + Z.of_nat n ≤ d →
  rd (move_fwd m d s n) a =
  if decide (d ≤ a < d + Z.of_nat n) then rd m (s + (a - d)) else rd m a.
Proof.
  revert m d s. induction n as [|n IH]; intros m d s Hds; simpl.
  { rewrite decide_False by lia. done. }
  rewrite IH by lia. destruct (decide (d + 1 ≤ a < d + 1 + Z.of_nat n)).
  - rewrite decide_True by lia. rewrite rd_wr, decide_False by lia. f_equal. lia.
  - rewrite rd_wr. destruct (decide (a = d)) as [->|].
    + rewrite decide_True by lia. f_equal. lia.
    + rewrite decide_False by lia. done.
Qed.

Lemma move_back_spec m d s n a :
  s ≤ d →
  rd (move_back m d s n) a =
  if decide (d - Z.of_nat n ≤ a < d) then rd m (s - (d - a)) else rd m a.
Proof.
  revert m d s. induction n as [|n IH]; intros m d s Hds; simpl.
  { rewrite decide_False by lia. done. }
  rewrite IH by lia. destruct (decide (d - 1 - Z.of_nat n ≤ a < d - 1)).
  - rewrite decide_True by lia. rewrite rd_wr, decide_False by lia. f_equal. lia.
  - rewrite rd_wr. destruct (decide (a = d - 1)) as [->|].
    + rewrite decide_True by lia. f_equal. lia.
    + rewrite decide_False by lia. done.
Qed.

Lemma rd_memmove m dst src n a : 0 ≤ n →
  rd (memmove m dst src n) a =
  if decide (dst ≤ a < dst + n) then rd m (src + (a - dst)) else rd m a.
Proof.
  intros Hn. unfold memmove. destruct (Z.eqb_spec n 0) as [->|Hne]; [rewrite decide_False by lia; done|].
  destruct (Z.ltb_spec src dst); simpl; [destruct (Z.ltb_spec dst (src + n))|].
  - rewrite move_back_spec by lia. repeat destruct decide; try lia; f_equal; lia.
  - rewrite move_fwd_spec by lia. repeat destruct decide; (done || lia).
  - rewrite move_fwd_spec by lia. repeat destruct decide; (done || lia).
Qed.

(** [memmove] copies correctly even when the regions overlap: every byte of
    the destination is the source byte from before the call, and nothing else
    changes. *)
Theorem memmove_spec (m : mem) (dst src n a : Z) (Hn : 0 ≤ n) :
  rd (memmove m dst src n) a =
  if decide (dst ≤ a < dst + n) then rd m (src + (a - dst)) else rd m a.
Proof. by apply rd_memmove. Qed.

Lemma memmove_spec_witness :
  rd (memmove (wr (wr ∅ 10 65) 11 66) 11 10 2) 12 = 66.
Proof. rewrite (memmove_spec (wr (wr ∅ 10 65) 11 66) 11 10 2 12); [vm_compute; reflexivity|lia]. Defined.

(** The C string at [s] is [l]: no zero byte in it and a zero behind it. *)
Fixpoint cstr (m : mem) (s : Z) (l : list Z) : Prop :=
  match l with
  | [] => rd m s = 0
  | c :: l' => rd m s = c ∧ c ≠ 0 ∧ cstr m (s + 1) l'
  end.

Lemma cstr_fun m s l l' : cstr m s l → cstr m s l' → l = l'.
Proof.
  revert s l'. induction l as [|c l IH]; intros s [|c' l']; simpl; try done.
  - intros H0 (E & Hne & _). congruence.
  - intros (E & Hne & _) H0. congruence.
  - intros (E & _ & H) (E' & _ & H'). f_equal; [congruence|by eapply IH].
Qed.

(** Strings in unchanged memory stay. *)
Lemma cstr_ext m m' s l :
  (∀ a, s ≤ a ≤ s + Z.of_nat (length l) → rd m' a = rd m a) → cstr m s l → cstr m' s l.
Proof.
  revert s. induction l as [|c l IH]; intros s H; simpl.
  - intros H0. rewrite H by (simpl; lia). done.
  - intros (E & Hne & Hl). split; [rewrite H by (simpl; lia); done|]. split; [done|].
    apply IH; [|done]. intros a Ha. apply H. simpl. lia.
Qed.

Lemma strlen_loop_spec fuel m s l n :
  cstr m (s + n) l → (length l ≤ fuel)%nat →
  strlen_loop fuel m s n = Some (n + Z.of_nat (length l)).
Proof.
  revert fuel n. induction l as [|c l IH]; intros fuel n Hc Hf.
  - simpl in Hc. destruct fuel; simpl; rewrite Hc; simpl; f_equal; lia.
  - destruct Hc as (E & Hne & Hc). destruct fuel as [|f]; [simpl in Hf; lia|]. simpl.
    destruct (Z.eqb_spec (rd m (s + n)) 0); [congruence|].
    rewrite IH; [f_equal; simpl; lia|by rewrite Z.add_assoc|simpl in Hf; lia].
Qed.

(** The addresses of a string without its terminator are all written. *)
Lemma cstr_dom m s l k : cstr m s l → 0 ≤ k < Z.of_nat (length l) → s + k ∈ dom m.
Proof.
  revert s k. induction l as [|c l IH]; intros s k Hc Hk; simpl in *; [lia|].
  destruct Hc as (E & Hne & Hc). destruct (decide (k = 0)) as [->|].
  - rewrite Z.add_0_r. apply elem_of_dom. unfold rd in E.
    destruct (m !! s); [done|]. simpl in E. congruence.
  - replace (s + k) with (s + 1 + (k - 1)) by lia. apply IH; [done|lia].
Qed.

Lemma cstr_size m s l : cstr m s l → (length l ≤ size m)%nat.
Proof.
  intros Hc. rewrite <- (size_dom (D := gset Z) m).
  transitivity (size (list_to_set ((λ k, s + Z.of_nat k) <$> seq 0 (length l)) : gset Z)).
  - rewrite size_list_to_set.
    + by rewrite length_fmap, length_seq.
    + apply NoDup_fmap_2; [|apply NoDup_seq]. intros x y. lia.
  - apply subseteq_size. intros x. rewrite elem_of_list_to_set, list_elem_of_fmap.
    intros (k & -> & Hk). apply elem_of_seq in Hk. eapply cstr_dom; [done|lia].
Qed.

Lemma strlen_spec m s l : cstr m s l → strlen m s = Some (Z.of_nat (length l)).
Proof.
  intros Hc. unfold strlen. rewrite (strlen_loop_spec _ m s l 0); [done| |].
  - by rewrite Z.add_0_r.
  - by eapply cstr_size.
Qed.

(** [safestrcpy] with room for [n + 1] bytes, source outside the destination. *)
Lemma safestrcpy_loop_spec m s t l n :
  cstr m t l → s + Z.of_nat n < t ∨ t + Z.of_nat (length l) < s →
  cstr (safestrcpy_loop m s t n) s (take n l) ∧
  ∀ a, a < s ∨ s + Z.of_nat n < a → rd (safestrcpy_loop m s t n) a = rd m a.
Proof.
  revert m s t l. induction n as [|n IH]; intros m s t l Hc Hd; simpl.
  { split; [by rewrite rd_wr, decide_True|]. intros a Ha. rewrite rd_wr, decide_False by lia. done. }
  destruct l as [|c l]; simpl in Hc.
  - rewrite Hc. simpl. split.
    + rewrite !rd_wr. repeat destruct decide; (done || lia).
    + intros a Ha. rewrite !rd_wr, !decide_False by lia. done.
  - destruct Hc as (E & Hne & Hc). rewrite E. destruct (Z.eqb_spec c 0); [done|]. simpl in Hd.
    destruct (IH (wr m s c) (s + 1) (t + 1) l) as [H1 H2].
    + eapply cstr_ext; [|done]. intros a Ha. rewrite rd_wr, decide_False by lia. done.
    + lia.
    + split.
      * split; [rewrite H2 by lia; by rewrite rd_wr, decide_True|]. done.
      * intros a Ha. rewrite H2 by lia. rewrite rd_wr, decide_False by lia. done.
Qed.

(** [safestrcpy] always leaves a terminated string that fits: the first
    [n - 1] bytes of the source string or all of it, and it writes nothing
    outside the [n] bytes of the destination. *)
Theorem safestrcpy_spec (m : mem) (s t n : Z) (l : list Z) (Hn : 0 < n) (Hsrc : cstr m t l)
    (Hdisj : s + n ≤ t ∨ t + Z.of_nat (length l) < s) :
  let m' := safestrcpy m s t n in
  cstr m' s (take (Z.to_nat (n - 1)) l) ∧
  strlen m' s = Some (Z.min (n - 1) (Z.of_nat (length l))) ∧
  ∀ a, a < s ∨ s + n ≤ a → rd m' a = rd m a.
Proof.
  intros m'. unfold m', safestrcpy. destruct (Z.leb_spec n 0); [lia|].
  destruct (safestrcpy_loop_spec m s t l (Z.to_nat (n - 1)) Hsrc) as [H1 H2]; [lia|].
  split; [done|]. split.
  - rewrite (strlen_spec _ _ _ H1). f_equal. rewrite length_take. lia.
  - intros a Ha. apply H2. lia.
Qed.

Lemma safestrcpy_spec_witness :
  let m' := safestrcpy (wr (wr (wr ∅ 20 104) 21 105) 22 33) 10 20 3 in
  cstr m' 10 [104; 105] ∧ strlen m' 10 = Some 2 ∧ rd m' 13 = 0.
Proof.
  destruct (safestrcpy_spec (wr (wr (wr ∅ 20 104) 21 105) 22 33) 10 20 3 [104; 105; 33]) as (H1 & H2 & H3).
  - lia.
  - simpl. rewrite !rd_wr. simpl. split_and!; try done.
  - simpl. lia.
  - split; [exact H1|]. split; [exact H2|]. rewrite (H3 13); [vm_compute; reflexivity|lia].
Defined.

#[global] Opaque memset memmove.
