(* ===== verification/Printf.v ===== *)
(** * Formatted output: kernel/printf.c, user/printf.c and [atoi]

    The two [printf]s differ in the digits of hexadecimal numbers and in what
    they do with a format that ends in a lone percent sign.  Characters are
    bytes; the format is its bytes without the terminator; the arguments are
    the values [va_arg] reads.  [None] is undefined behaviour: a write outside
    the digit buffer, a negation that overflows, or an argument of the wrong
    kind. *)

From Stdlib Require Import Ascii String.
From S2P Require Import Prelude.
Open Scope Z_scope.
Open Scope os_scope.

Definition chr (a : ascii) : Z := Z.of_nat (nat_of_ascii a).
Definition text (s : string) : list Z := chr <$> list_ascii_of_string s.

Definition kdigits : list Z := text "0123456789abcdef".
Definition udigits : list Z := text "0123456789ABCDEF".

Definition MINUS : Z := 45.
Definition PERCENT : Z := 37.

(** [char buf[20]] and [buf[i++] = c]. *)
Definition BUF : nat := 20.
Definition put_buf (buf : list Z) (c : Z) : option (list Z) :=
  if (length buf <? BUF)%nat then Some (buf ++ [c]) else None.

(** [do { buf[i++] = digits[x % base]; } while ((x /= base) != 0);] *)
Fixpoint digit_loop (fuel : nat) (digits : list Z) (x base : Z) (buf : list Z) : option (list Z) :=
  match fuel with
  | O => None
  | S f =>
      d ← digits !! Z.to_nat (x mod base);
      buf ← put_buf buf d;
      if x / base =? 0 then Some buf else digit_loop f digits (x / base) base buf
  end.

(** The characters [printint] prints; [xx] is a [long long]. *)
Definition printint (digits : list Z) (xx base : Z) (sign : bool) : option (list Z) :=
  let neg := sign && (xx <? 0) in
  x ← (if neg then if xx =? - 2 ^ 63 then None else Some (- xx) else Some (xx mod 2 ^ 64));
  buf ← digit_loop 64 digits x base [];
  buf ← (if neg then put_buf buf MINUS else Some buf);
  Some (reverse buf).

Fixpoint ptr_loop (digits : list Z) (n : nat) (x : Z) : option (list Z) :=
  match n with
  | O => Some []
  | S n' =>
      d ← digits !! Z.to_nat (Z.shiftr x 60);
      r ← ptr_loop digits n' (Z.shiftl x 4 mod 2 ^ 64);
      Some (d :: r)
  end.
Definition printptr (digits : list Z) (x : Z) : option (list Z) :=
  r ← ptr_loop digits 16 x;
  Some (text "0x" ++ r).

(** ** Conversions *)

Inductive Arg := AInt (v : Z) | AStr (s : option (list Z)).

Definition va_int (l : list Arg) : option (Z * list Arg) :=
  match l with AInt v :: l' => Some (v, l') | _ => None end.
Definition va_str (l : list Arg) : option (option (list Z) * list Arg) :=
  match l with AStr s :: l' => Some (s, l') | _ => None end.

Definition to_int (v : Z) : Z := (v + 2 ^ 31) mod 2 ^ 32 - 2 ^ 31.
Definition to_long (v : Z) : Z := (v + 2 ^ 63) mod 2 ^ 64 - 2 ^ 63.

(** What one conversion prints, how many further format characters it uses
    and the arguments left; [None] when the sequence is unknown. *)
Definition print_num (digits : list Z) (base : Z) (sign : bool) (cast : Z → Z) (skip : nat) (l : list Arg)
    : option (list Z * nat * list Arg) :=
  '(v, l) ← va_int l;
  out ← printint digits (cast v) base sign;
  Some (out, skip, l).

Definition isc (c : Z) (a : ascii) : bool := c =? chr a.

Definition conversion (digits : list Z) (c0 c1 c2 : Z) (l : list Arg) : option (list Z * nat * list Arg) :=
  if isc c0 "d" then print_num digits 10 true to_int 0 l
  else if isc c0 "l" && isc c1 "d" then print_num digits 10 true to_long 1 l
  else if isc c0 "l" && isc c1 "l" && isc c2 "d" then print_num digits 10 true to_long 2 l
  else if isc c0 "u" then print_num digits 10 false (λ v, v mod 2 ^ 32) 0 l
  else if isc c0 "l" && isc c1 "u" then print_num digits 10 false to_long 1 l
  else if isc c0 "l" && isc c1 "l" && isc c2 "u" then print_num digits 10 false to_long 2 l
  else if isc c0 "x" then print_num digits 16 false (λ v, v mod 2 ^ 32) 0 l
  else if isc c0 "l" && isc c1 "x" then print_num digits 16 false to_long 1 l
  else if isc c0 "l" && isc c1 "l" && isc c2 "x" then print_num digits 16 false to_long 2 l
  else if isc c0 "p" then '(v, l) ← va_int l; out ← printptr digits (v mod 2 ^ 64); Some (out, 0%nat, l)
  else if isc c0 "c" then '(v, l) ← va_int l; Some ([v mod 256], 0%nat, l)
  else if isc c0 "s" then '(s, l) ← va_str l; Some (default (text "(null)") s, 0%nat, l)
  else if c0 =? PERCENT then Some ([PERCENT], 0%nat, l)
  else Some ([PERCENT; c0], 0%nat, l).

(** The loop of [vprintf] in user/printf.c; [state] is set behind a percent
    sign.  Every pass consumes a character, so the length of the format is
    enough fuel. *)
Fixpoint vprintf_loop (fuel : nat) (fmt : list Z) (state : bool) (l : list Arg) : option (list Z) :=
  match fmt with
  | [] => Some []
  | c0 :: r =>
      match fuel with
      | O => None
      | S f =>
          if state then
            '(out, skip, l) ← conversion udigits c0 (default 0 (r !! 0%nat)) (default 0 (r !! 1%nat)) l;
            rest ← vprintf_loop f (drop skip r) false l;
            Some (out ++ rest)
          else if c0 =? PERCENT then vprintf_loop f r true l
          else rest ← vprintf_loop f r false l; Some (c0 :: rest)
      end
  end.
Definition vprintf (fmt : list Z) (l : list Arg) : option (list Z) :=
  vprintf_loop (length fmt) fmt false l.

(** The loop of [printf] in kernel/printf.c; a format that ends in a percent
    sign ends the output. *)
Fixpoint kprintf_loop (fuel : nat) (fmt : list Z) (l : list Arg) : option (list Z) :=
  match fmt with
  | [] => Some []
  | cx :: r =>
      match fuel with
      | O => None
      | S f =>
          if negb (cx =? PERCENT) then rest ← kprintf_loop f r l; Some (cx :: rest)
          else
            match r with
            | [] => Some []
            | c0 :: r =>
                '(out, skip, l) ← conversion kdigits c0 (default 0 (r !! 0%nat)) (default 0 (r !! 1%nat)) l;
                rest ← kprintf_loop f (drop skip r) l;
                Some (out ++ rest)
            end
      end
  end.
Definition kprintf (fmt : list Z) (l : list Arg) : option (list Z) := kprintf_loop (length fmt) fmt l.

(** [atoi] of ulib.c: [while ('0' <= *s && *s <= '9') n = n*10 + *s++ - '0';]
    The argument is the string without its terminator; [None] is overflow. *)
Fixpoint atoi_loop (s : list Z) (n : Z) : option Z :=
  match s with
  | c :: s' =>
      if (48 <=? c) && (c <=? 57) then
        let m := n * 10 + c - 48 in
        if n * 10 + c <? 2 ^ 31 then atoi_loop s' m else None
      else Some n
  | [] => Some n
  end.
Definition atoi (s : list Z) : option Z := atoi_loop s 0.

Example printf_sample :
  kprintf (text "pid %d: %lx %s 100%%%") [AInt (-7); AInt 0xbeef; AStr None] =
    Some (text "pid -7: beef (null) 100%").
Proof. reflexivity. Qed.
Example vprintf_sample :
  vprintf (text "%c%x %y %llu %p") [AInt 65; AInt 0xbeef; AInt (-1); AInt 0x80001234] =
    Some (text "ABEEF %y 18446744073709551615 0x0000000080001234").
Proof. reflexivity. Qed.

(** ** What [printint] prints *)

(** The number with the given digits, least significant first. *)
Fixpoint le_value (base : Z) (ds : list Z) : Z :=
  match ds with [] => 0 | d :: ds' => d + base * le_value base ds' end.

Record numeral (base x : Z) (ds : list Z) : Prop := {
  num_digits : Forall (λ d, 0 ≤ d < base) ds;
  num_value : le_value base ds = x;
  num_last : ∃ d ds', ds = ds' ++ [d] ∧ (d = 0 → ds' = [])
}.

Definition shown (digits : list Z) (d : Z) : Z := nth (Z.to_nat d) digits 0.

Lemma shown_lookup digits d :
  0 ≤ d < Z.of_nat (length digits) → digits !! Z.to_nat d = Some (shown digits d).
Proof.
  intros Hd. destruct (lookup_lt_is_Some_2 digits (Z.to_nat d)) as [x Hx]; [lia|].
  unfold shown. by rewrite (nth_lookup_Some _ _ _ _ Hx).
Qed.

Lemma numeral_one base x : 0 ≤ x < base → numeral base x [x].
Proof.
  intros Hx. split; [by apply Forall_singleton|cbn; lia|]. by exists x, [].
Qed.

Lemma numeral_cons base x ds :
  1 < base → 0 < x / base → numeral base (x / base) ds → numeral base x (x mod base :: ds).
Proof.
  intros Hb Hx [H1 H2 (d & ds' & -> & H3)]. pose proof (Z.mod_pos_bound x base ltac:(lia)).
  split.
  - by apply Forall_cons.
  - cbn [le_value app]. rewrite H2. pose proof (Z.div_mod x base). lia.
  - exists d, (x mod base :: ds'). split; [done|]. intros ->. rewrite H3 in H2 by done. cbn in H2. lia.
Qed.

Lemma digit_loop_spec digits base (Hb : 1 < base ≤ Z.of_nat (length digits)) k : ∀ fuel x buf,
  (S k ≤ fuel)%nat → 0 ≤ x < base ^ Z.of_nat (S k) → (length buf + S k ≤ BUF)%nat →
  ∃ ds, digit_loop fuel digits x base buf = Some (buf ++ (shown digits <$> ds)) ∧
    numeral base x ds ∧ (length ds ≤ S k)%nat.
Proof.
  induction k as [|k IH]; intros [|fuel] x buf Hf Hx Hlen; try lia; cbn [digit_loop];
    pose proof (Z.mod_pos_bound x base ltac:(lia)) as Hm;
    rewrite shown_lookup by lia; cbn [mbind option_bind]; unfold put_buf;
    rewrite (proj2 (Nat.ltb_lt _ _)) by lia; cbn [mbind option_bind].
  - rewrite Z.pow_1_r in Hx. rewrite Z.div_small, Z.mod_small by lia. cbn. exists [x].
    split; [done|]. split; [by apply numeral_one|cbn; lia].
  - destruct (Z.eqb_spec (x / base) 0) as [Hz|Hz].
    + rewrite Z.div_small_iff in Hz by lia. rewrite Z.mod_small by lia. exists [x].
      split; [done|]. split; [apply numeral_one; lia|cbn; lia].
    + assert (0 ≤ x / base) by (apply Z.div_pos; lia).
      destruct (IH fuel (x / base) (buf ++ [shown digits (x mod base)])) as (ds & Hr & Hn & Hl); [lia| | |].
      * split; [done|]. apply Z.div_lt_upper_bound; [lia|].
        rewrite (Nat2Z.inj_succ (S k)), Z.pow_succ_r in Hx by lia. lia.
      * rewrite length_app. cbn. lia.
      * exists (x mod base :: ds). rewrite Hr. rewrite <- app_assoc. split; [done|].
        split; [apply numeral_cons; try done; lia|cbn; lia].
Qed.

(** The room a number needs: 20 decimal or 16 hexadecimal digits for an
    unsigned number, and 19 digits and the sign for a negative one. *)
Lemma fits_unsigned base x : base = 10 ∨ base = 16 → 0 ≤ x < 2 ^ 64 → 0 ≤ x < base ^ Z.of_nat 20.
Proof. intros [-> | ->]; cbn; lia. Qed.
Lemma fits_negative base x : base = 10 ∨ base = 16 → 0 ≤ x < 2 ^ 63 → 0 ≤ x < base ^ Z.of_nat 19.
Proof. intros [-> | ->]; cbn; lia. Qed.

(** C40: for every [long long] but the least and bases 10 and 16, [printint]
    stays inside its 20-byte buffer, terminates, and prints the numeral of the
    number: a minus sign exactly for a negative number printed as signed,
    then digits without a leading zero whose value is the magnitude. *)
Theorem printint_numeral (digits : list Z) (xx base : Z) (sign : bool)
    (Hd : length digits = 16%nat) (Hb : base = 10 ∨ base = 16) (Hx : - 2 ^ 63 < xx < 2 ^ 63) :
  let neg := sign && (xx <? 0) in
  ∃ ds, numeral base (if neg then - xx else xx mod 2 ^ 64) ds ∧
    printint digits xx base sign =
      Some ((if neg then [MINUS] else []) ++ (shown digits <$> reverse ds)).
Proof.
  cbn zeta. unfold printint.
  assert (Hbd : 1 < base ≤ Z.of_nat (length digits)) by (rewrite Hd; lia).
  destruct (sign && (xx <? 0)) eqn:Hneg.
  - apply andb_true_iff in Hneg as [_ Hneg%Z.ltb_lt]. rewrite (proj2 (Z.eqb_neq _ _)) by lia.
    cbn [mbind option_bind].
    destruct (digit_loop_spec digits base Hbd 18 64 (- xx) []) as (ds & -> & Hn & Hl);
      [lia|apply fits_negative; lia|cbn; unfold BUF; lia|].
    exists ds. split; [done|]. cbn [mbind option_bind app]. unfold put_buf.
    rewrite length_fmap, (proj2 (Nat.ltb_lt _ _)) by (unfold BUF; lia). cbn [mbind option_bind].
    by rewrite reverse_app, fmap_reverse.
  - pose proof (Z.mod_pos_bound xx (2 ^ 64) ltac:(lia)). cbn [mbind option_bind].
    destruct (digit_loop_spec digits base Hbd 19 64 (xx mod 2 ^ 64) []) as (ds & -> & Hn & Hl);
      [lia|apply fits_unsigned; lia|cbn; unfold BUF; lia|].
    exists ds. split; [done|]. cbn [mbind option_bind app]. by rewrite fmap_reverse.
Qed.

(** ** [atoi] reads back what is printed *)

(** The number with the given digits, most significant first. *)
Definition be_value (n : Z) (ds : list Z) : Z := foldl (λ a d, 10 * a + d) n ds.

Lemma be_value_reverse ds n :
  be_value n (reverse ds) = n * 10 ^ Z.of_nat (length ds) + le_value 10 ds.
Proof.
  revert n. induction ds as [|d ds IH]; intros n; [cbn; lia|].
  unfold be_value in *. rewrite reverse_cons, foldl_app, IH. cbn [foldl le_value length].
  rewrite Nat2Z.inj_succ, Z.pow_succ_r by lia. ring.
Qed.

Lemma be_value_mono ds n : 0 ≤ n → Forall (λ d, 0 ≤ d < 10) ds → n ≤ be_value n ds.
Proof.
  revert n. induction ds as [|d ds IH]; intros n Hn Hds; [done|]. apply Forall_cons in Hds as [Hd Hds].
  specialize (IH (10 * n + d) ltac:(lia) Hds). unfold be_value in *. cbn [foldl]. lia.
Qed.

Lemma shown_decimal d : 0 ≤ d < 10 → shown udigits d = 48 + d.
Proof.
  intros Hd. assert (Hall : ∀ k, (k < 10)%nat → nth k udigits 0 = 48 + Z.of_nat k)
    by (intros k Hk; do 10 (destruct k; [reflexivity|]); lia).
  unfold shown. rewrite Hall by lia. lia.
Qed.

Lemma atoi_loop_spec ds n :
  0 ≤ n → Forall (λ d, 0 ≤ d < 10) ds → be_value n ds < 2 ^ 31 - 48 →
  atoi_loop (shown udigits <$> ds) n = Some (be_value n ds).
Proof.
  revert n. induction ds as [|d ds IH]; intros n Hn Hds Hv; [done|].
  apply Forall_cons in Hds as [Hd Hds]. cbn [fmap list_fmap atoi_loop]. rewrite shown_decimal by done.
  rewrite (proj2 (Z.leb_le 48 _)), (proj2 (Z.leb_le _ 57)) by lia. cbn [andb].
  assert (Hle : 10 * n + d ≤ be_value (10 * n + d) ds) by (apply be_value_mono; [lia|done]).
  change (be_value n (d :: ds)) with (be_value (10 * n + d) ds) in *.
  rewrite (proj2 (Z.ltb_lt _ _)) by lia.
  replace (n * 10 + (48 + d) - 48) with (10 * n + d) by lia. apply IH; [lia|done|done].
Qed.

(** The user library's [atoi] reads back what its [printint] printed, for
    every non-negative number up to 48 below the largest [int] (beyond that
    the sum [n*10 + c] overflows before the subtraction). *)
Theorem atoi_printint (xx : Z) (Hx : 0 ≤ xx < 2 ^ 31 - 48) :
  ∃ s, printint udigits xx 10 true = Some s ∧ atoi s = Some xx.
Proof.
  destruct (digit_loop_spec udigits 10 ltac:(done) 19 64 xx []) as (ds & Hr & [H1 H2 _] & _);
    [lia|cbn; lia|cbn; unfold BUF; lia|].
  exists (shown udigits <$> reverse ds). split.
  - unfold printint. rewrite (proj2 (Z.ltb_ge _ _)), Z.mod_small by lia. cbn [andb mbind option_bind].
    rewrite Hr. cbn [mbind option_bind app]. by rewrite fmap_reverse.
  - unfold atoi. pose proof (be_value_reverse ds 0) as Hv. rewrite H2 in Hv.
    rewrite atoi_loop_spec; [by rewrite Hv|done|by apply Forall_reverse|lia].
Qed.

Lemma printint_numeral_witness :
  ∃ ds, numeral 10 2147483648 ds ∧ printint kdigits (-2147483648) 10 true = Some (MINUS :: (shown kdigits <$> reverse ds)).
Proof. apply (printint_numeral kdigits (-2147483648) 10 true); [reflexivity|by left|lia]. Defined.

Lemma atoi_printint_witness : ∃ s, printint udigits 2147483599 10 true = Some s ∧ atoi s = Some 2147483599.
Proof. apply (atoi_printint 2147483599). lia. Defined.
