(* ===== verification/Grep.v ===== *)
(** * user/grep.c: the pattern matcher and the line buffer

    A C string is its bytes without the terminator.  [re[0] == '\0'] is the
    empty list, and [re[1]] behind the last character is the terminator. *)

From Stdlib Require Import Ascii String.
From S2P Require Import Prelude Printf.
Open Scope Z_scope.
Open Scope os_scope.

Definition CARET : Z := chr "^".
Definition STAR : Z := chr "*".
Definition DOLLAR : Z := chr "$".
Definition DOT : Z := chr ".".
Definition NL : Z := 10.

(** [do { if (matchhere(re, text)) return 1; } while ( *text != 0 && ( *text++ == c || c == '.'));]
    [here] is [matchhere re]. *)
Fixpoint matchstar (here : list Z → bool) (c : Z) (text : list Z) : bool :=
  here text ||
  match text with
  | [] => false
  | x :: text' => ((x =? c) || (c =? DOT)) && matchstar here c text'
  end.

Fixpoint matchhere (re text : list Z) : bool :=
  match re with
  | [] => true
  | c :: re' =>
      let plain :=
        if (c =? DOLLAR) && bool_decide (re' = []) then bool_decide (text = [])
        else
          match text with
          | [] => false
          | x :: text' => ((c =? DOT) || (c =? x)) && matchhere re' text'
          end in
      match re' with
      | d :: re'' => if d =? STAR then matchstar (matchhere re'') c text else plain
      | [] => plain
      end
  end.

(** [do { if (matchhere(re, text)) return 1; } while ( *text++ != 0);] *)
Fixpoint match_any (re text : list Z) : bool :=
  matchhere re text || match text with [] => false | _ :: text' => match_any re text' end.

Definition match_ (re text : list Z) : bool :=
  match re with
  | c :: re' => if c =? CARET then matchhere re' text else match_any re text
  | [] => match_any re text
  end.

(** ** The loop over the input

    The input is what successive [read]s deliver; a chunk longer than the room
    asked for is delivered in parts, and a chunk of no bytes is the end. *)

Definition read (chunks : list (list Z)) (n : nat) : list Z * list (list Z) :=
  match chunks with
  | [] => ([], [])
  | c :: cs => if (length c <=? n)%nat then (c, cs) else (take n c, drop n c :: cs)
  end.

(** [strchr] of ulib.c, as an index. *)
Fixpoint strchr (s : list Z) (c : Z) : option nat :=
  match s with
  | [] => None
  | x :: s' => if x =? 0 then None else if x =? c then Some O else S <$> strchr s' c
  end.

(** [while ((q = strchr(p, '\n')) != 0) { ... p = q+1; }] on the bytes from
    [p]; the result is what is written and the bytes from the last [p]. *)
Fixpoint grep_lines (fuel : nat) (pattern p : list Z) : list Z * list Z :=
  match fuel, strchr p NL with
  | S f, Some q =>
      let '(out, rest) := grep_lines f pattern (drop (S q) p) in
      ((if match_ pattern (take q p) then take (S q) p else []) ++ out, rest)
  | _, _ => ([], p)
  end.

Definition BUFSIZE : nat := 1024.

(** The outer loop, with [buf] the first [m] bytes of the buffer. *)
Fixpoint grep_loop (fuel : nat) (pattern : list Z) (chunks : list (list Z)) (buf : list Z) : option (list Z) :=
  match fuel with
  | O => None
  | S f =>
      let '(new, chunks) := read chunks (BUFSIZE - length buf - 1) in
      if (length new =? 0)%nat then Some [] else
      let '(out, rest) := grep_lines (length (buf ++ new)) pattern (buf ++ new) in
      more ← grep_loop f pattern chunks rest;
      Some (out ++ more)
  end.
Definition total (chunks : list (list Z)) : nat := length (concat chunks).
Definition grep (pattern : list Z) (chunks : list (list Z)) : option (list Z) :=
  grep_loop (S (total chunks)) pattern chunks [].

Example match_sample :
  (λ t, match_ (text "^a.*c$") (text t)) <$> ["abc"; "ac"; "abcd"; "xabc"]%string =
    [true; true; false; false].
Proof. reflexivity. Qed.
Example grep_sample :
  grep (text "b*d") [text "ab" ++ [NL] ++ text "bb"; text "d" ++ [NL] ++ text "tail d"] = Some (text "bbd" ++ [NL]).
Proof. reflexivity. Qed.

(** ** The language of a pattern *)

(** One position of a pattern: a character, repeated or not. *)
Definition hits (c x : Z) : Prop := c = DOT ∨ c = x.

Inductive lang : list (Z * bool) → list Z → Prop :=
  | lang_nil : lang [] []
  | lang_one c l x u : hits c x → lang l u → lang ((c, false) :: l) (x :: u)
  | lang_star c l w u : Forall (hits c) w → lang l u → lang ((c, true) :: l) (w ++ u).

(** A pattern is its positions and whether it ends in an anchor. *)
Fixpoint parse_re (re : list Z) : list (Z * bool) * bool :=
  match re with
  | [] => ([], false)
  | c :: re' =>
      let plain :=
        if (c =? DOLLAR) && bool_decide (re' = []) then ([], true)
        else let '(l, e) := parse_re re' in ((c, false) :: l, e) in
      match re' with
      | d :: re'' => if d =? STAR then let '(l, e) := parse_re re'' in ((c, true) :: l, e) else plain
      | [] => plain
      end
  end.

(** The text starts with a word of the pattern, and ends there if anchored. *)
Definition starts_at (p : list (Z * bool) * bool) (text : list Z) : Prop :=
  ∃ u v, text = u ++ v ∧ lang p.1 u ∧ (p.2 = true → v = []).
Definition starts (re text : list Z) : Prop := starts_at (parse_re re) text.

Lemma hits_eqb c x : hits c x ↔ (c =? DOT) || (c =? x) = true.
Proof. unfold hits. rewrite orb_true_iff, !Z.eqb_eq. done. Qed.

(** ** The matcher decides it *)

Lemma starts_star p here (Hh : ∀ t, here t = true ↔ starts_at p t) c text :
  matchstar here c text = true ↔ starts_at ((c, true) :: p.1, p.2) text.
Proof.
  induction text as [|x text IH]; cbn [matchstar]; rewrite orb_true_iff, Hh.
  - split.
    + intros [(u & v & Hs & Hl & Ha)|[=]]. exists u, v. split_and!; [done|by apply (lang_star c p.1 [])|done].
    + intros (u & v & Hs & Hl & Ha). cbn in Hl. inversion Hl as [| |? ? w u' Hw Hu]; subst. left.
      symmetry in Hs. apply app_eq_nil in Hs as [Hwu ->]. apply app_eq_nil in Hwu as [-> ->].
      by exists [], [].
  - rewrite andb_true_iff, IH. split.
    + intros [(u & v & Hs & Hl & Ha)|[Hx (u & v & -> & Hl & Ha)]].
      * exists u, v. split_and!; [done|by apply (lang_star c p.1 [])|done].
      * cbn in Hl. inversion Hl as [| |? ? w u' Hw Hu]; subst. exists (x :: w ++ u'), v.
        split_and!; [done| |done]. apply (lang_star c p.1 (x :: w)); [|done]. apply Forall_cons.
        split; [|done]. apply hits_eqb. rewrite orb_true_iff in *. destruct Hx as [Hx|Hx]; [right|by left].
        by rewrite Z.eqb_sym.
    + intros (u & v & Hs & Hl & Ha). cbn in Hl. inversion Hl as [| |? ? w u' Hw Hu]; subst.
      destruct w as [|y w]; cbn in Hs.
      * left. by exists u', v.
      * right. injection Hs as <- ->. apply Forall_cons in Hw as [Hx Hw]. split.
        -- apply hits_eqb in Hx. rewrite orb_true_iff in *. destruct Hx as [Hx|Hx]; [by right|left].
           by rewrite Z.eqb_sym.
        -- exists (w ++ u'), v. split_and!; [done|by apply lang_star|done].
Qed.

Lemma starts_plain re' c text :
  (∀ t, matchhere re' t = true ↔ starts_at (parse_re re') t) →
  (if (c =? DOLLAR) && bool_decide (re' = []) then bool_decide (text = [])
   else match text with [] => false | x :: text' => ((c =? DOT) || (c =? x)) && matchhere re' text' end) = true ↔
  starts_at (if (c =? DOLLAR) && bool_decide (re' = []) then ([], true)
             else let '(l, e) := parse_re re' in ((c, false) :: l, e)) text.
Proof.
  intros IH. destruct ((c =? DOLLAR) && bool_decide (re' = [])).
  - rewrite bool_decide_eq_true. split.
    + intros ->. exists [], []. by split_and!; [|constructor|].
    + intros (u & v & -> & Hl & Ha). cbn in *. inversion Hl; subst. by rewrite Ha.
  - destruct (parse_re re') as [l e]. destruct text as [|x text].
    + split; [done|]. intros (u & v & Hs & Hl & Ha). cbn in Hl. inversion Hl; subst. done.
    + rewrite andb_true_iff, IH, <- hits_eqb. split.
      * intros [Hx (u & v & -> & Hl & Ha)]. exists (x :: u), v. split_and!; [done|by constructor|done].
      * intros (u & v & Hs & Hl & Ha). cbn in Hl. inversion Hl; subst. injection Hs as <- ->.
        split; [done|]. by exists u0, v.
Qed.

Lemma matchhere_starts n : ∀ re text, (length re ≤ n)%nat →
  matchhere re text = true ↔ starts_at (parse_re re) text.
Proof.
  induction n as [|n IH]; intros [|c re'] text Hn; cbn in Hn; try lia;
    try (split; [intros _; by exists [], text; split_and!; [|constructor|]|done]).
  destruct re' as [|d re'']; [apply (starts_plain [] c text); intros t; apply IH; cbn; lia|].
  cbn [matchhere parse_re]. destruct (Z.eqb_spec d STAR) as [->|Hd].
  - rewrite (starts_star (parse_re re'')); [|intros t; apply IH; cbn in *; lia].
    by destruct (parse_re re'').
  - apply (starts_plain (d :: re'') c text). intros t. apply IH. cbn in *. lia.
Qed.

Lemma match_any_spec re text :
  match_any re text = true ↔ ∃ p t, text = p ++ t ∧ starts re t.
Proof.
  induction text as [|x text IH]; cbn [match_any]; rewrite orb_true_iff, (matchhere_starts (length re)) by lia.
  - split.
    + intros [Hs|[=]]. by exists [], [].
    + intros (p & t & Hs & Ht). symmetry in Hs. apply app_eq_nil in Hs as [-> ->]. by left.
  - rewrite IH. split.
    + intros [Hs|(p & t & -> & Ht)]; [by exists [], (x :: text)|by exists (x :: p), t].
    + intros ([|y p] & t & Hs & Ht); cbn in Hs; [subst; by left|]. injection Hs as <- ->. right. eauto.
Qed.

(** C39: the matcher decides the language of the pattern: [match] returns 1
    exactly when the text, or with a leading caret its beginning, contains a
    word of the pattern, ending at the end of the text if the pattern ends in
    a dollar sign; [c*] stands for any number of characters that [c] matches. *)
Theorem match_is_regular (re text : list Z) :
  match_ re text = true ↔
  match re with
  | c :: re' => if decide (c = CARET) then starts re' text else ∃ p t, text = p ++ t ∧ starts re t
  | [] => ∃ p t, text = p ++ t ∧ starts re t
  end.
Proof.
  unfold match_. destruct re as [|c re']; [apply match_any_spec|].
  destruct (Z.eqb_spec c CARET) as [->|Hc].
  - rewrite decide_True by done. by apply (matchhere_starts (length re')).
  - rewrite decide_False by done. apply match_any_spec.
Qed.

(** ** The lines of the input *)

(** The complete lines of [cur ++ s], where [cur] holds no newline, and the
    bytes behind the last newline. *)
Fixpoint lines (cur s : list Z) : list (list Z) * list Z :=
  match s with
  | [] => ([], cur)
  | x :: s' => if x =? NL then let '(ls, r) := lines [] s' in (cur :: ls, r) else lines (cur ++ [x]) s'
  end.

(** What grep should print for these lines. *)
Definition selected (pattern : list Z) (ls : list (list Z)) : list Z :=
  concat ((λ l, if match_ pattern l then l ++ [NL] else []) <$> ls).

Lemma lines_app cur a b :
  lines cur (a ++ b) = ((lines cur a).1 ++ (lines (lines cur a).2 b).1, (lines (lines cur a).2 b).2).
Proof.
  revert cur. induction a as [|x a IH]; intros cur; cbn.
  - by destruct (lines cur b).
  - destruct (x =? NL); [|apply IH]. rewrite IH. by destruct (lines [] a).
Qed.

Lemma lines_plain cur s : NL ∉ s → lines cur s = ([], cur ++ s).
Proof.
  revert cur. induction s as [|x s IH]; intros cur Hs; cbn; [by rewrite app_nil_r|].
  apply not_elem_of_cons in Hs as [Hx Hs]. rewrite (proj2 (Z.eqb_neq _ _)) by congruence.
  rewrite IH by done. by rewrite <- app_assoc.
Qed.

Lemma lines_rest cur s : NL ∉ cur → NL ∉ (lines cur s).2.
Proof.
  revert cur. induction s as [|x s IH]; intros cur Hc; cbn; [done|].
  destruct (Z.eqb_spec x NL) as [->|Hx].
  - specialize (IH [] (not_elem_of_nil _)). by destruct (lines [] s).
  - apply IH. rewrite not_elem_of_app, list_elem_of_singleton. split; [done|congruence].
Qed.

Lemma lines_parts cur s x : x ∈ (lines cur s).2 → x ∈ cur ++ s.
Proof.
  revert cur. induction s as [|y s IH]; intros cur; cbn; [by rewrite app_nil_r|].
  destruct (y =? NL).
  - specialize (IH []). destruct (lines [] s). set_solver.
  - intros Hx%IH. set_solver.
Qed.

(** The current line is a part of the first line completed, or of the rest. *)
Lemma lines_prefix cur s :
  cur `prefix_of` (match (lines cur s).1 with [] => (lines cur s).2 | l :: _ => l end).
Proof.
  revert cur. induction s as [|x s IH]; intros cur; cbn; [done|].
  destruct (x =? NL); [by destruct (lines [] s)|]. etransitivity; [|apply IH]. by apply prefix_app_r.
Qed.

Lemma strchr_None s c : strchr s c = None → 0 ∉ s → c ∉ s.
Proof.
  induction s as [|x s IH]; cbn; intros Hn H0; [apply not_elem_of_nil|].
  apply not_elem_of_cons in H0 as [Hx H0]. rewrite (proj2 (Z.eqb_neq x 0)) in Hn by congruence.
  destruct (Z.eqb_spec x c) as [|Hne]; [done|]. apply fmap_None in Hn.
  apply not_elem_of_cons. split; [congruence|auto].
Qed.

Lemma strchr_Some s c q : strchr s c = Some q → s = take q s ++ (c :: drop (S q) s) ∧ (c ∉ take q s) ∧ (q < length s)%nat.
Proof.
  revert q. induction s as [|x s IH]; intros q; cbn; [done|].
  destruct (x =? 0); [done|]. destruct (Z.eqb_spec x c) as [->|Hne].
  - intros [= <-]. split_and!; [done|apply not_elem_of_nil|cbn; lia].
  - intros (k & Hk & ->)%fmap_Some. destruct (IH _ Hk) as (Hs & Hn & Hl). cbn.
    split_and!; [by f_equal|apply not_elem_of_cons; split; [congruence|done]|lia].
Qed.

Lemma grep_lines_spec pattern fuel : ∀ p, (length p ≤ fuel)%nat → 0 ∉ p →
  grep_lines fuel pattern p = (selected pattern (lines [] p).1, (lines [] p).2).
Proof.
  induction fuel as [|f IH]; intros p Hf H0; cbn.
  - destruct p; [done|cbn in Hf; lia].
  - destruct (strchr p NL) as [q|] eqn:Hq.
    + destruct (strchr_Some _ _ _ Hq) as (Hp & Hn & Hql). set (l := take q p) in *. set (p' := drop (S q) p) in *.
      rewrite IH; [| |intros Hin; apply H0; rewrite Hp; set_solver].
      2:{ apply (f_equal length) in Hp. rewrite length_app in Hp. cbn in Hp. lia. }
      assert (Hlines : lines [] p = (l :: (lines [] p').1, (lines [] p').2)).
      { rewrite Hp, lines_app, (lines_plain [] l) by done. cbn. by destruct (lines [] p'). }
      rewrite Hlines. unfold selected at 2. cbn [fst snd fmap list_fmap concat]. f_equal. f_equal.
      destruct (match_ pattern l); [|done]. rewrite Hp at 1.
      assert (Hlen : length l = q) by (unfold l; rewrite length_take; lia).
      rewrite take_app_ge by lia. by replace (S q - length l)%nat with 1%nat by lia.
    + rewrite (lines_plain [] p) by (by apply strchr_None). done.
Qed.

(** The longest line the buffer can hold. *)
Definition MAXLINE : nat := 1022.

Definition short (l : list Z) : Prop := (length l ≤ MAXLINE)%nat.
Definition lines_short (p : list (list Z) * list Z) : Prop := Forall short p.1 ∧ short p.2.

#[global] Instance short_dec l : Decision (short l).
Proof. unfold short. apply _. Defined.
#[global] Instance lines_short_dec p : Decision (lines_short p).
Proof. unfold lines_short. apply _. Defined.

Lemma lines_short_cur cur s : lines_short (lines cur s) → short cur.
Proof.
  intros [H1 H2]. pose proof (prefix_length _ _ (lines_prefix cur s)) as Hp. unfold short in *.
  destruct (lines cur s) as [[|l ls] r]; cbn in *; [lia|]. apply Forall_cons in H1 as [H1 _]. lia.
Qed.

(** A read delivers the next bytes, at least one if there is room. *)
Lemma read_spec chunks n new rest :
  Forall (λ c, c ≠ []) chunks → (0 < n)%nat → read chunks n = (new, rest) →
  concat chunks = new ++ concat rest ∧ Forall (λ c, c ≠ []) rest ∧ (new = [] → chunks = []) ∧ (length new ≤ n)%nat.
Proof.
  intros Hc Hn. destruct chunks as [|c cs]; cbn; [intros [= <- <-]; cbn; by split_and!; [| | |lia]|].
  apply Forall_cons in Hc as [Hc Hcs]. destruct (Nat.leb_spec (length c) n); intros [= <- <-].
  - by split_and!.
  - split_and!.
    + cbn. by rewrite app_assoc, take_drop.
    + apply Forall_cons. split; [|done]. intros Hd%(f_equal length). rewrite length_drop in Hd. cbn in Hd. lia.
    + intros Ht%(f_equal length). rewrite length_take in Ht. cbn in Ht. lia.
    + rewrite length_take. lia.
Qed.

Lemma grep_loop_spec pattern fuel : ∀ chunks buf,
  (total chunks < fuel)%nat → Forall (λ c, c ≠ []) chunks → 0 ∉ buf ++ concat chunks → NL ∉ buf →
  lines_short (lines buf (concat chunks)) →
  grep_loop fuel pattern chunks buf = Some (selected pattern (lines buf (concat chunks)).1).
Proof.
  induction fuel as [|f IH]; intros chunks buf Hf Hc H0 Hb Hs; [lia|]. cbn [grep_loop].
  pose proof (lines_short_cur _ _ Hs) as Hbuf. unfold short, MAXLINE in Hbuf.
  destruct (read chunks (BUFSIZE - length buf - 1)) as [new rest] eqn:Hr.
  assert (Hroom : (0 < BUFSIZE - length buf - 1)%nat) by (unfold BUFSIZE; lia).
  destruct (read_spec _ _ _ _ Hc Hroom Hr) as (Hcat & Hrest & Hend & _).
  destruct (Nat.eqb_spec (length new) 0) as [Hz|Hz].
  { apply nil_length_inv in Hz. by rewrite (Hend Hz). }
  rewrite Hcat in *. rewrite app_assoc in H0.
  assert (Hnew : lines [] (buf ++ new) = lines buf new)
    by (rewrite lines_app, (lines_plain [] buf) by done; cbn; by destruct (lines buf new)).
  rewrite grep_lines_spec; [|done|set_solver]. rewrite Hnew, lines_app in *.
  destruct (lines buf new) as [ls r] eqn:Hl. cbn [fst snd] in *.
  rewrite (IH rest r); [| |done| | |].
  - cbn. unfold selected. by rewrite fmap_app, concat_app.
  - unfold total in *. rewrite Hcat, length_app in Hf. lia.
  - pose proof (lines_parts buf new) as Hpart. rewrite Hl in Hpart. set_solver.
  - pose proof (lines_rest buf new Hb) as Hn. by rewrite Hl in Hn.
  - destruct Hs as [H1 H2]. apply Forall_app in H1 as [_ H1]. by split.
Qed.

(** On input without NUL bytes whose lines (the last, unterminated one too)
    have at most 1022 bytes, however the reads cut it into pieces, [grep]
    terminates and writes exactly the newline-terminated lines that match, in
    order; it never looks at a line before it is complete. *)
Theorem grep_prints_matching_lines (pattern : list Z) (chunks : list (list Z))
    (Hc : Forall (λ c, c ≠ []) chunks) (H0 : 0 ∉ concat chunks)
    (Hs : lines_short (lines [] (concat chunks))) :
  grep pattern chunks = Some (selected pattern (lines [] (concat chunks)).1).
Proof. apply grep_loop_spec; [lia|done|done|apply not_elem_of_nil|done]. Qed.

Lemma grep_prints_matching_lines_witness :
  grep (text "b*d") [text "ab"; [NL] ++ text "bb"; text "d" ++ [NL] ++ text "tail d"] = Some (text "bbd" ++ [NL]).
Proof.
  rewrite grep_prints_matching_lines; [reflexivity|repeat constructor; discriminate| |].
  - apply (bool_decide_unpack _). vm_compute. exact I.
  - apply (bool_decide_unpack _). vm_compute. exact I.
Defined.

(** A longer line stops the program: the read has no room and returns 0. *)
Example grep_long_line :
  grep (text "x") [replicate 1023 (chr "a"); [NL] ++ text "x" ++ [NL]] = Some [].
Proof. vm_compute. reflexivity. Qed.
