(* ===== verification/Sh.v ===== *)
(** * The command parser of user/sh.c

    A pointer into the command line is the list of bytes from it up to the
    terminator at [es], so [s < es] is [s <> []] and [*s] at [es] is 0.  The
    commands keep such pointers to the beginning and the end of each word;
    [nulterminate] then writes a NUL at every end.  The constructors allocate
    with [malloc]; running out of memory is not modelled. *)

From Stdlib Require Import Ascii String.
From S2P Require Import Prelude Printf.
Open Scope Z_scope.
Open Scope os_scope.

Abbreviation Ptr := (list Z).

(** ** Results: a value, the message of a panic, the rest of a line that the
    parser did not use (reported before the panic "syntax"), or not enough fuel *)

Inductive Res (A : Type) := Ok (a : A) | Syntax (m : string) | Leftovers (s : list Z) | Fuel.
Arguments Ok {A} a.
Arguments Syntax {A} m.
Arguments Leftovers {A} s.
Arguments Fuel {A}.

#[global] Instance Res_bind : MBind Res := λ A B f m,
  match m with Ok a => f a | Syntax e => Syntax e | Leftovers s => Leftovers s | Fuel => Fuel end.
#[global] Instance Res_ret : MRet Res := @Ok.

(** ** Data *)

Definition MAXARGS : nat := 10.

Definition O_RDONLY : Z := 0.
Definition O_WRONLY : Z := 1.
Definition O_RDWR : Z := 2.
Definition O_CREATE : Z := 512.
Definition O_TRUNC : Z := 1024.

Inductive Cmd :=
  | EXEC (argv : list (Ptr * Ptr))
  | REDIR (c : Cmd) (file efile : Ptr) (mode fd : Z)
  | PIPE (left right : Cmd)
  | LIST (left right : Cmd)
  | BACK (c : Cmd).

Record Redir := mkRedir { r_q : Ptr; r_eq : Ptr; r_mode : Z; r_fd : Z }.
Definition redircmd (c : Cmd) (r : Redir) : Cmd := REDIR c (r_q r) (r_eq r) (r_mode r) (r_fd r).

(** ** Tokens *)

(** [" \t\r\n\v"] and ["<|>&;()"]. *)
Definition whitespace : list Z := [32; 9; 13; 10; 11].
Definition symbols : list Z := text "<|>&;()".

#[global] Arguments whitespace : simpl never.
#[global] Arguments symbols : simpl never.
#[global] Arguments text : simpl never.

Definition mem_chr (l : list Z) (c : Z) : bool := bool_decide (c ∈ l).

(** [while (s < es && strchr(whitespace, *s)) s++;] *)
Fixpoint skip_ws (s : Ptr) : Ptr :=
  match s with
  | x :: s' => if mem_chr whitespace x then skip_ws s' else s
  | [] => []
  end.

(** [while (s < es && !strchr(whitespace, *s) && !strchr(symbols, *s)) s++;] *)
Fixpoint skip_word (s : Ptr) : Ptr :=
  match s with
  | x :: s' => if mem_chr whitespace x || mem_chr symbols x then s else skip_word s'
  | [] => []
  end.

Definition WORD : Z := chr "a".
Definition APPEND : Z := chr "+".

(** [gettoken]: the kind of token, its first byte, its end, and the pointer
    behind the white space that follows. *)
Definition gettoken (ps : Ptr) : Z * Ptr * Ptr * Ptr :=
  let q := skip_ws ps in
  match q with
  | [] => (0, q, q, q)
  | x :: s =>
      let '(ret, eq) :=
        if x =? chr ">" then
          match s with
          | y :: s' => if y =? chr ">" then (APPEND, s') else (x, s)
          | [] => (x, s)
          end
        else if mem_chr symbols x then (x, s)
        else (WORD, skip_word q) in
      (ret, q, eq, skip_ws eq)
  end.

(** [peek] moves the pointer to the next byte that is not white space. *)
Definition peek (ps : Ptr) (toks : string) : bool :=
  match ps with x :: _ => mem_chr (text toks) x | [] => false end.

(** ** The parser *)

(** [while (peek(ps, es, "<>")) { ... }].  [parseredirs] wraps the command it
    is given once for each redirection; here it returns the redirections in
    order, because [parseexec] adds arguments to the command inside the
    wrappers afterwards. *)
Fixpoint redirs_loop (fuel : nat) (s : Ptr) : Res (list Redir * Ptr) :=
  let s := skip_ws s in
  if peek s "<>" then
    match fuel with
    | O => Fuel
    | S f =>
        let '(tok, _, _, s) := gettoken s in
        let '(w, q, eq, s) := gettoken s in
        if negb (w =? WORD) then Syntax "missing file for redirection" else
        let r := if tok =? chr "<" then mkRedir q eq O_RDONLY 0
                 else if tok =? chr ">" then mkRedir q eq (Z.lor (Z.lor O_WRONLY O_CREATE) O_TRUNC) 1
                 else mkRedir q eq (Z.lor O_WRONLY O_CREATE) 1 in
        '(rs, s) ← redirs_loop f s;
        mret (r :: rs, s)
    end
  else mret ([], s).
Definition parseredirs (s : Ptr) : Res (list Redir * Ptr) := redirs_loop (length s) s.

(** The argument loop of [parseexec]. *)
Fixpoint args_loop (fuel : nat) (s : Ptr) (argv : list (Ptr * Ptr)) (rs : list Redir)
    : Res (list (Ptr * Ptr) * list Redir * Ptr) :=
  let s := skip_ws s in
  if peek s "|)&;" then mret (argv, rs, s)
  else
    let '(tok, q, eq, s) := gettoken s in
    if tok =? 0 then mret (argv, rs, s) else
    if negb (tok =? WORD) then Syntax "syntax" else
    let argv := argv ++ [(q, eq)] in
    if (MAXARGS <=? length argv)%nat then Syntax "too many args" else
    match fuel with
    | O => Fuel
    | S f => '(rs', s) ← parseredirs s; args_loop f s argv (rs ++ rs')
    end.

(** [while (peek(ps, es, "&")) { gettoken(...); cmd = backcmd(cmd); }] *)
Fixpoint back_loop (fuel : nat) (cmd : Cmd) (s : Ptr) : Res (Cmd * Ptr) :=
  let s := skip_ws s in
  if peek s "&" then
    match fuel with
    | O => Fuel
    | S f => let '(_, _, _, s) := gettoken s in back_loop f (BACK cmd) s
    end
  else mret (cmd, s).

Fixpoint parseline (fuel : nat) (s : Ptr) : Res (Cmd * Ptr) :=
  match fuel with
  | O => Fuel
  | S f =>
      '(cmd, s) ← parsepipe f s;
      '(cmd, s) ← back_loop (length s) cmd s;
      let s := skip_ws s in
      if peek s ";" then
        let '(_, _, _, s) := gettoken s in
        '(rcmd, s) ← parseline f s;
        mret (LIST cmd rcmd, s)
      else mret (cmd, s)
  end
with parsepipe (fuel : nat) (s : Ptr) : Res (Cmd * Ptr) :=
  match fuel with
  | O => Fuel
  | S f =>
      '(cmd, s) ← parseexec f s;
      let s := skip_ws s in
      if peek s "|" then
        let '(_, _, _, s) := gettoken s in
        '(rcmd, s) ← parsepipe f s;
        mret (PIPE cmd rcmd, s)
      else mret (cmd, s)
  end
with parseexec (fuel : nat) (s : Ptr) : Res (Cmd * Ptr) :=
  match fuel with
  | O => Fuel
  | S f =>
      let s := skip_ws s in
      if peek s "(" then parseblock f s
      else
        '(rs, s) ← parseredirs s;
        '(argv, rs, s) ← args_loop (length s) s [] rs;
        mret (foldl redircmd (EXEC argv) rs, s)
  end
with parseblock (fuel : nat) (s : Ptr) : Res (Cmd * Ptr) :=
  match fuel with
  | O => Fuel
  | S f =>
      let s := skip_ws s in
      if negb (peek s "(") then Syntax "parseblock" else
      let '(_, _, _, s) := gettoken s in
      '(cmd, s) ← parseline f s;
      let s := skip_ws s in
      if negb (peek s ")") then Syntax "syntax - missing )" else
      let '(_, _, _, s) := gettoken s in
      '(rs, s) ← parseredirs s;
      mret (foldl redircmd cmd rs, s)
  end.

(** ** [nulterminate]: the line buffer with a NUL at the end of each word *)

(** [*p = 0] in the buffer of a line of [n] bytes. *)
Definition put_nul (n : nat) (p : Ptr) (buf : list Z) : list Z := <[(n - length p)%nat := 0]> buf.

Fixpoint nulterminate (n : nat) (cmd : Cmd) (buf : list Z) : list Z :=
  match cmd with
  | EXEC argv => foldl (λ b w, put_nul n w.2 b) buf argv
  | REDIR c _ efile _ _ => put_nul n efile (nulterminate n c buf)
  | PIPE l r | LIST l r => nulterminate n r (nulterminate n l buf)
  | BACK c => nulterminate n c buf
  end.

(** The bytes of the buffer include the terminator of the line. *)
Definition parsecmd (s : Ptr) : Res (Cmd * list Z) :=
  '(cmd, rest) ← parseline (4 * length s + 4) s;
  let rest := skip_ws rest in
  if bool_decide (rest = []) then mret (cmd, nulterminate (length s) cmd (s ++ [0]))
  else Leftovers rest.

(** ** The command as [runcmd] sees it *)

Inductive Script :=
  | Exec (args : list (list Z))
  | Redirect (c : Script) (file : list Z) (mode fd : Z)
  | Pipe (left right : Script)
  | Seq (left right : Script)
  | Bg (c : Script).

(** The C string in the buffer at a pointer. *)
Fixpoint until_nul (s : list Z) : list Z :=
  match s with x :: s' => if x =? 0 then [] else x :: until_nul s' | [] => [] end.
Definition string_at (n : nat) (buf : list Z) (p : Ptr) : list Z := until_nul (drop (n - length p) buf).

Fixpoint script (n : nat) (buf : list Z) (cmd : Cmd) : Script :=
  match cmd with
  | EXEC argv => Exec ((λ w, string_at n buf w.1) <$> argv)
  | REDIR c file _ mode fd => Redirect (script n buf c) (string_at n buf file) mode fd
  | PIPE l r => Pipe (script n buf l) (script n buf r)
  | LIST l r => Seq (script n buf l) (script n buf r)
  | BACK c => Bg (script n buf c)
  end.

(** What a line means to the shell. *)
Definition understood (s : Ptr) : Res Script :=
  '(cmd, buf) ← parsecmd s;
  mret (script (length s) buf cmd).

Example sh_sample :
  understood (text "grep -v x < in | (wc; echo a>>b) & ; ls ;") =
  Ok (Seq (Bg (Pipe (Redirect (Exec [text "grep"; text "-v"; text "x"]) (text "in") O_RDONLY 0)
                    (Seq (Exec [text "wc"]) (Redirect (Exec [text "echo"; text "a"]) (text "b") 513 1))))
          (Seq (Exec [text "ls"]) (Exec []))).
Proof. vm_compute. reflexivity. Qed.
