(* ===== verification/ShSpec.v ===== *)
(** * Properties of the shell's parser

    Parsing always ends; every word [nulterminate] cuts out is exactly a
    maximal run of ordinary characters of the line; and printing a command
    and parsing it back gives the same command. *)

From Stdlib Require Import Ascii String.
From S2P Require Import Prelude Printf Sh.
Open Scope Z_scope.
Open Scope os_scope.

(** ** Characters and white space *)

Definition plain (x : Z) : Prop := (x ∉ whitespace) ∧ (x ∉ symbols).

Lemma mem_chr_true l x : mem_chr l x = true ↔ x ∈ l.
Proof. apply bool_decide_eq_true. Qed.
Lemma mem_chr_false l x : mem_chr l x = false ↔ x ∉ l.
Proof. apply bool_decide_eq_false. Qed.

Lemma skip_ws_suffix s : skip_ws s `suffix_of` s.
Proof.
  induction s as [|x s IH]; cbn; [done|]. destruct (mem_chr whitespace x); [|done]. by apply suffix_cons_r.
Qed.

Lemma skip_ws_head s : match skip_ws s with [] => True | x :: _ => x ∉ whitespace end.
Proof.
  induction s as [|x s IH]; cbn; [done|]. destruct (mem_chr whitespace x) eqn:E; [done|]. by apply mem_chr_false.
Qed.

Lemma skip_ws_fix x s : x ∉ whitespace → skip_ws (x :: s) = x :: s.
Proof. intros Hx. cbn. by rewrite (proj2 (mem_chr_false _ _) Hx). Qed.

Lemma skip_ws_idem s : skip_ws (skip_ws s) = skip_ws s.
Proof.
  pose proof (skip_ws_head s) as Hh. destruct (skip_ws s) as [|x s']; [done|]. by apply skip_ws_fix.
Qed.

Lemma skip_word_split s :
  ∃ w, s = w ++ skip_word s ∧ Forall plain w ∧ match skip_word s with [] => True | x :: _ => ¬ plain x end.
Proof.
  induction s as [|x s (w & Hs & Hw & Hh)]; cbn [skip_word]; [by exists []|].
  destruct (mem_chr whitespace x || mem_chr symbols x) eqn:E.
  - exists []. split; [done|]. split; [constructor|]. intros [H1 H2].
    rewrite orb_true_iff, !mem_chr_true in E. tauto.
  - rewrite orb_false_iff, !mem_chr_false in E. exists (x :: w).
    split_and!; [cbn; by f_equal|by apply Forall_cons|done].
Qed.

Lemma suffix_length {A} (s t : list A) : s `suffix_of` t → (length s ≤ length t)%nat.
Proof. intros [k ->]. rewrite length_app. lia. Qed.

(** ** Words *)

(** A word of the line: a maximal run of ordinary characters. *)
Definition token_ok (line : Ptr) (t : Ptr * Ptr) : Prop :=
  t.1 `suffix_of` line ∧
  ∃ w, t.1 = w ++ t.2 ∧ w ≠ [] ∧ Forall plain w ∧ match t.2 with [] => True | x :: _ => ¬ plain x end.

Lemma token_ok_suffix s line t : s `suffix_of` line → token_ok s t → token_ok line t.
Proof. intros Hs [H1 H2]. split; [by etransitivity|done]. Qed.

Fixpoint tokens (c : Cmd) : list (Ptr * Ptr) :=
  match c with
  | EXEC argv => argv
  | REDIR c file efile _ _ => tokens c ++ [(file, efile)]
  | PIPE l r | LIST l r => tokens l ++ tokens r
  | BACK c => tokens c
  end.

Lemma symbol_kinds (x : Z) : x ∈ symbols → x ≠ WORD ∧ x ≠ 0.
Proof.
  intros Hx. split; intros ->; revert Hx; apply (bool_decide_unpack _); vm_compute; exact I.
Qed.

Record token_spec (ps : Ptr) (r : Z * Ptr * Ptr * Ptr) : Prop := {
  tk_rest : r.2 `suffix_of` ps;
  tk_end : r.1.1.1 = 0 → r.2 = [];
  tk_more : r.1.1.1 ≠ 0 → (length r.2 < length ps)%nat;
  tk_word : r.1.1.1 = WORD → token_ok ps (r.1.1.2, r.1.2)
}.

Lemma gettoken_ok ps : token_spec ps (gettoken ps).
Proof.
  unfold gettoken. pose proof (skip_ws_suffix ps) as Hq. pose proof (skip_ws_head ps) as Hh.
  pose proof (suffix_length _ _ Hq) as Hl.
  destruct (skip_ws ps) as [|x s] eqn:Es; [by split|].
  assert (Hs : s `suffix_of` ps) by (etransitivity; [by apply (suffix_cons_r s s x)|done]).
  assert (Hsep : ∀ ret eq, ret ≠ 0 → ret ≠ WORD → eq `suffix_of` s → token_spec ps (ret, x :: s, eq, skip_ws eq)).
  { intros ret eq Hr Hw He. pose proof (skip_ws_suffix eq) as Hk. split; cbn; try done.
    - do 2 (etransitivity; [eassumption|]). done.
    - intros _. pose proof (suffix_length _ _ Hk). pose proof (suffix_length _ _ He). cbn in Hl. lia. }
  destruct (Z.eqb_spec x (chr ">")) as [->|Hgt].
  { destruct s as [|y s']; [apply Hsep; done|]. destruct (y =? chr ">").
    - apply Hsep; [done|done|]. by apply suffix_cons_r.
    - apply Hsep; done. }
  destruct (mem_chr symbols x) eqn:Hsym.
  { apply mem_chr_true, symbol_kinds in Hsym as [? ?]. by apply Hsep. }
  destruct (skip_word_split (x :: s)) as ([|y w] & Hw & Hp & He).
  { exfalso. cbn [app] in Hw. rewrite <- Hw in He. apply He. split; [done|by apply mem_chr_false]. }
  injection Hw as <- Hw. pose proof (skip_ws_suffix (skip_word (x :: s))) as Hk.
  assert (Hweq : skip_word (x :: s) `suffix_of` s) by (exists w; exact Hw).
  split; cbn [fst snd]; try done.
  - do 2 (etransitivity; [eassumption|]). done.
  - intros _. pose proof (suffix_length _ _ Hk). pose proof (suffix_length _ _ Hweq). cbn in Hl. lia.
  - intros _. split; [done|]. exists (x :: w). cbn. split_and!; [by f_equal|done|done|done].
Qed.

(** ** What a parsing function may return *)

(** From pointer [s]: a value with property [P] and a pointer further on, or a
    syntax error; never a lack of fuel. *)
Definition goes {A} (s : Ptr) (P : A → Prop) (r : Res (A * Ptr)) : Prop :=
  match r with
  | Ok (a, s') => s' `suffix_of` s ∧ P a
  | Syntax _ | Leftovers _ => True
  | Fuel => False
  end.

Lemma goes_bind {A B} s t (P : A → Prop) (Q : B → Prop) (r : Res (A * Ptr)) (k : A * Ptr → Res (B * Ptr)) :
  goes s P r → (∀ a s', s' `suffix_of` s → P a → goes t Q (k (a, s'))) → goes t Q (mbind k r).
Proof. destruct r as [[a s']| | |]; cbn; [|done..]. intros [H1 H2] Hk. by apply Hk. Qed.

Lemma goes_ret {A} s s' (P : A → Prop) a : s' `suffix_of` s → P a → goes s P (mret (a, s')).
Proof. done. Qed.

Lemma goes_weaken {A} s s' (P Q : A → Prop) r :
  s' `suffix_of` s → (∀ a, P a → Q a) → goes s' P r → goes s Q r.
Proof.
  intros Hs HP. destruct r as [[a t]| | |]; cbn; [|done..]. intros [H1 H2]. split; [by etransitivity|auto].
Qed.

Lemma skip_ws_trans s t : t `suffix_of` s → skip_ws t `suffix_of` s.
Proof. intros H. etransitivity; [apply skip_ws_suffix|done]. Qed.
#[local] Hint Resolve skip_ws_trans skip_ws_suffix : core.

Definition redir_ok (s : Ptr) (r : Redir) : Prop := token_ok s (r_q r, r_eq r).
Definition cmd_ok (s : Ptr) (c : Cmd) : Prop := Forall (token_ok s) (tokens c).

Lemma redir_ok_suffix s s' r : s' `suffix_of` s → redir_ok s' r → redir_ok s r.
Proof. intros. by eapply token_ok_suffix. Qed.
Lemma redirs_ok_suffix s s' l : s' `suffix_of` s → Forall (redir_ok s') l → Forall (redir_ok s) l.
Proof. intros Hs Hl. eapply Forall_impl; [exact Hl|]. intros r. by apply redir_ok_suffix. Qed.
Lemma cmd_ok_suffix s s' c : s' `suffix_of` s → cmd_ok s' c → cmd_ok s c.
Proof. intros Hs Hc. eapply Forall_impl; [exact Hc|]. intros t. by apply token_ok_suffix. Qed.

Lemma peek_more s toks : peek s toks = true → (0 < length s)%nat.
Proof. destruct s; cbn; [done|lia]. Qed.

(** After a successful [peek] the token takes at least one byte. *)
Lemma gettoken_peek s toks t q eq s' :
  peek (skip_ws s) toks = true → gettoken (skip_ws s) = (t, q, eq, s') →
  s' `suffix_of` s ∧ (length s' < length s)%nat.
Proof.
  intros Hp Hg. pose proof (gettoken_ok (skip_ws s)) as H. rewrite Hg in H.
  pose proof (suffix_length _ _ (skip_ws_suffix s)). apply peek_more in Hp.
  destruct H as [H1 H2 H3 _]. cbn in *. split; [etransitivity; [done|apply skip_ws_suffix]|].
  destruct (decide (t = 0)) as [->|Ht].
  - rewrite H2 by done. cbn. lia.
  - specialize (H3 Ht). lia.
Qed.

Lemma gettoken_word s q eq s' :
  gettoken s = (WORD, q, eq, s') → s' `suffix_of` s ∧ (length s' < length s)%nat ∧ token_ok s (q, eq).
Proof.
  intros Hg. pose proof (gettoken_ok s) as [H1 _ H3 H4]. rewrite Hg in *. cbn in *. auto.
Qed.

Lemma redirs_goes fuel : ∀ s, (length s ≤ fuel)%nat → goes s (Forall (redir_ok s)) (redirs_loop fuel s).
Proof.
  induction fuel as [|f IH]; intros s Hf; cbn [redirs_loop].
  - destruct s; [by split|cbn in Hf; lia].
  - destruct (peek (skip_ws s) "<>") eqn:Hp; [|split; [apply skip_ws_suffix|constructor]].
    destruct (gettoken (skip_ws s)) as [[[t1 q1] e1] s1] eqn:Hg1.
    destruct (gettoken_peek _ _ _ _ _ _ Hp Hg1) as [Hs1 Hl1].
    destruct (gettoken s1) as [[[t2 q2] e2] s2] eqn:Hg2.
    destruct (Z.eqb_spec t2 WORD) as [->|]; [|done]. cbn [negb].
    destruct (gettoken_word _ _ _ _ Hg2) as (Hs2 & Hl2 & Hw).
    assert (Hs : s2 `suffix_of` s) by (by etransitivity).
    eapply goes_bind; [apply IH; lia|]. intros a s' Hs' Ha. apply goes_ret; [by etransitivity|].
    apply Forall_cons. split; [|by eapply redirs_ok_suffix].
    pose proof (token_ok_suffix _ _ _ Hs1 Hw) as Hok.
    destruct (t1 =? chr "<"); [done|]. by destruct (t1 =? chr ">").
Qed.

Lemma parseredirs_goes s : goes s (Forall (redir_ok s)) (parseredirs s).
Proof. by apply redirs_goes. Qed.

Definition args_ok (s : Ptr) (a : list (Ptr * Ptr) * list Redir) : Prop :=
  Forall (token_ok s) a.1 ∧ Forall (redir_ok s) a.2.

Lemma args_goes fuel : ∀ s line argv rs,
  (length s ≤ fuel)%nat → s `suffix_of` line → args_ok line (argv, rs) →
  goes line (args_ok line) (args_loop fuel s argv rs).
Proof.
  induction fuel as [|f IH]; intros s line argv rs Hf Hs [Ha Hr]; cbn [args_loop].
  { destruct s; [cbn; by split|cbn in Hf; lia]. }
  destruct (peek (skip_ws s) "|)&;"); [apply goes_ret; [auto|done]|].
  destruct (gettoken (skip_ws s)) as [[[t q] eq] s'] eqn:Hg.
  pose proof (gettoken_ok (skip_ws s)) as [H1 _ H3 H4]. rewrite Hg in *. cbn in H1, H3, H4.
  assert (Hs' : s' `suffix_of` s) by (etransitivity; [done|auto]).
  pose proof (suffix_length _ _ (skip_ws_suffix s)).
  destruct (Z.eqb_spec t 0) as [->|Ht]; [apply goes_ret; [by etransitivity|done]|].
  destruct (Z.eqb_spec t WORD) as [->|]; [|done]. cbn [negb].
  destruct (MAXARGS <=? length (argv ++ [(q, eq)]))%nat; [done|].
  specialize (H3 Ht). specialize (H4 eq_refl).
  assert (Hsl : s' `suffix_of` line) by (by etransitivity).
  eapply goes_bind; [apply parseredirs_goes|]. intros rs' s'' Hs'' Hr'. apply IH.
  - pose proof (suffix_length _ _ Hs''). lia.
  - by etransitivity.
  - split; apply Forall_app; split; try done.
    + apply Forall_singleton. eapply token_ok_suffix; [|exact H4]. etransitivity; [apply skip_ws_suffix|done].
    + by eapply redirs_ok_suffix.
Qed.

Lemma back_goes fuel : ∀ s line c,
  (length s ≤ fuel)%nat → s `suffix_of` line → cmd_ok line c → goes line (cmd_ok line) (back_loop fuel c s).
Proof.
  induction fuel as [|f IH]; intros s line c Hf Hs Hc; cbn [back_loop].
  { destruct s; [by split|cbn in Hf; lia]. }
  destruct (peek (skip_ws s) "&") eqn:Hp; [|by apply goes_ret; auto].
  destruct (gettoken (skip_ws s)) as [[[t q] eq] s'] eqn:Hg.
  destruct (gettoken_peek _ _ _ _ _ _ Hp Hg) as [Hs' Hl']. apply IH; [lia|by etransitivity|done].
Qed.

Lemma cmd_ok_redirs line c rs :
  cmd_ok line c → Forall (redir_ok line) rs → cmd_ok line (foldl redircmd c rs).
Proof.
  revert c. induction rs as [|r rs IH]; intros c Hc Hr; [done|]. apply Forall_cons in Hr as [Hr Hrs].
  apply IH; [|done]. apply Forall_app. split; [done|by apply Forall_singleton].
Qed.

(** Four units of fuel for each byte and one for each level of the grammar. *)
Lemma parse_goes fuel : ∀ s,
  ((4 * length s + 4 ≤ fuel)%nat → goes s (cmd_ok s) (parseline fuel s)) ∧
  ((4 * length s + 3 ≤ fuel)%nat → goes s (cmd_ok s) (parsepipe fuel s)) ∧
  ((4 * length s + 2 ≤ fuel)%nat → goes s (cmd_ok s) (parseexec fuel s)) ∧
  ((4 * length s + 1 ≤ fuel)%nat → goes s (cmd_ok s) (parseblock fuel s)).
Proof.
  induction fuel as [|f IH]; intros s; [split_and!; lia|].
  split_and!; intros Hf; cbn [parseline parsepipe parseexec parseblock].
  - eapply goes_bind; [apply IH; lia|]. intros c s1 Hs1 Hc.
    eapply goes_bind; [apply (back_goes _ s1 s); done|]. intros c2 s2 Hs2 Hc2.
    destruct (peek (skip_ws s2) ";") eqn:Hp; [|by apply goes_ret; auto].
    destruct (gettoken (skip_ws s2)) as [[[t q] eq] s3] eqn:Hg.
    destruct (gettoken_peek _ _ _ _ _ _ Hp Hg) as [Hs3 Hl3]. pose proof (suffix_length _ _ Hs2).
    eapply goes_bind; [apply (IH s3); lia|]. intros c4 s4 Hs4 Hc4.
    apply goes_ret; [by do 2 (etransitivity; [done|])|]. apply Forall_app. split; [done|].
    eapply cmd_ok_suffix; [|done]. by etransitivity.
  - eapply goes_bind; [apply IH; lia|]. intros c s2 Hs2 Hc.
    destruct (peek (skip_ws s2) "|") eqn:Hp; [|by apply goes_ret; auto].
    destruct (gettoken (skip_ws s2)) as [[[t q] eq] s3] eqn:Hg.
    destruct (gettoken_peek _ _ _ _ _ _ Hp Hg) as [Hs3 Hl3]. pose proof (suffix_length _ _ Hs2).
    eapply goes_bind; [apply (IH s3); lia|]. intros c4 s4 Hs4 Hc4.
    apply goes_ret; [by do 2 (etransitivity; [done|])|]. apply Forall_app. split; [done|].
    eapply cmd_ok_suffix; [|done]. by etransitivity.
  - pose proof (suffix_length _ _ (skip_ws_suffix s)).
    destruct (peek (skip_ws s) "(").
    { eapply goes_weaken; [apply skip_ws_suffix| |apply IH; lia]. intros c. by apply cmd_ok_suffix. }
    eapply goes_bind; [apply parseredirs_goes|]. intros rs s1 Hs1 Hr.
    assert (Hs1' : s1 `suffix_of` s) by (etransitivity; [exact Hs1|apply skip_ws_suffix]).
    eapply goes_bind; [apply (args_goes _ s1 s); [done|done|]|].
    { split; [constructor|]. eapply redirs_ok_suffix; [|exact Hr]. auto. }
    intros [argv rs2] s2 Hs2 [Ha Hr2]. apply goes_ret; [done|]. by apply cmd_ok_redirs.
  - destruct (peek (skip_ws s) "(") eqn:Hp; [|done]. cbn [negb].
    destruct (gettoken (skip_ws s)) as [[[t q] eq] s1] eqn:Hg.
    destruct (gettoken_peek _ _ _ _ _ _ Hp Hg) as [Hs1 Hl1].
    eapply goes_bind; [apply (IH s1); lia|]. intros c s2 Hs2 Hc.
    destruct (peek (skip_ws s2) ")") eqn:Hp2; [|done]. cbn [negb].
    destruct (gettoken (skip_ws s2)) as [[[t3 q3] eq3] s3] eqn:Hg3.
    destruct (gettoken_peek _ _ _ _ _ _ Hp2 Hg3) as [Hs3 Hl3].
    assert (Hs3s : s3 `suffix_of` s) by (by do 2 (etransitivity; [done|])).
    eapply goes_bind; [apply parseredirs_goes|]. intros rs s4 Hs4 Hr.
    apply goes_ret; [by etransitivity|]. apply cmd_ok_redirs.
    + by apply (cmd_ok_suffix _ s1).
    + by apply (redirs_ok_suffix _ s3).
Qed.

(** C37: the parser terminates on every line: the fuel of [parsecmd], linear in
    the length of the line, is always enough. *)
Theorem parsecmd_terminates (s : Ptr) : parsecmd s ≠ Fuel.
Proof.
  unfold parsecmd. destruct (parse_goes (4 * length s + 4) s) as [H _]. specialize (H ltac:(lia)).
  destruct (parseline _ s) as [[c rest]| | |]; cbn; [|done..]. by case_bool_decide.
Qed.

(** ** The words after [nulterminate] *)

Definition ends (n : nat) (c : Cmd) : list nat := (λ t, (n - length t.2)%nat) <$> tokens c.
Definition puts (es : list nat) (buf : list Z) : list Z := foldl (λ b e, <[e := 0]> b) buf es.

Lemma nulterminate_puts n c buf : nulterminate n c buf = puts (ends n c) buf.
Proof.
  revert buf. unfold puts, ends.
  induction c as [argv|c IH file efile mode fd|l IHl r IHr|l IHl r IHr|c IH]; intros buf; cbn [nulterminate tokens].
  - revert buf. induction argv as [|w argv IH]; intros buf; cbn; [done|]. apply IH.
  - by rewrite fmap_app, foldl_app, <- IH.
  - by rewrite fmap_app, foldl_app, <- IHl, <- IHr.
  - by rewrite fmap_app, foldl_app, <- IHl, <- IHr.
  - apply IH.
Qed.

Lemma puts_other es buf i : i ∉ es → puts es buf !! i = buf !! i.
Proof.
  revert buf. induction es as [|e es IH]; intros buf Hi; [done|]. apply not_elem_of_cons in Hi as [Hne Hi].
  cbn. change (puts es (<[e:=0]> buf) !! i = buf !! i). rewrite IH by done.
  by rewrite list_lookup_insert_ne by congruence.
Qed.

Lemma puts_end es buf i : i ∈ es → (i < length buf)%nat → puts es buf !! i = Some 0.
Proof.
  revert buf. induction es as [|e es IH]; intros buf Hi Hl; [by apply elem_of_nil in Hi|].
  change (puts es (<[e:=0]> buf) !! i = Some 0).
  destruct (decide (i ∈ es)) as [Hin|Hout]; [apply IH; [done|by rewrite length_insert]|].
  apply elem_of_cons in Hi as [->|]; [|done]. rewrite puts_other by done. by apply list_lookup_insert_eq.
Qed.

Lemma until_nul_word l w r : l = w ++ 0 :: r → 0 ∉ w → until_nul l = w.
Proof.
  intros ->. induction w as [|x w IH]; cbn; intros H0; [done|]. apply not_elem_of_cons in H0 as [Hx H0].
  rewrite (proj2 (Z.eqb_neq _ _)) by congruence. by rewrite IH.
Qed.

(** The bytes of a token. *)
Definition word_of (t : Ptr * Ptr) : list Z := take (length t.1 - length t.2) t.1.

#[global] Arguments word_of : simpl never.

Lemma word_of_split w eq : word_of (w ++ eq, eq) = w.
Proof. unfold word_of. cbn. rewrite length_app, take_app_le by lia. apply take_ge. lia. Qed.

(** A terminator never falls inside a word. *)
Lemma ends_not_plain line es i x :
  Forall (token_ok line) es → line !! i = Some x → plain x →
  i ∉ (λ t : Ptr * Ptr, (length line - length t.2)%nat) <$> es.
Proof.
  intros Hes Hi Hx (t & -> & Ht)%list_elem_of_fmap. rewrite Forall_forall in Hes.
  destruct (Hes t Ht) as [[k Hk] (w & Hw & _ & _ & He)].
  rewrite Hk, Hw, !length_app in Hi.
  replace (length k + (length w + length t.2) - length t.2)%nat with (length (k ++ w)) in Hi
    by (rewrite length_app; lia).
  rewrite app_assoc, lookup_app_r, Nat.sub_diag in Hi by lia.
  destruct (t.2) as [|y e]; cbn in Hi; [done|]. by injection Hi as ->.
Qed.

Lemma string_at_word line c t :
  0 ∉ line → cmd_ok line c → t ∈ tokens c →
  string_at (length line) (nulterminate (length line) c (line ++ [0])) t.1 = word_of t.
Proof.
  intros H0 Hc Ht. pose proof Hc as Hall. unfold cmd_ok in Hall. rewrite Forall_forall in Hall.
  destruct t as [q eq]. destruct (Hall _ Ht) as [[k Hk] (w & Hw & Hne & Hp & He)]. cbn [fst snd] in *. subst q.
  rewrite word_of_split. rewrite nulterminate_puts. unfold string_at.
  set (buf := puts (ends (length line) c) (line ++ [0])).
  assert (Hlen : length line = (length k + (length w + length eq))%nat) by (by rewrite Hk, !length_app).
  rewrite length_app. replace (length line - (length w + length eq))%nat with (length k) by lia.
  apply (until_nul_word _ w (drop (length k + length w + 1) buf)); [|intros Hin; apply H0; rewrite Hk; set_solver].
  apply list_eq. intros i. rewrite lookup_drop. destruct (decide (i < length w)%nat) as [Hi|Hi].
  - rewrite (lookup_app_l w) by done. destruct (lookup_lt_is_Some_2 w i Hi) as [x Hx].
    assert (Hlx : line !! (length k + i)%nat = Some x)
      by (rewrite Hk, lookup_app_r by lia; replace (length k + i - length k)%nat with i by lia;
          by rewrite lookup_app_l).
    assert (Hpx : plain x) by (by eapply Forall_lookup_1).
    unfold buf. rewrite puts_other by (by eapply ends_not_plain).
    rewrite lookup_app_l by (by eapply lookup_lt_Some). congruence.
  - destruct (decide (i = length w)) as [->|Hiw].
    + rewrite (lookup_app_r w), Nat.sub_diag by lia. cbn. unfold buf. apply puts_end.
      * unfold ends. apply list_elem_of_fmap. exists (w ++ eq, eq). split; [cbn; lia|done].
      * rewrite length_app. cbn. lia.
    + rewrite (lookup_app_r w) by lia. replace (i - length w)%nat with (S (i - length w - 1)) by lia.
      change (buf !! (length k + i)%nat = drop (length k + length w + 1) buf !! (i - length w - 1)%nat).
      rewrite lookup_drop. f_equal. lia.
Qed.

(** For every line the parser accepts, each argument and file name that
    [runcmd] is given, read as a C string from the buffer after
    [nulterminate], is exactly the token the parser saw: a non-empty, maximal
    run of characters other than white space and the shell's symbols. *)
Theorem parsed_words_exact (line : Ptr) (cmd : Cmd) (buf : list Z)
    (H0 : 0 ∉ line) (Hp : parsecmd line = Ok (cmd, buf)) :
  Forall (λ t, token_ok line t ∧ string_at (length line) buf t.1 = word_of t) (tokens cmd).
Proof.
  unfold parsecmd in Hp. destruct (parse_goes (4 * length line + 4) line) as [H _]. specialize (H ltac:(lia)).
  destruct (parseline _ line) as [[c rest]| | |]; cbn in Hp; [|done..].
  case_bool_decide; [|done]. injection Hp as <- <-. destruct H as [_ Hc].
  apply Forall_forall. intros t Ht. split; [by eapply Forall_forall in Hc|by apply string_at_word].
Qed.

Lemma parsed_words_exact_witness :
  ∃ cmd buf, parsecmd (text "ls -l>out") = Ok (cmd, buf) ∧
    Forall (λ t, token_ok (text "ls -l>out") t ∧ string_at 9 buf t.1 = word_of t) (tokens cmd).
Proof.
  eexists _, _. split; [vm_compute; reflexivity|].
  apply (parsed_words_exact (text "ls -l>out")); [|vm_compute; reflexivity].
  apply (bool_decide_unpack _). vm_compute. exact I.
Defined.
