(* ===== verification/ShPrint.v ===== *)
(** * Printing a command and parsing it back *)

From Stdlib Require Import Ascii String.
From S2P Require Import Prelude Printf Sh ShSpec.
Open Scope Z_scope.
Open Scope os_scope.

Definition SP : Z := 32.

Definition pr_word (w : list Z) : list Z := w ++ [SP].
Definition pr_redir (file : list Z) (mode : Z) : list Z :=
  (if mode =? O_RDONLY then [chr "<"]
   else if mode =? Z.lor O_WRONLY O_CREATE then [chr ">"; chr ">"] else [chr ">"]) ++ SP :: pr_word file.
Definition paren (b : bool) (s : list Z) : list Z := if b then [chr "("] ++ s ++ [chr ")"] else s.

(** [lvl] is 0 for a line, 1 for the part before a semicolon, 2 for a
    pipeline and 3 for an element of a pipeline. *)
Fixpoint pr (c : Script) (lvl : nat) : list Z :=
  match c with
  | Exec args => concat (pr_word <$> args)
  | Redirect c file mode fd => pr c 3 ++ pr_redir file mode
  | Pipe l r => paren (2 <? lvl)%nat (pr l 3 ++ [chr "|"] ++ pr r 2)
  | Bg c => paren (1 <? lvl)%nat (pr c 1 ++ [chr "&"])
  | Seq l r => paren (0 <? lvl)%nat (pr l 1 ++ [chr ";"] ++ pr r 0)
  end.
Definition print (c : Script) : list Z := pr c 0.

(** A word the shell can read, and the redirections it knows. *)
Definition word_ok (w : list Z) : Prop := w ≠ [] ∧ Forall plain w ∧ (0 ∉ w).
Definition redir_kind (mode fd : Z) : Prop :=
  (mode = O_RDONLY ∧ fd = 0) ∨ (mode = Z.lor (Z.lor O_WRONLY O_CREATE) O_TRUNC ∧ fd = 1) ∨
  (mode = Z.lor O_WRONLY O_CREATE ∧ fd = 1).
Fixpoint script_ok (c : Script) : Prop :=
  match c with
  | Exec args => (length args < MAXARGS)%nat ∧ Forall word_ok args
  | Redirect c file mode fd => script_ok c ∧ word_ok file ∧ redir_kind mode fd
  | Pipe l r | Seq l r => script_ok l ∧ script_ok r
  | Bg c => script_ok c
  end.

#[global] Instance plain_dec x : Decision (plain x).
Proof. unfold plain. apply _. Defined.
#[global] Instance word_ok_dec w : Decision (word_ok w).
Proof. unfold word_ok. apply _. Defined.
#[global] Instance redir_kind_dec mode fd : Decision (redir_kind mode fd).
Proof. unfold redir_kind. apply _. Defined.
#[global] Instance script_ok_dec c : Decision (script_ok c).
Proof. induction c; cbn; apply _. Defined.

(** The command with its words in place of pointers. *)
Fixpoint erase (c : Cmd) : Script :=
  match c with
  | EXEC argv => Exec (word_of <$> argv)
  | REDIR c file efile mode fd => Redirect (erase c) (word_of (file, efile)) mode fd
  | PIPE l r => Pipe (erase l) (erase r)
  | LIST l r => Seq (erase l) (erase r)
  | BACK c => Bg (erase c)
  end.

(** What may come next: the first byte behind white space is in the set. *)
Definition follows (set : list Z) (k : Ptr) : Prop :=
  match skip_ws k with [] => True | x :: _ => x ∈ set end.

Definition F3 : list Z := text "|)&;".
Definition F2 : list Z := text ")&;".
Definition F1 : list Z := text ");".
Definition F0 : list Z := text ")".

Lemma follows_mono A B k : A ⊆ B → follows A k → follows B k.
Proof. unfold follows. intros H. destruct (skip_ws k); [done|]. apply H. Qed.

Ltac by_compute := apply (bool_decide_unpack _); vm_compute; exact I.

Lemma F23 : F2 ⊆ F3.
Proof. apply (bool_decide_unpack _). vm_compute. exact I. Qed.
Lemma F12 : F1 ⊆ F2.
Proof. apply (bool_decide_unpack _). vm_compute. exact I. Qed.
Lemma F01 : F0 ⊆ F1.
Proof. apply (bool_decide_unpack _). vm_compute. exact I. Qed.

(** A byte of one set is not looked for by a peek for another. *)
Lemma peek_false set toks k : follows set k → (∀ x, x ∈ set → x ∉ text toks) → peek (skip_ws k) toks = false.
Proof.
  unfold follows. intros Hf Hd. destruct (skip_ws k) as [|x s]; [done|]. cbn. apply mem_chr_false. auto.
Qed.
Lemma peek_true x s toks : x ∉ whitespace → x ∈ text toks → peek (skip_ws (x :: s)) toks = true.
Proof. intros Hw Hx. rewrite skip_ws_fix by done. by apply mem_chr_true. Qed.

Lemma skip_ws_sp s : skip_ws (SP :: s) = skip_ws s.
Proof. done. Qed.

(** ** Tokens of printed text *)

Lemma gettoken_skip s : gettoken (skip_ws s) = gettoken s.
Proof. unfold gettoken. by rewrite skip_ws_idem. Qed.

Lemma skip_word_plain w s : Forall plain w → (match s with [] => True | x :: _ => ¬ plain x end) → skip_word (w ++ s) = s.
Proof.
  intros Hw Hs. induction Hw as [|x w [H1 H2] Hw IH]; cbn [app skip_word].
  - destruct s as [|x s]; [done|]. cbn [skip_word]. destruct (mem_chr whitespace x) eqn:E1; [done|].
    destruct (mem_chr symbols x) eqn:E2; [done|]. exfalso. apply Hs.
    split; by apply mem_chr_false.
  - by rewrite (proj2 (mem_chr_false _ _) H1), (proj2 (mem_chr_false _ _) H2).
Qed.

Lemma sp_not_plain : ¬ plain SP.
Proof. intros [H _]. apply H. by_compute. Qed.

Lemma gettoken_pr_word w s :
  word_ok w → gettoken (pr_word w ++ s) = (WORD, w ++ SP :: s, SP :: s, skip_ws s).
Proof.
  intros (Hne & Hw & _). unfold pr_word. rewrite <- app_assoc. cbn [app].
  pose proof (skip_word_plain w (SP :: s) Hw sp_not_plain) as Hskip.
  destruct w as [|x w]; [done|]. apply Forall_cons in Hw as [[Hx1 Hx2] Hw].
  unfold gettoken. cbn [app] in *. rewrite skip_ws_fix by done.
  rewrite (proj2 (Z.eqb_neq x (chr ">"))) by (intros ->; apply Hx2; by_compute).
  rewrite (proj2 (mem_chr_false _ _) Hx2), Hskip. by rewrite skip_ws_sp.
Qed.

Lemma gettoken_symbol x s :
  x ∈ symbols → x ∉ whitespace → x ≠ chr ">" → gettoken (x :: s) = (x, x :: s, s, skip_ws s).
Proof.
  intros Hx Hw Hg. unfold gettoken. rewrite skip_ws_fix by done.
  rewrite (proj2 (Z.eqb_neq _ _)) by done. by rewrite (proj2 (mem_chr_true _ _) Hx).
Qed.

Lemma gettoken_gt s : gettoken (chr ">" :: SP :: s) = (chr ">", chr ">" :: SP :: s, SP :: s, skip_ws s).
Proof. done. Qed.
Lemma gettoken_append s : gettoken (chr ">" :: chr ">" :: SP :: s) = (APPEND, chr ">" :: chr ">" :: SP :: s, SP :: s, skip_ws s).
Proof. done. Qed.

(** The head of a printed word is an ordinary character. *)
Lemma peek_word w s toks : word_ok w → (∀ x, x ∈ text toks → x ∈ symbols) → peek (skip_ws (pr_word w ++ s)) toks = false.
Proof.
  intros (Hne & Hw & _) Ht. destruct w as [|x w]; [done|]. apply Forall_cons in Hw as [[H1 H2] _].
  cbn [pr_word app]. unfold pr_word. cbn [app]. rewrite skip_ws_fix by done. cbn. apply mem_chr_false. auto.
Qed.

(** ** Redirections and arguments *)

Abbreviation Target := (list Z * Z * Z)%type.
Definition redirect (c : Script) (t : Target) : Script := Redirect c t.1.1 t.1.2 t.2.
Definition target_ok (t : Target) : Prop := word_ok t.1.1 ∧ redir_kind t.1.2 t.2.
Definition pr_redirs (rs : list Target) : list Z := concat ((λ t, pr_redir t.1.1 t.1.2) <$> rs).
Definition erase_redir (r : Redir) : Target := (word_of (r_q r, r_eq r), r_mode r, r_fd r).

Lemma redirs_loop_skip f s : redirs_loop f (skip_ws s) = redirs_loop f s.
Proof. destruct f; cbn [redirs_loop]; by rewrite skip_ws_idem. Qed.
Lemma args_loop_skip f s a r : args_loop f (skip_ws s) a r = args_loop f s a r.
Proof. destruct f; cbn [args_loop]; by rewrite skip_ws_idem. Qed.
Lemma back_loop_skip f c s : back_loop f c (skip_ws s) = back_loop f c s.
Proof. destruct f; cbn [back_loop]; by rewrite skip_ws_idem. Qed.
Lemma parseexec_skip f s : parseexec f (skip_ws s) = parseexec f s.
Proof. destruct f; cbn [parseexec]; by rewrite ?skip_ws_idem. Qed.
Lemma parsepipe_skip f s : parsepipe f (skip_ws s) = parsepipe f s.
Proof. destruct f; cbn [parsepipe]; [done|]. by rewrite parseexec_skip. Qed.
Lemma parseline_skip f s : parseline f (skip_ws s) = parseline f s.
Proof. destruct f; cbn [parseline]; [done|]. by rewrite parsepipe_skip. Qed.

(** One printed redirection is read as its target. *)
Lemma redirs_loop_pr f t s :
  target_ok t →
  ∃ r, erase_redir r = t ∧
    redirs_loop (S f) (pr_redir t.1.1 t.1.2 ++ s) = ('(rs, s') ← redirs_loop f s; mret (r :: rs, s')).
Proof.
  destruct t as [[file mode] fd]. intros [Hw Hk]. cbn [fst snd] in *.
  exists (mkRedir (file ++ SP :: s) (SP :: s) mode fd). split; [unfold erase_redir; cbn [r_q r_eq r_mode r_fd]; by rewrite word_of_split|].
  destruct Hk as [[-> ->]|[[-> ->]|[-> ->]]].
  - change (pr_redir file O_RDONLY ++ s) with (chr "<" :: SP :: pr_word file ++ s).
    cbn [redirs_loop]. rewrite peek_true, gettoken_skip by by_compute.
    rewrite (gettoken_symbol (chr "<")) by (by_compute || done).
    rewrite skip_ws_sp, gettoken_skip, gettoken_pr_word by done. by rewrite redirs_loop_skip.
  - change (pr_redir file _ ++ s) with (chr ">" :: SP :: pr_word file ++ s).
    cbn [redirs_loop]. rewrite peek_true, gettoken_skip, gettoken_gt by by_compute.
    rewrite gettoken_skip, gettoken_pr_word by done. by rewrite redirs_loop_skip.
  - change (pr_redir file _ ++ s) with (chr ">" :: chr ">" :: SP :: pr_word file ++ s).
    cbn [redirs_loop]. rewrite peek_true, gettoken_skip, gettoken_append by by_compute.
    rewrite gettoken_skip, gettoken_pr_word by done. by rewrite redirs_loop_skip.
Qed.

Lemma redirs_none f s : peek (skip_ws s) "<>" = false → redirs_loop f s = Ok ([], skip_ws s).
Proof. intros Hp. destruct f; cbn [redirs_loop]; by rewrite Hp. Qed.

Lemma redirs_parse rs : ∀ f k,
  Forall target_ok rs → peek (skip_ws k) "<>" = false → (length rs ≤ f)%nat →
  ∃ rs', redirs_loop f (pr_redirs rs ++ k) = Ok (rs', skip_ws k) ∧ erase_redir <$> rs' = rs.
Proof.
  induction rs as [|t rs IH]; intros f k Hrs Hk Hf.
  - exists []. split; [|done]. by apply redirs_none.
  - apply Forall_cons in Hrs as [Ht Hrs]. destruct f as [|f]; [cbn in Hf; lia|].
    destruct (IH f k Hrs Hk ltac:(cbn in Hf; lia)) as (rs' & Hr & He).
    unfold pr_redirs. cbn [fmap list_fmap concat]. rewrite <- app_assoc.
    destruct (redirs_loop_pr f t (pr_redirs rs ++ k) Ht) as (r & Hre & Hrl).
    exists (r :: rs'). split; [|cbn; by rewrite Hre, He]. etransitivity; [exact Hrl|]. by rewrite Hr.
Qed.

Lemma pr_redir_long file mode s : (1 ≤ length (skip_ws (pr_redir file mode ++ s)))%nat ∧
  length (skip_ws (pr_redir file mode ++ s)) = length (pr_redir file mode ++ s).
Proof.
  unfold pr_redir. destruct (mode =? O_RDONLY); [|destruct (mode =? Z.lor O_WRONLY O_CREATE)];
    cbn [app]; rewrite skip_ws_fix by by_compute; cbn; lia.
Qed.

Lemma redirs_long rs k : (length rs ≤ length (skip_ws (pr_redirs rs ++ k)))%nat.
Proof.
  assert (H : ∀ rs, (length rs ≤ length (pr_redirs rs ++ k))%nat).
  { clear rs. induction rs as [|t rs IH]; [cbn; lia|]. unfold pr_redirs in *. cbn [fmap list_fmap concat].
    rewrite <- app_assoc, length_app. cbn. destruct (pr_redir_long t.1.1 t.1.2 []) as [H1 H2].
    rewrite app_nil_r in H2. rewrite app_nil_r, H2 in H1. lia. }
  destruct rs as [|t rs]; [cbn; lia|]. specialize (H (t :: rs)). unfold pr_redirs in *.
  cbn [fmap list_fmap concat] in *. rewrite <- app_assoc in *. rewrite (proj2 (pr_redir_long _ _ _)). exact H.
Qed.

(** [parseredirs] on printed redirections, with or without the white space. *)
Lemma parseredirs_pr rs k :
  Forall target_ok rs → peek (skip_ws k) "<>" = false →
  ∃ rs', parseredirs (skip_ws (pr_redirs rs ++ k)) = Ok (rs', skip_ws k) ∧ erase_redir <$> rs' = rs.
Proof.
  intros Hrs Hk. unfold parseredirs. rewrite redirs_loop_skip. apply redirs_parse; [done|done|apply redirs_long].
Qed.

Lemma F3_redirs k : follows F3 k → peek (skip_ws k) "<>" = false.
Proof.
  intros H. apply (peek_false F3); [done|]. intros x Hx. assert (Hd : Forall (λ x, x ∉ text "<>") F3) by by_compute.
  by eapply Forall_forall in Hd.
Qed.

Definition pr_words (args : list (list Z)) : list Z := concat (pr_word <$> args).

Lemma pr_words_cons w args s : pr_words (w :: args) ++ s = pr_word w ++ pr_words args ++ s.
Proof. unfold pr_words. cbn [fmap list_fmap concat]. by rewrite <- app_assoc. Qed.

Lemma symbols_of toks : bool_decide (Forall (λ x, x ∈ symbols) (text toks)) = true → ∀ x, x ∈ text toks → x ∈ symbols.
Proof. intros H%bool_decide_eq_true. by apply Forall_forall. Qed.

(** There are at least as many bytes as words. *)
Lemma words_long w args s :
  Forall word_ok (w :: args) → (length (w :: args) ≤ length (skip_ws (pr_word w ++ pr_words args ++ s)))%nat.
Proof.
  intros Hw. apply Forall_cons in Hw as [(Hne & Hp & _) Hw]. destruct w as [|x w]; [done|].
  apply Forall_cons in Hp as [[Hx _] _]. unfold pr_word. cbn [app]. rewrite skip_ws_fix by done.
  cbn. rewrite !length_app. cbn.
  assert (Hargs : (length args ≤ length (pr_words args))%nat).
  { clear. unfold pr_words. induction args as [|v args IH]; cbn [fmap list_fmap concat length]; [lia|].
    unfold pr_word at 1. rewrite !length_app. cbn. lia. }
  lia.
Qed.

(** The end of the argument list. *)
Lemma args_end f k argv rs : follows F3 k → args_loop f k argv rs = Ok (argv, rs, skip_ws k).
Proof.
  unfold follows. intros Hk. destruct f; cbn [args_loop]; rewrite ?gettoken_skip.
  all: unfold gettoken; destruct (skip_ws k) as [|x s] eqn:E; [done|]; cbn [peek].
  all: by rewrite (proj2 (mem_chr_true (text "|)&;") x) Hk).
Qed.

Lemma args_parse args : ∀ f rs k argv rs0,
  Forall word_ok args → Forall target_ok rs → follows F3 k → (args = [] → rs = []) →
  (length argv + length args < MAXARGS)%nat → (length args ≤ f)%nat →
  ∃ argv' rs', args_loop f (pr_words args ++ pr_redirs rs ++ k) argv rs0 = Ok (argv ++ argv', rs0 ++ rs', skip_ws k) ∧
    word_of <$> argv' = args ∧ erase_redir <$> rs' = rs.
Proof.
  induction args as [|w args IH]; intros f rs k argv rs0 Hargs Hrs Hk He Hl Hf.
  { rewrite He by done. exists [], []. rewrite !app_nil_r. split; [|done]. by apply args_end. }
  apply Forall_cons in Hargs as [Hw Hargs]. cbn [length] in Hl, Hf. destruct f as [|f]; [lia|].
  set (rest := pr_words args ++ pr_redirs rs ++ k).
  assert (Hstep : ∀ r, parseredirs (skip_ws rest) = r →
    args_loop (S f) (pr_words (w :: args) ++ pr_redirs rs ++ k) argv rs0 =
    ('(rs', s) ← r; args_loop f s (argv ++ [(w ++ SP :: rest, SP :: rest)]) (rs0 ++ rs'))).
  { intros r <-. rewrite pr_words_cons. fold rest. cbn [args_loop].
    rewrite peek_word by (try done; by apply symbols_of). rewrite gettoken_skip, gettoken_pr_word by done.
    cbn [Z.eqb WORD negb]. rewrite length_app. cbn [length].
    rewrite (proj2 (Nat.leb_gt _ _)) by lia. done. }
  destruct args as [|w2 args].
  - destruct (parseredirs_pr rs k Hrs (F3_redirs k Hk)) as (rs' & Hr & Hre).
    rewrite (Hstep _ Hr). cbn [mbind Res_bind].
    rewrite args_loop_skip, args_end by done. exists [(w ++ SP :: rest, SP :: rest)], rs'.
    split; [done|]. split; [cbn; by rewrite word_of_split|done].
  - assert (Hnone : parseredirs (skip_ws rest) = Ok ([], skip_ws rest)).
    { unfold parseredirs. rewrite redirs_loop_skip. apply redirs_none. unfold rest. rewrite pr_words_cons.
      apply Forall_cons in Hargs as [Hw2 _]. apply peek_word; [done|by apply symbols_of]. }
    rewrite (Hstep _ Hnone). cbn [mbind Res_bind]. rewrite args_loop_skip, app_nil_r.
    destruct (IH f rs k (argv ++ [(w ++ SP :: rest, SP :: rest)]) rs0) as (argv' & rs' & Ha & Hw' & Hr');
      [done|done|done|done|rewrite length_app; cbn in *; lia|cbn in *; lia|].
    exists ((w ++ SP :: rest, SP :: rest) :: argv'), rs'.
    split; [|split; [cbn; by rewrite word_of_split, Hw'|done]].
    etransitivity; [exact Ha|]. by rewrite <- app_assoc.
Qed.

(** ** The levels of the grammar *)

Definition P3 (c : Script) : Prop := ∀ f rs k, Forall target_ok rs → follows F3 k →
  (4 * length (pr c 3 ++ pr_redirs rs ++ k) + 2 ≤ f)%nat →
  ∃ cmd, parseexec f (pr c 3 ++ pr_redirs rs ++ k) = Ok (cmd, skip_ws k) ∧ erase cmd = foldl redirect c rs.
Definition P2 (c : Script) : Prop := ∀ f k, follows F2 k → (4 * length (pr c 2 ++ k) + 3 ≤ f)%nat →
  ∃ cmd, parsepipe f (pr c 2 ++ k) = Ok (cmd, skip_ws k) ∧ erase cmd = c.
Definition amps (j : nat) : list Z := replicate j (chr "&").
Definition P1 (c : Script) : Prop := ∀ f j k, follows F1 k →
  (4 * length (pr c 1 ++ amps j ++ k) + 3 ≤ f)%nat →
  ∃ cmd, ('(cmd, s) ← parsepipe f (pr c 1 ++ amps j ++ k); back_loop (length s) cmd s) = Ok (cmd, skip_ws k) ∧
    erase cmd = Nat.iter j Bg c.
Definition P0 (c : Script) : Prop := ∀ f k, follows F0 k → (4 * length (pr c 0 ++ k) + 4 ≤ f)%nat →
  ∃ cmd, parseline f (pr c 0 ++ k) = Ok (cmd, skip_ws k) ∧ erase cmd = c.

Lemma follows_cons set x s : x ∉ whitespace → x ∈ set → follows set (x :: s).
Proof. intros Hw Hx. unfold follows. by rewrite skip_ws_fix. Qed.

(** Nothing of a set is a byte another peek looks for. *)
Lemma apart set toks : bool_decide (Forall (λ x, x ∉ text toks) set) = true → ∀ x, x ∈ set → x ∉ text toks.
Proof. intros H%bool_decide_eq_true. by apply Forall_forall. Qed.

Lemma erase_redirs c rs : erase (foldl redircmd c rs) = foldl redirect (erase c) (erase_redir <$> rs).
Proof. revert c. induction rs as [|r rs IH]; intros c; [done|]. cbn. by rewrite IH. Qed.

Lemma P3_P2 c : pr c 2 = pr c 3 → P3 c → P2 c.
Proof.
  intros E H f k Hk Hf. rewrite E in *. destruct f as [|f]; [lia|].
  destruct (H f [] k) as (cmd & Hr & He); [constructor|by apply (follows_mono F2); [apply F23|]|cbn; lia|].
  exists cmd. split; [|done]. cbn [parsepipe]. cbn [pr_redirs fmap list_fmap concat app] in Hr. rewrite Hr.
  cbn [mbind Res_bind]. rewrite skip_ws_idem, (peek_false F2) by (try done; by apply apart). done.
Qed.

Lemma back_parse j : ∀ f c k, follows F1 k → (j ≤ f)%nat →
  ∃ cmd, back_loop f c (amps j ++ k) = Ok (cmd, skip_ws k) ∧ erase cmd = Nat.iter j Bg (erase c).
Proof.
  induction j as [|j IH]; intros f c k Hk Hf.
  - exists c. split; [|done]. cbn [amps replicate app].
    destruct f; cbn [back_loop]; by rewrite (peek_false F1) by (try done; by apply apart).
  - destruct f as [|f]; [lia|]. cbn [amps replicate app back_loop].
    rewrite peek_true, gettoken_skip by by_compute.
    rewrite (gettoken_symbol (chr "&")) by (by_compute || done). rewrite back_loop_skip.
    destruct (IH f (BACK c) k Hk ltac:(lia)) as (cmd & Hr & He). exists cmd. split; [exact Hr|].
    rewrite He. cbn [erase]. by rewrite <- Nat.iter_succ_r.
Qed.

Lemma P2_P1 c : pr c 1 = pr c 2 → P2 c → P1 c.
Proof.
  intros E H f j k Hk Hf. rewrite E in *.
  destruct (H f (amps j ++ k)) as (cmd & Hr & He); [|done|].
  { destruct j; [by apply (follows_mono F1); [apply F12|]|]. cbn [amps replicate app].
    apply follows_cons; by_compute. }
  rewrite Hr. cbn [mbind Res_bind]. rewrite back_loop_skip.
  destruct (back_parse j (length (skip_ws (amps j ++ k))) cmd k Hk) as (cmd' & Hb & He').
  { destruct j; [lia|]. cbn [amps replicate app]. rewrite skip_ws_fix by by_compute. cbn.
    rewrite length_app, length_replicate. lia. }
  exists cmd'. split; [exact Hb|]. by rewrite He', He.
Qed.

Lemma P1_P0 c : pr c 0 = pr c 1 → P1 c → P0 c.
Proof.
  intros E H f k Hk Hf. rewrite E in *. destruct f as [|f]; [lia|].
  destruct (H f 0%nat k) as (cmd & Hr & He); [by apply (follows_mono F0); [apply F01|]|cbn; lia|].
  exists cmd. split; [|done]. cbn [amps replicate app] in Hr. cbn [parseline].
  destruct (parsepipe f (pr c 1 ++ k)) as [[c1 s1]| | |]; cbn [mbind Res_bind] in *; [|done..].
  rewrite Hr. cbn [mbind Res_bind]. rewrite skip_ws_idem, (peek_false F0) by (try done; by apply apart). done.
Qed.

Lemma P0_P3 c : pr c 3 = chr "(" :: pr c 0 ++ [chr ")"] → P0 c → P3 c.
Proof.
  intros E H f rs k Hrs Hk Hf. rewrite E in *. cbn [app] in *. rewrite <- app_assoc in *. cbn [app] in *.
  destruct f as [|[|f]]; [lia|cbn in Hf; lia|]. cbn [parseexec]. rewrite peek_true by by_compute.
  cbn [parseblock]. rewrite skip_ws_idem, peek_true, gettoken_skip by by_compute. cbn [negb].
  rewrite (gettoken_symbol (chr "(")) by (by_compute || done). rewrite parseline_skip.
  destruct (H f (chr ")" :: pr_redirs rs ++ k)) as (cmd & Hr & He);
    [apply follows_cons; by_compute|cbn [length] in Hf; lia|].
  rewrite Hr. cbn [mbind Res_bind]. rewrite skip_ws_idem, peek_true, gettoken_skip by by_compute. cbn [negb].
  rewrite (gettoken_symbol (chr ")")) by (by_compute || done).
  destruct (parseredirs_pr rs k Hrs (F3_redirs k Hk)) as (rs' & Hp & Hre).
  rewrite Hp. cbn [mbind Res_bind]. exists (foldl redircmd cmd rs'). split; [done|].
  by rewrite erase_redirs, He, Hre.
Qed.

Lemma exec_P3 args : (length args < MAXARGS)%nat → Forall word_ok args → P3 (Exec args).
Proof.
  intros Hl Hw f rs k Hrs Hk Hf. destruct f as [|f]; [lia|]. cbn [pr] in *. fold (pr_words args) in *.
  assert (Hfin : ∀ argv rs1, word_of <$> argv = args → erase_redir <$> rs1 = rs →
    erase (foldl redircmd (EXEC argv) rs1) = foldl redirect (Exec args) rs).
  { intros argv rs1 <- <-. by rewrite erase_redirs. }
  cbn [parseexec]. destruct args as [|w args].
  - cbn [pr_words fmap list_fmap concat app] in *.
    assert (Hblock : peek (skip_ws (pr_redirs rs ++ k)) "(" = false).
    { destruct rs as [|t rs].
      - apply (peek_false F3); [done|by apply apart].
      - unfold pr_redirs. cbn [fmap list_fmap concat]. rewrite <- app_assoc. unfold pr_redir.
        destruct (t.1.2 =? O_RDONLY); [|destruct (t.1.2 =? Z.lor O_WRONLY O_CREATE)]; reflexivity. }
    rewrite Hblock. destruct (parseredirs_pr rs k Hrs (F3_redirs k Hk)) as (rs' & Hp & Hre).
    rewrite Hp. cbn [mbind Res_bind]. rewrite args_loop_skip, args_end by done. cbn [mbind Res_bind].
    eexists. split; [reflexivity|]. by apply Hfin.
  - assert (Hw1 : word_ok w) by (by apply Forall_cons in Hw as [? _]).
    rewrite pr_words_cons, peek_word by (try done; by apply symbols_of).
    assert (Hp : parseredirs (skip_ws (pr_word w ++ pr_words args ++ pr_redirs rs ++ k)) =
      Ok ([], skip_ws (pr_word w ++ pr_words args ++ pr_redirs rs ++ k))).
    { unfold parseredirs. rewrite redirs_loop_skip. apply redirs_none, peek_word; [done|by apply symbols_of]. }
    rewrite Hp. cbn [mbind Res_bind]. rewrite args_loop_skip, <- pr_words_cons.
    destruct (args_parse (w :: args) (length (skip_ws (pr_words (w :: args) ++ pr_redirs rs ++ k))) rs k [] [])
      as (argv' & rs' & Ha & Hwo & Hre); try done.
    { rewrite pr_words_cons. apply words_long. done. }
    rewrite Ha. cbn [mbind Res_bind app]. eexists. split; [reflexivity|]. by apply Hfin.
Qed.

Lemma redirect_P3 c file mode fd : target_ok (file, mode, fd) → P3 c → P3 (Redirect c file mode fd).
Proof.
  intros Ht H3 f rs k Hrs Hfo Hf. cbn [pr] in *. rewrite <- app_assoc in *.
  assert (E : pr_redirs ((file, mode, fd) :: rs) ++ k = pr_redir file mode ++ pr_redirs rs ++ k)
    by (unfold pr_redirs; cbn [fmap list_fmap concat fst snd]; by rewrite <- app_assoc).
  destruct (H3 f ((file, mode, fd) :: rs) k) as (cmd & Hr & He); [by apply Forall_cons|done|by rewrite E|].
  rewrite E in Hr. by exists cmd.
Qed.

Lemma pipe_P2 l r : P3 l → P2 r → P2 (Pipe l r).
Proof.
  intros H3 H2 f k Hk Hf. cbn [pr paren Nat.ltb Nat.leb] in *. rewrite <- !app_assoc in *. cbn [app] in *.
  destruct f as [|f]; [lia|]. rewrite length_app in Hf. cbn [length] in Hf.
  destruct (H3 f [] (chr "|" :: pr r 2 ++ k)) as (cl & Hpl & Hel);
    [constructor|apply follows_cons; by_compute|cbn [pr_redirs fmap list_fmap concat app]; rewrite length_app; cbn [length]; lia|].
  destruct (H2 f k Hk ltac:(lia)) as (cr & Hpr & Her).
  cbn [parsepipe]. cbn [pr_redirs fmap list_fmap concat app] in Hpl. rewrite Hpl. cbn [mbind Res_bind].
  rewrite skip_ws_idem, peek_true, gettoken_skip by by_compute.
  rewrite (gettoken_symbol (chr "|")) by (by_compute || done). rewrite parsepipe_skip, Hpr.
  exists (PIPE cl cr). split; [done|]. cbn. by rewrite Hel, Her.
Qed.

Lemma seq_P0 l r : P1 l → P0 r → P0 (Seq l r).
Proof.
  intros H1 H0 f k Hk Hf. cbn [pr paren Nat.ltb Nat.leb] in *. rewrite <- !app_assoc in *. cbn [app] in *.
  destruct f as [|f]; [lia|]. rewrite length_app in Hf. cbn [length] in Hf.
  destruct (H1 f 0%nat (chr ";" :: pr r 0 ++ k)) as (cl & Hpl & Hel);
    [apply follows_cons; by_compute|cbn [amps replicate app]; rewrite length_app; cbn [length]; lia|].
  destruct (H0 f k Hk ltac:(lia)) as (cr & Hpr & Her).
  cbn [amps replicate app] in Hpl. cbn [parseline].
  destruct (parsepipe f _) as [[c1 s1]| | |]; cbn [mbind Res_bind] in *; [|done..].
  rewrite Hpl. cbn [mbind Res_bind]. rewrite skip_ws_idem, peek_true, gettoken_skip by by_compute.
  rewrite (gettoken_symbol (chr ";")) by (by_compute || done). rewrite parseline_skip, Hpr.
  exists (LIST cl cr). split; [done|]. cbn. by rewrite Hel, Her.
Qed.

Lemma bg_P1 c : P1 c → P1 (Bg c).
Proof.
  intros H1 f j k Hk Hf. cbn [pr paren Nat.ltb Nat.leb] in *. rewrite <- !app_assoc in *. cbn [app] in *.
  destruct (H1 f (S j) k Hk Hf) as (cmd & Hr & He). exists cmd. split; [exact Hr|].
  by rewrite He, Nat.iter_succ_r.
Qed.

(** From the level a command is printed at without parentheses, all others. *)
Lemma levels_up c : pr c 2 = pr c 3 → pr c 1 = pr c 2 → pr c 0 = pr c 1 → P3 c → P2 c ∧ P1 c ∧ P0 c.
Proof.
  intros E2 E1 E0 H3. pose proof (P3_P2 c E2 H3) as H2. pose proof (P2_P1 c E1 H2) as H1.
  pose proof (P1_P0 c E0 H1). done.
Qed.

Lemma all_levels c : script_ok c → P3 c ∧ P2 c ∧ P1 c ∧ P0 c.
Proof.
  induction c as [args|c IH file mode fd|l IHl r IHr|l IHl r IHr|c IH]; cbn [script_ok].
  - intros [Hl Hw]. pose proof (exec_P3 args Hl Hw) as H3. split; [done|by apply levels_up].
  - intros (Hc & Hw & Hk). destruct (IH Hc) as (H3 & _).
    assert (H : P3 (Redirect c file mode fd)) by (by apply redirect_P3). split; [done|by apply levels_up].
  - intros [Hl Hr]. destruct (IHl Hl) as (H3 & _). destruct (IHr Hr) as (_ & H2 & _).
    pose proof (pipe_P2 l r H3 H2) as H. pose proof (P2_P1 (Pipe l r) eq_refl H) as H1.
    pose proof (P1_P0 (Pipe l r) eq_refl H1) as H0. split_and!; try done. by apply P0_P3.
  - intros [Hl Hr]. destruct (IHl Hl) as (_ & _ & H1 & _). destruct (IHr Hr) as (_ & _ & _ & H0).
    pose proof (seq_P0 l r H1 H0) as H. pose proof (P0_P3 (Seq l r) eq_refl H) as H3.
    pose proof (P3_P2 (Seq l r) eq_refl H3) as H2. split_and!; try done. by apply P2_P1.
  - intros Hc. destruct (IH Hc) as (_ & _ & H1 & _). pose proof (bg_P1 c H1) as H.
    pose proof (P1_P0 (Bg c) eq_refl H) as H0. pose proof (P0_P3 (Bg c) eq_refl H0) as H3.
    split_and!; try done. by apply P3_P2.
Qed.

(** ** From words to the strings in the buffer *)

Lemma script_erase n buf c :
  Forall (λ t, string_at n buf t.1 = word_of t) (tokens c) → script n buf c = erase c.
Proof.
  induction c as [argv|c IH file efile mode fd|l IHl r IHr|l IHl r IHr|c IH]; cbn [tokens script erase]; intros H.
  - f_equal. apply list_fmap_ext. intros i t Ht. by apply (Forall_lookup_1 _ _ _ _ H) in Ht.
  - apply Forall_app in H as [H1 H2]. apply Forall_cons in H2 as [H2 _]. rewrite IH by done. f_equal. exact H2.
  - apply Forall_app in H as [H1 H2]. by rewrite IHl, IHr.
  - apply Forall_app in H as [H1 H2]. by rewrite IHl, IHr.
  - by rewrite IH.
Qed.

Lemma concat_no_nul l : Forall (λ s, 0 ∉ s) l → 0 ∉ concat l.
Proof. induction 1 as [|s l Hs Hl IH]; cbn; set_solver. Qed.

Lemma print_no_nul c lvl : script_ok c → 0 ∉ pr c lvl.
Proof.
  assert (Hword : ∀ w, word_ok w → 0 ∉ pr_word w).
  { intros w (_ & _ & H). unfold pr_word. set_solver. }
  revert lvl. induction c as [args|c IH file mode fd|l IHl r IHr|l IHl r IHr|c IH]; intros lvl; cbn [script_ok pr].
  - intros [_ Hw]. apply concat_no_nul, Forall_fmap. eapply Forall_impl; [exact Hw|]. apply Hword.
  - intros (Hc & Hw & _). specialize (IH 3%nat Hc). specialize (Hword _ Hw). unfold pr_redir.
    destruct (mode =? O_RDONLY); [|destruct (mode =? Z.lor O_WRONLY O_CREATE)]; set_solver.
  - intros [Hl Hr]. specialize (IHl 3%nat Hl). specialize (IHr 2%nat Hr). unfold paren.
    destruct (2 <? lvl)%nat; set_solver.
  - intros [Hl Hr]. specialize (IHl 1%nat Hl). specialize (IHr 0%nat Hr). unfold paren.
    destruct (0 <? lvl)%nat; set_solver.
  - intros Hc. specialize (IH 1%nat Hc). unfold paren. destruct (1 <? lvl)%nat; set_solver.
Qed.

(** C36: every command (any nesting of pipes, lists, background jobs and
    redirections, with at most nine arguments to a program, all of them words
    of the shell) has a line that
    the shell reads as exactly that command: parsing the printed line and
    reading the words from the terminated buffer gives it back. *)
Theorem parse_print (c : Script) (Hc : script_ok c) : understood (print c) = Ok c.
Proof.
  destruct (all_levels c Hc) as (_ & _ & _ & H0).
  destruct (H0 (4 * length (print c) + 4)%nat []) as (cmd & Hr & He); [done|rewrite app_nil_r; unfold print; lia|].
  rewrite app_nil_r in Hr. unfold understood.
  assert (Hp : parsecmd (print c) = Ok (cmd, nulterminate (length (print c)) cmd (print c ++ [0]))).
  { unfold parsecmd. unfold print in *. rewrite Hr. done. }
  rewrite Hp. cbn [mbind Res_bind]. f_equal. transitivity (erase cmd); [|exact He]. apply script_erase.
  destruct (parse_goes (4 * length (print c) + 4) (print c)) as [Hg _].
  specialize (Hg ltac:(lia)). unfold print in *. rewrite Hr in Hg. destruct Hg as [_ Hok].
  apply Forall_forall. intros t Ht. apply string_at_word; [exact (print_no_nul c 0 Hc)|exact Hok|exact Ht].
Qed.

Definition script_sample : Script :=
  Seq (Bg (Pipe (Redirect (Exec [text "cat"; text "a.c"]) (text "in") O_RDONLY 0)
            (Redirect (Seq (Exec [text "wc"]) (Bg (Exec [text "ls"]))) (text "out") 513 1)))
    (Exec []).


Lemma parse_print_witness : understood (print script_sample) = Ok script_sample.
Proof. apply (parse_print script_sample). apply (bool_decide_unpack _). vm_compute. exact I. Defined.
