(* ===== verification/ShRun.v ===== *)
(** * The execution half of user/sh.c

    [runcmd], [fork1], [getcmd] and [main] as programs over the system calls:
    a [Code] is what a process does next.  Each process has a table of
    descriptors, changed as the kernel changes it: [open], [dup] and [pipe] take
    the lowest free descriptors, [fork] copies the table.  A system call that
    can fail may fail at any time. *)

From Stdlib Require Import Ascii String.
From S2P Require Import Prelude Printf Sh ShSpec.
Open Scope Z_scope.

(** ** Programs *)

Inductive Message := NoExec (file : list Z) | NoOpen (file : list Z) | NoChdir (dir : list Z) | Unparsed (s : list Z) | Panic (m : string).

Inductive Code :=
  | Exit (status : Z)
  | Execute (argv : list (list Z)) (failed : Code)
  | Close (fd : nat) (k : Code)
  | Open (file : list Z) (mode : Z) (k : option nat → Code)
  | Dup (fd : nat) (k : Code)
  | MkPipe (k : option (nat * nat) → Code)
  | Fork (child : Code) (parent : Code) (failed : Code)
  | Wait (k : Code)
  | Print2 (m : Message) (k : Code)
  | Chdir (dir : list Z) (ok failed : Code).

Definition sh_panic (m : string) : Code := Print2 (Panic m) (Exit 1).
Definition fork1 (child parent : Code) : Code := Fork child parent (sh_panic "fork").

Fixpoint runcmd (c : Script) : Code :=
  match c with
  | Exec [] => Exit 1
  | Exec (file :: args) => Execute (file :: args) (Print2 (NoExec file) (Exit 0))
  | Redirect c file mode fd =>
      Close (Z.to_nat fd) (Open file mode (λ r,
        match r with None => Print2 (NoOpen file) (Exit 1) | Some _ => runcmd c end))
  | Seq l r => fork1 (runcmd l) (Wait (runcmd r))
  | Pipe l r =>
      MkPipe (λ p,
        match p with
        | None => sh_panic "pipe"
        | Some (p0, p1) =>
            fork1 (Close 1 (Dup p1 (Close p0 (Close p1 (runcmd l)))))
              (fork1 (Close 0 (Dup p0 (Close p0 (Close p1 (runcmd r)))))
                (Close p0 (Close p1 (Wait (Wait (Exit 0))))))
        end)
  | Bg c => fork1 (runcmd c) (Exit 0)
  end.

(** The child of the shell for a line; the parser never runs out of fuel. *)
Definition runline (cmd : list Z) : Code :=
  match understood cmd with
  | Ok c => runcmd c
  | Syntax m => sh_panic m
  | Leftovers s => Print2 (Unparsed s) (sh_panic "syntax")
  | Fuel => Exit 1
  end.

(** The bytes of the line buffer up to its NUL. *)
Fixpoint skip_blanks (s : list Z) : list Z :=
  match s with x :: s' => if (x =? 32) || (x =? 9) then skip_blanks s' else s | [] => [] end.
Definition is_cd (cmd : list Z) : bool := bool_decide (take 3 cmd = text "cd ").
(** [cmd[strlen(cmd)-1] = 0], then [cmd + 3]. *)
Definition cd_dir (cmd : list Z) : list Z := drop 3 (take (length cmd - 1) cmd).

(** [getcmd] on what [gets] stored in the buffer; none is the end of the input. *)
Definition getcmd (got : list Z) : option (list Z) := match until_nul got with [] => None | line => Some line end.

(** The loop of [main] on what the calls of [gets] return in turn. *)
Fixpoint main_loop (lines : list (list Z)) : Code :=
  match lines with
  | [] => Exit 0
  | got :: rest =>
      match getcmd got with None => Exit 0 | Some line =>
      let cmd := skip_blanks line in
      match cmd with
      | 10 :: _ => main_loop rest
      | _ =>
          if is_cd cmd then Chdir (cd_dir cmd) (main_loop rest) (Print2 (NoChdir (cd_dir cmd)) (main_loop rest))
          else fork1 (runline cmd) (Wait (main_loop rest))
      end
      end
  end.
(** [while((fd = open("console", O_RDWR)) >= 0) if(fd >= 3) { close(fd); break; }] *)
Fixpoint open_console (fuel : nat) (next : Code) : Code :=
  Open (text "console") O_RDWR (λ r,
    match r with
    | None => next
    | Some fd => if (3 <=? fd)%nat then Close fd next else match fuel with O => next | S f => open_console f next end
    end).
Definition sh_main (lines : list (list Z)) : Code := open_console 3 (main_loop lines).

(** ** Descriptors *)

Inductive Obj := FileAt (file : list Z) (mode : Z) | REnd (id : nat) | WEnd (id : nat) | Given (n : nat).
Abbreviation Fds := (list (option Obj)).

Fixpoint lowest_free (f : Fds) : option nat :=
  match f with
  | [] => None
  | None :: _ => Some O
  | Some _ :: f' => S <$> lowest_free f'
  end.
Definition put_obj (o : Obj) (f : Fds) : option (nat * Fds) := n ← lowest_free f; Some (n, <[n := Some o]> f).
Definition close_fd (fd : nat) (f : Fds) : Fds := <[fd := None]> f.
Definition dup_fd (fd : nat) (f : Fds) : Fds :=
  match f !! fd with
  | Some (Some o) => match put_obj o f with Some (_, f') => f' | None => f end
  | _ => f
  end.

(** ** Behaviours *)

(** What a process does, with the descriptors it holds when it waits and when
    it hands over to a program. *)
Inductive Tree :=
  | TExit (status : Z)
  | TProg (argv : list (list Z)) (fds : Fds)
  | TMsg (m : Message) (rest : Tree)
  | TPipe (id : nat) (rest : Tree)
  | TFork (child rest : Tree)
  | TWait (fds : Fds) (rest : Tree)
  | TCd (dir : list Z) (rest : Tree).

Inductive behaves : Code → Fds → Tree → Prop :=
  | B_exit n f : behaves (Exit n) f (TExit n)
  | B_exec argv k f : behaves (Execute argv k) f (TProg argv f)
  | B_noexec argv k f t : behaves k f t → behaves (Execute argv k) f t
  | B_close fd k f t : behaves k (close_fd fd f) t → behaves (Close fd k) f t
  | B_open file mode k f n f' t : put_obj (FileAt file mode) f = Some (n, f') → behaves (k (Some n)) f' t → behaves (Open file mode k) f t
  | B_noopen file mode k f t : behaves (k None) f t → behaves (Open file mode k) f t
  | B_dup fd k f t : behaves k (dup_fd fd f) t → behaves (Dup fd k) f t
  | B_pipe k f id n0 f0 n1 f1 t :
      put_obj (REnd id) f = Some (n0, f0) → put_obj (WEnd id) f0 = Some (n1, f1) →
      behaves (k (Some (n0, n1))) f1 t → behaves (MkPipe k) f (TPipe id t)
  | B_nopipe k f t : behaves (k None) f t → behaves (MkPipe k) f t
  | B_fork c p e f tc t : behaves c f tc → behaves p f t → behaves (Fork c p e) f (TFork tc t)
  | B_nofork c p e f t : behaves e f t → behaves (Fork c p e) f t
  | B_wait k f t : behaves k f t → behaves (Wait k) f (TWait f t)
  | B_print m k f t : behaves k f t → behaves (Print2 m k) f (TMsg m t)
  | B_cd dir ok no f t : behaves ok f t → behaves (Chdir dir ok no) f (TCd dir t)
  | B_nocd dir ok no f t : behaves no f t → behaves (Chdir dir ok no) f t.

Lemma b_exit n f t : behaves (Exit n) f t ↔ t = TExit n.
Proof. split; [by inversion 1|intros ->; constructor]. Qed.
Lemma b_exec a k f t : behaves (Execute a k) f t ↔ t = TProg a f ∨ behaves k f t.
Proof. split; [inversion 1; auto|intros [->|H]; [constructor|by apply B_noexec]]. Qed.
Lemma b_close fd k f t : behaves (Close fd k) f t ↔ behaves k (close_fd fd f) t.
Proof. split; [by inversion 1|by constructor]. Qed.
Lemma b_open file mode k f t :
  behaves (Open file mode k) f t ↔ (∃ n f', put_obj (FileAt file mode) f = Some (n, f') ∧ behaves (k (Some n)) f' t) ∨ behaves (k None) f t.
Proof. split; [inversion 1; subst; [left; eauto|by right]|intros [(n & f' & H1 & H2)|H]; [by eapply B_open|by apply B_noopen]]. Qed.
Lemma b_dup fd k f t : behaves (Dup fd k) f t ↔ behaves k (dup_fd fd f) t.
Proof. split; [by inversion 1|by constructor]. Qed.
Lemma b_pipe k f t :
  behaves (MkPipe k) f t ↔
  (∃ id n0 f0 n1 f1 t', put_obj (REnd id) f = Some (n0, f0) ∧ put_obj (WEnd id) f0 = Some (n1, f1) ∧ behaves (k (Some (n0, n1))) f1 t' ∧ t = TPipe id t') ∨ behaves (k None) f t.
Proof.
  split; [inversion 1; subst; [left; do 6 eexists; eauto|by right]|].
  intros [(id & n0 & f0 & n1 & f1 & t' & H1 & H2 & H3 & ->)|H]; [by eapply B_pipe|by apply B_nopipe].
Qed.
Lemma b_print m k f t : behaves (Print2 m k) f t ↔ ∃ t', behaves k f t' ∧ t = TMsg m t'.
Proof. split; [inversion 1; eauto|intros (t' & H & ->); by constructor]. Qed.
Lemma b_stop m n f t : behaves (Print2 m (Exit n)) f t ↔ t = TMsg m (TExit n).
Proof. rewrite b_print. split; [intros (t' & ->%b_exit & ->); done|intros ->; eexists; split; [by apply b_exit|done]]. Qed.
Lemma b_stop2 m1 m2 n f t : behaves (Print2 m1 (Print2 m2 (Exit n))) f t ↔ t = TMsg m1 (TMsg m2 (TExit n)).
Proof. rewrite b_print. split; [intros (t' & ->%b_stop & ->); done|intros ->; eexists; split; [by apply b_stop|done]]. Qed.
Lemma b_fork1 c p f t :
  behaves (fork1 c p) f t ↔ (∃ tc t', behaves c f tc ∧ behaves p f t' ∧ t = TFork tc t') ∨ t = TMsg (Panic "fork") (TExit 1).
Proof.
  split.
  - intros H. inversion H as [| | | | | | | | |? ? ? ? tc t1 H1 H2|? ? ? ? ? H1| | | |]; subst; [left; eauto|right; by apply b_stop in H1].
  - intros [(tc & t' & H1 & H2 & ->)| ->]; [by constructor|]. by apply B_nofork, b_stop.
Qed.
Lemma b_wait k f t : behaves (Wait k) f t ↔ ∃ t', behaves k f t' ∧ t = TWait f t'.
Proof. split; [inversion 1; eauto|intros (t' & H & ->); by constructor]. Qed.
Lemma b_cd dir ok no f t : behaves (Chdir dir ok no) f t ↔ (∃ t', behaves ok f t' ∧ t = TCd dir t') ∨ behaves no f t.
Proof. split; [inversion 1; eauto|intros [(t' & H & ->)|H]; [by constructor|by apply B_nocd]]. Qed.

(** ** What a command means *)

(** Descriptors 0, 1 and 2, and nothing else. *)
Definition std (i o e : Obj) : Fds := Some i :: Some o :: Some e :: replicate 13 None.

Definition no_fork : Tree := TMsg (Panic "fork") (TExit 1).
(** [wired c i o e t]: the behaviour [t] runs [c] with input [i], output [o]
    and errors [e]. *)
Fixpoint wired (c : Script) (i o e : Obj) (t : Tree) : Prop :=
  match c with
  | Exec [] => t = TExit 1
  | Exec (file :: args) => t = TProg (file :: args) (std i o e) ∨ t = TMsg (NoExec file) (TExit 0)
  | Redirect c file mode fd =>
      t = TMsg (NoOpen file) (TExit 1) ∨
      (if fd =? 0 then wired c (FileAt file mode) o e t else wired c i (FileAt file mode) e t)
  | Seq l r => (∃ tl tr, wired l i o e tl ∧ wired r i o e tr ∧ t = TFork tl (TWait (std i o e) tr)) ∨ t = no_fork
  | Pipe l r =>
      (∃ id tl t', wired l i (WEnd id) e tl ∧ t = TPipe id (TFork tl t') ∧
        ((∃ tr, wired r (REnd id) o e tr ∧ t' = TFork tr (TWait (std i o e) (TWait (std i o e) (TExit 0)))) ∨ t' = no_fork)) ∨
      (∃ id, t = TPipe id no_fork) ∨ t = TMsg (Panic "pipe") (TExit 1)
  | Bg c => (∃ tc, wired c i o e tc ∧ t = TFork tc (TExit 0)) ∨ t = no_fork
  end.

(** Redirections of the input and the output only. *)
Fixpoint redirects_std (c : Script) : Prop :=
  match c with
  | Exec _ => True
  | Redirect c _ _ fd => (fd = 0 ∨ fd = 1) ∧ redirects_std c
  | Pipe l r | Seq l r => redirects_std l ∧ redirects_std r
  | Bg c => redirects_std c
  end.

Lemma runcmd_wired c i o e t : redirects_std c → behaves (runcmd c) (std i o e) t ↔ wired c i o e t.
Proof.
  revert i o e t. induction c as [args|c IH file mode fd|l IHl r IHr|l IHl r IHr|c IH]; intros i o e t Hr; cbn [runcmd wired].
  - destruct args as [|file args]; [apply b_exit|]. by rewrite b_exec, b_stop.
  - destruct Hr as [Hfd Hr]. rewrite b_close, b_open, b_stop. destruct Hfd as [->| ->].
    + change (put_obj (FileAt file mode) (close_fd (Z.to_nat 0) (std i o e))) with (Some (0%nat, std (FileAt file mode) o e)). cbn [Z.eqb].
      rewrite <- (IH _ _ _ _ Hr). split; [intros [(n & f' & [= <- <-] & H)| ->]; auto|]. intros [->|H]; [by right|left]. eauto.
    + change (put_obj (FileAt file mode) (close_fd (Z.to_nat 1) (std i o e))) with (Some (1%nat, std i (FileAt file mode) e)). cbn [Z.eqb].
      rewrite <- (IH _ _ _ _ Hr). split; [intros [(n & f' & [= <- <-] & H)| ->]; auto|]. intros [->|H]; [by right|left]. eauto.
  - destruct Hr as [Hl Hr]. rewrite b_pipe. unfold sh_panic. rewrite b_stop. split.
    + intros [(id & n0 & f0 & n1 & f1 & t' & [= <- <-] & [= <- <-] & [(tc & t2 & H1 & H2 & ->)| ->]%b_fork1 & ->)| ->]; [left|right; left; by exists id|by right; right].
      rewrite b_close, b_dup, !b_close in H1. exists id, tc, t2. split; [by apply IHl|]. split; [done|].
      apply b_fork1 in H2 as [(tr & t3 & H3 & H4 & ->)| ->]; [left|by right]. rewrite b_close, b_dup, !b_close in H3. exists tr. split; [by apply IHr|].
      rewrite !b_close in H4. apply b_wait in H4 as (t4 & (t5 & ->%b_exit & ->)%b_wait & ->). done.
    + set (f1 := λ id, Some i :: Some o :: Some e :: Some (REnd id) :: Some (WEnd id) :: replicate 11 None).
      intros [(id & tl & t' & H1 & -> & H2)|[[id ->]| ->]]; [left|left|by right]; exists id, 3%nat, (<[3%nat := Some (REnd id)]> (std i o e)), 4%nat, (f1 id).
      * eexists. split; [done|]. split; [done|]. split; [|done]. apply b_fork1. left. exists tl, t'. split; [rewrite b_close, b_dup, !b_close; by apply IHl|]. split; [|done].
        apply b_fork1. destruct H2 as [(tr & H2 & ->)| ->]; [left|by right]. exists tr, (TWait (std i o e) (TWait (std i o e) (TExit 0))).
        split; [rewrite b_close, b_dup, !b_close; by apply IHr|]. split; [|done]. rewrite !b_close. repeat constructor.
      * eexists. split; [done|]. split; [done|]. split; [|done]. apply b_fork1. by right.
  - destruct Hr as [Hl Hr]. rewrite b_fork1. split.
    + intros [(tc & t' & H1 & (t2 & H2 & ->)%b_wait & ->)| ->]; [left|by right]. exists tc, t2. split; [by apply IHl|]. split; [by apply IHr|done].
    + intros [(tl & tr & H1 & H2 & ->)| ->]; [left|by right]. eexists _, _. split; [by apply IHl|]. split; [|done]. apply b_wait. eexists. split; [by apply IHr|done].
  - rewrite b_fork1. split.
    + intros [(tc & t' & H1 & ->%b_exit & ->)| ->]; [left|by right]. exists tc. split; [by apply IH|done].
    + intros [(tc & H1 & ->)| ->]; [left|by right]. eexists _, _. split; [by apply IH|]. split; [by apply b_exit|done].
Qed.

(** Along a process: a program starts without children of the shell left, and
    a [wait] has a child to wait for. *)
Fixpoint reaped (n : nat) (t : Tree) : Prop :=
  match t with
  | TExit _ => True
  | TProg _ _ => n = O
  | TMsg _ t | TPipe _ t | TCd _ t => reaped n t
  | TFork c t => reaped 0 c ∧ reaped (S n) t
  | TWait _ t => match n with O => False | S m => reaped m t end
  end.
Lemma wired_reaped c i o e t : wired c i o e t → reaped 0 t.
Proof.
  revert i o e t. induction c as [args|c IH file mode fd|l IHl r IHr|l IHl r IHr|c IH]; intros i o e t; cbn [wired].
  - destruct args; [by intros ->|by intros [->| ->]].
  - intros [->|H]; [done|]. destruct (fd =? 0); by eapply IH.
  - intros [(id & tl & t' & H1 & -> & [(tr & H2 & ->)| ->])|[[id ->]| ->]]; cbn [reaped no_fork]; eauto.
  - intros [(tl & tr & H1 & H2 & ->)| ->]; cbn [reaped no_fork]; eauto.
  - intros [(tc & H1 & ->)| ->]; cbn [reaped no_fork]; eauto.
Qed.

(** ** The parser redirects descriptors 0 and 1 only *)

Fixpoint std_cmd (c : Cmd) : Prop :=
  match c with
  | EXEC _ => True
  | REDIR c _ _ _ fd => (fd = 0 ∨ fd = 1) ∧ std_cmd c
  | PIPE l r | LIST l r => std_cmd l ∧ std_cmd r
  | BACK c => std_cmd c
  end.
Definition std_redir (r : Redir) : Prop := r_fd r = 0 ∨ r_fd r = 1.
Definition yields {A} (P : A → Prop) (r : Res (A * Ptr)) : Prop := match r with Ok (a, _) => P a | _ => True end.

Lemma yields_bind {A B} (P : A → Prop) (Q : B → Prop) (m : Res (A * Ptr)) (k : A * Ptr → Res (B * Ptr)) :
  yields P m → (∀ a s, P a → yields Q (k (a, s))) → yields Q (m ≫= k).
Proof. intros Hm Hk. destruct m as [[a s]| | |]; [by apply Hk|done..]. Qed.

Lemma redirs_std fuel : ∀ s, yields (Forall std_redir) (redirs_loop fuel s).
Proof.
  induction fuel as [|f IH]; intros s; cbn [redirs_loop]; (destruct (peek _ _); [try done|by constructor]).
  destruct (gettoken _) as [[[tok ?] ?] s1]. destruct (gettoken s1) as [[[w q] eq] s2]. destruct (negb _); [done|].
  eapply yields_bind; [apply IH|]. intros rs s3 Hrs. constructor; [|done]. unfold std_redir. destruct (tok =? _); [by left|destruct (tok =? _); by right].
Qed.
Lemma args_std fuel : ∀ s argv rs, Forall std_redir rs → yields (λ x, Forall std_redir x.2) (args_loop fuel s argv rs).
Proof.
  induction fuel as [|f IH]; intros s argv rs Hrs; cbn [args_loop]; destruct (peek _ _); try done;
    destruct (gettoken _) as [[[tok q] eq] s1]; destruct (tok =? 0); try done; destruct (negb _); try done; destruct (MAXARGS <=? _)%nat; try done.
  eapply yields_bind; [apply redirs_std|]. intros rs' s2 H'. apply IH. by apply Forall_app.
Qed.
Lemma std_redirs c rs : std_cmd c → Forall std_redir rs → std_cmd (foldl redircmd c rs).
Proof. revert c. induction rs as [|r rs IH]; intros c Hc H; [done|]. apply Forall_cons in H as [Hr H]. by apply IH. Qed.
Lemma back_std fuel : ∀ c s, std_cmd c → yields std_cmd (back_loop fuel c s).
Proof.
  induction fuel as [|f IH]; intros c s Hc; cbn [back_loop]; destruct (peek _ _); try done.
  destruct (gettoken _) as [[[? ?] ?] s1]. by apply IH.
Qed.
Lemma parse_std fuel : ∀ s, yields std_cmd (parseline fuel s) ∧ yields std_cmd (parsepipe fuel s) ∧ yields std_cmd (parseexec fuel s) ∧ yields std_cmd (parseblock fuel s).
Proof.
  induction fuel as [|f IH]; intros s; [done|]. cbn [parseline parsepipe parseexec parseblock]. split_and!.
  - eapply yields_bind; [apply IH|]. intros c s1 Hc. eapply yields_bind; [by apply back_std|]. intros c2 s2 Hc2. destruct (peek _ _); [|done].
    destruct (gettoken _) as [[[? ?] ?] s3]. eapply yields_bind; [apply IH|]. by intros c4 s4 Hc4.
  - eapply yields_bind; [apply IH|]. intros c s1 Hc. destruct (peek _ _); [|done]. destruct (gettoken _) as [[[? ?] ?] s3].
    eapply yields_bind; [apply IH|]. by intros c4 s4 Hc4.
  - destruct (peek _ _); [apply IH|]. eapply yields_bind; [apply redirs_std|]. intros rs s1 Hrs. eapply yields_bind; [by apply args_std|].
    intros [argv rs2] s2 H2. by apply std_redirs.
  - destruct (negb _); [done|]. destruct (gettoken _) as [[[? ?] ?] s1]. eapply yields_bind; [apply IH|]. intros c s2 Hc. destruct (negb _); [done|].
    destruct (gettoken _) as [[[? ?] ?] s3]. eapply yields_bind; [apply redirs_std|]. intros rs s4 Hrs. by apply std_redirs.
Qed.
Lemma script_std n buf c : std_cmd c → redirects_std (script n buf c).
Proof. induction c; cbn [std_cmd script redirects_std]; naive_solver. Qed.

Lemma understood_std line : match understood line with Ok c => redirects_std c | Syntax _ | Leftovers _ => True | Fuel => False end.
Proof.
  unfold understood, parsecmd. destruct (parse_std (4 * length line + 4) line) as [Hs _]. destruct (parse_goes (4 * length line + 4) line) as [Hg _]. specialize (Hg ltac:(lia)).
  destruct (parseline _ line) as [[c rest]|m|m|]; [|done..]. cbn [mbind Res_bind]. case_bool_decide; [|done]. by apply script_std.
Qed.

(** ** Sessions *)

Definition starts_newline (cmd : list Z) : bool := match cmd with 10 :: _ => true | _ => false end.
(** What the shell does on a line, and in a whole session. *)
Definition line_wired (cmd : list Z) (i o e : Obj) (t : Tree) : Prop :=
  match understood cmd with
  | Ok c => wired c i o e t
  | Syntax m => t = TMsg (Panic m) (TExit 1)
  | Leftovers s => t = TMsg (Unparsed s) (TMsg (Panic "syntax") (TExit 1))
  | Fuel => False
  end.
Fixpoint session (lines : list (list Z)) (i o e : Obj) (t : Tree) : Prop :=
  match lines with
  | [] => t = TExit 0
  | got :: rest =>
      match getcmd got with
      | None => t = TExit 0
      | Some line =>
          let cmd := skip_blanks line in
          if starts_newline cmd then session rest i o e t
          else if is_cd cmd then ∃ t', session rest i o e t' ∧ (t = TCd (cd_dir cmd) t' ∨ t = TMsg (NoChdir (cd_dir cmd)) t')
          else (∃ tc t', line_wired cmd i o e tc ∧ session rest i o e t' ∧ t = TFork tc (TWait (std i o e) t')) ∨ t = no_fork
      end
  end.

Lemma runline_wired cmd i o e t : behaves (runline cmd) (std i o e) t ↔ line_wired cmd i o e t.
Proof.
  unfold runline, line_wired. pose proof (understood_std cmd) as H. destruct (understood cmd) as [c|m|m|]; [by apply runcmd_wired|apply b_stop|apply b_stop2|done].
Qed.
Lemma main_wired lines i o e t : behaves (main_loop lines) (std i o e) t ↔ session lines i o e t.
Proof.
  revert t. induction lines as [|got rest IH]; intros t; [apply b_exit|]. cbn [main_loop session]. destruct (getcmd got) as [line|]; [|apply b_exit]. set (cmd := skip_blanks line).
  assert (E : (match cmd with 10 :: _ => main_loop rest | _ => if is_cd cmd then Chdir (cd_dir cmd) (main_loop rest) (Print2 (NoChdir (cd_dir cmd)) (main_loop rest))
    else fork1 (runline cmd) (Wait (main_loop rest)) end) = if starts_newline cmd then main_loop rest else if is_cd cmd then Chdir (cd_dir cmd) (main_loop rest) (Print2 (NoChdir (cd_dir cmd)) (main_loop rest))
    else fork1 (runline cmd) (Wait (main_loop rest))) by (unfold starts_newline; clearbody cmd; repeat case_match; done).
  rewrite E. destruct (starts_newline cmd); [apply IH|]. destruct (is_cd cmd).
  - rewrite b_cd, b_print. split.
    + intros [(t' & H & ->)|(t' & H & ->)]; exists t'; (split; [by apply IH|auto]).
    + intros (t' & H%IH & [->| ->]); [left|right]; eauto.
  - rewrite b_fork1. split.
    + intros [(tc & t' & H1 & (t2 & H2 & ->)%b_wait & ->)| ->]; [left|by right]. exists tc, t2. split; [by apply runline_wired|]. split; [by apply IH|done].
    + intros [(tc & t' & H1 & H2 & ->)| ->]; [left|by right]. eexists _, _. split; [by apply runline_wired|]. split; [|done]. apply b_wait. eexists. split; [by apply IH|done].
Qed.
Lemma session_reaped lines i o e t : session lines i o e t → reaped 0 t.
Proof.
  revert t. induction lines as [|got rest IH]; intros t; [by intros ->|]. cbn [session]. destruct (getcmd got) as [line|]; [|by intros ->]. destruct (starts_newline _); [apply IH|]. destruct (is_cd _).
  - intros (t' & H & [->| ->]); cbn [reaped]; by apply IH.
  - intros [(tc & t' & H1 & H2 & ->)| ->]; [|done]. split; [|by apply IH]. unfold line_wired in H1. destruct (understood _) as [c|m|m|]; [by eapply wired_reaped|by rewrite H1|by rewrite H1|done].
Qed.

(** C17: the shell, started with the descriptors 0, 1 and 2, runs its lines as
    it should.  Whatever the lines are and whichever system calls fail, what the shell and its children do is exactly
    what the lines mean ([session], [wired]): each program of a line starts with
    descriptors 0, 1 and 2 open and no other, its input and output are those
    of the line or the ends of the pipe or the files that its place in the
    command prescribes, no process that waits holds the end of a pipe besides,
    the right of a list starts after the left; and no [wait] is without a child,
    and no program starts with a child of the shell left. *)
Theorem sh_session lines i o e t :
  (behaves (sh_main lines) (std i o e) t ↔ session lines i o e t) ∧ (behaves (sh_main lines) (std i o e) t → reaped 0 t).
Proof.
  assert (H : behaves (sh_main lines) (std i o e) t ↔ session lines i o e t).
  { rewrite <- main_wired. unfold sh_main. cbn [open_console]. rewrite b_open. split; [|by right]. intros [(n & f' & [= <- <-] & H)|H]; [|done].
    cbn [Nat.leb] in H. by rewrite b_close in H. }
  split; [done|]. intros Hb%H. by eapply session_reaped.
Qed.

(** A shell that starts without descriptors opens the three of them. *)
Example sh_opens_console : behaves (sh_main []) (replicate 16 None) (TExit 0).
Proof. unfold sh_main. do 4 (eapply B_open; [reflexivity|]; cbn [Nat.leb open_console]). repeat constructor. Qed.
(** [ls < in | wc] *)
Example sh_pipe_sample : ∃ t, session [text "ls < in | wc"] (Given 0) (Given 1) (Given 2) t ∧
  t = TFork (TPipe 7 (TFork (TProg [text "ls"] (std (FileAt (text "in") O_RDONLY) (WEnd 7) (Given 2)))
    (TFork (TProg [text "wc"] (std (REnd 7) (Given 1) (Given 2)))
      (TWait (std (Given 0) (Given 1) (Given 2)) (TWait (std (Given 0) (Given 1) (Given 2)) (TExit 0))))))
    (TWait (std (Given 0) (Given 1) (Given 2)) (TExit 0)).
Proof.
  eexists. split; [|reflexivity]. cbn [session]. change (getcmd _) with (Some (text "ls < in | wc")). cbv iota. change (starts_newline _) with false. change (is_cd _) with false. left.
  eexists _, _. split; [|split; [reflexivity|reflexivity]]. unfold line_wired.
  change (understood _) with (Ok (Pipe (Redirect (Exec [text "ls"]) (text "in") O_RDONLY 0) (Exec [text "wc"]))). left.
  eexists _, _, _. split; [right; left; reflexivity|]. split; [reflexivity|]. left. eexists. split; [left; reflexivity|reflexivity].
Qed.
