(* ===== verification/Ulib.v ===== *)
(** * user/ulib.c and the filters cat.c, wc.c and echo.c

    The string functions of ulib.c that differ from kernel/string.c, on the
    same byte memory.  The filters read their input in pieces as [read] returns
    them; what they write does not depend on the cuts. *)

From Stdlib Require Import Ascii String.
From S2P Require Import Prelude CString Printf Sh.
Open Scope Z_scope.

(** ** Strings *)

(** [while(( *s++ = *t++) != 0);]  Memory is finite; [fuel] is its size. *)
Fixpoint strcpy_loop (fuel : nat) (m : mem) (s t : Z) : option mem :=
  let m' := wr m s (rd m t) in
  if rd m t =? 0 then Some m' else
  match fuel with O => None | S f => strcpy_loop f m' (s + 1) (t + 1) end.
Definition strcpy (m : mem) (s t : Z) : option mem := strcpy_loop (size m) m s t.

(** [while( *p && *p == *q) p++, q++; return *p - *q;] *)
Fixpoint strcmp_loop (fuel : nat) (m : mem) (p q : Z) : option Z :=
  if negb (rd m p =? 0) && (rd m p =? rd m q)
  then match fuel with O => None | S f => strcmp_loop f m (p + 1) (q + 1) end
  else Some (rd m p - rd m q).
Definition strcmp (m : mem) (p q : Z) : option Z := strcmp_loop (size m) m p q.

(** [memmove] of ulib.c: forward when the source is above the destination. *)
Definition umemmove (m : mem) (dst src n : Z) : mem :=
  if dst <? src then move_fwd m dst src (Z.to_nat n) else move_back m (dst + n) (src + n) (Z.to_nat n).

Definition umemcpy (m : mem) (dst src n : Z) : mem := umemmove m dst src n.

(** [for(n = 0; s[n]; n++); return n;]; the count is a C int. *)
Definition ustrlen (m : mem) (s : Z) : option Z := strlen_loop (size m) m s 0.
(** [for(i = 0; i < n; i++) cdst[i] = c;] *)
Definition umemset (m : mem) (dst c n : Z) : mem := memset_loop m dst c (Z.to_nat n).
(** The comparison of ulib.c; [char] has no sign on this machine. *)
Definition umemcmp (m : mem) (s1 s2 n : Z) : Z := memcmp_loop m s1 s2 (Z.to_nat n).

(** [gets]: the bytes still to come, one for each successful [read]; returns
    the memory and the bytes left. *)
Fixpoint ugets_loop (room : nat) (m : mem) (buf : Z) (input : list Z) : mem * list Z :=
  match room, input with
  | S room', c :: input' =>
      let m' := wr m buf c in
      if (c =? 10) || (c =? 13) then (wr m' (buf + 1) 0, input') else ugets_loop room' m' (buf + 1) input'
  | _, _ => (wr m buf 0, input)
  end.
Definition ugets (m : mem) (buf max : Z) (input : list Z) : mem * list Z := ugets_loop (Z.to_nat (max - 1)) m buf input.

(** ** What they do *)

Lemma strcpy_loop_spec fuel m s t l :
  cstr m t l → (length l ≤ fuel)%nat → s + Z.of_nat (length l) < t ∨ t + Z.of_nat (length l) < s →
  ∃ m', strcpy_loop fuel m s t = Some m' ∧ cstr m' s l ∧ ∀ a, a < s ∨ s + Z.of_nat (length l) < a → rd m' a = rd m a.
Proof.
  revert fuel m s t. induction l as [|c l IH]; intros fuel m s t Hc Hf Hd.
  - cbn [cstr] in Hc. exists (wr m s 0). destruct fuel; cbn [strcpy_loop]; rewrite Hc; (split; [done|]); (split; [cbn [cstr]; by rewrite rd_wr, decide_True|]);
      intros a Ha; cbn [length] in Ha; by rewrite rd_wr, decide_False by lia.
  - destruct Hc as (E & Hne & Hc). cbn [length] in Hf, Hd. destruct fuel as [|f]; [lia|]. cbn [strcpy_loop]. rewrite E, (proj2 (Z.eqb_neq c 0)) by done.
    destruct (IH f (wr m s c) (s + 1) (t + 1)) as (m' & H1 & H2 & H3); [|lia|lia|].
    { eapply cstr_ext; [|exact Hc]. intros a Ha. by rewrite rd_wr, decide_False by lia. }
    exists m'. split; [done|]. split.
    + split; [rewrite H3 by lia; by rewrite rd_wr, decide_True|done].
    + intros a Ha. cbn [length] in Ha. rewrite H3 by lia. by rewrite rd_wr, decide_False by lia.
Qed.
(** [strcpy] to a place that does not overlap the string copies it. *)
Lemma strcpy_spec m s t l :
  cstr m t l → s + Z.of_nat (length l) < t ∨ t + Z.of_nat (length l) < s →
  ∃ m', strcpy m s t = Some m' ∧ cstr m' s l ∧ ∀ a, a < s ∨ s + Z.of_nat (length l) < a → rd m' a = rd m a.
Proof. intros Hc Hd. apply (strcpy_loop_spec _ m s t l Hc); [by eapply cstr_size|done]. Qed.

(** The order of strings as [strcmp] compares them: 0 for equal strings, else
    the difference at the first byte that differs. *)
Fixpoint str_order (a b : list Z) : Z :=
  match a, b with
  | [], [] => 0
  | [], y :: _ => 0 - y
  | x :: _, [] => x
  | x :: a', y :: b' => if x =? y then str_order a' b' else x - y
  end.
Lemma strcmp_loop_spec fuel m p q a b : cstr m p a → cstr m q b → (length a ≤ fuel)%nat → strcmp_loop fuel m p q = Some (str_order a b).
Proof.
  revert fuel p q b. induction a as [|x a IH]; intros fuel p q b Ha Hb Hf.
  - cbn [cstr] in Ha. destruct b as [|y b]; [cbn [cstr] in Hb|destruct Hb as (Hb & _)]; destruct fuel; cbn [strcmp_loop]; rewrite Ha, Hb; done.
  - destruct Ha as (Ex & Hx & Ha). cbn [length] in Hf. destruct fuel as [|f]; [lia|]. cbn [strcmp_loop]. rewrite Ex, (proj2 (Z.eqb_neq x 0)) by done. cbn [negb andb str_order].
    destruct b as [|y b]; [cbn [cstr] in Hb; rewrite Hb, (proj2 (Z.eqb_neq x 0)), Z.sub_0_r by done; done|]. destruct Hb as (Ey & _ & Hb). rewrite Ey.
    destruct (Z.eqb_spec x y) as [->|]; [apply IH; [done|done|lia]|done].
Qed.
Lemma strcmp_spec m p q a b : cstr m p a → cstr m q b → strcmp m p q = Some (str_order a b).
Proof. intros Ha Hb. apply strcmp_loop_spec; [done|done|by eapply cstr_size]. Qed.
Lemma cstr_nonzero m s l : cstr m s l → 0 ∉ l.
Proof. revert s. induction l as [|c l IH]; intros s Hc; [set_solver|]. destruct Hc as (_ & Hne & Hc). specialize (IH _ Hc). set_solver. Qed.
Lemma str_order_zero a b : 0 ∉ a → 0 ∉ b → str_order a b = 0 ↔ a = b.
Proof.
  revert b. induction a as [|x a IH]; intros [|y b] Ha Hb; cbn [str_order]; [done|split; [intros; exfalso; set_solver by lia|done]|split; [intros ->; exfalso; set_solver|done]|].
  destruct (Z.eqb_spec x y) as [->|Hne]; [rewrite IH by set_solver; naive_solver|]. split; [lia|congruence].
Qed.
(** [strcmp] returns 0 exactly for equal strings. *)
Lemma strcmp_equal m p q a b : cstr m p a → cstr m q b → ∃ r, strcmp m p q = Some r ∧ (r = 0 ↔ a = b).
Proof. intros Ha Hb. exists (str_order a b). split; [by apply strcmp_spec|]. apply str_order_zero; by eapply cstr_nonzero. Qed.

Lemma umemmove_spec m dst src n a : 0 ≤ n →
  rd (umemmove m dst src n) a = if decide (dst ≤ a < dst + n) then rd m (src + (a - dst)) else rd m a.
Proof.
  intros Hn. unfold umemmove. destruct (Z.ltb_spec dst src) as [Hlt|Hge].
  - rewrite move_fwd_spec by lia. repeat case_decide; (done || (exfalso; lia)).
  - rewrite move_back_spec by lia. repeat case_decide; try done; try (exfalso; lia). f_equal. lia.
Qed.
(** The two versions of [memmove] do the same. *)
Lemma umemmove_memmove m dst src n a : 0 ≤ n → rd (umemmove m dst src n) a = rd (memmove m dst src n) a.
Proof. intros Hn. by rewrite umemmove_spec, rd_memmove. Qed.

Lemma umemcpy_spec m dst src n a : 0 ≤ n →
  rd (umemcpy m dst src n) a = if decide (dst ≤ a < dst + n) then rd m (src + (a - dst)) else rd m a.
Proof. apply umemmove_spec. Qed.

(** The line [gets] takes: up to [room] bytes, up to and with the first end of line. *)
Fixpoint first_line (room : nat) (input : list Z) : list Z :=
  match room, input with
  | S room', c :: input' => if (c =? 10) || (c =? 13) then [c] else c :: first_line room' input'
  | _, _ => []
  end.
Lemma ugets_loop_spec room m buf input :
  ∀ m' rest, ugets_loop room m buf input = (m', rest) →
  input = first_line room input ++ rest ∧ (length (first_line room input) ≤ room)%nat ∧
  (0 ∉ first_line room input → cstr m' buf (first_line room input)) ∧
  ∀ a, a < buf ∨ buf + Z.of_nat (length (first_line room input)) < a → rd m' a = rd m a.
Proof.
  revert m buf input. induction room as [|room IH]; intros m buf input m' rest.
  { intros [= <- <-]. cbn [first_line length cstr app]. split; [done|]. split; [lia|]. split; [intros _; by rewrite rd_wr, decide_True|intros a Ha; by rewrite rd_wr, decide_False by lia]. }
  destruct input as [|c input]; cbn [ugets_loop first_line].
  { intros [= <- <-]. cbn [length cstr app]. split; [done|]. split; [lia|]. split; [intros _; by rewrite rd_wr, decide_True|intros a Ha; by rewrite rd_wr, decide_False by lia]. }
  destruct ((c =? 10) || (c =? 13)).
  - intros [= <- <-]. cbn [length cstr app]. split; [done|]. split; [lia|]. split.
    + intros Hc. rewrite !rd_wr, decide_False, !decide_True by lia. set_solver.
    + intros a Ha. by rewrite !rd_wr, !decide_False by lia.
  - intros E. destruct (IH _ _ _ _ _ E) as (H1 & H2 & H3 & H4). cbn [length app]. split; [by rewrite <- H1|]. split; [lia|]. split.
    + intros Hc. split; [rewrite H4 by lia; by rewrite rd_wr, decide_True|]. split; [set_solver|]. apply H3. set_solver.
    + intros a Ha. rewrite H4 by lia. by rewrite rd_wr, decide_False by lia.
Qed.
(** [gets] stores the line, terminated, in at most [max] bytes and leaves the
    rest of the input and of the memory. *)
Lemma ugets_spec m buf max input m' rest :
  0 < max → ugets m buf max input = (m', rest) →
  let line := first_line (Z.to_nat (max - 1)) input in
  input = line ++ rest ∧ Z.of_nat (length line) < max ∧ (0 ∉ line → cstr m' buf line) ∧ ∀ a, a < buf ∨ buf + max ≤ a → rd m' a = rd m a.
Proof.
  intros Hm E line. destruct (ugets_loop_spec _ _ _ _ _ _ E) as (H1 & H2 & H3 & H4). fold line in H1, H2, H3, H4. split_and!; [done|lia|done|].
  intros a Ha. apply H4. lia.
Qed.

(** ** wc.c *)

(** The counters of [wc]; they are C ints, for inputs below 2^31 bytes. *)
Record Counts := mkCounts { n_lines : Z; n_words : Z; n_bytes : Z; inword : bool }.
Definition wc_blank (b : Z) : bool := mem_chr [32; 13; 9; 10; 11] b.
Definition wc_byte (k : Counts) (b : Z) : Counts :=
  let l := if b =? 10 then n_lines k + 1 else n_lines k in
  if wc_blank b then mkCounts l (n_words k) (n_bytes k + 1) false
  else if negb (inword k) then mkCounts l (n_words k + 1) (n_bytes k + 1) true
  else mkCounts l (n_words k) (n_bytes k + 1) (inword k).
(** The rounds of the loop in [wc], one for each piece that [read] returns. *)
Definition wc_loop (pieces : list (list Z)) : Counts := foldl (foldl wc_byte) (mkCounts 0 0 0 false) pieces.

Inductive Output := Line (l w c : Z) (name : list Z) | CannotOpen (name : list Z) | ReadError.
(** [wc]: [last] is the result of the [read] that ends the loop. *)
Definition wc (pieces : list (list Z)) (last : Z) (name : list Z) : Output :=
  if last <? 0 then ReadError else let k := wc_loop pieces in Line (n_lines k) (n_words k) (n_bytes k) name.
(** The files of [main], with what their [read]s return, or none when they do
    not open; the result is the output and the exit status. *)
Fixpoint wc_main (files : list (list Z * option (list (list Z) * Z))) : list Output * Z :=
  match files with
  | [] => ([], 0)
  | (name, None) :: _ => ([CannotOpen name], 1)
  | (name, Some (pieces, last)) :: files' =>
      match wc pieces last name with
      | ReadError => ([ReadError], 1)
      | out => let r := wc_main files' in (out :: r.1, r.2)
      end
  end.

(** The words of a text: the maximal runs of bytes that are not blank. *)
Fixpoint words_from (cur : list Z) (s : list Z) : list (list Z) :=
  match s with
  | [] => if decide (cur = []) then [] else [cur]
  | b :: s' =>
      if wc_blank b then (if decide (cur = []) then words_from [] s' else cur :: words_from [] s')
      else words_from (cur ++ [b]) s'
  end.
Definition words (s : list Z) : list (list Z) := words_from [] s.
Definition newlines (s : list Z) : Z := Z.of_nat (length (filter (λ b, b = 10) s)).

(** What the loop adds to the counters over a text; [cur] is the word it is in. *)
Lemma wc_bytes s k cur :
  inword k = bool_decide (cur ≠ []) →
  let k' := foldl wc_byte k s in
  n_lines k' = n_lines k + newlines s ∧ n_bytes k' = n_bytes k + Z.of_nat (length s) ∧
  n_words k' = n_words k + Z.of_nat (length (words_from cur s)) - Z.b2z (inword k).
Proof.
  revert k cur. induction s as [|b s IH]; intros k cur Hk; cbn [foldl].
  - unfold newlines. cbn [filter list_filter length words_from]. rewrite Hk. destruct (decide (cur = [])) as [->|Hne]; cbn [length].
    + rewrite bool_decide_false by naive_solver. cbn [Z.b2z]. lia.
    + rewrite bool_decide_true by done. cbn [Z.b2z]. lia.
  - assert (Hl : newlines (b :: s) = (if b =? 10 then 1 else 0) + newlines s).
    { unfold newlines. destruct (Z.eqb_spec b 10) as [->|Hb]; [rewrite filter_cons_True by done; cbn [length]; lia|by rewrite filter_cons_False]. }
    rewrite Hl. cbn [words_from length]. destruct (wc_blank b) eqn:Hb.
    + destruct (IH (wc_byte k b) []) as (H1 & H2 & H3); unfold wc_byte in *; rewrite Hb in *; cbn [n_lines n_words n_bytes inword] in *; [done|].
      rewrite H1, H2, H3, Hk. cbn [Z.b2z]. split_and!; [destruct (b =? 10); lia|lia|]. destruct (decide (cur = [])) as [->|Hne].
      * rewrite bool_decide_false by naive_solver. cbn [Z.b2z]. lia.
      * rewrite bool_decide_true by done. cbn [Z.b2z length]. lia.
    + destruct (IH (wc_byte k b) (cur ++ [b])) as (H1 & H2 & H3).
      { unfold wc_byte. rewrite Hb. rewrite bool_decide_true by (by destruct cur). by destruct (inword k) eqn:Hw; cbn [negb inword]. }
      rewrite H1, H2, H3. unfold wc_byte. rewrite Hb. destruct (inword k) eqn:Hw; cbn [negb n_lines n_words n_bytes inword Z.b2z]; rewrite ?Hw; cbn [Z.b2z]; destruct (b =? 10); lia.
Qed.

(** However [read] cuts the input, [wc] prints its numbers of lines, words and
    bytes. *)
Theorem wc_counts pieces last name :
  wc pieces last name =
  if last <? 0 then ReadError
  else let s := mjoin pieces in Line (newlines s) (Z.of_nat (length (words s))) (Z.of_nat (length s)) name.
Proof.
  unfold wc. destruct (last <? 0); [done|]. assert (Hf : wc_loop pieces = foldl wc_byte (mkCounts 0 0 0 false) (mjoin pieces)).
  { unfold wc_loop. generalize (mkCounts 0 0 0 false). induction pieces as [|p ps IH]; intros k; [done|]. cbn [foldl]. rewrite IH.
    change (mjoin (p :: ps)) with (p ++ mjoin ps). by rewrite foldl_app. }
  rewrite Hf. destruct (wc_bytes (mjoin pieces) (mkCounts 0 0 0 false) []) as (H1 & H2 & H3); [done|]. cbv zeta. rewrite H1, H2, H3. cbn [n_lines n_words n_bytes inword Z.b2z]. f_equal; unfold words; lia.
Qed.

(** ** cat.c and echo.c *)

(** The loop of [cat]: the pieces, how many bytes each [write] takes, the last
    result of [read]; the output and, after an error, the exit status. *)
Fixpoint cat (pieces : list (list Z * Z)) (last : Z) : list Z * option Z :=
  match pieces with
  | [] => ([], if last <? 0 then Some 1 else None)
  | (p, w) :: pieces' =>
      if w =? Z.of_nat (length p) then let r := cat pieces' last in (p ++ r.1, r.2)
      else (take (Z.to_nat w) p, Some 1)
  end.
(** [main] of cat.c on the files that open; none ends the program. *)
Fixpoint cat_main (files : list (option (list (list Z * Z) * Z))) : list Z * Z :=
  match files with
  | [] => ([], 0)
  | None :: _ => ([], 1)
  | Some (pieces, last) :: files' =>
      match cat pieces last with
      | (out, Some n) => (out, n)
      | (out, None) => let r := cat_main files' in (out ++ r.1, r.2)
      end
  end.
Fixpoint echo (args : list (list Z)) : list Z :=
  match args with [] => [] | a :: args' => a ++ match args' with [] => [10] | _ => [32] end ++ echo args' end.

(** [cat] copies its input, or stops at the first error and has written a part
    from its beginning. *)
Theorem cat_copies pieces last :
  Forall (λ p, p.2 ≤ Z.of_nat (length p.1)) pieces →
  let input := mjoin (fst <$> pieces) in
  match cat pieces last with
  | (out, None) => out = input ∧ 0 ≤ last
  | (out, Some n) => out `prefix_of` input ∧ n = 1 ∧ (last < 0 ∨ Exists (λ p, p.2 ≠ Z.of_nat (length p.1)) pieces)
  end.
Proof.
  induction pieces as [|[p w] ps IH]; intros H; cbn [cat fmap list_fmap].
  - destruct (Z.ltb_spec last 0); [|done]. split_and!; [done|done|by left].
  - apply Forall_cons in H as [Hw H]. cbn [fst snd] in *. change (mjoin (p :: (fst <$> ps))) with (p ++ mjoin (fst <$> ps)). destruct (Z.eqb_spec w (Z.of_nat (length p))) as [->|Hne].
    + specialize (IH H). destruct (cat ps last) as [out [n|]]; cbn [fst snd].
      * destruct IH as (H1 & -> & H2). split_and!; [by apply prefix_app|done|]. destruct H2 as [?|?]; [by left|right; by apply Exists_cons; right].
      * by destruct IH as [-> ?].
    + split_and!; [by apply prefix_app_r, prefix_take|done|right; apply Exists_cons; by left].
Qed.
Lemma echo_args a args : echo (a :: args) = a ++ mjoin ((λ x, 32 :: x) <$> args) ++ [10].
Proof. revert a. induction args as [|b args IH]; intros a; [done|]. change (echo (a :: b :: args)) with (a ++ [32] ++ echo (b :: args)). rewrite IH. cbn [fmap list_fmap]. change (mjoin (?x :: ?l)) with (x ++ mjoin l). cbn [app]. by rewrite <- !app_assoc. Qed.

Example wc_sample : wc_main [(text "f", Some ([text "ab c"; [10; 100]], 0)); (text "g", None)] = ([Line 1 3 6 (text "f"); CannotOpen (text "g")], 1).
Proof. vm_compute. reflexivity. Qed.
