(* ===== verification/Kernel.v ===== *)
(** * Kernel state and the kernel monad

    A kernel path (a system call, a trap, a scheduler round) is a function of
    the kernel state, as seen from the hart that executes it.  It ends with a
    value, halts (a panic, a lock that will never be free, undefined
    behaviour, the fuel of an unbounded loop), or gives the processor up: the
    [Sched] outcome is the [swtch] to the scheduler inside [sched()], with the
    rest of the path waiting for the state in which the scheduler resumes it.

    Physical memory is a byte map; kernel structures (the process table, the
    locks, the file and inode tables) are records.  Addresses of linker
    symbols are parameters, gathered in [KernelImage]. *)

From S2P Require Import Prelude CString.
From stdpp Require Export strings.
Open Scope Z_scope.

(** ** Constants of param.h, memlayout.h and riscv.h *)

Definition NPROC : nat := 64.
Definition NOFILE : nat := 16.
Definition ROOTDEV : Z := 1.
Definition NFILE : nat := 100.
Definition NINODE : nat := 50.
Definition MAXOPBLOCKS : nat := 10.
Definition LOGBLOCKS : nat := MAXOPBLOCKS * 3.
Definition NBUF : nat := MAXOPBLOCKS * 3.
Definition BSIZE : nat := 1024.
Definition PGSIZE : Z := 4096.
Definition KERNBASE : Z := 0x80000000.
Definition PHYSTOP : Z := KERNBASE + 128 * 1024 * 1024.
Definition MAXVA : Z := Z.shiftl 1 (9 + 9 + 9 + 12 - 1).
Definition TRAMPOLINE : Z := MAXVA - PGSIZE.
Definition TRAPFRAME : Z := TRAMPOLINE - PGSIZE.
Definition KSTACK (p : Z) : Z := TRAMPOLINE - (p + 1) * 2 * PGSIZE.

(** 64-bit and 32-bit values. *)
Definition u64 (x : Z) : Z := x mod 2 ^ 64.
Definition u32 (x : Z) : Z := x mod 2 ^ 32.
Definition s32 (x : Z) : Z := if u32 x <? 2 ^ 31 then u32 x else u32 x - 2 ^ 32.

Definition PGROUNDUP (sz : Z) : Z := Z.land (u64 (sz + PGSIZE - 1)) (u64 (Z.lnot (PGSIZE - 1))).
Definition PGROUNDDOWN (a : Z) : Z := Z.land a (u64 (Z.lnot (PGSIZE - 1))).

(** ** Data *)

(** Every spinlock of the kernel; a pipe's lock is named by the page of the
    pipe, the lock inside a sleep lock by the number of the sleep lock. *)
Inductive lockid :=
  | Lkmem | Lpid | Lwait | Lsem | Lticks | Lmailbox | Lftable | Litable | Llog | Lbcache | Lcons | Luart | Lpr | Lvdisk
  | Lproc (i : nat) | Lpipe (a : Z) | Lsleep (n : Z).

Global Instance lockid_eq_dec : EqDecision lockid.
Proof. solve_decision. Defined.

Definition lockid_code (l : lockid) : nat * Z :=
  match l with
  | Lkmem => (0%nat, 0) | Lpid => (1%nat, 0) | Lwait => (2%nat, 0) | Lsem => (3%nat, 0) | Lticks => (4%nat, 0)
  | Lmailbox => (5%nat, 0) | Lftable => (6%nat, 0) | Litable => (7%nat, 0) | Llog => (8%nat, 0) | Lbcache => (9%nat, 0)
  | Lcons => (10%nat, 0) | Lproc i => (11%nat, Z.of_nat i) | Lpipe a => (12%nat, a) | Lsleep n => (13%nat, n)
  | Luart => (14%nat, 0) | Lpr => (15%nat, 0) | Lvdisk => (16%nat, 0)
  end.
Definition lockid_decode (c : nat * Z) : lockid :=
  match c with
  | (0%nat, _) => Lkmem | (1%nat, _) => Lpid | (2%nat, _) => Lwait | (3%nat, _) => Lsem | (4%nat, _) => Lticks
  | (5%nat, _) => Lmailbox | (6%nat, _) => Lftable | (7%nat, _) => Litable | (8%nat, _) => Llog | (9%nat, _) => Lbcache
  | (10%nat, _) => Lcons | (11%nat, z) => Lproc (Z.to_nat z) | (12%nat, a) => Lpipe a | (13%nat, n) => Lsleep n
  | (14%nat, _) => Luart | (15%nat, _) => Lpr | (_, _) => Lvdisk
  end.

Global Instance lockid_countable : Countable lockid.
Proof.
  refine (inj_countable' lockid_code lockid_decode _).
  intros []; cbn; [done..|by rewrite Nat2Z.id|done|done].
Defined.

Record spinlock := mkLock { locked : Z; lk_name : string; lk_cpu : option nat }.

(** [struct cpu] without the scheduler's saved context, which is the
    continuation of the scheduler. *)
Record Cpu := mkCpu { c_proc : option nat; noff : Z; intena : bool }.

Inductive procstate := UNUSED | USED | SLEEPING | RUNNABLE | RUNNING | ZOMBIE.

Global Instance procstate_eq_dec : EqDecision procstate.
Proof. solve_decision. Defined.

(** [struct context]: the return address, the stack pointer and s0-s11. *)
Record Context := mkContext { ra : Z; sp : Z; s_regs : list Z }.

Record Proc := mkProc {
  p_state : procstate;
  p_chan : Z;
  p_killed : Z;
  p_xstate : Z;
  p_pid : Z;
  p_parent : option nat;
  p_kstack : Z;
  p_sz : Z;
  p_pagetable : Z;
  p_trapframe : Z;
  p_context : Context;
  p_ofile : list (option nat);
  p_cwd : option nat;
  p_name : list Z;
  p_is_thread : Z;
  p_alarm_interval : Z;
  p_alarm_ticks : Z;
  p_alarm_handler : Z;
  p_alarm_trapframe : Z;
  p_alarm_active : Z }.

Definition with_state (v : procstate) (p : Proc) : Proc :=
  mkProc v (p_chan p) (p_killed p) (p_xstate p) (p_pid p) (p_parent p) (p_kstack p) (p_sz p) (p_pagetable p) (p_trapframe p) (p_context p) (p_ofile p) (p_cwd p) (p_name p) (p_is_thread p) (p_alarm_interval p) (p_alarm_ticks p) (p_alarm_handler p) (p_alarm_trapframe p) (p_alarm_active p).
Definition with_chan (v : Z) (p : Proc) : Proc :=
  mkProc (p_state p) v (p_killed p) (p_xstate p) (p_pid p) (p_parent p) (p_kstack p) (p_sz p) (p_pagetable p) (p_trapframe p) (p_context p) (p_ofile p) (p_cwd p) (p_name p) (p_is_thread p) (p_alarm_interval p) (p_alarm_ticks p) (p_alarm_handler p) (p_alarm_trapframe p) (p_alarm_active p).
Definition with_killed (v : Z) (p : Proc) : Proc :=
  mkProc (p_state p) (p_chan p) v (p_xstate p) (p_pid p) (p_parent p) (p_kstack p) (p_sz p) (p_pagetable p) (p_trapframe p) (p_context p) (p_ofile p) (p_cwd p) (p_name p) (p_is_thread p) (p_alarm_interval p) (p_alarm_ticks p) (p_alarm_handler p) (p_alarm_trapframe p) (p_alarm_active p).
Definition with_xstate (v : Z) (p : Proc) : Proc :=
  mkProc (p_state p) (p_chan p) (p_killed p) v (p_pid p) (p_parent p) (p_kstack p) (p_sz p) (p_pagetable p) (p_trapframe p) (p_context p) (p_ofile p) (p_cwd p) (p_name p) (p_is_thread p) (p_alarm_interval p) (p_alarm_ticks p) (p_alarm_handler p) (p_alarm_trapframe p) (p_alarm_active p).
Definition with_pid (v : Z) (p : Proc) : Proc :=
  mkProc (p_state p) (p_chan p) (p_killed p) (p_xstate p) v (p_parent p) (p_kstack p) (p_sz p) (p_pagetable p) (p_trapframe p) (p_context p) (p_ofile p) (p_cwd p) (p_name p) (p_is_thread p) (p_alarm_interval p) (p_alarm_ticks p) (p_alarm_handler p) (p_alarm_trapframe p) (p_alarm_active p).
Definition with_parent (v : option nat) (p : Proc) : Proc :=
  mkProc (p_state p) (p_chan p) (p_killed p) (p_xstate p) (p_pid p) v (p_kstack p) (p_sz p) (p_pagetable p) (p_trapframe p) (p_context p) (p_ofile p) (p_cwd p) (p_name p) (p_is_thread p) (p_alarm_interval p) (p_alarm_ticks p) (p_alarm_handler p) (p_alarm_trapframe p) (p_alarm_active p).
Definition with_kstack (v : Z) (p : Proc) : Proc :=
  mkProc (p_state p) (p_chan p) (p_killed p) (p_xstate p) (p_pid p) (p_parent p) v (p_sz p) (p_pagetable p) (p_trapframe p) (p_context p) (p_ofile p) (p_cwd p) (p_name p) (p_is_thread p) (p_alarm_interval p) (p_alarm_ticks p) (p_alarm_handler p) (p_alarm_trapframe p) (p_alarm_active p).
Definition with_sz (v : Z) (p : Proc) : Proc :=
  mkProc (p_state p) (p_chan p) (p_killed p) (p_xstate p) (p_pid p) (p_parent p) (p_kstack p) v (p_pagetable p) (p_trapframe p) (p_context p) (p_ofile p) (p_cwd p) (p_name p) (p_is_thread p) (p_alarm_interval p) (p_alarm_ticks p) (p_alarm_handler p) (p_alarm_trapframe p) (p_alarm_active p).
Definition with_pagetable (v : Z) (p : Proc) : Proc :=
  mkProc (p_state p) (p_chan p) (p_killed p) (p_xstate p) (p_pid p) (p_parent p) (p_kstack p) (p_sz p) v (p_trapframe p) (p_context p) (p_ofile p) (p_cwd p) (p_name p) (p_is_thread p) (p_alarm_interval p) (p_alarm_ticks p) (p_alarm_handler p) (p_alarm_trapframe p) (p_alarm_active p).
Definition with_trapframe (v : Z) (p : Proc) : Proc :=
  mkProc (p_state p) (p_chan p) (p_killed p) (p_xstate p) (p_pid p) (p_parent p) (p_kstack p) (p_sz p) (p_pagetable p) v (p_context p) (p_ofile p) (p_cwd p) (p_name p) (p_is_thread p) (p_alarm_interval p) (p_alarm_ticks p) (p_alarm_handler p) (p_alarm_trapframe p) (p_alarm_active p).
Definition with_context (v : Context) (p : Proc) : Proc :=
  mkProc (p_state p) (p_chan p) (p_killed p) (p_xstate p) (p_pid p) (p_parent p) (p_kstack p) (p_sz p) (p_pagetable p) (p_trapframe p) v (p_ofile p) (p_cwd p) (p_name p) (p_is_thread p) (p_alarm_interval p) (p_alarm_ticks p) (p_alarm_handler p) (p_alarm_trapframe p) (p_alarm_active p).
Definition with_ofile (v : list (option nat)) (p : Proc) : Proc :=
  mkProc (p_state p) (p_chan p) (p_killed p) (p_xstate p) (p_pid p) (p_parent p) (p_kstack p) (p_sz p) (p_pagetable p) (p_trapframe p) (p_context p) v (p_cwd p) (p_name p) (p_is_thread p) (p_alarm_interval p) (p_alarm_ticks p) (p_alarm_handler p) (p_alarm_trapframe p) (p_alarm_active p).
Definition with_cwd (v : option nat) (p : Proc) : Proc :=
  mkProc (p_state p) (p_chan p) (p_killed p) (p_xstate p) (p_pid p) (p_parent p) (p_kstack p) (p_sz p) (p_pagetable p) (p_trapframe p) (p_context p) (p_ofile p) v (p_name p) (p_is_thread p) (p_alarm_interval p) (p_alarm_ticks p) (p_alarm_handler p) (p_alarm_trapframe p) (p_alarm_active p).
Definition with_name (v : list Z) (p : Proc) : Proc :=
  mkProc (p_state p) (p_chan p) (p_killed p) (p_xstate p) (p_pid p) (p_parent p) (p_kstack p) (p_sz p) (p_pagetable p) (p_trapframe p) (p_context p) (p_ofile p) (p_cwd p) v (p_is_thread p) (p_alarm_interval p) (p_alarm_ticks p) (p_alarm_handler p) (p_alarm_trapframe p) (p_alarm_active p).
Definition with_is_thread (v : Z) (p : Proc) : Proc :=
  mkProc (p_state p) (p_chan p) (p_killed p) (p_xstate p) (p_pid p) (p_parent p) (p_kstack p) (p_sz p) (p_pagetable p) (p_trapframe p) (p_context p) (p_ofile p) (p_cwd p) (p_name p) v (p_alarm_interval p) (p_alarm_ticks p) (p_alarm_handler p) (p_alarm_trapframe p) (p_alarm_active p).
Definition with_alarm_interval (v : Z) (p : Proc) : Proc :=
  mkProc (p_state p) (p_chan p) (p_killed p) (p_xstate p) (p_pid p) (p_parent p) (p_kstack p) (p_sz p) (p_pagetable p) (p_trapframe p) (p_context p) (p_ofile p) (p_cwd p) (p_name p) (p_is_thread p) v (p_alarm_ticks p) (p_alarm_handler p) (p_alarm_trapframe p) (p_alarm_active p).
Definition with_alarm_ticks (v : Z) (p : Proc) : Proc :=
  mkProc (p_state p) (p_chan p) (p_killed p) (p_xstate p) (p_pid p) (p_parent p) (p_kstack p) (p_sz p) (p_pagetable p) (p_trapframe p) (p_context p) (p_ofile p) (p_cwd p) (p_name p) (p_is_thread p) (p_alarm_interval p) v (p_alarm_handler p) (p_alarm_trapframe p) (p_alarm_active p).
Definition with_alarm_handler (v : Z) (p : Proc) : Proc :=
  mkProc (p_state p) (p_chan p) (p_killed p) (p_xstate p) (p_pid p) (p_parent p) (p_kstack p) (p_sz p) (p_pagetable p) (p_trapframe p) (p_context p) (p_ofile p) (p_cwd p) (p_name p) (p_is_thread p) (p_alarm_interval p) (p_alarm_ticks p) v (p_alarm_trapframe p) (p_alarm_active p).
Definition with_alarm_trapframe (v : Z) (p : Proc) : Proc :=
  mkProc (p_state p) (p_chan p) (p_killed p) (p_xstate p) (p_pid p) (p_parent p) (p_kstack p) (p_sz p) (p_pagetable p) (p_trapframe p) (p_context p) (p_ofile p) (p_cwd p) (p_name p) (p_is_thread p) (p_alarm_interval p) (p_alarm_ticks p) (p_alarm_handler p) v (p_alarm_active p).
Definition with_alarm_active (v : Z) (p : Proc) : Proc :=
  mkProc (p_state p) (p_chan p) (p_killed p) (p_xstate p) (p_pid p) (p_parent p) (p_kstack p) (p_sz p) (p_pagetable p) (p_trapframe p) (p_context p) (p_ofile p) (p_cwd p) (p_name p) (p_is_thread p) (p_alarm_interval p) (p_alarm_ticks p) (p_alarm_handler p) (p_alarm_trapframe p) v.

Inductive filetype := FD_NONE | FD_PIPE | FD_INODE | FD_DEVICE.

Record File := mkFile {
  f_type : filetype; f_ref : Z; f_readable : bool; f_writable : bool;
  f_pipe : Z; f_ip : option nat; f_off : Z; f_major : Z }.

(** [struct sleeplock] without its spinlock, which is [Lsleep] of its number:
    the buffers' locks come first, then the inodes'. *)
Record Sleeplock := mkSleep { sl_locked : bool; sl_pid : Z }.

Record Inode := mkInode {
  i_dev : Z; i_inum : Z; i_ref : Z; i_lock : Sleeplock; i_valid : bool;
  i_type : Z; i_major : Z; i_minor : Z; i_nlink : Z; i_size : Z; i_addrs : list Z }.

(** [struct buf]; the LRU links are the list [lru] of the state, and the flag
    [disk] belongs to the driver. *)
Record Buf := mkBuf {
  b_valid : bool; b_dev : Z; b_blockno : Z; b_lock : Sleeplock; b_refcnt : Z; b_data : list Z }.

Record LogState := mkLog {
  l_start : Z; l_outstanding : Z; l_committing : Z; l_dev : Z; lh_n : Z; lh_block : list Z }.

Record SuperBlock := mkSb {
  sb_magic : Z; sb_size : Z; sb_nblocks : Z; sb_ninodes : Z; sb_nlog : Z;
  sb_logstart : Z; sb_inodestart : Z; sb_bmapstart : Z }.

(** The buffer cache, the log, the super block, and the disk as the history of
    the blocks written to it, the last write first. *)
Record FsState := mkFs {
  fs_bufs : list Buf; fs_lru : list nat; fs_log : LogState; fs_sb : SuperBlock; fs_disk : list (Z * list Z) }.

Record Mailbox := mkMailbox { msg : list Z; has_message : Z }.

(** The supervisor registers the trap code uses. *)
Record Csr := mkCsr {
  stvec : Z; sepc : Z; scause : Z; stval : Z; satp : Z; spp : bool; spie : bool; stimecmp : Z }.

(** The state splits into the synchronisation state, which the lock and
    interrupt code changes, and the data the locks protect. *)
Record Sync := mkSync {
  y_locks : gmap lockid spinlock;
  y_hart : nat;
  y_cpu : Cpu;
  y_sie : bool }.

Record Data := mkData {
  d_ram : mem;
  d_freelist : Z;
  d_procs : list Proc;
  d_initproc : option nat;
  d_nextpid : Z;
  d_ticks : Z;
  d_mailbox : Mailbox;
  d_mailbox_init : Z;
  d_kernel_pagetable : Z;
  d_csr : Csr;
  d_ftable : list File;
  d_itable : list Inode;
  d_fs : FsState;
  d_forkret_first : bool }.

Record KState := mkK { syn : Sync; dat : Data }.

Abbreviation locks s := (y_locks (syn s)).
Abbreviation hart s := (y_hart (syn s)).
Abbreviation cpu s := (y_cpu (syn s)).
Abbreviation sie s := (y_sie (syn s)).
Abbreviation ram s := (d_ram (dat s)).
Abbreviation freelist s := (d_freelist (dat s)).
Abbreviation procs s := (d_procs (dat s)).
Abbreviation initproc s := (d_initproc (dat s)).
Abbreviation nextpid s := (d_nextpid (dat s)).
Abbreviation ticks s := (d_ticks (dat s)).
Abbreviation mailbox s := (d_mailbox (dat s)).
Abbreviation mailbox_init s := (d_mailbox_init (dat s)).
Abbreviation kernel_pagetable s := (d_kernel_pagetable (dat s)).
Abbreviation csr s := (d_csr (dat s)).
Abbreviation ftable s := (d_ftable (dat s)).
Abbreviation itable s := (d_itable (dat s)).
Abbreviation fs s := (d_fs (dat s)).
Abbreviation forkret_first s := (d_forkret_first (dat s)).

Definition set_locks (v : gmap lockid spinlock) (s : KState) : KState :=
  mkK (mkSync v (hart s) (cpu s) (sie s)) (dat s).
Definition set_hart (v : nat) (s : KState) : KState :=
  mkK (mkSync (locks s) v (cpu s) (sie s)) (dat s).
Definition set_cpu (v : Cpu) (s : KState) : KState :=
  mkK (mkSync (locks s) (hart s) v (sie s)) (dat s).
Definition set_sie (v : bool) (s : KState) : KState :=
  mkK (mkSync (locks s) (hart s) (cpu s) v) (dat s).
Definition set_ram (v : mem) (s : KState) : KState :=
  mkK (syn s) (mkData v (freelist s) (procs s) (initproc s) (nextpid s) (ticks s) (mailbox s) (mailbox_init s) (kernel_pagetable s) (csr s) (ftable s) (itable s) (fs s) (forkret_first s)).
Definition set_freelist (v : Z) (s : KState) : KState :=
  mkK (syn s) (mkData (ram s) v (procs s) (initproc s) (nextpid s) (ticks s) (mailbox s) (mailbox_init s) (kernel_pagetable s) (csr s) (ftable s) (itable s) (fs s) (forkret_first s)).
Definition set_procs (v : list Proc) (s : KState) : KState :=
  mkK (syn s) (mkData (ram s) (freelist s) v (initproc s) (nextpid s) (ticks s) (mailbox s) (mailbox_init s) (kernel_pagetable s) (csr s) (ftable s) (itable s) (fs s) (forkret_first s)).
Definition set_initproc (v : option nat) (s : KState) : KState :=
  mkK (syn s) (mkData (ram s) (freelist s) (procs s) v (nextpid s) (ticks s) (mailbox s) (mailbox_init s) (kernel_pagetable s) (csr s) (ftable s) (itable s) (fs s) (forkret_first s)).
Definition set_nextpid (v : Z) (s : KState) : KState :=
  mkK (syn s) (mkData (ram s) (freelist s) (procs s) (initproc s) v (ticks s) (mailbox s) (mailbox_init s) (kernel_pagetable s) (csr s) (ftable s) (itable s) (fs s) (forkret_first s)).
Definition set_ticks (v : Z) (s : KState) : KState :=
  mkK (syn s) (mkData (ram s) (freelist s) (procs s) (initproc s) (nextpid s) v (mailbox s) (mailbox_init s) (kernel_pagetable s) (csr s) (ftable s) (itable s) (fs s) (forkret_first s)).
Definition set_mailbox (v : Mailbox) (s : KState) : KState :=
  mkK (syn s) (mkData (ram s) (freelist s) (procs s) (initproc s) (nextpid s) (ticks s) v (mailbox_init s) (kernel_pagetable s) (csr s) (ftable s) (itable s) (fs s) (forkret_first s)).
Definition set_mailbox_init (v : Z) (s : KState) : KState :=
  mkK (syn s) (mkData (ram s) (freelist s) (procs s) (initproc s) (nextpid s) (ticks s) (mailbox s) v (kernel_pagetable s) (csr s) (ftable s) (itable s) (fs s) (forkret_first s)).
Definition set_kernel_pagetable (v : Z) (s : KState) : KState :=
  mkK (syn s) (mkData (ram s) (freelist s) (procs s) (initproc s) (nextpid s) (ticks s) (mailbox s) (mailbox_init s) v (csr s) (ftable s) (itable s) (fs s) (forkret_first s)).
Definition set_csr (v : Csr) (s : KState) : KState :=
  mkK (syn s) (mkData (ram s) (freelist s) (procs s) (initproc s) (nextpid s) (ticks s) (mailbox s) (mailbox_init s) (kernel_pagetable s) v (ftable s) (itable s) (fs s) (forkret_first s)).
Definition set_ftable (v : list File) (s : KState) : KState :=
  mkK (syn s) (mkData (ram s) (freelist s) (procs s) (initproc s) (nextpid s) (ticks s) (mailbox s) (mailbox_init s) (kernel_pagetable s) (csr s) v (itable s) (fs s) (forkret_first s)).
Definition set_itable (v : list Inode) (s : KState) : KState :=
  mkK (syn s) (mkData (ram s) (freelist s) (procs s) (initproc s) (nextpid s) (ticks s) (mailbox s) (mailbox_init s) (kernel_pagetable s) (csr s) (ftable s) v (fs s) (forkret_first s)).
Definition set_fs (v : FsState) (s : KState) : KState :=
  mkK (syn s) (mkData (ram s) (freelist s) (procs s) (initproc s) (nextpid s) (ticks s) (mailbox s) (mailbox_init s) (kernel_pagetable s) (csr s) (ftable s) (itable s) v (forkret_first s)).
Definition set_forkret_first (v : bool) (s : KState) : KState :=
  mkK (syn s) (mkData (ram s) (freelist s) (procs s) (initproc s) (nextpid s) (ticks s) (mailbox s) (mailbox_init s) (kernel_pagetable s) (csr s) (ftable s) (itable s) (fs s) v).

(** Static data before [main] runs: zeroes, and [nextpid = 1]. *)
Definition proc0 : Proc :=
  mkProc UNUSED 0 0 0 0 None 0 0 0 0 (mkContext 0 0 (replicate 12 0)) (replicate NOFILE None) None
    (replicate 16 0) 0 0 0 0 0 0.
Definition sleep0 : Sleeplock := mkSleep false 0.
Definition inode0 : Inode := mkInode 0 0 0 sleep0 false 0 0 0 0 0 (replicate 13 0).
Definition buf0 : Buf := mkBuf false 0 0 sleep0 0 (replicate 1024 0).
Definition fs0 : FsState :=
  mkFs (replicate NBUF buf0) [] (mkLog 0 0 0 0 0 (replicate LOGBLOCKS 0)) (mkSb 0 0 0 0 0 0 0 0) [].
Definition with_iref (n : Z) (ip : Inode) : Inode :=
  mkInode (i_dev ip) (i_inum ip) n (i_lock ip) (i_valid ip) (i_type ip) (i_major ip) (i_minor ip)
    (i_nlink ip) (i_size ip) (i_addrs ip).
Definition bss : KState :=
  mkK (mkSync ∅ 0 (mkCpu None 0 false) false)
    (mkData ∅ 0 (replicate NPROC proc0) None 1 0
       (mkMailbox (replicate 128 0) 0) 0 0 (mkCsr 0 0 0 0 0 false false 0)
       (replicate NFILE (mkFile FD_NONE 0 false false 0 None 0 0)) (replicate NINODE inode0) fs0 true).

(** ** The monad *)

Inductive Stop := Panic (m : string) | Spin | Undef | NoFuel.

Inductive Run (A : Type) :=
  | Ret (a : A) (s : KState)
  | Halt (e : Stop)
  | Sched (s : KState) (k : KState → Run A).
Arguments Ret {A} a s.
Arguments Halt {A} e.
Arguments Sched {A} s k.

Definition M (A : Type) : Type := KState → Run A.

Fixpoint run_bind {A B} (f : A → M B) (r : Run A) : Run B :=
  match r with
  | Ret a s => f a s
  | Halt e => Halt e
  | Sched s k => Sched s (λ s', run_bind f (k s'))
  end.

Global Instance M_ret : MRet M := λ A a s, Ret a s.
Global Instance M_bind : MBind M := λ A B f m s, run_bind f (m s).

Definition halt {A} (e : Stop) : M A := λ _, Halt e.
Definition panic {A} (m : string) : M A := halt (Panic m).
Definition gets {A} (f : KState → A) : M A := λ s, Ret (f s) s.
Definition modify (f : KState → KState) : M unit := λ s, Ret tt (f s).
(** A value that must exist: an array index in range, a non-null pointer. *)
Definition need {A} (o : option A) : M A :=
  match o with Some a => mret a | None => halt Undef end.
Definition when (b : bool) (m : M unit) : M unit := if b then m else mret tt.

(** [swtch] to the scheduler; the path goes on in the state the scheduler
    resumes it in. *)
Definition swtch : M unit := λ s, Sched s (λ s', Ret tt s').

(** A [for] loop over a list whose body may return from the function. *)
Fixpoint for_each {A R} (f : A → M (option R)) (l : list A) : M (option R) :=
  match l with
  | [] => mret None
  | x :: l' => r ← f x; match r with Some v => mret (Some v) | None => for_each f l' end
  end.

(** File and process table access. *)
Definition getf (f : nat) : M File := o ← gets (λ s, ftable s !! f); need o.
Definition putf (f : nat) (v : File) : M unit :=
  _ ← getf f; modify (λ s, set_ftable (<[f := v]> (ftable s)) s).
Definition getp (i : nat) : M Proc := o ← gets (λ s, procs s !! i); need o.
Definition putp (i : nat) (f : Proc → Proc) : M unit :=
  p ← getp i; modify (λ s, set_procs (<[i := f p]> (procs s)) s).

Definition indices : list nat := seq 0 NPROC.

(** [int] addition; a sum outside the type is undefined behaviour. *)
Definition iadd (x y : Z) : M Z :=
  if (- 2 ^ 31 <=? x + y) && (x + y <? 2 ^ 31) then mret (x + y) else halt Undef.

(** ** Memory words *)

Fixpoint read_le (m : mem) (a : Z) (n : nat) : Z :=
  match n with O => 0 | S n' => rd m a + 256 * read_le m (a + 1) n' end.
Fixpoint write_le (m : mem) (a v : Z) (n : nat) : mem :=
  match n with O => m | S n' => write_le (wr m a (v mod 256)) (a + 1) (v / 256) n' end.

Definition read64 (m : mem) (a : Z) : Z := read_le m a 8.
Definition write64 (m : mem) (a v : Z) : mem := write_le m a v 8.

#[global] Arguments read64 : simpl never.
#[global] Arguments write64 : simpl never.

Definition load64 (a : Z) : M Z := gets (λ s, read64 (ram s) a).
Definition store64 (a v : Z) : M unit := modify (λ s, set_ram (write64 (ram s) a v) s).

Definition bytes_at (m : mem) (a : Z) (n : nat) : list Z :=
  (λ k : nat, rd m (a + Z.of_nat k)) <$> seq 0 n.
Fixpoint put_bytes (m : mem) (a : Z) (bs : list Z) : mem :=
  match bs with [] => m | b :: bs' => put_bytes (wr m a b) (a + 1) bs' end.

(** The bytes of an [n]-byte integer. *)
Fixpoint le_bytes (n : nat) (v : Z) : list Z :=
  match n with O => [] | S n' => v mod 256 :: le_bytes n' (v / 256) end.

(** The value of little-endian bytes. *)
Fixpoint le_val (bs : list Z) : Z := match bs with [] => 0 | b :: bs' => b + 256 * le_val bs' end.

(** ** Linker symbols and static objects *)

Class KernelImage := {
  end_ : Z; etext : Z; trampoline : Z; uservec : Z; userret : Z;
  usertrap_addr : Z; kernelvec : Z; forkret_addr : Z;
  ticks_addr : Z;
  log_addr : Z;
  slock_addr : nat → Z;
  proc_addr : nat → Z;
  end_range : KERNBASE ≤ end_ ≤ PHYSTOP;
  proc_addr_inj : ∀ i j, proc_addr i = proc_addr j → i = j;
  proc_addr_pos : ∀ i, 0 < proc_addr i
}.

(** A concrete layout. *)
Definition sample_image : KernelImage.
Proof.
  refine {| end_ := 0x80022e58; etext := 0x80008000; trampoline := 0x80007000;
            uservec := 0x80007000; userret := 0x8000709c; usertrap_addr := 0x80002600;
            kernelvec := 0x80005a00; forkret_addr := 0x80001900; ticks_addr := 0x80020000;
            log_addr := 0x80020100; slock_addr := λ i, 0x80021000 + 48 * Z.of_nat i;
            proc_addr := λ i, 0x80010000 + 424 * Z.of_nat i |}.
  - unfold PHYSTOP, KERNBASE; lia.
  - intros; lia.
  - intros; lia.
Defined.
