(* ===== verification/Ring.v ===== *)
(** * Ring buffers with free-running counters

    virtio_disk.c, console.c and pipe.c keep queues in arrays of [N] cells,
    with counters that are never reduced modulo [N]: they run through all
    machine words, modulo [W], a multiple of [N].  The queue at counter [lo]
    is the cells [lo], [lo + 1], ... modulo [N]. *)

From S2P Require Import Prelude.
Open Scope Z_scope.

Section ring.
  Context {A : Type} (N : nat) (W : Z).

Definition cell (i : Z) : nat := Z.to_nat (i mod Z.of_nat N).
Definition holds (ring : list A) (lo : Z) (q : list A) : Prop := ∀ k x, q !! k = Some x → ring !! cell (lo + Z.of_nat k) = Some x.

Lemma holds_nil ring lo : holds ring lo [].
Proof. by intros k x. Qed.
Lemma holds_head ring lo x q : holds ring lo (x :: q) → ring !! cell lo = Some x.
Proof. intros H. specialize (H 0%nat x eq_refl). by rewrite Z.add_0_r in H. Qed.
Lemma holds_app ring lo q q' : holds ring lo (q ++ q') → holds ring lo q ∧ holds ring (lo + Z.of_nat (length q)) q'.
Proof.
  intros H. split; intros k x Hk.
  - apply H. by apply lookup_app_l_Some.
  - rewrite <- Z.add_assoc, <- Nat2Z.inj_add. apply H. rewrite lookup_app_r by lia. by rewrite Nat.add_comm, Nat.add_sub.
Qed.
Lemma holds_last ring lo q x : holds ring lo (q ++ [x]) → ring !! cell (lo + Z.of_nat (length q)) = Some x.
Proof. intros [_ H]%holds_app. by apply holds_head in H. Qed.

  Context (Npos : (0 < N)%nat) (Wpos : 0 < W) (Wdiv : (Z.of_nat N | W)).

Lemma cell_lt i : (cell i < N)%nat.
Proof. unfold cell. pose proof (Z.mod_pos_bound i (Z.of_nat N) ltac:(lia)). lia. Qed.
Lemma cell_wrap i : cell (i mod W) = cell i.
Proof.
  unfold cell. destruct Wdiv as [d ->]. f_equal. assert (0 < d) by nia.
  rewrite (Z.mul_comm d), Z.rem_mul_r by lia. rewrite Z.mul_comm, Z_mod_plus_full. by apply Z.mod_mod; lia.
Qed.
Lemma cell_wrap_add i k : cell (i mod W + k) = cell (i + k).
Proof. rewrite <- cell_wrap, Zplus_mod_idemp_l, cell_wrap. done. Qed.
Lemma cell_inj i k l : (k < N)%nat → (l < N)%nat → cell (i + Z.of_nat k) = cell (i + Z.of_nat l) → k = l.
Proof.
  intros Hk Hl E. unfold cell in E. pose proof (Z.mod_pos_bound (i + Z.of_nat k) (Z.of_nat N) ltac:(lia)). pose proof (Z.mod_pos_bound (i + Z.of_nat l) (Z.of_nat N) ltac:(lia)).
  apply Z2Nat.inj in E; [|lia..]. pose proof (Z.div_mod (i + Z.of_nat k) (Z.of_nat N) ltac:(lia)) as Dk. pose proof (Z.div_mod (i + Z.of_nat l) (Z.of_nat N) ltac:(lia)) as Dl.
  rewrite E in Dk. set (d := (i + Z.of_nat k) / Z.of_nat N - (i + Z.of_nat l) / Z.of_nat N).
  assert (Hd : Z.of_nat k - Z.of_nat l = Z.of_nat N * d) by (unfold d; lia). assert (d = 0 ∨ 1 ≤ d ∨ d ≤ -1) as [->|[?|?]] by lia; nia.
Qed.

Lemma holds_wrap ring lo q : holds ring (lo mod W) q ↔ holds ring lo q.
Proof. unfold holds. by setoid_rewrite cell_wrap_add. Qed.
Lemma holds_pop ring lo x q : holds ring lo (x :: q) → holds ring ((lo + 1) mod W) q.
Proof. intros H. apply holds_wrap. apply (holds_app ring lo [x] q H). Qed.
Lemma holds_push ring lo q x :
  length ring = N → (length q < N)%nat → holds ring lo q → holds (<[cell (lo + Z.of_nat (length q)) := x]> ring) lo (q ++ [x]).
Proof.
  intros Hr Hl H k y Hk. destruct (decide (k = length q)) as [->|Hne].
  - rewrite lookup_app_r, Nat.sub_diag in Hk by lia. injection Hk as <-. rewrite list_lookup_insert_eq; [done|]. rewrite Hr. apply cell_lt.
  - assert (k < length q)%nat as Hk' by (apply lookup_lt_Some in Hk; rewrite length_app in Hk; cbn in Hk; lia).
    rewrite lookup_app_l in Hk by lia. rewrite list_lookup_insert_ne; [by apply H|]. intros E. apply cell_inj in E; lia.
Qed.
End ring.

(** A counter has come round only when it has not moved. *)
Lemma counter_ne W lo n : 0 ≤ lo < W → 0 < n < W → (lo + n) mod W ≠ lo.
Proof.
  intros Hlo Hn E. pose proof (Z.div_mod (lo + n) W ltac:(lia)) as D. rewrite E in D. assert (n = W * ((lo + n) / W)) by lia.
  set (d := (lo + n) / W) in *. assert (d ≤ 0 ∨ 1 ≤ d) as [?|?] by lia; nia.
Qed.
