(* ===== verification/Umalloc.v ===== *)
(** * user/umalloc.c

    The allocator of Kernighan and Ritchie.  Memory is an array of 8-byte words;
    a header is the word of its pointer and the word with its size.  An access
    outside [base] and the heap is a fault.  [sbrk] extends the heap when the
    kernel agrees, which is a parameter.  [None] is a fault, or a loop that has
    not ended within the fuel. *)

From S2P Require Import Prelude Kernel.
Open Scope Z_scope.

Record UHeap := mkUHeap { u_mem : Z → Z; u_freep : Z; u_brk : Z }.
Definition HM (A : Type) : Type := UHeap → option (A * UHeap).
Global Instance HM_ret : MRet HM := λ A a h, Some (a, h).
Global Instance HM_bind : MBind HM := λ A B f m h, match m h with Some (a, h') => f a h' | None => None end.

Definition store_at (m : Z → Z) (a v : Z) : Z → Z := λ x, if x =? a then v else m x.

(** [&base], the start of the heap, and the kernel's answer to [sbrk(n)] when
    the break is [b]. *)
Class HeapEnv := { base : Z; lo : Z; sbrk_ok : Z → Z → bool }.

Section umalloc.
  Context `{HeapEnv}.

Definition mapped (h : UHeap) (a : Z) : bool := (a =? base) || (a =? base + 8) || ((lo <=? a) && (a <? u_brk h)).
Definition ld (a : Z) : HM Z := λ h, if mapped h a then Some (u_mem h a, h) else None.
Definition st (a v : Z) : HM unit := λ h, if mapped h a then Some (tt, mkUHeap (store_at (u_mem h) a v) (u_freep h) (u_brk h)) else None.
Definition get_freep : HM Z := λ h, Some (u_freep h, h).
Definition set_freep (p : Z) : HM unit := λ h, Some (tt, mkUHeap (u_mem h) p (u_brk h)).

(** [p->s.ptr], [p->s.size] and their assignments. *)
Definition s_ptr (p : Z) : HM Z := ld p.
Definition s_size (p : Z) : HM Z := ld (p + 8).
Definition set_ptr (p v : Z) : HM unit := st p v.
Definition set_size (p v : Z) : HM unit := st (p + 8) (u32 v).
Definition hdr_add (p n : Z) : Z := p + 16 * n.

(** [free] *)
Fixpoint free_find (fuel : nat) (bp p : Z) : HM Z :=
  match fuel with
  | O => λ _, None
  | S fuel' =>
      n ← s_ptr p;
      if (p <? bp) && (bp <? n) then mret p else
      if (n <=? p) && ((p <? bp) || (bp <? n)) then mret p else free_find fuel' bp n
  end.
Definition join_right (bp p : Z) : HM unit :=
  n ← s_ptr p; s ← s_size bp;
  if hdr_add bp s =? n then s' ← s_size n; set_size bp (s + s');; n' ← s_ptr n; set_ptr bp n'
  else set_ptr bp n.
Definition join_left (bp p : Z) : HM unit :=
  q ← s_size p;
  if hdr_add p q =? bp then s ← s_size bp; set_size p (q + s);; n ← s_ptr bp; set_ptr p n
  else set_ptr p bp.
Definition free (fuel : nat) (ap : Z) : HM unit :=
  let bp := ap - 16 in
  f ← get_freep;
  p ← free_find fuel bp f;
  join_right bp p;;
  join_left bp p;;
  set_freep p.

Definition sbrk (n : Z) : HM (option Z) := λ h,
  if sbrk_ok (u_brk h) n then Some (Some (u_brk h), mkUHeap (u_mem h) (u_freep h) (u_brk h + n)) else Some (None, h).

Definition morecore (fuel : nat) (nu : Z) : HM Z :=
  let nu := if nu <? 4096 then 4096 else nu in
  r ← sbrk (s32 (nu * 16));
  match r with
  | None => mret 0
  | Some hp => set_size hp nu;; free fuel (hp + 16);; get_freep
  end.

(** The block found: whole, or its tail. *)
Definition take_block (nunits prevp p : Z) : HM Z :=
  s ← s_size p;
  p' ← (if s =? nunits then n ← s_ptr p; set_ptr prevp n;; mret p
        else set_size p (s - nunits);; s' ← s_size p; set_size (hdr_add p s') nunits;; mret (hdr_add p s'));
  set_freep prevp;; mret (p' + 16).

Fixpoint malloc_loop (fuel0 fuel : nat) (nunits prevp p : Z) : HM Z :=
  match fuel with
  | O => λ _, None
  | S fuel' =>
      s ← s_size p;
      if nunits <=? s then take_block nunits prevp p else
      f ← get_freep;
      if p =? f then
        q ← morecore fuel0 nunits;
        if q =? 0 then mret 0 else n ← s_ptr q; malloc_loop fuel0 fuel' nunits q n
      else n ← s_ptr p; malloc_loop fuel0 fuel' nunits p n
  end.
Definition nunits_of (nbytes : Z) : Z := u32 ((nbytes + 15) / 16 + 1).
Definition malloc (fuel : nat) (nbytes : Z) : HM Z :=
  let nunits := nunits_of nbytes in
  f ← get_freep;
  prevp ← (if f =? 0 then set_freep base;; set_ptr base base;; set_size base 0;; mret base else mret f);
  p ← s_ptr prevp;
  malloc_loop fuel fuel nunits prevp p.
End umalloc.
