(* ===== verification/UmallocSpec.v ===== *)
(** * The user memory allocator

    The heap is tiled by blocks, free or in use; no two free blocks are
    neighbours, and the ring of headers goes through [base] and the free
    blocks in the order of their addresses.  Every operation keeps this, ends,
    and never touches memory in use. *)

From S2P Require Import Prelude Kernel Umalloc.
Open Scope Z_scope.

(** ** Tilings *)

(** Blocks from an address on: the number of units, and whether it is free. *)
Notation Blk := (Z * bool)%type.
Fixpoint tot (T : list Blk) : Z := match T with [] => 0 | (s, _) :: T' => s + tot T' end.
Fixpoint blocks (want : bool) (a : Z) (T : list Blk) : list (Z * Z) :=
  match T with [] => [] | (s, f) :: T' => (if Bool.eqb f want then [(a, s)] else []) ++ blocks want (a + 16 * s) T' end.
Notation frees := (blocks true).
Notation useds := (blocks false).
Fixpoint coalesced (T : list Blk) : Prop :=
  match T with (_, true) :: (((_, true) :: _) as T') => False | _ :: T' => coalesced T' | [] => True end.

Lemma tot_app T1 T2 : tot (T1 ++ T2) = tot T1 + tot T2.
Proof. induction T1 as [|[s f] T1 IH]; cbn; lia. Qed.
Lemma blocks_app w a T1 T2 : blocks w a (T1 ++ T2) = blocks w a T1 ++ blocks w (a + 16 * tot T1) T2.
Proof.
  revert a. induction T1 as [|[s f] T1 IH]; intros a; cbn; [f_equal; lia|]. rewrite IH, <- app_assoc. do 3 f_equal. lia.
Qed.
Notation pos_sizes := (Forall (λ b : Blk, 0 < b.1)).
Lemma tot_pos T : pos_sizes T → 0 ≤ tot T.
Proof. induction 1 as [|[s f] T Hs _ IH]; cbn in *; lia. Qed.

(** A picked block is a block of the tiling. *)
Lemma blocks_split w a T x s : (x, s) ∈ blocks w a T → ∃ T1 T2, T = T1 ++ (s, w) :: T2 ∧ x = a + 16 * tot T1.
Proof.
  revert a. induction T as [|[s' f] T IH]; intros a; cbn; [by intros ?%not_elem_of_nil|]. intros [Hin|Hin]%elem_of_app.
  - destruct (Bool.eqb f w) eqn:E; [|by apply not_elem_of_nil in Hin]. apply eqb_prop in E as ->. apply list_elem_of_singleton in Hin as [= -> ->].
    exists [], T. split; [done|cbn; lia].
  - destruct (IH _ Hin) as (T1 & T2 & -> & ->). exists ((s', f) :: T1), T2. split; [done|cbn; lia].
Qed.
Lemma blocks_range w a T x s : pos_sizes T → (x, s) ∈ blocks w a T → a ≤ x ∧ x + 16 * s ≤ a + 16 * tot T ∧ 0 < s.
Proof.
  intros HT Hin. destruct (blocks_split _ _ _ _ _ Hin) as (T1 & T2 & -> & ->). rewrite tot_app. apply Forall_app in HT as [H1 H2].
  apply Forall_cons in H2 as [Hs H2]. pose proof (tot_pos _ H1). pose proof (tot_pos _ H2). cbn in *. lia.
Qed.

(** ** The ring *)

Section ring.
  Context (m : Z → Z).
(** The chain of headers from [a] through the nodes of [l] to [b]. *)
Fixpoint seg (a : Z) (l : list (Z * Z)) (b : Z) : Prop :=
  match l with [] => a = b | (x, s) :: l' => a = x ∧ m (x + 8) = s ∧ seg (m x) l' b end.
Lemma seg_app a l1 l2 b : seg a (l1 ++ l2) b ↔ ∃ c, seg a l1 c ∧ seg c l2 b.
Proof.
  revert a. induction l1 as [|[x s] l1 IH]; intros a; cbn; [naive_solver|]. rewrite IH. naive_solver.
Qed.
End ring.

Lemma seg_frame m m' a l b : (∀ x s, (x, s) ∈ l → m' x = m x ∧ m' (x + 8) = m (x + 8)) → seg m a l b → seg m' a l b.
Proof.
  revert a. induction l as [|[x s] l IH]; intros a Hf; cbn; [done|]. intros (-> & Hs & Hl). destruct (Hf x s) as [H1 H2]; [left|].
  rewrite H1, H2. split_and!; [done|done|]. apply IH; [|done]. intros y t Hy. apply (Hf y t). by right.
Qed.

(** Increasing addresses above [b]. *)
Fixpoint asc (b : Z) (l : list (Z * Z)) : Prop := match l with [] => True | (x, _) :: l' => b < x ∧ asc x l' end.
Lemma asc_app b l1 x s l2 : asc b (l1 ++ (x, s) :: l2) ↔ asc b l1 ∧ asc b (l1 ++ [(x, s)]) ∧ asc x l2.
Proof. revert b. induction l1 as [|[y t] l1 IH]; intros b; cbn; [tauto|]. rewrite IH. tauto. Qed.
Lemma asc_weaken b b' l : b' ≤ b → asc b l → asc b' l.
Proof. destruct l as [|[x s] l]; [done|]. cbn. intros ? [? ?]. split; [lia|done]. Qed.
Lemma asc_in b l x s : asc b l → (x, s) ∈ l → b < x.
Proof.
  revert b. induction l as [|[y t] l IH]; intros b; cbn; [by intros _ ?%not_elem_of_nil|]. intros [Hy Hl] [[= -> ->]|Hin]%elem_of_cons; [done|].
  specialize (IH _ Hl Hin). lia.
Qed.
Lemma blocks_asc w a T b : pos_sizes T → b < a → asc b (blocks w a T).
Proof.
  intros HT. revert a b. induction HT as [|[s f] T Hs _ IH]; intros a b Hb; [done|]. cbn in *. destruct (Bool.eqb f w); cbn; [|apply IH; lia].
  split; [done|]. apply IH. lia.
Qed.

(** ** The invariant *)

(** [base] is a header below the heap, and the kernel never lets the heap reach
    [2^32] units. *)
Class HeapLaw `{HeapEnv} : Prop := {
  base_pos : 0 < base;
  base_lo : base + 16 ≤ lo;
  sbrk_limit : ∀ b n, sbrk_ok b n = true → b + n < lo + 16 * 2 ^ 32
}.

Section allocator.
  Context `{HeapLaw}.

Definition nodes (T : list Blk) : list (Z * Z) := (base, 0) :: frees lo T.

Record uinv (h : UHeap) (T : list Blk) : Prop := {
  v_sizes : pos_sizes T;
  v_co : coalesced T;
  v_brk : u_brk h = lo + 16 * tot T;
  v_max : tot T < 2 ^ 32;
  v_seg : seg (u_mem h) base (nodes T) base;
  v_freep : ∃ s, (u_freep h, s) ∈ nodes T;
  v_used : ∀ a s, (a, s) ∈ useds lo T → u_mem h (a + 8) = s
}.

(** ** Running allocator code *)

Lemma ld_run {B} a (k : Z → HM B) h : mapped h a = true → (ld a ≫= k) h = k (u_mem h a) h.
Proof. intros E. unfold mbind, HM_bind, ld. by rewrite E. Qed.
Lemma st_run {B} a v (k : unit → HM B) h : mapped h a = true → (st a v ≫= k) h = k tt (mkUHeap (store_at (u_mem h) a v) (u_freep h) (u_brk h)).
Proof. intros E. unfold mbind, HM_bind, st. by rewrite E. Qed.
Lemma st_last a v h : mapped h a = true → st a v h = Some (tt, mkUHeap (store_at (u_mem h) a v) (u_freep h) (u_brk h)).
Proof. intros E. unfold st. by rewrite E. Qed.
Lemma hbind_run {A B} (c : HM A) (k : A → HM B) h a h' : c h = Some (a, h') → (c ≫= k) h = k a h'.
Proof. intros E. unfold mbind, HM_bind. by rewrite E. Qed.

Lemma mapped_heap h a : lo ≤ a → a < u_brk h → mapped h a = true.
Proof. intros H1 H2. unfold mapped. rewrite (proj2 (Z.leb_le _ _) H1), (proj2 (Z.ltb_lt _ _) H2). by rewrite orb_true_r. Qed.
Lemma mapped_base h : mapped h base = true ∧ mapped h (base + 8) = true.
Proof. unfold mapped. rewrite !Z.eqb_refl, orb_true_r. done. Qed.

Definition hdr_mapped (h : UHeap) (l : list (Z * Z)) : Prop := ∀ x s, (x, s) ∈ l → mapped h x = true ∧ mapped h (x + 8) = true.
Lemma block_mapped h T x s w : pos_sizes T → u_brk h = lo + 16 * tot T → (x, s) ∈ blocks w lo T → mapped h x = true ∧ mapped h (x + 8) = true.
Proof. intros HT Hb Hin. destruct (blocks_range _ _ _ _ _ HT Hin) as (? & ? & ?). split; apply mapped_heap; lia. Qed.
Lemma nodes_mapped h T : pos_sizes T → u_brk h = lo + 16 * tot T → hdr_mapped h (nodes T).
Proof. intros HT Hb x s [[= -> ->]|Hin]%elem_of_cons; [apply mapped_base|]. by eapply block_mapped. Qed.
Lemma nodes_asc T : pos_sizes T → asc (base - 1) (nodes T).
Proof. intros HT. cbn. split; [lia|]. apply blocks_asc; [done|]. pose proof base_lo. lia. Qed.

(** *** The search of [free] *)

Lemma find_fwd h bp p sp l2 r x fuel :
  seg (u_mem h) x (r ++ (p, sp) :: l2) base → asc (x - 1) (r ++ (p, sp) :: l2) → hdr_mapped h (r ++ (p, sp) :: l2) →
  base ≤ x → p < bp → asc bp l2 → (length r < fuel)%nat → free_find fuel bp x h = Some (p, h).
Proof.
  revert x fuel. induction r as [|[y t] r IH]; intros x fuel Hseg Hasc Hm Hx Hp Hl2 Hf; (destruct fuel as [|fuel]; [cbn in Hf; lia|]); cbn [free_find].
  - destruct Hseg as (-> & _ & Hseg). unfold s_ptr. rewrite ld_run by (apply (Hm p sp); left). destruct l2 as [|[y t] l2]; cbn in Hseg.
    + rewrite Hseg. rewrite (proj2 (Z.ltb_ge bp base)), andb_false_r by lia.
      by rewrite (proj2 (Z.leb_le base p) Hx), (proj2 (Z.ltb_lt p bp) Hp).
    + destruct Hseg as [-> _]. by rewrite (proj2 (Z.ltb_lt p bp) Hp), (proj2 (Z.ltb_lt bp y) (proj1 Hl2)).
  - destruct Hseg as (-> & _ & Hseg). destruct Hasc as [_ Hasc]. assert (Hm' : hdr_mapped h (r ++ (p, sp) :: l2)) by (intros z u Hz; apply (Hm z u); by right).
    unfold s_ptr. rewrite ld_run by (apply (Hm y t); left).
    assert (Hn : y < u_mem h y ≤ p ∧ asc (u_mem h y - 1) (r ++ (p, sp) :: l2)).
    { destruct r as [|[z u] r]; cbn in Hseg, Hasc |- *; destruct Hseg as [-> _]; [split; [lia|]; split; [lia|apply Hasc]|].
      destruct Hasc as [? Hasc]. assert (z < p) by (apply (asc_in z _ p sp Hasc); set_solver). split; [lia|]. split; [lia|done]. }
    rewrite (proj2 (Z.ltb_ge bp (u_mem h y))), andb_false_r by lia. rewrite (proj2 (Z.leb_gt (u_mem h y) y)) by lia. cbn [andb].
    apply IH; [done|apply Hn|done|lia|done|done|cbn in Hf; lia].
Qed.

Lemma find_wrap h bp r x fuel :
  seg (u_mem h) x r base → asc (Z.max bp (x - 1)) r → hdr_mapped h r → base < bp → r ≠ [] →
  free_find (length r + fuel) bp x h = free_find fuel bp base h.
Proof.
  revert x. induction r as [|[y t] r IH]; intros x Hseg Hasc Hm Hb Hr; [done|]. destruct Hseg as (-> & _ & Hseg). destruct Hasc as [Hy Hasc].
  cbn [length Nat.add free_find]. unfold s_ptr. rewrite ld_run by (apply (Hm y t); left).
  destruct r as [|[z u] r]; cbn in Hseg.
  - rewrite Hseg. rewrite (proj2 (Z.ltb_ge y bp)), (proj2 (Z.ltb_ge bp base)) by lia. cbn [andb orb]. by rewrite andb_false_r.
  - destruct Hseg as [Hz Hseg]. rewrite Hz. destruct Hasc as [Hyz Hasc]. rewrite (proj2 (Z.ltb_ge y bp)), (proj2 (Z.leb_gt z y)) by lia. cbn [andb].
    apply IH; [done| |intros v w Hv; apply (Hm v w); by right|done|done]. split; [lia|done].
Qed.

Lemma asc_suffix b r1 x s r : asc b (r1 ++ (x, s) :: r) → asc (x - 1) ((x, s) :: r) ∧ b < x.
Proof. intros Ha. split; [|apply (asc_in b _ x s Ha); set_solver]. apply asc_app in Ha as (_ & _ & Ha). split; [lia|done]. Qed.

Lemma find_run h T l1 p sp l2 bp fuel :
  uinv h T → nodes T = l1 ++ (p, sp) :: l2 → p < bp → asc bp l2 → base < bp → (2 * length (nodes T) ≤ fuel)%nat →
  free_find fuel bp (u_freep h) h = Some (p, h).
Proof.
  intros I Hn Hp Hl2 Hb Hf.
  assert (Hbase : ∃ r, l1 ++ [(p, sp)] = (base, 0) :: r).
  { unfold nodes in Hn. destruct l1 as [|n l1]; [injection Hn as <- <- _; by exists []|]. injection Hn as <- _. by exists (l1 ++ [(p, sp)]). }
  destruct (v_freep _ _ I) as [sf Hin]. pose proof (v_seg _ _ I) as Hseg. pose proof (nodes_asc T (v_sizes _ _ I)) as Hasc.
  pose proof (nodes_mapped h T (v_sizes _ _ I) (v_brk _ _ I)) as Hm. set (f := u_freep h) in *. rewrite Hn in *. rewrite length_app in Hf. cbn [length] in Hf.
  assert (Hgo : ∀ r1 x s r fuel', l1 ++ [(p, sp)] = r1 ++ (x, s) :: r → (length l1 < fuel')%nat → free_find fuel' bp x h = Some (p, h)).
  { intros r1 x s r fuel' E Hfu. destruct (exists_last (l := (x, s) :: r)) as (r' & [p' sp'] & Er); [done|]. rewrite Er, app_assoc in E. apply app_inj_tail in E as [-> [= <- <-]].
    assert (Hl : (x, s) :: r ++ l2 = r' ++ (p, sp) :: l2) by (change ((x, s) :: r ++ l2) with (((x, s) :: r) ++ l2); rewrite Er; by rewrite <- app_assoc).
    rewrite <- !app_assoc, <- Hl in *. destruct (asc_suffix _ _ _ _ _ Hasc) as [Ha Hx]. apply seg_app in Hseg as (c & _ & Hseg). assert (c = x) as -> by apply Hseg.
    eapply find_fwd; [rewrite <- Hl; exact Hseg|rewrite <- Hl; exact Ha| |lia|exact Hp|exact Hl2|rewrite length_app in Hfu; lia].
    rewrite <- Hl. intros z u Hz. apply (Hm z u). set_solver. }
  rewrite cons_middle, app_assoc in Hin. apply elem_of_app in Hin as [Hin|Hin].
  - apply list_elem_of_split in Hin as (r1 & r & E). eapply Hgo; [exact E|lia].
  - apply list_elem_of_split in Hin as (r1 & r & ->). destruct Hbase as [r0 E0].
    replace fuel with (length ((f, sf) :: r) + (fuel - length ((f, sf) :: r)))%nat by (rewrite length_app in Hf; cbn in *; lia).
    rewrite find_wrap; [apply (Hgo [] base 0 r0); [exact E0|rewrite length_app in Hf; cbn in *; lia]|..].
    + apply seg_app in Hseg as (c & _ & Hseg). rewrite (app_comm_cons _ _ (p, sp)) in Hseg. apply seg_app in Hseg as (c' & _ & Hseg). by assert (c' = f) as -> by apply Hseg.
    + destruct (asc_suffix _ _ _ _ _ Hl2) as [Ha Hbf]. split; [lia|apply Ha].
    + intros z u Hz. apply (Hm z u). set_solver.
    + done.
    + done.
Qed.

(** *** Blocks *)

Lemma blocks_disjoint w w' a T x s y t :
  pos_sizes T → (x, s) ∈ blocks w a T → (y, t) ∈ blocks w' a T → (x = y ∧ s = t ∧ w = w') ∨ x + 16 * s ≤ y ∨ y + 16 * t ≤ x.
Proof.
  intros HT. revert a. induction HT as [|[k f] T Hk HT IH]; intros a; cbn; [by intros ?%not_elem_of_nil|]. cbn in Hk.
  assert (Hhd : ∀ v z u, (z, u) ∈ (if Bool.eqb f v then [(a, k)] else []) → f = v ∧ z = a ∧ u = k).
  { intros v z u Hz. destruct (Bool.eqb f v) eqn:E; [|by apply not_elem_of_nil in Hz]. apply eqb_prop in E. apply list_elem_of_singleton in Hz. naive_solver. }
  intros [(-> & -> & ->)%Hhd|H1]%elem_of_app [(E & -> & ->)%Hhd|H2]%elem_of_app; [naive_solver| | |by eapply IH].
  - right. left. by apply (blocks_range _ _ _ _ _ HT) in H2 as [? _].
  - right. right. by apply (blocks_range _ _ _ _ _ HT) in H1 as [? _].
Qed.

Lemma coalesced_app T1 b T2 : coalesced (T1 ++ b :: T2) ↔ coalesced (T1 ++ [b]) ∧ coalesced (b :: T2).
Proof.
  induction T1 as [|[s [|]] T1 IH].
  - cbn. destruct b as [s [|]]; naive_solver.
  - destruct T1 as [|[s' [|]] T1]; [destruct b as [t [|]]; cbn; naive_solver|cbn; naive_solver|]. cbn in *. naive_solver.
  - cbn in *. destruct T1 as [|[s' [|]] T1]; [destruct b as [t [|]]; cbn; naive_solver|naive_solver|naive_solver].
Qed.
Lemma coalesced_size T1 s s' f T2 : coalesced (T1 ++ (s, f) :: T2) → coalesced (T1 ++ (s', f) :: T2).
Proof.
  rewrite !(coalesced_app T1 _ T2). intros [H1 H2]. split; [|by destruct f].
  clear H2. induction T1 as [|[k [|]] T1 IH]; [by destruct f| |]; destruct T1 as [|[k' [|]] T1]; cbn in *; destruct f; naive_solver.
Qed.

(** Blocks after the one that is freed. *)
Definition merge_right (s : Z) (T2 : list Blk) : Z * list Blk := match T2 with (s2, true) :: T2' => (s + s2, T2') | _ => (s, T2) end.
Lemma merge_right_spec s T2 s' T2' a :
  merge_right s T2 = (s', T2') → pos_sizes T2 →
  s' + tot T2' = s + tot T2 ∧ s ≤ s' ∧ useds (a + 16 * s') T2' = useds (a + 16 * s) T2 ∧ pos_sizes T2' ∧ (length T2' ≤ length T2)%nat ∧
  (∀ k, coalesced ((s, false) :: T2) → coalesced ((k, true) :: T2')).
Proof.
  intros E HT. destruct T2 as [|[s2 [|]] T2]; cbn in E; injection E as <- <-.
  - cbn. split_and!; auto; lia.
  - apply Forall_cons in HT as [Hs HT]. cbn in *. split_and!; [lia|lia|f_equal; lia|done|lia|]. intros k. destruct T2 as [|[? []] ?]; cbn; auto.
  - cbn. split_and!; auto; lia.
Qed.

(** The four header words that [free] may write. *)
Definition only_writes (m m' : Z → Z) (l : list Z) : Prop := ∀ c, c ∉ l → m' c = m c.
Lemma store_eq m a v : store_at m a v a = v.
Proof. unfold store_at. by rewrite Z.eqb_refl. Qed.
Lemma store_ne m a v c : c ≠ a → store_at m a v c = m c.
Proof. intros Hc. unfold store_at. by rewrite (proj2 (Z.eqb_neq _ _) Hc). Qed.
Lemma u32_small x : 0 ≤ x < 2 ^ 32 → u32 x = x.
Proof. apply Z.mod_small. Qed.

(** The nodes around a block. *)
Lemma nodes_around T1 s T2 : nodes (T1 ++ (s, false) :: T2) = nodes T1 ++ frees (lo + 16 * tot T1 + 16 * s) T2.
Proof. unfold nodes. rewrite blocks_app. done. Qed.

(** The next free block is not adjacent when the next block is in use. *)
Lemma seg_head_gt m n a a' T : seg m n (frees a' T) base → pos_sizes T → a < a' → base < a → n ≠ a.
Proof.
  intros Hseg HT Ha Hb. pose proof (blocks_asc true a' T a HT Ha) as Hasc. destruct (frees a' T) as [|[x s] l]; cbn in *; [lia|].
  destruct Hseg as [-> _]. lia.
Qed.

Lemma right_run h T1 s T2 l1 p sp s' T2' :
  let bp := lo + 16 * tot T1 in
  uinv h (T1 ++ (s, false) :: T2) → nodes T1 = l1 ++ [(p, sp)] → merge_right s T2 = (s', T2') →
  ∃ h1, join_right bp p h = Some (tt, h1) ∧ u_freep h1 = u_freep h ∧ u_brk h1 = u_brk h ∧ only_writes (u_mem h) (u_mem h1) [bp; bp + 8] ∧
    u_mem h1 (bp + 8) = s' ∧ seg (u_mem h1) (u_mem h1 bp) (frees (bp + 16 * s') T2') base.
Proof.
  intros bp I Hn Hmr. pose proof (v_sizes _ _ I) as HT. pose proof (v_seg _ _ I) as Hseg. pose proof (v_max _ _ I) as Hmax. pose proof base_lo as Hlo.
  rewrite tot_app in Hmax. cbn [tot] in Hmax. pose proof HT as [HT1 [Hs HT2]%Forall_cons]%Forall_app. cbn in Hs. pose proof (tot_pos _ HT1). pose proof (tot_pos _ HT2).
  assert (Hbp : mapped h bp = true ∧ mapped h (bp + 8) = true).
  { apply (block_mapped h _ bp s false HT (v_brk _ _ I)). rewrite blocks_app. cbn. set_solver. }
  assert (Hms : u_mem h (bp + 8) = s) by (apply (v_used _ _ I); rewrite blocks_app; cbn; set_solver).
  assert (Hp : mapped h p = true).
  { apply (nodes_mapped h _ HT (v_brk _ _ I) p sp). rewrite nodes_around, Hn. set_solver. }
  rewrite nodes_around, Hn, <- app_assoc in Hseg. apply seg_app in Hseg as (c & _ & -> & _ & Hseg). fold bp in Hseg.
  unfold join_right, s_ptr, s_size, set_ptr, set_size. rewrite ld_run by done. rewrite ld_run by apply Hbp. rewrite Hms. unfold hdr_add.
  assert (Hkeep : ∀ m a T, pos_sizes T → bp + 16 * s ≤ a → only_writes (u_mem h) m [bp; bp + 8] → ∀ n, seg (u_mem h) n (frees a T) base → seg m n (frees a T) base).
  { intros m a T HTT Ha Hw n. apply seg_frame. intros x t Hx. apply (blocks_range _ _ _ _ _ HTT) in Hx as (? & _ & _). split; apply Hw; rewrite !not_elem_of_cons; split_and!; (lia || apply not_elem_of_nil). }
  destruct (match T2 with (_, true) :: _ => true | _ => false end) eqn:E2.
  - destruct T2 as [|[s2 [|]] T2]; try done. injection Hmr as <- <-. destruct Hseg as (Hn2 & Hs2 & Hseg). apply Forall_cons in HT2 as [Hs2' HT2]. cbn in Hs2'. pose proof (tot_pos _ HT2).
    assert (Hn2' : mapped h (u_mem h p) = true ∧ mapped h (u_mem h p + 8) = true).
    { rewrite Hn2. apply (block_mapped h _ (bp + 16 * s) s2 true HT (v_brk _ _ I)). rewrite blocks_app. cbn. fold bp. set_solver. }
    rewrite Hn2, Z.eqb_refl in *. cbn [tot] in *. rewrite ld_run by apply Hn2'. rewrite Hs2, st_run by apply Hbp. rewrite ld_run by apply Hn2'.
    rewrite st_last by apply Hbp. eexists. split; [done|]. cbn [u_mem u_freep u_brk]. split_and!; [done|done| |..].
    + intros c Hc. apply not_elem_of_cons in Hc as [? Hc]. apply not_elem_of_cons in Hc as [? _]. by rewrite !store_ne.
    + rewrite store_ne by lia. rewrite store_eq, u32_small by lia. done.
    + rewrite store_eq, store_ne by lia. replace (bp + 16 * (s + s2)) with (bp + 16 * s + 16 * s2) by lia. apply Hkeep; [done|lia| |done].
      intros c Hc. apply not_elem_of_cons in Hc as [? Hc]. apply not_elem_of_cons in Hc as [? _]. by rewrite !store_ne.
  - assert (merge_right s T2 = (s, T2)) as Hmr' by (by destruct T2 as [|[? [|]] ?]). rewrite Hmr in Hmr'. injection Hmr' as -> ->.
    assert (Hne : u_mem h p ≠ bp + 16 * s).
    { destruct T2 as [|[s2 [|]] T2]; [cbn in Hseg; lia|done|]. apply Forall_cons in HT2 as [? HT2]. cbn in *. eapply seg_head_gt; [exact Hseg|done|lia|lia]. }
    rewrite (proj2 (Z.eqb_neq _ _) (not_eq_sym Hne)), st_last by apply Hbp. eexists. split; [done|]. cbn [u_mem u_freep u_brk].
    assert (Hw : only_writes (u_mem h) (store_at (u_mem h) bp (u_mem h p)) [bp; bp + 8]) by (intros c [? _]%not_elem_of_cons; by rewrite store_ne).
    split_and!; [done|done|done| |]; [rewrite store_ne by lia; done|]. rewrite store_eq. by apply Hkeep.
Qed.

(** A node before a block ends before it. *)
Lemma node_before T1 x s : pos_sizes T1 → (x, s) ∈ nodes T1 → x + 16 ≤ lo + 16 * tot T1 ∧ x + 16 * s ≤ lo + 16 * tot T1 ∧ 0 ≤ s.
Proof.
  intros HT [[= -> ->]|Hin]%elem_of_cons; [pose proof base_lo; pose proof (tot_pos _ HT); lia|].
  apply (blocks_range _ _ _ _ _ HT) in Hin. lia.
Qed.

(** The words of blocks in use are not header words of the block freed or of
    the node before it. *)
Lemma used_apart T1 s T2 p sp a k c :
  let bp := lo + 16 * tot T1 in
  pos_sizes T1 → pos_sizes T2 → 0 < s → (p, sp) ∈ nodes T1 → (a, k) ∈ useds lo T1 ++ useds (bp + 16 * s) T2 → a ≤ c < a + 16 * k → c ∉ [bp; bp + 8; p; p + 8].
Proof.
  intros bp HT1 HT2 Hs Hp Hin Hc. destruct (node_before _ _ _ HT1 Hp) as (Hpb & _ & _). fold bp in Hpb. pose proof base_lo. rewrite !not_elem_of_cons.
  assert ((c < bp ∨ bp + 16 ≤ c) ∧ (c < p ∨ p + 16 ≤ c)); [|split_and!; (lia || apply not_elem_of_nil)].
  apply elem_of_app in Hin as [Hin|Hin].
  - pose proof (blocks_range _ _ _ _ _ HT1 Hin) as (? & ? & ?). split; [lia|]. apply elem_of_cons in Hp as [[= -> ->]|Hp]; [lia|].
    pose proof (blocks_range _ _ _ _ _ HT1 Hp). destruct (blocks_disjoint _ _ _ _ _ _ _ _ HT1 Hin Hp) as [(_ & _ & ?)|?]; [done|lia].
  - apply (blocks_range _ _ _ _ _ HT2) in Hin. lia.
Qed.

(** What [free] leaves. *)
Record freed (h : UHeap) (T1 : list Blk) (s : Z) (T2 : list Blk) (h' : UHeap) (T' : list Blk) : Prop := {
  fr_inv : uinv h' T';
  fr_used : useds lo T' = useds lo T1 ++ useds (lo + 16 * tot T1 + 16 * s) T2;
  fr_brk : u_brk h' = u_brk h;
  fr_len : (length T' ≤ length T1 + S (length T2))%nat;
  fr_block : ∃ x k, (x, k) ∈ frees lo T' ∧ s ≤ k;
  fr_data : ∀ a k c, (a, k) ∈ useds lo T' → a ≤ c < a + 16 * k → u_mem h' c = u_mem h c
}.

Section free_block.
  Context (h : UHeap) (T1 : list Blk) (s : Z) (T2 : list Blk) (l1 : list (Z * Z)) (p sp s' : Z) (T2' : list Blk).
Let bp := lo + 16 * tot T1.
  Context (I : uinv h (T1 ++ (s, false) :: T2)) (Hn : nodes T1 = l1 ++ [(p, sp)]) (Hmr : merge_right s T2 = (s', T2')).

Lemma fb_sizes : pos_sizes T1 ∧ pos_sizes T2 ∧ 0 < s ∧ 0 ≤ tot T1 ∧ 0 ≤ tot T2 ∧ tot T1 + s + tot T2 < 2 ^ 32.
Proof.
  pose proof (v_sizes _ _ I) as [HT1 [Hs HT2]%Forall_cons]%Forall_app. pose proof (v_max _ _ I) as Hmax. rewrite tot_app in Hmax. cbn in Hmax, Hs.
  pose proof (tot_pos _ HT1). pose proof (tot_pos _ HT2). split_and!; (done || lia).
Qed.
Lemma fb_node : (p, sp) ∈ nodes T1 ∧ p + 16 ≤ bp ∧ p + 16 * sp ≤ bp ∧ 0 ≤ sp.
Proof.
  assert (Hin : (p, sp) ∈ nodes T1) by (rewrite Hn; apply elem_of_app; right; left). split; [done|]. apply node_before; [apply fb_sizes|done].
Qed.
Lemma fb_seg : seg (u_mem h) base l1 p ∧ u_mem h (p + 8) = sp.
Proof.
  pose proof (v_seg _ _ I) as Hseg. rewrite nodes_around, Hn, <- app_assoc in Hseg. apply seg_app in Hseg as (c & Hseg & -> & Hs & _). done.
Qed.

Lemma freed_intro m T' t :
  only_writes (u_mem h) m [bp; bp + 8; p; p + 8] → pos_sizes T' → coalesced T' → tot T' = tot T1 + s + tot T2 →
  useds lo T' = useds lo T1 ++ useds (bp + 16 * s) T2 → (length T' ≤ length T1 + S (length T2))%nat → (∃ x k, (x, k) ∈ frees lo T' ∧ s ≤ k) →
  seg m base (nodes T') base → (p, t) ∈ nodes T' → freed h T1 s T2 (mkUHeap m p (u_brk h)) T'.
Proof.
  intros Hw HT' Hco Htot Huse Hlen Hblk Hseg Hp. destruct fb_sizes as (HT1 & HT2 & Hs & _ & _ & Hmax).
  assert (Hdata : ∀ a k c, (a, k) ∈ useds lo T' → a ≤ c < a + 16 * k → m c = u_mem h c).
  { intros a k c Ha Hc. apply Hw. rewrite Huse in Ha. eapply used_apart; [done|done|done|apply fb_node|exact Ha|done]. }
  split; try done. split; cbn [u_mem u_freep u_brk]; try done; [|lia|by exists t|].
  - rewrite (v_brk _ _ I), tot_app. cbn. lia.
  - intros a k Ha. destruct (blocks_range _ _ _ _ _ HT' Ha) as (_ & _ & ?). rewrite (Hdata a k) by (done || lia). apply (v_used _ _ I). rewrite blocks_app. cbn. rewrite Huse in Ha.
    fold bp. apply elem_of_app in Ha as [Ha|Ha]; apply elem_of_app; [by left|right; by right].
Qed.

(** Words below the block, and the rest of the ring. *)
Lemma seg_before m : only_writes (u_mem h) m [bp; bp + 8; p; p + 8] → seg m base l1 p.
Proof.
  intros Hw. apply seg_frame with (u_mem h); [|apply fb_seg]. intros x t Hx. destruct fb_node as (_ & Hpb & _). pose proof (nodes_asc T1 (proj1 fb_sizes)) as Hasc.
  destruct fb_sizes as (HT1 & _). destruct (node_before T1 x t HT1) as (Hxb & _ & _); [rewrite Hn; apply elem_of_app; by left|]. fold bp in Hxb.
  assert (x + 16 ≤ p).
  { rewrite Hn in Hasc. apply list_elem_of_split in Hx as (r1 & r2 & ->). rewrite <- app_assoc in Hasc. cbn in Hasc.
    assert (Hpin : (p, sp) ∈ frees lo T1 ∧ (x, t) ∈ nodes T1).
    { split; [|rewrite Hn, <- app_assoc; set_solver]. unfold nodes in Hn. apply (f_equal tail) in Hn. cbn [tail] in Hn. rewrite Hn. destruct r1 as [|n r1]; cbn; set_solver. }
    destruct (asc_suffix _ _ _ _ _ Hasc) as [[_ Ha] _]. assert (x < p) by (apply (asc_in x _ p sp Ha); set_solver). destruct Hpin as [Hpin Hxin].
    pose proof base_lo. pose proof (blocks_range _ _ _ _ _ HT1 Hpin). apply elem_of_cons in Hxin as [[= -> ->]|Hxin]; [lia|].
    pose proof (blocks_range _ _ _ _ _ HT1 Hxin). destruct (blocks_disjoint _ _ _ _ _ _ _ _ HT1 Hpin Hxin) as [(? & _)|?]; lia. }
  split; apply Hw; rewrite !not_elem_of_cons; split_and!; (lia || apply not_elem_of_nil).
Qed.
Lemma seg_after m m' n a T : pos_sizes T → bp + 16 ≤ a → only_writes m m' [p; p + 8] → seg m n (frees a T) base → seg m' n (frees a T) base.
Proof.
  intros HT Ha Hw. apply seg_frame. intros x t Hx. apply (blocks_range _ _ _ _ _ HT) in Hx. destruct fb_node as (_ & ? & _).
  split; apply Hw; rewrite !not_elem_of_cons; split_and!; (lia || apply not_elem_of_nil).
Qed.

(** After [join_right]. *)
Context (h1 : UHeap) (Hbrk : u_brk h1 = u_brk h) (Hw : only_writes (u_mem h) (u_mem h1) [bp; bp + 8]) (Hs' : u_mem h1 (bp + 8) = s').
Context (Hseg : seg (u_mem h1) (u_mem h1 bp) (frees (bp + 16 * s') T2') base).

Lemma fb_mapped : mapped h1 bp = true ∧ mapped h1 (bp + 8) = true ∧ mapped h1 p = true ∧ mapped h1 (p + 8) = true.
Proof.
  destruct fb_sizes as (HT1 & HT2 & Hs & ? & ? & _). assert (Hb : u_brk h1 = lo + 16 * tot (T1 ++ (s, false) :: T2)) by (rewrite Hbrk; apply (v_brk _ _ I)).
  destruct (nodes_mapped h1 _ (v_sizes _ _ I) Hb p sp) as [M1 M2]; [rewrite nodes_around; apply elem_of_app; left; apply fb_node|].
  rewrite tot_app in Hb. cbn [tot] in Hb. split_and!; try done; apply mapped_heap; lia.
Qed.
Lemma fb_size1 : u_mem h1 (p + 8) = sp.
Proof. destruct fb_node as (_ & ? & _). rewrite Hw; [apply fb_seg|]. rewrite !not_elem_of_cons; split_and!; (lia || apply not_elem_of_nil). Qed.
Lemma writes_more m : only_writes (u_mem h1) m [p; p + 8] → only_writes (u_mem h) m [bp; bp + 8; p; p + 8].
Proof. intros Hm c Hc. rewrite Hm by set_solver. apply Hw. set_solver. Qed.

(** The block before is in use: the new block is linked. *)
Lemma left_link :
  p + 16 * sp ≠ bp → (∀ k, coalesced ((k, true) :: T2') → coalesced (T1 ++ (k, true) :: T2')) →
  ∃ h2, join_left bp p h1 = Some (tt, h2) ∧ freed h T1 s T2 (mkUHeap (u_mem h2) p (u_brk h2)) (T1 ++ (s', true) :: T2').
Proof.
  intros Hne Hco1. destruct fb_sizes as (HT1 & HT2 & Hs & ? & ? & Hmax). destruct fb_mapped as (M1 & M2 & M3 & M4). destruct fb_node as (_ & Hpb & _).
  destruct (merge_right_spec s T2 s' T2' bp Hmr HT2) as (Htot & Hss & Huse & HT2' & Hlen & Hco).
  pose proof (v_co _ _ I) as Hc0. apply coalesced_app in Hc0 as [_ Hc2].
  unfold join_left, s_size, s_ptr, set_size, set_ptr, hdr_add. rewrite ld_run by done. rewrite fb_size1, (proj2 (Z.eqb_neq _ _) Hne), st_last by done.
  eexists. split; [done|]. cbn [u_mem u_brk]. rewrite Hbrk.
  assert (Hm : only_writes (u_mem h1) (store_at (u_mem h1) p bp) [p; p + 8]) by (intros c [? _]%not_elem_of_cons; by apply store_ne).
  apply freed_intro with sp.
  - by apply writes_more.
  - apply Forall_app. split; [done|]. constructor; [cbn; lia|done].
  - by apply Hco1, Hco.
  - rewrite tot_app. cbn. lia.
  - rewrite blocks_app. cbn. by rewrite <- Huse.
  - rewrite length_app. cbn. lia.
  - exists bp, s'. split; [|done]. rewrite blocks_app. cbn. apply elem_of_app. right. left.
  - unfold nodes. rewrite blocks_app, app_comm_cons. fold (nodes T1). rewrite Hn, <- app_assoc. apply seg_app. exists p. split; [by apply seg_before, writes_more|].
    cbn. fold bp. rewrite store_eq, !store_ne by lia. split_and!; [done|apply fb_size1|done|done|]. eapply seg_after; [done| |exact Hm|exact Hseg]. lia.
  - unfold nodes. rewrite blocks_app, app_comm_cons. apply elem_of_app. left. apply fb_node.
Qed.

(** The block before is free: it grows. *)
Lemma left_join T1' :
  T1 = T1' ++ [(sp, true)] → p = lo + 16 * tot T1' → l1 = nodes T1' →
  ∃ h2, join_left bp p h1 = Some (tt, h2) ∧ freed h T1 s T2 (mkUHeap (u_mem h2) p (u_brk h2)) (T1' ++ (sp + s', true) :: T2').
Proof.
  intros HT Hp Hl1. destruct fb_sizes as (HT1 & HT2 & Hs & ? & ? & Hmax). destruct fb_mapped as (M1 & M2 & M3 & M4). destruct fb_node as (_ & Hpb & _).
  destruct (merge_right_spec s T2 s' T2' bp Hmr HT2) as (Htot & Hss & Huse & HT2' & Hlen & Hco). pose proof (tot_pos _ HT2').
  assert (Hbp : bp = p + 16 * sp) by (unfold bp; rewrite HT, tot_app; cbn; lia). assert (Ht1 : tot T1 = tot T1' + sp) by (rewrite HT, tot_app; cbn; lia).
  pose proof HT1 as HT1'. rewrite HT in HT1'. apply Forall_app in HT1' as [HT1' [Hsp _]%Forall_cons]. cbn in Hsp. pose proof (tot_pos _ HT1').
  unfold join_left, s_size, s_ptr, set_size, set_ptr, hdr_add. rewrite ld_run by done. rewrite fb_size1, (proj2 (Z.eqb_eq _ _) (eq_sym Hbp)).
  rewrite ld_run by done. rewrite Hs', st_run by done. rewrite ld_run by done. rewrite st_last by done. eexists. split; [done|]. cbn [u_mem u_brk]. rewrite Hbrk.
  rewrite (store_ne _ (p + 8) _ bp) by lia. rewrite u32_small by lia. set (m := store_at _ p _).
  assert (Hm : only_writes (u_mem h1) m [p; p + 8]).
  { intros c [? [? _]%not_elem_of_cons]%not_elem_of_cons. unfold m. by rewrite !store_ne. }
  apply freed_intro with (sp + s').
  - by apply writes_more.
  - apply Forall_app. split; [done|]. constructor; [cbn; lia|done].
  - pose proof (v_co _ _ I) as Hc0. rewrite HT, <- app_assoc in Hc0. apply coalesced_app in Hc0 as [Hc1 Hc2]. apply coalesced_app. split; [by apply (coalesced_size T1' sp)|]. by apply Hco.
  - rewrite tot_app. cbn. lia.
  - rewrite HT, !blocks_app. cbn. rewrite app_nil_r. replace (lo + 16 * tot T1' + 16 * (sp + s')) with (bp + 16 * s') by lia. by rewrite <- Huse.
  - rewrite HT, !length_app. cbn. lia.
  - exists p, (sp + s'). split; [|lia]. rewrite blocks_app, <- Hp. cbn. apply elem_of_app. right. left.
  - unfold nodes. rewrite blocks_app, app_comm_cons, <- Hp. fold (nodes T1'). rewrite <- Hl1. apply seg_app. exists p. split; [by apply seg_before, writes_more|].
    assert (Em : m p = u_mem h1 bp ∧ m (p + 8) = sp + s') by (unfold m; rewrite store_eq, store_ne, store_eq by lia; done).
    cbn. destruct Em as [-> ->]. split_and!; [done|done|].
    replace (p + 16 * (sp + s')) with (bp + 16 * s') by lia. eapply seg_after; [done| |exact Hm|exact Hseg]. lia.
  - unfold nodes. rewrite blocks_app, app_comm_cons, <- Hp. apply elem_of_app. right. left.
Qed.
End free_block.

Lemma frees_le a T : (length (frees a T) ≤ length T)%nat.
Proof. revert a. induction T as [|[s f] T IH]; intros a; cbn; [done|]. rewrite length_app. specialize (IH (a + 16 * s)). destruct (Bool.eqb f true); cbn; lia. Qed.
Lemma nodes_snoc_used T s : nodes (T ++ [(s, false)]) = nodes T.
Proof. unfold nodes. rewrite blocks_app. cbn. by rewrite app_nil_r. Qed.
Lemma nodes_snoc_free T s : nodes (T ++ [(s, true)]) = nodes T ++ [(lo + 16 * tot T, s)].
Proof. unfold nodes. by rewrite blocks_app. Qed.
Lemma coalesced_used T1 u k T2 : coalesced (T1 ++ [(u, false)]) → coalesced ((k, true) :: T2) → coalesced ((T1 ++ [(u, false)]) ++ (k, true) :: T2).
Proof. intros H1 H2. rewrite <- app_assoc. apply coalesced_app. by split. Qed.

(** [free] of a block in use. *)
Lemma free_run h T1 s T2 fuel :
  uinv h (T1 ++ (s, false) :: T2) → (2 * S (length (T1 ++ (s, false) :: T2)) ≤ fuel)%nat →
  ∃ h' T', free fuel (lo + 16 * tot T1 + 16) h = Some (tt, h') ∧ freed h T1 s T2 h' T'.
Proof.
  intros I Hf. set (bp := lo + 16 * tot T1). destruct (fb_sizes h T1 s T2 I) as (HT1 & HT2 & Hs & Ht1 & Ht2 & _). pose proof base_lo as Hlo.
  destruct (exists_last (l := nodes T1)) as (l1 & [p sp] & Hn); [done|]. destruct (fb_node h T1 s T2 l1 p sp I Hn) as (Hpin & Hpb & _ & _).
  destruct (merge_right s T2) as [s' T2'] eqn:Hmr.
  destruct (right_run h T1 s T2 l1 p sp s' T2' I Hn Hmr) as (h1 & Hr & Hfp & Hbrk & Hw & Hs' & Hseg).
  assert (Hfind : free_find fuel bp (u_freep h) h = Some (p, h)).
  { apply (find_run h (T1 ++ (s, false) :: T2) l1 p sp (frees (bp + 16 * s) T2)); [done| |unfold bp; lia| |unfold bp; lia|].
    - rewrite nodes_around, Hn, <- app_assoc. done.
    - apply blocks_asc; [done|lia].
    - unfold nodes. cbn [length]. pose proof (frees_le lo (T1 ++ (s, false) :: T2)). lia. }
  unfold free. replace (bp + 16 - 16) with bp by lia. rewrite (hbind_run get_freep _ h (u_freep h) h) by done. rewrite (hbind_run _ _ _ _ _ Hfind), (hbind_run _ _ _ _ _ Hr).
  assert (Hl : ∃ h2 T', join_left bp p h1 = Some (tt, h2) ∧ freed h T1 s T2 (mkUHeap (u_mem h2) p (u_brk h2)) T').
  { pose proof (v_co _ _ I) as Hco. apply coalesced_app in Hco as [Hco _].
    destruct T1 as [|[u [|]] T1' _] using rev_ind.
    - destruct l1 as [|? l1]; [|by destruct l1]. injection Hn as <- <-. cbn in Hlo. destruct (left_link h [] s T2 [] base 0 s' T2' I eq_refl Hmr h1 Hbrk Hw Hs' Hseg) as (h2 & H1 & H2); [cbn; lia|done|]. by exists h2, ([] ++ (s', true) :: T2').
    - pose proof Hn as Hn'. rewrite nodes_snoc_free in Hn'. apply app_inj_tail in Hn' as [El [= Ep Es]]. subst u.
      destruct (left_join h _ s T2 l1 p sp s' T2' I Hn Hmr h1 Hbrk Hw Hs' Hseg T1' eq_refl (eq_sym Ep) (eq_sym El)) as (h2 & H1 & H2). eauto.
    - destruct (left_link h _ s T2 l1 p sp s' T2' I Hn Hmr h1 Hbrk Hw Hs' Hseg) as (h2 & H1 & H2); [| |eauto].
      + apply Forall_app in HT1 as [HT1 [Hu _]%Forall_cons]. cbn in Hu. rewrite nodes_snoc_used in Hpin. destruct (node_before T1' p sp HT1 Hpin) as (_ & ? & _). rewrite tot_app. cbn. lia.
      + intros k Hk. apply coalesced_used; [|done]. rewrite <- app_assoc in Hco. cbn in Hco. apply coalesced_app in Hco as [Hco _]. done. }
  destruct Hl as (h2 & T' & Hl & Hfr). rewrite (hbind_run _ _ _ _ _ Hl). exists (mkUHeap (u_mem h2) p (u_brk h2)), T'. done.
Qed.

(** *** The search of [malloc] *)

(** The rest of the loop when no block fits. *)
Definition grow (fuel0 fuel : nat) (n : Z) : HM Z :=
  q ← morecore fuel0 n; if q =? 0 then mret 0 else p ← s_ptr q; malloc_loop fuel0 fuel n q p.

Lemma search_run h n fuel0 fuel v pv p f sf e :
  seg (u_mem h) p (v ++ [(f, sf)]) e → hdr_mapped h (v ++ [(f, sf)]) → f = u_freep h → (∀ t, (f, t) ∉ v) → u_mem h pv = p →
  (∃ pv' x sx, (x, sx) ∈ v ++ [(f, sf)] ∧ n ≤ sx ∧ u_mem h pv' = x ∧ (pv' = pv ∨ ∃ t, (pv', t) ∈ v) ∧
     malloc_loop fuel0 (length v + S fuel) n pv p h = take_block n pv' x h) ∨
  ((∀ x sx, (x, sx) ∈ v ++ [(f, sf)] → sx < n) ∧ malloc_loop fuel0 (length v + S fuel) n pv p h = grow fuel0 fuel n h).
Proof.
  intros Hseg Hm Hf. revert pv p Hseg Hm. induction v as [|[y t] v IH]; intros pv p Hseg Hm Hnf Hpv; cbn [length Nat.add malloc_loop app] in *.
  - destruct Hseg as (-> & Hs & _). unfold s_size at 1 2. rewrite ld_run by (apply (Hm f sf); left). rewrite Hs. destruct (n <=? sf) eqn:E.
    + left. exists pv, f, sf. apply Z.leb_le in E. split_and!; [left|done|done|by left|done].
    + right. apply Z.leb_gt in E. split; [intros x sx [= -> ->]%list_elem_of_singleton; done|].
      rewrite (hbind_run get_freep _ h (u_freep h) h) by done. by rewrite <- Hf, Z.eqb_refl.
  - destruct Hseg as (-> & Hs & Hseg). unfold s_size at 1 2. rewrite ld_run by (apply (Hm y t); left). rewrite Hs. destruct (n <=? t) eqn:E.
    + left. exists pv, y, t. apply Z.leb_le in E. split_and!; [left|done|done|by left|done].
    + apply Z.leb_gt in E. assert (y ≠ f) by (intros ->; apply (Hnf t); left).
      assert (Hstep : (f0 ← get_freep; if y =? f0 then grow fuel0 (length v + S fuel) n else n0 ← s_ptr y; malloc_loop fuel0 (length v + S fuel) n y n0) h
                      = malloc_loop fuel0 (length v + S fuel) n y (u_mem h y) h).
      { rewrite (hbind_run get_freep _ h (u_freep h) h) by done. rewrite (proj2 (Z.eqb_neq y (u_freep h))) by congruence. unfold s_ptr. by rewrite ld_run by (apply (Hm y t); left). }
      unfold grow in Hstep at 1. rewrite Hstep.
      destruct (IH y (u_mem h y) Hseg) as [(pv' & x & sx & Hin & Hle & Hx & Hor & Hr)|[Hall Hr]]; [intros z u Hz; apply (Hm z u); by right|intros u Hu; apply (Hnf u); by right|done| |].
      * left. exists pv', x, sx. split_and!; [by right|done|done| |done]. right. destruct Hor as [->|[u Hu]]; [exists t; left|exists u; by right].
      * right. split; [|done]. intros x sx [[= -> ->]|Hin]%elem_of_cons; [done|by apply (Hall x)].
Qed.

Lemma asc_split_unique b A x s B A' s' B' : asc b (A ++ (x, s) :: B) → A ++ (x, s) :: B = A' ++ (x, s') :: B' → A = A'.
Proof.
  revert b A'. induction A as [|[y t] A IH]; intros b [|[y' t'] A'] Hasc E; cbn in *; [done| | |].
  - injection E as <- <- ->. destruct Hasc as [_ Hasc]. assert (x < x); [|lia]. apply (asc_in x _ x s' Hasc). set_solver.
  - injection E as -> -> <-. destruct Hasc as [_ Hasc]. assert (x < x); [|lia]. apply (asc_in x _ x s Hasc). set_solver.
  - injection E as <- <- E. f_equal. eapply IH; [apply Hasc|exact E].
Qed.

Lemma nodes_around_free T1 s T2 : nodes (T1 ++ (s, true) :: T2) = nodes T1 ++ (lo + 16 * tot T1, s) :: frees (lo + 16 * tot T1 + 16 * s) T2.
Proof. unfold nodes. by rewrite blocks_app. Qed.

(** The node before a free block in the ring is the last node before it. *)
Lemma pred_last h T1 sx T2 pv t :
  uinv h (T1 ++ (sx, true) :: T2) → (pv, t) ∈ nodes (T1 ++ (sx, true) :: T2) → u_mem h pv = lo + 16 * tot T1 → ∃ l1, nodes T1 = l1 ++ [(pv, t)].
Proof.
  intros I Hin Hx. pose proof (v_seg _ _ I) as Hseg. pose proof (nodes_asc _ (v_sizes _ _ I)) as Hasc. pose proof base_lo as Hlo.
  pose proof (v_sizes _ _ I) as [HT1 _]%Forall_app. pose proof (tot_pos _ HT1).
  apply list_elem_of_split in Hin as (r1 & r2 & E). rewrite E in Hseg. apply seg_app in Hseg as (c & _ & -> & _ & Hseg). rewrite Hx in Hseg.
  destruct r2 as [|[x' t'] r2]; [cbn in Hseg; lia|]. destruct Hseg as [<- _].
  exists r1. rewrite nodes_around_free in E, Hasc. eapply (asc_split_unique (base - 1) _ _ _ _ _ t' r2); [exact Hasc|]. rewrite E. by rewrite <- app_assoc.
Qed.

(** *** Taking a block *)

Record allocated (h : UHeap) (T : list Blk) (h' : UHeap) (T' : list Blk) (a n : Z) : Prop := {
  al_inv : uinv h' T';
  al_used : useds lo T' ≡ₚ (a, n) :: useds lo T;
  al_len : (length T' ≤ S (length T))%nat;
  al_data : ∀ b k c, (b, k) ∈ useds lo T → b ≤ c < b + 16 * k → u_mem h' c = u_mem h c
}.

Lemma node_used_apart T p t a k c : pos_sizes T → (p, t) ∈ nodes T → (a, k) ∈ useds lo T → a ≤ c < a + 16 * k → c ≠ p ∧ c ≠ p + 8.
Proof.
  intros HT Hp Ha Hc. pose proof base_lo. pose proof (blocks_range _ _ _ _ _ HT Ha) as (? & _ & _). apply elem_of_cons in Hp as [[= -> ->]|Hp]; [lia|].
  pose proof (blocks_range _ _ _ _ _ HT Hp). destruct (blocks_disjoint _ _ _ _ _ _ _ _ HT Ha Hp) as [(_ & _ & ?)|?]; [done|lia].
Qed.
Lemma coalesced_clear T1 s s' T2 : coalesced (T1 ++ (s, true) :: T2) → coalesced (T1 ++ (s', false) :: T2).
Proof.
  rewrite !(coalesced_app T1 _ T2). intros [H1 H2]. split; [|by destruct T2 as [|[? []] ?]; cbn in *].
  clear H2. induction T1 as [|[k [|]] T1 IH]; [done| |]; destruct T1 as [|[k' [|]] T1]; cbn in *; naive_solver.
Qed.
Lemma node_apart T x s y t : pos_sizes T → (x, s) ∈ nodes T → (y, t) ∈ nodes T → x ≠ y → x + 16 ≤ y ∨ y + 16 ≤ x.
Proof.
  intros HT Hx Hy Hne. pose proof base_lo. apply elem_of_cons in Hx as [[= -> ->]|Hx]; apply elem_of_cons in Hy as [[= -> ->]|Hy]; [done| | |].
  - apply (blocks_range _ _ _ _ _ HT) in Hy. lia.
  - apply (blocks_range _ _ _ _ _ HT) in Hx. lia.
  - pose proof (blocks_range _ _ _ _ _ HT Hx). pose proof (blocks_range _ _ _ _ _ HT Hy). destruct (blocks_disjoint _ _ _ _ _ _ _ _ HT Hx Hy) as [(? & _)|?]; [done|lia].
Qed.

Section taking.
  Context (h : UHeap) (T1 : list Blk) (sx : Z) (T2 : list Blk) (l1 : list (Z * Z)) (pv spv n : Z).
Let x := lo + 16 * tot T1.
Let T := T1 ++ (sx, true) :: T2.
  Context (I : uinv h T) (Hn : nodes T1 = l1 ++ [(pv, spv)]) (Hfit : 0 < n ≤ sx).

Lemma tb_sizes : pos_sizes T1 ∧ pos_sizes T2 ∧ 0 ≤ tot T1 ∧ 0 ≤ tot T2 ∧ tot T1 + sx + tot T2 < 2 ^ 32 ∧ u_brk h = lo + 16 * (tot T1 + sx + tot T2).
Proof.
  pose proof (v_sizes _ _ I) as [HT1 [Hs HT2]%Forall_cons]%Forall_app. pose proof (v_max _ _ I) as Hmax. pose proof (v_brk _ _ I) as Hb. unfold T in Hmax, Hb. rewrite tot_app in Hmax, Hb.
  cbn in Hmax, Hb. pose proof (tot_pos _ HT1). pose proof (tot_pos _ HT2). split_and!; (done || lia).
Qed.
Lemma tb_seg : seg (u_mem h) base l1 pv ∧ u_mem h (pv + 8) = spv ∧ u_mem h pv = x ∧ u_mem h (x + 8) = sx ∧ seg (u_mem h) (u_mem h x) (frees (x + 16 * sx) T2) base.
Proof.
  pose proof (v_seg _ _ I) as Hseg. unfold T in Hseg. rewrite nodes_around_free, Hn, <- app_assoc in Hseg. apply seg_app in Hseg as (c & Hseg & -> & Hs & Hx & Hsx & Hr). fold x in Hx, Hsx, Hr. by rewrite Hx.
Qed.
Lemma tb_nodes : (pv, spv) ∈ nodes T ∧ (x, sx) ∈ nodes T ∧ pv + 16 ≤ x.
Proof.
  assert (Hin : (pv, spv) ∈ nodes T1) by (rewrite Hn; apply elem_of_app; right; left). unfold T. rewrite nodes_around_free. split_and!.
  - apply elem_of_app. by left.
  - apply elem_of_app. right. left.
  - apply (node_before T1 pv spv); [apply tb_sizes|done].
Qed.
Lemma tb_mapped : mapped h pv = true ∧ mapped h (pv + 8) = true ∧ mapped h x = true ∧ mapped h (x + 8) = true.
Proof.
  destruct tb_nodes as (N1 & N2 & _). destruct (nodes_mapped h T (v_sizes _ _ I) (v_brk _ _ I) _ _ N1). destruct (nodes_mapped h T (v_sizes _ _ I) (v_brk _ _ I) _ _ N2). done.
Qed.

(** The whole block. *)
Lemma take_whole : n = sx → ∃ h', take_block n pv x h = Some (x + 16, h') ∧ allocated h T h' (T1 ++ (sx, false) :: T2) x n.
Proof.
  intros ->. destruct tb_sizes as (HT1 & HT2 & ? & ? & Hmax & Hbrk). destruct tb_seg as (S1 & S2 & S3 & S4 & S5). destruct tb_nodes as (N1 & N2 & Hpx). destruct tb_mapped as (M1 & M2 & M3 & M4).
  unfold take_block, s_size, s_ptr, set_ptr. rewrite ld_run by done. rewrite S4, Z.eqb_refl. unfold mbind at 1. unfold HM_bind at 1.
  rewrite ld_run, st_run by done. eexists. split; [done|]. set (m := store_at (u_mem h) pv (u_mem h x)).
  assert (Hm : ∀ c, c ≠ pv → m c = u_mem h c) by (intros c Hc; by apply store_ne).
  assert (Hdata : ∀ b k c, (b, k) ∈ useds lo T → b ≤ c < b + 16 * k → m c = u_mem h c).
  { intros b k c Hb Hc. apply Hm. by apply (node_used_apart T pv spv b k c (v_sizes _ _ I)). }
  assert (Hus : useds lo (T1 ++ (sx, false) :: T2) = useds lo T1 ++ (x, sx) :: useds (x + 16 * sx) T2) by (by rewrite blocks_app).
  assert (Hus0 : useds lo T = useds lo T1 ++ useds (x + 16 * sx) T2) by (unfold T; by rewrite blocks_app).
  split; [|rewrite Hus, Hus0; solve_Permutation|unfold T; rewrite !length_app; cbn; lia|exact Hdata]. split; cbn [u_mem u_freep u_brk].
  - apply Forall_app. split; [done|]. constructor; [cbn; lia|done].
  - by apply (coalesced_clear T1 sx), (v_co _ _ I).
  - rewrite tot_app. cbn. lia.
  - rewrite tot_app. cbn. lia.
  - rewrite nodes_around, Hn, <- app_assoc. apply seg_app. exists pv. split; [|cbn; split_and!; [done|rewrite Hm by lia; done|]].
    + apply seg_frame with (u_mem h); [|done]. intros y t Hy. assert (Hy' : (y, t) ∈ nodes T1) by (rewrite Hn; apply elem_of_app; by left).
      assert (y ≠ pv). { pose proof (nodes_asc T1 HT1) as Ha. rewrite Hn in Ha. apply list_elem_of_split in Hy as (r1 & r2 & ->). rewrite <- app_assoc in Ha. apply asc_suffix in Ha as [[_ Ha] _].
        assert (y < pv); [|lia]. apply (asc_in y _ pv spv Ha). set_solver. }
      assert (y + 16 ≤ pv ∨ pv + 16 ≤ y). { apply (node_apart T1 y t pv spv); [done|done| |done]. rewrite Hn. apply elem_of_app. right. left. }
      split; apply Hm; lia.
    + unfold m at 2. rewrite store_eq. fold x. apply seg_frame with (u_mem h); [|done]. intros y t Hy. apply (blocks_range _ _ _ _ _ HT2) in Hy. split; apply Hm; lia.
  - exists spv. rewrite nodes_around, Hn. apply elem_of_app. left. apply elem_of_app. right. left.
  - intros a k. rewrite Hus. intros Ha. assert (a = x ∧ k = sx ∨ (a, k) ∈ useds lo T) as [[-> ->]|Ha'] by (rewrite Hus0; set_solver); [rewrite Hm by lia; done|].
    destruct (blocks_range _ _ _ _ _ (v_sizes _ _ I) Ha') as (_ & _ & ?). rewrite (Hdata a k) by (done || lia). by apply (v_used _ _ I).
Qed.

(** Its tail. *)
Lemma take_tail : n < sx → ∃ h', take_block n pv x h = Some (x + 16 * (sx - n) + 16, h') ∧ allocated h T h' (T1 ++ (sx - n, true) :: (n, false) :: T2) (x + 16 * (sx - n)) n.
Proof.
  intros Hlt. destruct tb_sizes as (HT1 & HT2 & ? & ? & Hmax & Hbrk). destruct tb_seg as (S1 & S2 & S3 & S4 & S5). destruct tb_nodes as (N1 & N2 & Hpx). destruct tb_mapped as (M1 & M2 & M3 & M4).
  unfold take_block, s_size, s_ptr, set_size, hdr_add. rewrite ld_run by done. rewrite S4, (proj2 (Z.eqb_neq sx n)) by lia. unfold mbind at 1. unfold HM_bind at 1.
  rewrite (u32_small (sx - n)), (u32_small n) by lia. rewrite st_run by done. rewrite ld_run by done. cbn [u_mem]. rewrite store_eq. set (y := x + 16 * (sx - n)).
  rewrite st_run by (apply mapped_heap; cbn; lia). cbn [u_mem u_freep u_brk]. eexists. split; [done|]. set (m := store_at _ (y + 8) n).
  assert (Hm : ∀ c, c ≠ x + 8 → c ≠ y + 8 → m c = u_mem h c) by (intros c ? ?; unfold m; by rewrite !store_ne).
  assert (Hdata : ∀ b k c, (b, k) ∈ useds lo T → b ≤ c < b + 16 * k → m c = u_mem h c).
  { intros b k c Hb Hc. assert (Hx : (x, sx) ∈ frees lo T) by (unfold T; rewrite blocks_app; apply elem_of_app; right; left).
    destruct (blocks_disjoint _ _ _ _ _ _ _ _ (v_sizes _ _ I) Hb Hx) as [(_ & _ & ?)|?]; [done|]. apply Hm; lia. }
  assert (Hus : useds lo (T1 ++ (sx - n, true) :: (n, false) :: T2) = useds lo T1 ++ (y, n) :: useds (x + 16 * sx) T2).
  { rewrite blocks_app. cbn. do 2 f_equal. f_equal. unfold x. lia. }
  assert (Hus0 : useds lo T = useds lo T1 ++ useds (x + 16 * sx) T2) by (unfold T; by rewrite blocks_app).
  assert (Hno : nodes (T1 ++ (sx - n, true) :: (n, false) :: T2) = (l1 ++ [(pv, spv)]) ++ (x, sx - n) :: frees (x + 16 * sx) T2).
  { rewrite nodes_around_free, Hn. cbn. do 3 f_equal. unfold x. lia. }
  split; [|rewrite Hus, Hus0; solve_Permutation|unfold T; rewrite !length_app; cbn; lia|exact Hdata]. split; cbn [u_mem u_freep u_brk].
  - apply Forall_app. split; [done|]. repeat constructor; cbn; (lia || done).
  - pose proof (v_co _ _ I) as Hco. apply coalesced_app in Hco as [Hc1 Hc2]. apply coalesced_app. split; [by apply (coalesced_size T1 sx)|]. cbn. by destruct T2 as [|[? []] ?].
  - rewrite tot_app. cbn. lia.
  - rewrite tot_app. cbn. lia.
  - rewrite Hno. assert (Em : m (x + 8) = sx - n) by (unfold m; rewrite store_ne, store_eq by lia; done).
    apply seg_app. exists x. split; [|cbn; rewrite Em, Hm by lia; split_and!; [done|done|]].
    + apply seg_frame with (u_mem h); [|apply seg_app; exists pv; done]. intros z t Hz. rewrite <- Hn in Hz. destruct (node_before T1 z t HT1 Hz) as (? & _). split; apply Hm; lia.
    + apply seg_frame with (u_mem h); [|done]. intros z t Hz. apply (blocks_range _ _ _ _ _ HT2) in Hz. split; apply Hm; lia.
  - exists spv. rewrite Hno. apply elem_of_app. left. apply elem_of_app. right. left.
  - intros a k. rewrite Hus. intros Ha. assert (a = y ∧ k = n ∨ (a, k) ∈ useds lo T) as [[-> ->]|Ha'] by (rewrite Hus0; set_solver); [unfold m; by rewrite store_eq|].
    destruct (blocks_range _ _ _ _ _ (v_sizes _ _ I) Ha') as (_ & _ & ?). rewrite (Hdata a k) by (done || lia). by apply (v_used _ _ I).
Qed.
Lemma take_run : ∃ h' T' a, take_block n pv x h = Some (a + 16, h') ∧ allocated h T h' T' a n.
Proof. destruct (decide (n = sx)) as [E|Hne]; [destruct (take_whole E) as (h' & ? & ?); eauto|]. destruct take_tail as (h' & ? & ?); [lia|eauto]. Qed.
End taking.

(** *** [morecore] *)

Definition request (n : Z) : Z := 16 * (if n <? 4096 then 4096 else n).

Lemma morecore_run h T fuel n :
  uinv h T → 0 < n < 2 ^ 27 → (2 * S (S (length T)) ≤ fuel)%nat →
  (sbrk_ok (u_brk h) (request n) = false ∧ morecore fuel n h = Some (0, h)) ∨
  (∃ h' T', morecore fuel n h = Some (u_freep h', h') ∧ u_freep h' ≠ 0 ∧ uinv h' T' ∧ useds lo T' = useds lo T ∧ (length T' ≤ S (length T))%nat ∧
     (∃ x k, (x, k) ∈ frees lo T' ∧ n ≤ k) ∧ ∀ a k c, (a, k) ∈ useds lo T → a ≤ c < a + 16 * k → u_mem h' c = u_mem h c).
Proof.
  intros I Hnn Hf. unfold morecore, request. set (nu := if n <? 4096 then 4096 else n).
  assert (Hnu : n ≤ nu ∧ 0 < nu < 2 ^ 27) by (unfold nu; destruct (n <? 4096) eqn:E; [apply Z.ltb_lt in E|]; lia).
  assert (Hs32 : s32 (nu * 16) = 16 * nu) by (unfold s32; rewrite u32_small by lia; rewrite (proj2 (Z.ltb_lt _ _)) by lia; lia). rewrite Hs32.
  destruct (sbrk_ok (u_brk h) (16 * nu)) eqn:Eok; [|left; split; [done|]; unfold sbrk, mbind, HM_bind; by rewrite Eok].
  right. pose proof (sbrk_limit _ _ Eok) as Hlim. pose proof (v_brk _ _ I) as Hbrk. pose proof (tot_pos _ (v_sizes _ _ I)).
  rewrite (hbind_run (sbrk (16 * nu)) _ h (Some (u_brk h)) (mkUHeap (u_mem h) (u_freep h) (u_brk h + 16 * nu))) by (unfold sbrk; by rewrite Eok).
  unfold set_size. rewrite st_run by (apply mapped_heap; cbn; lia). cbn [u_mem u_freep u_brk]. rewrite u32_small by lia.
  set (h1 := mkUHeap _ _ _). assert (Hm : ∀ c, c ≠ u_brk h + 8 → u_mem h1 c = u_mem h c) by (intros c Hc; by apply store_ne).
  assert (I1 : uinv h1 (T ++ [(nu, false)])).
  { split; unfold h1; cbn [u_mem u_freep u_brk].
    - apply Forall_app. split; [apply I|]. repeat constructor. cbn. lia.
    - pose proof (v_co _ _ I) as Hco. clear -Hco. induction T as [|[k [|]] T IH]; [done| |]; destruct T as [|[k' [|]] T]; cbn in *; naive_solver.
    - rewrite tot_app. cbn. lia.
    - rewrite tot_app. cbn. lia.
    - rewrite nodes_snoc_used. apply seg_frame with (u_mem h); [|apply I]. intros x s Hx. destruct (node_before T x s (v_sizes _ _ I) Hx) as (? & _). split; apply Hm; lia.
    - rewrite nodes_snoc_used. apply I.
    - intros a k. rewrite blocks_app. intros [Ha|Ha]%elem_of_app.
      + pose proof (blocks_range _ _ _ _ _ (v_sizes _ _ I) Ha). rewrite store_ne by lia. by apply (v_used _ _ I).
      + cbn in Ha. apply list_elem_of_singleton in Ha as [= -> ->]. rewrite Hbrk. apply store_eq. }
  destruct (free_run h1 T nu [] fuel I1) as (h' & T' & Hfree & F); [rewrite length_app; cbn; lia|]. rewrite <- Hbrk in Hfree. rewrite (hbind_run _ _ _ _ _ Hfree).
  destruct F as [FI Fu Fb Fl (x & k & Hx & Hk) Fd]. cbn in Fu. rewrite app_nil_r in Fu. exists h', T'. split_and!.
  - done.
  - destruct (v_freep _ _ FI) as [t Ht]. pose proof base_pos. pose proof base_lo. apply elem_of_cons in Ht as [[= -> _]|Ht]; [lia|]. apply (blocks_range _ _ _ _ _ (v_sizes _ _ FI)) in Ht. lia.
  - done.
  - done.
  - cbn in Fl. lia.
  - exists x, k. split; [done|lia].
  - intros a k' c Ha Hc. rewrite <- Fu in Ha. rewrite (Fd a k') by done. apply Hm. rewrite Fu in Ha. apply (blocks_range _ _ _ _ _ (v_sizes _ _ I)) in Ha. lia.
Qed.

(** *** [malloc] *)

Lemma pass_run h T fuel0 fuel n :
  uinv h T → 0 < n → (S (length T) ≤ fuel)%nat →
  (∃ h' T' a, malloc_loop fuel0 fuel n (u_freep h) (u_mem h (u_freep h)) h = Some (a + 16, h') ∧ allocated h T h' T' a n) ∨
  ((∀ x k, (x, k) ∈ frees lo T → k < n) ∧
   ∃ fuel', (fuel ≤ fuel' + S (length T))%nat ∧ malloc_loop fuel0 fuel n (u_freep h) (u_mem h (u_freep h)) h = grow fuel0 fuel' n h).
Proof.
  intros I Hn0 Hf. pose proof (v_sizes _ _ I) as HT. pose proof (nodes_mapped h T HT (v_brk _ _ I)) as Hm. pose proof (nodes_asc T HT) as Hasc. pose proof (v_seg _ _ I) as Hseg.
  destruct (v_freep _ _ I) as [sf Hin]. set (f := u_freep h) in *. apply list_elem_of_split in Hin as (k1 & k2 & E).
  assert (Hin : ∀ y, y ∈ (k2 ++ k1) ++ [(f, sf)] → y ∈ nodes T) by (intros y; rewrite E; set_solver).
  assert (Hlen : (S (length (k2 ++ k1)) ≤ S (length T))%nat).
  { apply (f_equal length) in E. unfold nodes in E. cbn [length] in E. pose proof (frees_le lo T). rewrite length_app in E |- *. cbn [length] in E. lia. }
  rewrite E in Hseg, Hasc. apply seg_app in Hseg as (c & Hs1 & -> & Hs2 & Hs3).
  replace fuel with (length (k2 ++ k1) + S (fuel - S (length (k2 ++ k1))))%nat by lia.
  destruct (search_run h n fuel0 (fuel - S (length (k2 ++ k1))) (k2 ++ k1) f (u_mem h f) f sf (u_mem h f)) as [(pv & x & sx & Hx & Hle & Hpx & Hpv & ->)|[Hall ->]].
  - rewrite <- app_assoc. apply seg_app. exists base. split; [done|]. apply seg_app. exists f. split; [done|]. cbn. done.
  - intros y t Hy. apply (Hm y t), Hin, Hy.
  - done.
  - intros t [Ht|Ht]%elem_of_app.
    + apply asc_suffix in Hasc as [[_ Ha] _]. assert (f < f); [|lia]. by apply (asc_in f _ f t Ha).
    + apply list_elem_of_split in Ht as (r1 & r2 & ->). rewrite <- app_assoc in Hasc. apply asc_suffix in Hasc as [[_ Ha] _]. assert (f < f); [|lia]. apply (asc_in f _ f sf Ha). set_solver.
  - done.
  - left. assert (Hpin : ∃ t, (pv, t) ∈ nodes T). { destruct Hpv as [->|[t Ht]]; [exists sf|exists t]; apply Hin; set_solver. } destruct Hpin as [t Hpin].
    apply Hin in Hx. apply elem_of_cons in Hx as [[= -> ->]|Hx]; [lia|]. destruct (blocks_split _ _ _ _ _ Hx) as (T1 & T2 & -> & ->).
    destruct (pred_last h T1 sx T2 pv t I Hpin Hpx) as [l1 Hl1]. apply (take_run h T1 sx T2 l1 pv t n I Hl1). lia.
  - right. split; [|exists (fuel - S (length (k2 ++ k1)))%nat; split; [lia|done]]. intros x k Hx. apply (Hall x k).
    assert (Hx' : (x, k) ∈ nodes T) by (by right). rewrite E in Hx'. set_solver.
Qed.

(** The heap before the first call, or after it. *)
Definition heap_ok (h : UHeap) (T : list Blk) : Prop := uinv h T ∨ (T = [] ∧ u_freep h = 0 ∧ u_brk h = lo).

Definition same_used (h h' : UHeap) (T : list Blk) : Prop := ∀ a k c, (a, k) ∈ useds lo T → a ≤ c < a + 16 * k → u_mem h' c = u_mem h c.

Lemma loop_run h T fuel n :
  uinv h T → 0 < n < 2 ^ 27 → (2 * length T + 4 ≤ fuel)%nat →
  (sbrk_ok (u_brk h) (request n) = false ∧ (∀ x k, (x, k) ∈ frees lo T → k < n) ∧ malloc_loop fuel fuel n (u_freep h) (u_mem h (u_freep h)) h = Some (0, h)) ∨
  (∃ h' T' a, malloc_loop fuel fuel n (u_freep h) (u_mem h (u_freep h)) h = Some (a + 16, h') ∧ uinv h' T' ∧ useds lo T' ≡ₚ (a, n) :: useds lo T ∧
     (length T' ≤ 2 + length T)%nat ∧ same_used h h' T).
Proof.
  intros I Hn Hf. destruct (pass_run h T fuel fuel n I) as [(h' & T' & a & Hr & [A1 A2 A3 A4])|[Hall (fuel' & Hfu & Hr)]]; [lia|lia| |].
  { right. exists h', T', a. split_and!; [done|done|done|lia|done]. }
  rewrite Hr. unfold grow. destruct (morecore_run h T fuel n I Hn) as [[Eok Hm]|(h1 & T1 & Hm & Hf0 & I1 & Hu & Hl & (x & k & Hx & Hk) & Hd)]; [lia| |].
  - left. split_and!; [done|done|]. by rewrite (hbind_run _ _ _ _ _ Hm).
  - right. rewrite (hbind_run _ _ _ _ _ Hm), (proj2 (Z.eqb_neq _ _) Hf0). unfold s_ptr. destruct (v_freep _ _ I1) as [t Ht].
    rewrite ld_run by (apply (nodes_mapped h1 T1 (v_sizes _ _ I1) (v_brk _ _ I1) _ _ Ht)).
    destruct (pass_run h1 T1 fuel fuel' n I1) as [(h' & T' & a & Hr' & [A1 A2 A3 A4])|[Hall' _]]; [lia|lia| |specialize (Hall' x k Hx); lia].
    exists h', T', a. split_and!; [done|done|by rewrite <- Hu|lia|]. intros b s c Hb Hc. rewrite (A4 b s) by (by rewrite Hu || done). by apply (Hd b s).
Qed.

Lemma malloc_run h T fuel nbytes :
  heap_ok h T → 0 ≤ nbytes < 2 ^ 30 → (2 * length T + 4 ≤ fuel)%nat →
  let n := (nbytes + 15) / 16 + 1 in
  (∃ h', malloc fuel nbytes h = Some (0, h') ∧ uinv h' T ∧ same_used h h' T ∧ sbrk_ok (u_brk h) (request n) = false ∧ (∀ x k, (x, k) ∈ frees lo T → k < n)) ∨
  (∃ h' T' a, malloc fuel nbytes h = Some (a + 16, h') ∧ uinv h' T' ∧ useds lo T' ≡ₚ (a, n) :: useds lo T ∧ (length T' ≤ 2 + length T)%nat ∧ same_used h h' T).
Proof.
  intros Hok Hnb Hf n. assert (Hn : 0 < n < 2 ^ 27).
  { unfold n. assert (0 ≤ (nbytes + 15) / 16) by (apply Z.div_pos; lia). assert ((nbytes + 15) / 16 < 2 ^ 27 - 1) by (apply Z.div_lt_upper_bound; lia). lia. }
  assert (En : nunits_of nbytes = n) by (unfold nunits_of; fold n; apply u32_small; lia). unfold malloc. rewrite En. rewrite (hbind_run get_freep _ h (u_freep h) h) by done.
  destruct Hok as [I|(-> & Hf0 & Hbrk)].
  - assert (Hf0 : u_freep h ≠ 0).
    { destruct (v_freep _ _ I) as [t Ht]. pose proof base_pos. pose proof base_lo. apply elem_of_cons in Ht as [[= -> _]|Ht]; [lia|]. apply (blocks_range _ _ _ _ _ (v_sizes _ _ I)) in Ht. lia. }
    rewrite (proj2 (Z.eqb_neq _ _) Hf0). rewrite (hbind_run (mret (u_freep h)) _ h (u_freep h) h) by done. unfold s_ptr. destruct (v_freep _ _ I) as [t Ht].
    rewrite ld_run by (apply (nodes_mapped h T (v_sizes _ _ I) (v_brk _ _ I) _ _ Ht)). destruct (loop_run h T fuel n I Hn Hf) as [(E & Hall & Hr)|Hr]; [|by right].
    left. exists h. split_and!; [done|done|done|done|done].
  - rewrite Hf0. cbn [Z.eqb]. set (h0 := mkUHeap (store_at (store_at (u_mem h) base base) (base + 8) 0) base (u_brk h)). pose proof (mapped_base h0) as [M1 M2].
    erewrite (hbind_run _ _ h base h0).
    2:{ rewrite (hbind_run (set_freep base) _ h tt (mkUHeap (u_mem h) base (u_brk h))) by done. unfold set_ptr, set_size. rewrite st_run by done. by rewrite st_run. }
    assert (I0 : uinv h0 []).
    { split; [constructor|done|cbn; lia|done| |exists 0; left|intros a k Ha; by apply not_elem_of_nil in Ha].
      cbn. rewrite store_eq, store_ne, store_eq by lia. done. }
    unfold s_ptr. rewrite ld_run by done.
    destruct (loop_run h0 [] fuel n I0 Hn Hf) as [(E & Hall & Hr)|(h' & T' & a & Hr & I' & Hu & Hl & _)].
    + left. exists h0. split_and!; [exact Hr|done| |exact E|exact Hall]. intros a k c Ha. by apply not_elem_of_nil in Ha.
    + right. exists h', T', a. split_and!; [exact Hr|done|done|done|]. intros b k c Hb. by apply not_elem_of_nil in Hb.
Qed.

(** ** Clients *)

Definition units (nbytes : Z) : Z := (nbytes + 15) / 16 + 1.
Lemma units_enough nb : 0 ≤ nb → nb ≤ 16 * (units nb - 1) ∧ 0 < units nb.
Proof. intros Hn. unfold units. pose proof (Z.div_mod (nb + 15) 16 ltac:(lia)). pose proof (Z.mod_pos_bound (nb + 15) 16 ltac:(lia)). lia. Qed.

(** A program with the pointers it holds, with the size it asked for, and the
    words it has stored behind them. *)
Record Client := mkClient { c_heap : UHeap; c_live : gmap Z Z; c_words : gmap Z Z }.

Definition inside (ap nb c : Z) : Prop := ap ≤ c < ap + nb.

Inductive cstep (fuel : nat) (x : Client) : Client → Prop :=
  | c_malloc nb r h' :
      0 ≤ nb < 2 ^ 30 → malloc fuel nb (c_heap x) = Some (r, h') →
      cstep fuel x (mkClient h' (if r =? 0 then c_live x else <[r := nb]> (c_live x)) (c_words x))
  | c_free ap nb h' :
      c_live x !! ap = Some nb → free fuel ap (c_heap x) = Some (tt, h') →
      cstep fuel x (mkClient h' (delete ap (c_live x)) (filter (λ w, ¬ inside ap nb w.1) (c_words x)))
  | c_store ap nb a v :
      c_live x !! ap = Some nb → inside ap nb a → inside ap nb (a + 7) → (a - ap) mod 8 = 0 →
      cstep fuel x (mkClient (mkUHeap (store_at (u_mem (c_heap x)) a v) (u_freep (c_heap x)) (u_brk (c_heap x))) (c_live x) (<[a := v]> (c_words x))).

Definition client0 (m : Z → Z) : Client := mkClient (mkUHeap m 0 lo) ∅ ∅.

Record cinv (x : Client) (T : list Blk) : Prop := {
  ci_heap : heap_ok (c_heap x) T;
  ci_sizes : pos_sizes T;
  ci_live : ∀ ap nb, c_live x !! ap = Some nb → 0 ≤ nb ∧ (ap - 16, units nb) ∈ useds lo T;
  ci_used : ∀ a s, (a, s) ∈ useds lo T → ∃ nb, c_live x !! (a + 16) = Some nb ∧ s = units nb;
  ci_words : ∀ c v, c_words x !! c = Some v → u_mem (c_heap x) c = v ∧ ∃ ap nb, c_live x !! ap = Some nb ∧ inside ap nb c
}.

Lemma inside_block x T ap nb c : cinv x T → c_live x !! ap = Some nb → inside ap nb c → (ap - 16, units nb) ∈ useds lo T ∧ ap ≤ c < ap - 16 + 16 * units nb.
Proof. intros C Hl Hc. destruct (ci_live _ _ C _ _ Hl) as [Hn Hin]. split; [done|]. destruct (units_enough nb Hn). unfold inside in Hc. lia. Qed.

(** Two pointers the program holds do not overlap. *)
Lemma live_apart x T p n q k : cinv x T → c_live x !! p = Some n → c_live x !! q = Some k → p ≠ q → p - 16 + 16 * units n ≤ q - 16 ∨ q - 16 + 16 * units k ≤ p - 16.
Proof.
  intros C Hp Hq Hne. destruct (ci_live _ _ C _ _ Hp) as [_ H1]. destruct (ci_live _ _ C _ _ Hq) as [_ H2].
  destruct (blocks_disjoint _ _ _ _ _ _ _ _ (ci_sizes _ _ C) H1 H2) as [(? & _)|?]; [lia|done].
Qed.

Lemma useds_nodup T : pos_sizes T → NoDup (useds lo T).*1.
Proof.
  intros HT. assert (Ha : asc (lo - 1) (useds lo T)) by (apply blocks_asc; [done|lia]). revert Ha. generalize (lo - 1). induction (useds lo T) as [|[y s] l IH]; intros b Hb; [constructor|].
  cbn in *. destruct Hb as [_ Hb]. constructor; [|by eapply IH]. intros ([z t] & Ez & Hz)%list_elem_of_fmap. pose proof (asc_in _ _ _ _ Hb Hz). cbn in *. lia.
Qed.

Lemma cinv_malloc x T fuel nb r h' :
  cinv x T → 0 ≤ nb < 2 ^ 30 → (2 * length T + 4 ≤ fuel)%nat → malloc fuel nb (c_heap x) = Some (r, h') →
  ∃ T', cinv (mkClient h' (if r =? 0 then c_live x else <[r := nb]> (c_live x)) (c_words x)) T' ∧ (length T' ≤ 2 + length T)%nat.
Proof.
  intros C Hnb Hf Hr. pose proof (ci_heap _ _ C) as Hok.
  destruct (malloc_run (c_heap x) T fuel nb Hok Hnb Hf) as [(h1 & Hr1 & I & Hs & _)|(h1 & T' & a & Hr1 & I & Hu & Hl & Hs)]; rewrite Hr in Hr1; injection Hr1 as -> ->.
  - exists T. split; [|lia]. cbn [Z.eqb]. split; cbn; [by left|apply C|apply C|apply C|]. intros c v Hc. destruct (ci_words _ _ C c v Hc) as (Hv & ap & n & Hap & Hin).
    split; [|eauto]. destruct (inside_block _ _ _ _ _ C Hap Hin) as [Hb ?]. by rewrite (Hs _ _ c Hb) by lia.
  - fold (units nb) in Hu. assert (Hin : (a, units nb) ∈ useds lo T') by (rewrite Hu; left). pose proof (blocks_range _ _ _ _ _ (v_sizes _ _ I) Hin). pose proof base_pos. pose proof base_lo.
    rewrite (proj2 (Z.eqb_neq (a + 16) 0)) by lia.
    assert (Hnew : c_live x !! (a + 16) = None).
    { destruct (c_live x !! (a + 16)) as [n|] eqn:E; [|done]. destruct (ci_live _ _ C _ _ E) as [_ Hin']. replace (a + 16 - 16) with a in Hin' by lia.
      pose proof (useds_nodup _ (v_sizes _ _ I)) as Hnd. apply Permutation_sym in Hu.
      rewrite <- Hu in Hnd. cbn in Hnd. apply NoDup_cons in Hnd as [Hnd _]. destruct Hnd. apply list_elem_of_fmap. by exists (a, units n). }
    exists T'. split; [|lia]. split; cbn; [by left|apply I| | |].
    + intros ap n [[<- <-]|[_ Hap]]%lookup_insert_Some; [split; [lia|]; by replace (a + 16 - 16) with a by lia|]. destruct (ci_live _ _ C _ _ Hap). split; [done|]. rewrite Hu. by right.
    + intros b s. rewrite Hu. intros [[= -> ->]|Hb]%elem_of_cons; [exists nb; by rewrite lookup_insert_eq|]. destruct (ci_used _ _ C b s Hb) as (n & Hn & ->). exists n. split; [|done].
      rewrite lookup_insert_ne; [done|]. intros E. rewrite E in Hnew. congruence.
    + intros c v Hc. destruct (ci_words _ _ C c v Hc) as (Hv & ap & n & Hap & Hi). destruct (inside_block _ _ _ _ _ C Hap Hi) as [Hb ?]. split; [by rewrite (Hs _ _ c Hb) by lia|].
      exists ap, n. split; [|done]. rewrite lookup_insert_ne; [done|]. intros <-. congruence.
Qed.

Lemma live_block x T ap nb : cinv x T → c_live x !! ap = Some nb → ∃ T1 T2, T = T1 ++ (units nb, false) :: T2 ∧ ap = lo + 16 * tot T1 + 16 ∧ uinv (c_heap x) T.
Proof.
  intros C Hl. destruct (ci_live _ _ C _ _ Hl) as [_ Hin]. destruct (blocks_split _ _ _ _ _ Hin) as (T1 & T2 & -> & E). exists T1, T2. split_and!; [done|lia|].
  destruct (ci_heap _ _ C) as [I|(E' & _)]; [done|]. by destruct T1.
Qed.

Lemma cinv_free x T fuel ap nb :
  cinv x T → c_live x !! ap = Some nb → (2 * S (length T) ≤ fuel)%nat →
  ∃ h' T', free fuel ap (c_heap x) = Some (tt, h') ∧ (length T' ≤ length T)%nat ∧
    cinv (mkClient h' (delete ap (c_live x)) (filter (λ w, ¬ inside ap nb w.1) (c_words x))) T'.
Proof.
  intros C Hl Hf. destruct (live_block _ _ _ _ C Hl) as (T1 & T2 & -> & -> & I). pose proof (ci_sizes _ _ C) as [HT1 [Hs HT2]%Forall_cons]%Forall_app. cbn in Hs.
  destruct (free_run (c_heap x) T1 (units nb) T2 fuel I Hf) as (h' & T' & Hr & F). exists h', T'. split_and!; [done|rewrite length_app; apply (fr_len _ _ _ _ _ _ F)|].
  set (bp := lo + 16 * tot T1) in *. assert (Hus : useds lo (T1 ++ (units nb, false) :: T2) = useds lo T1 ++ (bp, units nb) :: useds (bp + 16 * units nb) T2) by (by rewrite blocks_app).
  assert (Hin : ∀ a s, (a, s) ∈ useds lo T' ↔ (a, s) ∈ useds lo (T1 ++ (units nb, false) :: T2) ∧ a ≠ bp).
  { intros a s. rewrite Hus, (fr_used _ _ _ _ _ _ F). fold bp. rewrite !elem_of_app, elem_of_cons. split; [|intros [[?|[[= -> ->]|?]] ?]; auto; done].
    intros [Ha|Ha]; [pose proof (blocks_range _ _ _ _ _ HT1 Ha); idtac|pose proof (blocks_range _ _ _ _ _ HT2 Ha)]; (split; [auto|unfold bp; lia]). }
  split; cbn.
  - left. apply F.
  - apply (v_sizes _ _ (fr_inv _ _ _ _ _ _ F)).
  - intros q k [Hne Hq]%lookup_delete_Some. destruct (ci_live _ _ C _ _ Hq) as [? Hin']. split; [done|]. apply Hin. split; [done|]. lia.
  - intros a s [Ha Hne]%Hin. destruct (ci_used _ _ C _ _ Ha) as (k & Hk & ->). exists k. split; [|done]. rewrite lookup_delete_ne; [done|]. lia.
  - intros c v [Hc Hni]%map_lookup_filter_Some. cbn in Hni. destruct (ci_words _ _ C c v Hc) as (Hv & q & k & Hq & Hi).
    assert (q ≠ bp + 16) as Hne by (intros ->; rewrite Hq in Hl; by injection Hl as <-). destruct (inside_block _ _ _ _ _ C Hq Hi) as [Hb ?].
    split; [|exists q, k; by rewrite lookup_delete_ne]. rewrite (fr_data _ _ _ _ _ _ F (q - 16) (units k) c); [done| |lia]. apply Hin. split; [done|lia].
Qed.

Lemma cinv_store x T ap nb a v :
  cinv x T → c_live x !! ap = Some nb → inside ap nb a →
  cinv (mkClient (mkUHeap (store_at (u_mem (c_heap x)) a v) (u_freep (c_heap x)) (u_brk (c_heap x))) (c_live x) (<[a := v]> (c_words x))) T.
Proof.
  intros C Hl Hi. destruct (live_block _ _ _ _ C Hl) as (_ & _ & _ & _ & I). destruct (inside_block _ _ _ _ _ C Hl Hi) as [Hb Hr]. pose proof (ci_sizes _ _ C) as HT.
  split; cbn [c_heap c_live c_words]; try apply C.
  - left. split; cbn [u_mem u_freep u_brk]; try apply I.
    + apply seg_frame with (u_mem (c_heap x)); [|apply I]. intros y s Hy. assert (a ≠ y ∧ a ≠ y + 8) as [? ?] by (eapply (node_used_apart T y s); [done|done|exact Hb|lia]).
      by rewrite !store_ne by congruence.
    + intros b s Hbs. rewrite store_ne; [by apply (v_used _ _ I)|]. pose proof (blocks_range _ _ _ _ _ HT Hbs). destruct (blocks_disjoint _ _ _ _ _ _ _ _ HT Hb Hbs) as [(? & _)|?]; lia.
  - cbn [u_mem]. intros c w [[<- <-]|[Hne Hc]]%lookup_insert_Some; [rewrite store_eq; eauto|]. rewrite store_ne by congruence. by apply (ci_words _ _ C).
Qed.

Lemma cinv_step fuel x x' T : cinv x T → (2 * length T + 4 ≤ fuel)%nat → cstep fuel x x' → ∃ T', cinv x' T' ∧ (length T' ≤ 2 + length T)%nat.
Proof.
  intros C Hf [nb r h' Hnb Hr|ap nb h' Hl Hr|ap nb a v Hl Hi _ _].
  - by eapply cinv_malloc.
  - destruct (cinv_free x T fuel ap nb C Hl) as (h1 & T' & Hr' & Hlen & C'); [lia|]. rewrite Hr in Hr'. injection Hr' as <-. exists T'. split; [done|lia].
  - exists T. split; [by eapply cinv_store|lia].
Qed.
Lemma cinv_reach fuel k m x : nsteps (cstep fuel) k (client0 m) x → (4 * k + 4 ≤ fuel)%nat → ∃ T, cinv x T ∧ (length T ≤ 2 * k)%nat.
Proof.
  revert x. induction k as [|k IH]; intros x Hs Hf.
  - inversion Hs; subst. exists []. split; [|done]. split; cbn; [by right|constructor|done|intros a s Ha; by apply not_elem_of_nil in Ha|done].
  - apply nsteps_inv_r in Hs as (y & Hs & Hy). destruct (IH y Hs) as (T & C & Hl); [lia|]. destruct (cinv_step fuel y x T C) as (T' & C' & Hl'); [lia|done|]. exists T'. split; [done|lia].
Qed.

(** With everything given back, the free list is one block. *)
Definition one_block (h : UHeap) : Prop := u_brk h = lo ∨ (u_mem h base = lo ∧ u_mem h lo = base ∧ lo + 16 * u_mem h (lo + 8) = u_brk h).
Lemma all_free h T : heap_ok h T → pos_sizes T → useds lo T = [] → one_block h.
Proof.
  intros [I|(-> & _ & Hb)] HT Hu; [|by left]. pose proof (v_seg _ _ I) as Hseg. pose proof (v_co _ _ I) as Hco. pose proof (v_brk _ _ I) as Hb. unfold one_block.
  destruct T as [|[s [|]] T]; [left; rewrite Hb; cbn; lia| |done]. right. destruct T as [|[s' [|]] T]; [|done|done].
  cbn in Hseg, Hb. destruct Hseg as (_ & _ & -> & Hs & Hl). rewrite Hs, Hl. split_and!; [done|done|lia].
Qed.

(** C38: the memory allocator is correct for every program whose requests are
    below 2^30 bytes: in every state reached by calls of [malloc] (of less than 2^30 bytes), [free]
    of pointers it holds and stores behind them, [malloc] and [free] return
    (the fuel 4k+8 is enough after k steps) and never access memory that is not
    theirs; [malloc] returns 0 only when the kernel refuses to extend the heap;
    the regions held are pairwise disjoint, apart from [base] and inside the
    heap; the words stored are still there; and when everything has been given
    back, the free list is a single block that is the whole heap. *)
Theorem umalloc_correct fuel k m x :
  nsteps (cstep fuel) k (client0 m) x → (4 * k + 8 ≤ fuel)%nat →
  (∀ nb, 0 ≤ nb < 2 ^ 30 → ∃ r h', malloc fuel nb (c_heap x) = Some (r, h') ∧ (r = 0 → sbrk_ok (u_brk (c_heap x)) (request (units nb)) = false)) ∧
  (∀ ap nb, c_live x !! ap = Some nb → (∃ h', free fuel ap (c_heap x) = Some (tt, h')) ∧ lo ≤ ap - 16 ∧ ap + nb ≤ u_brk (c_heap x)) ∧
  (∀ p n q l, c_live x !! p = Some n → c_live x !! q = Some l → p ≠ q → p + n ≤ q ∨ q + l ≤ p) ∧
  (∀ a v, c_words x !! a = Some v → u_mem (c_heap x) a = v) ∧
  (c_live x = ∅ → one_block (c_heap x)).
Proof.
  intros Hs Hf. destruct (cinv_reach fuel k m x Hs) as (T & C & Hl); [lia|]. split_and!.
  - intros nb Hnb. destruct (malloc_run (c_heap x) T fuel nb (ci_heap _ _ C) Hnb) as [(h' & Hr & _ & _ & E & _)|(h' & T' & a & Hr & I & Hu & _)]; [lia|eauto|].
    exists (a + 16), h'. split; [done|]. assert (Hin : (a, units nb) ∈ useds lo T') by (rewrite Hu; left). apply (blocks_range _ _ _ _ _ (v_sizes _ _ I)) in Hin.
    pose proof base_pos. pose proof base_lo. lia.
  - intros ap nb Hap. destruct (cinv_free x T fuel ap nb C Hap) as (h' & T' & Hr & _); [lia|]. split; [by exists h'|]. destruct (ci_live _ _ C _ _ Hap) as [Hnb Hin].
    destruct (live_block _ _ _ _ C Hap) as (_ & _ & _ & _ & I). rewrite (v_brk _ _ I). apply (blocks_range _ _ _ _ _ (ci_sizes _ _ C)) in Hin. destruct (units_enough nb Hnb). lia.
  - intros p n q l Hp Hq Hne. destruct (ci_live _ _ C _ _ Hp) as [Hn _]. destruct (ci_live _ _ C _ _ Hq) as [Hl' _]. destruct (units_enough n Hn). destruct (units_enough l Hl').
    destruct (live_apart _ _ _ _ _ _ C Hp Hq Hne); lia.
  - intros a v Ha. apply (ci_words _ _ C a v Ha).
  - intros E. apply (all_free _ T (ci_heap _ _ C) (ci_sizes _ _ C)). destruct (useds lo T) as [|[a s] l] eqn:Eu; [done|]. destruct (ci_used _ _ C a s) as (nb & Hnb & _); [rewrite Eu; left|].
    by rewrite E in Hnb.
Qed.
End allocator.

(** ** A run *)

Inductive COp := CMalloc (nb : Z) | CFree (ap : Z) | CStore (ap a v : Z).

Definition cexec `{HeapEnv} (fuel : nat) (o : COp) (x : Client) : option Client :=
  match o with
  | CMalloc nb =>
      guard (0 ≤ nb < 2 ^ 30);;
      r ← malloc fuel nb (c_heap x);
      Some (mkClient r.2 (if r.1 =? 0 then c_live x else <[r.1 := nb]> (c_live x)) (c_words x))
  | CFree ap =>
      nb ← c_live x !! ap; r ← free fuel ap (c_heap x);
      Some (mkClient r.2 (delete ap (c_live x)) (filter (λ w, ¬ inside ap nb w.1) (c_words x)))
  | CStore ap a v =>
      nb ← c_live x !! ap; guard (inside ap nb a);; guard (inside ap nb (a + 7));; guard ((a - ap) mod 8 = 0);;
      Some (mkClient (mkUHeap (store_at (u_mem (c_heap x)) a v) (u_freep (c_heap x)) (u_brk (c_heap x))) (c_live x) (<[a := v]> (c_words x)))
  end.
Fixpoint crun `{HeapEnv} (fuel : nat) (l : list COp) (x : Client) : option Client :=
  match l with [] => Some x | o :: l' => cexec fuel o x ≫= crun fuel l' end.

Lemma cexec_sound `{HeapEnv} fuel o x x' : cexec fuel o x = Some x' → cstep fuel x x'.
Proof.
  destruct o as [nb|ap|ap a v]; cbn -[Z.pow]; intros E.
  - case_guard; [|done]. apply bind_Some in E as (_ & _ & E). apply bind_Some in E as ([r h'] & Hr & E). simplify_eq/=. by apply c_malloc.
  - apply bind_Some in E as (nb & Hnb & E). apply bind_Some in E as ([[] h'] & Hr & E). simplify_eq/=. by apply c_free.
  - apply bind_Some in E as (nb & Hnb & E). repeat case_guard; simplify_eq/=. by eapply c_store.
Qed.
Lemma crun_sound `{HeapEnv} fuel l x x' : crun fuel l x = Some x' → nsteps (cstep fuel) (length l) x x'.
Proof.
  revert x. induction l as [|o l IH]; intros x E; cbn in E; [injection E as <-; constructor|].
  apply bind_Some in E as (y & E1 & E2). econstructor; [by eapply cexec_sound|by apply IH].
Qed.

(** A small heap. *)
Definition small_heap : HeapEnv := {| base := 64; lo := 4096; sbrk_ok := λ b n, b + n <? 4096 + 16 * 2 ^ 16 |}.
Lemma small_heap_law : @HeapLaw small_heap.
Proof. split; cbn; [lia|lia|]. intros b n E%Z.ltb_lt. lia. Qed.

Definition some_calls : list COp := [CMalloc 100; CMalloc 20; CStore 69520 69528 7; CFree 69472; CMalloc 70000].

Lemma some_run {A} (P : A → Prop) (o : option A) : match o with Some x => P x | None => False end → ∃ x, o = Some x ∧ P x.
Proof. destruct o as [x|]; [by exists x|done]. Qed.

Lemma umalloc_correct_witness :
  ∃ x, @crun small_heap 40 some_calls (@client0 small_heap (λ _, 0)) = Some x ∧ u_mem (c_heap x) 69528 = 7 ∧
    (∃ r h', @malloc small_heap 40 5000 (c_heap x) = Some (r, h')) ∧ (∃ h', @free small_heap 40 69520 (c_heap x) = Some (tt, h')).
Proof.
  destruct (some_run (λ x, c_words x !! 69528 = Some 7 ∧ c_live x !! 69520 = Some 100) (@crun small_heap 40 some_calls (@client0 small_heap (λ _, 0)))) as (x & E & Hw & Hl);
    [vm_compute; split; reflexivity|]. exists x.
  destruct (@umalloc_correct small_heap small_heap_law 40 5 (λ _, 0) x (@crun_sound small_heap 40 some_calls _ x E) ltac:(lia)) as (H1 & H2 & _ & H4 & _).
  split; [exact E|]. split; [exact (H4 _ _ Hw)|]. split; [|exact (proj1 (H2 _ _ Hl))].
  destruct (H1 5000 ltac:(lia)) as (r & h' & Hr & _). exists r, h'. exact Hr.
Defined.
