(* ===== verification/Console.v ===== *)
(** * console.c and uart.c

    The console's input buffer with its line editing, and the transmitter of
    the serial port.  A call of [consoleread] or [uartwrite] is modelled by its
    critical sections: from an acquisition of the lock to the next sleep or
    return.  Reading and writing user memory is an interface. *)

From S2P Require Import Prelude Kernel.
Open Scope Z_scope.

(** ** console.c *)

Definition BACKSPACE : Z := 0x100.
(** C(x) *)
Definition Ctl (x : Z) : Z := x - 64.
Definition CTRL_P : Z := Ctl 80.
Definition CTRL_U : Z := Ctl 85.
Definition CTRL_H : Z := Ctl 72.
Definition CTRL_D : Z := Ctl 68.
Definition NEWLINE : Z := 10.
Definition INPUT_BUF_SIZE : nat := 128.

Record Cons := mkCons { cons_buf : list Z; cons_r : Z; cons_w : Z; cons_e : Z }.
Definition cons0 : Cons := mkCons (replicate INPUT_BUF_SIZE 0) 0 0 0.
Definition set_e (e : Z) (s : Cons) : Cons := mkCons (cons_buf s) (cons_r s) (cons_w s) e.
Definition set_r (r : Z) (s : Cons) : Cons := mkCons (cons_buf s) r (cons_w s) (cons_e s).
Definition cons_at (i : Z) (s : Cons) : option Z := cons_buf s !! Z.to_nat (i mod Z.of_nat INPUT_BUF_SIZE).

(** What the handler does besides: characters for [uartputc_sync], the list of
    processes, waking readers. *)
Inductive Effect := Putc (c : Z) | Procdump | WakeReaders.

Definition consputc (c : Z) : list Effect := if c =? BACKSPACE then [Putc 8; Putc 32; Putc 8] else [Putc c].

(** The loop of Control-U; each round takes a character off the buffer. *)
Fixpoint kill_line (fuel : nat) (s : Cons) : option (Cons * list Effect) :=
  match fuel with
  | O => None
  | S fuel' =>
      if cons_e s =? cons_w s then Some (s, []) else
      c ← cons_at (u32 (cons_e s - 1)) s;
      if c =? NEWLINE then Some (s, []) else
      r ← kill_line fuel' (set_e (u32 (cons_e s - 1)) s);
      Some (r.1, consputc BACKSPACE ++ r.2)
  end.

(** [consoleintr]; [None] is a loop that does not end. *)
Definition consoleintr (c : Z) (s : Cons) : option (Cons * list Effect) :=
  if c =? CTRL_P then Some (s, [Procdump]) else
  if c =? CTRL_U then kill_line (S INPUT_BUF_SIZE) s else
  if (c =? CTRL_H) || (c =? 127) then
    if cons_e s =? cons_w s then Some (s, []) else Some (set_e (u32 (cons_e s - 1)) s, consputc BACKSPACE)
  else if negb (c =? 0) && (u32 (cons_e s - cons_r s) <? Z.of_nat INPUT_BUF_SIZE) then
    let c := if c =? 13 then NEWLINE else c in
    let buf := <[Z.to_nat (cons_e s mod Z.of_nat INPUT_BUF_SIZE) := c]> (cons_buf s) in
    let e := u32 (cons_e s + 1) in
    if (c =? NEWLINE) || (c =? CTRL_D) || (u32 (e - cons_r s) =? Z.of_nat INPUT_BUF_SIZE)
    then Some (mkCons buf (cons_r s) e e, consputc c ++ [WakeReaders])
    else Some (mkCons buf (cons_r s) (cons_w s) e, consputc c)
  else Some (s, []).

(** User memory: storing a byte at an address, reading bytes from one. *)
Class UserMem := { UMem : Type; copy_byte : UMem → Z → Z → option UMem; copy_in : UMem → Z → nat → option (list Z) }.

Section io.
  Context `{UserMem}.

(** [consoleread] returns a value, or sleeps with [dst] and [n] as they are. *)
Inductive ReadOut := Returns (v : Z) | Sleeps (dst n : Z).

(** The loop of [consoleread] in one critical section; [n] rounds at most. *)
Fixpoint read_loop (killed : bool) (target : Z) (n : nat) (dst : Z) (s : Cons) (u : UMem) : option (ReadOut * Cons * UMem) :=
  match n with
  | O => Some (Returns target, s, u)
  | S n' =>
      if cons_r s =? cons_w s then Some (if killed then Returns (-1) else Sleeps dst (Z.of_nat n), s, u) else
      c ← cons_at (cons_r s) s;
      let s' := set_r (u32 (cons_r s + 1)) s in
      if c =? CTRL_D then
        Some (Returns (target - Z.of_nat n), if Z.of_nat n <? target then set_r (u32 (cons_r s' - 1)) s' else s', u)
      else
        match copy_byte u dst c with
        | None => Some (Returns (target - Z.of_nat n), s', u)
        | Some u' => if c =? NEWLINE then Some (Returns (target - Z.of_nat n'), s', u') else read_loop killed target n' (dst + 1) s' u'
        end
  end.
(** From the start of the call, or from a sleep. *)
Definition consoleread (killed : bool) (target dst n : Z) (s : Cons) (u : UMem) : option (ReadOut * Cons * UMem) :=
  if 0 <? n then read_loop killed target (Z.to_nat n) dst s u else Some (Returns (target - n), s, u).

(** [consolewrite]: the result and the batches for [uartwrite]. *)
Fixpoint write_batches (fuel : nat) (u : UMem) (src n i : Z) : option (Z * list (list Z)) :=
  match fuel with
  | O => None
  | S fuel' =>
      if i <? n then
        let nn := if n - i <? 32 then n - i else 32 in
        match copy_in u (src + i) (Z.to_nat nn) with
        | None => Some (i, [])
        | Some bs => r ← write_batches fuel' u src n (i + nn); Some (r.1, bs :: r.2)
        end
      else Some (i, [])
  end.
Definition consolewrite (u : UMem) (src n : Z) : option (Z * list (list Z)) := write_batches (S (Z.to_nat n)) u src n 0.
End io.

(** ** uart.c: the transmitter *)

Definition LSR_RX_READY : Z := Z.shiftl 1 0.
Definition LSR_TX_IDLE : Z := Z.shiftl 1 5.

(** [tx_busy] and the two bits of LSR and RHR that the driver reads. *)
Record Uart := mkUart { tx_busy : bool; lsr : Z; rhr : Z }.

(** How a stretch of [uartwrite] under [tx_lock] ends: in the return, or in
    [sleep(&tx_chan, &tx_lock)] with the bytes still to write. *)
Inductive WOut := WReturns | WSleeps (rest : list Z).
(** The code from the test of the outer loop to the next sleep or return: the
    bytes stored to THR in order, how it ends, and [tx_busy].  After a sleep it
    goes on with the same test. *)
Fixpoint uartwrite (bs : list Z) (busy : bool) : list Z * WOut * bool :=
  match bs with
  | [] => ([], WReturns, busy)
  | b :: bs' =>
      if busy then ([], WSleeps bs, busy) else
      let '(out, w, busy') := uartwrite bs' true in (b :: out, w, busy')
  end.
(** The transmit half of [uartintr]: [tx_busy], and whether it calls
    [wakeup(&tx_chan)]. *)
Definition uartintr_tx (u : Uart) : bool * bool :=
  if Z.land (lsr u) LSR_TX_IDLE =? 0 then (tx_busy u, false) else (false, true).
(** The loop condition of [uartputc_sync]. *)
Definition putc_waits (u : Uart) : bool := Z.land (lsr u) LSR_TX_IDLE =? 0.
Definition uartgetc (u : Uart) : Z := if Z.land (lsr u) LSR_RX_READY =? 0 then -1 else rhr u.
(** The receive half: every waiting character goes to [consoleintr]. *)
Fixpoint uartintr_rx (cs : list Z) (s : Cons) : option (Cons * list Effect) :=
  match cs with
  | [] => Some (s, [])
  | c :: cs' => r ← consoleintr c s; r' ← uartintr_rx cs' r.1; Some (r'.1, r.2 ++ r'.2)
  end.
