(* ===== verification/ConsoleSpec.v ===== *)
(** * The console's line discipline

    The input buffer refines two lists: the bytes that readers may take and the
    line that is being edited. *)

From S2P Require Import Prelude Kernel Ring Console.
Open Scope Z_scope.

(** ** Lines *)

Record Line := mkLine { l_done : list Z; l_edit : list Z }.
Definition l_full (L : Line) : nat := length (l_done L) + length (l_edit L).

(** A key: the line after it and what is echoed. *)
Definition ends_line (c : Z) : bool := (c =? NEWLINE) || (c =? CTRL_D).
Definition key (c : Z) (L : Line) : Line * list Effect :=
  if c =? CTRL_P then (L, [Procdump]) else
  if c =? CTRL_U then (mkLine (l_done L) [], mjoin (replicate (length (l_edit L)) (consputc BACKSPACE))) else
  if (c =? CTRL_H) || (c =? 127) then
    match l_edit L with [] => (L, []) | _ => (mkLine (l_done L) (removelast (l_edit L)), consputc BACKSPACE) end
  else if negb (c =? 0) && bool_decide (l_full L < INPUT_BUF_SIZE)%nat then
    let c := if c =? 13 then NEWLINE else c in
    if ends_line c || bool_decide (S (l_full L) = INPUT_BUF_SIZE)
    then (mkLine (l_done L ++ l_edit L ++ [c]) [], consputc c ++ [WakeReaders])
    else (mkLine (l_done L) (l_edit L ++ [c]), consputc c)
  else (L, []).

Section read.
  Context `{UserMem}.
(** A reader takes bytes up to the end of a line, or as many as it wants; an
    end-of-file mark behind other bytes stays for the next reader. *)
Fixpoint take_bytes (killed : bool) (target : Z) (n : nat) (dst : Z) (l : list Z) (u : UMem) : ReadOut * list Z * UMem :=
  match n, l with
  | O, _ => (Returns target, l, u)
  | S n', [] => (if killed then Returns (-1) else Sleeps dst (Z.of_nat n), [], u)
  | S n', c :: l' =>
      if c =? CTRL_D then (Returns (target - Z.of_nat n), if Z.of_nat n <? target then l else l', u) else
      match copy_byte u dst c with
      | None => (Returns (target - Z.of_nat n), l', u)
      | Some u' => if c =? NEWLINE then (Returns (target - Z.of_nat n'), l', u') else take_bytes killed target n' (dst + 1) l' u'
      end
  end.

(** ** The relation *)

Record on_line (s : Cons) (L : Line) : Prop := {
  o_len : length (cons_buf s) = INPUT_BUF_SIZE;
  o_fits : (l_full L ≤ INPUT_BUF_SIZE)%nat;
  o_r : 0 ≤ cons_r s < 2 ^ 32;
  o_w : cons_w s = u32 (cons_r s + Z.of_nat (length (l_done L)));
  o_e : cons_e s = u32 (cons_r s + Z.of_nat (l_full L));
  o_ring : holds INPUT_BUF_SIZE (cons_buf s) (cons_r s) (l_done L ++ l_edit L);
  o_edit : Forall (λ c, c ≠ NEWLINE) (l_edit L)
}.

Lemma SIZE_ok : (0 < INPUT_BUF_SIZE)%nat ∧ 0 < 2 ^ 32 ∧ (Z.of_nat INPUT_BUF_SIZE | 2 ^ 32).
Proof. split_and!; [apply Nat.ltb_lt; reflexivity|lia|]. by exists (2 ^ 25). Qed.

Lemma SIZE_small n : (n ≤ INPUT_BUF_SIZE)%nat → Z.of_nat n < 2 ^ 32.
Proof. unfold INPUT_BUF_SIZE. lia. Qed.
Lemma u32_sub_r a b : u32 (u32 a - b) = u32 (a - b).
Proof. unfold u32. apply Zminus_mod_idemp_l. Qed.
Lemma u32_back r k : 0 ≤ r < 2 ^ 32 → 0 ≤ k < 2 ^ 32 → u32 (u32 (r + k) - r) = k.
Proof. intros ? ?. rewrite u32_sub_r. replace (r + k - r) with k by lia. by apply Z.mod_small. Qed.

(** The edit index is at the write index when nothing is being edited. *)
Lemma edit_empty s L : on_line s L → (cons_e s =? cons_w s) = bool_decide (l_edit L = []).
Proof.
  intros O. pose proof (SIZE_small _ (o_fits _ _ O)) as Hs. unfold l_full in Hs. rewrite (o_e _ _ O), (o_w _ _ O). unfold l_full.
  destruct (l_edit L) as [|c t] eqn:E; [rewrite bool_decide_true by done; apply Z.eqb_eq; f_equal; cbn; lia|]. rewrite bool_decide_false by done. apply Z.eqb_neq. intros Heq.
  rewrite ?E in Hs. set (a := cons_r s + Z.of_nat (length (l_done L))) in *.
  apply (counter_ne (2 ^ 32) (u32 a) (Z.of_nat (length (c :: t)))); [apply Z.mod_pos_bound; lia|cbn in *; lia|].
  rewrite <- Heq at 2. unfold u32 at 1. rewrite Zplus_mod_idemp_l. unfold u32. f_equal. unfold a. lia.
Qed.
Lemma done_empty s L : on_line s L → (cons_r s =? cons_w s) = bool_decide (l_done L = []).
Proof.
  intros O. pose proof (SIZE_small _ (o_fits _ _ O)) as Hs. unfold l_full in Hs. rewrite (o_w _ _ O).
  destruct (l_done L) as [|c t] eqn:E; [rewrite bool_decide_true by done; apply Z.eqb_eq; cbn; rewrite Z.add_0_r; symmetry; apply Z.mod_small, O|].
  rewrite bool_decide_false by done. apply Z.eqb_neq. intros Heq. apply (counter_ne (2 ^ 32) (cons_r s) (Z.of_nat (length (c :: t)))); [apply O|cbn in *; lia|]. symmetry. exact Heq.
Qed.
Lemma edit_room s L : on_line s L → u32 (cons_e s - cons_r s) = Z.of_nat (l_full L).
Proof. intros O. rewrite (o_e _ _ O). apply u32_back; [apply O|]. pose proof (SIZE_small _ (o_fits _ _ O)). lia. Qed.

(** Taking the last byte off the line. *)
Lemma drop_last s d t c :
  on_line s (mkLine d (t ++ [c])) → on_line (set_e (u32 (cons_e s - 1)) s) (mkLine d t) ∧ cons_at (u32 (cons_e s - 1)) s = Some c.
Proof.
  intros [O1 O2 O3 O4 O5 O6 O7]. unfold l_full in *. cbn in *. rewrite length_app in *. cbn in *. rewrite app_assoc in O6.
  assert (He : u32 (cons_e s - 1) = u32 (cons_r s + Z.of_nat (length d + length t))).
  { rewrite O5, u32_sub_r. f_equal. lia. }
  split.
  - split; unfold l_full; cbn; [done|lia|done|done|done|by apply holds_app in O6 as [? _]|by apply Forall_app in O7 as [? _]].
  - rewrite He. unfold cons_at. change (Z.to_nat (?i mod _)) with (cell INPUT_BUF_SIZE i). unfold u32. rewrite (cell_wrap _ (2 ^ 32)) by apply SIZE_ok.
    apply holds_last in O6. by rewrite length_app in O6.
Qed.

Lemma kill_line_run s d t fuel :
  on_line s (mkLine d t) → (length t < fuel)%nat →
  ∃ s', kill_line fuel s = Some (s', mjoin (replicate (length t) (consputc BACKSPACE))) ∧ on_line s' (mkLine d []).
Proof.
  revert s fuel. induction t as [|c t IH] using rev_ind; intros s fuel O Hf; (destruct fuel as [|fuel]; [lia|]); cbn [kill_line]; rewrite (edit_empty _ _ O); cbn [l_edit].
  - by exists s.
  - rewrite bool_decide_false by (by destruct t). destruct (drop_last _ _ _ _ O) as [O' ->]. cbn [mbind option_bind].
    assert (c ≠ NEWLINE) as Hc by (pose proof (o_edit _ _ O) as Hn; cbn in Hn; by apply Forall_app in Hn as [_ [? _]%Forall_cons]). rewrite (proj2 (Z.eqb_neq _ _) Hc).
    rewrite length_app in Hf |- *. cbn [length] in Hf |- *. destruct (IH _ fuel O') as (s' & -> & O''); [lia|]. exists s'. split; [|done].
    rewrite Nat.add_comm. done.
Qed.

(** Adding a byte. *)
Lemma add_byte s L c :
  on_line s L → (l_full L < INPUT_BUF_SIZE)%nat →
  let buf := <[Z.to_nat (cons_e s mod Z.of_nat INPUT_BUF_SIZE) := c]> (cons_buf s) in
  on_line (mkCons buf (cons_r s) (u32 (cons_e s + 1)) (u32 (cons_e s + 1))) (mkLine (l_done L ++ l_edit L ++ [c]) []) ∧
  (c ≠ NEWLINE → on_line (mkCons buf (cons_r s) (cons_w s) (u32 (cons_e s + 1))) (mkLine (l_done L) (l_edit L ++ [c]))).
Proof.
  intros O Hroom buf. assert (He : u32 (cons_e s + 1) = u32 (cons_r s + Z.of_nat (S (l_full L)))).
  { rewrite (o_e _ _ O). unfold u32. rewrite Zplus_mod_idemp_l. f_equal. lia. }
  assert (Hring : holds INPUT_BUF_SIZE buf (cons_r s) ((l_done L ++ l_edit L) ++ [c])).
  { unfold buf. change (Z.to_nat (?i mod _)) with (cell INPUT_BUF_SIZE i). rewrite (o_e _ _ O). unfold u32. rewrite (cell_wrap _ (2 ^ 32)) by apply SIZE_ok.
    unfold l_full in *. rewrite <- length_app. apply holds_push; [apply SIZE_ok|apply O|by rewrite length_app|apply O]. }
  rewrite <- app_assoc in Hring. assert (Hlen : length buf = INPUT_BUF_SIZE) by (unfold buf; rewrite length_insert; apply O).
  split; [|intros Hc]; split; unfold l_full in *; cbn [l_done l_edit cons_buf cons_r cons_w cons_e]; rewrite ?app_nil_r, ?length_app; cbn [length]; try done; try apply O; try lia.
  - rewrite He. f_equal. lia.
  - rewrite He. f_equal. lia.
  - rewrite He. f_equal. lia.
  - apply Forall_app. split; [apply O|]. by repeat constructor.
Qed.

Lemma key_run s L c : on_line s L → ∃ s', consoleintr c s = Some (s', (key c L).2) ∧ on_line s' (key c L).1.
Proof.
  intros O. unfold consoleintr, key. destruct (c =? CTRL_P); [by exists s|]. destruct (c =? CTRL_U).
  { destruct L as [d t]. pose proof (o_fits _ _ O) as Hf. unfold l_full in Hf. cbn [l_done l_edit] in Hf. apply kill_line_run; [done|cbn [l_edit]; lia]. }
  destruct ((c =? CTRL_H) || (c =? 127)).
  { rewrite (edit_empty _ _ O). destruct L as [d t]. cbn [l_edit l_done]. destruct t as [|c' t _] using rev_ind; [by exists s|]. rewrite bool_decide_false by (by destruct t).
    destruct (drop_last _ _ _ _ O) as [O' _]. destruct (t ++ [c']) as [|x l] eqn:E; [by destruct t|]. rewrite <- E, removelast_last. by eexists. }
  rewrite (edit_room _ _ O). replace (Z.of_nat (l_full L) <? Z.of_nat INPUT_BUF_SIZE) with (bool_decide (l_full L < INPUT_BUF_SIZE)%nat) by (case_bool_decide; symmetry; [apply Z.ltb_lt|apply Z.ltb_ge]; lia).
  destruct (negb (c =? 0) && bool_decide (l_full L < INPUT_BUF_SIZE)%nat) eqn:E; [|by exists s]. apply andb_true_iff in E as [_ Hroom%bool_decide_eq_true].
  set (c' := if c =? 13 then NEWLINE else c). destruct (add_byte s L c' O Hroom) as [O1 O2]. pose proof (edit_room _ _ O1) as Hr. cbn [cons_e cons_r] in Hr. rewrite Hr. unfold ends_line.
  replace (Z.of_nat (l_full (mkLine (l_done L ++ l_edit L ++ [c']) [])) =? Z.of_nat INPUT_BUF_SIZE) with (bool_decide (S (l_full L) = INPUT_BUF_SIZE)).
  2:{ unfold l_full. cbn [l_done l_edit length]. rewrite !length_app. cbn [length]. case_bool_decide; symmetry; [apply Z.eqb_eq|apply Z.eqb_neq]; lia. }
  destruct ((c' =? NEWLINE) || (c' =? CTRL_D) || bool_decide (S (l_full L) = INPUT_BUF_SIZE)) eqn:Ee; [by eexists|].
  eexists. split; [done|]. apply O2. intros Ec. by rewrite Ec in Ee.
Qed.

(** Taking the first byte. *)
Lemma pop_byte s d t c :
  on_line s (mkLine (c :: d) t) → cons_at (cons_r s) s = Some c ∧ on_line (set_r (u32 (cons_r s + 1)) s) (mkLine d t).
Proof.
  intros [O1 O2 O3 O4 O5 O6 O7]. unfold l_full in *. cbn [l_done l_edit length app Nat.add] in *. split; [by apply holds_head in O6|].
  assert (Hadd : ∀ n, u32 (cons_r s + Z.of_nat (S n)) = u32 (u32 (cons_r s + 1) + Z.of_nat n)) by (intros n; unfold u32; rewrite Zplus_mod_idemp_l; f_equal; lia).
  split; unfold l_full; cbn [l_done l_edit set_r cons_buf cons_r cons_w cons_e]; [done|lia|apply Z.mod_pos_bound; lia|by rewrite O4|by rewrite O5| |done].
  apply (holds_pop INPUT_BUF_SIZE (2 ^ 32)) in O6; [done|apply SIZE_ok..].
Qed.

Lemma read_run killed target n dst s L u :
  on_line s L →
  ∃ s', read_loop killed target n dst s u = Some ((take_bytes killed target n dst (l_done L) u).1.1, s', (take_bytes killed target n dst (l_done L) u).2) ∧
    on_line s' (mkLine (take_bytes killed target n dst (l_done L) u).1.2 (l_edit L)).
Proof.
  destruct L as [d t]. cbn [l_done l_edit]. revert dst s d u. induction n as [|n IH]; intros dst s d u O; cbn [read_loop]; [by exists s|].
  rewrite (done_empty _ _ O). cbn [l_done]. destruct d as [|c d]; cbn [take_bytes]; [rewrite bool_decide_true by done; by exists s|]. rewrite bool_decide_false by done.
  destruct (pop_byte _ _ _ _ O) as [-> O']. cbn [mbind option_bind]. destruct (c =? CTRL_D).
  - eexists. split; [done|]. cbn [fst snd]. destruct (Z.of_nat (S n) <? target); [|done].
    replace (set_r _ _) with s; [done|]. destruct s as [buf r w e]. unfold set_r. cbn in *. f_equal. rewrite u32_sub_r. replace (r + 1 - 1) with r by lia. symmetry. apply Z.mod_small, (o_r _ _ O).
  - destruct (copy_byte u dst c) as [u'|]; [|by eexists]. destruct (c =? NEWLINE); [by eexists|]. by apply IH.
Qed.

(** ** Any sequence of keys and reads *)

Inductive CEvent := EKey (c : Z) | ERead (killed : bool) (target dst n : Z).

Fixpoint crun_events (l : list CEvent) (s : Cons) (u : UMem) : option (list (list Effect + ReadOut) * Cons * UMem) :=
  match l with
  | [] => Some ([], s, u)
  | EKey c :: l' => r ← consoleintr c s; r' ← crun_events l' r.1 u; Some (inl r.2 :: r'.1.1, r'.1.2, r'.2)
  | ERead k target dst n :: l' => r ← consoleread k target dst n s u; r' ← crun_events l' r.1.2 r.2; Some (inr r.1.1 :: r'.1.1, r'.1.2, r'.2)
  end.
Fixpoint line_events (l : list CEvent) (L : Line) (u : UMem) : list (list Effect + ReadOut) * Line * UMem :=
  match l with
  | [] => ([], L, u)
  | EKey c :: l' => let r := line_events l' (key c L).1 u in (inl (key c L).2 :: r.1.1, r.1.2, r.2)
  | ERead k target dst n :: l' =>
      let x := if 0 <? n then take_bytes k target (Z.to_nat n) dst (l_done L) u else (Returns (target - n), l_done L, u) in
      let r := line_events l' (mkLine x.1.2 (l_edit L)) x.2 in (inr x.1.1 :: r.1.1, r.1.2, r.2)
  end.

Lemma line0 : on_line cons0 (mkLine [] []).
Proof. split; [apply length_replicate|apply Nat.le_0_l|cbn; lia|done|done|apply holds_nil|constructor]. Qed.

Lemma events_run l s L u :
  on_line s L → ∃ s', crun_events l s u = Some ((line_events l L u).1.1, s', (line_events l L u).2) ∧ on_line s' (line_events l L u).1.2.
Proof.
  revert s L u. induction l as [|[c|k target dst n] l IH]; intros s L u O; cbn [crun_events line_events]; [by exists s| |].
  - destruct (key_run s L c O) as (s1 & -> & O1). cbn [mbind option_bind fst snd]. destruct (IH s1 _ u O1) as (s2 & -> & O2). by exists s2.
  - unfold consoleread. destruct (0 <? n).
    + destruct (read_run k target (Z.to_nat n) dst s L u O) as (s1 & -> & O1). cbn [mbind option_bind fst snd]. destruct (IH s1 _ (take_bytes k target (Z.to_nat n) dst (l_done L) u).2 O1) as (s2 & -> & O2). by exists s2.
    + cbn [mbind option_bind fst snd]. destruct L as [d t]. destruct (IH s _ u O) as (s2 & -> & O2). by exists s2.
Qed.

(** C18: the console's input is a line editor.  For every sequence of key
    interrupts and critical sections of readers, starting from the empty
    console, the 128-byte buffer with its three free-running 32-bit indices
    behaves as two lists, the bytes ready for readers and the line being edited:
    the interrupt handler always ends, echoes the same characters and wakes
    readers in the same cases, and readers get the same bytes and return or
    sleep in the same cases. *)
Theorem console_refines_lines l u :
  ∃ s', crun_events l cons0 u = Some ((line_events l (mkLine [] []) u).1.1, s', (line_events l (mkLine [] []) u).2) ∧ on_line s' (line_events l (mkLine [] []) u).1.2.
Proof. apply events_run, line0. Qed.

(** [consolewrite] ends; it stops early only where user memory cannot be read. *)
Lemma write_batches_run fuel u src n i :
  (Z.to_nat (n - i) < fuel)%nat → ∃ r bs, write_batches fuel u src n i = Some (r, bs) ∧ i ≤ r ∧ (n ≤ r ∨ ∃ k, copy_in u (src + r) k = None).
Proof.
  revert i. induction fuel as [|fuel IH]; intros i Hf; [lia|]. cbn [write_batches]. destruct (i <? n) eqn:E; [apply Z.ltb_lt in E|apply Z.ltb_ge in E; exists i, []; split_and!; [done|lia|by left]].
  set (nn := if n - i <? 32 then n - i else 32). assert (0 < nn) by (unfold nn; destruct (n - i <? 32) eqn:E'; lia).
  destruct (copy_in u (src + i) (Z.to_nat nn)) as [bs|] eqn:Ec; [|exists i, []; split_and!; [done|lia|right; by eexists]].
  destruct (IH (i + nn)) as (r & bss & -> & Hr & Hor); [lia|]. exists r, (bs :: bss). split_and!; [done|lia|done].
Qed.
End read.
