(* ===== verification/UartSpec.v ===== *)
(** * The serial port sends everything

    The drivers' half of uart.c next to a port with a transmit FIFO: processes
    in [uartwrite], which sleep on [tx_chan], kernel printfs in
    [uartputc_sync], and the interrupt handler, which wakes the sleepers and
    echoes the characters it receives. *)

From S2P Require Import Prelude Kernel Console.
Open Scope Z_scope.

(** [P] holds at some point on every run. *)
Inductive inevitable {A} (R : A → A → Prop) (P : A → Prop) (x : A) : Prop :=
  | inev_now : P x → inevitable R P x
  | inev_later y : R x y → (∀ z, R x z → inevitable R P z) → inevitable R P x.

(** ** The system *)

(** A process in [uartwrite] with the bytes it still has to write: ready to run
    (or waiting for [tx_lock]), or asleep on [tx_chan]. *)
Inductive Writer := Ready (bs : list Z) | Asleep (bs : list Z) | Returned.
#[export] Instance Writer_eq : EqDecision Writer.
Proof. solve_decision. Defined.
(** The interrupt handler: not running (the controller serves one interrupt of
    the port at a time); after the read of ISR; or in the loop that receives,
    with the characters it has still to echo.  A caller of [uartputc_sync] is
    past its waiting loop ([true]) or not. *)
Inductive Handler := NoIrq | Acked | Echo (bs : list Z) (past : bool).
(** Who has given a byte to the port. *)
Inductive Sender := ByWriter (p : nat) | ByPrint (q : nat) | ByEcho.
#[export] Instance Sender_eq : EqDecision Sender.
Proof. solve_decision. Defined.

(** [t_fifo] holds the bytes in the transmit FIFO, [t_pend] a pending transmit
    interrupt; [t_arrived] and [t_rx] the characters in the receiver and those
    to come, each as what it will echo; [t_kills] the kills to come that wake a
    sleeping writer; [t_sent] what has left the port. *)
Record Port := mkPort {
  t_writers : list Writer; t_prints : list (list Z * bool); t_irq : Handler; t_busy : bool;
  t_fifo : list (Sender * Z); t_pend : bool; t_arrived : list (list Z); t_rx : list (list Z); t_kills : nat;
  t_sent : list (Sender * Z) }.

(** Entries of the FIFO that [uartinit] enables; a byte stored to a full FIFO is lost. *)
Definition FIFO : nat := 16.
Definition to_fifo (f : list (Sender * Z)) (x : Sender * Z) : list (Sender * Z) := if (length f <? FIFO)%nat then f ++ [x] else f.
(** LSR says idle when the FIFO is empty. *)
Definition regs (x : Port) : Uart := mkUart (t_busy x) (if bool_decide (t_fifo x = []) then LSR_TX_IDLE else 0) 0.

Definition after_write (w : WOut) : Writer := match w with WReturns => Returned | WSleeps rest => Asleep rest end.
Definition wake (w : Writer) : Writer := match w with Asleep bs => Ready bs | _ => w end.

Inductive tstep (x : Port) : Port → Prop :=
  (** A writer runs under [tx_lock] until it sleeps or returns. *)
  | st_write p bs out w busy :
      t_writers x !! p = Some (Ready bs) → uartwrite bs (t_busy x) = (out, w, busy) →
      tstep x (mkPort (<[p := after_write w]> (t_writers x)) (t_prints x) (t_irq x) busy
        (foldl to_fifo (t_fifo x) (pair (ByWriter p) <$> out)) (t_pend x) (t_arrived x) (t_rx x) (t_kills x) (t_sent x))
  | st_kill p bs k :
      t_writers x !! p = Some (Asleep bs) → t_kills x = S k →
      tstep x (mkPort (<[p := Ready bs]> (t_writers x)) (t_prints x) (t_irq x) (t_busy x) (t_fifo x) (t_pend x) (t_arrived x) (t_rx x) k (t_sent x))
  (** A kernel printf: the end of the waiting loop, and the store. *)
  | st_poll q b bs :
      t_prints x !! q = Some (b :: bs, false) → putc_waits (regs x) = false →
      tstep x (mkPort (t_writers x) (<[q := (b :: bs, true)]> (t_prints x)) (t_irq x) (t_busy x) (t_fifo x) (t_pend x) (t_arrived x) (t_rx x) (t_kills x) (t_sent x))
  | st_put q b bs :
      t_prints x !! q = Some (b :: bs, true) →
      tstep x (mkPort (t_writers x) (<[q := (bs, false)]> (t_prints x)) (t_irq x) (t_busy x) (to_fifo (t_fifo x) (ByPrint q, b)) (t_pend x) (t_arrived x) (t_rx x) (t_kills x) (t_sent x))
  (** The port sends a byte, and raises an interrupt when none is left. *)
  | st_send y f :
      t_fifo x = y :: f →
      tstep x (mkPort (t_writers x) (t_prints x) (t_irq x) (t_busy x) f (t_pend x || bool_decide (f = [])) (t_arrived x) (t_rx x) (t_kills x) (t_sent x ++ [y]))
  | st_arrive e rx :
      t_rx x = e :: rx →
      tstep x (mkPort (t_writers x) (t_prints x) (t_irq x) (t_busy x) (t_fifo x) (t_pend x) (t_arrived x ++ [e]) rx (t_kills x) (t_sent x))
  (** [uartintr]: the read of ISR, the transmit half, the receive loop. *)
  | st_irq :
      t_irq x = NoIrq → t_pend x = true ∨ t_arrived x ≠ [] →
      tstep x (mkPort (t_writers x) (t_prints x) Acked (t_busy x) (t_fifo x) false (t_arrived x) (t_rx x) (t_kills x) (t_sent x))
  | st_half busy wakes :
      t_irq x = Acked → uartintr_tx (regs x) = (busy, wakes) →
      tstep x (mkPort (if wakes : bool then wake <$> t_writers x else t_writers x) (t_prints x) (Echo [] false) busy (t_fifo x) (t_pend x) (t_arrived x) (t_rx x) (t_kills x) (t_sent x))
  | st_getc e rest :
      t_irq x = Echo [] false → t_arrived x = e :: rest →
      tstep x (mkPort (t_writers x) (t_prints x) (Echo e false) (t_busy x) (t_fifo x) (t_pend x) rest (t_rx x) (t_kills x) (t_sent x))
  | st_echo_poll b bs :
      t_irq x = Echo (b :: bs) false → putc_waits (regs x) = false →
      tstep x (mkPort (t_writers x) (t_prints x) (Echo (b :: bs) true) (t_busy x) (t_fifo x) (t_pend x) (t_arrived x) (t_rx x) (t_kills x) (t_sent x))
  | st_echo b bs :
      t_irq x = Echo (b :: bs) true →
      tstep x (mkPort (t_writers x) (t_prints x) (Echo bs false) (t_busy x) (to_fifo (t_fifo x) (ByEcho, b)) (t_pend x) (t_arrived x) (t_rx x) (t_kills x) (t_sent x))
  | st_done :
      t_irq x = Echo [] false → t_arrived x = [] →
      tstep x (mkPort (t_writers x) (t_prints x) NoIrq (t_busy x) (t_fifo x) (t_pend x) (t_arrived x) (t_rx x) (t_kills x) (t_sent x)).

(** Writers [ws], printfs [ps], characters with the echoes [rx], [k] kills. *)
Definition port0 (ws ps rx : list (list Z)) (k : nat) : Port :=
  mkPort (Ready <$> ws) ((λ bs, (bs, false)) <$> ps) NoIrq false [] false [] rx k [].

(** The bytes of one sender, in order. *)
Definition sent_by (s : Sender) (l : list (Sender * Z)) : list Z := (filter (λ x, x.1 = s) l).*2.
Definition given (ws ps rx : list (list Z)) (s : Sender) : list Z :=
  match s with ByWriter p => default [] (ws !! p) | ByPrint q => default [] (ps !! q) | ByEcho => concat rx end.
(** Every call has returned, and everything has been sent in order. *)
Definition all_sent (ws ps rx : list (list Z)) (x : Port) : Prop :=
  Forall (λ w, w = Returned) (t_writers x) ∧ Forall (λ p, p.1 = []) (t_prints x) ∧ t_irq x = NoIrq ∧ t_fifo x = [] ∧ t_arrived x = [] ∧ t_rx x = [] ∧
  ∀ s, sent_by s (t_sent x) = given ws ps rx s.

(** ** The invariant *)

Definition left_of (w : Writer) : list Z := match w with Ready bs | Asleep bs => bs | Returned => [] end.
Definition echo_left (h : Handler) : list Z := match h with Echo bs _ => bs | _ => [] end.
Definition todo (x : Port) (s : Sender) : list Z :=
  match s with
  | ByWriter p => default [] (left_of <$> t_writers x !! p)
  | ByPrint q => default [] (fst <$> t_prints x !! q)
  | ByEcho => echo_left (t_irq x) ++ concat (t_arrived x) ++ concat (t_rx x)
  end.
Definition past_one (p : list Z * bool) : nat := if p.2 then 1 else 0.
Definition echo_past (h : Handler) : nat := match h with Echo _ true => 1 | _ => 0 end.
(** The callers of [uartputc_sync] that are past their waiting loop. *)
Definition past (x : Port) : nat := sum_list_with past_one (t_prints x) + echo_past (t_irq x).

Record tinv (ws ps rx : list (list Z)) (x : Port) : Prop := {
  v_prints : (length (t_prints x) ≤ 14)%nat;
  v_room : (length (t_fifo x) + past x ≤ S (length (t_prints x)) + if t_busy x then 1 else 0)%nat;
  v_busy : t_busy x = true → t_fifo x ≠ [] ∨ t_pend x = true ∨ t_irq x = Acked;
  v_asleep : ∀ p bs, t_writers x !! p = Some (Asleep bs) → t_busy x = true;
  v_past : (∀ q, t_prints x !! q ≠ Some ([], true)) ∧ t_irq x ≠ Echo [] true;
  v_ledger : ∀ s, sent_by s (t_sent x ++ t_fifo x) ++ todo x s = given ws ps rx s
}.

Lemma sum_with_insert {A} (f : A → nat) l p w w' : l !! p = Some w → (sum_list_with f (<[p := w']> l) + f w = sum_list_with f l + f w')%nat.
Proof.
  revert p. induction l as [|y l IH]; intros [|p] Hp; [done|done|injection Hp as ->; cbn; lia|]. specialize (IH p Hp).
  change (<[S p := w']> (y :: l)) with (y :: <[p := w']> l). cbn [sum_list_with]. lia.
Qed.

Lemma sent_by_app s l l' : sent_by s (l ++ l') = sent_by s l ++ sent_by s l'.
Proof. unfold sent_by. by rewrite filter_app, fmap_app. Qed.
Lemma sent_by_one s s' b : sent_by s [(s', b)] = if decide (s' = s) then [b] else [].
Proof. unfold sent_by. rewrite filter_cons. cbn. by destruct (decide (s' = s)). Qed.

Lemma uartwrite_spec bs busy out w busy' :
  uartwrite bs busy = (out, w, busy') →
  out ++ left_of (after_write w) = bs ∧ (∀ rest, w = WSleeps rest → busy' = true) ∧
  ((out = [] ∧ busy' = busy ∧ (busy = true ∨ w = WReturns)) ∨ ∃ b, out = [b] ∧ busy = false ∧ busy' = true).
Proof.
  destruct bs as [|b bs]; cbn; [intros [= <- <- <-]; split_and!; [done|done|left; split_and!; [done|done|by right]]|].
  destruct busy; [intros [= <- <- <-]; split_and!; [done|done|left; split_and!; [done|done|by left]]|].
  destruct bs as [|b' bs]; cbn; intros [= <- <- <-]; (split_and!; [done|done|right; by exists b]).
Qed.

Lemma putc_idle x : putc_waits (regs x) = false ↔ t_fifo x = [].
Proof. unfold putc_waits, regs. cbn [lsr]. by case_bool_decide. Qed.
Lemma half_cases x busy wakes : uartintr_tx (regs x) = (busy, wakes) → (t_fifo x = [] ∧ busy = false ∧ wakes = true) ∨ (t_fifo x ≠ [] ∧ busy = t_busy x ∧ wakes = false).
Proof. unfold uartintr_tx, regs. cbn [lsr tx_busy]. case_bool_decide; intros [= <- <-]; [by left|by right]. Qed.
Lemma to_fifo_length f y : (length (to_fifo f y) ≤ S (length f))%nat.
Proof. unfold to_fifo. destruct (_ <? _)%nat; rewrite ?length_app; cbn [length]; lia. Qed.
Lemma past_bound l : (sum_list_with past_one l ≤ length l)%nat.
Proof. induction l as [|[? []] l IH]; cbn in *; lia. Qed.
Lemma to_fifo_room f y : (length f < FIFO)%nat → to_fifo f y = f ++ [y].
Proof. intros H. unfold to_fifo. by rewrite (proj2 (Nat.ltb_lt _ _)). Qed.

(** The ledger after bytes of sender [s0] move from what it has to do into the FIFO. *)
Lemma ledger_moves (ws ps rx : list (list Z)) sent f out s0 (t t' : Sender → list Z) :
  (∀ s, sent_by s (sent ++ f) ++ t s = given ws ps rx s) → t s0 = out ++ t' s0 → (∀ s, s ≠ s0 → t' s = t s) →
  ∀ s, sent_by s (sent ++ f ++ (pair s0 <$> out)) ++ t' s = given ws ps rx s.
Proof.
  intros HL H0 Hne s. rewrite <- (HL s), app_assoc, (sent_by_app s (sent ++ f)), <- app_assoc. f_equal.
  assert (E : sent_by s (pair s0 <$> out) = if decide (s0 = s) then out else []).
  { clear. induction out as [|b out IH]; [by destruct (decide (s0 = s))|]. rewrite fmap_cons. change ((s0, b) :: (pair s0 <$> out)) with ([(s0, b)] ++ (pair s0 <$> out)).
    rewrite sent_by_app, sent_by_one, IH. by destruct (decide (s0 = s)). }
  rewrite E. destruct (decide (s0 = s)) as [<-|Hs]; [by rewrite H0|]. rewrite Hne; [done|congruence].
Qed.

Section Step.
Context (ws ps rx : list (list Z)).
#[local] Abbreviation tinv := (tinv ws ps rx).

Lemma step_write x p bs out w busy :
  tinv x → t_writers x !! p = Some (Ready bs) → uartwrite bs (t_busy x) = (out, w, busy) →
  foldl to_fifo (t_fifo x) (pair (ByWriter p) <$> out) = t_fifo x ++ (pair (ByWriter p) <$> out) ∧
  tinv (mkPort (<[p := after_write w]> (t_writers x)) (t_prints x) (t_irq x) busy
        (foldl to_fifo (t_fifo x) (pair (ByWriter p) <$> out)) (t_pend x) (t_arrived x) (t_rx x) (t_kills x) (t_sent x)).
Proof.
  intros [V1 V2 V3 V4 V5 V6] Hp Hw. destruct (uartwrite_spec _ _ _ _ _ Hw) as (Hout & Hsl & Hcase).
  assert (Hf : foldl to_fifo (t_fifo x) (pair (ByWriter p) <$> out) = t_fifo x ++ (pair (ByWriter p) <$> out)).
  { destruct Hcase as [(-> & _)|(b & -> & Eb & _)]; [by rewrite app_nil_r|]. cbn. rewrite to_fifo_room; [done|]. rewrite Eb in V2. unfold FIFO. lia. }
  split; [exact Hf|]. rewrite Hf. split; cbn [t_writers t_prints t_irq t_busy t_fifo t_pend t_arrived t_rx t_sent].
  - done.
  - unfold past in *. cbn [t_prints t_irq]. rewrite length_app, length_fmap. destruct Hcase as [(-> & -> & _)|(b & -> & Eb & ->)]; cbn [length]; [lia|]. rewrite Eb in V2. lia.
  - destruct Hcase as [(-> & -> & _)|(b & -> & _)]; [cbn; rewrite app_nil_r; exact V3|]. intros _. left. by destruct (t_fifo x).
  - intros q bs' Hq. apply list_lookup_insert_Some in Hq as [(<- & Hq & _)|[_ Hq]]; [destruct w; [done|]; by eapply Hsl|].
    pose proof (V4 q bs' Hq) as Eb. destruct Hcase as [(_ & -> & _)|(b & _ & _ & ->)]; done.
  - done.
  - apply (ledger_moves ws ps rx _ _ out (ByWriter p) (todo x)); [exact V6| |].
    + cbn [todo t_writers]. rewrite Hp, list_lookup_insert_eq by (by eapply lookup_lt_Some). cbn. by rewrite Hout.
    + intros [q|q|] Hne; [|done|done]. cbn [todo t_writers]. rewrite list_lookup_insert_ne; [done|congruence].
Qed.

Lemma wake_left w : left_of (wake w) = left_of w.
Proof. by destruct w. Qed.

Lemma step_kill x p bs k :
  tinv x → t_writers x !! p = Some (Asleep bs) →
  tinv (mkPort (<[p := Ready bs]> (t_writers x)) (t_prints x) (t_irq x) (t_busy x) (t_fifo x) (t_pend x) (t_arrived x) (t_rx x) k (t_sent x)).
Proof.
  intros [V1 V2 V3 V4 V5 V6] Hp. split; cbn [t_writers t_prints t_irq t_busy t_fifo t_pend t_arrived t_rx t_sent]; try done.
  - intros q bs' Hq. apply list_lookup_insert_Some in Hq as [(<- & Hq & _)|[_ Hq]]; [done|by apply (V4 q bs')].
  - intros s. rewrite <- (V6 s). f_equal. destruct s as [q|q|]; [|done|done]. cbn [todo t_writers]. destruct (decide (q = p)) as [->|Hne]; [|by rewrite list_lookup_insert_ne].
    rewrite Hp, list_lookup_insert_eq by (by eapply lookup_lt_Some). done.
Qed.

Lemma step_poll x q b bs :
  tinv x → t_prints x !! q = Some (b :: bs, false) → t_fifo x = [] →
  tinv (mkPort (t_writers x) (<[q := (b :: bs, true)]> (t_prints x)) (t_irq x) (t_busy x) (t_fifo x) (t_pend x) (t_arrived x) (t_rx x) (t_kills x) (t_sent x)).
Proof.
  intros [V1 V2 V3 V4 [V5 V5'] V6] Hq Hf. split; cbn [t_writers t_prints t_irq t_busy t_fifo t_pend t_arrived t_rx t_sent]; rewrite ?length_insert; try done.
  - unfold past. cbn [t_prints t_irq]. rewrite Hf. cbn [length].
    assert (Hs : (sum_list_with past_one (<[q:=(b :: bs, true)]> (t_prints x)) ≤ length (t_prints x))%nat).
    { rewrite <- (length_insert (t_prints x) q (b :: bs, true)). apply past_bound. }
    assert (echo_past (t_irq x) ≤ 1)%nat by (destruct (t_irq x) as [| |? []]; cbn; lia). lia.
  - split; [|done]. intros q' Hq'. apply list_lookup_insert_Some in Hq' as [(_ & ? & _)|[_ Hq']]; [done|by apply (V5 q')].
  - intros s. rewrite <- (V6 s). f_equal. destruct s as [q'|q'|]; [done| |done]. cbn [todo t_prints]. destruct (decide (q' = q)) as [->|Hne]; [|by rewrite list_lookup_insert_ne].
    rewrite Hq, list_lookup_insert_eq by (by eapply lookup_lt_Some). done.
Qed.

Lemma step_put x q b bs :
  tinv x → t_prints x !! q = Some (b :: bs, true) →
  tinv (mkPort (t_writers x) (<[q := (bs, false)]> (t_prints x)) (t_irq x) (t_busy x) (to_fifo (t_fifo x) (ByPrint q, b)) (t_pend x) (t_arrived x) (t_rx x) (t_kills x) (t_sent x)).
Proof.
  intros [V1 V2 V3 V4 [V5 V5'] V6] Hq. pose proof (sum_with_insert past_one _ q _ (bs, false) Hq) as Hs. cbn [past_one snd] in Hs.
  unfold past in V2. assert (Hf : to_fifo (t_fifo x) (ByPrint q, b) = t_fifo x ++ [(ByPrint q, b)]) by (apply to_fifo_room; unfold FIFO; destruct (t_busy x); lia).
  rewrite Hf. split; cbn [t_writers t_prints t_irq t_busy t_fifo t_pend t_arrived t_rx t_sent]; rewrite ?length_insert; try done.
  - unfold past. cbn [t_prints t_irq]. rewrite length_app. cbn [length]. lia.
  - intros _. left. by destruct (t_fifo x).
  - split; [|done]. intros q' Hq'. apply list_lookup_insert_Some in Hq' as [(_ & ? & _)|[_ Hq']]; [done|by apply (V5 q')].
  - apply (ledger_moves ws ps rx _ _ [b] (ByPrint q) (todo x)); [exact V6| |].
    + cbn [todo t_prints]. by rewrite Hq, list_lookup_insert_eq by (by eapply lookup_lt_Some).
    + intros [q'|q'|] Hne; [done| |done]. cbn [todo t_prints]. rewrite list_lookup_insert_ne; [done|congruence].
Qed.

Lemma step_echo x b bs :
  tinv x → t_irq x = Echo (b :: bs) true →
  tinv (mkPort (t_writers x) (t_prints x) (Echo bs false) (t_busy x) (to_fifo (t_fifo x) (ByEcho, b)) (t_pend x) (t_arrived x) (t_rx x) (t_kills x) (t_sent x)).
Proof.
  intros [V1 V2 V3 V4 [V5 V5'] V6] Hirq. unfold past in V2. rewrite Hirq in V2. cbn [echo_past] in V2.
  assert (Hf : to_fifo (t_fifo x) (ByEcho, b) = t_fifo x ++ [(ByEcho, b)]) by (apply to_fifo_room; unfold FIFO; destruct (t_busy x); lia).
  rewrite Hf. split; cbn [t_writers t_prints t_irq t_busy t_fifo t_pend t_arrived t_rx t_sent]; try done.
  - unfold past. cbn [t_prints t_irq echo_past]. rewrite length_app. cbn [length]. lia.
  - intros _. left. by destruct (t_fifo x).
  - apply (ledger_moves ws ps rx _ _ [b] ByEcho (todo x)); [exact V6| |].
    + cbn [todo t_irq t_arrived t_rx]. by rewrite Hirq.
    + by intros [q|q|] Hne.
Qed.

Lemma step_half x busy wakes :
  tinv x → t_irq x = Acked → uartintr_tx (regs x) = (busy, wakes) →
  tinv (mkPort (if wakes : bool then wake <$> t_writers x else t_writers x) (t_prints x) (Echo [] false) busy (t_fifo x) (t_pend x) (t_arrived x) (t_rx x) (t_kills x) (t_sent x)).
Proof.
  intros [V1 V2 V3 V4 [V5 V5'] V6] Hirq Hh. unfold past in V2. rewrite Hirq in V2. cbn [echo_past] in V2.
  destruct (half_cases _ _ _ Hh) as [(Hf & -> & ->)|(Hf & -> & ->)]; split; cbn [t_writers t_prints t_irq t_busy t_fifo t_pend t_arrived t_rx t_sent]; try done.
  - unfold past. cbn [t_prints t_irq echo_past]. rewrite Hf in *. cbn [length] in *.
    pose proof (past_bound (t_prints x)). lia.
  - intros p bs Hp. rewrite list_lookup_fmap in Hp. by destruct (t_writers x !! p) as [[]|].
  - intros s. rewrite <- (V6 s). f_equal. destruct s as [p|p|]; [|done|]; cbn [todo t_writers t_irq t_arrived t_rx]; [|by rewrite Hirq].
    rewrite list_lookup_fmap. destruct (t_writers x !! p) as [w|]; [|done]. cbn. by rewrite wake_left.
  - intros Hb. by left.
  - intros s. rewrite <- (V6 s). f_equal. destruct s as [p|p|]; [done|done|]. cbn [todo t_irq t_arrived t_rx]. by rewrite Hirq.
Qed.

Lemma step_inv x y : tinv x → tstep x y → tinv y.
Proof.
  intros I Hst. pose proof I as [V1 V2 V3 V4 [V5 V5'] V6].
  destruct Hst as [p bs out w busy Hp Hw|p bs k Hp Hk|q b bs Hq Hi|q b bs Hq|z f Hf|e rx' Hrx|Hirq Hor|busy wakes Hirq Hh|e rest Hirq Har|b bs Hirq Hi|b bs Hirq|Hirq Har];
    [by apply (step_write x p bs)|by apply step_kill|apply step_poll; [done|done|by apply putc_idle]|by apply step_put| | | |by apply step_half| | |by apply step_echo|].
  all: split; cbn [t_writers t_prints t_irq t_busy t_fifo t_pend t_arrived t_rx t_sent]; unfold past in *; cbn [t_prints t_irq]; try done.
  - rewrite Hf in V2. cbn [length] in V2. lia.
  - intros _. destruct f; [right; left; apply orb_true_r|by left].
  - intros s. rewrite <- app_assoc. rewrite <- (V6 s), Hf. by destruct s.
  - intros s. rewrite <- (V6 s). f_equal. destruct s; [done|done|]. cbn [todo t_irq t_arrived t_rx]. rewrite Hrx, concat_app. cbn [concat]. by rewrite app_nil_r, <- app_assoc.
  - rewrite Hirq in V2. exact V2.
  - intros _. by right; right.
  - intros s. rewrite <- (V6 s). f_equal. destruct s; [done|done|]. cbn [todo t_irq t_arrived t_rx]. by rewrite Hirq.
  - rewrite Hirq in V2. exact V2.
  - intros Hb. destruct (V3 Hb) as [?|[?|?]]; [by left|by right; left|congruence].
  - intros s. rewrite <- (V6 s). f_equal. destruct s; [done|done|]. cbn [todo t_irq t_arrived t_rx]. rewrite Hirq, Har. cbn [echo_left concat app]. by rewrite app_assoc.
  - rewrite Hirq in V2. cbn [echo_past]. apply putc_idle in Hi. rewrite Hi. cbn [length].
    pose proof (past_bound (t_prints x)). lia.
  - intros Hb. destruct (V3 Hb) as [?|[?|?]]; [by left|by right; left|congruence].
  - intros s. rewrite <- (V6 s). f_equal. destruct s; [done|done|]. cbn [todo t_irq t_arrived t_rx]. by rewrite Hirq.
  - rewrite Hirq in V2. exact V2.
  - intros Hb. destruct (V3 Hb) as [?|[?|?]]; [by left|by right; left|congruence].
  - intros s. rewrite <- (V6 s). f_equal. destruct s; [done|done|]. cbn [todo t_irq t_arrived t_rx]. by rewrite Hirq, Har.
Qed.

Lemma port0_inv k : (length ps ≤ 14)%nat → tinv (port0 ws ps rx k).
Proof.
  intros Hps. split; cbn [port0 t_writers t_prints t_irq t_busy t_fifo t_pend t_arrived t_rx t_sent]; rewrite ?length_fmap; try done.
  - unfold past. cbn [port0 t_prints t_irq echo_past length]. assert (E : sum_list_with past_one ((λ bs, (bs, false)) <$> ps) = 0%nat) by (clear; induction ps; cbn; done). lia.
  - intros p bs Hp. rewrite list_lookup_fmap in Hp. by destruct (ws !! p).
  - split; [|done]. intros q Hq. rewrite list_lookup_fmap in Hq. by destruct (ps !! q).
  - intros [p|q|]; unfold port0; cbn [todo given t_writers t_prints t_irq t_arrived t_rx app echo_left concat]; [| |done]; rewrite list_lookup_fmap; [by destruct (ws !! p)|by destruct (ps !! q)].
Qed.

(** ** Progress *)

Lemma tport_progress x : tinv x → all_sent ws ps rx x ∨ ∃ y, tstep x y.
Proof.
  intros [V1 V2 V3 V4 [V5 V5'] V6]. destruct (t_fifo x) as [|z f] eqn:Ef; [|right; eexists; by eapply st_send].
  assert (Hidle : putc_waits (regs x) = false) by by apply putc_idle.
  destruct (t_irq x) as [| |bs past] eqn:Eirq.
  2:{ right. destruct (uartintr_tx (regs x)) as [busy wakes] eqn:Eh. eexists. by eapply st_half. }
  2:{ right. destruct past; [destruct bs as [|b bs]; [done|]; eexists; by eapply st_echo|].
      destruct bs as [|b bs]; [|eexists; by eapply st_echo_poll]. destruct (t_arrived x) eqn:Ea; [eexists; by eapply st_done|eexists; by eapply st_getc]. }
  destruct (t_rx x) as [|e rx'] eqn:Erx; [|right; eexists; by eapply st_arrive].
  destruct (t_arrived x) as [|e l] eqn:Ea; [|right; eexists; apply st_irq; [done|right; by rewrite Ea]].
  destruct (t_pend x) eqn:Ep; [right; eexists; apply st_irq; [done|by left]|].
  assert (Hb : t_busy x = false) by (destruct (t_busy x); [by destruct (V3 eq_refl) as [?|[?|?]]|done]).
  destruct (decide (Exists (λ p, p.1 ≠ []) (t_prints x))) as [Hex|Hnone].
  { right. apply Exists_exists in Hex as ([bs past] & Hin & Hne). apply list_elem_of_lookup in Hin as [q Hq]. cbn in Hne. destruct bs as [|b bs]; [done|].
    destruct past; eexists; [by eapply st_put|by eapply st_poll]. }
  destruct (decide (Exists (λ w, w ≠ Returned) (t_writers x))) as [Hex|Hall].
  { right. apply Exists_exists in Hex as (w & Hin & Hne). apply list_elem_of_lookup in Hin as [p Hp]. destruct w as [bs|bs|]; [| |done].
    - destruct (uartwrite bs (t_busy x)) as [[out w] busy] eqn:Ew. eexists. by eapply st_write.
    - rewrite (V4 p bs Hp) in Hb. done. }
  left. assert (Hw : Forall (λ w, w = Returned) (t_writers x)).
  { apply Forall_forall. intros w Hin. destruct (decide (w = Returned)); [done|]. destruct Hall. apply Exists_exists. by exists w. }
  assert (Hp : Forall (λ p, p.1 = []) (t_prints x)).
  { apply Forall_forall. intros p Hin. destruct (decide (p.1 = [])); [done|]. destruct Hnone. apply Exists_exists. by exists p. }
  split_and!; [done..|]. intros s. rewrite <- (V6 s). rewrite app_nil_r.
  assert (E : todo x s = []); [|by rewrite E, app_nil_r]. rewrite Forall_lookup in Hw. rewrite Forall_lookup in Hp.
  destruct s as [p|q|]; cbn [todo]; [| |by rewrite Eirq, Ea, Erx].
  - destruct (t_writers x !! p) as [w|] eqn:E; [|done]. by rewrite (Hw p w E).
  - destruct (t_prints x !! q) as [y|] eqn:E; [|done]. exact (Hp q y E).
Qed.
End Step.

(** ** Termination

    [n] writers may be woken by an interrupt, which costs [n + 3] steps at
    most; a byte in the FIFO raises at most one interrupt. *)

Definition irq_cost (n : nat) : nat := n + 3.
Definition byte_cost (n : nat) : nat := n + 5.
Definition put_cost (n : nat) : nat := n + 7.
Definition w_weight (n : nat) (w : Writer) : nat := (match w with Ready _ => 1 | _ => 0 end) + byte_cost n * length (left_of w).
Definition p_weight (n : nat) (p : list Z * bool) : nat := put_cost n * length p.1 + if p.2 then 0 else 1.
Definition c_weight (n : nat) (e : list Z) : nat := 1 + put_cost n * length e.
Definition h_weight (n : nat) (x : Port) : nat :=
  match t_irq x with
  | NoIrq => match t_arrived x with [] => 0 | _ => S (irq_cost n) end
  | Acked => irq_cost n
  | Echo bs past => S (p_weight n (bs, past))
  end.
Definition t_weight (n : nat) (x : Port) : nat :=
  (sum_list_with (w_weight n) (t_writers x) + sum_list_with (p_weight n) (t_prints x) + h_weight n x + byte_cost n * length (t_fifo x) +
  (if t_pend x then S (irq_cost n) else 0) + sum_list_with (c_weight n) (t_arrived x) + sum_list_with (λ e, S (S (c_weight n e + irq_cost n))) (t_rx x) + 2 * t_kills x)%nat.

Lemma sum_with_app {A} (f : A → nat) l k : sum_list_with f (l ++ k) = (sum_list_with f l + sum_list_with f k)%nat.
Proof. induction l as [|a l IH]; cbn; lia. Qed.
Lemma woken_weight n l : (sum_list_with (w_weight n) (wake <$> l) ≤ sum_list_with (w_weight n) l + length l)%nat.
Proof.
  induction l as [|w l IH]; [done|]. rewrite fmap_cons. cbn [sum_list_with length].
  assert (w_weight n (wake w) ≤ w_weight n w + 1)%nat by (destruct w; unfold w_weight; cbn [wake left_of]; lia). lia.
Qed.

Lemma step_weight ws ps rx n x y : tinv ws ps rx x → length (t_writers x) = n → tstep x y → length (t_writers y) = n ∧ (t_weight n y < t_weight n x)%nat.
Proof.
  intros I Hn Hst.
  destruct Hst as [p bs out w busy Hp Hw|p bs k Hp Hk|q b bs Hq Hi|q b bs Hq|z f Hf|e rx' Hrx|Hirq Hor|busy wakes Hirq Hh|e rest Hirq Har|b bs Hirq Hi|b bs Hirq|Hirq Har].
  1: destruct (step_write ws ps rx x p bs out w busy I Hp Hw) as [Ef _]; rewrite Ef.
  all: unfold t_weight, h_weight; cbn [t_writers t_prints t_irq t_busy t_fifo t_pend t_arrived t_rx t_kills t_sent]; rewrite ?length_insert; (split; [try exact Hn|]).
  - rewrite length_app, length_fmap. pose proof (sum_with_insert (w_weight n) _ p _ (after_write w) Hp) as E. unfold w_weight at 2 4 in E. cbn [left_of] in E.
    destruct (uartwrite_spec _ _ _ _ _ Hw) as (Hout & _ & Hcase). assert (Hlen : length bs = (length out + length (left_of (after_write w)))%nat) by (by rewrite <- Hout, length_app).
    rewrite Hlen in E. destruct w; cbn [after_write left_of] in E |- *; rewrite ?Nat.mul_add_distr_l in *; lia.
  - pose proof (sum_with_insert (w_weight n) _ p _ (Ready bs) Hp) as E. unfold w_weight at 2 4 in E. cbn [left_of] in E. rewrite Hk. lia.
  - pose proof (sum_with_insert (p_weight n) _ q _ (b :: bs, true) Hq) as E. unfold p_weight at 2 4 in E. cbn [fst snd] in E. lia.
  - pose proof (sum_with_insert (p_weight n) _ q _ (bs, false) Hq) as E. unfold p_weight at 2 4 in E. cbn [fst snd length] in E.
    pose proof (to_fifo_length (t_fifo x) (ByPrint q, b)). unfold put_cost, byte_cost in *. nia.
  - rewrite Hf. cbn [length]. unfold byte_cost, irq_cost. destruct (t_pend x), (bool_decide (f = [])); cbn [orb]; lia.
  - rewrite Hrx, sum_with_app. cbn [sum_list_with]. destruct (t_irq x); [destruct (t_arrived x)| |]; cbn [app]; lia.
  - rewrite Hirq. destruct (t_pend x); [destruct (t_arrived x); lia|]. destruct Hor as [?|Hor]; [done|]. destruct (t_arrived x); [done|lia].
  - by destruct wakes; rewrite ?length_fmap.
  - rewrite Hirq. unfold p_weight at 2, irq_cost. cbn [fst snd length]. pose proof (woken_weight n (t_writers x)). destruct wakes; lia.
  - rewrite Hirq, Har. unfold p_weight, c_weight. cbn [fst snd length sum_list_with]. lia.
  - rewrite Hirq. unfold p_weight. cbn [fst snd length]. lia.
  - rewrite Hirq. unfold p_weight. cbn [fst snd length]. pose proof (to_fifo_length (t_fifo x) (ByEcho, b)). unfold put_cost, byte_cost in *. nia.
  - rewrite Hirq, Har. unfold p_weight. cbn [fst snd length]. lia.
Qed.

Lemma sends_inevitable ws ps rx n m x : (t_weight n x < m)%nat → length (t_writers x) = n → tinv ws ps rx x → inevitable tstep (all_sent ws ps rx) x.
Proof.
  revert x. induction m as [|m IH]; intros x Hm Hn I; [lia|]. destruct (tport_progress ws ps rx x I) as [Hall|[y Hy]]; [by apply inev_now|].
  apply (inev_later _ _ _ y Hy). intros z Hz. destruct (step_weight ws ps rx n x z I Hn Hz) as [Hn' Hlt]. apply IH; [lia|done|by eapply step_inv].
Qed.

(** C19: the transmitter is live.  Processes in [uartwrite] that sleep on
    [tx_chan] run again only after the [wakeup] of a transmit interrupt or a
    kill; at most 14 kernel printfs and the interrupt handler, which echoes what
    it receives, store to the same register without setting [tx_busy].  However
    they interleave, every run reaches a state in which every call has returned,
    and the port has sent exactly the bytes of each in order: no sleeper is
    forgotten and no byte is lost in the FIFO. *)
Theorem uart_sends_all (ws ps rx : list (list Z)) (k : nat) (Hps : (length ps ≤ 14)%nat) :
  inevitable tstep (all_sent ws ps rx) (port0 ws ps rx k).
Proof.
  apply (sends_inevitable ws ps rx (length (t_writers (port0 ws ps rx k))) (S (t_weight (length (t_writers (port0 ws ps rx k))) (port0 ws ps rx k)))); [lia|done|by apply port0_inv].
Qed.

(** Two writers, a printf and a backspace that is echoed as three characters. *)
Lemma uart_sends_all_witness : inevitable tstep (all_sent [[104; 105]; [33]] [[112]] [[8; 32; 8]]) (port0 [[104; 105]; [33]] [[112]] [[8; 32; 8]] 1).
Proof. apply (uart_sends_all [[104; 105]; [33]] [[112]] [[8; 32; 8]] 1). cbn. lia. Defined.
