(* ===== verification/KLogic.v ===== *)
(** * Reasoning about kernel paths

    [wp E m Q s]: started in [s], the path [m] never panics, never spins
    forever and never meets undefined behaviour; whenever it gives the
    processor up it is in a state the environment [E] accepts, and it goes on
    from any state [E] may resume it in; if it ends, it ends in [Q].

    [s ≡k t]: the states agree except for the saved interrupt flag of a hart
    that holds no lock, which every [push_off] overwrites. *)

From S2P Require Import Prelude CString Kernel.
Open Scope Z_scope.

Record Env := mkEnv { guar : KState → Prop; rely : KState → KState → Prop }.

(** The environment of a path that must not give the processor up. *)
Definition Atomic : Env := mkEnv (λ _, False) (λ _ _, False).

Fixpoint wp_run {A} (E : Env) (Q : A → KState → Prop) (r : Run A) : Prop :=
  match r with
  | Ret a s => Q a s
  | Halt _ => False
  | Sched s k => guar E s ∧ ∀ s', rely E s s' → wp_run E Q (k s')
  end.

Definition wp {A} (E : Env) (m : M A) (Q : A → KState → Prop) (s : KState) : Prop :=
  wp_run E Q (m s).

(** ** Structural rules *)

Lemma wp_run_bind {A B} E (f : A → M B) Q (r : Run A) :
  wp_run E Q (run_bind f r) ↔ wp_run E (λ a s, wp E (f a) Q s) r.
Proof.
  induction r as [a s|e|s k IH]; cbn; [done|done|].
  split; intros [Hg Hk]; (split; [done|]); intros s' Hr; apply IH; auto.
Qed.

Lemma wp_bind {A B} E (m : M A) (f : A → M B) Q s :
  wp E m (λ a s', wp E (f a) Q s') s → wp E (m ≫= f) Q s.
Proof. intros H. by apply wp_run_bind. Qed.

Lemma wp_run_mono {A} E (Q Q' : A → KState → Prop) r :
  wp_run E Q r → (∀ a s, Q a s → Q' a s) → wp_run E Q' r.
Proof.
  intros H Himp. induction r as [a s|e|s k IH]; cbn in *; [by apply Himp|done|].
  destruct H as [Hg Hk]. split; [done|]. intros s' Hr. apply IH, Hk, Hr.
Qed.

Lemma wp_mono {A} E (m : M A) (Q Q' : A → KState → Prop) s :
  wp E m Q s → (∀ a s', Q a s' → Q' a s') → wp E m Q' s.
Proof. apply wp_run_mono. Qed.

Lemma wp_ret {A} E (a : A) (Q : A → KState → Prop) s : Q a s → wp E (mret a) Q s.
Proof. done. Qed.
Lemma wp_gets {A} E (f : KState → A) (Q : A → KState → Prop) s : Q (f s) s → wp E (gets f) Q s.
Proof. done. Qed.
Lemma wp_modify E f (Q : unit → KState → Prop) s : Q tt (f s) → wp E (modify f) Q s.
Proof. done. Qed.
Lemma wp_need {A} E (o : option A) (a : A) (Q : A → KState → Prop) s :
  o = Some a → Q a s → wp E (need o) Q s.
Proof. by intros ->. Qed.

(** A path that does not give the processor up returns. *)
Lemma wp_atomic {A} (m : M A) Q s : wp Atomic m Q s ↔ ∃ a s', m s = Ret a s' ∧ Q a s'.
Proof.
  unfold wp. destruct (m s) as [a s'|e|s' k]; cbn; split.
  - intros H. eauto.
  - intros (? & ? & [= <- <-] & H). done.
  - done.
  - by intros (? & ? & ? & ?).
  - by intros [[] ?].
  - by intros (? & ? & ? & ?).
Qed.

(** The same for a known result. *)
Lemma wp_returns {A} (m : M A) (a : A) (P : KState → Prop) s :
  wp Atomic m (λ r s', r = a ∧ P s') s → ∃ s', m s = Ret a s' ∧ P s'.
Proof. intros (? & s' & Hr & -> & HP)%wp_atomic. eauto. Qed.

Lemma wp_of_atomic {A} E (m : M A) Q s : wp Atomic m Q s → wp E m Q s.
Proof. intros (a & s' & Heq & HQ)%wp_atomic. unfold wp. by rewrite Heq. Qed.

(** Giving the processor up. *)
Lemma wp_swtch E (Q : unit → KState → Prop) s :
  guar E s → (∀ s', rely E s s' → Q tt s') → wp E swtch Q s.
Proof. done. Qed.

(** A loop whose body may return: [J] holds between rounds. *)
Lemma wp_for_each {A R} E (f : A → M (option R)) (J : list A → KState → Prop)
  (Q : option R → KState → Prop) l done s :
  J done s →
  (∀ pre x suf s, l = pre ++ x :: suf → J (done ++ pre) s →
     wp E (f x) (λ r s', match r with Some v => Q (Some v) s' | None => J (done ++ pre ++ [x]) s' end) s) →
  (∀ s, J (done ++ l) s → Q None s) →
  wp E (for_each f l) Q s.
Proof.
  revert done s. induction l as [|x l IH]; intros done s HJ Hstep Hend; cbn [for_each].
  - apply wp_ret, Hend. by rewrite app_nil_r.
  - apply wp_bind. eapply wp_mono.
    { apply (Hstep [] x l); [done|]. by rewrite app_nil_r. }
    intros [v|] s' Hr; [by apply wp_ret|].
    cbn in Hr. apply (IH (done ++ [x])); [done| |].
    + intros pre y suf t -> HJ'. rewrite <- app_assoc in HJ'.
      eapply wp_mono; [by apply (Hstep (x :: pre) y suf)|].
      intros [v|] t' Ht; [done|]. by rewrite <- app_assoc.
    + intros t Ht. apply Hend. by rewrite <- app_assoc in Ht.
Qed.

#[global] Arguments wp : simpl never.
#[global] Arguments Z.testbit : simpl never.

(** ** States up to the saved interrupt flag *)

Definition erase (y : Sync) : Sync :=
  mkSync (y_locks y) (y_hart y)
    (mkCpu (c_proc (y_cpu y)) (noff (y_cpu y))
       (if noff (y_cpu y) =? 0 then false else intena (y_cpu y))) (y_sie y).

Definition keq (s t : KState) : Prop := erase (syn s) = erase (syn t) ∧ dat s = dat t.
Infix "≡k" := keq (at level 70, no associativity) : os_scope.
Open Scope os_scope.

Global Instance keq_equiv : Equivalence keq.
Proof.
  unfold keq. split; [done|by intros ? ? [-> ->]|by intros ? ? ? [-> ->] [-> ->]].
Qed.

Lemma keq_locks s t : s ≡k t → locks s = locks t. Proof. intros [H _]. exact (f_equal y_locks H). Qed.
Lemma keq_hart s t : s ≡k t → hart s = hart t. Proof. intros [H _]. exact (f_equal y_hart H). Qed.
Lemma keq_sie s t : s ≡k t → sie s = sie t. Proof. intros [H _]. exact (f_equal y_sie H). Qed.
Lemma keq_noff s t : s ≡k t → noff (cpu s) = noff (cpu t).
Proof. intros [H _]. exact (f_equal (λ y, noff (y_cpu y)) H). Qed.
Lemma keq_proc s t : s ≡k t → c_proc (cpu s) = c_proc (cpu t).
Proof. intros [H _]. exact (f_equal (λ y, c_proc (y_cpu y)) H). Qed.
Lemma keq_intena s t : s ≡k t → noff (cpu t) ≠ 0 → intena (cpu s) = intena (cpu t).
Proof.
  intros Heq Hne. pose proof (keq_noff _ _ Heq) as Hn. destruct Heq as [H _].
  apply (f_equal (λ y, intena (y_cpu y))) in H. cbn in H.
  rewrite Hn in H. by destruct (Z.eqb_spec (noff (y_cpu (syn t))) 0).
Qed.
Lemma keq_dat s t : s ≡k t → dat s = dat t. Proof. by intros [_ ?]. Qed.
Lemma keq_intro s t :
  locks s = locks t → hart s = hart t → sie s = sie t → c_proc (cpu s) = c_proc (cpu t) →
  noff (cpu s) = noff (cpu t) → (noff (cpu t) ≠ 0 → intena (cpu s) = intena (cpu t)) →
  dat s = dat t → s ≡k t.
Proof.
  intros H1 H2 H3 H4 H5 H6 H7. split; [|done]. unfold erase.
  rewrite H1, H2, H3, H4, H5. destruct (Z.eqb_spec (noff (y_cpu (syn t))) 0); [done|]. by rewrite H6.
Qed.

Lemma keq_ram s t : s ≡k t → ram s = ram t. Proof. intros [_ H]. exact (f_equal d_ram H). Qed.
Lemma keq_freelist s t : s ≡k t → freelist s = freelist t. Proof. intros [_ H]. exact (f_equal d_freelist H). Qed.
Lemma keq_procs s t : s ≡k t → procs s = procs t. Proof. intros [_ H]. exact (f_equal d_procs H). Qed.
Lemma keq_initproc s t : s ≡k t → initproc s = initproc t. Proof. intros [_ H]. exact (f_equal d_initproc H). Qed.
Lemma keq_nextpid s t : s ≡k t → nextpid s = nextpid t. Proof. intros [_ H]. exact (f_equal d_nextpid H). Qed.
Lemma keq_ticks s t : s ≡k t → ticks s = ticks t. Proof. intros [_ H]. exact (f_equal d_ticks H). Qed.
Lemma keq_mailbox s t : s ≡k t → mailbox s = mailbox t. Proof. intros [_ H]. exact (f_equal d_mailbox H). Qed.
Lemma keq_mailbox_init s t : s ≡k t → mailbox_init s = mailbox_init t. Proof. intros [_ H]. exact (f_equal d_mailbox_init H). Qed.
Lemma keq_csr s t : s ≡k t → csr s = csr t. Proof. intros [_ H]. exact (f_equal d_csr H). Qed.
Lemma keq_ftable s t : s ≡k t → ftable s = ftable t. Proof. intros [_ H]. exact (f_equal d_ftable H). Qed.
Lemma keq_itable s t : s ≡k t → itable s = itable t. Proof. intros [_ H]. exact (f_equal d_itable H). Qed.
Lemma keq_fs s t : s ≡k t → fs s = fs t. Proof. intros [_ H]. exact (f_equal d_fs H). Qed.
Lemma keq_forkret_first s t : s ≡k t → forkret_first s = forkret_first t. Proof. intros [_ H]. exact (f_equal d_forkret_first H). Qed.
Lemma keq_kernel_pagetable s t : s ≡k t → kernel_pagetable s = kernel_pagetable t. Proof. intros [_ H]. exact (f_equal d_kernel_pagetable H). Qed.

(** Updates of the data respect the equivalence. *)
Global Instance set_ram_proper v : Proper (keq ==> keq) (set_ram v).
Proof. intros s t [H1 H2]. unfold set_ram. split; [exact H1|]. cbn. by rewrite H2. Qed.
Global Instance set_freelist_proper v : Proper (keq ==> keq) (set_freelist v).
Proof. intros s t [H1 H2]. unfold set_freelist. split; [exact H1|]. cbn. by rewrite H2. Qed.
Global Instance set_procs_proper v : Proper (keq ==> keq) (set_procs v).
Proof. intros s t [H1 H2]. unfold set_procs. split; [exact H1|]. cbn. by rewrite H2. Qed.
Global Instance set_initproc_proper v : Proper (keq ==> keq) (set_initproc v).
Proof. intros s t [H1 H2]. unfold set_initproc. split; [exact H1|]. cbn. by rewrite H2. Qed.
Global Instance set_nextpid_proper v : Proper (keq ==> keq) (set_nextpid v).
Proof. intros s t [H1 H2]. unfold set_nextpid. split; [exact H1|]. cbn. by rewrite H2. Qed.
Global Instance set_ticks_proper v : Proper (keq ==> keq) (set_ticks v).
Proof. intros s t [H1 H2]. unfold set_ticks. split; [exact H1|]. cbn. by rewrite H2. Qed.
Global Instance set_mailbox_proper v : Proper (keq ==> keq) (set_mailbox v).
Proof. intros s t [H1 H2]. unfold set_mailbox. split; [exact H1|]. cbn. by rewrite H2. Qed.
Global Instance set_mailbox_init_proper v : Proper (keq ==> keq) (set_mailbox_init v).
Proof. intros s t [H1 H2]. unfold set_mailbox_init. split; [exact H1|]. cbn. by rewrite H2. Qed.
Global Instance set_csr_proper v : Proper (keq ==> keq) (set_csr v).
Proof. intros s t [H1 H2]. unfold set_csr. split; [exact H1|]. cbn. by rewrite H2. Qed.
Global Instance set_ftable_proper v : Proper (keq ==> keq) (set_ftable v).
Proof. intros s t [H1 H2]. unfold set_ftable. split; [exact H1|]. cbn. by rewrite H2. Qed.
Global Instance set_itable_proper v : Proper (keq ==> keq) (set_itable v).
Proof. intros s t [H1 H2]. unfold set_itable. split; [exact H1|]. cbn. by rewrite H2. Qed.
Global Instance set_kernel_pagetable_proper v : Proper (keq ==> keq) (set_kernel_pagetable v).
Proof. intros s t [H1 H2]. unfold set_kernel_pagetable. split; [exact H1|]. cbn. by rewrite H2. Qed.

Global Instance set_fs_proper v : Proper (keq ==> keq) (set_fs v).
Proof. intros s t [H1 H2]. unfold set_fs. split; [exact H1|]. cbn. by rewrite H2. Qed.

Create HintDb kern.
#[export] Hint Resolve wp_ret wp_gets wp_modify : kern.

(** One step of symbolic execution of a primitive. *)
Ltac kstep :=
  lazymatch goal with
  | |- wp _ (_ ≫= _) _ _ => apply wp_bind
  | |- wp _ (mbind _ _) _ _ => apply wp_bind
  | |- wp _ (mret _) _ _ => apply wp_ret
  | |- wp _ (gets _) _ _ => apply wp_gets
  | |- wp _ (modify _) _ _ => apply wp_modify
  | |- wp _ (need _) _ _ => eapply wp_need; [by eauto|]
  | |- wp _ (when true _) _ _ => unfold when
  | |- wp _ (when false _) _ _ => unfold when
  | |- wp _ (λ _, _) _ _ => fail
  end.
Ltac ksteps := repeat (kstep; cbn beta iota).

(** Evaluation of a path on a symbolic state, for the low-level operations. *)
Ltac keval := unfold mbind, M_bind, mret, M_ret, gets, modify, need, when, halt, panic; cbn.
