(* ===== verification/KEquiv.v ===== *)
(** * Equivalence of kernel paths

    Two runs are equivalent when they give the processor up in the same
    states, go on alike from every state they are resumed in, and end with the
    same result or the same halt.  It is equality up to the functions inside
    [Sched]; the monad laws hold for it. *)

From S2P Require Import Prelude Kernel.

Fixpoint run_eqv {A} (r1 r2 : Run A) : Prop :=
  match r1, r2 with
  | Ret a s, Ret b t => a = b ∧ s = t
  | Halt e, Halt e' => e = e'
  | Sched s k, Sched t k' => s = t ∧ ∀ u, run_eqv (k u) (k' u)
  | _, _ => False
  end.
Global Instance run_equiv {A} : Equiv (Run A) := run_eqv.
Global Instance M_equiv {A} : Equiv (M A) := λ m m', ∀ s, run_eqv (m s) (m' s).

Global Instance run_equivalence {A} : Equivalence (≡@{Run A}).
Proof.
  split; unfold equiv, run_equiv.
  - intros r. induction r as [| |s k IH]; cbn; [done|done|]. split; [done|apply IH].
  - intros r. induction r as [| |s k IH]; intros [| |t k']; cbn; try done; [by intros [-> ->]|].
    intros [-> Hk]. split; [done|]. intros u. apply IH, Hk.
  - intros r. induction r as [| |s k IH]; intros [| |t k'] [| |v k'']; cbn; try done.
    + by intros [-> ->].
    + by intros ->.
    + intros [-> Hk] [-> Hk']. split; [done|]. intros u. by eapply IH.
Qed.
Global Instance M_equivalence {A} : Equivalence (≡@{M A}).
Proof.
  split.
  - intros m s. apply (reflexivity (R := equiv) (m s)).
  - intros m m' H s. apply (symmetry (R := equiv) (H s)).
  - intros m m' m'' H H' s. exact (transitivity (R := equiv) (H s) (H' s)).
Qed.

Lemma run_bind_proper {A B} (f g : A → M B) r r' : r ≡ r' → (∀ a, f a ≡ g a) → run_bind f r ≡ run_bind g r'.
Proof.
  intros Hr Hf. revert r' Hr. induction r as [a s|e|s k IH]; intros [b t|e'|t k']; unfold equiv, run_equiv in *; cbn; try done.
  - intros [-> ->]. apply Hf.
  - intros [-> Hk]. split; [done|]. intros u. by apply IH.
Qed.
Lemma bind_cong {A B} (m m' : M A) (f g : A → M B) : m ≡ m' → (∀ a, f a ≡ g a) → m ≫= f ≡ m' ≫= g.
Proof. intros Hm Hf s. apply run_bind_proper; [apply Hm|exact Hf]. Qed.
Lemma bind_cong_r {A B} (m : M A) (f g : A → M B) : (∀ a, f a ≡ g a) → m ≫= f ≡ m ≫= g.
Proof. by apply bind_cong. Qed.

Lemma bind_assoc {A B C} (m : M A) (f : A → M B) (g : B → M C) : (m ≫= f) ≫= g ≡ m ≫= (λ a, f a ≫= g).
Proof.
  intros s. unfold mbind, M_bind. induction (m s) as [a t|e|t k IH]; cbn; [|done|by split].
  apply (reflexivity (R := equiv)).
Qed.
Lemma bind_ret_l {A B} (a : A) (f : A → M B) : mret a ≫= f ≡ f a.
Proof. intros s. apply (reflexivity (R := equiv)). Qed.
Lemma halt_bind {A B} e (f : A → M B) : halt e ≫= f ≡ halt e.
Proof. done. Qed.
