(* ===== verification/Spinlock.v ===== *)
(** * spinlock.c

    The lock operations as kernel paths on one hart, with the exact state they
    leave; the interleaving of several harts is in [SpinlockRace]. *)

From S2P Require Import Prelude CString Kernel KLogic.
Open Scope Z_scope.
Open Scope os_scope.

(** [intr_get], [intr_off], [intr_on] of riscv.h. *)
Definition intr_get : M bool := gets (λ s, sie s).
Definition intr_off : M unit := modify (set_sie false).
Definition intr_on : M unit := modify (set_sie true).

Definition mycpu : M Cpu := gets (λ s, cpu s).

Definition initlock (lk : lockid) (name : string) : M unit :=
  modify (λ s, set_locks (<[lk := mkLock 0 name None]> (locks s)) s).

Definition get_lock (lk : lockid) : M spinlock := o ← gets (λ s, locks s !! lk); need o.

Definition push_off : M unit :=
  old ← intr_get;
  intr_off;;
  c ← mycpu;
  when (noff c =? 0) (modify (λ s, set_cpu (mkCpu (c_proc (cpu s)) (noff (cpu s)) old) s));;
  modify (λ s, set_cpu (mkCpu (c_proc (cpu s)) (noff (cpu s) + 1) (intena (cpu s))) s).

Definition pop_off : M unit :=
  on ← intr_get;
  if (on : bool) then panic "pop_off - interruptible" else
  c ← mycpu;
  if noff c <? 1 then panic "pop_off" else
  modify (λ s, set_cpu (mkCpu (c_proc (cpu s)) (noff (cpu s) - 1) (intena (cpu s))) s);;
  c ← mycpu;
  when ((noff c =? 0) && intena c) intr_on.

Definition holding (lk : lockid) : M bool :=
  l ← get_lock lk;
  h ← gets (λ s, hart s);
  mret (negb (locked l =? 0) && bool_decide (lk_cpu l = Some h)).

(** The test-and-set loop: on a hart that runs alone a lock that is taken is
    never released, and the loop does not end. *)
Definition test_and_set (lk : lockid) : M unit :=
  l ← get_lock lk;
  if locked l =? 0
  then modify (λ s, set_locks (<[lk := mkLock 1 (lk_name l) (lk_cpu l)]> (locks s)) s)
  else halt Spin.

Definition set_lock_cpu (lk : lockid) (c : option nat) : M unit :=
  l ← get_lock lk;
  modify (λ s, set_locks (<[lk := mkLock (locked l) (lk_name l) c]> (locks s)) s).

Definition lock_release (lk : lockid) : M unit :=
  l ← get_lock lk;
  modify (λ s, set_locks (<[lk := mkLock 0 (lk_name l) (lk_cpu l)]> (locks s)) s).

Definition acquire (lk : lockid) : M unit :=
  push_off;;
  h ← holding lk;
  if (h : bool) then panic "acquire" else
  test_and_set lk;;
  i ← gets (λ s, hart s);
  set_lock_cpu lk (Some i).

Definition release (lk : lockid) : M unit :=
  h ← holding lk;
  if negb h then panic "release" else
  set_lock_cpu lk None;;
  lock_release lk;;
  pop_off.

(** [myproc] of proc.c: interrupts stay off while the cpu structure is read. *)
Definition myproc : M (option nat) :=
  push_off;;
  c ← mycpu;
  pop_off;;
  mret (c_proc c).

(** ** States *)

(** The lock exists and nobody holds it. *)
Definition lock_free (s : KState) (l : lockid) : Prop :=
  ∃ nm, locks s !! l = Some (mkLock 0 nm None).
(** This hart holds the lock. *)
Definition lock_mine (s : KState) (l : lockid) : Prop :=
  ∃ nm, locks s !! l = Some (mkLock 1 nm (Some (hart s))).
(** A hart that holds a lock or nests [push_off] has its interrupts off. *)
Definition sync_ok (s : KState) : Prop := 0 ≤ noff (cpu s) ∧ (0 < noff (cpu s) → sie s = false).

Definition lname (s : KState) (l : lockid) : string :=
  from_option lk_name EmptyString (locks s !! l).

Definition pushed (s : KState) : KState :=
  mkK (mkSync (locks s) (hart s)
         (mkCpu (c_proc (cpu s)) (noff (cpu s) + 1)
            (if noff (cpu s) =? 0 then sie s else intena (cpu s))) false) (dat s).
Definition popped (s : KState) : KState :=
  mkK (mkSync (locks s) (hart s)
         (mkCpu (c_proc (cpu s)) (noff (cpu s) - 1) (intena (cpu s)))
         (if (noff (cpu s) =? 1) && intena (cpu s) then true else sie s)) (dat s).

(** The state [acquire] and [release] leave. *)
Definition acq (l : lockid) (s : KState) : KState :=
  set_locks (<[l := mkLock 1 (lname s l) (Some (hart s))]> (locks s)) (pushed s).
Definition rel (l : lockid) (s : KState) : KState :=
  popped (set_locks (<[l := mkLock 0 (lname s l) None]> (locks s)) s).

Global Instance lock_free_proper : Proper (keq ==> eq ==> iff) lock_free.
Proof. intros s t H l ? <-. unfold lock_free. by rewrite (keq_locks _ _ H). Qed.
Global Instance lock_mine_proper : Proper (keq ==> eq ==> iff) lock_mine.
Proof. intros s t H l ? <-. unfold lock_mine. by rewrite (keq_locks _ _ H), (keq_hart _ _ H). Qed.
Global Instance sync_ok_proper : Proper (keq ==> iff) sync_ok.
Proof. intros s t H. unfold sync_ok. by rewrite (keq_noff _ _ H), (keq_sie _ _ H). Qed.

Lemma lname_free s l nm c k : locks s !! l = Some (mkLock k nm c) → lname s l = nm.
Proof. unfold lname. by intros ->. Qed.

(** ** Execution of the operations *)

Lemma run_push_off s : push_off s = Ret tt (pushed s).
Proof.
  unfold push_off, pushed. keval. by destruct (noff (cpu s) =? 0).
Qed.

Lemma run_pop_off s : sie s = false → 1 ≤ noff (cpu s) → pop_off s = Ret tt (popped s).
Proof.
  intros Hoff Hn. unfold pop_off, popped. keval. rewrite Hoff. keval.
  rewrite (proj2 (Z.ltb_ge _ _)) by lia. keval.
  replace (noff (cpu s) - 1 =? 0) with (noff (cpu s) =? 1) by lia.
  destruct ((noff (cpu s) =? 1) && intena (cpu s)); cbn; [done|].
  unfold set_sie, set_cpu. keval. by rewrite <- Hoff.
Qed.

Ltac leval :=
  unfold holding, test_and_set, set_lock_cpu, lock_release, get_lock; keval.

Lemma run_acquire l s : lock_free s l → acquire l s = Ret tt (acq l s).
Proof.
  intros [nm Hl]. unfold acquire. leval. rewrite run_push_off. leval.
  rewrite Hl. leval. rewrite Hl. leval. rewrite lookup_insert_eq. leval.
  unfold acq. leval. rewrite insert_insert_eq, (lname_free _ _ _ _ _ Hl). done.
Qed.

Lemma run_release l s :
  lock_mine s l → sie s = false → 1 ≤ noff (cpu s) → release l s = Ret tt (rel l s).
Proof.
  intros [nm Hl] Hoff Hn. unfold release. leval. rewrite Hl. leval.
  rewrite bool_decide_eq_true_2 by done. leval. rewrite Hl. leval.
  rewrite lookup_insert_eq. leval.
  rewrite run_pop_off by (leval; done || lia). unfold rel.
  by rewrite insert_insert_eq, (lname_free _ _ _ _ _ Hl).
Qed.

(** The guards: a hart that already holds the lock, and a hart that does not. *)
Lemma run_acquire_held l s : lock_mine s l → acquire l s = Halt (Panic "acquire").
Proof.
  intros [nm Hl]. unfold acquire. leval. rewrite run_push_off. leval. rewrite Hl. leval.
  by rewrite bool_decide_eq_true_2.
Qed.
Lemma run_release_free l s : lock_free s l → release l s = Halt (Panic "release").
Proof. intros [nm Hl]. unfold release. leval. by rewrite Hl. Qed.

Lemma wp_acquire E l Q s : lock_free s l → Q tt (acq l s) → wp E (acquire l) Q s.
Proof. intros Hf HQ. unfold wp. by rewrite run_acquire. Qed.

Lemma wp_release E l Q s :
  lock_mine s l → sie s = false → 1 ≤ noff (cpu s) → Q tt (rel l s) → wp E (release l) Q s.
Proof. intros ? ? ? HQ. unfold wp. by rewrite run_release. Qed.

(** ** What a critical section leaves behind *)

Lemma popped_pushed s : sync_ok s → popped (pushed s) ≡k s.
Proof.
  intros [Hn Hs]. apply keq_intro; cbn; try done; try lia.
  - replace (noff (cpu s) + 1 =? 1) with (noff (cpu s) =? 0) by lia.
    destruct (Z.eqb_spec (noff (cpu s)) 0); cbn; [by destruct (sie s)|]. by rewrite Hs by lia.
  - intros. by rewrite (proj2 (Z.eqb_neq _ _)).
Qed.

Lemma wp_myproc E Q s :
  sync_ok s → (∀ s', s' ≡k s → Q (c_proc (cpu s)) s') → wp E myproc Q s.
Proof.
  intros Hs HQ. unfold wp, myproc. keval. rewrite run_push_off. keval.
  rewrite run_pop_off; cbn; [|done|destruct Hs; lia].
  apply HQ, popped_pushed, Hs.
Qed.

Lemma acq_mine l s : lock_mine (acq l s) l.
Proof. eexists. cbn. by rewrite lookup_insert_eq. Qed.
Lemma acq_off l s : sie (acq l s) = false.
Proof. done. Qed.
Lemma acq_noff l s : noff (cpu (acq l s)) = noff (cpu s) + 1.
Proof. done. Qed.
Lemma acq_sync l s : sync_ok s → sync_ok (acq l s).
Proof. intros [Hn _]. split; cbn; [lia|done]. Qed.
Lemma acq_free l l' s : l ≠ l' → lock_free (acq l s) l' ↔ lock_free s l'.
Proof. intros Hne. unfold lock_free. cbn. by rewrite lookup_insert_ne. Qed.
Lemma acq_mine_ne l l' s : l ≠ l' → lock_mine (acq l s) l' ↔ lock_mine s l'.
Proof. intros Hne. unfold lock_mine. cbn. by rewrite lookup_insert_ne. Qed.

(** The state [t] with the locks and the interrupt state of [s]. *)
Definition restore (s t : KState) : KState := mkK (syn s) (dat t).

(** A critical section that changes only data: leaving it restores the locks
    and the interrupt state. *)
Lemma rel_restore l s t :
  lock_free s l → sync_ok s → syn t = syn (acq l s) → rel l t ≡k restore s t.
Proof.
  intros [nm Hl] Hs Hy. destruct (popped_pushed s Hs) as [He _]. split; [|done].
  transitivity (erase (syn (popped (pushed s)))); [|done]. clear He. unfold rel, popped, set_locks, lname in *. cbn. rewrite Hy.
  unfold acq, lname in *. cbn. rewrite Hl. cbn.
  by rewrite lookup_insert_eq, insert_insert_eq, (insert_id _ _ _ Hl).
Qed.

Lemma rel_acq l s : lock_free s l → sync_ok s → rel l (acq l s) ≡k s.
Proof. intros Hl Hs. rewrite (rel_restore l s) by done. by destruct s. Qed.

(** Goals about a lock after the setters of other fields. *)
Ltac mine := unfold lock_mine; cbn; rewrite ?lookup_insert_eq; eauto.

#[export] Hint Resolve acq_mine acq_off acq_sync : kern.

(** ** Nesting of [push_off] and [pop_off] *)

Inductive IntrOp := PushOff | PopOff.

Definition intr_op (o : IntrOp) : M unit := match o with PushOff => push_off | PopOff => pop_off end.

Fixpoint intr_ops (ops : list IntrOp) : M unit :=
  match ops with [] => mret tt | o :: ops' => intr_op o;; intr_ops ops' end.

(** Every pop matches an earlier push, and [d] pushes are still open. *)
Fixpoint balanced (d : nat) (ops : list IntrOp) : bool :=
  match ops, d with
  | [], _ => (d =? 0)%nat
  | PushOff :: ops', _ => balanced (S d) ops'
  | PopOff :: ops', S d' => balanced d' ops'
  | PopOff :: _, O => false
  end.

(** The state [d] pushes below [s]. *)
Definition nested (d : nat) (s : KState) : KState :=
  match d with
  | O => s
  | S _ => set_cpu (mkCpu (c_proc (cpu s)) (noff (cpu s) + Z.of_nat d)
                      (if noff (cpu s) =? 0 then sie s else intena (cpu s))) (set_sie false s)
  end.

Lemma pushed_nested d s t : sync_ok s → t ≡k nested d s → pushed t ≡k nested (S d) s.
Proof.
  intros [Hn Hs] Ht. pose proof (keq_noff _ _ Ht) as Hk. pose proof (keq_intena _ _ Ht) as Hx.
  apply keq_intro; cbn.
  - rewrite (keq_locks _ _ Ht). by destruct d.
  - rewrite (keq_hart _ _ Ht). by destruct d.
  - done.
  - rewrite (keq_proc _ _ Ht). by destruct d.
  - rewrite Hk. destruct d; cbn; lia.
  - intros _. rewrite Hk, (keq_sie _ _ Ht). destruct d; cbn in *.
    + destruct (Z.eqb_spec (noff (cpu s)) 0); [done|auto].
    + rewrite (proj2 (Z.eqb_neq _ 0)) by lia. apply Hx. lia.
  - rewrite (keq_dat _ _ Ht). by destruct d.
Qed.

Lemma popped_nested d s t : sync_ok s → t ≡k nested (S d) s → popped t ≡k nested d s.
Proof.
  intros [Hn Hs] Ht. pose proof (keq_noff _ _ Ht) as Hk. cbn in Hk.
  pose proof (keq_intena _ _ Ht ltac:(cbn; lia)) as Hx. cbn in Hx.
  apply keq_intro; cbn.
  - rewrite (keq_locks _ _ Ht). by destruct d.
  - rewrite (keq_hart _ _ Ht). by destruct d.
  - rewrite Hk, Hx, (keq_sie _ _ Ht). destruct d; cbn.
    + destruct (Z.eqb_spec (noff (cpu s)) 0) as [->|Hne]; cbn; [by destruct (sie s)|].
      rewrite (proj2 (Z.eqb_neq _ 1)) by lia. cbn. by rewrite Hs by lia.
    + by rewrite (proj2 (Z.eqb_neq _ 1)) by lia.
  - rewrite (keq_proc _ _ Ht). by destruct d.
  - rewrite Hk. destruct d; cbn; lia.
  - rewrite Hx. destruct d; cbn; [|done]. intros. by rewrite (proj2 (Z.eqb_neq _ 0)).
  - rewrite (keq_dat _ _ Ht). by destruct d.
Qed.

Lemma intr_ops_nested ops d s t :
  sync_ok s → balanced d ops = true → t ≡k nested d s → wp Atomic (intr_ops ops) (λ _ t', t' ≡k s) t.
Proof.
  intros Hs. revert d t. induction ops as [|[] ops IH]; intros d t Hb Ht; cbn in Hb.
  - destruct d; [by apply wp_ret|done].
  - apply wp_bind. unfold wp, intr_op. rewrite run_push_off. cbn.
    by apply (IH (S d)); [|apply pushed_nested].
  - destruct d as [|d]; [done|]. apply wp_bind. unfold wp, intr_op.
    rewrite run_pop_off.
    + cbn. by apply (IH d); [|apply popped_nested].
    + by rewrite (keq_sie _ _ Ht).
    + rewrite (keq_noff _ _ Ht). destruct Hs. cbn. lia.
Qed.

(** Matched [push_off] and [pop_off] calls, nested to any depth, never
    panic, and leave the interrupt flag, the nesting depth and everything else
    as they were before the first of them. *)
Theorem push_pop_balanced (ops : list IntrOp) (s : KState)
  (Hs : sync_ok s) (Hb : balanced 0 ops = true) :
  ∃ s', intr_ops ops s = Ret tt s' ∧ s' ≡k s.
Proof.
  destruct (proj1 (wp_atomic _ _ _) (intr_ops_nested ops 0 s s Hs Hb (reflexivity _)))
    as ([] & s' & Hrun & Heq). eauto.
Qed.

Lemma push_pop_balanced_witness :
  ∃ s', intr_ops [PushOff; PushOff; PopOff; PushOff; PopOff; PopOff] (set_sie true bss) = Ret tt s' ∧
    s' ≡k set_sie true bss.
Proof.
  apply push_pop_balanced; [by split; cbn|reflexivity].
Defined.
