(* ===== verification/Uart.v ===== *)
(** * The serial port

    The initialisation of the 16550 by uart.c and the polling output, with the
    registers of the chip: while bit 7 of the line control register is set, the
    registers 0 and 1 are the divisor of the clock. *)

From S2P Require Import Prelude CString Kernel KLogic Spinlock Console.
Open Scope Z_scope.
Open Scope os_scope.

(** ** The chip *)

Record Chip := mkChip {
  ch_ier : Z; ch_lcr : Z; ch_dll : Z; ch_dlm : Z; ch_fifos : bool;
  ch_rx : list Z;        (* received and not yet read *)
  ch_tx : list Z;        (* given to the chip and not yet sent *)
  ch_line : list Z }.    (* everything given to the chip *)

Definition latch (c : Chip) : bool := Z.testbit (ch_lcr c) 7.

Definition chip_write (reg v : Z) (c : Chip) : Chip :=
  if reg =? 0 then
    if latch c then mkChip (ch_ier c) (ch_lcr c) v (ch_dlm c) (ch_fifos c) (ch_rx c) (ch_tx c) (ch_line c)
    else mkChip (ch_ier c) (ch_lcr c) (ch_dll c) (ch_dlm c) (ch_fifos c) (ch_rx c) (ch_tx c ++ [v]) (ch_line c ++ [v])
  else if reg =? 1 then
    if latch c then mkChip (ch_ier c) (ch_lcr c) (ch_dll c) v (ch_fifos c) (ch_rx c) (ch_tx c) (ch_line c)
    else mkChip (Z.land v 0xf) (ch_lcr c) (ch_dll c) (ch_dlm c) (ch_fifos c) (ch_rx c) (ch_tx c) (ch_line c)
  else if reg =? 2 then
    mkChip (ch_ier c) (ch_lcr c) (ch_dll c) (ch_dlm c) (Z.testbit v 0) (if Z.testbit v 1 then [] else ch_rx c) (if Z.testbit v 2 then [] else ch_tx c) (ch_line c)
  else if reg =? 3 then mkChip (ch_ier c) v (ch_dll c) (ch_dlm c) (ch_fifos c) (ch_rx c) (ch_tx c) (ch_line c)
  else c.

(** ** uart.c *)

Definition THR : Z := 0.
Definition IER : Z := 1.
Definition IER_RX_ENABLE : Z := Z.shiftl 1 0.
Definition IER_TX_ENABLE : Z := Z.shiftl 1 1.
Definition FCR : Z := 2.
Definition FCR_FIFO_ENABLE : Z := Z.shiftl 1 0.
Definition FCR_FIFO_CLEAR : Z := Z.shiftl 3 1.
Definition LCR : Z := 3.
Definition LCR_EIGHT_BITS : Z := Z.shiftl 3 0.
Definition LCR_BAUD_LATCH : Z := Z.shiftl 1 7.

(** [WriteReg(reg, v)] stores a byte. *)
Definition WriteReg (reg v : Z) (c : Chip) : Chip := chip_write reg (v mod 256) c.

(** The stores of [uartinit]. *)
Definition uart_setup (c : Chip) : Chip :=
  let c := WriteReg IER 0x00 c in
  let c := WriteReg LCR LCR_BAUD_LATCH c in
  let c := WriteReg 0 0x03 c in
  let c := WriteReg 1 0x00 c in
  let c := WriteReg LCR LCR_EIGHT_BITS c in
  let c := WriteReg FCR (Z.lor FCR_FIFO_ENABLE FCR_FIFO_CLEAR) c in
  WriteReg IER (Z.lor IER_TX_ENABLE IER_RX_ENABLE) c.
Definition uartinit (c : Chip) : M Chip :=
  initlock Luart "uart";;
  mret (uart_setup c).

(** [uartputc_sync]: [before] and [after] are the two readings of [panicking],
    [polls] the readings of LSR. *)
Fixpoint wait_idle (polls : list Z) : M unit :=
  match polls with
  | [] => halt NoFuel
  | v :: polls' => if Z.land v LSR_TX_IDLE =? 0 then wait_idle polls' else mret tt
  end.
Definition uartputc_sync (before panicked after : bool) (polls : list Z) (ch : Z) (c : Chip) : M Chip :=
  when (negb before) push_off;;
  if panicked then halt Spin else
  wait_idle polls;;
  let c := WriteReg THR ch c in
  when (negb after) pop_off;;
  mret c.

(** ** consoleinit and printfinit *)

(** The functions of [devsw] by their names. *)
Inductive DevFun := DevNone | Consoleread | Consolewrite.
Definition CONSOLE : nat := 1.
Definition consoleinit (devsw : list (DevFun * DevFun)) (c : Chip) : M (list (DevFun * DevFun) * Chip) :=
  initlock Lcons "cons";;
  c ← uartinit c;
  _ ← need (devsw !! CONSOLE);
  mret (<[CONSOLE := (Consoleread, Consolewrite)]> devsw, c).

Definition printfinit : M unit := initlock Lpr "pr".

(** ** The port after its initialisation *)

(** 1843200 Hz divided by 16 and by the divisor; word length, stop bits and
    parity are bits of LCR. *)
Definition baud (c : Chip) : Z := 1843200 / (16 * (ch_dll c + 256 * ch_dlm c)).
Definition word_length (c : Chip) : Z := 5 + Z.land (ch_lcr c) 3.
Definition one_stop (c : Chip) : bool := negb (Z.testbit (ch_lcr c) 2).
Definition no_parity (c : Chip) : bool := negb (Z.testbit (ch_lcr c) 3).

Lemma uart_setup_ready c :
  let c' := uart_setup c in
  baud c' = 38400 ∧ word_length c' = 8 ∧ one_stop c' = true ∧ no_parity c' = true ∧ latch c' = false ∧ ch_ier c' = Z.lor IER_TX_ENABLE IER_RX_ENABLE ∧
  ch_fifos c' = true ∧ ch_rx c' = [] ∧ ch_tx c' = [] ∧ ch_line c' = ch_line c.
Proof.
  cbv zeta. unfold uart_setup. cbv zeta. assert (Hl : ch_line (WriteReg IER 0 c) = ch_line c) by (cbn; by destruct (latch c)).
  revert Hl. generalize (WriteReg IER 0 c) as c1. intros [ier lcr dll dlm ff rx tx line] Hl. cbn [ch_line] in Hl. subst line.
  split_and!; vm_compute; reflexivity.
Qed.

(** [consoleinit] initialises the two locks and the port and connects the
    console in the device table. *)
Lemma run_consoleinit devsw c s :
  length devsw = 10%nat →
  ∃ s', consoleinit devsw c s = Ret (<[CONSOLE := (Consoleread, Consolewrite)]> devsw, uart_setup c) s' ∧
    lock_free s' Lcons ∧ lock_free s' Luart ∧ dat s' = dat s ∧ ∀ l, l ≠ Lcons → l ≠ Luart → locks s' !! l = locks s !! l.
Proof.
  intros Hd. destruct (lookup_lt_is_Some_2 devsw CONSOLE) as [x Hx]; [unfold CONSOLE; lia|]. eexists. split.
  { unfold consoleinit, uartinit, initlock, need. cbn. rewrite Hx. cbn. reflexivity. }
  split_and!; [|eexists; cbn; apply lookup_insert_eq|done|].
  - eexists. cbn. rewrite lookup_insert_ne by done. apply lookup_insert_eq.
  - intros l Hc Hu. cbn. by rewrite !lookup_insert_ne.
Qed.

(** The polling output: one byte, and the interrupt state as before. *)
Lemma wait_idle_ready polls s : Exists (λ v, Z.land v LSR_TX_IDLE ≠ 0) polls → wait_idle polls s = Ret tt s.
Proof.
  induction polls as [|v polls IH]; [by intros ?%Exists_nil|]. intros H. cbn [wait_idle]. destruct (Z.eqb_spec (Z.land v LSR_TX_IDLE) 0) as [H0|]; [|done].
  apply IH. by apply Exists_cons in H as [H|H].
Qed.
Lemma run_uartputc_sync panicking polls ch c s :
  sync_ok s → latch c = false → Exists (λ v, Z.land v LSR_TX_IDLE ≠ 0) polls →
  ∃ c' s', uartputc_sync panicking false panicking polls ch c s = Ret c' s' ∧ s' ≡k s ∧ ch_line c' = ch_line c ++ [ch mod 256].
Proof.
  intros Hs Hl Hp. assert (Hline : ch_line (WriteReg THR ch c) = ch_line c ++ [ch mod 256]) by (unfold WriteReg, chip_write, THR; cbn; by rewrite Hl).
  exists (WriteReg THR ch c). unfold uartputc_sync. destruct panicking; cbn [when negb].
  - exists s. split_and!; [|done|exact Hline]. unfold mbind, M_bind, mret, M_ret. cbn [run_bind]. by rewrite wait_idle_ready.
  - exists (popped (pushed s)). split_and!; [|by apply popped_pushed|exact Hline]. unfold mbind, M_bind. rewrite run_push_off. cbn [run_bind].
    rewrite wait_idle_ready by done. cbn [run_bind]. rewrite run_pop_off; [done|done|destruct Hs; cbn; lia].
Qed.
