(* ===== verification/SpinlockRace.v ===== *)
(** * spinlock.c under interleaving

    Any number of harts run [acquire] and [release] on one lock, forever, with
    every load, store and atomic swap of the two functions a step of its own;
    a schedule says which hart moves next.  The cpu field is read without
    protection by [holding], and it is written in a separate store after the
    swap and before the unlock, so the checks of [acquire] and [release] are
    racy; the theorem shows that they never misfire. *)

From S2P Require Import Prelude.
Open Scope Z_scope.

(** Where a hart is. *)
Inductive Pc :=
  | Outside                 (* not holding, about to call acquire *)
  | AcqLoadLocked           (* holding(): load lk->locked *)
  | AcqLoadCpu              (* holding(): load lk->cpu *)
  | AcqSwap                 (* while (__sync_lock_test_and_set(&lk->locked, 1) != 0) *)
  | AcqSetCpu               (* lk->cpu = mycpu() *)
  | Critical                (* acquire has returned *)
  | RelLoadLocked           (* release: holding(): load lk->locked *)
  | RelLoadCpu              (* holding(): load lk->cpu *)
  | RelClearCpu             (* lk->cpu = 0 *)
  | RelUnlock               (* __sync_lock_release(&lk->locked) *)
  | Panicked.

Global Instance Pc_eq_dec : EqDecision Pc.
Proof. solve_decision. Defined.

Record Shared := mkShared { sh_locked : Z; sh_cpu : option nat }.

(** One memory access of hart [h]. *)
Definition hart_step (h : nat) (pc : Pc) (m : Shared) : Pc * Shared :=
  match pc with
  | Outside => (AcqLoadLocked, m)
  | AcqLoadLocked => (if sh_locked m =? 0 then AcqSwap else AcqLoadCpu, m)
  | AcqLoadCpu => (if decide (sh_cpu m = Some h) then Panicked else AcqSwap, m)
  | AcqSwap => (if sh_locked m =? 0 then AcqSetCpu else AcqSwap, mkShared 1 (sh_cpu m))
  | AcqSetCpu => (Critical, mkShared (sh_locked m) (Some h))
  | Critical => (RelLoadLocked, m)
  | RelLoadLocked => (if sh_locked m =? 0 then Panicked else RelLoadCpu, m)
  | RelLoadCpu => (if decide (sh_cpu m = Some h) then RelClearCpu else Panicked, m)
  | RelClearCpu => (RelUnlock, mkShared (sh_locked m) None)
  | RelUnlock => (Outside, mkShared 0 (sh_cpu m))
  | Panicked => (Panicked, m)
  end.

(** All harts and the lock; a move of a hart that does not exist is no move. *)
Definition World : Type := list Pc * Shared.

Definition world_step (w : World) (h : nat) : World :=
  match w.1 !! h with
  | Some pc => let r := hart_step h pc w.2 in (<[h := r.1]> w.1, r.2)
  | None => w
  end.

Definition boot (n : nat) : World := (replicate n Outside, mkShared 0 None).

Definition race (n : nat) (schedule : list nat) : World := foldl world_step (boot n) schedule.

(** A hart owns the lock from its successful swap to its unlocking store. *)
Definition owns (pc : Pc) : bool :=
  match pc with
  | AcqSetCpu | Critical | RelLoadLocked | RelLoadCpu | RelClearCpu | RelUnlock => true
  | _ => false
  end.

(** The owner whose name is in the cpu field. *)
Definition named (pc : Pc) : bool :=
  match pc with Critical | RelLoadLocked | RelLoadCpu | RelClearCpu => true | _ => false end.

Record race_inv (w : World) : Prop := {
  ri_no_panic : Panicked ∉ w.1;
  ri_unique : ∀ i j pi pj, w.1 !! i = Some pi → w.1 !! j = Some pj → owns pi = true → owns pj = true → i = j;
  ri_locked : sh_locked w.2 ≠ 0 ↔ ∃ i pi, w.1 !! i = Some pi ∧ owns pi = true;
  ri_cpu : ∀ i, sh_cpu w.2 = Some i ↔ ∃ pi, w.1 !! i = Some pi ∧ named pi = true
}.

Lemma named_owns pc : named pc = true → owns pc = true.
Proof. by destruct pc. Qed.

Lemma race_inv_boot n : race_inv (boot n).
Proof.
  assert (H : ∀ i pi, (boot n).1 !! i = Some pi → pi = Outside).
  { intros i pi [-> _]%lookup_replicate. done. }
  split.
  - intros [i Hi]%list_elem_of_lookup. by apply H in Hi.
  - intros i j pi pj ->%H. done.
  - cbn. split; [done|]. by intros (i & pi & ->%H & ?).
  - cbn. intros i. split; [done|]. by intros (pi & ->%H & ?).
Qed.

Section Step.
  Context (pcs : list Pc) (m : Shared) (h : nat) (pc : Pc).
  Hypothesis Hinv : race_inv (pcs, m).
  Hypothesis Hpc : pcs !! h = Some pc.

Lemma other i (q : Pc) : i ≠ h → <[h := q]> pcs !! i = pcs !! i.
  Proof. intros. by rewrite list_lookup_insert_ne. Qed.
Lemma self (q : Pc) : <[h := q]> pcs !! h = Some q.
  Proof. apply list_lookup_insert_eq. by eapply lookup_lt_Some. Qed.

  (** A move that changes neither ownership nor the memory. *)
Lemma keep_inv (q : Pc) :
    q ≠ Panicked → owns q = owns pc → named q = named pc → race_inv (<[h := q]> pcs, m).
  Proof.
    intros Hp Ho Hn. destruct Hinv as [H1 H2 H3 H4]. cbn in *. split; cbn.
    - intros [i Hi]%list_elem_of_lookup. destruct (decide (i = h)) as [->|].
      + rewrite self in Hi. congruence.
      + rewrite other in Hi by done. by apply H1, list_elem_of_lookup_2 with i.
    - intros i j pi pj Hi Hj Oi Oj.
      destruct (decide (i = h)) as [->|]; destruct (decide (j = h)) as [->|]; try done;
        rewrite ?self, ?other in * by done; simplify_eq.
      + apply (H2 h j pc pj); congruence.
      + apply (H2 i h pi pc); congruence.
      + eapply H2; eauto.
    - rewrite H3. split; intros (i & pi & Hi & Oi); destruct (decide (i = h)) as [->|];
        rewrite ?self in *; simplify_eq.
      + exists h, q. rewrite self. split; [done|congruence].
      + exists i, pi. by rewrite other.
      + exists h, pc. split; [done|congruence].
      + exists i, pi. by rewrite other in Hi.
    - intros i. rewrite H4. split; intros (pi & Hi & Oi); destruct (decide (i = h)) as [->|];
        rewrite ?self in *; simplify_eq.
      + exists q. split; [done|congruence].
      + exists pi. by rewrite other.
      + exists pc. split; [done|congruence].
      + exists pi. by rewrite other in Hi.
  Qed.

Lemma owner_only i pi : owns pc = true → pcs !! i = Some pi → owns pi = true → i = h.
  Proof. intros Ho Hi Oi. by apply (ri_unique _ Hinv i h pi pc). Qed.

  (** A move of the owner: nobody else owns before or after. *)
Lemma owner_inv (q : Pc) (m' : Shared) :
    owns pc = true → q ≠ Panicked →
    (sh_locked m' ≠ 0 ↔ owns q = true) →
    (sh_cpu m' = if named q then Some h else None) →
    race_inv (<[h := q]> pcs, m').
  Proof.
    intros Ho Hp Hl Hc. split; cbn.
    - intros [i Hi]%list_elem_of_lookup. destruct (decide (i = h)) as [->|].
      + rewrite self in Hi. congruence.
      + rewrite other in Hi by done. by apply (ri_no_panic _ Hinv), list_elem_of_lookup_2 with i.
    - intros i j pi pj Hi Hj Oi Oj. transitivity h; [|symmetry].
      + destruct (decide (i = h)) as [->|]; [done|]. rewrite other in Hi by done. by eapply owner_only.
      + destruct (decide (j = h)) as [->|]; [done|]. rewrite other in Hj by done. by eapply owner_only.
    - rewrite Hl. split.
      + intros Oq. exists h, q. by rewrite self.
      + intros (i & pi & Hi & Oi). destruct (decide (i = h)) as [->|].
        * rewrite self in Hi. congruence.
        * rewrite other in Hi by done. by destruct (owner_only i pi).
    - intros i. rewrite Hc. split.
      + destruct (named q) eqn:Hq; [|done]. intros [= <-]. exists q. by rewrite self.
      + intros (pi & Hi & Ni). destruct (decide (i = h)) as [->|].
        * rewrite self in Hi. simplify_eq. by rewrite Ni.
        * rewrite other in Hi by done. by destruct (owner_only i pi Ho Hi (named_owns _ Ni)).
  Qed.

  (** The successful swap: nobody owned the lock. *)
Lemma take_inv :
    owns pc = false → named pc = false → sh_locked m = 0 →
    race_inv (<[h := AcqSetCpu]> pcs, mkShared 1 (sh_cpu m)).
  Proof.
    intros Ho Hn Hz.
    assert (Hnone : ∀ i pi, pcs !! i = Some pi → owns pi = true → False).
    { intros i pi Hi Oi. by apply (proj2 (ri_locked _ Hinv)); [exists i, pi|]. }
    split; cbn.
    - intros [i Hi]%list_elem_of_lookup. destruct (decide (i = h)) as [->|].
      + rewrite self in Hi. congruence.
      + rewrite other in Hi by done. by apply (ri_no_panic _ Hinv), list_elem_of_lookup_2 with i.
    - intros i j pi pj Hi Hj Oi Oj.
      destruct (decide (i = h)) as [->|]; destruct (decide (j = h)) as [->|]; try done;
        rewrite ?other in * by done; exfalso; eauto.
    - split; [|lia]. intros _. exists h, AcqSetCpu. by rewrite self.
    - intros i. rewrite (ri_cpu _ Hinv). split; intros (pi & Hi & Ni).
      + exfalso. eauto using named_owns.
      + destruct (decide (i = h)) as [->|]; [rewrite self in Hi; by simplify_eq/=|].
        rewrite other in Hi by done. exfalso. eauto using named_owns.
  Qed.

  (** [holding] answers truthfully for the hart that asks. *)
Lemma cpu_self : sh_cpu m = Some h ↔ named pc = true.
  Proof. rewrite (ri_cpu _ Hinv). cbn. split; [intros (? & ? & ?); congruence|eauto]. Qed.
Lemma locked_self : owns pc = true → sh_locked m ≠ 0.
  Proof. intros. apply (proj2 (ri_locked _ Hinv)). eauto. Qed.
End Step.

Lemma race_inv_step w h : race_inv w → race_inv (world_step w h).
Proof.
  destruct w as [pcs m]. intros Hinv. unfold world_step. cbn.
  destruct (pcs !! h) as [pc|] eqn:Hpc; [|done].
  assert (Hp : pc ≠ Panicked).
  { intros ->. by apply (ri_no_panic _ Hinv), list_elem_of_lookup_2 with h. }
  pose proof (cpu_self _ _ _ _ Hinv Hpc) as Hc.
  pose proof (locked_self _ _ _ _ Hinv Hpc) as Hl.
  destruct pc; cbn in *; try done.
  - by eapply keep_inv.
  - case_match; by eapply keep_inv.
  - rewrite decide_False by (intros E; apply Hc in E; done). by eapply keep_inv.
  - destruct (Z.eqb_spec (sh_locked m) 0) as [Hz|Hz].
    + by eapply take_inv.
    + eapply keep_inv; [|by rewrite Hpc|done..]. destruct Hinv as [H1 H2 H3 H4]. split; cbn in *; auto.
      rewrite <- H3. split; [done|lia].
  - eapply owner_inv; eauto; cbn; try done; split; auto.
  - by eapply keep_inv.
  - rewrite (proj2 (Z.eqb_neq _ _)) by auto. by eapply keep_inv.
  - rewrite decide_True by (by apply Hc). by eapply keep_inv.
  - eapply owner_inv; eauto; cbn; try done; split; auto.
  - eapply owner_inv; eauto; cbn; try done.
    destruct (sh_cpu m) as [i|] eqn:E; [|done]. exfalso.
    destruct (proj1 (ri_cpu _ Hinv i) E) as (pi & Hi & Ni).
    pose proof (owner_only _ _ _ _ Hinv Hpc i pi eq_refl Hi (named_owns _ Ni)) as ->.
    cbn in Hi. by simplify_eq/=.
Qed.

Lemma race_invariant n schedule : race_inv (race n schedule).
Proof.
  unfold race. generalize (race_inv_boot n). generalize (boot n).
  induction schedule as [|h l IH]; intros w Hw; [done|]. cbn. apply IH, race_inv_step, Hw.
Qed.

(** C11: for any number of harts and any interleaving of their memory accesses,
    at most one hart is between the return of [acquire] and the unlocking
    store of [release], the panics of [acquire] and [release] never fire, and
    a hart that keeps spinning does so because another hart owns the lock. *)
Theorem mutual_exclusion (n : nat) (schedule : list nat) :
  let w := race n schedule in
  (∀ i j pi pj, w.1 !! i = Some pi → w.1 !! j = Some pj → owns pi = true → owns pj = true → i = j) ∧
  (Panicked ∉ w.1) ∧
  (∀ h, w.1 !! h = Some AcqSwap → (world_step w h).1 !! h ≠ Some AcqSetCpu →
     ∃ i pi, i ≠ h ∧ w.1 !! i = Some pi ∧ owns pi = true).
Proof.
  cbn zeta. pose proof (race_invariant n schedule) as Hinv. split_and!.
  - apply Hinv.
  - apply Hinv.
  - intros h Hh Hfail. destruct (race n schedule) as [pcs m]. cbn in *.
    unfold world_step in Hfail. cbn in Hfail. rewrite Hh in Hfail. cbn in Hfail.
    destruct (Z.eqb_spec (sh_locked m) 0) as [Hz|Hz].
    + rewrite list_lookup_insert_eq in Hfail; [done|by eapply lookup_lt_Some].
    + destruct (proj1 (ri_locked _ Hinv) Hz) as (i & pi & Hi & Oi). exists i, pi.
      split; [|done]. intros ->. cbn in Hi. simplify_eq.
Qed.
