(* ===== verification/KMem.v ===== *)
(** * Lemmas on memory words, byte arrays and pages *)

From S2P Require Import Prelude CString Kernel.
Open Scope Z_scope.

(** [m] and [m'] agree on [n] bytes from [a]. *)
Definition agree (a n : Z) (m m' : mem) : Prop := ∀ x, a ≤ x < a + n → rd m x = rd m' x.

Lemma agree_refl a n m : agree a n m m.
Proof. done. Qed.
Lemma agree_trans a n m1 m2 m3 : agree a n m1 m2 → agree a n m2 m3 → agree a n m1 m3.
Proof. intros H1 H2 x Hx. by rewrite H1, H2. Qed.
Lemma agree_sym a n m1 m2 : agree a n m1 m2 → agree a n m2 m1.
Proof. intros H x Hx. by rewrite H. Qed.
Lemma agree_sub a n b k m m' : agree a n m m' → a ≤ b → b + k ≤ a + n → agree b k m m'.
Proof. intros H ? ? x Hx. apply H. lia. Qed.

(** ** Little-endian words *)

Lemma rd_write_le m a v n x :
  rd (write_le m a v n) x =
    if decide (a ≤ x < a + Z.of_nat n) then v / 256 ^ (x - a) mod 256 else rd m x.
Proof.
  revert m a v. induction n as [|n IH]; intros m a v; cbn [write_le].
  - rewrite decide_False by lia. done.
  - rewrite IH, rd_wr. destruct (decide (x = a)) as [->|Hne].
    + rewrite decide_False, decide_True by lia. by rewrite Z.sub_diag, Z.pow_0_r, Z.div_1_r.
    + destruct (decide (a + 1 ≤ x < a + 1 + Z.of_nat n)).
      * rewrite decide_True by lia. rewrite Zdiv_Zdiv by lia.
        replace (256 ^ (x - a)) with (256 * 256 ^ (x - (a + 1))); [done|].
        rewrite <- Z.pow_succ_r by lia. f_equal. lia.
      * by rewrite decide_False by lia.
Qed.

Lemma read_le_ext m m' a n : agree a (Z.of_nat n) m m' → read_le m a n = read_le m' a n.
Proof.
  revert a. induction n as [|n IH]; intros a H; cbn [read_le]; [done|].
  rewrite (H a) by lia. rewrite (IH (a + 1)); [done|]. intros x Hx. apply H. lia.
Qed.

Lemma read_write_le m a v n : 0 ≤ v < 256 ^ Z.of_nat n → read_le (write_le m a v n) a n = v.
Proof.
  revert m a v. induction n as [|n IH]; intros m a v Hv; cbn [read_le write_le].
  - cbn in Hv. lia.
  - rewrite rd_write_le, decide_False by lia. rewrite rd_wr, decide_True by done.
    rewrite IH; [pose proof (Z.div_mod v 256); lia|].
    rewrite Nat2Z.inj_succ, Z.pow_succ_r in Hv by lia.
    split; [apply Z.div_pos; lia|apply Z.div_lt_upper_bound; lia].
Qed.

Lemma rd_write64_ne m a v x : x < a ∨ a + 8 ≤ x → rd (write64 m a v) x = rd m x.
Proof. intros. unfold write64. by rewrite rd_write_le, decide_False by lia. Qed.
Lemma read_write64 m a v : 0 ≤ v < 2 ^ 64 → read64 (write64 m a v) a = v.
Proof. intros. by apply read_write_le. Qed.
Lemma read64_ext m m' a : agree a 8 m m' → read64 m a = read64 m' a.
Proof. intros. by apply read_le_ext. Qed.
Lemma agree_write64 m a v b n : b + n ≤ a ∨ a + 8 ≤ b → agree b n (write64 m a v) m.
Proof. intros ? x Hx. apply rd_write64_ne. lia. Qed.
Lemma read64_write64_ne m a v b : b + 8 ≤ a ∨ a + 8 ≤ b → read64 (write64 m a v) b = read64 m b.
Proof. intros. by apply read64_ext, agree_write64. Qed.

Lemma read64_zero m a : (∀ x, a ≤ x < a + 8 → rd m x = 0) → read64 m a = 0.
Proof.
  intros Hz. rewrite (read64_ext m ∅); [|by intros x Hx; rewrite Hz].
  unfold read64. assert (Hn : ∀ n b, read_le ∅ b n = 0).
  { induction n as [|n IH]; intros b; cbn [read_le]; [done|]. by rewrite IH. }
  apply Hn.
Qed.

Definition bytes (m : mem) : Prop := ∀ a, 0 ≤ rd m a < 256.

Lemma read_le_bounds m a n : bytes m → 0 ≤ read_le m a n < 256 ^ Z.of_nat n.
Proof.
  intros Hm. revert a. induction n as [|n IH]; intros a; cbn [read_le]; [done|].
  rewrite Nat2Z.inj_succ, Z.pow_succ_r by lia. pose proof (Hm a). specialize (IH (a + 1)). lia.
Qed.
Lemma read64_bounds m a : bytes m → 0 ≤ read64 m a < 2 ^ 64.
Proof. intros. by apply (read_le_bounds m a 8). Qed.

Lemma bytes_write64 m a v : bytes m → bytes (write64 m a v).
Proof.
  intros Hm x. unfold write64. rewrite rd_write_le. case_decide; [|done].
  apply Z.mod_pos_bound. lia.
Qed.

(** ** Filling and copying *)

Lemma bytes_memset m a c n : bytes m → bytes (memset m a c n).
Proof. intros Hm x. rewrite memset_spec. case_decide; [|done]. apply Z.mod_pos_bound. lia. Qed.

Lemma agree_memset m a c n b k : b + k ≤ a ∨ a + n ≤ b → agree b k (memset m a c n) m.
Proof. intros ? x Hx. rewrite memset_spec. by rewrite decide_False by lia. Qed.

Lemma agree_memmove m d s n b k : 0 ≤ n → b + k ≤ d ∨ d + n ≤ b → agree b k (memmove m d s n) m.
Proof. intros ? ? x Hx. rewrite rd_memmove by done. by rewrite decide_False by lia. Qed.
Lemma bytes_memmove m d s n : 0 ≤ n → bytes m → bytes (memmove m d s n).
Proof. intros ? Hm x. rewrite rd_memmove by done. by case_decide. Qed.

Lemma rd_put_bytes m a bs x :
  rd (put_bytes m a bs) x =
    if decide (a ≤ x < a + Z.of_nat (length bs)) then bs !!! Z.to_nat (x - a) else rd m x.
Proof.
  revert m a. induction bs as [|b bs IH]; intros m a; cbn [put_bytes].
  - rewrite decide_False by (cbn; lia). done.
  - rewrite IH, rd_wr. cbn [length]. destruct (decide (x = a)) as [->|Hne].
    + rewrite decide_False, decide_True by lia. by rewrite Z.sub_diag.
    + repeat case_decide; try lia; try done.
      replace (Z.to_nat (x - a)) with (S (Z.to_nat (x - (a + 1)))) by lia. done.
Qed.

Lemma length_bytes_at m a n : length (bytes_at m a n) = n.
Proof. unfold bytes_at. by rewrite length_fmap, length_seq. Qed.

Lemma bytes_at_lookup m a n k : (k < n)%nat → bytes_at m a n !! k = Some (rd m (a + Z.of_nat k)).
Proof. intros. unfold bytes_at. by rewrite list_lookup_fmap, lookup_seq_lt. Qed.

Lemma bytes_at_ext m m' a n : agree a (Z.of_nat n) m m' → bytes_at m a n = bytes_at m' a n.
Proof.
  intros H. apply list_eq. intros k. destruct (decide (k < n)%nat).
  - rewrite !bytes_at_lookup by done. f_equal. apply H. lia.
  - by rewrite !lookup_ge_None_2 by (rewrite length_bytes_at; lia).
Qed.

Lemma bytes_at_put m a bs : bytes_at (put_bytes m a bs) a (length bs) = bs.
Proof.
  apply list_eq. intros k. destruct (decide (k < length bs)%nat).
  - rewrite bytes_at_lookup by done. rewrite rd_put_bytes, decide_True by lia.
    replace (Z.to_nat (a + Z.of_nat k - a)) with k by lia. by rewrite list_lookup_lookup_total_lt.
  - by rewrite !lookup_ge_None_2 by (rewrite ?length_bytes_at; lia).
Qed.

Lemma agree_put_bytes m a bs b n :
  b + n ≤ a ∨ a + Z.of_nat (length bs) ≤ b → agree b n (put_bytes m a bs) m.
Proof. intros ? x Hx. rewrite rd_put_bytes. by rewrite decide_False by lia. Qed.

(** ** Pages *)

(** Two different page addresses are a page apart. *)
Lemma page_apart p q : p mod PGSIZE = 0 → q mod PGSIZE = 0 → p ≠ q → p + PGSIZE ≤ q ∨ q + PGSIZE ≤ p.
Proof.
  unfold PGSIZE. intros Hp Hq Hne.
  pose proof (Z.div_mod p 4096). pose proof (Z.div_mod q 4096). lia.
Qed.

Lemma PGROUNDDOWN_eq a : 0 ≤ a < 2 ^ 64 → PGROUNDDOWN a = a - a mod PGSIZE.
Proof.
  intros Ha. unfold PGROUNDDOWN, u64, PGSIZE.
  replace (Z.lnot (4096 - 1) mod 2 ^ 64) with (Z.ldiff (Z.ones 64) (Z.ones 12)) by reflexivity.
  transitivity (Z.ldiff a (Z.ones 12)).
  - apply Z.bits_inj'. intros n Hn. rewrite Z.land_spec, !Z.ldiff_spec.
    rewrite !Z.testbit_ones_nonneg by lia.
    destruct (decide (n < 64)); [by rewrite (proj2 (Z.ltb_lt n 64)) by lia|].
    rewrite (Z.bits_above_log2 a n); [done|lia|].
    destruct (decide (a = 0)) as [->|]; [cbn; lia|]. apply Z.log2_lt_pow2; [lia|].
    assert (2 ^ 64 ≤ 2 ^ n) by (apply Z.pow_le_mono_r; lia). lia.
  - rewrite Z.ldiff_ones_r by lia. rewrite Z.shiftl_mul_pow2, Z.shiftr_div_pow2 by lia.
    pose proof (Z.div_mod a 4096). change (2 ^ 12) with 4096. lia.
Qed.

Lemma PGROUNDUP_eq a : 0 ≤ a → a + PGSIZE - 1 < 2 ^ 64 →
  PGROUNDUP a = a + PGSIZE - 1 - (a + PGSIZE - 1) mod PGSIZE.
Proof.
  intros H0 Ha. unfold PGROUNDUP. fold (PGROUNDDOWN (u64 (a + PGSIZE - 1))).
  unfold u64. rewrite Z.mod_small by (unfold PGSIZE in *; lia).
  apply PGROUNDDOWN_eq. unfold PGSIZE in *. lia.
Qed.

#[global] Opaque read64 write64 put_bytes bytes_at.
