(* ===== verification/Kalloc.v ===== *)
(** * kalloc.c: the physical page allocator

    The free list is threaded through the first word of each free page, so
    [kfree] and [kalloc] read and write the memory they hand out.  [free_list]
    relates the memory to the list of free pages; [kalloc] and [kfree] refine
    the pop and the push of that list and touch no page outside it. *)

From S2P Require Import Prelude CString Kernel KLogic Spinlock KMem.
Open Scope Z_scope.
Open Scope os_scope.

Definition fill (pa c : Z) : M unit := modify (λ s, set_ram (memset (ram s) pa c PGSIZE) s).

Section Kalloc.
Context `{KernelImage}.

Definition kfree (pa : Z) : M unit :=
  if negb (pa mod PGSIZE =? 0) || (pa <? end_) || (PHYSTOP <=? pa) then panic "kfree" else
  fill pa 1;;
  acquire Lkmem;;
  l ← gets (λ s, freelist s);
  store64 pa l;;
  modify (set_freelist pa);;
  release Lkmem.

Definition kalloc : M Z :=
  acquire Lkmem;;
  r ← gets (λ s, freelist s);
  when (negb (r =? 0)) (nx ← load64 r; modify (set_freelist nx));;
  release Lkmem;;
  when (negb (r =? 0)) (fill r 5);;
  mret r.

(** [for(; p + PGSIZE <= pa_end; p += PGSIZE) kfree(p);] *)
Fixpoint freerange_loop (fuel : nat) (p pa_end : Z) : M unit :=
  if p + PGSIZE <=? pa_end then
    match fuel with
    | O => halt NoFuel
    | S fuel' => kfree p;; freerange_loop fuel' (p + PGSIZE) pa_end
    end
  else mret tt.
Definition freerange (pa_start pa_end : Z) : M unit :=
  let p := PGROUNDUP pa_start in
  freerange_loop (Z.to_nat ((pa_end - p) / PGSIZE)) p pa_end.

Definition kinit : M unit :=
  initlock Lkmem "kmem";;
  freerange end_ PHYSTOP.

(** ** The free list *)

Definition page_ok (p : Z) : Prop := p mod PGSIZE = 0 ∧ end_ ≤ p < PHYSTOP.

Fixpoint chain (m : mem) (head : Z) (l : list Z) : Prop :=
  match l with
  | [] => head = 0
  | p :: l' => head = p ∧ chain m (read64 m p) l'
  end.

Record free_list (s : KState) (l : list Z) : Prop := {
  fl_chain : chain (ram s) (freelist s) l;
  fl_nodup : NoDup l;
  fl_pages : Forall page_ok l;
  fl_lock : lock_free s Lkmem;
  fl_sync : sync_ok s
}.

Lemma page_pos p : page_ok p → 0 < p < 2 ^ 64.
Proof. intros [_ ?]. pose proof end_range. unfold PHYSTOP, KERNBASE in *. lia. Qed.

Lemma chain_ext m m' head l :
  chain m head l → (∀ p, p ∈ l → agree p 8 m' m) → chain m' head l.
Proof.
  revert head. induction l as [|p l IH]; intros head Hc He; cbn in *; [done|].
  destruct Hc as [-> Hc]. split; [done|].
  rewrite (read64_ext m' m) by (apply He; left). apply IH; [done|].
  intros q Hq. apply He. by right.
Qed.

Lemma free_list_keq s t l : s ≡k t → free_list s l → free_list t l.
Proof.
  intros Heq [H1 H2 H3 H4 H5]. split; try done.
  - by rewrite <- (keq_ram _ _ Heq), <- (keq_freelist _ _ Heq).
  - by rewrite <- Heq.
  - by rewrite <- Heq.
Qed.

(** Writes that stay away from the free pages keep the free list. *)
Lemma free_list_ext s t l :
  free_list s l → freelist t = freelist s → (∀ p, p ∈ l → agree p 8 (ram t) (ram s)) →
  lock_free t Lkmem → sync_ok t → free_list t l.
Proof.
  intros [H1 H2 H3 H4 H5] Hf Hm Hl Hs. split; try done. rewrite Hf. by eapply chain_ext.
Qed.

Lemma page_disjoint p q : page_ok p → page_ok q → p ≠ q → p + PGSIZE ≤ q ∨ q + PGSIZE ≤ p.
Proof. intros [? _] [? _] ?. by apply page_apart. Qed.

(** The state [kfree] leaves. *)
Definition freed (pa : Z) (s : KState) : KState :=
  set_freelist pa (set_ram (write64 (memset (ram s) pa 1 PGSIZE) pa (freelist s)) s).
(** The state [kalloc] leaves when it takes page [pa]. *)
Definition taken (pa : Z) (s : KState) : KState :=
  set_ram (memset (ram s) pa 5 PGSIZE) (set_freelist (read64 (ram s) pa) s).

Lemma head_range s l : free_list s l → 0 ≤ freelist s < 2 ^ 64.
Proof.
  intros [Hc _ Hp _ _]. destruct l as [|p l]; cbn in Hc; [lia|].
  destruct Hc as [-> _]. apply Forall_cons in Hp as [Hp _]. apply page_pos in Hp. lia.
Qed.

Lemma freed_free_list pa l s :
  free_list s l → page_ok pa → pa ∉ l → free_list (freed pa s) (pa :: l).
Proof.
  intros Hfl Hpa Hnin. pose proof (head_range _ _ Hfl) as Hh. destruct Hfl as [H1 H2 H3 H4 H5]. split.
  - cbn. split; [done|]. rewrite read_write64 by done. eapply chain_ext; [done|].
    intros q Hq. assert (pa ≠ q) by (intros ->; done).
    rewrite Forall_forall in H3. destruct (page_disjoint pa q); auto.
    + eapply agree_trans; [apply agree_write64|apply agree_memset]; unfold PGSIZE in *; lia.
    + eapply agree_trans; [apply agree_write64|apply agree_memset]; unfold PGSIZE in *; lia.
  - by apply NoDup_cons.
  - by apply Forall_cons.
  - exact H4.
  - exact H5.
Qed.

Lemma taken_free_list pa l s : free_list s (pa :: l) → free_list (taken pa s) l.
Proof.
  intros [[Hh H1] H2 H3 H4 H5]. apply NoDup_cons in H2 as [Hnin H2].
  apply Forall_cons in H3 as [Hp H3]. split; try done.
  cbn. eapply chain_ext; [done|]. intros q Hq. rewrite Forall_forall in H3.
  destruct (page_disjoint pa q); [done|auto|by intros ->|..]; apply agree_memset; unfold PGSIZE in *; lia.
Qed.

(** ** The operations *)

Lemma wp_kfree E pa l Q s :
  free_list s l → page_ok pa → pa ∉ l →
  (∀ s', s' ≡k freed pa s → free_list s' (pa :: l) → Q tt s') →
  wp E (kfree pa) Q s.
Proof.
  intros Hfl Hpa Hnin HQ. unfold kfree. destruct Hpa as [Ha Hr].
  rewrite (proj2 (Z.eqb_eq _ _)), (proj2 (Z.ltb_ge _ _)), (proj2 (Z.leb_gt _ _)) by lia. cbn [negb orb].
  unfold fill, store64. ksteps. apply wp_acquire; [apply Hfl|]. ksteps. apply wp_release.
  { mine. } { done. } { destruct (fl_sync _ _ Hfl). cbn. lia. }
  assert (Heq : rel Lkmem (freed pa (acq Lkmem s)) ≡k freed pa s)
    by (etransitivity; [apply (rel_restore Lkmem s); try done; apply Hfl|done]).
  apply HQ; [exact Heq|]. eapply free_list_keq; [symmetry; exact Heq|]. by apply freed_free_list.
Qed.

Lemma wp_kalloc E l Q s :
  free_list s l →
  (l = [] → ∀ s', s' ≡k s → free_list s' [] → Q 0 s') →
  (∀ pa l', l = pa :: l' → ∀ s', s' ≡k taken pa s → free_list s' l' → Q pa s') →
  wp E kalloc Q s.
Proof.
  intros Hfl H0 H1. unfold kalloc. ksteps. apply wp_acquire; [apply Hfl|]. ksteps.
  change (freelist (acq Lkmem s)) with (freelist s).
  assert (Hn : 1 ≤ noff (cpu (acq Lkmem s))) by (destruct (fl_sync _ _ Hfl); cbn; lia).
  pose proof (fl_chain _ _ Hfl) as Hc. destruct l as [|pa l]; cbn in Hc.
  - rewrite Hc. unfold when. cbn [negb Z.eqb]. ksteps. apply wp_release; [mine|done|done|]. ksteps.
    assert (Heq : rel Lkmem (acq Lkmem s) ≡k s) by (apply rel_acq; apply Hfl).
    apply H0; [done|exact Heq|]. eapply free_list_keq; [symmetry; exact Heq|done].
  - destruct Hc as [-> _].
    assert (Hpa : page_ok pa) by (apply (Forall_cons_1 _ _ _ (fl_pages _ _ Hfl))).
    pose proof (page_pos _ Hpa). rewrite (proj2 (Z.eqb_neq _ _)) by lia. cbn [negb].
    unfold when, fill, load64. ksteps. apply wp_release; [mine|done|done|]. ksteps.
    assert (Heq : taken pa (rel Lkmem (acq Lkmem s)) ≡k taken pa s).
    { unfold taken. cbn. rewrite rel_acq; [done|apply Hfl..]. }
    apply (H1 pa l); [done|exact Heq|]. eapply free_list_keq; [symmetry; exact Heq|]. by apply taken_free_list.
Qed.

(** ** Sequences of allocations and frees *)

Inductive AllocOp := Alloc | Free (pa : Z).

Fixpoint run_alloc (ops : list AllocOp) : M (list Z) :=
  match ops with
  | [] => mret []
  | Alloc :: ops' => r ← kalloc; rs ← run_alloc ops'; mret (r :: rs)
  | Free pa :: ops' => kfree pa;; run_alloc ops'
  end.

(** The abstract allocator: a stack of free pages. *)
Fixpoint spec_alloc (ops : list AllocOp) (l : list Z) : list Z * list Z :=
  match ops, l with
  | [], _ => ([], l)
  | Alloc :: ops', [] => let r := spec_alloc ops' [] in (0 :: r.1, r.2)
  | Alloc :: ops', p :: l' => let r := spec_alloc ops' l' in (p :: r.1, r.2)
  | Free pa :: ops', _ => spec_alloc ops' (pa :: l)
  end.

(** Only pages that are not free are freed. *)
Fixpoint well_used (ops : list AllocOp) (l : list Z) : Prop :=
  match ops with
  | [] => True
  | Alloc :: ops' => well_used ops' (tail l)
  | Free pa :: ops' => page_ok pa ∧ (pa ∉ l) ∧ well_used ops' (pa :: l)
  end.

Fixpoint freed_by (ops : list AllocOp) : list Z :=
  match ops with [] => [] | Alloc :: ops' => freed_by ops' | Free pa :: ops' => pa :: freed_by ops' end.

Lemma agree_freed pa q s : page_ok pa → page_ok q → q ≠ pa → agree q PGSIZE (ram (freed pa s)) (ram s).
Proof.
  intros Hp Hq Hne. destruct (page_disjoint pa q); auto;
    (eapply agree_trans; [apply agree_write64|apply agree_memset]; unfold PGSIZE in *; lia).
Qed.
Lemma agree_taken pa q s : page_ok pa → page_ok q → q ≠ pa → agree q PGSIZE (ram (taken pa s)) (ram s).
Proof.
  intros Hp Hq Hne. destruct (page_disjoint pa q); auto; apply agree_memset; unfold PGSIZE in *; lia.
Qed.

Lemma run_alloc_spec ops l s :
  free_list s l → well_used ops l →
  wp Atomic (run_alloc ops)
    (λ rs s', rs = (spec_alloc ops l).1 ∧ free_list s' (spec_alloc ops l).2 ∧
       ∀ q, page_ok q → q ∉ l → q ∉ freed_by ops → agree q PGSIZE (ram s') (ram s)) s.
Proof.
  revert l s. induction ops as [|[|pa] ops IH]; intros l s Hfl Hu; cbn [run_alloc spec_alloc freed_by].
  - ksteps. done.
  - ksteps. eapply wp_kalloc; [done|..].
    + intros -> s' Heq Hfl'. ksteps. eapply wp_mono; [by apply (IH [])|].
      intros rs t (-> & Ht & Hag). ksteps. split_and!; [done..|].
      intros q Hq _ Hf. rewrite <- (keq_ram _ _ Heq). by apply Hag; [|apply not_elem_of_nil|].
    + intros pa l' -> s' Heq Hfl'. cbn in Hu. ksteps. eapply wp_mono; [by apply (IH l')|].
      intros rs t (-> & Ht & Hag). ksteps. split_and!; [done..|].
      intros q Hq Hnin Hf. apply not_elem_of_cons in Hnin as [Hne Hnin].
      eapply agree_trans; [by apply Hag|]. rewrite (keq_ram _ _ Heq). apply agree_taken; [|done..].
      apply (Forall_cons_1 _ _ _ (fl_pages _ _ Hfl)).
  - destruct Hu as (Hpa & Hnin & Hu). ksteps. eapply wp_kfree; [done..|].
    intros s' Heq Hfl'. eapply wp_mono; [by apply (IH (pa :: l))|].
    intros rs t (-> & Ht & Hag). split_and!; [done..|].
    intros q Hq Hql Hf. apply not_elem_of_cons in Hf as [Hne Hf].
    eapply agree_trans; [by apply Hag; [|apply not_elem_of_cons|]|].
    rewrite (keq_ram _ _ Heq). by apply agree_freed.
Qed.

(** C12: in any sequence of [kalloc] and [kfree] calls that frees only pages in
    use, the calls never panic and never block, [kalloc] returns 0 exactly
    when no page is free and otherwise the page the stack of free pages
    predicts (so never one that is in use), and the bytes of the pages that
    stay in use do not change. *)
Theorem kalloc_refines_stack (ops : list AllocOp) (l : list Z) (s : KState)
  (Hfl : free_list s l) (Hu : well_used ops l) :
  ∃ s', run_alloc ops s = Ret (spec_alloc ops l).1 s' ∧ free_list s' (spec_alloc ops l).2 ∧
    ∀ q, page_ok q → q ∉ l → q ∉ freed_by ops → agree q PGSIZE (ram s') (ram s).
Proof.
  destruct (proj1 (wp_atomic _ _ _) (run_alloc_spec ops l s Hfl Hu)) as (rs & s' & Hrun & -> & H1 & H2).
  eauto.
Qed.

(** ** Boot *)

Lemma freerange_spec fuel p l s :
  free_list s l → (∀ q, q ∈ l → q < p) → p mod PGSIZE = 0 → end_ ≤ p →
  PHYSTOP < p + (Z.of_nat fuel + 1) * PGSIZE →
  wp Atomic (freerange_loop fuel p PHYSTOP)
    (λ _ s', ∃ l', free_list s' l' ∧ ∀ q, q ∈ l' ↔ q ∈ l ∨ (page_ok q ∧ p ≤ q)) s.
Proof.
  revert p l s. induction fuel as [|fuel IH]; intros p l s Hfl Hlt Hp He Hf; cbn [freerange_loop].
  all: destruct (Z.leb_spec (p + PGSIZE) PHYSTOP); [|apply wp_ret; exists l; split; [done|]; intros q;
    split; [by left|intros [?|[[Hq ?] ?]]; [done|]]].
  2, 4: exfalso; unfold PGSIZE, PHYSTOP, KERNBASE in *; pose proof (Z.div_mod p 4096);
    pose proof (Z.div_mod q 4096); lia.
  - exfalso. unfold PGSIZE in *. lia.
  - ksteps. eapply (wp_kfree _ p l).
    + done.
    + split; [done|]. unfold PGSIZE in *. lia.
    + intros Hin. specialize (Hlt _ Hin). lia.
    + intros s' _ Hfl'. eapply wp_mono; [apply (IH (p + PGSIZE) (p :: l)); [done|..]|].
      * intros q [->|Hq%Hlt]%elem_of_cons; unfold PGSIZE; lia.
      * rewrite Z.add_mod, Hp by (unfold PGSIZE; lia). done.
      * unfold PGSIZE. lia.
      * unfold PGSIZE in *. lia.
      * intros _ t (l' & Ht & Hin). exists l'. split; [done|]. intros q. rewrite Hin, elem_of_cons.
        assert (page_ok p) by (split; [done|unfold PGSIZE in *; lia]).
        split.
        -- intros [[->|?]|[? ?]]; [right|left|right]; try done; split; try done; unfold PGSIZE in *; lia.
        -- intros [?|[Hq ?]]; [by left; right|]. destruct (decide (q = p)) as [->|Hne]; [by left; left|].
           right. split; [done|]. destruct (page_disjoint p q); auto; unfold PGSIZE in *; lia.
Qed.

(** [kinit] leaves every aligned page between the end of the kernel and
    PHYSTOP on the free list, each once, and nothing else. *)
Theorem kinit_frees_all_pages (s : KState) (Hs : sync_ok s) (H0 : freelist s = 0) :
  ∃ s' l, kinit s = Ret tt s' ∧ free_list s' l ∧ ∀ p, p ∈ l ↔ page_ok p.
Proof.
  pose proof end_range as He. unfold KERNBASE, PHYSTOP in He.
  assert (Hup : PGROUNDUP end_ = end_ + PGSIZE - 1 - (end_ + PGSIZE - 1) mod PGSIZE)
    by (apply PGROUNDUP_eq; unfold PGSIZE, KERNBASE in *; lia).
  pose proof (Z.div_mod (end_ + PGSIZE - 1) PGSIZE ltac:(unfold PGSIZE; lia)) as Hdm.
  pose proof (Z.mod_pos_bound (end_ + PGSIZE - 1) PGSIZE ltac:(unfold PGSIZE; lia)) as Hmod.
  assert (Hal : PGROUNDUP end_ mod PGSIZE = 0).
  { rewrite Hup. replace (_ - _) with (0 + (end_ + PGSIZE - 1) / PGSIZE * PGSIZE) by lia.
    rewrite Z.mod_add; unfold PGSIZE; done. }
  assert (Hwp : wp Atomic kinit (λ _ s', ∃ l, free_list s' l ∧ ∀ p, p ∈ l ↔ page_ok p) s).
  { unfold kinit, initlock, freerange. ksteps. eapply wp_mono; [apply (freerange_spec _ _ [])|].
    - split; cbn; [done|constructor|done| |done]. unfold lock_free. cbn. rewrite lookup_insert_eq. eauto.
    - by intros q Hq%elem_of_nil.
    - done.
    - unfold PGSIZE in *. lia.
    - pose proof (Z.div_mod (PHYSTOP - PGROUNDUP end_) PGSIZE ltac:(unfold PGSIZE; lia)).
      pose proof (Z.mod_pos_bound (PHYSTOP - PGROUNDUP end_) PGSIZE ltac:(unfold PGSIZE; lia)).
      destruct (decide (0 ≤ (PHYSTOP - PGROUNDUP end_) / PGSIZE)); unfold PGSIZE in *; lia.
    - intros _ s' (l & Hl & Hin). exists l. split; [done|]. intros p. rewrite Hin.
      split; [by intros [?%elem_of_nil|[? _]]|]. intros Hp. right. split; [done|].
      destruct Hp as [Hp ?]. unfold PGSIZE in *. pose proof (Z.div_mod p 4096).
      pose proof (Z.div_mod (end_ + 4096 - 1) 4096). lia. }
  destruct (proj1 (wp_atomic _ _ _) Hwp) as ([] & s' & Hrun & l & ? & ?). eauto.
Qed.
End Kalloc.

(** Two free pages, the rest of memory in use. *)
Definition two_pages : KState :=
  set_locks {[ Lkmem := mkLock 0 "kmem" None ]}
    (set_freelist 0x80030000 (set_ram (write64 ∅ 0x80030000 0x80050000) bss)).

Lemma kalloc_refines_stack_witness :
  ∃ s', run_alloc (H := sample_image) [Alloc; Alloc; Alloc; Free 0x80050000; Alloc] two_pages =
      Ret [0x80030000; 0x80050000; 0; 0x80050000] s' ∧ free_list (H := sample_image) s' [].
Proof.
  destruct (kalloc_refines_stack (H := sample_image) [Alloc; Alloc; Alloc; Free 0x80050000; Alloc]
              [0x80030000; 0x80050000] two_pages) as (s' & Hrun & Hl & _).
  - split.
    + vm_compute. done.
    + apply (bool_decide_unpack _). vm_compute. exact I.
    + repeat constructor; vm_compute; done.
    + exists "kmem". vm_compute. done.
    + split; cbn; [lia|done].
  - cbn. split_and!; [split; vm_compute; done|by intros Hin%elem_of_nil|done].
  - exists s'. split; [exact Hrun|exact Hl].
Defined.

Lemma kinit_frees_all_pages_witness :
  ∃ s' l, kinit (H := sample_image) bss = Ret tt s' ∧ free_list (H := sample_image) s' l ∧
    ∀ p, p ∈ l ↔ page_ok (H := sample_image) p.
Proof.
  apply (kinit_frees_all_pages (H := sample_image) bss); [split; cbn; [lia|done]|reflexivity].
Defined.
