(* ===== verification/Vm.v ===== *)
(** * vm.c: page tables and user memory

    Page tables live in physical memory and are walked word by word.  A
    pointer to a page-table entry is its physical address, 0 the null pointer.
    Kernel buffers that are copied to or from user space are byte lists. *)

From S2P Require Import Prelude CString Kernel KLogic Spinlock KMem Kalloc.
Open Scope Z_scope.
Open Scope os_scope.

(** ** riscv.h *)

Definition PTE_V : Z := 1.
Definition PTE_R : Z := 2.
Definition PTE_W : Z := 4.
Definition PTE_X : Z := 8.
Definition PTE_U : Z := 16.

Definition PA2PTE (pa : Z) : Z := u64 (Z.shiftl (Z.shiftr pa 12) 10).
Definition PTE2PA (pte : Z) : Z := u64 (Z.shiftl (Z.shiftr pte 10) 12).
Definition PTE_FLAGS (pte : Z) : Z := Z.land pte 0x3FF.
Definition PXSHIFT (level : Z) : Z := 12 + 9 * level.
Definition PX (level va : Z) : Z := Z.land (Z.shiftr va (PXSHIFT level)) 0x1FF.

(** [flag & bit] as a condition. *)
Definition has (e bit : Z) : bool := negb (Z.land e bit =? 0).

Definition MAKE_SATP (pt : Z) : Z := Z.lor (Z.shiftl 8 60) (Z.shiftr pt 12).

(** A load through a pointer that the code does not check. *)
Definition deref (a : Z) : M Z := if a =? 0 then halt Undef else load64 a.

Section Vm.
Context `{KernelImage}.

(** The loop of [walk] over the levels. *)
Fixpoint walk_down (levels : list Z) (pagetable va : Z) (alloc : bool) : M (option Z) :=
  match levels with
  | [] => mret (Some pagetable)
  | level :: levels' =>
      let pte := pagetable + 8 * PX level va in
      e ← load64 pte;
      if has e PTE_V then walk_down levels' (PTE2PA e) va alloc else
      if negb alloc then mret None else
      n ← kalloc;
      if n =? 0 then mret None else
      fill n 0;;
      store64 pte (Z.lor (PA2PTE n) PTE_V);;
      walk_down levels' n va alloc
  end.

Definition walk (pagetable va : Z) (alloc : bool) : M Z :=
  if MAXVA <=? va then panic "walk" else
  t ← walk_down [2; 1] pagetable va alloc;
  match t with
  | None => mret 0
  | Some pt => mret (pt + 8 * PX 0 va)
  end.

Definition walkaddr (pagetable va : Z) : M Z :=
  if MAXVA <=? va then mret 0 else
  pte ← walk pagetable va false;
  if pte =? 0 then mret 0 else
  e ← load64 pte;
  if negb (has e PTE_V) then mret 0 else
  if negb (has e PTE_U) then mret 0 else
  mret (PTE2PA e).

Fixpoint mappages_loop (fuel : nat) (pagetable a last pa perm : Z) : M Z :=
  match fuel with
  | O => halt NoFuel
  | S fuel' =>
      pte ← walk pagetable a true;
      if pte =? 0 then mret (-1) else
      e ← load64 pte;
      if has e PTE_V then panic "mappages: remap" else
      store64 pte (Z.lor (Z.lor (PA2PTE pa) perm) PTE_V);;
      if a =? last then mret 0
      else mappages_loop fuel' pagetable (u64 (a + PGSIZE)) last (u64 (pa + PGSIZE)) perm
  end.

Definition mappages (pagetable va size pa perm : Z) : M Z :=
  if negb (va mod PGSIZE =? 0) then panic "mappages: va not aligned" else
  if negb (size mod PGSIZE =? 0) then panic "mappages: size not aligned" else
  if size =? 0 then panic "mappages: size" else
  mappages_loop (Z.to_nat (size / PGSIZE)) pagetable va (u64 (va + size - PGSIZE)) pa perm.

Definition kvmmap (kpgtbl va pa sz perm : Z) : M unit :=
  r ← mappages kpgtbl va sz pa perm;
  if negb (r =? 0) then panic "kvmmap" else mret tt.

Definition uvmcreate : M Z :=
  pagetable ← kalloc;
  if pagetable =? 0 then mret 0 else
  fill pagetable 0;;
  mret pagetable.

Fixpoint uvmunmap_loop (fuel : nat) (pagetable a stop : Z) (do_free : bool) : M unit :=
  if a <? stop then
    match fuel with
    | O => halt NoFuel
    | S fuel' =>
        pte ← walk pagetable a false;
        (if pte =? 0 then mret tt else
         e ← load64 pte;
         if negb (has e PTE_V) then mret tt else
         when do_free (kfree (PTE2PA e));;
         store64 pte 0);;
        uvmunmap_loop fuel' pagetable (u64 (a + PGSIZE)) stop do_free
    end
  else mret tt.

Definition uvmunmap (pagetable va npages : Z) (do_free : bool) : M unit :=
  if negb (va mod PGSIZE =? 0) then panic "uvmunmap: not aligned" else
  uvmunmap_loop (Z.to_nat npages) pagetable va (u64 (va + npages * PGSIZE)) do_free.

(** [npages] is an [int]. *)
Definition uvmdealloc (pagetable oldsz newsz : Z) : M Z :=
  if oldsz <=? newsz then mret oldsz else
  when (PGROUNDUP newsz <? PGROUNDUP oldsz)
    (let npages := s32 ((PGROUNDUP oldsz - PGROUNDUP newsz) / PGSIZE) in
     uvmunmap pagetable (PGROUNDUP newsz) (u64 npages) true);;
  mret newsz.

Fixpoint uvmalloc_loop (fuel : nat) (pagetable oldsz a newsz xperm : Z) : M Z :=
  if a <? newsz then
    match fuel with
    | O => halt NoFuel
    | S fuel' =>
        mem ← kalloc;
        if mem =? 0 then uvmdealloc pagetable a oldsz;; mret 0 else
        fill mem 0;;
        r ← mappages pagetable a PGSIZE mem (Z.lor (Z.lor PTE_R PTE_U) xperm);
        if negb (r =? 0) then kfree mem;; uvmdealloc pagetable a oldsz;; mret 0 else
        uvmalloc_loop fuel' pagetable oldsz (u64 (a + PGSIZE)) newsz xperm
    end
  else mret newsz.

Definition uvmalloc (pagetable oldsz newsz xperm : Z) : M Z :=
  if newsz <? oldsz then mret oldsz else
  let oldsz := PGROUNDUP oldsz in
  uvmalloc_loop (Z.to_nat ((newsz - oldsz) / PGSIZE + 1)) pagetable oldsz oldsz newsz xperm.

(** The 512 entries of a page-table page; [child] frees a lower level. *)
Fixpoint freewalk_entries (child : Z → M unit) (pagetable : Z) (idx : list nat) : M unit :=
  match idx with
  | [] => mret tt
  | i :: idx' =>
      let a := pagetable + 8 * Z.of_nat i in
      pte ← load64 a;
      (if has pte PTE_V && (Z.land pte (Z.lor (Z.lor PTE_R PTE_W) PTE_X) =? 0)
       then child (PTE2PA pte);; store64 a 0
       else if has pte PTE_V then panic "freewalk: leaf" else mret tt);;
      freewalk_entries child pagetable idx'
  end.

(** Recursive freeing; [depth] is the number of levels below. *)
Fixpoint freewalk_rec (depth : nat) (pagetable : Z) : M unit :=
  match depth with
  | O => halt NoFuel
  | S depth' => freewalk_entries (freewalk_rec depth') pagetable (seq 0 512);; kfree pagetable
  end.

(** Sv39 tables have three levels. *)
Definition freewalk (pagetable : Z) : M unit := freewalk_rec 3 pagetable.

Definition uvmfree (pagetable sz : Z) : M unit :=
  when (0 <? sz) (uvmunmap pagetable 0 (PGROUNDUP sz / PGSIZE) true);;
  freewalk pagetable.

Fixpoint uvmcopy_loop (fuel : nat) (old new i sz : Z) : M Z :=
  if i <? sz then
    match fuel with
    | O => halt NoFuel
    | S fuel' =>
        let next := uvmcopy_loop fuel' old new (u64 (i + PGSIZE)) sz in
        pte ← walk old i false;
        if pte =? 0 then next else
        e ← load64 pte;
        if negb (has e PTE_V) then next else
        let pa := PTE2PA e in
        let flags := PTE_FLAGS e in
        mem ← kalloc;
        if mem =? 0 then uvmunmap new 0 (i / PGSIZE) true;; mret (-1) else
        modify (λ s, set_ram (memmove (ram s) mem pa PGSIZE) s);;
        r ← mappages new i PGSIZE mem flags;
        if negb (r =? 0) then kfree mem;; uvmunmap new 0 (i / PGSIZE) true;; mret (-1) else
        next
    end
  else mret 0.

Definition uvmcopy (old new sz : Z) : M Z := uvmcopy_loop (Z.to_nat (sz / PGSIZE + 1)) old new 0 sz.

Definition uvmclear (pagetable va : Z) : M unit :=
  pte ← walk pagetable va false;
  if pte =? 0 then panic "uvmclear" else
  e ← load64 pte;
  store64 pte (Z.land e (u64 (Z.lnot PTE_U))).

Definition ismapped (pagetable va : Z) : M bool :=
  pte ← walk pagetable va false;
  if pte =? 0 then mret false else
  e ← load64 pte;
  mret (has e PTE_V).

(** The process that is running; the code dereferences the result of
    [myproc()] without a check. *)
Definition curproc : M nat := o ← myproc; need o.

Definition vmfault (pagetable va : Z) : M Z :=
  i ← curproc;
  p ← getp i;
  if p_sz p <=? va then mret 0 else
  let va := PGROUNDDOWN va in
  b ← ismapped pagetable va;
  if (b : bool) then mret 0 else
  mem ← kalloc;
  if mem =? 0 then mret 0 else
  fill mem 0;;
  p ← getp i;
  r ← mappages (p_pagetable p) va PGSIZE mem (Z.lor (Z.lor PTE_W PTE_U) PTE_R);
  if negb (r =? 0) then kfree mem;; mret 0 else
  mret mem.

(** The physical address of a user page, faulted in when it is not present. *)
Definition touch (pagetable va0 : Z) : M Z :=
  pa0 ← walkaddr pagetable va0;
  if pa0 =? 0 then vmfault pagetable va0 else mret pa0.

Fixpoint copyout_loop (fuel : nat) (pagetable dstva : Z) (src : list Z) : M Z :=
  match src with
  | [] => mret 0
  | _ =>
      match fuel with
      | O => halt NoFuel
      | S fuel' =>
          let va0 := PGROUNDDOWN dstva in
          if MAXVA <=? va0 then mret (-1) else
          pa0 ← touch pagetable va0;
          if pa0 =? 0 then mret (-1) else
          pte ← walk pagetable va0 false;
          e ← deref pte;
          if negb (has e PTE_W) then mret (-1) else
          let n := Nat.min (Z.to_nat (PGSIZE - (dstva - va0))) (length src) in
          modify (λ s, set_ram (put_bytes (ram s) (pa0 + (dstva - va0)) (take n src)) s);;
          copyout_loop fuel' pagetable (u64 (va0 + PGSIZE)) (drop n src)
      end
  end.

Definition copyout (pagetable dstva : Z) (src : list Z) : M Z :=
  copyout_loop (length src) pagetable dstva src.

(** The result is the return value and the bytes copied. *)
Fixpoint copyin_loop (fuel : nat) (pagetable srcva : Z) (len : nat) : M (Z * list Z) :=
  match len with
  | O => mret (0, [])
  | _ =>
      match fuel with
      | O => halt NoFuel
      | S fuel' =>
          let va0 := PGROUNDDOWN srcva in
          pa0 ← touch pagetable va0;
          if pa0 =? 0 then mret (-1, []) else
          let n := Nat.min (Z.to_nat (PGSIZE - (srcva - va0))) len in
          bs ← gets (λ s, bytes_at (ram s) (pa0 + (srcva - va0)) n);
          r ← copyin_loop fuel' pagetable (u64 (va0 + PGSIZE)) (len - n);
          mret (r.1, bs ++ r.2)
      end
  end.

Definition copyin (pagetable srcva : Z) (len : nat) : M (Z * list Z) :=
  copyin_loop len pagetable srcva len.

(** The bytes of one page up to the end of the string: the bytes, and whether
    the terminator was among them. *)
Fixpoint take_string (bs : list Z) : list Z * bool :=
  match bs with
  | [] => ([], false)
  | b :: bs' => if b =? 0 then ([0], true) else let r := take_string bs' in (b :: r.1, r.2)
  end.

Fixpoint copyinstr_loop (fuel : nat) (pagetable srcva : Z) (max : nat) : M (Z * list Z) :=
  match max with
  | O => mret (-1, [])
  | _ =>
      match fuel with
      | O => halt NoFuel
      | S fuel' =>
          let va0 := PGROUNDDOWN srcva in
          pa0 ← walkaddr pagetable va0;
          if pa0 =? 0 then mret (-1, []) else
          let n := Nat.min (Z.to_nat (PGSIZE - (srcva - va0))) max in
          bs ← gets (λ s, bytes_at (ram s) (pa0 + (srcva - va0)) n);
          let p := take_string bs in
          if p.2 then mret (0, p.1) else
          r ← copyinstr_loop fuel' pagetable (u64 (va0 + PGSIZE)) (max - n);
          mret (r.1, p.1 ++ r.2)
      end
  end.

Definition copyinstr (pagetable srcva : Z) (max : nat) : M (Z * list Z) :=
  copyinstr_loop max pagetable srcva max.

Fixpoint uvmmirror_loop (fuel : nat) (old new i sz : Z) : M Z :=
  if i <? sz then
    match fuel with
    | O => halt NoFuel
    | S fuel' =>
        pte ← walk old i false;
        if pte =? 0 then panic "uvmmirror: pte should exist" else
        e ← load64 pte;
        if negb (has e PTE_V) then panic "uvmmirror: page not present" else
        r ← mappages new i PGSIZE (PTE2PA e) (PTE_FLAGS e);
        if negb (r =? 0) then uvmunmap new 0 (i / PGSIZE) false;; mret (-1) else
        uvmmirror_loop fuel' old new (u64 (i + PGSIZE)) sz
    end
  else mret 0.

Definition uvmmirror (old new sz : Z) : M Z := uvmmirror_loop (Z.to_nat (sz / PGSIZE + 1)) old new 0 sz.

(** ** The kernel page table *)

Definition UART0 : Z := 0x10000000.
Definition VIRTIO0 : Z := 0x10001000.
Definition PLIC : Z := 0x0c000000.

(** [proc_mapstacks] of proc.c. *)
Definition proc_mapstacks (kpgtbl : Z) : M unit :=
  r ← for_each (R := unit) (λ i : nat,
    pa ← kalloc;
    (if pa =? 0 then panic "kalloc" else
     kvmmap kpgtbl (KSTACK (Z.of_nat i)) pa PGSIZE (Z.lor PTE_R PTE_W));;
    mret None) indices;
  mret tt.

Definition kvmmake : M Z :=
  kpgtbl ← kalloc;
  fill kpgtbl 0;;
  kvmmap kpgtbl UART0 UART0 PGSIZE (Z.lor PTE_R PTE_W);;
  kvmmap kpgtbl VIRTIO0 VIRTIO0 PGSIZE (Z.lor PTE_R PTE_W);;
  kvmmap kpgtbl PLIC PLIC 0x4000000 (Z.lor PTE_R PTE_W);;
  kvmmap kpgtbl KERNBASE KERNBASE (etext - KERNBASE) (Z.lor PTE_R PTE_X);;
  kvmmap kpgtbl etext etext (PHYSTOP - etext) (Z.lor PTE_R PTE_W);;
  kvmmap kpgtbl TRAMPOLINE trampoline PGSIZE (Z.lor PTE_R PTE_X);;
  proc_mapstacks kpgtbl;;
  mret kpgtbl.

Definition kvminit : M unit := pt ← kvmmake; modify (set_kernel_pagetable pt).

Definition kvminithart : M unit :=
  pt ← gets (λ s, kernel_pagetable s);
  modify (λ s, set_csr (mkCsr (stvec (csr s)) (sepc (csr s)) (scause (csr s)) (stval (csr s))
                          (MAKE_SATP pt) (spp (csr s)) (spie (csr s)) (stimecmp (csr s))) s).
End Vm.
