(* ===== verification/VmSpec.v ===== *)
(** * Page tables as maps

    [pt_rep m root T]: in memory [m] the page-table pages reachable from
    [root] are exactly those of the tree [T], which maps a path of indices to
    the page at its end; no page occurs twice.  The abstract page table is the
    function [pte_of m T] from virtual addresses to entries.  The operations of
    vm.c are specified by what they do to it. *)

From S2P Require Import Prelude CString Kernel KLogic Spinlock KMem Kalloc Vm.
Open Scope Z_scope.
Open Scope os_scope.

(** ** Bits of page-table entries *)

Lemma has_testbit e k : 0 ≤ k → has e (2 ^ k) = Z.testbit e k.
Proof.
  intros Hk. unfold has. destruct (Z.testbit e k) eqn:Hb.
  - destruct (Z.eqb_spec (Z.land e (2 ^ k)) 0) as [Heq|]; [|done].
    apply (f_equal (λ z, Z.testbit z k)) in Heq.
    rewrite Z.land_spec, Hb, Z.pow2_bits_true, Z.bits_0 in Heq by done. done.
  - replace (Z.land e (2 ^ k)) with 0; [done|]. symmetry. apply Z.bits_inj'. intros n Hn.
    rewrite Z.land_spec, Z.bits_0. destruct (decide (n = k)) as [->|].
    + by rewrite Hb.
    + rewrite Z.pow2_bits_false by done. by rewrite andb_false_r.
Qed.

Lemma has_V e : has e PTE_V = Z.testbit e 0. Proof. by apply (has_testbit e 0). Qed.
Lemma has_W e : has e PTE_W = Z.testbit e 2. Proof. by apply (has_testbit e 2). Qed.
Lemma has_U e : has e PTE_U = Z.testbit e 4. Proof. by apply (has_testbit e 4). Qed.

Definition pa_ok (pa : Z) : Prop := pa mod PGSIZE = 0 ∧ 0 ≤ pa < 2 ^ 56.

Lemma PA2PTE_eq pa : pa_ok pa → PA2PTE pa = Z.shiftl (pa / 4096) 10.
Proof.
  intros [_ Hr]. unfold PA2PTE, u64. rewrite Z.shiftr_div_pow2 by lia. change (2 ^ 12) with 4096.
  rewrite Z.shiftl_mul_pow2 by lia. apply Z.mod_small.
  pose proof (Z.div_pos pa 4096). pose proof (Z.div_lt_upper_bound pa 4096 (2 ^ 44)). lia.
Qed.

Lemma PTE2PA_entry pa f : pa_ok pa → 0 ≤ f < 2 ^ 10 → PTE2PA (Z.lor (PA2PTE pa) f) = pa.
Proof.
  intros Hpa Hf. unfold PTE2PA. rewrite PA2PTE_eq by done. destruct Hpa as [Ha Hr].
  rewrite Z.shiftr_lor, Z.shiftr_shiftl_l, Z.sub_diag, Z.shiftl_0_r by lia.
  rewrite (Z.shiftr_div_pow2 f), (Z.div_small f), Z.lor_0_r by lia.
  rewrite Z.shiftl_mul_pow2 by lia. unfold PGSIZE in Ha. pose proof (Z.div_mod pa 4096).
  unfold u64. rewrite Z.mod_small; lia.
Qed.

Lemma entry_testbit pa f k : pa_ok pa → 0 ≤ k < 10 → Z.testbit (Z.lor (PA2PTE pa) f) k = Z.testbit f k.
Proof.
  intros Hpa Hk. rewrite PA2PTE_eq by done. rewrite Z.lor_spec, Z.shiftl_spec_low by lia. done.
Qed.

Lemma table_entry_valid pa : pa_ok pa → has (Z.lor (PA2PTE pa) PTE_V) PTE_V = true.
Proof. intros. rewrite has_V, entry_testbit by (done || lia). done. Qed.

Lemma entry_range pa f : pa_ok pa → 0 ≤ f < 2 ^ 10 → 0 ≤ Z.lor (PA2PTE pa) f < 2 ^ 64.
Proof.
  intros Hpa Hf. rewrite PA2PTE_eq by done. destruct Hpa as [_ Hr].
  assert (0 ≤ pa / 4096 < 2 ^ 44) by (split; [apply Z.div_pos; lia|apply Z.div_lt_upper_bound; lia]).
  assert (Hl : Z.land (Z.shiftl (pa / 4096) 10) f = 0).
  { apply Z.bits_inj'. intros n Hn. rewrite Z.land_spec, Z.bits_0.
    destruct (decide (n < 10)); [by rewrite Z.shiftl_spec_low by lia|].
    rewrite (Z.bits_above_log2 f n); [by rewrite andb_false_r|lia|].
    destruct (decide (f = 0)) as [->|]; [cbn; lia|].
    apply Z.log2_lt_pow2; [lia|]. assert (2 ^ 10 ≤ 2 ^ n) by (apply Z.pow_le_mono_r; lia). lia. }
  rewrite <- Z.lxor_lor, <- Z.add_nocarry_lxor, Z.shiftl_mul_pow2 by done || lia. lia.
Qed.

(** ** Indices *)

Lemma PX_eq l va : 0 ≤ l → PX l va = va / 2 ^ (12 + 9 * l) mod 512.
Proof.
  intros Hl. unfold PX, PXSHIFT. change 0x1FF with (Z.ones 9).
  by rewrite Z.land_ones, Z.shiftr_div_pow2 by lia.
Qed.
Lemma PX_range l va : 0 ≤ l → 0 ≤ PX l va < 512.
Proof. intros. rewrite PX_eq by done. apply Z.mod_pos_bound. lia. Qed.

(** The three indices determine the page. *)
Lemma PX_page va : 0 ≤ va < MAXVA →
  va / 4096 = PX 2 va * 262144 + PX 1 va * 512 + PX 0 va.
Proof.
  change MAXVA with 274877906944. intros Hva. rewrite !PX_eq by lia. cbn [Z.mul Z.add].
  change (2 ^ (12 + 9 * 2)) with (4096 * 262144). change (2 ^ (12 + 9 * 1)) with (4096 * 512).
  change (2 ^ (12 + 9 * 0)) with 4096.
  rewrite <- (Z.div_div va 4096 262144), <- (Z.div_div va 4096 512) by lia.
  assert (Hn : 0 ≤ va / 4096 < 67108864)
    by (split; [apply Z.div_pos; lia|apply Z.div_lt_upper_bound; lia]).
  revert Hn. generalize (va / 4096). intros n Hn.
  change 262144 with (512 * 512) at 1. rewrite <- (Z.div_div n 512 512) by lia.
  pose proof (Z.div_mod n 512). pose proof (Z.div_mod (n / 512) 512).
  rewrite (Z.mod_small (n / 512 / 512)); [lia|].
  split; [apply Z.div_pos; [apply Z.div_pos|]; lia|].
  apply Z.div_lt_upper_bound; [lia|]. apply Z.div_lt_upper_bound; lia.
Qed.

Definition path (va : Z) : list Z := [PX 2 va; PX 1 va].

Lemma path_inj va va' : 0 ≤ va < MAXVA → 0 ≤ va' < MAXVA →
  path va = path va' → PX 0 va = PX 0 va' → va / 4096 = va' / 4096.
Proof. intros H1 H2 [= E2 E1] E0. rewrite !PX_page by done. by rewrite E2, E1, E0. Qed.

(** ** The tree of page-table pages *)

Section Tree.
Context `{KernelImage}.

Record pt_rep (m : mem) (root : Z) (T : gmap (list Z) Z) : Prop := {
  pt_root : T !! [] = Some root;
  pt_page : ∀ p t, T !! p = Some t → page_ok t;
  pt_inj : ∀ p q t, T !! p = Some t → T !! q = Some t → p = q;
  pt_depth : ∀ p t, T !! p = Some t → (length p ≤ 2)%nat;
  pt_closed : ∀ p i t, T !! (p ++ [i]) = Some t → is_Some (T !! p);
  pt_entry : ∀ p t i, T !! p = Some t → (length p < 2)%nat → 0 ≤ i < 512 →
    match T !! (p ++ [i]) with
    | Some c => read64 m (t + 8 * i) = Z.lor (PA2PTE c) PTE_V
    | None => Z.testbit (read64 m (t + 8 * i)) 0 = false
    end
}.

(** The entry for a virtual address; 0 when its last-level table is missing. *)
Definition pte_of (m : mem) (T : gmap (list Z) Z) (va : Z) : Z :=
  match T !! path va with
  | Some t => read64 m (t + 8 * PX 0 va)
  | None => 0
  end.

Lemma page_pa_ok p : page_ok p → pa_ok p.
Proof.
  intros [Ha Hr]. split; [done|]. pose proof end_range. unfold PHYSTOP, KERNBASE in *. lia.
Qed.

Lemma entry_in_page i : 0 ≤ i < 512 → 0 ≤ 8 * i ∧ 8 * i + 8 ≤ PGSIZE.
Proof. unfold PGSIZE. lia. Qed.

(** Entries of different tables, or at different indices, do not overlap. *)
Lemma entries_apart t t' i j : page_ok t → page_ok t' → 0 ≤ i < 512 → 0 ≤ j < 512 →
  t ≠ t' ∨ i ≠ j → t + 8 * i + 8 ≤ t' + 8 * j ∨ t' + 8 * j + 8 ≤ t + 8 * i.
Proof.
  intros Ht Ht' Hi Hj [Hne|Hne].
  - destruct (page_disjoint t t'); auto; pose proof (entry_in_page i); pose proof (entry_in_page j); lia.
  - destruct (decide (t = t')) as [->|Hne']; [lia|].
    destruct (page_disjoint t t'); auto; pose proof (entry_in_page i); pose proof (entry_in_page j); lia.
Qed.

(** Memory that agrees on the tables represents the same tree. *)
Definition tables_agree (T : gmap (list Z) Z) (m m' : mem) : Prop :=
  ∀ p t, T !! p = Some t → agree t PGSIZE m m'.

Lemma entry_agree t i m m' : agree t PGSIZE m m' → 0 ≤ i < 512 → read64 m (t + 8 * i) = read64 m' (t + 8 * i).
Proof.
  intros Ha Hi. apply read64_ext. eapply agree_sub; [done|..]; pose proof (entry_in_page i Hi); lia.
Qed.

Lemma pt_rep_ext m m' root T : pt_rep m root T → tables_agree T m' m → pt_rep m' root T.
Proof.
  intros [H1 H2 H3 H4 H5 H6] Ha. split; try done. intros p t i Hp Hlen Hi.
  rewrite (entry_agree t i m' m) by eauto. by apply H6.
Qed.

Lemma pte_of_ext m m' T va : tables_agree T m' m → pte_of m' T va = pte_of m T va.
Proof.
  intros Ha. unfold pte_of. destruct (T !! path va) as [t|] eqn:Ht; [|done].
  apply entry_agree; [by eapply Ha|by apply PX_range].
Qed.

(** A table page, its tree, and the free pages. *)
Record vspace (s : KState) (root : Z) (T : gmap (list Z) Z) (l : list Z) : Prop := {
  vs_rep : pt_rep (ram s) root T;
  vs_free : free_list s l;
  vs_disj : ∀ p t, T !! p = Some t → t ∉ l
}.

(** [s'] differs from [s] in memory and in the free list only. *)
Definition only_mem (s s' : KState) : Prop := ∃ m f, s' ≡k set_ram m (set_freelist f s).

Lemma only_mem_keq s s' : s' ≡k s → only_mem s s'.
Proof. intros Heq. exists (ram s), (freelist s). rewrite Heq. by destruct s as [y []]. Qed.
Lemma only_mem_trans s1 s2 s3 : only_mem s1 s2 → only_mem s2 s3 → only_mem s1 s3.
Proof. intros (m2 & f2 & H1) (m3 & f3 & H2). exists m3, f3. by rewrite H2, H1. Qed.
Lemma only_mem_set_ram s s' m : only_mem s s' → only_mem s (set_ram m s').
Proof. intros (m2 & f2 & H1). exists m, f2. by rewrite H1. Qed.
Lemma only_mem_taken s s' n : s' ≡k taken n s → only_mem s s'.
Proof. intros Heq. by eexists _, _. Qed.
Lemma only_mem_freed s s' n : s' ≡k freed n s → only_mem s s'.
Proof. intros Heq. exists (ram (freed n s)), n. by rewrite Heq. Qed.
Lemma only_mem_procs s s' : only_mem s s' → procs s' = procs s.
Proof. intros (m & f & Heq). by rewrite (keq_procs _ _ Heq). Qed.
Lemma only_mem_cproc s s' : only_mem s s' → c_proc (cpu s') = c_proc (cpu s).
Proof. intros (m & f & Heq). by rewrite (keq_proc _ _ Heq). Qed.
Lemma only_mem_sync s s' : only_mem s s' → sync_ok s → sync_ok s'.
Proof. intros (m & f & Heq) Hs. by rewrite Heq. Qed.
Lemma only_mem_lock s s' k : only_mem s s' → lock_free s' k ↔ lock_free s k.
Proof. intros (m & f & Heq). by rewrite Heq. Qed.
Lemma only_mem_mine s s' k : only_mem s s' → lock_mine s' k ↔ lock_mine s k.
Proof. intros (m & f & Heq). by rewrite Heq. Qed.

(** ** Walking without allocation *)

Lemma run_walk s root T l va : vspace s root T l → 0 ≤ va < MAXVA →
  walk root va false s =
    Ret (match T !! path va with Some t => t + 8 * PX 0 va | None => 0 end) s.
Proof.
  intros [Hrep _ _] Hva. unfold walk. rewrite (proj2 (Z.leb_gt _ _)) by lia.
  unfold walk_down, load64. keval.
  pose proof (pt_entry _ _ _ Hrep [] root (PX 2 va) (pt_root _ _ _ Hrep) ltac:(cbn; lia)
                ltac:(by apply PX_range)) as E2. cbn [app] in E2.
  destruct (T !! [PX 2 va]) as [c|] eqn:Hc.
  - pose proof (page_pa_ok _ (pt_page _ _ _ Hrep _ _ Hc)) as Hcp.
    rewrite E2, table_entry_valid by done. cbn.
    rewrite PTE2PA_entry by (done || lia).
    pose proof (pt_entry _ _ _ Hrep [PX 2 va] c (PX 1 va) Hc ltac:(cbn; lia)
                  ltac:(by apply PX_range)) as E1. cbn [app] in E1.
    fold (path va) in E1. destruct (T !! path va) as [d|] eqn:Hd.
    + pose proof (page_pa_ok _ (pt_page _ _ _ Hrep _ _ Hd)) as Hdp.
      rewrite E1, table_entry_valid by done. cbn.
      by rewrite PTE2PA_entry by (done || lia).
    + rewrite has_V, E1. done.
  - rewrite has_V, E2. cbn.
    assert (Hn : T !! path va = None).
    { apply eq_None_not_Some. intros [d Hd]. destruct (pt_closed _ _ _ Hrep [PX 2 va] (PX 1 va) d Hd) as [? ?].
      congruence. }
    by rewrite Hn.
Qed.

(** ** Growing the tree by one table *)

Section Grow.
  Context (m m' : mem) (root : Z) (T : gmap (list Z) Z) (p : list Z) (t i n : Z).
  Hypothesis Hrep : pt_rep m root T.
  Hypothesis Hp : T !! p = Some t.
  Hypothesis Hlen : (length p < 2)%nat.
  Hypothesis Hi : 0 ≤ i < 512.
  Hypothesis Hnone : T !! (p ++ [i]) = None.
  Hypothesis Hn : page_ok n.
  Hypothesis Hfresh : ∀ q u, T !! q = Some u → u ≠ n.
  Hypothesis Hm' : ∀ q, page_ok q → q ≠ n → agree q PGSIZE m' m.

Definition grown : mem := write64 (memset m' n 0 PGSIZE) (t + 8 * i) (Z.lor (PA2PTE n) PTE_V).
Definition grown_tree : gmap (list Z) Z := <[p ++ [i] := n]> T.

Lemma grown_entry_new : read64 grown (t + 8 * i) = Z.lor (PA2PTE n) PTE_V.
  Proof. apply read_write64, entry_range; [by apply page_pa_ok|unfold PTE_V; lia]. Qed.

Lemma grown_entry_old q u j : T !! q = Some u → 0 ≤ j < 512 → u ≠ t ∨ j ≠ i →
    read64 grown (u + 8 * j) = read64 m (u + 8 * j).
  Proof.
    intros Hq Hj Hne. pose proof (pt_page _ _ _ Hrep _ _ Hq) as Hu.
    pose proof (pt_page _ _ _ Hrep _ _ Hp) as Ht. unfold grown.
    rewrite read64_write64_ne.
    2:{ destruct (entries_apart u t j i); auto. }
    apply entry_agree; [|done]. eapply agree_trans; [|apply Hm'; [done|by eapply Hfresh]].
    apply agree_memset. destruct (page_disjoint u n); [done|done|by eapply Hfresh|..]; lia.
  Qed.

Lemma grown_entry_fresh j : 0 ≤ j < 512 → read64 grown (n + 8 * j) = 0.
  Proof.
    intros Hj. pose proof (pt_page _ _ _ Hrep _ _ Hp) as Ht. unfold grown.
    rewrite read64_write64_ne.
    2:{ destruct (entries_apart n t j i); auto. left. intros ->. by eapply Hfresh. }
    apply read64_zero. intros x Hx. rewrite memset_spec, decide_True; [done|].
    pose proof (entry_in_page j Hj). lia.
  Qed.

  (** A frame outside the tree and different from the new page is untouched. *)
Lemma grown_frame q : page_ok q → q ≠ n → q ≠ t → agree q PGSIZE grown m.
  Proof.
    intros Hq Hqn Hqt. pose proof (pt_page _ _ _ Hrep _ _ Hp) as Ht.
    eapply agree_trans; [apply agree_write64|eapply agree_trans; [apply agree_memset|by apply Hm']].
    - pose proof (entry_in_page i Hi). destruct (page_disjoint q t); auto; lia.
    - destruct (page_disjoint q n); auto; lia.
  Qed.

Lemma grown_tree_none q : q ≠ p ++ [i] → grown_tree !! q = T !! q.
  Proof. intros. unfold grown_tree. by rewrite lookup_insert_ne. Qed.

Lemma grown_tree_Some q u : grown_tree !! q = Some u → (q = p ++ [i] ∧ u = n) ∨ T !! q = Some u.
  Proof. unfold grown_tree. intros [[<- <-]|[_ ?]]%lookup_insert_Some; auto. Qed.

Lemma no_children j : T !! ((p ++ [i]) ++ [j]) = None.
  Proof.
    apply eq_None_not_Some. intros [u Hu]. destruct (pt_closed _ _ _ Hrep _ _ _ Hu) as [? ?]. congruence.
  Qed.

Lemma grow_entries q u j : grown_tree !! q = Some u → (length q < 2)%nat → 0 ≤ j < 512 →
    match grown_tree !! (q ++ [j]) with
    | Some c => read64 grown (u + 8 * j) = Z.lor (PA2PTE c) PTE_V
    | None => Z.testbit (read64 grown (u + 8 * j)) 0 = false
    end.
  Proof.
    intros Hq Hql Hj. destruct (decide (q = p ++ [i])) as [->|Hqne].
    - unfold grown_tree in Hq. rewrite lookup_insert_eq in Hq. simplify_eq.
      rewrite grown_tree_none by (intros E; apply (f_equal length) in E; rewrite !length_app in E; cbn in E; lia).
      rewrite no_children, grown_entry_fresh by done. done.
    - rewrite grown_tree_none in Hq by done.
      destruct (decide (q ++ [j] = p ++ [i])) as [E|Hne].
      + apply app_inj_2 in E as [-> [= ->]]; [|done]. assert (u = t) as -> by congruence.
        unfold grown_tree. rewrite lookup_insert_eq. apply grown_entry_new.
      + rewrite grown_tree_none by done.
        rewrite (grown_entry_old q u j Hq Hj).
        * by apply (pt_entry _ _ _ Hrep).
        * destruct (decide (u = t)) as [->|]; [|by left]. right. intros ->. apply Hne.
          f_equal. by eapply (pt_inj _ _ _ Hrep).
  Qed.

Lemma grow_rep : pt_rep grown root grown_tree.
  Proof.
    assert (Hlen1 : length (p ++ [i]) = S (length p)) by (rewrite length_app; cbn; lia).
    split.
    - rewrite grown_tree_none; [apply Hrep|]. by destruct p.
    - intros q u [[-> ->]|Hq]%grown_tree_Some; [done|by eapply (pt_page _ _ _ Hrep)].
    - intros q r u [[-> ->]|Hq]%grown_tree_Some [[-> Hr]|Hr]%grown_tree_Some; try done.
      + by destruct (Hfresh r n).
      + rewrite Hr in Hq. by destruct (Hfresh q n).
      + by eapply (pt_inj _ _ _ Hrep).
    - intros q u [[-> ->]|Hq]%grown_tree_Some; [lia|by eapply (pt_depth _ _ _ Hrep)].
    - intros q j u [[Heq ->]|Hq]%grown_tree_Some.
      + apply app_inj_2 in Heq as [-> _]; [|done]. rewrite grown_tree_none; [eauto|].
        intros E. apply (f_equal length) in E. lia.
      + unfold grown_tree. destruct (pt_closed _ _ _ Hrep _ _ _ Hq) as [v Hv].
        destruct (decide (p ++ [i] = q)) as [<-|]; [by rewrite lookup_insert_eq|rewrite lookup_insert_ne; eauto].
    - intros. by apply grow_entries.
  Qed.

Lemma grow_pte va : pte_of grown grown_tree va = pte_of m T va.
  Proof.
    pose proof (PX_range 0 va ltac:(lia)) as H0.
    unfold pte_of. destruct (decide (path va = p ++ [i])) as [E|Hne].
    - unfold grown_tree. rewrite E, lookup_insert_eq, Hnone. by apply grown_entry_fresh.
    - rewrite grown_tree_none by done. destruct (T !! path va) as [u|] eqn:Hu; [|done].
      apply (grown_entry_old (path va)); [done..|]. left. intros ->.
      assert (E : path va = p) by (by eapply (pt_inj _ _ _ Hrep)). apply (f_equal length) in E. cbn in E. lia.
  Qed.
End Grow.

(** ** Walking with allocation *)

(** Tables were added, taken from the free pages; nothing else changed. *)
Record grows (root : Z) (s : KState) (T : gmap (list Z) Z) (l : list Z)
    (s' : KState) (T' : gmap (list Z) Z) (l' : list Z) : Prop := {
  gr_vs : vspace s' root T' l';
  gr_only : only_mem s s';
  gr_sub : T ⊆ T';
  gr_used : ∃ used, l = used ++ l' ∧ ∀ p t, T' !! p = Some t → T !! p = Some t ∨ t ∈ used;
  gr_pte : ∀ va, pte_of (ram s') T' va = pte_of (ram s) T va;
  gr_frame : ∀ q, page_ok q → q ∉ l → (∀ p t, T !! p = Some t → t ≠ q) →
    agree q PGSIZE (ram s') (ram s)
}.

Lemma grows_refl root s T l s' : vspace s root T l → s' ≡k s → grows root s T l s' T l.
Proof.
  intros [H1 H2 H3] Heq. assert (Hr := keq_ram _ _ Heq). split; try done.
  - split; [by rewrite Hr|by eapply free_list_keq; [symmetry|]|done].
  - by apply only_mem_keq.
  - exists []. split; [done|]. by left.
  - by rewrite Hr.
  - intros. by rewrite Hr.
Qed.

Lemma grows_trans root s1 T1 l1 s2 T2 l2 s3 T3 l3 :
  grows root s1 T1 l1 s2 T2 l2 → grows root s2 T2 l2 s3 T3 l3 → grows root s1 T1 l1 s3 T3 l3.
Proof.
  intros [A1 A2 A3 (u1 & -> & A4) A5 A6] [B1 B2 B3 (u2 & -> & B4) B5 B6]. split; try done.
  - by eapply only_mem_trans.
  - by etransitivity.
  - exists (u1 ++ u2). split; [by rewrite app_assoc|]. intros p t Hp.
    destruct (B4 p t Hp) as [Hp'|]; [destruct (A4 p t Hp'); [by left|]|]; right; apply elem_of_app; auto.
  - intros va. by rewrite B5.
  - intros q Hq Hnin Hd. eapply agree_trans; [|by apply A6]. apply B6; [done|..].
    + intros Hin. apply Hnin, elem_of_app. by right.
    + intros p t Hp ->. destruct (A4 p q Hp) as [Hp'|Hu]; [by eapply Hd|].
      apply Hnin, elem_of_app. by left.
Qed.

Lemma grow_step root s T n l p t i s1 :
  vspace s root T (n :: l) → T !! p = Some t → (length p < 2)%nat → 0 ≤ i < 512 →
  T !! (p ++ [i]) = None → s1 ≡k taken n s → free_list s1 l →
  grows root s T (n :: l) (set_ram (grown (ram s1) t i n) s1) (grown_tree T p i n) l.
Proof.
  intros Hvs Hp Hlen Hi Hc Heq Hfl. pose proof (vs_rep _ _ _ _ Hvs) as Hrep.
  assert (Hn : page_ok n) by (apply (Forall_cons_1 _ _ _ (fl_pages _ _ (vs_free _ _ _ _ Hvs)))).
  pose proof (keq_ram _ _ Heq) as Hr1. cbn in Hr1.
  assert (Hfresh : ∀ q u, T !! q = Some u → u ≠ n)
    by (intros q u Hq ->; by apply (vs_disj _ _ _ _ Hvs q n Hq); left).
  assert (Hag : ∀ q, page_ok q → q ≠ n → agree q PGSIZE (ram s1) (ram s))
    by (intros q Hq Hne; rewrite Hr1; by apply (agree_taken n q s)).
  pose proof (fl_nodup _ _ (vs_free _ _ _ _ Hvs)) as Hnd. apply NoDup_cons in Hnd as [Hnl _].
  assert (Hfr : ∀ q, page_ok q → q ≠ n → q ≠ t → agree q PGSIZE (grown (ram s1) t i n) (ram s))
    by (intros; by eapply grown_frame).
  split.
  - split; [by eapply grow_rep| |].
    + apply (free_list_ext s1); [done|done| |apply Hfl|apply Hfl].
      intros q Hq. assert (Hqok : page_ok q) by (by eapply Forall_forall; [apply (fl_pages _ _ Hfl)|]).
      assert (q ≠ n) by (intros ->; exact (Hnl Hq)).
      assert (q ≠ t) by (intros ->; by apply (vs_disj _ _ _ _ Hvs p t Hp); right).
      apply (agree_sub q PGSIZE); [|lia|unfold PGSIZE; lia]. cbn.
      eapply agree_trans; [by apply Hfr|]. apply agree_sym. by apply Hag.
    + intros q u [[-> ->]|Hq]%grown_tree_Some; [done|]. intros Hin. by apply (vs_disj _ _ _ _ Hvs q u Hq); right.
  - by eapply only_mem_set_ram, only_mem_taken.
  - by apply insert_subseteq.
  - exists [n]. split; [done|]. intros q u [[-> ->]|Hq]%grown_tree_Some; [right; by left|by left].
  - intros va. by apply (grow_pte (ram s) (ram s1) root).
  - intros q Hq Hnin Hd. cbn. apply Hfr; [done|by intros ->; apply Hnin; left|]. intros ->. by eapply Hd.
Qed.

Lemma wp_walk_level E root lev ls p t va T l Q s :
  vspace s root T l → T !! p = Some t → (length p < 2)%nat → 0 ≤ lev →
  (∀ s' T' l' c, grows root s T l s' T' l' → T' !! (p ++ [PX lev va]) = Some c →
     wp E (walk_down ls c va true) Q s') →
  (∀ s', grows root s T l s' T l → l = [] → Q None s') →
  wp E (walk_down (lev :: ls) t va true) Q s.
Proof.
  intros Hvs Hp Hlen Hlev Hsome Hnone. pose proof (PX_range lev va Hlev) as Hi.
  pose proof (vs_rep _ _ _ _ Hvs) as Hrep. cbn [walk_down].
  unfold load64, store64, fill. ksteps.
  pose proof (pt_entry _ _ _ Hrep p t _ Hp Hlen Hi) as He.
  destruct (T !! (p ++ [PX lev va])) as [c|] eqn:Hc.
  - pose proof (page_pa_ok _ (pt_page _ _ _ Hrep _ _ Hc)) as Hcp.
    rewrite He, table_entry_valid by done. cbn.
    rewrite PTE2PA_entry by (done || lia). by eapply Hsome; [apply grows_refl|].
  - rewrite has_V, He. cbn. ksteps. eapply wp_kalloc; [apply Hvs|..].
    + intros -> s' Heq _. cbn. ksteps. by apply Hnone; [apply grows_refl|].
    + intros n l' -> s1 Heq Hfl.
      assert (Hn : page_ok n) by (apply (Forall_cons_1 _ _ _ (fl_pages _ _ (vs_free _ _ _ _ Hvs)))).
      pose proof (page_pos _ Hn). rewrite (proj2 (Z.eqb_neq _ _)) by lia. ksteps.
      refine (Hsome (set_ram (grown (ram s1) t (PX lev va) n) s1) (grown_tree T p (PX lev va) n) l' n _ _).
      * by apply grow_step.
      * unfold grown_tree. by rewrite lookup_insert_eq.
Qed.

Lemma wp_walk E root va T l Q s :
  vspace s root T l → 0 ≤ va < MAXVA →
  (∀ s' T' l', grows root s T l s' T' l' → l' = [] → Q 0 s') →
  (∀ s' T' l' t, grows root s T l s' T' l' → T' !! path va = Some t → Q (t + 8 * PX 0 va) s') →
  wp E (walk root va true) Q s.
Proof.
  intros Hvs Hva H0 H1. unfold walk. rewrite (proj2 (Z.leb_gt _ _)) by lia. apply wp_bind.
  eapply (wp_walk_level _ root _ _ []); [done|apply Hvs|cbn; lia|lia| |].
  - intros s1 T1 l1 c G1 Hc. cbn [app] in Hc.
    eapply (wp_walk_level _ root _ _ [PX 2 va]); [apply G1|done|cbn; lia|lia| |].
    + intros s2 T2 l2 d G2 Hd. cbn [walk_down app] in *. ksteps.
      eapply H1; [by eapply grows_trans|done].
    + intros s2 G2 ->. ksteps. eapply H0; [by eapply grows_trans|done].
  - intros s1 G1 ->. ksteps. by eapply H0.
Qed.

(** ** Writing entries *)

(** As [grows], without a claim about the entries. *)
Record moves (root : Z) (s : KState) (T : gmap (list Z) Z) (l : list Z)
    (s' : KState) (T' : gmap (list Z) Z) (l' : list Z) : Prop := {
  mv_vs : vspace s' root T' l';
  mv_only : only_mem s s';
  mv_sub : T ⊆ T';
  mv_used : ∃ used, l = used ++ l' ∧ ∀ p t, T' !! p = Some t → T !! p = Some t ∨ t ∈ used;
  mv_frame : ∀ q, page_ok q → q ∉ l → (∀ p t, T !! p = Some t → t ≠ q) →
    agree q PGSIZE (ram s') (ram s)
}.

Lemma grows_moves root s T l s' T' l' : grows root s T l s' T' l' → moves root s T l s' T' l'.
Proof. intros [H1 H2 H3 H4 _ H6]. by split. Qed.

Lemma moves_trans root s1 T1 l1 s2 T2 l2 s3 T3 l3 :
  moves root s1 T1 l1 s2 T2 l2 → moves root s2 T2 l2 s3 T3 l3 → moves root s1 T1 l1 s3 T3 l3.
Proof.
  intros [A1 A2 A3 (u1 & -> & A4) A6] [B1 B2 B3 (u2 & -> & B4) B6]. split; try done.
  - by eapply only_mem_trans.
  - by etransitivity.
  - exists (u1 ++ u2). split; [by rewrite app_assoc|]. intros p t Hp.
    destruct (B4 p t Hp) as [Hp'|]; [destruct (A4 p t Hp'); [by left|]|]; right; apply elem_of_app; auto.
  - intros q Hq Hnin Hd. eapply agree_trans; [|by apply A6]. apply B6; [done|..].
    + intros Hin. apply Hnin, elem_of_app. by right.
    + intros p t Hp ->. destruct (A4 p q Hp) as [Hp'|Hu]; [by eapply Hd|].
      apply Hnin, elem_of_app. by left.
Qed.

Section SetLeaf.
  Context (s : KState) (root : Z) (T : gmap (list Z) Z) (l : list Z) (va t e : Z).
  Hypothesis Hvs : vspace s root T l.
  Hypothesis Hva : 0 ≤ va < MAXVA.
  Hypothesis Ht : T !! path va = Some t.
  Hypothesis He : 0 ≤ e < 2 ^ 64.

Definition set_leaf : KState := set_ram (write64 (ram s) (t + 8 * PX 0 va) e) s.

Lemma set_leaf_other q u j : T !! q = Some u → 0 ≤ j < 512 → (q, j) ≠ (path va, PX 0 va) →
    read64 (ram set_leaf) (u + 8 * j) = read64 (ram s) (u + 8 * j).
  Proof.
    intros Hq Hj Hne. pose proof (vs_rep _ _ _ _ Hvs) as Hrep. cbn. apply read64_write64_ne.
    apply entries_apart; [by eapply (pt_page _ _ _ Hrep)|by eapply (pt_page _ _ _ Hrep)|done|by apply PX_range|].
    destruct (decide (u = t)) as [->|]; [|by left]. right. intros ->. apply Hne.
    f_equal. by eapply (pt_inj _ _ _ Hrep).
  Qed.

Lemma set_leaf_frame q : page_ok q → t ≠ q → agree q PGSIZE (ram set_leaf) (ram s).
  Proof.
    intros Hq Hne. pose proof (pt_page _ _ _ (vs_rep _ _ _ _ Hvs) _ _ Ht) as Htp.
    pose proof (entry_in_page (PX 0 va) ltac:(by apply PX_range)).
    apply agree_write64. destruct (page_disjoint t q); auto; lia.
  Qed.

Lemma set_leaf_moves : moves root s T l set_leaf T l.
  Proof.
    pose proof (vs_rep _ _ _ _ Hvs) as Hrep. split.
    - split.
      + destruct Hrep as [H1 H2 H3 H4 H5 H6]. split; try done. intros p u i Hp Hlen Hi.
        rewrite (set_leaf_other p) by (done || (intros [= -> _]; cbn in Hlen; lia)). by apply H6.
      + pose proof (vs_free _ _ _ _ Hvs) as Hfl.
        apply (free_list_ext s); [done|done| |apply Hfl|apply Hfl].
        intros q Hq. apply (agree_sub q PGSIZE); [|lia|unfold PGSIZE; lia]. apply set_leaf_frame.
        * by eapply Forall_forall; [apply (fl_pages _ _ Hfl)|].
        * intros ->. exact (vs_disj _ _ _ _ Hvs _ _ Ht Hq).
      + apply (vs_disj _ _ _ _ Hvs).
    - by apply only_mem_set_ram, only_mem_keq.
    - done.
    - exists []. split; [done|]. by left.
    - intros q Hq _ Hd. apply set_leaf_frame; [done|by eapply Hd].
  Qed.

Lemma set_leaf_pte va' : 0 ≤ va' < MAXVA →
    pte_of (ram set_leaf) T va' = if decide (va' / 4096 = va / 4096) then e else pte_of (ram s) T va'.
  Proof.
    intros Hva'. unfold pte_of. case_decide as Hpn.
    - assert (Hpx : ∀ k, 0 ≤ k → PX k va' = PX k va).
      { intros k Hk. rewrite !PX_eq by done. rewrite Z.pow_add_r by lia. change (2 ^ 12) with 4096.
        by rewrite <- !Z.div_div, Hpn by lia. }
      unfold path. rewrite !Hpx by lia. fold (path va). rewrite Ht. cbn. by apply read_write64.
    - destruct (T !! path va') as [u|] eqn:Hu; [|done].
      apply (set_leaf_other (path va')); [done|by apply PX_range|].
      intros [= E2 E1 E0]. apply Hpn. apply path_inj; [done|done| |done]. unfold path. congruence.
  Qed.
End SetLeaf.

(** ** mappages *)

(** The entry [mappages] writes for a page of the range. *)
Definition leaf_entry (pa perm : Z) : Z := Z.lor (Z.lor (PA2PTE pa) perm) PTE_V.

Lemma perm_V_range perm : 0 ≤ perm < 2 ^ 10 → 0 ≤ Z.lor perm PTE_V < 2 ^ 10.
Proof.
  intros Hp. assert (0 ≤ Z.lor perm PTE_V) by (apply Z.lor_nonneg; unfold PTE_V; lia).
  split; [done|]. destruct (decide (perm = 0)) as [->|]; [done|].
  apply Z.log2_lt_pow2.
  - assert (Z.lor perm PTE_V ≠ 0) by (rewrite Z.lor_eq_0_iff; lia). lia.
  - rewrite Z.log2_lor by (unfold PTE_V; lia). change (Z.log2 PTE_V) with 0.
    rewrite Z.max_l by apply Z.log2_nonneg. apply Z.log2_lt_pow2; lia.
Qed.

Lemma leaf_entry_range pa perm : pa_ok pa → 0 ≤ perm < 2 ^ 10 → 0 ≤ leaf_entry pa perm < 2 ^ 64.
Proof.
  intros Hpa Hp. unfold leaf_entry. rewrite <- Z.lor_assoc. apply entry_range; [done|]. by apply perm_V_range.
Qed.

Definition mapped_range (m : mem) (T : gmap (list Z) Z) (a pa perm k va : Z) : Z :=
  if decide (a / 4096 ≤ va / 4096 < a / 4096 + k)
  then leaf_entry (pa + 4096 * (va / 4096 - a / 4096)) perm
  else pte_of m T va.

Lemma next_page_mod a : a mod 4096 = 0 → (a + 4096) mod 4096 = 0.
Proof. intros. replace (a + 4096) with (a + 1 * 4096) by lia. by rewrite Z.mod_add. Qed.
Lemma next_page_div a : (a + 4096) / 4096 = a / 4096 + 1.
Proof. replace (a + 4096) with (a + 1 * 4096) by lia. by rewrite Z.div_add. Qed.

Lemma mappages_loop_S fuel pt a last pa perm :
  mappages_loop (S fuel) pt a last pa perm =
    (pte ← walk pt a true;
     if pte =? 0 then mret (-1) else
     e ← load64 pte;
     if has e PTE_V then panic "mappages: remap" else
     store64 pte (leaf_entry pa perm);;
     if a =? last then mret 0
     else mappages_loop fuel pt (u64 (a + PGSIZE)) last (u64 (pa + PGSIZE)) perm).
Proof. done. Qed.

Lemma wp_mappages_loop E n root a last pa perm T l s :
  vspace s root T l → a mod 4096 = 0 → 0 ≤ a → a + Z.of_nat (S n) * 4096 ≤ MAXVA →
  last = a + Z.of_nat n * 4096 → pa mod 4096 = 0 → 0 ≤ pa → pa + Z.of_nat (S n) * 4096 ≤ 2 ^ 56 →
  0 ≤ perm < 2 ^ 10 →
  (∀ va, 0 ≤ va < MAXVA → a / 4096 ≤ va / 4096 ≤ a / 4096 + Z.of_nat n →
     Z.testbit (pte_of (ram s) T va) 0 = false) →
  wp E (mappages_loop (S n) root a last pa perm) (λ r s', ∃ T' l' k,
    moves root s T l s' T' l' ∧
    ((r = 0 ∧ k = Z.of_nat (S n)) ∨ (r = -1 ∧ 0 ≤ k ≤ Z.of_nat n ∧ l' = [])) ∧
    ∀ va, 0 ≤ va < MAXVA → pte_of (ram s') T' va = mapped_range (ram s) T a pa perm k va) s.
Proof.
  revert a pa T l s. induction n as [|n IH];
    intros a pa T l s Hvs Ha Ha0 Hend Hlast Hpa Hpa0 Hpend Hperm Hinv;
    rewrite mappages_loop_S; apply wp_bind; (eapply wp_walk; [done|lia|..]).
  1, 3: intros s1 T1 l1 G ->; cbn; apply wp_ret; exists T1, [], 0; (split_and!;
    [by apply grows_moves|right; split; [done|split; [lia|done]]|]); intros va Hva; unfold mapped_range;
    (rewrite decide_False by lia); by rewrite (gr_pte _ _ _ _ _ _ _ G).
  all: intros s1 T1 l1 t G Ht;
    pose proof (pt_page _ _ _ (vs_rep _ _ _ _ (gr_vs _ _ _ _ _ _ _ G)) _ _ Ht) as Htp;
    pose proof (page_pos _ Htp); pose proof (PX_range 0 a ltac:(lia));
    (rewrite (proj2 (Z.eqb_neq _ _)) by lia); unfold load64, store64; ksteps;
    assert (Hold : read64 (ram s1) (t + 8 * PX 0 a) = pte_of (ram s) T a)
      by (rewrite <- (gr_pte _ _ _ _ _ _ _ G a); unfold pte_of; by rewrite Ht);
    rewrite Hold, has_V, Hinv by lia; ksteps;
    assert (Hpaok : pa_ok pa) by (split; [done|lia]);
    pose proof (leaf_entry_range pa perm Hpaok Hperm) as Her;
    pose proof (set_leaf_moves s1 root T1 l1 a t (leaf_entry pa perm) (gr_vs _ _ _ _ _ _ _ G) Ht) as Hmv;
    pose proof (set_leaf_pte s1 root T1 l1 a t (leaf_entry pa perm) (gr_vs _ _ _ _ _ _ _ G) ltac:(lia) Ht Her) as Hpte;
    fold (set_leaf s1 a t (leaf_entry pa perm));
    set (s2 := set_leaf s1 a t (leaf_entry pa perm)) in *;
    assert (Hmv2 : moves root s T l s2 T1 l1) by (eapply moves_trans; [by apply grows_moves|done]).
  - rewrite (proj2 (Z.eqb_eq _ _)) by lia. apply wp_ret. exists T1, l1, 1. split_and!; [done|left; lia|].
    intros va Hva. rewrite Hpte by done. unfold mapped_range. rewrite (gr_pte _ _ _ _ _ _ _ G).
    repeat case_decide; try lia. f_equal. lia.
  - rewrite (proj2 (Z.eqb_neq _ _)) by lia. change PGSIZE with 4096. change MAXVA with 274877906944 in *.
    unfold u64. rewrite !Z.mod_small by lia.
    pose proof (next_page_div a) as Hdiv.
    eapply wp_mono; [apply (IH (a + 4096) (pa + 4096) T1 l1 s2)|].
    + apply Hmv2.
    + by apply next_page_mod.
    + lia.
    + lia.
    + lia.
    + by apply next_page_mod.
    + lia.
    + lia.
    + done.
    + intros va Hva Hr. rewrite Hpte by done. rewrite decide_False by lia.
      rewrite (gr_pte _ _ _ _ _ _ _ G). apply Hinv; [done|lia].
    + intros r s' (T' & l' & k & Hm & Hcase & Hp). exists T', l', (k + 1). split_and!.
      * by eapply moves_trans.
      * destruct Hcase as [[-> ->]|(-> & ? & ->)]; [left|right]; (split; [done|]); [|split; [|done]]; lia.
      * intros va Hva. rewrite Hp by done. unfold mapped_range.
        destruct Hcase as [[_ Hk]|(_ & Hk & _)]; rewrite Hdiv.
        all: destruct (decide (va / 4096 = a / 4096)) as [Ev|Ev].
        1, 3: rewrite (decide_False (P := _ ≤ _ < _)), Hpte, decide_True, decide_True by (done || lia);
          f_equal; lia.
        all: rewrite Hpte, (decide_False (P := _ = _)), (gr_pte _ _ _ _ _ _ _ G) by (done || lia);
          repeat case_decide; try lia; f_equal; lia.
Qed.

Lemma wp_mappages E n root va pa perm T l Q s :
  vspace s root T l → (0 < n)%nat →
  va mod PGSIZE = 0 → 0 ≤ va → va + Z.of_nat n * PGSIZE ≤ MAXVA →
  pa mod PGSIZE = 0 → 0 ≤ pa → pa + Z.of_nat n * PGSIZE ≤ 2 ^ 56 → 0 ≤ perm < 2 ^ 10 →
  (∀ a, 0 ≤ a < MAXVA → va / 4096 ≤ a / 4096 < va / 4096 + Z.of_nat n →
     Z.testbit (pte_of (ram s) T a) 0 = false) →
  (∀ s' T' l' k, moves root s T l s' T' l' → 0 ≤ k < Z.of_nat n → l' = [] →
     (∀ a, 0 ≤ a < MAXVA → pte_of (ram s') T' a = mapped_range (ram s) T va pa perm k a) → Q (-1) s') →
  (∀ s' T' l', moves root s T l s' T' l' →
     (∀ a, 0 ≤ a < MAXVA → pte_of (ram s') T' a = mapped_range (ram s) T va pa perm (Z.of_nat n) a) → Q 0 s') →
  wp E (mappages root va (Z.of_nat n * PGSIZE) pa perm) Q s.
Proof.
  intros Hvs Hn Hva Hva0 Hend Hpa Hpa0 Hpend Hperm Hinv Hfail Hok. unfold mappages.
  rewrite Hva, Z.mod_mul, Z.div_mul by (unfold PGSIZE; lia). cbn [Z.eqb negb].
  rewrite (proj2 (Z.eqb_neq _ _)) by (unfold PGSIZE; lia). rewrite Nat2Z.id.
  destruct n as [|n]; [lia|]. unfold PGSIZE in *.
  change MAXVA with 274877906944 in *.
  eapply wp_mono; [apply (wp_mappages_loop E n root va _ pa perm T l s); try done; try lia|].
  - unfold u64. rewrite Z.mod_small by lia. lia.
  - intros a Ha Hr. apply Hinv; [done|lia].
  - intros r s' (T' & l' & k & Hm & [[-> ->]|(-> & Hk & ->)] & Hp); [by eapply Hok|].
    by eapply (Hfail s' T' [] k); [|lia| |].
Qed.

(** C13: on a well-formed page table whose tables and free pages are disjoint,
    [mappages] of an aligned, unmapped range never panics.  It returns 0 with
    every page of the range mapped to the consecutive physical page with the
    given permissions, or -1 after running out of pages, with a prefix of the
    range mapped; all other entries are unchanged, no memory other than
    page-table pages and pages taken from the free list is written, and the
    table is well-formed again. *)
Theorem mappages_maps (s : KState) (root : Z) (T : gmap (list Z) Z) (l : list Z) (n : nat) (va pa perm : Z)
  (Hvs : vspace s root T l) (Hn : (0 < n)%nat)
  (Hva : va mod PGSIZE = 0 ∧ 0 ≤ va ∧ va + Z.of_nat n * PGSIZE ≤ MAXVA)
  (Hpa : pa mod PGSIZE = 0 ∧ 0 ≤ pa ∧ pa + Z.of_nat n * PGSIZE ≤ 2 ^ 56) (Hperm : 0 ≤ perm < 2 ^ 10)
  (Hfree : ∀ a, 0 ≤ a < MAXVA → va / 4096 ≤ a / 4096 < va / 4096 + Z.of_nat n →
     Z.testbit (pte_of (ram s) T a) 0 = false) :
  ∃ r s' T' l' k, mappages root va (Z.of_nat n * PGSIZE) pa perm s = Ret r s' ∧
    vspace s' root T' l' ∧ T ⊆ T' ∧ only_mem s s' ∧
    ((r = 0 ∧ k = Z.of_nat n) ∨ (r = -1 ∧ 0 ≤ k < Z.of_nat n ∧ l' = [])) ∧
    (∀ a, 0 ≤ a < MAXVA → pte_of (ram s') T' a =
       if decide (va / 4096 ≤ a / 4096 < va / 4096 + k)
       then leaf_entry (pa + 4096 * (a / 4096 - va / 4096)) perm else pte_of (ram s) T a) ∧
    (∀ q, page_ok q → q ∉ l → (∀ p t, T !! p = Some t → t ≠ q) → agree q PGSIZE (ram s') (ram s)).
Proof.
  assert (Hwp : wp Atomic (mappages root va (Z.of_nat n * PGSIZE) pa perm) (λ r s', ∃ T' l' k,
    moves root s T l s' T' l' ∧ ((r = 0 ∧ k = Z.of_nat n) ∨ (r = -1 ∧ 0 ≤ k < Z.of_nat n ∧ l' = [])) ∧
    ∀ a, 0 ≤ a < MAXVA → pte_of (ram s') T' a = mapped_range (ram s) T va pa perm k a) s).
  { destruct Hva as (? & ? & ?), Hpa as (? & ? & ?). eapply (wp_mappages _ n); try done.
    - intros s' T' l' k Hm Hk Hl Hp. exists T', l', k. split; [done|]. split; [by right|done].
    - intros s' T' l' Hm Hp. exists T', l', (Z.of_nat n). split; [done|]. split; [by left|done]. }
  apply wp_atomic in Hwp as (r & s' & Hrun & T' & l' & k & [M1 M2 M3 M4 M5] & Hc & Hp).
  exists r, s', T', l', k. done.
Qed.

(** A page of zeroes is the table of an empty address space. *)
Lemma pt_rep_empty m root : page_ok root → (∀ x, root ≤ x < root + PGSIZE → rd m x = 0) →
  pt_rep m root {[ [] := root ]}.
Proof.
  intros Hr Hz. split.
  - by rewrite lookup_singleton_eq.
  - by intros p t [<- <-]%lookup_singleton_Some.
  - by intros p q t [<- _]%lookup_singleton_Some [<- _]%lookup_singleton_Some.
  - intros p t [<- _]%lookup_singleton_Some. cbn. lia.
  - intros p i t [E _]%lookup_singleton_Some. by destruct p.
  - intros p t i [<- <-]%lookup_singleton_Some _ Hi. rewrite lookup_singleton_ne by done.
    rewrite read64_zero; [done|]. intros x Hx. apply Hz. pose proof (entry_in_page i Hi). lia.
Qed.
End Tree.

(** A hart with an empty page table at 0x80100000 and four free pages. *)
Definition pt_sample : KState :=
  set_locks {[ Lkmem := mkLock 0 "kmem" None ]}
    (set_freelist 0x80030000 (set_ram
       (write64 (write64 (write64 ∅ 0x80030000 0x80031000) 0x80031000 0x80032000) 0x80032000 0x80033000) bss)).

Lemma pt_sample_vspace :
  vspace (H := sample_image) pt_sample 0x80100000 {[ [] := 0x80100000 ]}
    [0x80030000; 0x80031000; 0x80032000; 0x80033000].
Proof.
  split.
  - apply pt_rep_empty; [split; vm_compute; done|]. intros x Hx. unfold PGSIZE in Hx. cbn.
    rewrite !rd_write64_ne by lia. done.
  - split; [vm_compute; done| | | |].
    + apply (bool_decide_unpack _). vm_compute. exact I.
    + repeat constructor; vm_compute; done.
    + exists "kmem". vm_compute. done.
    + split; cbn; [lia|done].
  - intros p t [<- <-]%lookup_singleton_Some. apply (bool_decide_unpack _). vm_compute. exact I.
Qed.

Lemma mappages_maps_witness :
  ∃ r s' T' l' k, mappages 0x80100000 0x1000 (Z.of_nat 2 * PGSIZE) 0x80200000 6 pt_sample = Ret r s' ∧
    vspace (H := sample_image) s' 0x80100000 T' l' ∧
    ((r = 0 ∧ k = 2) ∨ (r = -1 ∧ 0 ≤ k < 2 ∧ l' = [])).
Proof.
  destruct (mappages_maps (H := sample_image) pt_sample 0x80100000 {[ [] := 0x80100000 ]}
    [0x80030000; 0x80031000; 0x80032000; 0x80033000] 2 0x1000 0x80200000 6 pt_sample_vspace)
    as (r & s' & T' & l' & k & H1 & H2 & _ & _ & H3 & _).
  - lia.
  - vm_compute. done.
  - vm_compute. done.
  - lia.
  - intros a _ _. unfold pte_of, path. rewrite lookup_singleton_ne by done. reflexivity.
  - exists r, s', T', l', k. split; [exact H1|]. split; [exact H2|exact H3].
Defined.
