(* ===== verification/VmUser.v ===== *)
(** * User memory: copyin, copyout and faults

    [uview m T va] is the byte a user program sees at [va].  [uspace] says that
    user frames are allocated pages, that no frame is shared by two addresses,
    is a page-table page or is free. *)

From S2P Require Import Prelude CString Kernel KLogic Spinlock KMem Kalloc Vm VmSpec.
Open Scope Z_scope.
Open Scope os_scope.

(** Pages with other owners, such as the structures of pipes. *)
Class Others := other_page : Z → Prop.

Section User.
Context `{KernelImage} {OT : Others}.

Definition umapped (m : mem) (T : gmap (list Z) Z) (va : Z) : bool :=
  Z.testbit (pte_of m T va) 0 && Z.testbit (pte_of m T va) 4.
Definition frame_of (m : mem) (T : gmap (list Z) Z) (va : Z) : Z := PTE2PA (pte_of m T va).
Definition uview (m : mem) (T : gmap (list Z) Z) (va : Z) : option Z :=
  if umapped m T va then Some (rd m (frame_of m T va + va mod 4096)) else None.

Record uspace (s : KState) (root : Z) (T : gmap (list Z) Z) (l : list Z) : Prop := {
  us_vs : vspace s root T l;
  us_page : ∀ va, 0 ≤ va < MAXVA → umapped (ram s) T va = true → page_ok (frame_of (ram s) T va);
  us_used : ∀ va, 0 ≤ va < MAXVA → umapped (ram s) T va = true → frame_of (ram s) T va ∉ l;
  us_table : ∀ va p t, 0 ≤ va < MAXVA → umapped (ram s) T va = true → T !! p = Some t →
    t ≠ frame_of (ram s) T va;
  us_inj : ∀ va va', 0 ≤ va < MAXVA → 0 ≤ va' < MAXVA →
    umapped (ram s) T va = true → umapped (ram s) T va' = true →
    frame_of (ram s) T va = frame_of (ram s) T va' → va / 4096 = va' / 4096;
  us_other : ∀ q, other_page q → page_ok q ∧ q ∉ l ∧ (∀ p t, T !! p = Some t → t ≠ q) ∧
    (∀ va, 0 ≤ va < MAXVA → umapped (ram s) T va = true → frame_of (ram s) T va ≠ q)
}.

(** The running process owns the page table. *)
Definition running_on (s : KState) (root : Z) : Prop :=
  ∃ i p, c_proc (cpu s) = Some i ∧ procs s !! i = Some p ∧ p_pagetable p = root ∧ 0 ≤ p_sz p ≤ TRAPFRAME.

(** User memory was extended with fresh pages, and changed at most in the
    [len] bytes from [dst]; the pages of other owners did not change. *)
Record uext (dst len : Z) (s : KState) (T : gmap (list Z) Z) (s' : KState) (T' : gmap (list Z) Z) : Prop := {
  ue_only : only_mem s s';
  ue_pte : ∀ va, 0 ≤ va < MAXVA → umapped (ram s) T va = true → pte_of (ram s') T' va = pte_of (ram s) T va;
  ue_view : ∀ va b, 0 ≤ va < MAXVA → va < dst ∨ dst + len ≤ va →
    uview (ram s) T va = Some b → uview (ram s') T' va = Some b;
  ue_other : ∀ q, other_page q → agree q PGSIZE (ram s') (ram s)
}.

Lemma uext_umapped dst len s T s' T' va : uext dst len s T s' T' → 0 ≤ va < MAXVA →
  umapped (ram s) T va = true → umapped (ram s') T' va = true.
Proof. intros He Hva Hm. pose proof Hm as Hm'. unfold umapped in *. by rewrite (ue_pte _ _ _ _ _ _ He). Qed.

Lemma uext_refl dst len s s' T : s' ≡k s → uext dst len s T s' T.
Proof. intros Heq. pose proof (keq_ram _ _ Heq) as Hr. split; [by apply only_mem_keq|..]; intros; [by rewrite Hr|by rewrite Hr|]. intros x _. by rewrite Hr. Qed.

Lemma uext_trans dst len d1 n1 d2 n2 s1 T1 s2 T2 s3 T3 :
  uext d1 n1 s1 T1 s2 T2 → uext d2 n2 s2 T2 s3 T3 →
  (∀ va, va < dst ∨ dst + len ≤ va → (va < d1 ∨ d1 + n1 ≤ va) ∧ (va < d2 ∨ d2 + n2 ≤ va)) →
  uext dst len s1 T1 s3 T3.
Proof.
  intros A B Hr. split.
  - eapply only_mem_trans; [apply A|apply B].
  - intros va Hva Hm. rewrite (ue_pte _ _ _ _ _ _ B) by (done || by eapply uext_umapped).
    by apply (ue_pte _ _ _ _ _ _ A).
  - intros va b Hva Ho Hv. destruct (Hr va Ho). apply (ue_view _ _ _ _ _ _ B); [done|done|].
    by apply (ue_view _ _ _ _ _ _ A).
  - intros q Hq. eapply agree_trans; [by apply (ue_other _ _ _ _ _ _ B)|by apply (ue_other _ _ _ _ _ _ A)].
Qed.

Lemma running_only s s' root : only_mem s s' → running_on s root → running_on s' root.
Proof.
  intros Ho (i & p & H1 & H2 & H3). exists i, p.
  by rewrite (only_mem_cproc _ _ Ho), (only_mem_procs _ _ Ho).
Qed.

(** ** Address translation *)

Lemma run_walkaddr s root T l va : uspace s root T l → 0 ≤ va →
  walkaddr root va s =
    Ret (if (va <? MAXVA) && umapped (ram s) T va then frame_of (ram s) T va else 0) s.
Proof.
  intros Hu Hva. unfold walkaddr. destruct (Z.leb_spec MAXVA va) as [Hle|Hlt].
  { rewrite (proj2 (Z.ltb_ge _ _)) by done. done. }
  rewrite (proj2 (Z.ltb_lt _ _)) by done. keval.
  rewrite (run_walk s root T l va (us_vs _ _ _ _ Hu)) by done. cbn.
  unfold umapped, frame_of, pte_of. destruct (T !! path va) as [t|] eqn:Ht; [|done].
  pose proof (page_pos _ (pt_page _ _ _ (vs_rep _ _ _ _ (us_vs _ _ _ _ Hu)) _ _ Ht)).
  pose proof (PX_range 0 va ltac:(lia)). rewrite (proj2 (Z.eqb_neq _ _)) by lia.
  unfold load64. keval. rewrite has_V, has_U.
  generalize (read64 (ram s) (t + 8 * PX 0 va)). intros e.
  by destruct (Z.testbit e 0), (Z.testbit e 4).
Qed.

(** ** Writing into one user page *)

Section Put.
  Context (s : KState) (root : Z) (T : gmap (list Z) Z) (l : list Z) (va0 off : Z) (bs : list Z).
  Hypothesis Hu : uspace s root T l.
  Hypothesis Hva : 0 ≤ va0 < MAXVA.
  Hypothesis Hal : va0 mod 4096 = 0.
  Hypothesis Hm : umapped (ram s) T va0 = true.
  Hypothesis Hoff : 0 ≤ off.
  Hypothesis Hlen : off + Z.of_nat (length bs) ≤ 4096.

Definition put_user : KState :=
    set_ram (put_bytes (ram s) (frame_of (ram s) T va0 + off) bs) s.

Lemma put_frame q : page_ok q → q ≠ frame_of (ram s) T va0 → agree q PGSIZE (ram put_user) (ram s).
  Proof.
    intros Hq Hne. pose proof (us_page _ _ _ _ Hu va0 Hva Hm) as Hp. apply agree_put_bytes.
    destruct (page_disjoint (frame_of (ram s) T va0) q); auto; unfold PGSIZE in *; lia.
  Qed.

Lemma put_tables : tables_agree T (ram put_user) (ram s).
  Proof.
    intros p t Hp. apply put_frame; [by eapply pt_page; [apply (us_vs _ _ _ _ Hu)|]|].
    by apply (us_table _ _ _ _ Hu va0 p t).
  Qed.

Lemma put_pte va : pte_of (ram put_user) T va = pte_of (ram s) T va.
  Proof. apply pte_of_ext, put_tables. Qed.

Lemma put_uspace : uspace put_user root T l.
  Proof.
    pose proof (us_vs _ _ _ _ Hu) as Hvs.
    assert (Hum : ∀ va, umapped (ram put_user) T va = umapped (ram s) T va)
      by (intros; unfold umapped; by rewrite put_pte).
    assert (Hfr : ∀ va, frame_of (ram put_user) T va = frame_of (ram s) T va)
      by (intros; unfold frame_of; by rewrite put_pte).
    split.
    - split; [by eapply pt_rep_ext; [apply Hvs|apply put_tables]| |apply Hvs].
      pose proof (vs_free _ _ _ _ Hvs) as Hfl. apply (free_list_ext s); [done|done| |apply Hfl|apply Hfl].
      intros q Hq. apply (agree_sub q PGSIZE); [|lia|unfold PGSIZE; lia]. apply put_frame.
      + by eapply Forall_forall; [apply (fl_pages _ _ Hfl)|].
      + intros ->. exact (us_used _ _ _ _ Hu va0 Hva Hm Hq).
    - intros va. rewrite Hum, Hfr. apply (us_page _ _ _ _ Hu).
    - intros va. rewrite Hum, Hfr. apply (us_used _ _ _ _ Hu).
    - intros va p t. rewrite Hum, Hfr. apply (us_table _ _ _ _ Hu).
    - intros va va'. rewrite !Hum, !Hfr. apply (us_inj _ _ _ _ Hu).
    - intros q Hq. destruct (us_other _ _ _ _ Hu q Hq) as (Q1 & Q2 & Q3 & Q4). split_and!; [done|done|done|].
      intros va. rewrite Hum, Hfr. apply Q4.
  Qed.

Lemma put_view va : 0 ≤ va < MAXVA →
    uview (ram put_user) T va =
      if decide (va0 + off ≤ va < va0 + off + Z.of_nat (length bs))
      then Some (bs !!! Z.to_nat (va - (va0 + off))) else uview (ram s) T va.
  Proof.
    intros Hv. unfold uview, umapped, frame_of. rewrite !put_pte.
    fold (umapped (ram s) T va) (frame_of (ram s) T va).
    pose proof (Z.div_mod va 4096 ltac:(lia)). pose proof (Z.div_mod va0 4096 ltac:(lia)).
    pose proof (Z.mod_pos_bound va 4096 ltac:(lia)).
    destruct (decide (va / 4096 = va0 / 4096)) as [E|E].
    - assert (Hpte : pte_of (ram s) T va = pte_of (ram s) T va0).
      { unfold pte_of, path. rewrite !PX_eq, !Z.pow_add_r by lia. change (2 ^ 12) with 4096.
        by rewrite <- !Z.div_div, E by lia. }
      unfold umapped, frame_of in *. rewrite Hpte, Hm. cbn [ram put_user set_ram dat d_ram].
      unfold put_user. cbn. unfold frame_of. rewrite rd_put_bytes.
      case_decide; [rewrite decide_True by lia|rewrite decide_False by lia]; [|done].
      do 2 f_equal. lia.
    - rewrite decide_False by lia. destruct (umapped (ram s) T va) eqn:Hmv; [|done]. f_equal.
      apply (put_frame (frame_of (ram s) T va)).
      + by apply (us_page _ _ _ _ Hu).
      + intros Hf. by apply E, (us_inj _ _ _ _ Hu).
      + unfold PGSIZE. lia.
  Qed.

Lemma put_uext : uext (va0 + off) (Z.of_nat (length bs)) s T put_user T.
  Proof.
    split.
    - by apply only_mem_set_ram, only_mem_keq.
    - intros va _ _. apply put_pte.
    - intros va b Hv Ho Hb. rewrite put_view by done. by rewrite decide_False by lia.
    - intros q Hq. destruct (us_other _ _ _ _ Hu q Hq) as (Q1 & _ & _ & Q4). apply put_frame; [done|]. apply not_eq_sym. by apply Q4.
  Qed.
End Put.

(** ** Adding a page *)

Lemma uspace_keq s t root T l : s ≡k t → uspace s root T l → uspace t root T l.
Proof.
  intros Heq [H1 H2 H3 H4 H5 H6]. pose proof (keq_ram _ _ Heq) as Hr. split.
  - destruct H1 as [A1 A2 A3]. split; [by rewrite <- Hr|by eapply free_list_keq|done].
  - by rewrite <- Hr.
  - by rewrite <- Hr.
  - by rewrite <- Hr.
  - by rewrite <- Hr.
  - by rewrite <- Hr.
Qed.

(** The same entries over a table that grew into the free pages. *)
Lemma uspace_same s T l s' T' l' root :
  uspace s root T l → vspace s' root T' l' →
  (∀ va, 0 ≤ va < MAXVA → pte_of (ram s') T' va = pte_of (ram s) T va) →
  (∀ p t, T' !! p = Some t → T !! p = Some t ∨ t ∈ l) → (∀ q, q ∈ l' → q ∈ l) →
  uspace s' root T' l'.
Proof.
  intros Hu Hvs Hpte HT Hl.
  assert (Hum : ∀ va, 0 ≤ va < MAXVA → umapped (ram s') T' va = umapped (ram s) T va)
    by (intros; unfold umapped; by rewrite Hpte).
  assert (Hfr : ∀ va, 0 ≤ va < MAXVA → frame_of (ram s') T' va = frame_of (ram s) T va)
    by (intros; unfold frame_of; by rewrite Hpte).
  split; [done|..].
  - intros va Hva. rewrite Hum, Hfr by done. by apply (us_page _ _ _ _ Hu).
  - intros va Hva. rewrite Hum, Hfr by done. intros Hm Hin. exact (us_used _ _ _ _ Hu va Hva Hm (Hl _ Hin)).
  - intros va p t Hva. rewrite Hum, Hfr by done. intros Hm Hp ->.
    destruct (HT _ _ Hp) as [Hp'|Hin].
    + by apply (us_table _ _ _ _ Hu va p _ Hva Hm Hp').
    + exact (us_used _ _ _ _ Hu va Hva Hm Hin).
  - intros va va' Hva Hva'. rewrite !Hum, !Hfr by done. by apply (us_inj _ _ _ _ Hu).
  - intros q Hq. destruct (us_other _ _ _ _ Hu q Hq) as (Q1 & Q2 & Q3 & Q4). split_and!; [done|by intros ?%Hl| |].
    + intros p t Hp ->. destruct (HT _ _ Hp) as [Hp'|Hin]; [by apply (Q3 p q)|done].
    + intros va Hva. rewrite Hum, Hfr by done. by apply Q4.
Qed.

(** The entries and the frames of mapped pages survive a change of memory that
    keeps the frames. *)
Lemma uext_frames s T l s' T' root d :
  uspace s root T l → only_mem s s' →
  (∀ va, 0 ≤ va < MAXVA → umapped (ram s) T va = true → pte_of (ram s') T' va = pte_of (ram s) T va) →
  (∀ va, 0 ≤ va < MAXVA → umapped (ram s) T va = true →
     agree (frame_of (ram s) T va) PGSIZE (ram s') (ram s)) →
  (∀ q, other_page q → agree q PGSIZE (ram s') (ram s)) →
  uext d 0 s T s' T'.
Proof.
  intros Hu Ho Hpte Hag Hoth. split; [done|done| |done]. intros va b Hva _ Hv. unfold uview in *.
  destruct (umapped (ram s) T va) eqn:Hm; [|done].
  assert (Hm' : umapped (ram s') T' va = true) by (unfold umapped in *; by rewrite Hpte).
  rewrite Hm'. rewrite <- Hv. f_equal. unfold frame_of at 1. rewrite Hpte by done.
  apply (Hag va Hva Hm). pose proof (Z.mod_pos_bound va 4096). unfold frame_of, PGSIZE. lia.
Qed.

Section Fresh.
  Context (s : KState) (root : Z) (T : gmap (list Z) Z) (n : Z) (l : list Z) (s1 : KState).
  Hypothesis Hu : uspace s root T (n :: l).
  Hypothesis Heq : s1 ≡k taken n s.
  Hypothesis Hfl : free_list s1 l.

Definition zeroed : KState := set_ram (memset (ram s1) n 0 PGSIZE) s1.

Lemma fresh_ok : page_ok n.
  Proof. apply (Forall_cons_1 _ _ _ (fl_pages _ _ (vs_free _ _ _ _ (us_vs _ _ _ _ Hu)))). Qed.

Lemma fresh_not_in : n ∉ l.
  Proof. pose proof (fl_nodup _ _ (vs_free _ _ _ _ (us_vs _ _ _ _ Hu))) as Hn. by apply NoDup_cons in Hn as [? _]. Qed.

Lemma fresh_not_table p t : T !! p = Some t → t ≠ n.
  Proof. intros Hp ->. apply (vs_disj _ _ _ _ (us_vs _ _ _ _ Hu) p n Hp). by left. Qed.

Lemma fresh_not_frame va : 0 ≤ va < MAXVA → umapped (ram s) T va = true → frame_of (ram s) T va ≠ n.
  Proof. intros Hva Hm E. apply (us_used _ _ _ _ Hu va Hva Hm). rewrite E. by left. Qed.

Lemma zeroed_agree q : page_ok q → q ≠ n → agree q PGSIZE (ram zeroed) (ram s).
  Proof.
    intros Hq Hne. pose proof fresh_ok as Hn. eapply agree_trans; [apply agree_memset|].
    - destruct (page_disjoint n q); auto.
    - rewrite (keq_ram _ _ Heq). by apply agree_taken.
  Qed.

Lemma zeroed_zero x : n ≤ x < n + PGSIZE → rd (ram zeroed) x = 0.
  Proof. intros Hx. cbn. rewrite memset_spec. by rewrite decide_True. Qed.

Lemma zeroed_only : only_mem s zeroed.
  Proof. by eapply only_mem_set_ram, only_mem_taken. Qed.

Lemma zeroed_tables : tables_agree T (ram zeroed) (ram s).
  Proof.
    intros p t Hp. apply zeroed_agree; [|by eapply fresh_not_table].
    by eapply pt_page; [apply (us_vs _ _ _ _ Hu)|].
  Qed.

Lemma zeroed_vspace : vspace zeroed root T l.
  Proof.
    pose proof (us_vs _ _ _ _ Hu) as Hvs. split.
    - eapply pt_rep_ext; [apply Hvs|apply zeroed_tables].
    - apply (free_list_ext s1); [done|done| |apply Hfl|apply Hfl]. intros q Hq.
      assert (Hqok : page_ok q) by (by eapply Forall_forall; [apply (fl_pages _ _ Hfl)|]).
      assert (n ≠ q) by (intros E; apply fresh_not_in; by rewrite E). pose proof fresh_ok.
      apply (agree_sub q PGSIZE); [|lia|unfold PGSIZE; lia]. apply agree_memset.
      destruct (page_disjoint n q); auto.
    - intros p t Hp Hin. apply (vs_disj _ _ _ _ Hvs p t Hp). by right.
  Qed.

Lemma zeroed_pte va : pte_of (ram zeroed) T va = pte_of (ram s) T va.
  Proof. apply pte_of_ext, zeroed_tables. Qed.

  Context (va0 perm : Z) (s3 : KState) (T3 : gmap (list Z) Z) (l3 : list Z).
  Hypothesis Hmv : moves root zeroed T l s3 T3 l3.

Lemma moved_frame q : page_ok q → q ∉ n :: l → (∀ p t, T !! p = Some t → t ≠ q) →
    agree q PGSIZE (ram s3) (ram s).
  Proof.
    intros Hq Hnin Hd. apply not_elem_of_cons in Hnin as [Hne Hnin].
    eapply agree_trans; [by apply (mv_frame _ _ _ _ _ _ _ Hmv)|by apply zeroed_agree].
  Qed.

Lemma moved_page x : n ≤ x < n + PGSIZE → rd (ram s3) x = 0.
  Proof.
    intros Hx. rewrite (mv_frame _ _ _ _ _ _ _ Hmv n); [by apply zeroed_zero|apply fresh_ok| | |done].
    - apply fresh_not_in.
    - intros p t. apply fresh_not_table.
  Qed.

Lemma moved_tree p t : T3 !! p = Some t → T !! p = Some t ∨ t ∈ l.
  Proof.
    destruct (mv_used _ _ _ _ _ _ _ Hmv) as (u & Hlu & Hu'). intros Hp.
    destruct (Hu' p t Hp); [by left|]. right. rewrite Hlu. apply elem_of_app. by left.
  Qed.

Lemma moved_free q : q ∈ l3 → q ∈ l.
  Proof.
    destruct (mv_used _ _ _ _ _ _ _ Hmv) as (u & Hlu & _). intros Hq. rewrite Hlu.
    apply elem_of_app. by right.
  Qed.

Lemma moved_only : only_mem s s3.
  Proof. eapply only_mem_trans; [apply zeroed_only|apply Hmv]. Qed.
End Fresh.

Lemma zeroed_fail s root T n l s1 s3 T3 l3 s4 :
  uspace s root T (n :: l) → s1 ≡k taken n s → free_list s1 l →
  moves root (zeroed n s1) T l s3 T3 l3 → l3 = [] →
  (∀ va, 0 ≤ va < MAXVA → pte_of (ram s3) T3 va = pte_of (ram s) T va) →
  s4 ≡k freed n s3 → free_list s4 [n] →
  uspace s4 root T3 [n] ∧ uext 0 0 s T s4 T3.
Proof.
  intros Hu Heq Hfl Hmv -> Hpte Heq4 Hfl4. pose proof (fresh_ok _ _ _ _ _ Hu) as Hn.
  assert (Hr4 := keq_ram _ _ Heq4).
  assert (Hnt : ∀ p t, T3 !! p = Some t → t ≠ n).
  { intros p t Hp. destruct (moved_tree _ _ _ _ _ _ _ _ Hmv p t Hp) as [Hp'|Hin].
    - by eapply fresh_not_table.
    - intros ->. by apply (fresh_not_in _ _ _ _ _ Hu). }
  assert (Hag : ∀ q, page_ok q → q ≠ n → agree q PGSIZE (ram s4) (ram s3))
    by (intros; rewrite Hr4; by apply agree_freed).
  assert (Htab : tables_agree T3 (ram s4) (ram s3)).
  { intros p t Hp. apply Hag; [|by eapply Hnt].
    by eapply pt_page; [apply (mv_vs _ _ _ _ _ _ _ Hmv)|]. }
  assert (Hpte4 : ∀ va, 0 ≤ va < MAXVA → pte_of (ram s4) T3 va = pte_of (ram s) T va)
    by (intros; rewrite (pte_of_ext (ram s3)) by done; by apply Hpte).
  split.
  - eapply (uspace_same s T (n :: l)); [done| |done| |].
    + split; [by eapply pt_rep_ext; [apply (mv_vs _ _ _ _ _ _ _ Hmv)|]|done|].
      intros p t Hp ->%list_elem_of_singleton. by eapply Hnt.
    + intros p t Hp. destruct (moved_tree _ _ _ _ _ _ _ _ Hmv p t Hp); [by left|right; by right].
    + intros q ->%list_elem_of_singleton. by left.
  - eapply uext_frames; [done| |by intros; apply Hpte4| |].
    + eapply only_mem_trans; [by eapply moved_only|by eapply only_mem_freed].
    + intros va Hva Hm. pose proof (us_page _ _ _ _ Hu va Hva Hm) as Hp.
      eapply agree_trans; [apply Hag; [done|by eapply fresh_not_frame]|].
      eapply moved_frame; [done|done|done|done|by apply (us_used _ _ _ _ Hu)|].
      intros p t Hpt. by apply (us_table _ _ _ _ Hu va p t).
    + intros q Hq. destruct (us_other _ _ _ _ Hu q Hq) as (Q1 & Q2 & Q3 & _).
      eapply agree_trans; [apply Hag; [done|]|by eapply moved_frame]. intros ->. apply Q2. by left.
Qed.

Lemma zeroed_mapped s root T n l s1 s3 T3 l3 va0 perm :
  uspace s root T (n :: l) → s1 ≡k taken n s → free_list s1 l →
  moves root (zeroed n s1) T l s3 T3 l3 →
  0 ≤ va0 < MAXVA → 0 ≤ perm < 2 ^ 10 → Z.testbit perm 4 = true →
  umapped (ram s) T va0 = false →
  (∀ va, 0 ≤ va < MAXVA → pte_of (ram s3) T3 va =
     if decide (va / 4096 = va0 / 4096) then leaf_entry n perm else pte_of (ram s) T va) →
  uspace s3 root T3 l3 ∧ uext 0 0 s T s3 T3 ∧ umapped (ram s3) T3 va0 = true ∧
  frame_of (ram s3) T3 va0 = n ∧
  ∀ va, 0 ≤ va < MAXVA → va / 4096 = va0 / 4096 → uview (ram s3) T3 va = Some 0.
Proof.
  intros Hu Heq Hfl Hmv Hva0 Hperm HU Hold Hpte. pose proof (fresh_ok _ _ _ _ _ Hu) as Hn.
  pose proof (page_pa_ok _ Hn) as Hnpa.
  assert (Hnew : ∀ va, 0 ≤ va < MAXVA → va / 4096 = va0 / 4096 →
    umapped (ram s3) T3 va = true ∧ frame_of (ram s3) T3 va = n).
  { intros va Hva E. unfold umapped, frame_of. rewrite Hpte, decide_True by done.
    unfold leaf_entry. rewrite <- Z.lor_assoc, !entry_testbit, !Z.lor_spec by (done || lia).
    change (Z.testbit PTE_V 0) with true. rewrite HU, orb_true_r. split; [done|].
    apply PTE2PA_entry; [done|]. by apply perm_V_range. }
  assert (Hsame : ∀ va, 0 ≤ va < MAXVA → va / 4096 ≠ va0 / 4096 →
    umapped (ram s3) T3 va = umapped (ram s) T va ∧ frame_of (ram s3) T3 va = frame_of (ram s) T va)
    by (intros va Hva E; unfold umapped, frame_of; by rewrite Hpte, decide_False).
  assert (Hnf : ∀ va, 0 ≤ va < MAXVA → umapped (ram s) T va = true → va / 4096 ≠ va0 / 4096).
  { intros va Hva Hm E. unfold umapped, pte_of, path in Hm, Hold. revert Hm Hold.
    rewrite !PX_eq, !Z.pow_add_r by lia. change (2 ^ 12) with 4096.
    rewrite <- !Z.div_div, E by lia. congruence. }
  split_and!; [split| | | |].
  - apply Hmv.
  - intros va Hva Hm. destruct (decide (va / 4096 = va0 / 4096)) as [E|E].
    + by rewrite (proj2 (Hnew va Hva E)).
    + destruct (Hsame va Hva E) as [Hm' ->]. rewrite Hm' in Hm. by apply (us_page _ _ _ _ Hu).
  - intros va Hva Hm Hin. apply (moved_free _ _ _ _ _ _ _ _ Hmv) in Hin.
    destruct (decide (va / 4096 = va0 / 4096)) as [E|E].
    + rewrite (proj2 (Hnew va Hva E)) in Hin. by apply (fresh_not_in _ _ _ _ _ Hu).
    + destruct (Hsame va Hva E) as [Hm' Hf]. rewrite Hm' in Hm. rewrite Hf in Hin.
      apply (us_used _ _ _ _ Hu va Hva Hm). by right.
  - intros va p t Hva Hm Hp.
    destruct (moved_tree _ _ _ _ _ _ _ _ Hmv p t Hp) as [Hp'|Hin];
      destruct (decide (va / 4096 = va0 / 4096)) as [E|E].
    + rewrite (proj2 (Hnew va Hva E)). by eapply fresh_not_table.
    + destruct (Hsame va Hva E) as [Hm' ->]. rewrite Hm' in Hm. by apply (us_table _ _ _ _ Hu va p t).
    + rewrite (proj2 (Hnew va Hva E)). intros ->. by apply (fresh_not_in _ _ _ _ _ Hu).
    + destruct (Hsame va Hva E) as [Hm' ->]. rewrite Hm' in Hm. intros ->.
      apply (us_used _ _ _ _ Hu va Hva Hm). by right.
  - intros va va' Hva Hva' Hm Hm' Hf.
    destruct (decide (va / 4096 = va0 / 4096)) as [E|E];
      destruct (decide (va' / 4096 = va0 / 4096)) as [E'|E']; [congruence|..].
    + rewrite (proj2 (Hnew va Hva E)) in Hf. destruct (Hsame va' Hva' E') as [G1 G2].
      rewrite G1 in Hm'. rewrite G2 in Hf. by destruct (fresh_not_frame _ _ _ _ _ Hu va' Hva' Hm').
    + rewrite (proj2 (Hnew va' Hva' E')) in Hf. destruct (Hsame va Hva E) as [G1 G2].
      rewrite G1 in Hm. rewrite G2 in Hf. by destruct (fresh_not_frame _ _ _ _ _ Hu va Hva Hm).
    + destruct (Hsame va Hva E) as [G1 G2], (Hsame va' Hva' E') as [G3 G4].
      rewrite G1 in Hm. rewrite G3 in Hm'. rewrite G2, G4 in Hf. by apply (us_inj _ _ _ _ Hu).
  - intros q Hq. destruct (us_other _ _ _ _ Hu q Hq) as (Q1 & Q2 & Q3 & Q4). apply not_elem_of_cons in Q2 as [Qn Q2]. split_and!; [done| | |].
    + by intros Hin%(moved_free _ _ _ _ _ _ _ _ Hmv).
    + intros p t Hp ->. destruct (moved_tree _ _ _ _ _ _ _ _ Hmv p q Hp) as [Hp'|Hin]; [by apply (Q3 p q)|done].
    + intros va Hva Hm. destruct (decide (va / 4096 = va0 / 4096)) as [E|E]; [rewrite (proj2 (Hnew va Hva E)); by apply not_eq_sym|].
      destruct (Hsame va Hva E) as [G1 G2]. rewrite G2. rewrite G1 in Hm. by apply Q4.
  - eapply uext_frames; [done|by eapply moved_only|..].
    + intros va Hva Hm. rewrite Hpte by done. by rewrite decide_False by (by apply Hnf).
    + intros va Hva Hm. eapply moved_frame; [done|done|done| | |].
      * by apply (us_page _ _ _ _ Hu).
      * by apply (us_used _ _ _ _ Hu).
      * intros p t Hp. by apply (us_table _ _ _ _ Hu va p t).
    + intros q Hq. destruct (us_other _ _ _ _ Hu q Hq) as (Q1 & Q2 & Q3 & _). by eapply moved_frame.
  - by apply Hnew.
  - by apply Hnew.
  - intros va Hva E. unfold uview. destruct (Hnew va Hva E) as [-> ->]. f_equal.
    eapply moved_page; [done..|]. pose proof (Z.mod_pos_bound va 4096). unfold PGSIZE. lia.
Qed.

(** ** Faulting a page in *)

Definition touched (root : Z) (s : KState) (T : gmap (list Z) Z) (va0 r : Z) (s' : KState) : Prop :=
  ∃ T' l', uspace s' root T' l' ∧ uext 0 0 s T s' T' ∧
    ((r = 0 ∧ (va0 < MAXVA → umapped (ram s) T va0 = false)) ∨
     (r ≠ 0 ∧ va0 < MAXVA ∧ umapped (ram s') T' va0 = true ∧ frame_of (ram s') T' va0 = r ∧
       (umapped (ram s) T va0 = false →
        ∀ va, 0 ≤ va < MAXVA → va / 4096 = va0 / 4096 → uview (ram s') T' va = Some 0))).

Lemma touched_none root s T l va0 s' :
  uspace s root T l → s' ≡k s → (va0 < MAXVA → umapped (ram s) T va0 = false) → touched root s T va0 0 s'.
Proof.
  intros Hu Heq Hun. exists T, l. split_and!; [by eapply uspace_keq; [symmetry|]|by apply uext_refl|by left].
Qed.

Lemma wp_curproc E i Q s : sync_ok s → c_proc (cpu s) = Some i → (∀ s', s' ≡k s → Q i s') → wp E curproc Q s.
Proof.
  intros Hs Hc HQ. unfold curproc. apply wp_bind, wp_myproc; [done|]. intros s' Heq. rewrite Hc.
  by apply wp_ret, HQ.
Qed.

Lemma wp_getp E i p Q s : procs s !! i = Some p → Q p s → wp E (getp i) Q s.
Proof. intros Hp HQ. unfold getp. by ksteps. Qed.

Lemma uspace_sync s root T l : uspace s root T l → sync_ok s.
Proof. intros Hu. apply (vs_free _ _ _ _ (us_vs _ _ _ _ Hu)). Qed.

Lemma aligned_down va : va mod 4096 = 0 → 0 ≤ va < 2 ^ 64 → PGROUNDDOWN va = va.
Proof. intros Ha Hr. rewrite PGROUNDDOWN_eq by done. change PGSIZE with 4096. lia. Qed.

Lemma wp_ismapped E root T l va Q s : vspace s root T l → 0 ≤ va < MAXVA →
  Q (Z.testbit (pte_of (ram s) T va) 0) s → wp E (ismapped root va) Q s.
Proof.
  intros Hvs Hva HQ. unfold ismapped. apply wp_bind. unfold wp at 1.
  rewrite (run_walk s root T l) by done. cbn [wp_run]. unfold pte_of in HQ.
  destruct (T !! path va) as [t|] eqn:Ht; [|by apply wp_ret].
  pose proof (page_pos _ (pt_page _ _ _ (vs_rep _ _ _ _ Hvs) _ _ Ht)).
  pose proof (PX_range 0 va ltac:(lia)). rewrite (proj2 (Z.eqb_neq _ _)) by lia.
  unfold load64. ksteps. by rewrite has_V.
Qed.

Lemma wp_vmfault E root T l va0 s :
  uspace s root T l → running_on s root → va0 mod 4096 = 0 → 0 ≤ va0 →
  (va0 < MAXVA → umapped (ram s) T va0 = false) →
  wp E (vmfault root va0) (touched root s T va0) s.
Proof.
  intros Hu (i & p & Hc & Hp & Hroot & Hsz) Hal H0 Hun. unfold vmfault. apply wp_bind.
  eapply wp_curproc; [by eapply uspace_sync|done|]. intros s1 Heq1. apply wp_bind.
  assert (Hp1 : procs s1 !! i = Some p) by (by rewrite (keq_procs _ _ Heq1)).
  assert (Hu1 : uspace s1 root T l) by (by eapply uspace_keq; [symmetry|]).
  eapply wp_getp; [done|]. destruct (Z.leb_spec (p_sz p) va0) as [Hle|Hlt].
  { apply wp_ret. by eapply touched_none. }
  assert (Hva : 0 ≤ va0 < MAXVA)
    by (change TRAPFRAME with 274877898752 in Hsz; change MAXVA with 274877906944; lia).
  assert (Hva' : va0 + 4096 ≤ MAXVA) by (change TRAPFRAME with 274877898752 in Hsz;
    change MAXVA with 274877906944; pose proof (Z.div_mod va0 4096); lia).
  rewrite aligned_down by (done || change MAXVA with 274877906944 in *; lia). apply wp_bind.
  eapply wp_ismapped; [apply Hu1|done|].
  destruct (Z.testbit (pte_of (ram s1) T va0) 0) eqn:Hv.
  { apply wp_ret. by eapply touched_none. }
  apply wp_bind. eapply wp_kalloc; [apply (us_vs _ _ _ _ Hu1)|..].
  { intros -> s2 Heq2 _. cbn. apply wp_ret. eapply touched_none; [done| |done]. by rewrite Heq2. }
  intros n l' -> s2 Heq2 Hfl2. pose proof (fresh_ok _ _ _ _ _ Hu1) as Hn. pose proof (page_pos _ Hn).
  rewrite (proj2 (Z.eqb_neq n 0)) by lia. unfold fill at 1. apply wp_bind, wp_modify. fold (zeroed n s2).
  pose proof (zeroed_only _ _ _ Heq2 : only_mem s1 (zeroed n s2)) as Ho.
  apply wp_bind. eapply wp_getp; [by rewrite (only_mem_procs _ _ Ho)|]. rewrite Hroot. apply wp_bind.
  assert (Hpte : ∀ va, pte_of (ram (zeroed n s2)) T va = pte_of (ram s1) T va) by (by eapply zeroed_pte).
  pose proof (page_pa_ok _ Hn) as [Hna Hnr].
  assert (Hbridge : ∀ r s', touched root s1 T va0 r s' → touched root s T va0 r s').
  { intros r s' (T' & l'' & A & B & C). exists T', l''. split_and!; [done| |].
    - eapply uext_trans; [by apply (uext_refl 0 0)|exact B|]. lia.
    - rewrite <- (keq_ram _ _ Heq1). exact C. }
  change PGSIZE with (Z.of_nat 1 * PGSIZE) at 1.
  eapply (wp_mappages _ 1 root va0 n _ T l').
  - by eapply zeroed_vspace.
  - lia.
  - done.
  - lia.
  - change PGSIZE with 4096. lia.
  - done.
  - lia.
  - destruct Hn as [_ Hn]. unfold PHYSTOP, KERNBASE, PGSIZE in *. lia.
  - done.
  - intros a Ha Hr. rewrite Hpte. assert (E0 : a / 4096 = va0 / 4096) by lia.
    revert Hv. unfold pte_of, path. rewrite !PX_eq, !Z.pow_add_r by lia. change (2 ^ 12) with 4096.
    by rewrite <- !Z.div_div, E0 by lia.
  - intros s3 T3 l3 k Hmv Hk -> Hp3. cbn. apply wp_bind.
    eapply (wp_kfree _ n []).
    + apply (mv_vs _ _ _ _ _ _ _ Hmv).
    + done.
    + apply not_elem_of_nil.
    + intros s4 Heq4 Hfl4. apply wp_ret, Hbridge.
      destruct (zeroed_fail s1 root T n l' s2 s3 T3 [] s4) as [A B]; try done.
      { intros va Hva0. rewrite Hp3 by done. unfold mapped_range. rewrite decide_False by lia. apply Hpte. }
      exists T3, [n]. split_and!; [done|done|left]. split; [done|]. by rewrite (keq_ram _ _ Heq1).
  - intros s3 T3 l3 Hmv Hp3. cbn. apply wp_ret, Hbridge.
    destruct (zeroed_mapped s1 root T n l' s2 s3 T3 l3 va0 (Z.lor (Z.lor PTE_W PTE_U) PTE_R))
      as (A & B & C & D & F); try done.
    { unfold umapped. by rewrite Hv. }
    { intros va Hva0. rewrite Hp3 by done. unfold mapped_range.
      destruct (decide (va / 4096 = va0 / 4096)) as [E0|E0].
      - rewrite decide_True by lia. f_equal. lia.
      - rewrite decide_False by lia. apply Hpte. }
    exists T3, l3. split_and!; [done|done|]. right. split_and!; try done; lia.
Qed.

Lemma wp_touch E root T l va0 s :
  uspace s root T l → running_on s root → va0 mod 4096 = 0 → 0 ≤ va0 →
  wp E (touch root va0) (touched root s T va0) s.
Proof.
  intros Hu Hrun Hal H0. unfold touch. apply wp_bind. unfold wp at 1.
  rewrite (run_walkaddr s root T l) by done. cbn [wp_run].
  destruct (Z.ltb_spec va0 MAXVA) as [Hlt|Hge]; cbn [andb].
  - destruct (umapped (ram s) T va0) eqn:Hm.
    + pose proof (page_pos _ (us_page _ _ _ _ Hu va0 ltac:(lia) Hm)).
      rewrite (proj2 (Z.eqb_neq _ _)) by lia. apply wp_ret. exists T, l.
      split_and!; [done|by apply uext_refl|]. right. split_and!; try done; try lia. by intros Hf; rewrite Hf in Hm.
    + by apply (wp_vmfault _ _ _ l).
  - apply (wp_vmfault _ _ _ l); try done; lia.
Qed.

(** ** copyout *)

Lemma copyout_loop_S fuel pt dst b src :
  copyout_loop (S fuel) pt dst (b :: src) =
    (let va0 := PGROUNDDOWN dst in
     if MAXVA <=? va0 then mret (-1) else
     pa0 ← touch pt va0;
     if pa0 =? 0 then mret (-1) else
     pte ← walk pt va0 false;
     e ← deref pte;
     if negb (has e PTE_W) then mret (-1) else
     let n := Nat.min (Z.to_nat (PGSIZE - (dst - va0))) (length (b :: src)) in
     modify (λ s, set_ram (put_bytes (ram s) (pa0 + (dst - va0)) (take n (b :: src))) s);;
     copyout_loop fuel pt (u64 (va0 + PGSIZE)) (drop n (b :: src))).
Proof. done. Qed.

(** Every byte of the range is mapped for writing by the user. *)
Definition writable (m : mem) (T : gmap (list Z) Z) (dst len : Z) : Prop :=
  ∀ va, dst ≤ va < dst + len →
    va < MAXVA ∧ umapped m T va = true ∧ Z.testbit (pte_of m T va) 2 = true.

Record copied (dst : Z) (src : list Z) (s : KState) (T : gmap (list Z) Z) (root r : Z) (s' : KState)
    (T' : gmap (list Z) Z) (l' : list Z) : Prop := {
  cp_space : uspace s' root T' l';
  cp_ext : uext dst (Z.of_nat (length src)) s T s' T';
  cp_ret : r = 0 ∨ r = -1;
  cp_bytes : r = 0 → ∀ k b, src !! k = Some b →
    dst + Z.of_nat k < MAXVA ∧ uview (ram s') T' (dst + Z.of_nat k) = Some b;
  cp_succeeds : writable (ram s) T dst (Z.of_nat (length src)) → r = 0
}.

Lemma page_split dst : 0 ≤ dst < 2 ^ 64 →
  PGROUNDDOWN dst mod 4096 = 0 ∧ 0 ≤ PGROUNDDOWN dst ∧ PGROUNDDOWN dst ≤ dst < PGROUNDDOWN dst + 4096 ∧
  PGROUNDDOWN dst / 4096 = dst / 4096.
Proof.
  intros Hd. rewrite PGROUNDDOWN_eq by done. change PGSIZE with 4096.
  pose proof (Z.div_mod dst 4096). pose proof (Z.mod_pos_bound dst 4096).
  replace (dst - dst mod 4096) with (dst / 4096 * 4096) by lia.
  rewrite Z.mod_mul, Z.div_mul by lia. lia.
Qed.

Lemma same_page_pte m T va va' : va / 4096 = va' / 4096 → pte_of m T va = pte_of m T va'.
Proof.
  intros E0. unfold pte_of, path. rewrite !PX_eq, !Z.pow_add_r by lia. change (2 ^ 12) with 4096.
  by rewrite <- !Z.div_div, E0 by lia.
Qed.

Lemma copied_stop dst src s T root s' T' l' :
  uspace s' root T' l' → uext dst (Z.of_nat (length src)) s T s' T' →
  ¬ writable (ram s) T dst (Z.of_nat (length src)) → copied dst src s T root (-1) s' T' l'.
Proof. intros. split; try done. by right. Qed.

Lemma uext_widen d n s T s' T' : uext 0 0 s T s' T' → uext d n s T s' T'.
Proof. intros [H1 H2 H3 H4]. split; [done|done| |done]. intros va b Hva _. apply H3; [done|]. lia. Qed.

Lemma wp_copyout_loop E root fuel dst src T l s :
  uspace s root T l → running_on s root → 0 ≤ dst < 2 ^ 64 → (length src ≤ fuel)%nat →
  wp E (copyout_loop fuel root dst src) (λ r s', ∃ T' l', copied dst src s T root r s' T' l') s.
Proof.
  revert dst src T l s. induction fuel as [|fuel IH]; intros dst src T l s Hu Hrun Hdst Hlen;
    (destruct src as [|b src]; [apply wp_ret; exists T, l; split; [done|by apply uext_refl|by left|by intros|done]|]).
  { cbn in Hlen. lia. }
  destruct (page_split dst Hdst) as (Hal & Hv0 & Hin & Hpg).
  rewrite copyout_loop_S. cbv zeta. set (va0 := PGROUNDDOWN dst) in *. set (full := b :: src) in *.
  assert (Hpos : (0 < length full)%nat) by (cbn; lia).
  destruct (Z.leb_spec MAXVA va0) as [Hbig|Hva0].
  { apply wp_ret. exists T, l. apply copied_stop; [done|by apply uext_refl|].
    intros Hw. destruct (Hw dst ltac:(lia)). lia. }
  apply wp_bind. eapply wp_mono; [by apply (wp_touch _ _ T l)|].
  intros pa0 s1 (T1 & l1 & Hu1 & Hx1 & Hcase).
  destruct Hcase as [[-> Hun]|(Hpa & _ & Hm1 & Hf1 & _)].
  { cbn. apply wp_ret. exists T1, l1. apply copied_stop; [done|by apply uext_widen|].
    intros Hw. destruct (Hw dst ltac:(lia)) as (_ & Hm & _). unfold umapped in Hm.
    rewrite (same_page_pte _ _ dst va0) in Hm by done. unfold umapped in Hun. rewrite Hun in Hm by done. done. }
  rewrite (proj2 (Z.eqb_neq _ _)) by done. apply wp_bind. unfold wp at 1.
  rewrite (run_walk s1 root T1 l1) by (apply Hu1 || done). cbn [wp_run].
  assert (Hpte1 : ∃ t, T1 !! path va0 = Some t ∧ pte_of (ram s1) T1 va0 = read64 (ram s1) (t + 8 * PX 0 va0)).
  { unfold umapped, pte_of in Hm1 |- *. destruct (T1 !! path va0); [eauto|done]. }
  destruct Hpte1 as (t & Ht & Hpte1). rewrite Ht.
  pose proof (page_pos _ (pt_page _ _ _ (vs_rep _ _ _ _ (us_vs _ _ _ _ Hu1)) _ _ Ht)).
  pose proof (PX_range 0 va0 ltac:(lia)). unfold deref. rewrite (proj2 (Z.eqb_neq _ _)) by lia.
  unfold load64. ksteps. rewrite <- Hpte1, has_W.
  destruct (Z.testbit (pte_of (ram s1) T1 va0) 2) eqn:HW; cbn [negb].
  2:{ apply wp_ret. exists T1, l1. apply copied_stop; [done|by apply uext_widen|].
      intros Hw. destruct (Hw dst ltac:(lia)) as (_ & Hm & HW'). unfold umapped in Hm.
      rewrite (same_page_pte _ _ dst va0) in Hm, HW' by done.
      by rewrite (ue_pte _ _ _ _ _ _ Hx1), HW' in HW. }
  set (n := Nat.min _ _). ksteps.
  assert (Hn : (0 < n ≤ length full)%nat ∧ dst - va0 + Z.of_nat n ≤ 4096 ∧
    (n = length full ∨ dst + Z.of_nat n = va0 + 4096)) by (unfold n, PGSIZE; lia).
  destruct Hn as (Hn1 & Hn2 & Hn3). rewrite <- Hf1.
  assert (Htk : length (take n full) = n) by (rewrite length_take; lia).
  fold (put_user s1 T1 va0 (dst - va0) (take n full)).
  set (s2 := put_user s1 T1 va0 (dst - va0) (take n full)).
  assert (Hu2 : uspace s2 root T1 l1) by (apply put_uspace; try done; rewrite ?Htk; lia).
  assert (Hx2 : uext dst (Z.of_nat n) s1 T1 s2 T1).
  { pose proof (put_uext s1 root T1 l1 va0 (dst - va0) (take n full) Hu1 ltac:(lia) Hal Hm1
      ltac:(lia) ltac:(rewrite Htk; lia)) as Hx. rewrite Htk in Hx.
    by replace (va0 + (dst - va0)) with dst in Hx by lia. }
  assert (Hx12 : uext dst (Z.of_nat n) s T s2 T1) by (eapply uext_trans; [exact Hx1|exact Hx2|]; lia).
  change MAXVA with 274877906944 in *. unfold u64, PGSIZE. rewrite Z.mod_small by lia.
  assert (Hva1 : va0 + 4096 ≤ 274877906944) by (pose proof (Z.div_mod va0 4096); lia).
  eapply wp_mono; [apply (IH (va0 + 4096) (drop n full) T1 l1 s2)|].
  - done.
  - eapply running_only; [apply Hx12|done].
  - lia.
  - rewrite length_drop. cbn in Hlen |- *. lia.
  - intros r s3 (T3 & l3 & C). exists T3, l3.
    assert (Hld : length (drop n full) = (length full - n)%nat) by apply length_drop.
    split.
    + apply C.
    + pose proof (cp_ext _ _ _ _ _ _ _ _ _ C) as Hx3. rewrite Hld in Hx3.
      eapply uext_trans; [exact Hx12|exact Hx3|]. intros va Hva.
      destruct Hn3 as [->|Hn3]; [rewrite Nat.sub_diag; cbn [Z.of_nat]|]; lia.
    + apply C.
    + intros Hr k c Hk. destruct (decide (k < n)%nat) as [Hkn|Hkn].
      * split; [change MAXVA with 274877906944; lia|]. apply (ue_view _ _ _ _ _ _ (cp_ext _ _ _ _ _ _ _ _ _ C)); [|lia|].
        { change MAXVA with 274877906944. lia. }
        unfold s2. rewrite (put_view s1 root T1 l1); try done; try (rewrite ?Htk; lia);
          [|change MAXVA with 274877906944; lia].
        rewrite decide_True by (rewrite Htk; lia).
        replace (Z.to_nat _) with k by lia. f_equal.
        apply list_lookup_total_correct. by rewrite lookup_take_lt.
      * destruct Hn3 as [Hn3|Hn3].
        { apply lookup_lt_Some in Hk. lia. }
        destruct (cp_bytes _ _ _ _ _ _ _ _ _ C Hr (k - n)%nat c) as [B1 B2].
        { rewrite lookup_drop. by replace (n + (k - n))%nat with k by lia. }
        replace (dst + Z.of_nat k) with (va0 + 4096 + Z.of_nat (k - n)) by lia. done.
    + intros Hw. apply (cp_succeeds _ _ _ _ _ _ _ _ _ C). rewrite Hld. intros va Hva.
      destruct Hn3 as [Hn3|Hn3]; [lia|]. destruct (Hw va ltac:(lia)) as (W1 & W2 & W3).
      pose proof (ue_pte _ _ _ _ _ _ Hx12 va ltac:(split; [lia|exact W1]) W2) as Hp.
      unfold umapped in *. rewrite Hp. done.
Qed.

(** ** copyin *)

Lemma copyin_loop_S fuel pt srcva len :
  copyin_loop (S fuel) pt srcva (S len) =
    (let va0 := PGROUNDDOWN srcva in
     pa0 ← touch pt va0;
     if pa0 =? 0 then mret (-1, []) else
     let n := Nat.min (Z.to_nat (PGSIZE - (srcva - va0))) (S len) in
     bs ← gets (λ s, bytes_at (ram s) (pa0 + (srcva - va0)) n);
     r ← copyin_loop fuel pt (u64 (va0 + PGSIZE)) (S len - n);
     mret (r.1, bs ++ r.2)).
Proof. done. Qed.

Definition readable (m : mem) (T : gmap (list Z) Z) (srcva len : Z) : Prop :=
  ∀ va, srcva ≤ va < srcva + len → va < MAXVA ∧ umapped m T va = true.

Record fetched (srcva : Z) (len : nat) (s : KState) (T : gmap (list Z) Z) (root : Z)
    (res : Z * list Z) (s' : KState) (T' : gmap (list Z) Z) (l' : list Z) : Prop := {
  ft_space : uspace s' root T' l';
  ft_ext : uext 0 0 s T s' T';
  ft_ret : res.1 = 0 ∨ res.1 = -1;
  ft_len : res.1 = 0 → length res.2 = len;
  ft_bytes : res.1 = 0 → ∀ k b, res.2 !! k = Some b →
    srcva + Z.of_nat k < MAXVA ∧ uview (ram s') T' (srcva + Z.of_nat k) = Some b;
  ft_succeeds : readable (ram s) T srcva (Z.of_nat len) → res.1 = 0
}.

Lemma fetched_stop srcva len s T root s' T' l' :
  uspace s' root T' l' → uext 0 0 s T s' T' → ¬ readable (ram s) T srcva (Z.of_nat len) →
  fetched srcva len s T root (-1, []) s' T' l'.
Proof. intros. split; try done. by right. Qed.

Lemma view_bytes m T va0 off n k : va0 mod 4096 = 0 → 0 ≤ off → off + Z.of_nat n ≤ 4096 → (k < n)%nat →
  umapped m T va0 = true →
  uview m T (va0 + off + Z.of_nat k) = bytes_at m (frame_of m T va0 + off) n !! k.
Proof.
  intros Hal Hoff Hn Hk Hm. rewrite bytes_at_lookup by done.
  assert (E0 : (va0 + off + Z.of_nat k) / 4096 = va0 / 4096).
  { pose proof (Z.div_mod va0 4096). replace (va0 + off + Z.of_nat k) with (off + Z.of_nat k + va0 / 4096 * 4096) by lia.
    rewrite Z.div_add, Z.div_small by lia. lia. }
  assert (E1 : (va0 + off + Z.of_nat k) mod 4096 = off + Z.of_nat k).
  { pose proof (Z.div_mod va0 4096). replace (va0 + off + Z.of_nat k) with (off + Z.of_nat k + va0 / 4096 * 4096) by lia.
    rewrite Z.mod_add, Z.mod_small by lia. done. }
  unfold uview, umapped, frame_of in *. rewrite (same_page_pte _ _ _ va0 E0), Hm, E1. do 2 f_equal. lia.
Qed.

Lemma wp_copyin_loop E root fuel srcva len T l s :
  uspace s root T l → running_on s root → 0 ≤ srcva < 2 ^ 64 → (len ≤ fuel)%nat →
  wp E (copyin_loop fuel root srcva len) (λ r s', ∃ T' l', fetched srcva len s T root r s' T' l') s.
Proof.
  revert srcva len T l s. induction fuel as [|fuel IH]; intros srcva len T l s Hu Hrun Hsrc Hlen;
    (destruct len as [|len]; [apply wp_ret; exists T, l; split; [done|by apply uext_refl|by left|done|by intros|done]|]).
  { lia. }
  destruct (page_split srcva Hsrc) as (Hal & Hv0 & Hin & Hpg).
  rewrite copyin_loop_S. cbv zeta. set (va0 := PGROUNDDOWN srcva) in *.
  apply wp_bind. eapply wp_mono; [by apply (wp_touch _ _ T l)|].
  intros pa0 s1 (T1 & l1 & Hu1 & Hx1 & Hcase).
  destruct Hcase as [[-> Hun]|(Hpa & Hva0 & Hm1 & Hf1 & _)].
  { cbn. apply wp_ret. exists T1, l1. apply fetched_stop; [done|done|].
    intros Hw. destruct (Hw srcva ltac:(lia)) as (Hlt & Hm). unfold umapped in *.
    rewrite (same_page_pte _ _ srcva va0) in Hm by done. rewrite Hun in Hm by lia. done. }
  rewrite (proj2 (Z.eqb_neq _ _)) by done. set (n := Nat.min _ _). ksteps.
  assert (Hn : (0 < n ≤ S len)%nat ∧ srcva - va0 + Z.of_nat n ≤ 4096 ∧
    (n = S len ∨ srcva + Z.of_nat n = va0 + 4096)) by (unfold n, PGSIZE; lia).
  destruct Hn as (Hn1 & Hn2 & Hn3). rewrite <- Hf1.
  assert (Hva1 : va0 + 4096 ≤ MAXVA)
    by (change MAXVA with 274877906944 in *; pose proof (Z.div_mod va0 4096); lia).
  assert (Hmx : MAXVA = 274877906944) by done.
  unfold u64, PGSIZE. rewrite Z.mod_small by lia.
  set (chunk := bytes_at (ram s1) (frame_of (ram s1) T1 va0 + (srcva - va0)) n).
  assert (Hcl : length chunk = n) by apply length_bytes_at.
  eapply wp_mono; [apply (IH (va0 + 4096) (S len - n)%nat T1 l1 s1)|].
  - done.
  - eapply running_only; [apply Hx1|done].
  - lia.
  - lia.
  - intros [r bs] s3 (T3 & l3 & C). ksteps. cbn [fst snd] in *. exists T3, l3. split; cbn [fst snd].
    + apply C.
    + eapply uext_trans; [exact Hx1|apply C|]. lia.
    + apply (ft_ret _ _ _ _ _ _ _ _ _ C).
    + intros Hr. pose proof (ft_len _ _ _ _ _ _ _ _ _ C Hr) as Hl. cbn in Hl.
      rewrite length_app, Hcl, Hl. lia.
    + intros Hr k c Hk. destruct (decide (k < n)%nat) as [Hkn|Hkn].
      * split; [lia|]. apply (ue_view _ _ _ _ _ _ (ft_ext _ _ _ _ _ _ _ _ _ C)); [lia|lia|].
        replace (srcva + Z.of_nat k) with (va0 + (srcva - va0) + Z.of_nat k) by lia.
        rewrite (view_bytes _ _ va0 (srcva - va0) n k) by (done || lia).
        by rewrite lookup_app_l in Hk by lia.
      * rewrite lookup_app_r, Hcl in Hk by lia.
        destruct (ft_bytes _ _ _ _ _ _ _ _ _ C Hr (k - n)%nat c Hk) as [B1 B2].
        destruct Hn3 as [Hn3|Hn3].
        { apply lookup_lt_Some in Hk. pose proof (ft_len _ _ _ _ _ _ _ _ _ C Hr) as Hl. cbn in Hl. lia. }
        replace (srcva + Z.of_nat k) with (va0 + 4096 + Z.of_nat (k - n)) by lia. done.
    + intros Hw. apply (ft_succeeds _ _ _ _ _ _ _ _ _ C). intros va Hva.
      destruct Hn3 as [Hn3|Hn3]; [lia|]. destruct (Hw va ltac:(lia)) as (W1 & W2). split; [done|].
      by apply (uext_umapped _ _ _ _ _ _ va Hx1 ltac:(lia)).
Qed.

(** C14: [copyout] on the running process's page table never panics and keeps
    the address space well-formed.  It returns 0 or -1; if every page of the
    range is mapped for user writing it returns 0; after 0 a [copyin] of the
    same range returns exactly the bytes that were copied out; and in every
    case no user byte outside the range and no page of another owner changes. *)
Theorem copyout_copyin (s : KState) (root : Z) (T : gmap (list Z) Z) (l : list Z) (dst : Z) (src : list Z)
  (Hu : uspace s root T l) (Hrun : running_on s root) (Hdst : 0 ≤ dst < 2 ^ 64) :
  ∃ r s1 T1 l1, copyout root dst src s = Ret r s1 ∧ uspace s1 root T1 l1 ∧ (r = 0 ∨ r = -1) ∧
    (writable (ram s) T dst (Z.of_nat (length src)) → r = 0) ∧
    (r = 0 → ∃ s2, copyin root dst (length src) s1 = Ret (0, src) s2) ∧
    (∀ va b, 0 ≤ va < MAXVA → va < dst ∨ dst + Z.of_nat (length src) ≤ va →
       uview (ram s) T va = Some b → uview (ram s1) T1 va = Some b) ∧
    (∀ q, other_page q → agree q PGSIZE (ram s1) (ram s)).
Proof.
  pose proof (wp_copyout_loop Atomic root (length src) dst src T l s Hu Hrun Hdst ltac:(lia)) as Hwp.
  apply wp_atomic in Hwp as (r & s1 & Hr & T1 & l1 & C). exists r, s1, T1, l1.
  split_and!; [done|apply C|apply (cp_ret _ _ _ _ _ _ _ _ _ C)|apply (cp_succeeds _ _ _ _ _ _ _ _ _ C)| | |apply (ue_other _ _ _ _ _ _ (cp_ext _ _ _ _ _ _ _ _ _ C))].
  2:{ intros va b Hva Ho Hv. by apply (ue_view _ _ _ _ _ _ (cp_ext _ _ _ _ _ _ _ _ _ C)). }
  intros ->. pose proof (cp_bytes _ _ _ _ _ _ _ _ _ C eq_refl) as Hb.
  pose proof (wp_copyin_loop Atomic root (length src) dst (length src) T1 l1 s1
    (cp_space _ _ _ _ _ _ _ _ _ C) (running_only _ _ _ (ue_only _ _ _ _ _ _ (cp_ext _ _ _ _ _ _ _ _ _ C)) Hrun)
    Hdst ltac:(lia)) as Hwp.
  apply wp_atomic in Hwp as ([r bs] & s2 & Hr2 & T2 & l2 & F). exists s2.
  assert (Hread : readable (ram s1) T1 dst (Z.of_nat (length src))).
  { intros va Hva. destruct (lookup_lt_is_Some_2 src (Z.to_nat (va - dst))) as [b Hb']; [lia|].
    destruct (Hb _ _ Hb') as [H1 H2]. replace (dst + Z.of_nat (Z.to_nat (va - dst))) with va in * by lia.
    split; [done|]. unfold uview in H2. by destruct (umapped (ram s1) T1 va). }
  pose proof (ft_succeeds _ _ _ _ _ _ _ _ _ F Hread) as Hz. cbn in Hz. subst r.
  pose proof (ft_len _ _ _ _ _ _ _ _ _ F eq_refl) as Hl. cbn in Hl.
  unfold copyin. rewrite Hr2. do 2 f_equal. apply list_eq. intros k.
  destruct (src !! k) as [b|] eqn:Hk.
  - destruct (lookup_lt_is_Some_2 bs k) as [c Hc]; [rewrite Hl; by eapply lookup_lt_Some|].
    destruct (Hb k b Hk) as [V1 V2]. destruct (ft_bytes _ _ _ _ _ _ _ _ _ F eq_refl k c Hc) as [V3 V4].
    assert (Hs : uview (ram s2) T2 (dst + Z.of_nat k) = Some b)
      by (apply (ue_view _ _ _ _ _ _ (ft_ext _ _ _ _ _ _ _ _ _ F)); [lia|lia|done]).
    congruence.
  - apply lookup_ge_None in Hk. apply lookup_ge_None. lia.
Qed.
End User.

(** Process 0 runs with an empty page table and two lazily allocated pages. *)
Definition user_sample : KState :=
  set_procs (<[0%nat := with_sz 8192 (with_pagetable 0x80100000 proc0)]> (procs bss))
    (set_cpu (mkCpu (Some 0%nat) 0 false) pt_sample).

(** Another owner has the page at 0x80034000. *)
Definition sample_others : Others := λ q, q = 0x80034000.

Lemma user_sample_uspace :
  uspace (H := sample_image) (OT := sample_others) user_sample 0x80100000 {[ [] := 0x80100000 ]}
    [0x80030000; 0x80031000; 0x80032000; 0x80033000].
Proof.
  assert (Hum : ∀ va, umapped (ram user_sample) {[ [] := 0x80100000 ]} va = false)
    by (intros va; unfold umapped, pte_of, path; by rewrite lookup_singleton_ne).
  split; try (intros va; rewrite Hum; done).
  - destruct pt_sample_vspace as [H1 H2 H3]. split; [exact H1| |exact H3].
    destruct H2 as [G1 G2 G3 G4 G5]. split; [exact G1|exact G2|exact G3|exact G4|exact G5].
  - intros q Hq. change (q = 0x80034000) in Hq. subst q. split_and!; [split; [reflexivity|split; [apply Z.leb_le|apply Z.ltb_lt]; reflexivity]|set_solver| |intros va _; by rewrite Hum].
    intros p t [<- <-]%lookup_singleton_Some. discriminate.
Qed.

Lemma copyout_copyin_witness :
  ∃ r s1, copyout (H := sample_image) 0x80100000 4094 [7; 8; 9; 10] user_sample = Ret r s1 ∧ (r = 0 ∨ r = -1) ∧
    (r = 0 → ∃ s2, copyin (H := sample_image) 0x80100000 4094 4 s1 = Ret (0, [7; 8; 9; 10]) s2).
Proof.
  destruct (copyout_copyin (H := sample_image) (OT := sample_others) user_sample 0x80100000 {[ [] := 0x80100000 ]}
    [0x80030000; 0x80031000; 0x80032000; 0x80033000] 4094 [7; 8; 9; 10] user_sample_uspace)
    as (r & s1 & T1 & l1 & H1 & _ & H2 & _ & H3 & _).
  - exists 0%nat, (with_sz 8192 (with_pagetable 0x80100000 proc0)). vm_compute. split_and!; done.
  - lia.
  - exists r, s1. split; [exact H1|]. split; [exact H2|exact H3].
Defined.
