(* ===== verification/Proc.v ===== *)
(** * proc.c: the process table, sleeping and the scheduler

    Processes are indices into the table, [None] the null pointer.  A kernel
    path gives the processor up only in [sched]; the scheduler gives it to a
    process in the same way.  Creation and termination of processes are in
    [Fork]. *)

From S2P Require Import Prelude CString Kernel KLogic Spinlock KMem Kalloc Vm.
Open Scope Z_scope.
Open Scope os_scope.

(** Offsets of [struct trapframe]. *)
Definition TF_kernel_satp : Z := 0.
Definition TF_kernel_sp : Z := 8.
Definition TF_kernel_trap : Z := 16.
Definition TF_epc : Z := 24.
Definition TF_kernel_hartid : Z := 32.
Definition TF_sp : Z := 48.
Definition TF_a0 : Z := 112.
Definition TF_a7 : Z := 168.
Definition TF_SIZE : Z := 288.

(** The byte arrays of structures, through the routines of string.c. *)
Definition arr_safestrcpy (dst src : list Z) (n : Z) : list Z :=
  let m := put_bytes (put_bytes ∅ 0 src) 4096 dst in
  bytes_at (safestrcpy m 4096 0 n) 4096 (length dst).

Definition for_procs (body : nat → M unit) : M unit :=
  r ← for_each (R := unit) (λ i, body i;; mret None) indices;
  mret tt.

Section Proc.
Context `{KernelImage}.

Definition procinit : M unit :=
  initlock Lpid "nextpid";;
  initlock Lwait "wait_lock";;
  initlock Lsem "sem_lock";;
  for_procs (λ i,
    initlock (Lproc i) "proc";;
    putp i (with_state UNUSED);;
    putp i (with_kstack (KSTACK (Z.of_nat i)))).

Definition allocpid : M Z :=
  acquire Lpid;;
  pid ← gets (λ s, nextpid s);
  n ← iadd pid 1;
  modify (set_nextpid n);;
  release Lpid;;
  mret pid.

Definition proc_pagetable (i : nat) : M Z :=
  pagetable ← uvmcreate;
  if pagetable =? 0 then mret 0 else
  r ← mappages pagetable TRAMPOLINE PGSIZE trampoline (Z.lor PTE_R PTE_X);
  if r <? 0 then uvmfree pagetable 0;; mret 0 else
  p ← getp i;
  r ← mappages pagetable TRAPFRAME PGSIZE (p_trapframe p) (Z.lor PTE_R PTE_W);
  if r <? 0 then uvmunmap pagetable TRAMPOLINE 1 false;; uvmfree pagetable 0;; mret 0 else
  mret pagetable.

Definition proc_freepagetable (pagetable sz : Z) : M unit :=
  uvmunmap pagetable TRAMPOLINE 1 false;;
  uvmunmap pagetable TRAPFRAME 1 false;;
  uvmfree pagetable sz.

Definition freeproc (i : nat) : M unit :=
  p ← getp i;
  when (negb (p_trapframe p =? 0)) (kfree (p_trapframe p));;
  putp i (with_trapframe 0);;
  when (negb (p_alarm_trapframe p =? 0)) (kfree (p_alarm_trapframe p));;
  putp i (with_alarm_trapframe 0);;
  when (negb (p_pagetable p =? 0))
    (if negb (p_is_thread p =? 0) then
       uvmunmap (p_pagetable p) 0 (PGROUNDUP (p_sz p) / PGSIZE) false;;
       uvmunmap (p_pagetable p) TRAMPOLINE 1 false;;
       uvmunmap (p_pagetable p) TRAPFRAME 1 false;;
       uvmfree (p_pagetable p) 0
     else proc_freepagetable (p_pagetable p) (p_sz p));;
  putp i (with_pagetable 0);;
  putp i (with_sz 0);;
  putp i (with_pid 0);;
  putp i (with_parent None);;
  putp i (λ p, with_name (<[0%nat := 0]> (p_name p)) p);;
  putp i (with_chan 0);;
  putp i (with_killed 0);;
  putp i (with_xstate 0);;
  putp i (with_state UNUSED);;
  putp i (with_alarm_interval 0);;
  putp i (with_alarm_ticks 0);;
  putp i (with_alarm_handler 0);;
  putp i (with_alarm_active 0).

(** The search of [allocproc]: the lock of the slot it finds stays held. *)
Definition find_unused : M (option nat) :=
  for_each (λ i : nat,
    acquire (Lproc i);;
    p ← getp i;
    if decide (p_state p = UNUSED) then mret (Some i)
    else release (Lproc i);; mret None) indices.

Definition allocproc : M (option nat) :=
  o ← find_unused;
  match o with
  | None => mret None
  | Some i =>
      pid ← allocpid;
      putp i (with_pid pid);;
      putp i (with_is_thread 0);;
      putp i (with_state USED);;
      tf ← kalloc;
      putp i (with_trapframe tf);;
      if tf =? 0 then freeproc i;; release (Lproc i);; mret None else
      pt ← proc_pagetable i;
      putp i (with_pagetable pt);;
      if pt =? 0 then freeproc i;; release (Lproc i);; mret None else
      putp i (λ p, with_context (mkContext forkret_addr (p_kstack p + PGSIZE) (replicate 12 0)) p);;
      putp i (with_alarm_interval 0);;
      putp i (with_alarm_ticks 0);;
      putp i (with_alarm_handler 0);;
      putp i (with_alarm_trapframe 0);;
      putp i (with_alarm_active 0);;
      mret (Some i)
  end.

Definition growproc (n : Z) : M Z :=
  i ← curproc;
  p ← getp i;
  let sz := p_sz p in
  if 0 <? n then
    if TRAPFRAME <? u64 (sz + n) then mret (-1) else
    sz' ← uvmalloc (p_pagetable p) sz (u64 (sz + n)) PTE_W;
    if sz' =? 0 then mret (-1) else putp i (with_sz sz');; mret 0
  else if n <? 0 then
    sz' ← uvmdealloc (p_pagetable p) sz (u64 (sz + n));
    putp i (with_sz sz');; mret 0
  else putp i (with_sz sz);; mret 0.

(** ** Giving the processor up *)

Definition sched : M unit :=
  i ← curproc;
  h ← holding (Lproc i);
  if negb h then panic "sched p->lock" else
  c ← mycpu;
  if negb (noff c =? 1) then panic "sched locks" else
  p ← getp i;
  if decide (p_state p = RUNNING) then panic "sched RUNNING" else
  on ← intr_get;
  if (on : bool) then panic "sched interruptible" else
  swtch;;
  modify (λ s, set_cpu (mkCpu (c_proc (cpu s)) (noff (cpu s)) (intena c)) s).

Definition yield : M unit :=
  i ← curproc;
  acquire (Lproc i);;
  putp i (with_state RUNNABLE);;
  sched;;
  release (Lproc i).

Definition sleep (chan : Z) (lk : lockid) : M unit :=
  i ← curproc;
  acquire (Lproc i);;
  release lk;;
  putp i (with_chan chan);;
  putp i (with_state SLEEPING);;
  sched;;
  putp i (with_chan 0);;
  release (Lproc i);;
  acquire lk.

Definition wakeup (chan : Z) : M unit :=
  for_procs (λ i,
    me ← myproc;
    if decide (Some i = me) then mret tt else
    acquire (Lproc i);;
    p ← getp i;
    when (bool_decide (p_state p = SLEEPING) && (p_chan p =? chan)) (putp i (with_state RUNNABLE));;
    release (Lproc i)).

Definition set_cproc (o : option nat) : M unit :=
  modify (λ s, set_cpu (mkCpu o (noff (cpu s)) (intena (cpu s))) s).

(** One pass of the scheduler over the table; the result says whether a
    process ran. *)
Definition scheduler_round : M bool :=
  intr_on;;
  intr_off;;
  (fix loop (l : list nat) (found : bool) : M bool :=
     match l with
     | [] => mret found
     | i :: l' =>
         acquire (Lproc i);;
         p ← getp i;
         found ← (if decide (p_state p = RUNNABLE) then
                    putp i (with_state RUNNING);;
                    set_cproc (Some i);;
                    swtch;;
                    set_cproc None;;
                    mret true
                  else mret found);
         release (Lproc i);;
         loop l' found
     end) indices false.

Definition kkill (pid : Z) : M Z :=
  r ← for_each (λ i : nat,
    acquire (Lproc i);;
    p ← getp i;
    if p_pid p =? pid then
      putp i (with_killed 1);;
      when (bool_decide (p_state p = SLEEPING)) (putp i (with_state RUNNABLE));;
      release (Lproc i);;
      mret (Some 0)
    else release (Lproc i);; mret None) indices;
  mret (default (-1) r).

Definition setkilled (i : nat) : M unit :=
  acquire (Lproc i);;
  putp i (with_killed 1);;
  release (Lproc i).

Definition killed (i : nat) : M Z :=
  acquire (Lproc i);;
  p ← getp i;
  release (Lproc i);;
  mret (p_killed p).

(** The kernel side of the copy is a byte list; a kernel destination is in
    memory. *)
Definition either_copyout (user_dst : bool) (dst : Z) (src : list Z) : M Z :=
  i ← curproc;
  p ← getp i;
  if user_dst then copyout (p_pagetable p) dst src
  else modify (λ s, set_ram (put_bytes (ram s) dst src) s);; mret 0.

Definition either_copyin (user_src : bool) (src : Z) (len : nat) : M (Z * list Z) :=
  i ← curproc;
  p ← getp i;
  if user_src then copyin (p_pagetable p) src len
  else bs ← gets (λ s, bytes_at (ram s) src len); mret (0, bs).

(** The lines [procdump] prints. *)
Definition state_name (st : procstate) : string :=
  match st with
  | UNUSED => "unused" | USED => "used" | SLEEPING => "sleep " | RUNNABLE => "runble"
  | RUNNING => "run   " | ZOMBIE => "zombie"
  end.
Definition procdump : M (list (Z * string * list Z)) :=
  ps ← gets (λ s, procs s);
  mret ((λ p, (p_pid p, state_name (p_state p), p_name p)) <$> filter (λ p, p_state p ≠ UNUSED) ps).
End Proc.
