(* ===== verification/ProcSpec.v ===== *)
(** * What the process-table operations do

    Each operation is described by the exact change it makes to the process
    table, all other state and every lock being as before. *)

From S2P Require Import Prelude CString Kernel KLogic Spinlock KMem Kalloc Vm VmSpec VmUser Proc.
Open Scope Z_scope.
Open Scope os_scope.

(** ** Loops over the table *)

Lemma wp_indices {R} E (f : nat → M (option R)) (J : nat → KState → Prop) (Q : option R → KState → Prop) s :
  J 0%nat s →
  (∀ i s, (i < NPROC)%nat → J i s →
     wp E (f i) (λ r s', match r with Some v => Q (Some v) s' | None => J (S i) s' end) s) →
  (∀ s, J NPROC s → Q None s) →
  wp E (for_each f indices) Q s.
Proof.
  intros H0 Hstep Hend. unfold indices.
  apply (wp_for_each E f (λ l, J (length l)) Q (seq 0 NPROC) []); [done| |].
  - intros pre x suf t Heq HJ. cbn in HJ.
    assert (x = length pre ∧ (length pre < NPROC)%nat) as [-> Hlt].
    { assert (Hl : seq 0 NPROC !! length pre = Some x) by (rewrite Heq; by apply list_lookup_middle).
      apply lookup_seq in Hl as [-> Hlt]. split; [lia|done]. }
    eapply wp_mono; [by apply Hstep|]. intros [v|] t' Ht; [done|].
    cbn. rewrite length_app. cbn. by rewrite Nat.add_1_r.
  - intros t Ht. apply Hend. by rewrite length_app, length_seq in Ht.
Qed.

Lemma wp_for_procs E (body : nat → M unit) (J : nat → KState → Prop) (Q : unit → KState → Prop) s :
  J 0%nat s →
  (∀ i s, (i < NPROC)%nat → J i s → wp E (body i) (λ _ s', J (S i) s') s) →
  (∀ s, J NPROC s → Q tt s) →
  wp E (for_procs body) Q s.
Proof.
  intros H0 Hstep Hend. unfold for_procs. apply wp_bind. apply (wp_indices E _ J); [done| |].
  - intros i t Hi HJ. apply wp_bind. eapply wp_mono; [by apply Hstep|].
    intros [] t' Ht. by apply wp_ret.
  - intros t Ht. by apply wp_ret, Hend.
Qed.

Lemma wp_putp E i p f Q s :
  procs s !! i = Some p → Q tt (set_procs (<[i := f p]> (procs s)) s) → wp E (putp i f) Q s.
Proof. intros Hp HQ. unfold putp. apply wp_bind. eapply wp_getp; [done|]. by apply wp_modify. Qed.

(** ** One slot under its lock *)

(** The path can take the lock of slot [i]. *)
Definition lockable (s : KState) (i : nat) : Prop := lock_free s (Lproc i).

Lemma rel_acq_procs l s v :
  lock_free s l → sync_ok s → rel l (set_procs v (acq l s)) ≡k set_procs v s.
Proof. intros Hl Hs. by rewrite (rel_restore l s) by done. Qed.

Lemma wp_leave E l (Q : unit → KState → Prop) s v :
  lock_free s l → sync_ok s → (∀ s', s' ≡k set_procs v s → Q tt s') →
  wp E (release l) Q (set_procs v (acq l s)).
Proof.
  intros Hl Hs HQ. apply wp_release.
  - mine.
  - done.
  - destruct Hs. cbn. lia.
  - by apply HQ, rel_acq_procs.
Qed.

Lemma wp_leave_same E l (Q : unit → KState → Prop) s :
  lock_free s l → sync_ok s → (∀ s', s' ≡k s → Q tt s') → wp E (release l) Q (acq l s).
Proof.
  intros Hl Hs HQ. apply wp_release; [mine|done|destruct Hs; cbn; lia|]. by apply HQ, rel_acq.
Qed.

Lemma set_procs_same s : set_procs (procs s) s = s.
Proof. by destruct s as [y []]. Qed.
Lemma set_procs_twice v w s : set_procs v (set_procs w s) = set_procs v s.
Proof. done. Qed.

(** ** wakeup *)

Definition wake_one (me : option nat) (chan : Z) (j : nat) (p : Proc) : Proc :=
  if decide (Some j = me) then p
  else if bool_decide (p_state p = SLEEPING) && (p_chan p =? chan) then with_state RUNNABLE p else p.

(** The first [k] slots updated by [f]. *)
Definition upto (f : nat → Proc → Proc) (k : nat) (ps : list Proc) : list Proc :=
  imap (λ j p, if (j <? k)%nat then f j p else p) ps.

Lemma upto_0 f ps : upto f 0 ps = ps.
Proof. unfold upto. by apply imap_id || (apply list_eq; intros j; rewrite list_lookup_imap; by destruct (ps !! j)). Qed.

Lemma upto_all f ps k : (length ps ≤ k)%nat → upto f k ps = imap f ps.
Proof.
  intros Hk. apply list_eq. intros j. unfold upto. rewrite !list_lookup_imap.
  destruct (ps !! j) as [p|] eqn:Hp; [|done]. apply lookup_lt_Some in Hp.
  cbn [fmap option_fmap option_map]. by rewrite (proj2 (Nat.ltb_lt j k)) by lia.
Qed.

Lemma upto_lookup f ps k j : upto f k ps !! j = (λ p, if (j <? k)%nat then f j p else p) <$> ps !! j.
Proof. unfold upto. by rewrite list_lookup_imap. Qed.

Lemma upto_here f ps k p : ps !! k = Some p → upto f k ps !! k = Some p.
Proof. intros Hp. rewrite upto_lookup, Hp. cbn [fmap option_fmap option_map]. by rewrite Nat.ltb_irrefl. Qed.

Lemma upto_S f ps k p : ps !! k = Some p → <[k := f k p]> (upto f k ps) = upto f (S k) ps.
Proof.
  intros Hp. apply list_eq. intros j. rewrite upto_lookup. destruct (decide (j = k)) as [->|Hne].
  - rewrite list_lookup_insert_eq by (unfold upto; rewrite length_imap; by eapply lookup_lt_Some).
    rewrite Hp. cbn [fmap option_fmap option_map]. by rewrite (proj2 (Nat.ltb_lt k (S k))) by lia.
  - rewrite list_lookup_insert_ne by done. rewrite upto_lookup. destruct (ps !! j); [|done].
    cbn [fmap option_fmap option_map].
    by replace (j <? S k)%nat with (j <? k)%nat by (destruct (Nat.ltb_spec j k), (Nat.ltb_spec j (S k)); lia).
Qed.

Lemma upto_S_id f ps k p : ps !! k = Some p → f k p = p → upto f (S k) ps = upto f k ps.
Proof.
  intros Hp Hf. rewrite <- (upto_S f ps k p Hp), Hf. apply list_insert_id.
  by apply upto_here.
Qed.

Section Spec.
Context `{KernelImage}.

Lemma wp_wakeup E chan Q s :
  sync_ok s → length (procs s) = NPROC →
  (∀ j, (j < NPROC)%nat → Some j ≠ c_proc (cpu s) → lockable s j) →
  (∀ s', s' ≡k set_procs (imap (wake_one (c_proc (cpu s)) chan) (procs s)) s → Q tt s') →
  wp E (wakeup chan) Q s.
Proof.
  intros Hs Hlen Hfree HQ. unfold wakeup. set (f := wake_one (c_proc (cpu s)) chan) in *.
  apply (wp_for_procs E _ (λ k s', s' ≡k set_procs (upto f k (procs s)) s)).
  - by rewrite upto_0, set_procs_same.
  - intros k t Hk Ht. destruct (lookup_lt_is_Some_2 (procs s) k) as [p Hp]; [lia|].
    assert (Hpt : procs t !! k = Some p)
      by (rewrite (keq_procs _ _ Ht); cbn [set_procs dat d_procs]; by apply upto_here).
    apply wp_bind, wp_myproc; [by rewrite Ht|]. intros t1 Ht1. rewrite (keq_proc _ _ Ht). cbn.
    assert (Hpt1 : procs t1 !! k = Some p) by (by rewrite (keq_procs _ _ Ht1)).
    destruct (decide (Some k = c_proc (cpu s))) as [Hme|Hme].
    { apply wp_ret. rewrite (upto_S_id f _ k p Hp); [by rewrite Ht1|].
      unfold f, wake_one. by rewrite decide_True. }
    assert (Hl1 : lock_free t1 (Lproc k)) by (rewrite Ht1, Ht; by apply Hfree).
    assert (Hs1 : sync_ok t1) by (by rewrite Ht1, Ht).
    apply wp_bind, wp_acquire; [done|]. apply wp_bind. eapply wp_getp; [done|].
    assert (Hf : f k p = if bool_decide (p_state p = SLEEPING) && (p_chan p =? chan) then with_state RUNNABLE p else p)
      by (unfold f, wake_one; by rewrite decide_False).
    apply wp_bind. unfold when.
    destruct (bool_decide (p_state p = SLEEPING) && (p_chan p =? chan)).
    + eapply wp_putp; [done|]. apply (wp_leave E (Lproc k)); [done|done|].
      intros t2 Ht2. change (procs (acq (Lproc k) t1)) with (procs t1) in Ht2.
      rewrite (keq_procs _ _ Ht1), (keq_procs _ _ Ht) in Ht2. cbn [set_procs dat d_procs] in Ht2.
      rewrite <- Hf, (upto_S f _ k p Hp) in Ht2. by rewrite Ht2, Ht1, Ht.
    + apply wp_ret. apply (wp_leave_same E (Lproc k)); [done|done|].
      intros t2 Ht2. rewrite (upto_S_id f _ k p Hp Hf). by rewrite Ht2, Ht1.
  - intros t Ht. apply HQ. by rewrite <- (upto_all f (procs s) NPROC) by lia.
Qed.

(** No lock of the table is held. *)
Definition table_free (s : KState) : Prop :=
  sync_ok s ∧ length (procs s) = NPROC ∧ ∀ j, (j < NPROC)%nat → lockable s j.

Lemma table_free_keq s t : s ≡k t → table_free s → table_free t.
Proof.
  intros Heq (H1 & H2 & H3). split_and!.
  - by rewrite <- Heq.
  - by rewrite <- (keq_procs _ _ Heq).
  - intros j Hj. unfold lockable. rewrite <- Heq. by apply H3.
Qed.

(** ** killed, setkilled, kkill *)

Lemma wp_killed E i p Q s :
  sync_ok s → lockable s i → procs s !! i = Some p → (∀ s', s' ≡k s → Q (p_killed p) s') → wp E (killed i) Q s.
Proof.
  intros Hs Hl Hp HQ. unfold killed. apply wp_bind, wp_acquire; [done|].
  apply wp_bind. eapply wp_getp; [done|]. apply wp_bind, wp_leave_same; [done|done|].
  intros s' Heq. by apply wp_ret, HQ.
Qed.

Lemma wp_setkilled E i p Q s :
  sync_ok s → lockable s i → procs s !! i = Some p →
  (∀ s', s' ≡k set_procs (<[i := with_killed 1 p]> (procs s)) s → Q tt s') → wp E (setkilled i) Q s.
Proof.
  intros Hs Hl Hp HQ. unfold setkilled. apply wp_bind, wp_acquire; [done|].
  apply wp_bind. eapply wp_putp; [done|]. by apply (wp_leave E (Lproc i)).
Qed.

Definition kill_one (p : Proc) : Proc :=
  let p' := with_killed 1 p in
  if bool_decide (p_state p = SLEEPING) then with_state RUNNABLE p' else p'.

(** The first slot with the given pid. *)
Definition first_pid (ps : list Proc) (pid : Z) (j : nat) (p : Proc) : Prop :=
  ps !! j = Some p ∧ p_pid p = pid ∧ ∀ i q, (i < j)%nat → ps !! i = Some q → p_pid q ≠ pid.

Lemma wp_kkill E pid Q s :
  table_free s →
  (∀ j p s', first_pid (procs s) pid j p → s' ≡k set_procs (<[j := kill_one p]> (procs s)) s → Q 0 s') →
  (∀ s', (∀ i q, procs s !! i = Some q → p_pid q ≠ pid) → s' ≡k s → Q (-1) s') →
  wp E (kkill pid) Q s.
Proof.
  intros (Hs & Hlen & Hfree) Hok Hno. unfold kkill. apply wp_bind.
  apply (wp_indices E _ (λ k s', s' ≡k s ∧ ∀ i q, (i < k)%nat → procs s !! i = Some q → p_pid q ≠ pid)).
  - split; [done|]. intros i q Hi. lia.
  - intros k t Hk [Ht Hpre]. destruct (lookup_lt_is_Some_2 (procs s) k) as [p Hp]; [lia|].
    assert (Hpt : procs t !! k = Some p) by (by rewrite (keq_procs _ _ Ht)).
    assert (Hl : lock_free t (Lproc k)) by (rewrite Ht; by apply Hfree).
    assert (Hst : sync_ok t) by (by rewrite Ht).
    apply wp_bind, wp_acquire; [done|]. apply wp_bind. eapply wp_getp; [done|].
    destruct (Z.eqb_spec (p_pid p) pid) as [Heq|Hne].
    + apply wp_bind. eapply wp_putp; [done|]. apply wp_bind.
      assert (Hfin : ∀ t', t' ≡k set_procs (<[k := kill_one p]> (procs t)) t →
        wp E (mret (Some 0)) (λ r s', match r with Some v => wp E (mret (default (-1) (Some v))) Q s' | None => False end) t').
      { intros t' Ht'. apply wp_ret, wp_ret. apply (Hok k p).
        - split_and!; [done|done|]. intros i q Hi. by apply Hpre.
        - rewrite (keq_procs _ _ Ht) in Ht'. by rewrite Ht', Ht. }
      unfold when, kill_one in *. destruct (bool_decide (p_state p = SLEEPING)).
      * eapply wp_putp.
        { cbn. rewrite list_lookup_insert_eq; [done|]. by eapply lookup_lt_Some. }
        apply wp_bind. cbn [procs set_procs dat d_procs]. rewrite set_procs_twice, list_insert_insert_eq.
        apply (wp_leave E (Lproc k)); [done|done|]. intros t' Ht'. eapply wp_mono; [by apply Hfin|].
        by intros [v|] ? ?.
      * apply wp_ret, wp_bind. apply (wp_leave E (Lproc k)); [done|done|].
        intros t' Ht'. eapply wp_mono; [by apply Hfin|]. by intros [v|] ? ?.
    + apply wp_bind, wp_leave_same; [done|done|]. intros t' Ht'. apply wp_ret. split; [by rewrite Ht'|].
      intros i q Hi Hq. destruct (decide (i = k)) as [->|]; [congruence|]. apply (Hpre i q); [lia|done].
  - intros t [Ht Hpre]. apply wp_ret, Hno; [|done]. intros i q Hq.
    apply (Hpre i q); [|done]. apply lookup_lt_Some in Hq. lia.
Qed.

(** [wakeup] makes runnable exactly the other processes that sleep on the
    channel, and changes nothing else: no lock stays held, no other process
    and no other state is touched. *)
Theorem wakeup_exact (chan : Z) (s : KState) (Hs : sync_ok s) (Hlen : length (procs s) = NPROC)
  (Hfree : ∀ j, (j < NPROC)%nat → Some j ≠ c_proc (cpu s) → lockable s j) :
  ∃ s', wakeup chan s = Ret tt s' ∧
    s' ≡k set_procs (imap (λ j p, if decide (Some j ≠ c_proc (cpu s) ∧ p_state p = SLEEPING ∧ p_chan p = chan)
                                   then with_state RUNNABLE p else p) (procs s)) s.
Proof.
  assert (Hwp : wp Atomic (wakeup chan)
    (λ _ s', s' ≡k set_procs (imap (wake_one (c_proc (cpu s)) chan) (procs s)) s) s) by (by apply wp_wakeup).
  apply wp_atomic in Hwp as ([] & s' & Hrun & Heq). exists s'. split; [done|].
  rewrite Heq. set (f := λ (j : nat) (p : Proc), if decide (_ ∧ _) then _ else _).
  enough (Hext : imap (wake_one (c_proc (cpu s)) chan) (procs s) = imap f (procs s)) by (by rewrite Hext).
  apply imap_ext. intros j p _. unfold f, wake_one.
  destruct (decide (Some j = c_proc (cpu s))) as [Hj|Hj].
  { by rewrite decide_False by tauto. }
  destruct (bool_decide_reflect (p_state p = SLEEPING)) as [Hsl|Hsl]; cbn [andb].
  - destruct (Z.eqb_spec (p_chan p) chan); [by rewrite decide_True|by rewrite decide_False by tauto].
  - by rewrite decide_False by tauto.
Qed.

(** [kkill] marks the first process with the pid as killed, makes it
    runnable if it was asleep, and returns 0; it returns -1 and changes
    nothing exactly when no slot has the pid. *)
Theorem kkill_exact (pid : Z) (s : KState) (Hf : table_free s) :
  ∃ r s', kkill pid s = Ret r s' ∧
    ((r = 0 ∧ ∃ j p, first_pid (procs s) pid j p ∧ s' ≡k set_procs (<[j := kill_one p]> (procs s)) s) ∨
     (r = -1 ∧ (∀ i q, procs s !! i = Some q → p_pid q ≠ pid) ∧ s' ≡k s)).
Proof.
  assert (Hwp : wp Atomic (kkill pid) (λ r s',
     (r = 0 ∧ ∃ j p, first_pid (procs s) pid j p ∧ s' ≡k set_procs (<[j := kill_one p]> (procs s)) s) ∨
     (r = -1 ∧ (∀ i q, procs s !! i = Some q → p_pid q ≠ pid) ∧ s' ≡k s)) s).
  { apply wp_kkill; [done|..].
    - intros j p s' Hp Heq. left. eauto.
    - intros s' Hno Heq. by right. }
  apply wp_atomic in Hwp as (r & s' & Hrun & Hc). eauto.
Qed.
End Spec.

(** ** A concrete table *)

Definition lock_free_b (s : KState) (l : lockid) : bool :=
  match locks s !! l with
  | Some lk => (locked lk =? 0) && bool_decide (lk_cpu lk = None)
  | None => false
  end.

Lemma lock_free_b_spec s l : lock_free_b s l = true → lock_free s l.
Proof.
  unfold lock_free_b, lock_free. destruct (locks s !! l) as [[k nm c]|]; [|done]. cbn.
  intros [Hk Hc]%andb_true_iff. apply Z.eqb_eq in Hk as ->. apply bool_decide_eq_true in Hc as ->. eauto.
Qed.

Definition table_free_b (s : KState) : bool :=
  (noff (cpu s) =? 0) && (length (procs s) =? NPROC)%nat && forallb (λ j, lock_free_b s (Lproc j)) indices.

Lemma table_free_b_spec s : table_free_b s = true → table_free s.
Proof.
  unfold table_free_b. intros [[Hn Hl]%andb_true_iff Hf]%andb_true_iff. split_and!.
  - apply Z.eqb_eq in Hn. split; lia.
  - by apply Nat.eqb_eq.
  - intros j Hj. apply lock_free_b_spec. rewrite forallb_forall in Hf. apply Hf.
    apply in_seq. lia.
Qed.

(** After [procinit]: process 1 runs with pid 4, process 3 sleeps on channel
    77 with pid 9, process 5 is runnable with pid 2. *)
Definition procs_sample : KState :=
  match procinit bss with
  | Ret _ s =>
      set_cpu (mkCpu (Some 1%nat) 0 false)
        (set_procs (<[1%nat := with_pid 4 (with_state RUNNING proc0)]>
           (<[3%nat := with_chan 77 (with_pid 9 (with_state SLEEPING proc0))]>
           (<[5%nat := with_pid 2 (with_state RUNNABLE proc0)]> (procs s)))) s)
  | _ => bss
  end.

Lemma procs_sample_free : table_free procs_sample.
Proof. apply table_free_b_spec. vm_compute. reflexivity. Qed.

Lemma wakeup_exact_witness :
  ∃ s', wakeup 77 procs_sample = Ret tt s' ∧
    p_state <$> procs s' !! 3%nat = Some RUNNABLE ∧ p_state <$> procs s' !! 1%nat = Some RUNNING.
Proof.
  destruct (wakeup_exact 77 procs_sample) as (s' & Hrun & Heq).
  - apply procs_sample_free.
  - apply procs_sample_free.
  - intros j Hj _. by apply procs_sample_free.
  - exists s'. split; [exact Hrun|]. rewrite (keq_procs _ _ Heq). vm_compute. split; reflexivity.
Defined.

Lemma kkill_exact_witness :
  ∃ r s', kkill 9 procs_sample = Ret r s' ∧
    ((r = 0 ∧ ∃ j p, first_pid (procs procs_sample) 9 j p ∧
        s' ≡k set_procs (<[j := kill_one p]> (procs procs_sample)) procs_sample) ∨
     (r = -1 ∧ (∀ i q, procs procs_sample !! i = Some q → p_pid q ≠ 9) ∧ s' ≡k procs_sample)).
Proof. apply (kkill_exact 9 procs_sample), procs_sample_free. Defined.
