(* ===== verification/Pipe.v ===== *)
(** * pipe.c and the reference counts of file.c

    A pipe is a structure in a page of its own: 512 bytes of data used as a
    ring, the two free-running 32-bit counters and the two open flags.  The
    file system below [iput], [begin_op] and [end_op] is an interface. *)

From S2P Require Import Prelude CString Kernel KLogic Spinlock KMem Kalloc Vm Proc.
Open Scope Z_scope.
Open Scope os_scope.

(** The operations of log.c and fs.c that the process code needs. *)
Class FileLayer := {
  begin_op : M unit;
  end_op : M unit;
  iput : nat → M unit;
  namei : string → M (option nat)
}.

Definition PIPESIZE : Z := 512.
(** Offsets of [struct pipe], after the 24 bytes of its lock. *)
Definition PI_data : Z := 24.
Definition PI_nread : Z := 536.
Definition PI_nwrite : Z := 540.
Definition PI_readopen : Z := 544.
Definition PI_writeopen : Z := 548.

Definition load32 (a : Z) : M Z := gets (λ s, read_le (ram s) a 4).
Definition store32 (a v : Z) : M unit := modify (λ s, set_ram (write_le (ram s) a v 4) s).
Definition load8 (a : Z) : M Z := gets (λ s, rd (ram s) a).
Definition store8 (a v : Z) : M unit := modify (λ s, set_ram (wr (ram s) a v) s).

Section Pipe.
Context `{KernelImage} `{FileLayer}.

(** ** file.c *)

Definition with_ref (n : Z) (f : File) : File :=
  mkFile (f_type f) n (f_readable f) (f_writable f) (f_pipe f) (f_ip f) (f_off f) (f_major f).
Definition with_type (t : filetype) (f : File) : File :=
  mkFile t (f_ref f) (f_readable f) (f_writable f) (f_pipe f) (f_ip f) (f_off f) (f_major f).

Definition fileinit : M unit := initlock Lftable "ftable".

Definition filealloc : M (option nat) :=
  acquire Lftable;;
  r ← for_each (λ k : nat,
    f ← getf k;
    if f_ref f =? 0 then putf k (with_ref 1 f);; release Lftable;; mret (Some k)
    else mret None) (seq 0 NFILE);
  match r with
  | Some k => mret (Some k)
  | None => release Lftable;; mret None
  end.

Definition filedup (k : nat) : M nat :=
  acquire Lftable;;
  f ← getf k;
  if f_ref f <? 1 then panic "filedup" else
  n ← iadd (f_ref f) 1;
  putf k (with_ref n f);;
  release Lftable;;
  mret k.

(** ** pipe.c *)

Definition pipeclose (pi : Z) (writable : bool) : M unit :=
  acquire (Lpipe pi);;
  (if writable
   then store32 (pi + PI_writeopen) 0;; wakeup (pi + PI_nread)
   else store32 (pi + PI_readopen) 0;; wakeup (pi + PI_nwrite));;
  ro ← load32 (pi + PI_readopen);
  wo ← load32 (pi + PI_writeopen);
  if (ro =? 0) && (wo =? 0) then release (Lpipe pi);; kfree pi
  else release (Lpipe pi).

Definition fileclose (k : nat) : M unit :=
  acquire Lftable;;
  f ← getf k;
  if f_ref f <? 1 then panic "fileclose" else
  let n := f_ref f - 1 in
  putf k (with_ref n f);;
  if 0 <? n then release Lftable else
  ff ← getf k;
  putf k (with_type FD_NONE (with_ref 0 ff));;
  release Lftable;;
  match f_type ff with
  | FD_PIPE => pipeclose (f_pipe ff) (f_writable ff)
  | FD_INODE | FD_DEVICE => begin_op;; ip ← need (f_ip ff); iput ip;; end_op
  | FD_NONE => mret tt
  end.

Definition file_pipe_end (k : nat) (r w : bool) (pi : Z) : M unit :=
  f ← getf k;
  putf k (mkFile FD_PIPE (f_ref f) r w pi (f_ip f) (f_off f) (f_major f)).

(** The clean-up after the label [bad]. *)
Definition pipealloc_bad (pi : Z) (f0 f1 : option nat) : M (option (nat * nat)) :=
  when (negb (pi =? 0)) (kfree pi);;
  match f0 with Some k => fileclose k | None => mret tt end;;
  match f1 with Some k => fileclose k | None => mret tt end;;
  mret None.

(** [None] is the return value -1. *)
Definition pipealloc : M (option (nat * nat)) :=
  f0 ← filealloc;
  match f0 with
  | None => pipealloc_bad 0 None None
  | Some k0 =>
      f1 ← filealloc;
      match f1 with
      | None => pipealloc_bad 0 f0 None
      | Some k1 =>
          pi ← kalloc;
          if pi =? 0 then pipealloc_bad 0 f0 f1 else
          store32 (pi + PI_readopen) 1;;
          store32 (pi + PI_writeopen) 1;;
          store32 (pi + PI_nwrite) 0;;
          store32 (pi + PI_nread) 0;;
          initlock (Lpipe pi) "pipe";;
          file_pipe_end k0 true false pi;;
          file_pipe_end k1 false true pi;;
          mret (Some (k0, k1))
      end
  end.

(** The write loop; [fuel] bounds its rounds, each of which writes a byte or
    sleeps.  The result is [inl i] when the loop ends and [inr r] for a return. *)
Fixpoint pipewrite_loop (fuel : nat) (pr : nat) (pi addr n i : Z) : M (Z + Z) :=
  if i <? n then
    match fuel with
    | O => halt NoFuel
    | S fuel' =>
        ro ← load32 (pi + PI_readopen);
        dead ← (if ro =? 0 then mret true else k ← killed pr; mret (negb (k =? 0)));
        if (dead : bool) then release (Lpipe pi);; mret (inr (-1)) else
        nw ← load32 (pi + PI_nwrite);
        nr ← load32 (pi + PI_nread);
        if nw =? u32 (nr + PIPESIZE) then
          wakeup (pi + PI_nread);;
          sleep (pi + PI_nwrite) (Lpipe pi);;
          pipewrite_loop fuel' pr pi addr n i
        else
          p ← getp pr;
          r ← copyin (p_pagetable p) (u64 (addr + i)) 1;
          if r.1 =? -1 then mret (inl i) else
          ch ← need (r.2 !! 0%nat);
          store32 (pi + PI_nwrite) (u32 (nw + 1));;
          store8 (pi + PI_data + nw mod PIPESIZE) ch;;
          pipewrite_loop fuel' pr pi addr n (i + 1)
    end
  else mret (inl i).

Definition pipewrite (fuel : nat) (pi addr n : Z) : M Z :=
  pr ← curproc;
  acquire (Lpipe pi);;
  o ← pipewrite_loop fuel pr pi addr n 0;
  match o with
  | inr r => mret r
  | inl i => wakeup (pi + PI_nread);; release (Lpipe pi);; mret i
  end.

(** Waiting for data; [false] is the return of a killed process. *)
Fixpoint piperead_wait (fuel : nat) (pr : nat) (pi : Z) : M bool :=
  nr ← load32 (pi + PI_nread);
  nw ← load32 (pi + PI_nwrite);
  wo ← load32 (pi + PI_writeopen);
  if (nr =? nw) && negb (wo =? 0) then
    match fuel with
    | O => halt NoFuel
    | S fuel' =>
        k ← killed pr;
        if negb (k =? 0) then release (Lpipe pi);; mret false else
        sleep (pi + PI_nread) (Lpipe pi);;
        piperead_wait fuel' pr pi
    end
  else mret true.

(** The copy loop, [left] rounds from [i]. *)
Fixpoint piperead_copy (left : nat) (pr : nat) (pi addr i : Z) : M Z :=
  match left with
  | O => mret i
  | S left' =>
      nr ← load32 (pi + PI_nread);
      nw ← load32 (pi + PI_nwrite);
      if nr =? nw then mret i else
      ch ← load8 (pi + PI_data + nr mod PIPESIZE);
      p ← getp pr;
      r ← copyout (p_pagetable p) (u64 (addr + i)) [ch];
      if r =? -1 then mret (if i =? 0 then -1 else i) else
      store32 (pi + PI_nread) (u32 (nr + 1));;
      piperead_copy left' pr pi addr (i + 1)
  end.

Definition piperead (fuel : nat) (pi addr n : Z) : M Z :=
  pr ← curproc;
  acquire (Lpipe pi);;
  ok ← piperead_wait fuel pr pi;
  if negb ok then mret (-1) else
  i ← piperead_copy (Z.to_nat n) pr pi addr 0;
  wakeup (pi + PI_nwrite);;
  release (Lpipe pi);;
  mret i.
End Pipe.
