(* ===== verification/Fork.v ===== *)
(** * proc.c: creation, termination and waiting

    [kfork], [clone], [kexit], [kwait], [kwaitpid], [psinfo] and
    [alarm_return].  The waiting loops take a fuel that bounds the number of
    times they go to sleep. *)

From S2P Require Import Prelude CString Kernel KLogic Spinlock KMem Kalloc Vm Proc Pipe.
Open Scope Z_scope.
Open Scope os_scope.

(** [idup] of fs.c. *)
Definition idup (k : nat) : M nat :=
  acquire Litable;;
  ip ← (o ← gets (λ s, itable s !! k); need o);
  n ← iadd (i_ref ip) 1;
  modify (λ s, set_itable (<[k := with_iref n ip]> (itable s)) s);;
  release Litable;;
  mret k.

Section Fork.
Context `{KernelImage} `{FileLayer}.

Definition userinit : M unit :=
  o ← allocproc;
  modify (set_initproc o);;
  i ← need o;
  ip ← namei "/";
  putp i (with_cwd ip);;
  putp i (with_state RUNNABLE);;
  release (Lproc i).

(** [for(i = 0; i < NOFILE; i++) if(p->ofile[i]) np->ofile[i] = filedup(p->ofile[i]);] *)
Definition dup_files (i np : nat) : M unit :=
  r ← for_each (R := unit) (λ fd : nat,
    p ← getp i;
    o ← need (p_ofile p !! fd);
    match o with
    | Some f => f' ← filedup f; putp np (λ q, with_ofile (<[fd := Some f']> (p_ofile q)) q)
    | None => mret tt
    end;;
    mret None) (seq 0 NOFILE);
  mret tt.

(** The end of [kfork] and [clone]: files, name, parent and state. *)
Definition finish_child (i np : nat) : M Z :=
  dup_files i np;;
  p ← getp i;
  c ← need (p_cwd p);
  c' ← idup c;
  putp np (with_cwd (Some c'));;
  putp np (λ q, with_name (arr_safestrcpy (p_name q) (p_name p) 16) q);;
  q ← getp np;
  let pid := p_pid q in
  release (Lproc np);;
  acquire Lwait;;
  putp np (with_parent (Some i));;
  release Lwait;;
  acquire (Lproc np);;
  putp np (with_state RUNNABLE);;
  release (Lproc np);;
  mret pid.

(** [*(np->trapframe) = *(p->trapframe);] *)
Definition copy_trapframe (dst src : Z) : M unit :=
  modify (λ s, set_ram (memmove (ram s) dst src TF_SIZE) s).

Definition kfork : M Z :=
  i ← curproc;
  o ← allocproc;
  match o with
  | None => mret (-1)
  | Some np =>
      p ← getp i;
      q ← getp np;
      r ← uvmcopy (p_pagetable p) (p_pagetable q) (p_sz p);
      if r <? 0 then freeproc np;; release (Lproc np);; mret (-1) else
      putp np (with_sz (p_sz p));;
      copy_trapframe (p_trapframe q) (p_trapframe p);;
      store64 (p_trapframe q + TF_a0) 0;;
      finish_child i np
  end.

Definition clone (fcn arg stack : Z) : M Z :=
  i ← curproc;
  o ← allocproc;
  match o with
  | None => mret (-1)
  | Some np =>
      p ← getp i;
      q ← getp np;
      r ← uvmmirror (p_pagetable p) (p_pagetable q) (p_sz p);
      if r <? 0 then freeproc np;; release (Lproc np);; mret (-1) else
      putp np (with_sz (p_sz p));;
      putp np (with_is_thread 1);;
      copy_trapframe (p_trapframe q) (p_trapframe p);;
      store64 (p_trapframe q + TF_a0) arg;;
      store64 (p_trapframe q + TF_epc) fcn;;
      store64 (p_trapframe q + TF_sp) stack;;
      finish_child i np
  end.

(** [wakeup] of a process that waits on its own address; 0 is the null
    pointer. *)
Definition chan_of (o : option nat) : Z := match o with Some i => proc_addr i | None => 0 end.

Definition reparent (i : nat) : M unit :=
  for_procs (λ j,
    pp ← getp j;
    when (bool_decide (p_parent pp = Some i))
      (ip ← gets (λ s, initproc s);
       putp j (with_parent ip);;
       wakeup (chan_of ip))).

Definition kexit {A} (status : Z) : M A :=
  i ← curproc;
  ip ← gets (λ s, initproc s);
  if decide (Some i = ip) then panic "init exiting" else
  for_each (R := unit) (λ fd : nat,
    p ← getp i;
    o ← need (p_ofile p !! fd);
    match o with
    | Some f => fileclose f;; putp i (λ q, with_ofile (<[fd := None]> (p_ofile q)) q)
    | None => mret tt
    end;;
    mret None) (seq 0 NOFILE);;
  begin_op;;
  p ← getp i;
  c ← need (p_cwd p);
  iput c;;
  end_op;;
  putp i (with_cwd None);;
  acquire Lwait;;
  reparent i;;
  p ← getp i;
  wakeup (chan_of (p_parent p));;
  acquire (Lproc i);;
  putp i (with_xstate status);;
  putp i (with_state ZOMBIE);;
  release Lwait;;
  sched;;
  panic "zombie exit".

(** Reaping the zombie [j], whose lock is held: the return value. *)
Definition reap (i j : nat) (addr : Z) : M Z :=
  pp ← getp j;
  let pid := p_pid pp in
  p ← getp i;
  r ← (if addr =? 0 then mret 0 else copyout (p_pagetable p) addr (le_bytes 4 (p_xstate pp)));
  if r <? 0 then release (Lproc j);; release Lwait;; mret (-1) else
  freeproc j;;
  release (Lproc j);;
  release Lwait;;
  mret pid.

(** The scan of [kwait]: a return value, or whether there are children. *)
Fixpoint kwait_scan (i : nat) (addr : Z) (l : list nat) (havekids : bool) : M (Z + bool) :=
  match l with
  | [] => mret (inr havekids)
  | j :: l' =>
      pp ← getp j;
      if decide (p_parent pp = Some i) then
        acquire (Lproc j);;
        pp ← getp j;
        if decide (p_state pp = ZOMBIE) then r ← reap i j addr; mret (inl r) else
        release (Lproc j);;
        kwait_scan i addr l' true
      else kwait_scan i addr l' havekids
  end.

(** [!havekids || killed(p)] *)
Definition wait_gives_up (i : nat) (havekids : bool) : M bool :=
  if negb havekids then mret true else k ← killed i; mret (negb (k =? 0)).

Fixpoint kwait_loop (fuel : nat) (i : nat) (addr : Z) : M Z :=
  o ← kwait_scan i addr indices false;
  match o with
  | inl r => mret r
  | inr havekids =>
      b ← wait_gives_up i havekids;
      if (b : bool) then release Lwait;; mret (-1) else
      match fuel with
      | O => halt NoFuel
      | S fuel' => sleep (proc_addr i) Lwait;; kwait_loop fuel' i addr
      end
  end.

Definition kwait (fuel : nat) (addr : Z) : M Z :=
  i ← curproc;
  acquire Lwait;;
  kwait_loop fuel i addr.

(** The scan of [kwaitpid]: children other than the target are passed over. *)
Fixpoint kwaitpid_scan (i : nat) (target_pid status_addr : Z) (l : list nat) (havekids : bool)
    : M (Z + bool) :=
  match l with
  | [] => mret (inr havekids)
  | j :: l' =>
      np ← getp j;
      if decide (p_parent np = Some i) then
        if (0 <? target_pid) && negb (p_pid np =? target_pid)
        then kwaitpid_scan i target_pid status_addr l' havekids else
        acquire (Lproc j);;
        np ← getp j;
        if decide (p_state np = ZOMBIE) then r ← reap i j status_addr; mret (inl r) else
        release (Lproc j);;
        kwaitpid_scan i target_pid status_addr l' true
      else kwaitpid_scan i target_pid status_addr l' havekids
  end.

Fixpoint kwaitpid_loop (fuel : nat) (i : nat) (target_pid status_addr options : Z) : M Z :=
  o ← kwaitpid_scan i target_pid status_addr indices false;
  match o with
  | inl r => mret r
  | inr havekids =>
      b ← wait_gives_up i havekids;
      if (b : bool) then release Lwait;; mret (-1) else
      if options =? 1 then release Lwait;; mret 0 else
      match fuel with
      | O => halt NoFuel
      | S fuel' => sleep (proc_addr i) Lwait;; kwaitpid_loop fuel' i target_pid status_addr options
      end
  end.

Definition kwaitpid (fuel : nat) (target_pid status_addr options : Z) : M Z :=
  i ← curproc;
  acquire Lwait;;
  kwaitpid_loop fuel i target_pid status_addr options.

(** ** psinfo *)

Definition chars (st : string) : list Z :=
  (λ c, Z.of_nat (Ascii.nat_of_ascii c)) <$> String.list_ascii_of_string st.

Definition state_label (st : procstate) : string :=
  match st with
  | UNUSED => "UNUSED" | USED => "USED" | SLEEPING => "SLEEPING" | RUNNABLE => "RUNNABLE"
  | RUNNING => "RUNNING" | ZOMBIE => "ZOMBIE"
  end.

(** [struct procinfo] on the kernel stack, with its two bytes of padding. *)
Record Procinfo := mkInfo { pi_pid : Z; pi_name : list Z; pi_state : list Z; pi_pad : list Z }.

Definition info_bytes (x : Procinfo) : list Z :=
  le_bytes 4 (pi_pid x) ++ pi_name x ++ pi_state x ++ pi_pad x.

Definition fill_info (p : Proc) (x : Procinfo) : Procinfo :=
  mkInfo (p_pid p) (arr_safestrcpy (pi_name x) (p_name p) 16)
    (arr_safestrcpy (pi_state x) (chars (state_label (p_state p)) ++ [0]) 10) (pi_pad x).

Fixpoint psinfo_loop (caller : nat) (pinfo max : Z) (l : list nat) (info : Procinfo) (count : Z) : M Z :=
  match l with
  | [] => release Lwait;; mret count
  | j :: l' =>
      acquire (Lproc j);;
      p ← getp j;
      if decide (p_state p = UNUSED) then
        release (Lproc j);; psinfo_loop caller pinfo max l' info count else
      if max <=? count then release (Lproc j);; release Lwait;; mret count else
      let info' := fill_info p info in
      release (Lproc j);;
      c ← getp caller;
      r ← copyout (p_pagetable c) (u64 (pinfo + 32 * count)) (info_bytes info');
      if r <? 0 then release Lwait;; mret (-1) else
      psinfo_loop caller pinfo max l' info' (count + 1)
  end.

(** [info0] is what the stack held before. *)
Definition psinfo (info0 : Procinfo) (pinfo max : Z) : M Z :=
  caller ← curproc;
  acquire Lwait;;
  psinfo_loop caller pinfo max indices info0 0.

Definition alarm_return : M Z :=
  i ← curproc;
  p ← getp i;
  (if p_alarm_trapframe p =? 0 then halt Undef
   else modify (λ s, set_ram (memmove (ram s) (p_trapframe p) (p_alarm_trapframe p) TF_SIZE) s));;
  kfree (p_alarm_trapframe p);;
  putp i (with_alarm_trapframe 0);;
  putp i (with_alarm_active 0);;
  putp i (with_alarm_ticks 0);;
  mret 0.
End Fork.
