(* ===== verification/Sysproc.v ===== *)
(** * System calls: arguments (syscall.c) and handlers (sysproc.c)

    A handler returns the value that [syscall] stores in register a0. *)

From S2P Require Import Prelude CString Kernel KLogic Spinlock KMem Kalloc Vm Proc Pipe Fork.
Open Scope Z_scope.
Open Scope os_scope.

(** [strlen] of a byte array. *)
Definition arr_strlen (bs : list Z) : M Z := need (strlen (put_bytes ∅ 0 bs) 0).

Section Sysproc.
Context `{KernelImage} `{FileLayer}.

(** ** syscall.c: fetching arguments *)

(** [None] is the return value -1. *)
Definition fetchaddr (addr : Z) : M (option Z) :=
  i ← curproc;
  p ← getp i;
  if (p_sz p <=? addr) || (p_sz p <? u64 (addr + 8)) then mret None else
  r ← copyin (p_pagetable p) addr 8;
  if negb (r.1 =? 0) then mret None else mret (Some (le_val r.2)).

(** The return value and the contents of the buffer. *)
Definition fetchstr (addr : Z) (max : nat) : M (Z * list Z) :=
  i ← curproc;
  p ← getp i;
  r ← copyinstr (p_pagetable p) addr max;
  if r.1 <? 0 then mret (-1, r.2) else
  n ← arr_strlen r.2;
  mret (n, r.2).

Definition argraw (n : Z) : M Z :=
  i ← curproc;
  p ← getp i;
  if (0 <=? n) && (n <=? 5) then load64 (p_trapframe p + TF_a0 + 8 * n) else panic "argraw".

Definition argint (n : Z) : M Z := v ← argraw n; mret (s32 v).
Definition argaddr (n : Z) : M Z := argraw n.
Definition argstr (n : Z) (max : nat) : M (Z * list Z) := addr ← argaddr n; fetchstr addr max.

(** ** sysproc.c *)

Definition sys_psinfo (info0 : Procinfo) : M Z :=
  addr ← argaddr 0;
  max ← argint 1;
  psinfo info0 addr max.

Definition sys_exit : M Z := n ← argint 0; kexit n.

Definition sys_getpid : M Z := i ← curproc; p ← getp i; mret (p_pid p).

Definition sys_fork : M Z := kfork.

Definition sys_wait (fuel : nat) : M Z := p ← argaddr 0; kwait fuel p.

Definition SBRK_EAGER : Z := 1.

Definition sys_sbrk : M Z :=
  n ← argint 0;
  t ← argint 1;
  i ← curproc;
  p ← getp i;
  let addr := p_sz p in
  if (t =? SBRK_EAGER) || (n <? 0) then
    r ← growproc n;
    if r <? 0 then mret (-1) else mret addr
  else
    if u64 (addr + n) <? addr then mret (-1) else
    if TRAPFRAME <? u64 (addr + n) then mret (-1) else
    j ← curproc;
    putp j (λ q, with_sz (u64 (p_sz q + n)) q);;
    mret addr.

(** [while(ticks - ticks0 < n)], in unsigned 32-bit arithmetic. *)
Fixpoint pause_loop (fuel : nat) (ticks0 n : Z) : M Z :=
  t ← gets (λ s, ticks s);
  if u32 (t - ticks0) <? n then
    match fuel with
    | O => halt NoFuel
    | S fuel' =>
        i ← curproc;
        k ← killed i;
        if negb (k =? 0) then release Lticks;; mret (-1) else
        sleep ticks_addr Lticks;;
        pause_loop fuel' ticks0 n
    end
  else release Lticks;; mret 0.

Definition sys_pause (fuel : nat) : M Z :=
  n ← argint 0;
  let n := if n <? 0 then 0 else n in
  acquire Lticks;;
  ticks0 ← gets (λ s, ticks s);
  pause_loop fuel ticks0 n.

Definition sys_kill : M Z := pid ← argint 0; kkill pid.

Definition sys_uptime : M Z :=
  acquire Lticks;;
  xticks ← gets (λ s, ticks s);
  release Lticks;;
  mret xticks.

Definition sys_waitpid (fuel : nat) : M Z :=
  pid ← argint 0;
  status ← argaddr 1;
  options ← argint 2;
  kwaitpid fuel pid status options.

Definition sys_sendmsg : M Z :=
  user_ptr ← argaddr 0;
  r ← fetchstr user_ptr 128;
  if r.1 <? 0 then mret (-1) else
  init ← gets (λ s, mailbox_init s);
  when (init =? 0) (initlock Lmailbox "mailbox";; modify (set_mailbox_init 1));;
  acquire Lmailbox;;
  modify (λ s, set_mailbox (mkMailbox (arr_safestrcpy (msg (mailbox s)) r.2 128) 1) s);;
  release Lmailbox;;
  mret 0.

Definition sys_recvmsg : M Z :=
  user_ptr ← argaddr 0;
  init ← gets (λ s, mailbox_init s);
  if init =? 0 then mret (-1) else
  acquire Lmailbox;;
  mb ← gets (λ s, mailbox s);
  if has_message mb =? 0 then release Lmailbox;; mret (-1) else
  i ← curproc;
  p ← getp i;
  n ← arr_strlen (msg mb);
  r ← copyout (p_pagetable p) user_ptr (take (Z.to_nat (n + 1)) (msg mb));
  if r <? 0 then release Lmailbox;; mret (-1) else
  modify (λ s, set_mailbox (mkMailbox (msg (mailbox s)) 0) s);;
  release Lmailbox;;
  mret 0.

Definition sys_clone : M Z :=
  fcn ← argaddr 0;
  arg ← argaddr 1;
  stack_ptr ← argaddr 2;
  clone fcn arg stack_ptr.

Fixpoint sem_wait_loop (fuel : nat) (i : nat) (semaddr : Z) : M Z :=
  p ← getp i;
  r ← copyin (p_pagetable p) semaddr 4;
  if r.1 <? 0 then release Lsem;; mret (-1) else
  let semval := s32 (le_val r.2) in
  if 0 <? semval then
    p ← getp i;
    w ← copyout (p_pagetable p) semaddr (le_bytes 4 (semval - 1));
    if w <? 0 then release Lsem;; mret (-1) else
    release Lsem;; mret 0
  else
    k ← killed i;
    if negb (k =? 0) then release Lsem;; mret (-1) else
    match fuel with
    | O => halt NoFuel
    | S fuel' => sleep semaddr Lsem;; sem_wait_loop fuel' i semaddr
    end.

Definition sys_sem_wait (fuel : nat) : M Z :=
  i ← curproc;
  semaddr ← argaddr 0;
  acquire Lsem;;
  sem_wait_loop fuel i semaddr.

Definition sys_sem_post : M Z :=
  i ← curproc;
  semaddr ← argaddr 0;
  acquire Lsem;;
  p ← getp i;
  r ← copyin (p_pagetable p) semaddr 4;
  if r.1 <? 0 then release Lsem;; mret (-1) else
  semval ← iadd (s32 (le_val r.2)) 1;
  p ← getp i;
  w ← copyout (p_pagetable p) semaddr (le_bytes 4 semval);
  if w <? 0 then release Lsem;; mret (-1) else
  wakeup semaddr;;
  release Lsem;;
  mret 0.

Definition sys_alarm : M Z :=
  interval ← argint 0;
  handler ← argaddr 1;
  i ← curproc;
  putp i (with_alarm_interval interval);;
  putp i (with_alarm_handler handler);;
  putp i (with_alarm_ticks 0);;
  putp i (with_alarm_active 0);;
  mret 0.

Definition sys_alarm_return : M Z := alarm_return.
End Sysproc.
