(* ===== verification/Trap.v ===== *)
(** * syscall.c dispatch and trap.c

    The supervisor registers are the [Csr] record of the state.  The file
    system calls, the interrupt controller and the devices are interfaces. *)

From S2P Require Import Prelude CString Printf Kernel KLogic Spinlock KMem Kalloc Vm Proc Pipe Fork Sysproc.
Open Scope Z_scope.
Open Scope os_scope.

(** The handlers of sysfile.c. *)
Class SysFile := {
  sys_pipe : M Z; sys_read : M Z; sys_exec : M Z; sys_fstat : M Z; sys_chdir : M Z; sys_dup : M Z;
  sys_open : M Z; sys_write : M Z; sys_mknod : M Z; sys_unlink : M Z; sys_link : M Z;
  sys_mkdir : M Z; sys_close : M Z
}.

(** plic.c, the device interrupt handlers, and the clock. *)
Class Devices := {
  plic_claim : M Z;
  plic_complete : Z → M unit;
  uartintr : M unit;
  virtio_disk_intr : M unit;
  r_time : M Z
}.

(** [fsinit] and [kexec("/init", ...)], run by the first process. *)
Class BootFs := { fsinit : Z → M unit; kexec_init : M Z }.

Definition SYS_fork : Z := 1.
Definition SYS_exit : Z := 2.
Definition SYS_wait : Z := 3.
Definition SYS_pipe : Z := 4.
Definition SYS_read : Z := 5.
Definition SYS_kill : Z := 6.
Definition SYS_exec : Z := 7.
Definition SYS_fstat : Z := 8.
Definition SYS_chdir : Z := 9.
Definition SYS_dup : Z := 10.
Definition SYS_getpid : Z := 11.
Definition SYS_sbrk : Z := 12.
Definition SYS_pause : Z := 13.
Definition SYS_uptime : Z := 14.
Definition SYS_open : Z := 15.
Definition SYS_write : Z := 16.
Definition SYS_mknod : Z := 17.
Definition SYS_unlink : Z := 18.
Definition SYS_link : Z := 19.
Definition SYS_mkdir : Z := 20.
Definition SYS_close : Z := 21.
Definition SYS_waitpid : Z := 22.
Definition SYS_sendmsg : Z := 23.
Definition SYS_clone : Z := 24.
Definition SYS_sem_wait : Z := 25.
Definition SYS_alarm : Z := 26.
Definition SYS_psinfo : Z := 27.
Definition SYS_alarm_return : Z := 28.
Definition SYS_sem_post : Z := 29.
Definition SYS_recvmsg : Z := 30.

(** The bytes of a character array up to its NUL. *)
Fixpoint c_string (l : list Z) : list Z :=
  match l with [] => [] | c :: l' => if c =? 0 then [] else c :: c_string l' end.

Section Trap.
Context `{KernelImage} `{FileLayer} `{SysFile} `{Devices} `{BootFs}.
(** The sleeps a blocking call may take, and the stack bytes under [psinfo]'s
    local structure. *)
Context (fuel : nat) (info0 : Procinfo).

(** The initialisers of [syscalls[]], in the order of the source. *)
Definition syscall_inits : list (Z * M Z) :=
  [ (SYS_fork, sys_fork); (SYS_exit, sys_exit); (SYS_wait, sys_wait fuel); (SYS_pipe, sys_pipe);
    (SYS_read, sys_read); (SYS_kill, sys_kill); (SYS_exec, sys_exec); (SYS_fstat, sys_fstat);
    (SYS_chdir, sys_chdir); (SYS_dup, sys_dup); (SYS_getpid, sys_getpid); (SYS_sbrk, sys_sbrk);
    (SYS_pause, sys_pause fuel); (SYS_uptime, sys_uptime); (SYS_open, sys_open);
    (SYS_write, sys_write); (SYS_mknod, sys_mknod); (SYS_unlink, sys_unlink); (SYS_link, sys_link);
    (SYS_mkdir, sys_mkdir); (SYS_close, sys_close); (SYS_waitpid, sys_waitpid fuel);
    (SYS_sendmsg, sys_sendmsg); (SYS_clone, sys_clone); (SYS_sem_wait, sys_sem_wait fuel);
    (SYS_alarm, sys_alarm); (SYS_psinfo, sys_psinfo info0); (SYS_alarm_return, sys_alarm_return);
    (SYS_sem_post, sys_sem_post) ].

(** An array with designated initialisers: as long as the largest index needs,
    null pointers elsewhere. *)
Definition designated (l : list (Z * M Z)) : list (option (M Z)) :=
  foldl (λ a x, <[Z.to_nat x.1 := Some x.2]> a) (replicate (Z.to_nat (foldr (λ x n, Z.max (x.1 + 1) n) 0 l)) None) l.
Definition syscalls : list (option (M Z)) := designated syscall_inits.
Definition NELEM : Z := Z.of_nat (length syscalls).
(** [syscalls[num]]; undefined behaviour outside the array. *)
Definition handler (num : Z) : M (option (M Z)) :=
  if num <? 0 then halt Undef else need (syscalls !! Z.to_nat num).

(** The result is what [printf] is called with.  [NELEM] is a [sizeof]
    quotient, so the comparison with it converts [num] to 64 unsigned bits and
    also refuses negative numbers; the entry 0 is a null pointer. *)
Definition syscall : M (list (string * list Arg)) :=
  i ← curproc;
  p ← getp i;
  a7 ← load64 (p_trapframe p + TF_a7);
  let num := s32 a7 in
  f ← (if (0 <? num) && (u64 num <? NELEM) then handler num else mret None);
  match f with
  | Some h =>
      r ← h;
      q ← getp i;
      store64 (p_trapframe q + TF_a0) (u64 r);;
      mret []
  | None =>
      store64 (p_trapframe p + TF_a0) (u64 (-1));;
      mret [("%d %s: unknown sys call %d
"%string, [AInt (p_pid p); AStr (Some (c_string (p_name p))); AInt num])]
  end.

(** ** trap.c *)

Definition set_stvec (v : Z) : M unit :=
  modify (λ s, set_csr (mkCsr v (sepc (csr s)) (scause (csr s)) (stval (csr s)) (satp (csr s))
                          (spp (csr s)) (spie (csr s)) (stimecmp (csr s))) s).
Definition set_sepc (v : Z) : M unit :=
  modify (λ s, set_csr (mkCsr (stvec (csr s)) v (scause (csr s)) (stval (csr s)) (satp (csr s))
                          (spp (csr s)) (spie (csr s)) (stimecmp (csr s))) s).
Definition set_prev (u : bool) (ie : bool) : M unit :=
  modify (λ s, set_csr (mkCsr (stvec (csr s)) (sepc (csr s)) (scause (csr s)) (stval (csr s)) (satp (csr s))
                          u ie (stimecmp (csr s))) s).
Definition set_timecmp (v : Z) : M unit :=
  modify (λ s, set_csr (mkCsr (stvec (csr s)) (sepc (csr s)) (scause (csr s)) (stval (csr s)) (satp (csr s))
                          (spp (csr s)) (spie (csr s)) v) s).

Definition trapinit : M unit := initlock Lticks "time".
Definition trapinithart : M unit := set_stvec kernelvec.

Definition clockintr : M unit :=
  h ← gets (λ s, hart s);
  when (h =? 0)%nat
    (acquire Lticks;;
     modify (λ s, set_ticks (u32 (ticks s + 1)) s);;
     wakeup ticks_addr;;
     release Lticks);;
  t ← r_time;
  set_timecmp (u64 (t + 1000000)).

Definition UART0_IRQ : Z := 10.
Definition VIRTIO0_IRQ : Z := 1.

Definition devintr : M Z :=
  cause ← gets (λ s, scause (csr s));
  if cause =? 0x8000000000000009 then
    irq ← plic_claim;
    (if irq =? UART0_IRQ then uartintr
     else if irq =? VIRTIO0_IRQ then virtio_disk_intr
     else mret tt);;
    when (negb (irq =? 0)) (plic_complete irq);;
    mret 1
  else if cause =? 0x8000000000000005 then clockintr;; mret 2
  else mret 0.

Definition prepare_return : M unit :=
  i ← curproc;
  intr_off;;
  set_stvec (TRAMPOLINE + (uservec - trampoline));;
  p ← getp i;
  ksatp ← gets (λ s, satp (csr s));
  store64 (p_trapframe p + TF_kernel_satp) ksatp;;
  store64 (p_trapframe p + TF_kernel_sp) (p_kstack p + PGSIZE);;
  store64 (p_trapframe p + TF_kernel_trap) usertrap_addr;;
  h ← gets (λ s, hart s);
  store64 (p_trapframe p + TF_kernel_hartid) (Z.of_nat h);;
  set_prev false true;;
  epc ← load64 (p_trapframe p + TF_epc);
  set_sepc epc.

(** The alarm code of [usertrap] on a timer interrupt. *)
Definition alarm_tick (i : nat) : M unit :=
  p ← getp i;
  when ((0 <? p_alarm_interval p) && (p_alarm_active p =? 0))
    (t ← iadd (p_alarm_ticks p) 1;
     putp i (with_alarm_ticks t);;
     when (p_alarm_interval p <=? t)
       (tf ← kalloc;
        putp i (with_alarm_trapframe tf);;
        when (negb (tf =? 0))
          (modify (λ s, set_ram (memmove (ram s) tf (p_trapframe p) TF_SIZE) s);;
           store64 (p_trapframe p + TF_epc) (p_alarm_handler p);;
           putp i (with_alarm_active 1);;
           putp i (with_alarm_ticks 0)))).

(** The causes a user trap distinguishes; the result is [which_dev]. *)
Definition user_cause (i : nat) : M Z :=
  cause ← gets (λ s, scause (csr s));
  if cause =? 8 then
    k ← killed i;
    (if negb (k =? 0) then kexit (-1) else mret tt);;
    p ← getp i;
    epc ← load64 (p_trapframe p + TF_epc);
    store64 (p_trapframe p + TF_epc) (u64 (epc + 4));;
    intr_on;;
    syscall;;
    mret 0
  else
    which_dev ← devintr;
    if negb (which_dev =? 0) then mret which_dev else
    p ← getp i;
    va ← gets (λ s, stval (csr s));
    pa ← (if (cause =? 15) || (cause =? 13) then vmfault (p_pagetable p) va else mret 0);
    when (pa =? 0) (setkilled i);;
    mret 0.

Definition usertrap : M Z :=
  b ← gets (λ s, spp (csr s));
  if (b : bool) then panic "usertrap: not from user mode" else
  set_stvec kernelvec;;
  i ← curproc;
  p ← getp i;
  pc ← gets (λ s, sepc (csr s));
  store64 (p_trapframe p + TF_epc) pc;;
  which_dev ← user_cause i;
  k ← killed i;
  (if negb (k =? 0) then kexit (-1) else mret tt);;
  when (which_dev =? 2) (alarm_tick i;; yield);;
  prepare_return;;
  p ← getp i;
  mret (MAKE_SATP (p_pagetable p)).

Definition kerneltrap : M unit :=
  pc ← gets (λ s, sepc (csr s));
  b ← gets (λ s, spp (csr s));
  ie ← gets (λ s, spie (csr s));
  if negb b then panic "kerneltrap: not from supervisor mode" else
  on ← intr_get;
  if (on : bool) then panic "kerneltrap: interrupts enabled" else
  which_dev ← devintr;
  if which_dev =? 0 then panic "kerneltrap" else
  me ← (if which_dev =? 2 then myproc else mret None);
  match me with Some _ => yield | None => mret tt end;;
  set_sepc pc;;
  set_prev b ie;;
  modify (set_sie on).


(** [forkret] of proc.c: the first return to user space of a process. *)
Definition forkret : M Z :=
  i ← curproc;
  release (Lproc i);;
  first ← gets (λ s, forkret_first s);
  when first
    (fsinit ROOTDEV;;
     modify (set_forkret_first false);;
     r ← kexec_init;
     p ← getp i;
     store64 (p_trapframe p + TF_a0) (u64 r);;
     when (r =? -1) (panic "exec"));;
  prepare_return;;
  p ← getp i;
  mret (MAKE_SATP (p_pagetable p)).
End Trap.
