(* ===== verification/TrapSpec.v ===== *)
(** * System call dispatch and the alarm *)

From S2P Require Import Prelude CString Printf Kernel KLogic Spinlock KMem Kalloc Vm VmSpec VmUser Proc ProcSpec Pipe Fork Sysproc Trap.
Open Scope Z_scope.
Open Scope os_scope.

Section Dispatch.
Context {IMG : KernelImage} {FL : FileLayer} {SF : SysFile} {DV : Devices} {BF : BootFs}.
Context (fuel : nat) (info0 : Procinfo).

(** Process [i] runs on this hart with table entry [p]. *)
Definition running (s : KState) (i : nat) (p : Proc) : Prop :=
  sync_ok s ∧ c_proc (cpu s) = Some i ∧ procs s !! i = Some p.

Lemma running_keq s t i p : t ≡k s → running s i p → running t i p.
Proof.
  intros Heq (H1 & H2 & H3). split_and!; [by rewrite Heq|by rewrite (keq_proc _ _ Heq)|by rewrite (keq_procs _ _ Heq)].
Qed.

(** The number in register a7. *)
Definition call_number (s : KState) (p : Proc) : Z := s32 (read64 (ram s) (p_trapframe p + TF_a7)).

(** The calls the kernel offers, by number. *)
Definition call_of (n : Z) : option (M Z) :=
  match n with
  | 1 => Some sys_fork | 2 => Some sys_exit | 3 => Some (sys_wait fuel) | 4 => Some sys_pipe
  | 5 => Some sys_read | 6 => Some sys_kill | 7 => Some sys_exec | 8 => Some sys_fstat
  | 9 => Some sys_chdir | 10 => Some sys_dup | 11 => Some sys_getpid | 12 => Some sys_sbrk
  | 13 => Some (sys_pause fuel) | 14 => Some sys_uptime | 15 => Some sys_open | 16 => Some sys_write
  | 17 => Some sys_mknod | 18 => Some sys_unlink | 19 => Some sys_link | 20 => Some sys_mkdir
  | 21 => Some sys_close | 22 => Some (sys_waitpid fuel) | 23 => Some sys_sendmsg | 24 => Some sys_clone
  | 25 => Some (sys_sem_wait fuel) | 26 => Some sys_alarm | 27 => Some (sys_psinfo info0)
  | 28 => Some sys_alarm_return | 29 => Some sys_sem_post
  | _ => None
  end.

Lemma syscalls_at (n : nat) : (n < 30)%nat → syscalls fuel info0 !! n = Some (call_of (Z.of_nat n)).
Proof. intros Hn. do 30 (destruct n as [|n]; [reflexivity|]). lia. Qed.

Lemma call_of_range n h : call_of n = Some h → 1 ≤ n ≤ 29.
Proof.
  intros Hc. destruct (decide (1 ≤ n ≤ 29)) as [|Hn]; [done|]. exfalso. unfold call_of in Hc.
  repeat match type of Hc with
  | context [match ?x with _ => _ end] => destruct x; try discriminate; try lia
  end.
Qed.

Lemma call_of_none n : ¬ 1 ≤ n ≤ 29 → call_of n = None.
Proof. intros Hn. destruct (call_of n) eqn:Hc; [|done]. by apply call_of_range in Hc. Qed.

Lemma bind_ret {A B} (m : M A) (f : A → M B) s a s' : m s = Ret a s' → (m ≫= f) s = f a s'.
Proof. intros Hm. unfold mbind, M_bind. by rewrite Hm. Qed.

(** What the guards and the table select. *)
Lemma call_selected n s :
  - 2 ^ 31 ≤ n < 2 ^ 31 →
  (if (0 <? n) && (u64 n <? NELEM fuel info0) then handler fuel info0 n else mret None) s = Ret (call_of n) s.
Proof.
  intros Hn. change (NELEM fuel info0) with 30.
  destruct (Z.ltb_spec 0 n) as [H0|H0]; cbn [andb]; [|by rewrite call_of_none by lia].
  unfold u64. rewrite Z.mod_small by lia.
  destruct (Z.ltb_spec n 30) as [H1|H1]; [|by rewrite call_of_none by lia].
  unfold handler. destruct (Z.ltb_spec n 0) as [|_]; [lia|].
  rewrite syscalls_at, Z2Nat.id by lia. done.
Qed.

Lemma s32_range x : - 2 ^ 31 ≤ s32 x < 2 ^ 31.
Proof.
  unfold s32, u32. pose proof (Z.mod_pos_bound x (2 ^ 32) ltac:(lia)).
  destruct (Z.ltb_spec (x mod 2 ^ 32) (2 ^ 31)); lia.
Qed.

(** The message for a number without a handler. *)
Definition unknown_call (p : Proc) (n : Z) : list (string * list Arg) :=
  [("%d %s: unknown sys call %d
"%string, [AInt (p_pid p); AStr (Some (c_string (p_name p))); AInt n])].

(** [syscall] once the number is known. *)
Lemma syscall_start s i p :
  running s i p →
  ∃ s1, s1 ≡k s ∧
    syscall fuel info0 s =
      match call_of (call_number s p) with
      | Some h => (r ← h; q ← getp i; store64 (p_trapframe q + TF_a0) (u64 r);; mret []) s1
      | None => Ret (unknown_call p (call_number s p))
                  (set_ram (write64 (ram s1) (p_trapframe p + TF_a0) (u64 (-1))) s1)
      end.
Proof.
  intros (Hs & Hc & Hp).
  assert (Hwp : wp Atomic curproc (λ a s1, a = i ∧ s1 ≡k s) s) by (eapply wp_curproc; [done|done|]; auto).
  apply wp_atomic in Hwp as (? & s1 & Hr & -> & Heq). exists s1. split; [done|].
  assert (Hg : getp i s1 = Ret p s1).
  { assert (Hwp : wp Atomic (getp i) (λ a s2, a = p ∧ s2 = s1) s1) by (eapply wp_getp; [by rewrite (keq_procs _ _ Heq)|done]).
    apply wp_atomic in Hwp as (? & ? & E & -> & ->). exact E. }
  assert (Hn : call_number s1 p = call_number s p) by (unfold call_number; by rewrite (keq_ram _ _ Heq)).
  unfold syscall. rewrite (bind_ret _ _ _ _ _ Hr), (bind_ret _ _ _ _ _ Hg).
  unfold load64. rewrite (bind_ret (gets _) _ s1 _ s1 eq_refl).
  change (s32 (read64 (ram s1) (p_trapframe p + TF_a7))) with (call_number s1 p). rewrite Hn.
  rewrite (bind_ret _ _ _ _ _ (call_selected (call_number s p) s1 (s32_range _))).
  by destruct (call_of (call_number s p)).
Qed.

(** C24: a system call runs the handler of its number and stores the handler's
    result in a0 of the trap frame the process then has.  For a number that
    syscall.h does not define (0, negative or above 30) nothing outside the
    table is read: one message with the pid, the name and the number is
    printed, a0 becomes -1 and nothing else changes.  (The number 30 is
    SYS_recvmsg; see [recvmsg_unreachable].) *)
Theorem syscall_dispatch (s : KState) (i : nat) (p : Proc) (Hrun : running s i p) :
  (∀ h, call_of (call_number s p) = Some h →
     ∃ s1, s1 ≡k s ∧
       syscall fuel info0 s = (r ← h; q ← getp i; store64 (p_trapframe q + TF_a0) (u64 r);; mret []) s1) ∧
  (¬ 1 ≤ call_number s p ≤ SYS_recvmsg →
     ∃ s', syscall fuel info0 s = Ret (unknown_call p (call_number s p)) s' ∧
       s' ≡k set_ram (write64 (ram s) (p_trapframe p + TF_a0) (2 ^ 64 - 1)) s).
Proof.
  destruct (syscall_start s i p Hrun) as (s1 & Heq & Hr). split.
  - intros h Hh. rewrite Hh in Hr. eauto.
  - intros Hn. rewrite call_of_none in Hr by (unfold SYS_recvmsg in Hn; lia).
    eexists. split; [exact Hr|]. rewrite (keq_ram _ _ Heq), Heq. done.
Qed.

(** The call recvmsg has a number and a handler but no entry in the table: it
    is treated as an unknown call. *)
Theorem recvmsg_unreachable (s : KState) (i : nat) (p : Proc)
    (Hrun : running s i p) (Hnum : call_number s p = SYS_recvmsg) :
  ∃ s', syscall fuel info0 s = Ret (unknown_call p SYS_recvmsg) s' ∧
    s' ≡k set_ram (write64 (ram s) (p_trapframe p + TF_a0) (2 ^ 64 - 1)) s.
Proof.
  destruct (syscall_start s i p Hrun) as (s1 & Heq & Hr). rewrite Hnum in Hr.
  eexists. split; [exact Hr|]. rewrite (keq_ram _ _ Heq), Heq. done.
Qed.

(** ** The alarm *)

(** The alarm of process [p] is due at the next tick. *)
Definition alarm_due (p : Proc) : Prop :=
  0 < p_alarm_interval p < 2 ^ 31 ∧ p_alarm_active p = 0 ∧
  p_alarm_interval p ≤ p_alarm_ticks p + 1 < 2 ^ 31 ∧ 0 ≤ p_alarm_ticks p.

Definition fired (n : Z) (p : Proc) : Proc :=
  with_alarm_ticks 0 (with_alarm_active 1 (with_alarm_trapframe n (with_alarm_ticks (p_alarm_ticks p + 1) p))).

Lemma tf_in_page t x : t ≤ x < t + TF_SIZE → t ≤ x < t + PGSIZE.
Proof. unfold TF_SIZE, PGSIZE. lia. Qed.

Lemma wp_alarm_tick E i p n l Q s :
  procs s !! i = Some p → alarm_due p → free_list s (n :: l) →
  page_ok (p_trapframe p) → p_trapframe p ∉ n :: l → 0 ≤ p_alarm_handler p < 2 ^ 64 →
  (∀ s', only_mem (set_procs (<[i := fired n p]> (procs s)) s) s' → free_list s' l →
     (∀ x, n ≤ x < n + TF_SIZE → rd (ram s') x = rd (ram s) (p_trapframe p + (x - n))) →
     read64 (ram s') (p_trapframe p + TF_epc) = p_alarm_handler p →
     (∀ x, p_trapframe p ≤ x < p_trapframe p + PGSIZE →
        x < p_trapframe p + TF_epc ∨ p_trapframe p + TF_epc + 8 ≤ x → rd (ram s') x = rd (ram s) x) →
     Q tt s') →
  wp E (alarm_tick i) Q s.
Proof.
  intros Hp (Hint & Hact & Htk & Ht0) Hfl Htf Hnin Hh HQ. unfold alarm_tick.
  pose proof (Forall_cons_1 _ _ _ (fl_pages _ _ Hfl)) as [Hn _]. pose proof (page_pos _ Hn).
  pose proof (fl_nodup _ _ Hfl) as Hnd. apply NoDup_cons in Hnd as [Hnl _].
  apply not_elem_of_cons in Hnin as [Hne Hnin'].
  apply wp_bind. eapply wp_getp; [done|].
  rewrite (proj2 (Z.ltb_lt _ _)), (proj2 (Z.eqb_eq _ _)) by lia. cbn [andb]. unfold when at 1.
  unfold iadd. rewrite (proj2 (Z.leb_le _ _)), (proj2 (Z.ltb_lt _ _)) by lia. cbn [andb].
  apply wp_bind, wp_ret. apply wp_bind. eapply wp_putp; [done|]. unfold when at 1.
  rewrite (proj2 (Z.leb_le (p_alarm_interval p) _)) by lia. apply wp_bind.
  set (s1 := set_procs _ s).
  assert (Hl1 : ∀ q, procs s1 !! i = Some q ↔ q = with_alarm_ticks (p_alarm_ticks p + 1) p).
  { intros q. cbn. rewrite list_lookup_insert_eq by (by eapply lookup_lt_Some). naive_solver. }
  eapply (wp_kalloc _ (n :: l)).
  { destruct Hfl as [F1 F2 F3 F4 F5]. by split. }
  { done. }
  intros pa l' [= <- <-] s2 Heq2 Hfl2.
  assert (Hp2 : procs s2 = procs s1) by (by rewrite (keq_procs _ _ Heq2)).
  apply wp_bind. eapply wp_putp; [rewrite Hp2; by apply Hl1|]. unfold when.
  rewrite (proj2 (Z.eqb_neq n 0)) by lia. cbn [negb].
  assert (Hi : (i < length (procs s))%nat) by (by eapply lookup_lt_Some).
  assert (Hlen : length (procs s2) = length (procs s)) by (rewrite Hp2; cbn; by rewrite length_insert).
  unfold store64. ksteps.
  eapply wp_putp; [cbn; rewrite list_lookup_insert_eq by lia; done|].
  eapply wp_putp; [cbn; rewrite list_lookup_insert_eq by (rewrite length_insert; lia); done|].
  set (m' := write64 (memmove (ram s2) n (p_trapframe p) TF_SIZE) (p_trapframe p + TF_epc) (p_alarm_handler p)).
  assert (Hr2 : ∀ q, page_ok q → q ≠ n → agree q PGSIZE (ram s2) (ram s))
    by (intros q Hq Hqn; rewrite (keq_ram _ _ Heq2); by apply (agree_taken n q s1)).
  assert (Hdis : p_trapframe p + PGSIZE ≤ n ∨ n + PGSIZE ≤ p_trapframe p) by (by apply page_disjoint).
  assert (HM : ∀ x, p_trapframe p ≤ x < p_trapframe p + PGSIZE → rd (ram s2) x = rd (ram s) x)
    by (intros x Hx; by apply (Hr2 (p_trapframe p))).
  change PGSIZE with 4096 in *. unfold TF_SIZE, TF_epc in *.
  apply HQ.
  - exists m', (freelist s2). unfold m'. cbn. rewrite !list_insert_insert_eq. unfold set_procs. cbn.
    destruct Heq2 as [Hy Hd]. split; [exact Hy|]. cbn in *. rewrite Hd. cbn.
    rewrite list_insert_insert_eq. reflexivity.
  - apply (free_list_ext s2); [done|done| |apply Hfl2|apply Hfl2].
    intros q Hq. assert (Hqok : page_ok q) by (by eapply Forall_forall; [apply (fl_pages _ _ Hfl2)|]).
    assert (Hqn : n ≠ q) by (intros <-; exact (Hnl Hq)).
    assert (Hqp : p_trapframe p ≠ q) by (intros <-; exact (Hnin' Hq)).
    pose proof (page_disjoint n q Hn Hqok Hqn). pose proof (page_disjoint _ q Htf Hqok Hqp).
    change PGSIZE with 4096 in *. cbn. eapply agree_trans; [apply agree_write64|apply agree_memmove]; lia.
  - intros x Hx. cbn. rewrite rd_write64_ne by lia. rewrite rd_memmove, decide_True by lia. apply HM. lia.
  - cbn. by apply read_write64.
  - intros x Hx Ho. cbn. rewrite rd_write64_ne by lia. rewrite rd_memmove, decide_False by lia. by apply HM.
Qed.
(** The process after the handler has returned: nothing saved, a new period. *)
Definition rearmed (p : Proc) : Proc := with_alarm_ticks 0 (with_alarm_active 0 (with_alarm_trapframe 0 p)).

Lemma running_set_ram s i p m : running s i p → running (set_ram m s) i p.
Proof. intros (H1 & H2 & H3). by split_and!. Qed.

Lemma wp_alarm_return E i p l Q s :
  running s i p → free_list s l →
  page_ok (p_alarm_trapframe p) → p_alarm_trapframe p ∉ l →
  page_ok (p_trapframe p) → p_trapframe p ∉ p_alarm_trapframe p :: l →
  (∀ s', only_mem (set_procs (<[i := rearmed p]> (procs s)) s) s' → free_list s' (p_alarm_trapframe p :: l) →
     (∀ x, p_trapframe p ≤ x < p_trapframe p + TF_SIZE →
        rd (ram s') x = rd (ram s) (p_alarm_trapframe p + (x - p_trapframe p))) →
     Q 0 s') →
  wp E alarm_return Q s.
Proof.
  intros (Hs & Hc & Hp) Hfl Hn Hnl Htf Hnin HQ. unfold alarm_return.
  apply not_elem_of_cons in Hnin as [Hne Hnin']. pose proof (page_pos _ Hn).
  assert (Hi : (i < length (procs s))%nat) by (by eapply lookup_lt_Some).
  apply wp_bind. eapply wp_curproc; [done|done|]. intros s1 Heq1.
  assert (Hp1 : procs s1 = procs s) by (by rewrite (keq_procs _ _ Heq1)).
  assert (Hm1 : ram s1 = ram s) by (by rewrite (keq_ram _ _ Heq1)).
  apply wp_bind. eapply wp_getp; [by rewrite Hp1|].
  rewrite (proj2 (Z.eqb_neq _ 0)) by lia. apply wp_bind, wp_modify. apply wp_bind.
  set (n := p_alarm_trapframe p) in *. set (t := p_trapframe p) in *.
  pose proof (page_disjoint t n Htf Hn ltac:(by intros ->)) as Hdis.
  set (s2 := set_ram _ s1).
  assert (Hfl2 : free_list s2 l).
  { assert (Hfl1 : free_list s1 l) by (by eapply free_list_keq; [symmetry; exact Heq1|]).
    apply (free_list_ext s1); [exact Hfl1|done| |apply Hfl1|apply Hfl1]. intros q Hq.
    assert (Hqok : page_ok q) by (by eapply Forall_forall; [apply (fl_pages _ _ Hfl)|]).
    assert (Hqt : t ≠ q) by (intros <-; exact (Hnin' Hq)).
    pose proof (page_disjoint t q Htf Hqok Hqt). cbn. apply agree_memmove; unfold TF_SIZE, PGSIZE in *; lia. }
  eapply wp_kfree; [exact Hfl2|exact Hn|exact Hnl|]. intros s3 Heq3 Hfl3.
  assert (Hp3 : procs s3 = procs s) by (rewrite (keq_procs _ _ Heq3); exact Hp1).
  assert (Hm3 : ram s3 = ram (freed n s2)) by (exact (keq_ram _ _ Heq3)).
  apply wp_bind. eapply wp_putp; [by rewrite Hp3|]. apply wp_bind.
  eapply wp_putp; [cbn; rewrite Hp3; by rewrite list_lookup_insert_eq by lia|]. apply wp_bind.
  eapply wp_putp; [cbn; rewrite Hp3, list_insert_insert_eq; by rewrite list_lookup_insert_eq by lia|].
  apply wp_ret. apply HQ.
  - exists (ram s3), (freelist s3). cbn [procs]. rewrite Hp3.
    assert (Hmem : ∀ m f, set_ram m (set_freelist f s3) ≡k set_ram m (set_freelist f s))
      by (intros m f; rewrite Heq3;
          change (set_ram m (set_freelist f (freed n s2))) with (set_ram m (set_freelist f s1));
          rewrite Heq1; reflexivity).
    specialize (Hmem (ram s3) (freelist s3)). destruct Hmem as [Hy Hd]. split; [exact Hy|].
    cbn in *. rewrite !list_insert_insert_eq.
    injection Hd. intros. f_equal; assumption || reflexivity.
  - destruct Hfl3 as [F1 F2 F3 F4 F5]. by split.
  - intros x Hx. cbn. rewrite Hm3. cbn. rewrite Hm1. change PGSIZE with 4096 in *. unfold TF_SIZE in *.
    rewrite rd_write64_ne by lia. rewrite memset_spec, decide_False by lia.
    rewrite rd_memmove, decide_True by lia. reflexivity.
Qed.

(** C23: when the alarm of the running process is due and a page is free, the
    timer tick saves the
    trap frame in a fresh page and redirects the user program counter to the
    handler; whatever the handler then does to the trap frame, [alarm_return]
    puts every saved byte back, gives the page back to the allocator and rearms
    the alarm. *)
Theorem alarm_roundtrip (s : KState) (i : nat) (p : Proc) (n : Z) (l : list Z)
    (Hrun : running s i p) (Hdue : alarm_due p) (Hfl : free_list s (n :: l))
    (Htf : page_ok (p_trapframe p)) (Hnin : p_trapframe p ∉ n :: l) (Hh : 0 ≤ p_alarm_handler p < 2 ^ 64) :
  ∃ s1, alarm_tick i s = Ret tt s1 ∧ free_list s1 l ∧
    read64 (ram s1) (p_trapframe p + TF_epc) = p_alarm_handler p ∧
    procs s1 = <[i := fired n p]> (procs s) ∧
    ∀ m, (∀ x, ¬ p_trapframe p ≤ x < p_trapframe p + PGSIZE → rd m x = rd (ram s1) x) →
    ∃ s2, alarm_return (set_ram m s1) = Ret 0 s2 ∧ free_list s2 (n :: l) ∧
      (∀ x, p_trapframe p ≤ x < p_trapframe p + TF_SIZE → rd (ram s2) x = rd (ram s) x) ∧
      procs s2 = <[i := rearmed p]> (procs s).
Proof.
  assert (Hi : (i < length (procs s))%nat) by (eapply lookup_lt_Some; apply Hrun).
  apply wp_returns. eapply wp_alarm_tick; try done; [apply Hrun|].
  intros s1 (m1 & f1 & Heq1) Hfl1 Hsave Hepc _.
  assert (Hp1 : procs s1 = <[i := fired n p]> (procs s)) by (exact (keq_procs _ _ Heq1)).
  split_and!; [done..|]. intros m Hm. apply wp_returns.
  pose proof (Forall_cons_1 _ _ _ (fl_pages _ _ Hfl)) as [Hn Hpl].
  pose proof (fl_nodup _ _ Hfl) as Hnd. apply NoDup_cons in Hnd as [Hnl _].
  pose proof (proj1 (not_elem_of_cons _ _ _) Hnin) as [Hne Hnin'].
  eapply (wp_alarm_return _ i (fired n p) l).
  - split_and!; [|cbn; rewrite (keq_proc _ _ Heq1); apply Hrun|].
    + apply (fl_sync _ _ Hfl1).
    + cbn. rewrite Hp1. by rewrite list_lookup_insert_eq.
  - apply (free_list_ext s1); [done|done| |apply Hfl1|apply Hfl1]. intros q Hq x Hx. cbn. apply Hm.
    rewrite Forall_forall in Hpl.
    pose proof (page_disjoint _ q Htf (Hpl _ Hq) ltac:(intros E; rewrite E in *; exact (Hnin' Hq))). unfold PGSIZE in *. lia.
  - exact Hn.
  - exact Hnl.
  - exact Htf.
  - exact Hnin.
  - intros s2 (m2 & f2 & Heq2) Hfl2 Hback. split_and!; [done|done| |].
    + intros x Hx. rewrite Hback by done. cbn [p_alarm_trapframe p_trapframe fired].
      pose proof (page_disjoint _ n Htf Hn ltac:(intros E; rewrite E in *; done)).
      cbn. rewrite Hm by (unfold TF_SIZE, PGSIZE in *; cbn in *; lia).
      rewrite Hsave by (cbn in *; lia). f_equal. cbn. lia.
    + rewrite (keq_procs _ _ Heq2). cbn. rewrite Hp1, list_insert_insert_eq. done.
Qed.

(** Through the system call (number 28) the saved registers come back with
    one exception: the dispatcher stores the handler's result in a0 after the
    frame has been restored, so the interrupted program resumes with a0 = 0. *)
Theorem alarm_return_loses_a0 (s : KState) (i : nat) (p : Proc) (l : list Z)
    (Hrun : running s i p) (Hnum : call_number s p = SYS_alarm_return) (Hfl : free_list s l)
    (Hn : page_ok (p_alarm_trapframe p)) (Hnl : p_alarm_trapframe p ∉ l)
    (Htf : page_ok (p_trapframe p)) (Hnin : p_trapframe p ∉ p_alarm_trapframe p :: l) :
  ∃ s', syscall fuel info0 s = Ret [] s' ∧
    read64 (ram s') (p_trapframe p + TF_a0) = 0 ∧
    ∀ x, p_trapframe p ≤ x < p_trapframe p + TF_SIZE →
      x < p_trapframe p + TF_a0 ∨ p_trapframe p + TF_a0 + 8 ≤ x →
      rd (ram s') x = rd (ram s) (p_alarm_trapframe p + (x - p_trapframe p)).
Proof.
  destruct (syscall_start s i p Hrun) as (s1 & Heq1 & Hr). rewrite Hnum in Hr. rewrite Hr.
  change (call_of SYS_alarm_return) with (Some sys_alarm_return).
  apply (wp_returns _ []).
  assert (Hm1 : ram s1 = ram s) by (by rewrite (keq_ram _ _ Heq1)).
  apply wp_bind. eapply (wp_alarm_return _ i p l); try done.
  { by eapply running_keq. } { by eapply free_list_keq; [symmetry; exact Heq1|]. }
  intros s2 (m2 & f2 & Heq2) Hfl2 Hback. apply wp_bind.
  assert (Hi : (i < length (procs s1))%nat) by (rewrite (keq_procs _ _ Heq1); eapply lookup_lt_Some; apply Hrun).
  eapply (wp_getp _ _ (rearmed p)); [rewrite (keq_procs _ _ Heq2); cbn; by rewrite list_lookup_insert_eq|].
  unfold store64. apply wp_bind, wp_modify, wp_ret. split; [done|]. split.
  - cbn. by apply read_write64.
  - intros x Hx Ho. cbn. rewrite rd_write64_ne by exact Ho. rewrite Hback by exact Hx. by rewrite Hm1.
Qed.
End Dispatch.

(** A file layer and devices that do nothing. *)
Definition null_files : FileLayer :=
  {| begin_op := mret tt; end_op := mret tt; iput := λ _, mret tt; namei := λ _, mret None |}.
Definition null_sysfile : SysFile :=
  {| sys_pipe := mret 0; sys_read := mret 0; sys_exec := mret 0; sys_fstat := mret 0; sys_chdir := mret 0;
     sys_dup := mret 0; sys_open := mret 0; sys_write := mret 0; sys_mknod := mret 0; sys_unlink := mret 0;
     sys_link := mret 0; sys_mkdir := mret 0; sys_close := mret 0 |}.
Definition info_sample : Procinfo := mkInfo 0 (replicate 16 0) (replicate 10 0) [0; 0].

(** Process 0 runs with its trap frame at 0x80100000; its alarm is due, or it
    is inside the handler with the saved frame at 0x80110000. *)
Definition alarm_proc : Proc :=
  with_alarm_interval 2 (with_alarm_ticks 1 (with_alarm_handler 64 (with_trapframe 0x80100000 proc0))).
Definition handler_proc : Proc := with_alarm_trapframe 0x80110000 (with_alarm_active 1 alarm_proc).
Definition alarm_sample (a7 : Z) (p : Proc) : KState :=
  set_cpu (mkCpu (Some 0%nat) 0 false)
    (set_procs (<[0%nat := p]> (procs bss))
       (set_ram (write64 (ram two_pages) (0x80100000 + TF_a7) a7) two_pages)).

Lemma alarm_sample_running a7 p : running (alarm_sample a7 p) 0 p.
Proof. split_and!; [split; cbn; [lia|done]|done|done]. Qed.

Lemma alarm_sample_free a7 p :
  free_list (H := sample_image) (alarm_sample a7 p) [0x80030000; 0x80050000].
Proof.
  split.
  - cbn. rewrite !read64_write64_ne by (unfold TF_a7; lia). vm_compute. done.
  - apply (bool_decide_unpack _). vm_compute. exact I.
  - repeat constructor; vm_compute; done.
  - exists "kmem". vm_compute. done.
  - split; cbn; [lia|done].
Qed.

Lemma syscall_dispatch_witness :
  ∃ s', syscall (H := sample_image) (H0 := null_files) (H1 := null_sysfile) 1 info_sample (alarm_sample 31 alarm_proc)
      = Ret (unknown_call alarm_proc 31) s' ∧
    s' ≡k set_ram (write64 (ram (alarm_sample 31 alarm_proc)) (0x80100000 + TF_a0) (2 ^ 64 - 1)) (alarm_sample 31 alarm_proc).
Proof.
  apply (syscall_dispatch (IMG := sample_image) (FL := null_files) (SF := null_sysfile) 1 info_sample
    (alarm_sample 31 alarm_proc) 0 alarm_proc (alarm_sample_running 31 alarm_proc)).
  vm_compute. intros [_ H]. by apply H.
Defined.

Lemma alarm_roundtrip_witness :
  ∃ s1 s2, alarm_tick 0 (alarm_sample 0 alarm_proc) = Ret tt s1 ∧
    alarm_return (H := sample_image) (set_ram (write64 (ram s1) (0x80100000 + TF_epc) 1234) s1) = Ret 0 s2 ∧
    free_list (H := sample_image) s2 [0x80030000; 0x80050000].
Proof.
  destruct (alarm_roundtrip (IMG := sample_image) (alarm_sample 0 alarm_proc) 0 alarm_proc 0x80030000 [0x80050000]
    (alarm_sample_running 0 alarm_proc)) as (s1 & H1 & _ & _ & _ & H2).
  - unfold alarm_due. cbn. lia.
  - apply alarm_sample_free.
  - split; vm_compute; done.
  - apply (bool_decide_unpack _). vm_compute. exact I.
  - cbn. lia.
  - destruct (H2 (write64 (ram s1) (0x80100000 + TF_epc) 1234)) as (s2 & H3 & H4 & _).
    + intros x Hx. apply rd_write64_ne. cbn in Hx. unfold TF_epc, PGSIZE in *. lia.
    + exists s1, s2. split; [exact H1|]. split; [exact H3|exact H4].
Defined.

Lemma alarm_return_loses_a0_witness :
  ∃ s', syscall (H := sample_image) (H0 := null_files) (H1 := null_sysfile) 1 info_sample (alarm_sample 28 handler_proc) = Ret [] s' ∧
    read64 (ram s') (0x80100000 + TF_a0) = 0.
Proof.
  destruct (alarm_return_loses_a0 (IMG := sample_image) (FL := null_files) (SF := null_sysfile) 1 info_sample
    (alarm_sample 28 handler_proc) 0 handler_proc [0x80030000; 0x80050000]
    (alarm_sample_running 28 handler_proc)) as (s' & H1 & H2 & _).
  - vm_compute. reflexivity.
  - apply alarm_sample_free.
  - split; vm_compute; done.
  - apply (bool_decide_unpack _). vm_compute. exact I.
  - split; vm_compute; done.
  - apply (bool_decide_unpack _). vm_compute. exact I.
  - exists s'. split; [exact H1|exact H2].
Defined.
