(* ===== verification/Plic.v ===== *)
(** * The interrupt controller

    plic.c, and the controller as the RISC-V PLIC specification describes it:
    a claim takes the pending interrupt with the highest priority that the
    context has enabled, and the gateway of a source holds further requests
    back until the interrupt is completed.  In the memory map of the board
    context [2 h] is machine mode of hart [h] and [2 h + 1] its supervisor
    mode. *)

From S2P Require Import Prelude CString Kernel KLogic Spinlock KMem Kalloc Vm Proc Pipe Fork Sysproc Trap.
Open Scope Z_scope.

(** ** The device *)

Record PlicState := mkPlic {
  pl_priority : gmap Z Z;          (* source to priority *)
  pl_enable : gmap (Z * Z) Z;      (* context and word to 32 enable bits *)
  pl_threshold : gmap Z Z;         (* context to threshold *)
  pl_pending : gset Z;
  pl_busy : gset Z }.              (* sources whose gateway waits for completion *)

Definition plic0 : PlicState := mkPlic ∅ ∅ ∅ ∅ ∅.
Definition zget {K} `{Countable K} (m : gmap K Z) (k : K) : Z := default 0 (m !! k).

(** A request of a source. *)
Definition plic_raise (irq : Z) (p : PlicState) : PlicState :=
  if decide (irq ∈ pl_busy p) then p
  else mkPlic (pl_priority p) (pl_enable p) (pl_threshold p) ({[irq]} ∪ pl_pending p) ({[irq]} ∪ pl_busy p).

Definition claimable (p : PlicState) (ctx irq : Z) : bool :=
  bool_decide (irq ∈ pl_pending p) && Z.testbit (zget (pl_enable p) (ctx, irq / 32)) (irq mod 32) && (zget (pl_threshold p) ctx <? zget (pl_priority p) irq).
(** The candidate with the highest priority, of several the lowest number. *)
Definition better (p : PlicState) (ctx best irq : Z) : Z :=
  if claimable p ctx irq && ((best =? 0) || (zget (pl_priority p) best <? zget (pl_priority p) irq)) then irq else best.
Definition best_irq (p : PlicState) (ctx : Z) : Z := foldl (better p ctx) 0 (seqZ 1 1023).

(** Loads and stores of 32-bit words at [PLIC + o]. *)
Definition plic_load (o : Z) (p : PlicState) : Z * PlicState :=
  if (0x200000 <=? o) && (o mod 0x1000 =? 4) then
    let irq := best_irq p ((o - 0x200000) / 0x1000) in
    (irq, mkPlic (pl_priority p) (pl_enable p) (pl_threshold p) (pl_pending p ∖ {[irq]}) (pl_busy p))
  else (0, p).
Definition plic_store (o v : Z) (p : PlicState) : PlicState :=
  if o <? 0x1000 then mkPlic (<[o / 4 := v]> (pl_priority p)) (pl_enable p) (pl_threshold p) (pl_pending p) (pl_busy p)
  else if (0x2000 <=? o) && (o <? 0x200000) then
    mkPlic (pl_priority p) (<[((o - 0x2000) / 0x80, (o - 0x2000) mod 0x80 / 4) := v]> (pl_enable p)) (pl_threshold p) (pl_pending p) (pl_busy p)
  else if (0x200000 <=? o) && (o mod 0x1000 =? 0) then
    mkPlic (pl_priority p) (pl_enable p) (<[(o - 0x200000) / 0x1000 := v]> (pl_threshold p)) (pl_pending p) (pl_busy p)
  else if (0x200000 <=? o) && (o mod 0x1000 =? 4) then
    let ctx := (o - 0x200000) / 0x1000 in
    if Z.testbit (zget (pl_enable p) (ctx, v / 32)) (v mod 32)
    then mkPlic (pl_priority p) (pl_enable p) (pl_threshold p) (pl_pending p) (pl_busy p ∖ {[v]}) else p
  else p.

(** ** plic.c *)

Definition PLIC_SENABLE (hart : Z) : Z := PLIC + 0x2080 + hart * 0x100.
Definition PLIC_SPRIORITY (hart : Z) : Z := PLIC + 0x201000 + hart * 0x2000.
Definition PLIC_SCLAIM (hart : Z) : Z := PLIC + 0x201004 + hart * 0x2000.

Definition plic_r32 (a : Z) (p : PlicState) : Z * PlicState := plic_load (a - PLIC) p.
Definition plic_w32 (a v : Z) (p : PlicState) : PlicState := plic_store (a - PLIC) v p.

Definition plicinit (p : PlicState) : PlicState :=
  let p := plic_w32 (PLIC + UART0_IRQ * 4) 1 p in
  plic_w32 (PLIC + VIRTIO0_IRQ * 4) 1 p.

Definition plicinithart (hart : nat) (p : PlicState) : PlicState :=
  let hart := Z.of_nat hart in
  let p := plic_w32 (PLIC_SENABLE hart) (Z.lor (Z.shiftl 1 UART0_IRQ) (Z.shiftl 1 VIRTIO0_IRQ)) p in
  plic_w32 (PLIC_SPRIORITY hart) 0 p.

Definition hart_claim (hart : nat) (p : PlicState) : Z * PlicState :=
  let '(irq, p) := plic_r32 (PLIC_SCLAIM (Z.of_nat hart)) p in (s32 irq, p).
Definition hart_complete (hart : nat) (irq : Z) (p : PlicState) : PlicState := plic_w32 (PLIC_SCLAIM (Z.of_nat hart)) (u32 irq) p.

(** ** What the kernel sees

    A source is idle, waits for a hart, or is being served by one. *)

Inductive IrqState := Idle | Waiting | Serving (hart : nat).
Global Instance IrqState_eq_dec : EqDecision IrqState.
Proof. solve_decision. Defined.

Record Irqs := mkIrqs { disk_irq : IrqState; uart_irq : IrqState }.

Inductive PlicOp := Raise (irq : Z) | Claim (hart : nat) | Complete (hart : nat) (irq : Z).

Definition irq_of (irq : Z) (a : Irqs) : IrqState := if irq =? VIRTIO0_IRQ then disk_irq a else uart_irq a.
Definition set_irq (irq : Z) (v : IrqState) (a : Irqs) : Irqs :=
  if irq =? VIRTIO0_IRQ then mkIrqs v (uart_irq a) else mkIrqs (disk_irq a) v.

(** The contract: the state afterwards and, for a claim, its result.  A hart
    completes only what it is serving. *)
Inductive irq_step : Irqs → PlicOp → Irqs → option Z → Prop :=
  | StepRaise irq a : irq = VIRTIO0_IRQ ∨ irq = UART0_IRQ → irq_of irq a = Idle → irq_step a (Raise irq) (set_irq irq Waiting a) None
  | StepRaiseBusy irq a : irq = VIRTIO0_IRQ ∨ irq = UART0_IRQ → irq_of irq a ≠ Idle → irq_step a (Raise irq) a None
  | StepClaimDisk h a : disk_irq a = Waiting → irq_step a (Claim h) (set_irq VIRTIO0_IRQ (Serving h) a) (Some VIRTIO0_IRQ)
  | StepClaimUart h a : disk_irq a ≠ Waiting → uart_irq a = Waiting → irq_step a (Claim h) (set_irq UART0_IRQ (Serving h) a) (Some UART0_IRQ)
  | StepClaimNone h a : disk_irq a ≠ Waiting → uart_irq a ≠ Waiting → irq_step a (Claim h) a (Some 0)
  | StepComplete h irq a : irq = VIRTIO0_IRQ ∨ irq = UART0_IRQ → irq_of irq a = Serving h → irq_step a (Complete h irq) (set_irq irq Idle a) None.

Inductive irq_steps : Irqs → list PlicOp → Irqs → list (option Z) → Prop :=
  | irq_nil a : irq_steps a [] a []
  | irq_cons a op a1 r ops a2 rs : irq_step a op a1 r → irq_steps a1 ops a2 rs → irq_steps a (op :: ops) a2 (r :: rs).

Definition plic_step (op : PlicOp) (p : PlicState) : option Z * PlicState :=
  match op with
  | Raise irq => (None, plic_raise irq p)
  | Claim h => let '(irq, p) := hart_claim h p in (Some irq, p)
  | Complete h irq => (None, hart_complete h irq p)
  end.
Fixpoint plic_steps (ops : list PlicOp) (p : PlicState) : list (option Z) * PlicState :=
  match ops with
  | [] => ([], p)
  | op :: ops' => let '(r, p) := plic_step op p in let '(rs, p) := plic_steps ops' p in (r :: rs, p)
  end.

(** The controller after [main] on [n] harts. *)
Definition plic_boot (n : nat) (p : PlicState) : PlicState := foldl (λ p h, plicinithart h p) (plicinit p) (seq 0 n).

(** ** The registers of a hart *)

Definition sctx (h : nat) : Z := 2 * Z.of_nat h + 1.
Lemma sctx_inj h h' : sctx h = sctx h' → h = h'.
Proof. unfold sctx. lia. Qed.
Definition NCPU : nat := 8.

Ltac each_hart h Hh := unfold NCPU in Hh; do 8 (destruct h as [|h]; [reflexivity|]); lia.

(** The addresses are those of the supervisor context of the hart. *)
Lemma store_enable h v p : (h < NCPU)%nat →
  plic_w32 (PLIC_SENABLE (Z.of_nat h)) v p = mkPlic (pl_priority p) (<[(sctx h, 0) := v]> (pl_enable p)) (pl_threshold p) (pl_pending p) (pl_busy p).
Proof. intros Hh. each_hart h Hh. Qed.
Lemma store_threshold h v p : (h < NCPU)%nat →
  plic_w32 (PLIC_SPRIORITY (Z.of_nat h)) v p = mkPlic (pl_priority p) (pl_enable p) (<[sctx h := v]> (pl_threshold p)) (pl_pending p) (pl_busy p).
Proof. intros Hh. each_hart h Hh. Qed.
Lemma load_claim h p : (h < NCPU)%nat →
  plic_r32 (PLIC_SCLAIM (Z.of_nat h)) p =
    (best_irq p (sctx h), mkPlic (pl_priority p) (pl_enable p) (pl_threshold p) (pl_pending p ∖ {[best_irq p (sctx h)]}) (pl_busy p)).
Proof. intros Hh. each_hart h Hh. Qed.
Lemma store_complete h v p : (h < NCPU)%nat →
  plic_w32 (PLIC_SCLAIM (Z.of_nat h)) v p =
    if Z.testbit (zget (pl_enable p) (sctx h, v / 32)) (v mod 32) then mkPlic (pl_priority p) (pl_enable p) (pl_threshold p) (pl_pending p) (pl_busy p ∖ {[v]}) else p.
Proof. intros Hh. each_hart h Hh. Qed.

(** ** The configured controller *)

Record configured (n : nat) (p : PlicState) : Prop := {
  cf_priority : ∀ i, 1 ≤ i → zget (pl_priority p) i = if decide (i = VIRTIO0_IRQ ∨ i = UART0_IRQ) then 1 else 0;
  cf_enable : ∀ h w, (h < n)%nat → zget (pl_enable p) (sctx h, w) = if decide (w = 0) then 0x402 else 0;
  cf_threshold : ∀ h, (h < n)%nat → zget (pl_threshold p) (sctx h) = 0
}.

Lemma zget_insert {K} `{Countable K} (m : gmap K Z) k k' v : zget (<[k := v]> m) k' = if decide (k = k') then v else zget m k'.
Proof. unfold zget. rewrite lookup_insert. by case_decide. Qed.
Lemma zget_empty {K} `{Countable K} (k : K) : zget ∅ k = 0.
Proof. unfold zget. by rewrite lookup_empty. Qed.

(** From reset, with requests that may have arrived meanwhile. *)
Lemma plic_boot_configured n pend busy : (n ≤ NCPU)%nat →
  ∃ en th, plic_boot n (mkPlic ∅ ∅ ∅ pend busy) = mkPlic (pl_priority (plicinit plic0)) en th pend busy ∧
    (∀ h w, (n ≤ h)%nat → zget en (sctx h, w) = 0) ∧ configured n (plic_boot n (mkPlic ∅ ∅ ∅ pend busy)).
Proof.
  intros Hn. unfold plic_boot. induction n as [|n IH].
  { exists ∅, ∅. split_and!; [reflexivity|intros; apply zget_empty|]. cbn [seq foldl]. split; [|intros; lia..]. intros i Hi.
    change (pl_priority (plicinit (mkPlic ∅ ∅ ∅ pend busy))) with (<[1 := 1]> (<[10 := 1]> (∅ : gmap Z Z))). rewrite !zget_insert, zget_empty.
    unfold VIRTIO0_IRQ, UART0_IRQ. repeat case_decide; lia. }
  destruct IH as (en & th & IHe & Hz & [C1 C2 C3]); [lia|]. rewrite seq_S, foldl_app. cbn [foldl Nat.add]. rewrite IHe in C1, C2, C3 |- *.
  unfold plicinithart. cbv zeta. rewrite store_enable, store_threshold by lia. cbn [pl_priority pl_enable pl_threshold pl_pending pl_busy] in *.
  eexists _, _. split_and!; [reflexivity| |split; cbn [pl_priority pl_enable pl_threshold]; [exact C1| |]].
  - intros h w Hh. rewrite zget_insert, decide_False; [apply Hz; lia|]. intros [= E%sctx_inj _]. lia.
  - intros h w Hh. rewrite zget_insert. destruct (decide ((sctx n, 0) = (sctx h, w))) as [[= <-%sctx_inj <-]|Hne]; [reflexivity|].
    destruct (decide (h = n)) as [->|Hhn]; [|apply C2; lia]. rewrite decide_False by congruence. by apply Hz.
  - intros h Hh. rewrite zget_insert. destruct (decide (sctx n = sctx h)) as [E|Hne]; [done|]. apply C3.
    assert (h ≠ n) by congruence. lia.
Qed.

(** ** Claims *)

Lemma foldl_better_skip p ctx b l : Forall (λ i, claimable p ctx i = false) l → foldl (better p ctx) b l = b.
Proof. induction 1 as [|i l Hi _ IH]; [done|]. cbn [foldl]. unfold better at 2. rewrite Hi. exact IH. Qed.

Section Configured.
Context (n : nat) (p : PlicState).
Hypothesis Hc : configured n p.

Lemma claimable_irq h i : (h < n)%nat → 1 ≤ i → claimable p (sctx h) i = bool_decide (i ∈ pl_pending p ∧ (i = VIRTIO0_IRQ ∨ i = UART0_IRQ)).
Proof.
  intros Hh Hi. destruct Hc as [C1 C2 C3]. unfold claimable. rewrite C1, C2, C3 by done.
  destruct (decide (i = VIRTIO0_IRQ ∨ i = UART0_IRQ)) as [Hv|Hv].
  - assert (Hb : Z.testbit (if decide (i / 32 = 0) then 0x402 else 0) (i mod 32) = true) by (destruct Hv as [-> | ->]; reflexivity).
    rewrite Hb, andb_true_r. cbn. rewrite andb_true_r. apply bool_decide_ext. tauto.
  - rewrite (proj2 (Z.ltb_ge 0 0)), andb_false_r by lia. symmetry. apply bool_decide_eq_false_2. tauto.
Qed.

Lemma best_fold h l1 l2 :
  (h < n)%nat → Forall (λ i, 1 ≤ i ∧ i ≠ 1 ∧ i ≠ 10) l1 → Forall (λ i, 1 ≤ i ∧ i ≠ 1 ∧ i ≠ 10) l2 →
  foldl (better p (sctx h)) 0 (1 :: l1 ++ 10 :: l2) =
    if decide (VIRTIO0_IRQ ∈ pl_pending p) then VIRTIO0_IRQ else if decide (UART0_IRQ ∈ pl_pending p) then UART0_IRQ else 0.
Proof.
  intros Hh H1 H2. assert (Hskip : ∀ b l, Forall (λ i, 1 ≤ i ∧ i ≠ 1 ∧ i ≠ 10) l → foldl (better p (sctx h)) b l = b).
  { intros b l Hl. apply foldl_better_skip. eapply Forall_impl; [exact Hl|]. intros i (Hi & Hn1 & Hn10). rewrite claimable_irq by done.
    apply bool_decide_eq_false_2. unfold VIRTIO0_IRQ, UART0_IRQ. lia. }
  cbn [foldl]. rewrite foldl_app. cbn [foldl]. rewrite !Hskip by done. unfold better. rewrite !claimable_irq by (done || lia).
  unfold VIRTIO0_IRQ, UART0_IRQ. destruct (decide (1 ∈ pl_pending p)) as [Hd|Hd].
  - rewrite (bool_decide_eq_true_2 (1 ∈ _ ∧ _)) by auto. cbn [andb orb Z.eqb Pos.eqb].
    rewrite !(cf_priority _ _ Hc), !decide_True by (unfold VIRTIO0_IRQ, UART0_IRQ; auto || lia). cbn. by rewrite andb_false_r.
  - rewrite (bool_decide_eq_false_2 (1 ∈ _ ∧ _)) by tauto. cbn [andb]. destruct (decide (10 ∈ pl_pending p)) as [Hu|Hu].
    + by rewrite (bool_decide_eq_true_2 (10 ∈ _ ∧ _)) by auto.
    + by rewrite (bool_decide_eq_false_2 (10 ∈ _ ∧ _)) by tauto.
Qed.
Lemma sources_split : seqZ 1 1023 = 1 :: seqZ 2 8 ++ 10 :: seqZ 11 1013.
Proof. vm_compute. reflexivity. Qed.
Lemma best_irq_spec h : (h < n)%nat →
  best_irq p (sctx h) = if decide (VIRTIO0_IRQ ∈ pl_pending p) then VIRTIO0_IRQ else if decide (UART0_IRQ ∈ pl_pending p) then UART0_IRQ else 0.
Proof.
  intros Hh. unfold best_irq. rewrite sources_split. apply best_fold; [done| |]; apply Forall_forall; intros i Hi%elem_of_seqZ; lia.
Qed.
End Configured.

(** ** Refinement *)

Definition op_hart (op : PlicOp) : option nat := match op with Raise _ => None | Claim h | Complete h _ => Some h end.
(** The operations are made by the first [n] harts. *)
Definition by_harts (n : nat) (op : PlicOp) : Prop := ∀ h, op_hart op = Some h → (h < n)%nat.

Record irq_rel (n : nat) (a : Irqs) (p : PlicState) : Prop := {
  ir_conf : configured n p;
  ir_pending : ∀ i, i = VIRTIO0_IRQ ∨ i = UART0_IRQ → i ∈ pl_pending p ↔ irq_of i a = Waiting;
  ir_busy : ∀ i, i = VIRTIO0_IRQ ∨ i = UART0_IRQ → i ∈ pl_busy p ↔ irq_of i a ≠ Idle
}.

Lemma irq_of_set i j v a : i = VIRTIO0_IRQ ∨ i = UART0_IRQ → j = VIRTIO0_IRQ ∨ j = UART0_IRQ → irq_of i (set_irq j v a) = if decide (i = j) then v else irq_of i a.
Proof. by intros [-> | ->] [-> | ->]. Qed.

(** A change of source [j]: its state becomes [v]. *)
Lemma irq_rel_set n a p j v pend busy :
  irq_rel n a p → j = VIRTIO0_IRQ ∨ j = UART0_IRQ →
  (∀ i, i ≠ j → i ∈ pend ↔ i ∈ pl_pending p) → (∀ i, i ≠ j → i ∈ busy ↔ i ∈ pl_busy p) → (j ∈ pend ↔ v = Waiting) → (j ∈ busy ↔ v ≠ Idle) →
  irq_rel n (set_irq j v a) (mkPlic (pl_priority p) (pl_enable p) (pl_threshold p) pend busy).
Proof.
  intros [[C1 C2 C3] R1 R2] Hj Hp Hb Hpj Hbj. split; [by split| |]; cbn [pl_pending pl_busy]; intros i Hi; rewrite irq_of_set by done; case_decide as E; subst.
  - done.
  - rewrite Hp by done. by apply R1.
  - done.
  - rewrite Hb by done. by apply R2.
Qed.

Lemma plic_step_refines n a p op a' r :
  (n ≤ NCPU)%nat → irq_rel n a p → by_harts n op → irq_step a op a' r → ∃ p', plic_step op p = (r, p') ∧ irq_rel n a' p'.
Proof.
  intros Hn HR Hop Hs. pose proof HR as [C R1 R2].
  assert (Hclaim : ∀ h, op = Claim h → plic_step (Claim h) p = (Some (s32 (best_irq p (sctx h))),
      mkPlic (pl_priority p) (pl_enable p) (pl_threshold p) (pl_pending p ∖ {[best_irq p (sctx h)]}) (pl_busy p)) ∧
      best_irq p (sctx h) = if decide (VIRTIO0_IRQ ∈ pl_pending p) then VIRTIO0_IRQ else if decide (UART0_IRQ ∈ pl_pending p) then UART0_IRQ else 0).
  { intros h ->. assert (Hh : (h < n)%nat) by (by apply Hop). split; [|by apply best_irq_spec with n]. cbn [plic_step]. unfold hart_claim. rewrite load_claim by lia. reflexivity. }
  destruct Hs as [irq a Hirq Hidle|irq a Hirq Hbusy|h a Hd|h a Hd Hu|h a Hd Hu|h irq a Hirq Hsv].
  - exists (plic_raise irq p). split; [done|]. unfold plic_raise. rewrite decide_False by (intros Hb%(R2 irq Hirq); by apply Hb).
    apply irq_rel_set; [done|done|clear; set_solver|clear; set_solver|clear; set_solver|]. split; [done|clear; set_solver].
  - exists (plic_raise irq p). split; [done|]. unfold plic_raise. by rewrite decide_True by (by apply R2).
  - destruct (Hclaim h eq_refl) as [-> Hb]. rewrite decide_True in Hb by (apply R1; [by left|done]). rewrite Hb. eexists. split; [reflexivity|].
    apply irq_rel_set; [done|by left|clear; set_solver|done|split; [clear; set_solver|done]|]. split; [done|intros _; apply R2; [by left|change (disk_irq a ≠ Idle); by rewrite Hd]].
  - destruct (Hclaim h eq_refl) as [-> Hb]. rewrite decide_False in Hb by (rewrite R1 by (by left); exact Hd).
    rewrite decide_True in Hb by (apply R1; [by right|done]). rewrite Hb. eexists. split; [reflexivity|].
    apply irq_rel_set; [done|by right|clear; set_solver|done|split; [clear; set_solver|done]|]. split; [done|intros _; apply R2; [by right|change (uart_irq a ≠ Idle); by rewrite Hu]].
  - destruct (Hclaim h eq_refl) as [-> Hb]. rewrite decide_False in Hb by (rewrite R1 by (by left); exact Hd).
    rewrite decide_False in Hb by (rewrite R1 by (by right); exact Hu). rewrite Hb. eexists. split; [reflexivity|].
    destruct C as [C1 C2 C3]. split; [by split| |exact R2]. cbn [pl_pending]. intros i Hi. rewrite <- R1 by done.
    assert (i ≠ 0) as Hi0 by (destruct Hi as [-> | ->]; done). revert Hi0. clear. set_solver.
  - assert (Hh : (h < n)%nat) by (by apply Hop). exists (hart_complete h irq p). split; [done|]. unfold hart_complete. rewrite store_complete by lia.
    assert (Hen : Z.testbit (zget (pl_enable p) (sctx h, u32 irq / 32)) (u32 irq mod 32) = true).
    { rewrite (cf_enable _ _ C) by done. by destruct Hirq as [-> | ->]. }
    rewrite Hen. assert (u32 irq = irq) as -> by (by destruct Hirq as [-> | ->]).
    apply irq_rel_set; [done|done|done|clear; set_solver| |split; [clear; set_solver|done]]. rewrite R1 by done. by rewrite Hsv.
Qed.

(** C20: after [plicinit] and [plicinithart] on each of up to [NCPU] harts, with
    the device requests that may have come meanwhile, every sequence of device
    requests, claims and completions behaves as two sources, each idle, waiting
    or being served by one hart: a claim by any hart takes a waiting source,
    the disk before the serial port, or returns 0 when none waits; a source that
    is being served is given to no hart until it is completed. *)
Theorem plic_serves_once (n : nat) (disk uart : bool) (ops : list PlicOp) (a' : Irqs) (rs : list (option Z))
  (Hn : (n ≤ NCPU)%nat) (Hharts : Forall (by_harts n) ops)
  (Hspec : irq_steps (mkIrqs (if disk then Waiting else Idle) (if uart then Waiting else Idle)) ops a' rs) :
  let early := (if disk then {[VIRTIO0_IRQ]} else ∅) ∪ (if uart then {[UART0_IRQ]} else ∅) in
  ∃ p', plic_steps ops (plic_boot n (mkPlic ∅ ∅ ∅ early early)) = (rs, p') ∧ irq_rel n a' p'.
Proof.
  intros early. destruct (plic_boot_configured n early early Hn) as (en & th & Heq & _ & Hconf).
  assert (HR : irq_rel n (mkIrqs (if disk then Waiting else Idle) (if uart then Waiting else Idle)) (plic_boot n (mkPlic ∅ ∅ ∅ early early))).
  { rewrite Heq in Hconf |- *. split; [exact Hconf| |]; cbn [pl_pending pl_busy]; intros i Hi; unfold early; destruct disk, uart; destruct Hi as [-> | ->]; cbn; set_solver. }
  clear Heq Hconf. revert HR. generalize (plic_boot n (mkPlic ∅ ∅ ∅ early early)) as p. clear early.
  induction Hspec as [a|a op a1 r ops a2 rs Hs _ IH]; intros p HR; [by exists p|]. inversion Hharts as [|? ? Hop Hops]; subst.
  destruct (plic_step_refines n a p op a1 r Hn HR Hop Hs) as (p1 & E1 & HR1). destruct (IH Hops p1 HR1) as (p2 & E2 & HR2).
  exists p2. split; [|done]. cbn [plic_steps]. by rewrite E1, E2.
Qed.

(** Two harts race for the disk's interrupt. *)
Lemma plic_serves_once_witness :
  ∃ p', plic_steps [Raise 10; Claim 1; Claim 0; Complete 1 1; Complete 0 10] (plic_boot 2 (mkPlic ∅ ∅ ∅ ({[VIRTIO0_IRQ]} ∪ ∅) ({[VIRTIO0_IRQ]} ∪ ∅)))
    = ([None; Some 1; Some 10; None; None], p') ∧ irq_rel 2 (mkIrqs Idle Idle) p'.
Proof.
  destruct (plic_serves_once 2 true false [Raise 10; Claim 1; Claim 0; Complete 1 1; Complete 0 10] (mkIrqs Idle Idle) [None; Some 1; Some 10; None; None]) as (p' & E & Hr).
  - unfold NCPU. lia.
  - repeat (apply Forall_cons; split; [intros h E; cbn in E; simplify_eq; lia|]). apply Forall_nil. exact I.
  - repeat econstructor; try reflexivity; try discriminate; (by left) || (by right).
  - exists p'. split; [exact E|exact Hr].
Defined.
