(* ===== verification/Main.v ===== *)
(** * main.c: starting the harts

    Every hart runs [main].  Hart 0 initialises the kernel and sets [started];
    the others wait for it.  Memory is weakly ordered: what a hart has written
    becomes visible to the others at any later moment and in any order, and a
    hart notices visible writes at any moment and in any order, except that a
    fence waits until the hart's own writes are visible and notices everything
    that is. *)

From S2P Require Import Prelude.
Open Scope nat_scope.

(** The functions that [main] calls. *)
Inductive InitCall :=
  | CConsoleinit | CPrintfinit | CPrintf | CKinit | CKvminit | CKvminithart | CProcinit | CTrapinit | CTrapinithart
  | CPlicinit | CPlicinithart | CBinit | CIinit | CFileinit | CVirtio_disk_init | CUserinit | CScheduler.
Global Instance InitCall_eq_dec : EqDecision InitCall.
Proof. solve_decision. Defined.

Inductive Stmt := Do (c : InitCall) | Fence | SetStarted | WaitStarted.
Global Instance Stmt_eq_dec : EqDecision Stmt.
Proof. solve_decision. Defined.

Definition boot_calls : list InitCall :=
  [CConsoleinit; CPrintfinit; CPrintf; CPrintf; CPrintf; CKinit; CKvminit; CKvminithart; CProcinit; CTrapinit; CTrapinithart;
   CPlicinit; CPlicinithart; CBinit; CIinit; CFileinit; CVirtio_disk_init; CUserinit].

Definition main (id : nat) : list Stmt :=
  (if decide (id = 0) then map Do boot_calls ++ [Fence; SetStarted]
   else [WaitStarted; Fence; Do CPrintf; Do CKvminithart; Do CTrapinithart; Do CPlicinithart]) ++ [Do CScheduler].

(** ** The harts and their views of memory *)

(** A write: what a call of hart [i] changes, or [started]. *)
Inductive Wr := Called (i : nat) (c : InitCall) | Started.
Global Instance Wr_eq_dec : EqDecision Wr.
Proof. solve_decision. Defined.

Record HartSt := mkHartSt {
  hs_todo : list Stmt;        (* what is left of [main] *)
  hs_buffer : list Wr;        (* own writes that are not visible yet *)
  hs_view : list Wr }.        (* the writes it has noticed, its own included *)

(** [ev_view] is what the hart knew when it made the call. *)
Record Event := mkEvent { ev_hart : nat; ev_call : InitCall; ev_view : list Wr }.

Record Boot := mkBoot { bt_harts : list HartSt; bt_visible : list Wr; bt_trace : list Event }.

Definition boot_init (n : nat) : Boot := mkBoot ((λ i, mkHartSt (main i) [] []) <$> seq 0 n) [] [].

Inductive boot_step : Boot → Boot → Prop :=
  | BCall b i h c rest : bt_harts b !! i = Some h → hs_todo h = Do c :: rest →
      boot_step b (mkBoot (<[i := mkHartSt rest (Called i c :: hs_buffer h) (Called i c :: hs_view h)]> (bt_harts b)) (bt_visible b)
        (bt_trace b ++ [mkEvent i c (hs_view h)]))
  | BFence b i h rest : bt_harts b !! i = Some h → hs_todo h = Fence :: rest → hs_buffer h = [] →
      boot_step b (mkBoot (<[i := mkHartSt rest [] (bt_visible b ++ hs_view h)]> (bt_harts b)) (bt_visible b) (bt_trace b))
  | BSet b i h rest : bt_harts b !! i = Some h → hs_todo h = SetStarted :: rest →
      boot_step b (mkBoot (<[i := mkHartSt rest (Started :: hs_buffer h) (Started :: hs_view h)]> (bt_harts b)) (bt_visible b) (bt_trace b))
  | BWait b i h rest : bt_harts b !! i = Some h → hs_todo h = WaitStarted :: rest → Started ∈ hs_view h →
      boot_step b (mkBoot (<[i := mkHartSt rest (hs_buffer h) (hs_view h)]> (bt_harts b)) (bt_visible b) (bt_trace b))
  | BFlush b i h pre w post : bt_harts b !! i = Some h → hs_buffer h = pre ++ w :: post →
      boot_step b (mkBoot (<[i := mkHartSt (hs_todo h) (pre ++ post) (hs_view h)]> (bt_harts b)) (w :: bt_visible b) (bt_trace b))
  | BNotice b i h w : bt_harts b !! i = Some h → w ∈ bt_visible b →
      boot_step b (mkBoot (<[i := mkHartSt (hs_todo h) (hs_buffer h) (w :: hs_view h)]> (bt_harts b)) (bt_visible b) (bt_trace b)).

(** The calls that the hart's part of the program has made. *)
Definition calls_of (i : nat) (tr : list Event) : list InitCall := ev_call <$> filter (λ e, ev_hart e = i) tr.
Definition stmt_calls (p : list Stmt) : list InitCall := omap (λ s, match s with Do c => Some c | _ => None end) p.

(** Everything hart 0 has initialised is in [v]. *)
Definition booted (v : list Wr) : Prop := ∀ c, c ∈ boot_calls → Called 0 c ∈ v.

(** ** Where a hart is in [main] *)

Lemma main_other i : i ≠ 0 → main i = main 1.
Proof. intros Hi. unfold main. by rewrite !decide_False. Qed.

Lemma todo_first done s rest :
  main 0 = done ++ s :: rest →
  match s with
  | Do _ => 3 ≤ length rest ∨ length rest = 0
  | Fence => length rest = 2 ∧ stmt_calls rest = [CScheduler]
  | SetStarted => length rest = 1
  | WaitStarted => False
  end.
Proof.
  intros E. assert (Hl : length done ≤ 20) by (apply (f_equal length) in E; rewrite length_app in E; change (length (main 0)) with 21 in E; cbn [length] in E; lia).
  apply (f_equal (drop (length done))) in E. rewrite drop_app_length in E. revert Hl E. generalize (length done) as k. clear. intros k Hk.
  do 21 (destruct k as [|k]; [intros E; vm_compute in E; injection E as <- <-; cbn; split_and?; done || lia|]). lia.
Qed.
Lemma todo_other i done s rest :
  i ≠ 0 → main i = done ++ s :: rest →
  match s with
  | Do _ => length rest ≤ 4
  | Fence => length rest = 5
  | SetStarted => False
  | WaitStarted => length rest = 6
  end.
Proof.
  intros Hi E. rewrite main_other in E by done. assert (Hl : length done ≤ 6) by (apply (f_equal length) in E; rewrite length_app in E; change (length (main 1)) with 7 in E; cbn [length] in E; lia).
  apply (f_equal (drop (length done))) in E. rewrite drop_app_length in E. revert Hl E. generalize (length done) as k. clear. intros k Hk.
  do 7 (destruct k as [|k]; [intros E; vm_compute in E; injection E as <- <-; cbn; done || lia|]). lia.
Qed.

(** ** The invariant *)

Record boot_inv (n : nat) (b : Boot) : Prop := {
  bi_len : length (bt_harts b) = n;
  bi_todo : ∀ i h, bt_harts b !! i = Some h → ∃ done, main i = done ++ hs_todo h;
  bi_calls : ∀ i h, bt_harts b !! i = Some h → calls_of i (bt_trace b) ++ stmt_calls (hs_todo h) = stmt_calls (main i);
  bi_own : ∀ i h c, bt_harts b !! i = Some h → c ∈ calls_of i (bt_trace b) → Called i c ∈ hs_buffer h ++ bt_visible b;
  bi_fenced : ∀ h, bt_harts b !! 0 = Some h → length (hs_todo h) ≤ 2 → booted (bt_visible b);
  bi_flag : ∀ h, bt_harts b !! 0 = Some h → length (hs_todo h) ≤ 1 → Started ∈ hs_buffer h ++ bt_visible b;
  bi_started : (Started ∈ bt_visible b ∨ ∃ i h, bt_harts b !! i = Some h ∧ Started ∈ hs_buffer h ++ hs_view h) → booted (bt_visible b);
  bi_waited : ∀ i h, i ≠ 0 → bt_harts b !! i = Some h → length (hs_todo h) ≤ 6 → Started ∈ hs_view h;
  bi_view : ∀ i h, i ≠ 0 → bt_harts b !! i = Some h → length (hs_todo h) ≤ 5 → booted (hs_view h);
  bi_trace : ∀ e, e ∈ bt_trace b → ev_hart e ≠ 0 → booted (ev_view e)
}.

Lemma boot_inv_init n : boot_inv n (boot_init n).
Proof.
  assert (Hh : ∀ i h, bt_harts (boot_init n) !! i = Some h → h = mkHartSt (main i) [] []).
  { intros i h Hi. cbn in Hi. apply list_lookup_fmap_Some in Hi as (j & -> & Hj). apply lookup_seq in Hj as [-> _]. done. }
  assert (Hlen : ∀ i h, bt_harts (boot_init n) !! i = Some h → 7 ≤ length (hs_todo h)).
  { intros i h Hi. rewrite (Hh i h Hi). cbn [hs_todo]. destruct (decide (i = 0)) as [->|Hi0]; [apply Nat.leb_le; reflexivity|]. by rewrite main_other. }
  split.
  - cbn. by rewrite length_fmap, length_seq.
  - intros i h Hi. rewrite (Hh i h Hi). by exists [].
  - intros i h Hi. by rewrite (Hh i h Hi).
  - intros i h c _ Hc. by apply elem_of_nil in Hc.
  - intros h Hi ?. pose proof (Hlen 0 h Hi). lia.
  - intros h Hi ?. pose proof (Hlen 0 h Hi). lia.
  - intros [H|(i & h & Hi & H)]; [by apply elem_of_nil in H|]. rewrite (Hh i h Hi) in H. by apply elem_of_nil in H.
  - intros i h _ Hi ?. pose proof (Hlen i h Hi). lia.
  - intros i h _ Hi ?. pose proof (Hlen i h Hi). lia.
  - intros e He. by apply elem_of_nil in He.
Qed.

Lemma booted_mono v v' : (∀ w, w ∈ v → w ∈ v') → booted v → booted v'.
Proof. intros H Hb c Hc. apply H, Hb, Hc. Qed.

(** Changing hart [i] so that it keeps what it knows and has written. *)
Lemma lookup_hart (hs : list HartSt) i h v j x :
  hs !! i = Some h → <[i := v]> hs !! j = Some x → (j = i ∧ x = v) ∨ (j ≠ i ∧ hs !! j = Some x).
Proof. intros Hi [(-> & -> & _)|[Hne Hj]]%list_lookup_insert_Some; [by left|by right]. Qed.

Lemma calls_of_app i tr e : calls_of i (tr ++ [e]) = calls_of i tr ++ (if decide (ev_hart e = i) then [ev_call e] else []).
Proof. unfold calls_of. rewrite filter_app, fmap_app, filter_cons, filter_nil. by case_decide. Qed.

Lemma todo_tail i h s rest done : main i = done ++ hs_todo h → hs_todo h = s :: rest → main i = (done ++ [s]) ++ rest.
Proof. intros -> ->. by rewrite <- app_assoc. Qed.

Section Update.
Context (n : nat) (b : Boot) (i : nat) (h v : HartSt) (vis : list Wr) (tr : list Event).
Hypothesis HI : boot_inv n b.
Hypothesis Hi : bt_harts b !! i = Some h.
Hypothesis Hvis : ∀ w, w ∈ bt_visible b → w ∈ vis.

Lemma boot_inv_update :
  (∃ done, main i = done ++ hs_todo v) →
  (∀ j, j ≠ i → calls_of j tr = calls_of j (bt_trace b)) → calls_of i tr ++ stmt_calls (hs_todo v) = stmt_calls (main i) →
  (∀ c, c ∈ calls_of i tr → Called i c ∈ hs_buffer v ++ vis) →
  (i = 0 → length (hs_todo v) ≤ 2 → booted vis) → (i = 0 → length (hs_todo v) ≤ 1 → Started ∈ hs_buffer v ++ vis) →
  (Started ∈ vis ∨ Started ∈ hs_buffer v ++ hs_view v → booted vis) →
  (i ≠ 0 → length (hs_todo v) ≤ 6 → Started ∈ hs_view v) → (i ≠ 0 → length (hs_todo v) ≤ 5 → booted (hs_view v)) →
  (∀ e, e ∈ tr → ev_hart e ≠ 0 → booted (ev_view e)) →
  boot_inv n (mkBoot (<[i := v]> (bt_harts b)) vis tr).
Proof.
  intros H2 H3 H3' H4 H5 H6 H7 H8 H9 H10. destruct HI as [I1 I2 I3 I4 I5 I6 I7 I8 I9 I10].
  assert (Hap : ∀ l w, w ∈ l ++ bt_visible b → w ∈ l ++ vis) by (intros l w [Hl|Hl]%elem_of_app; apply elem_of_app; [by left|right; by apply Hvis]).
  split; cbn [bt_harts bt_visible bt_trace].
  - by rewrite length_insert.
  - intros j x [[-> ->]|[Hne Hj]]%(lookup_hart _ i h); [done|by eapply I2|done].
  - intros j x [[-> ->]|[Hne Hj]]%(lookup_hart _ i h); [done|rewrite H3 by done; by apply I3|done].
  - intros j x c [[-> ->]|[Hne Hj]]%(lookup_hart _ i h); [by apply H4|rewrite H3 by done; intros Hc; by apply Hap, I4|done].
  - intros x [[<- ->]|[Hne Hj]]%(lookup_hart _ i h); [by apply H5|intros Hx; eapply booted_mono; [exact Hvis|by eapply I5]|done].
  - intros x [[<- ->]|[Hne Hj]]%(lookup_hart _ i h); [by apply H6|intros Hx; by apply Hap, I6|done].
  - intros [H|(j & x & Hj & H)]; [by apply H7; left|]. apply (lookup_hart _ i h) in Hj as [[-> ->]|[Hne Hj]]; [by apply H7; right| |done].
    eapply booted_mono; [exact Hvis|]. apply I7. right. by exists j, x.
  - intros j x Hj0 [[-> ->]|[Hne Hj]]%(lookup_hart _ i h); [by apply H8|by eapply I8|done].
  - intros j x Hj0 [[-> ->]|[Hne Hj]]%(lookup_hart _ i h); [by apply H9|by eapply I9|done].
  - exact H10.
Qed.
End Update.

Section Steps.
Context (n : nat) (b : Boot) (i : nat) (h : HartSt).
Hypothesis HI : boot_inv n b.
Hypothesis Hi : bt_harts b !! i = Some h.

Lemma started_booted : Started ∈ bt_visible b ∨ Started ∈ hs_buffer h ++ hs_view h → booted (bt_visible b).
Proof. intros [H|H]; apply (bi_started _ _ HI); [by left|right; by exists i, h]. Qed.

Lemma inv_call c rest : hs_todo h = Do c :: rest →
  boot_inv n (mkBoot (<[i := mkHartSt rest (Called i c :: hs_buffer h) (Called i c :: hs_view h)]> (bt_harts b)) (bt_visible b) (bt_trace b ++ [mkEvent i c (hs_view h)])).
Proof.
  intros Ht. destruct (bi_todo _ _ HI i h Hi) as [done Hd]. pose proof Hd as Hd'. rewrite Ht in Hd'.
  assert (Hview : i ≠ 0 → booted (hs_view h)).
  { intros Hi0. apply (bi_view _ _ HI i h Hi0 Hi). rewrite Ht. pose proof (todo_other _ _ _ _ Hi0 Hd'). cbn in *. lia. }
  apply (boot_inv_update n b i h); [exact HI|exact Hi|done|..]; cbn [hs_todo hs_buffer hs_view].
  - exists (done ++ [Do c]). by eapply todo_tail.
  - intros j Hj. rewrite calls_of_app. cbn [ev_hart]. by rewrite decide_False, app_nil_r.
  - rewrite calls_of_app. cbn [ev_hart ev_call]. rewrite decide_True, <- app_assoc by done. pose proof (bi_calls _ _ HI i h Hi) as Hc. by rewrite Ht in Hc.
  - intros c0. rewrite calls_of_app. cbn [ev_hart ev_call]. rewrite decide_True by done. intros [Hc|Hc]%elem_of_app; [right; by apply (bi_own _ _ HI i h)|].
    apply list_elem_of_singleton in Hc as ->. left.
  - intros ->. pose proof (todo_first _ _ _ Hd'). intros Hr. apply (bi_fenced _ _ HI h Hi). rewrite Ht. cbn in *. lia.
  - intros ->. pose proof (todo_first _ _ _ Hd'). intros Hr. right. apply (bi_flag _ _ HI h Hi). rewrite Ht. cbn in *. lia.
  - intros H. apply started_booted. clear -H. set_solver.
  - intros Hi0 Hr. right. apply (bi_waited _ _ HI i h Hi0 Hi). rewrite Ht. pose proof (todo_other _ _ _ _ Hi0 Hd'). cbn in *. lia.
  - intros Hi0 _. eapply booted_mono; [|by apply Hview]. intros w Hw. by right.
  - intros e [He|He]%elem_of_app; [by apply (bi_trace _ _ HI)|]. by apply list_elem_of_singleton in He as ->.
Qed.

Lemma inv_fence rest : hs_todo h = Fence :: rest → hs_buffer h = [] →
  boot_inv n (mkBoot (<[i := mkHartSt rest [] (bt_visible b ++ hs_view h)]> (bt_harts b)) (bt_visible b) (bt_trace b)).
Proof.
  intros Ht Hbuf. destruct (bi_todo _ _ HI i h Hi) as [done Hd]. pose proof Hd as Hd'. rewrite Ht in Hd'. pose proof (bi_calls _ _ HI i h Hi) as Hc. rewrite Ht in Hc.
  assert (Hown : ∀ c, c ∈ calls_of i (bt_trace b) → Called i c ∈ bt_visible b).
  { intros c Hcc. pose proof (bi_own _ _ HI i h c Hi Hcc) as H. by rewrite Hbuf in H. }
  apply (boot_inv_update n b i h); [exact HI|exact Hi|done|..]; cbn [hs_todo hs_buffer hs_view].
  - exists (done ++ [Fence]). by eapply todo_tail.
  - done.
  - exact Hc.
  - exact Hown.
  - intros -> _ c Hcc. apply Hown. destruct (todo_first _ _ _ Hd') as [_ Hr]. cbn [stmt_calls omap list_omap] in Hc. change (omap _ rest) with (stmt_calls rest) in Hc.
    rewrite Hr in Hc. change (stmt_calls (main 0)) with (boot_calls ++ [CScheduler]) in Hc. by apply app_inv_tail in Hc as ->.
  - intros ->. destruct (todo_first _ _ _ Hd') as [Hl _]. lia.
  - intros H. apply started_booted. rewrite Hbuf. clear -H. set_solver.
  - intros Hi0 _. apply elem_of_app. right. apply (bi_waited _ _ HI i h Hi0 Hi). rewrite Ht. pose proof (todo_other _ _ _ _ Hi0 Hd'). cbn in *. lia.
  - intros Hi0 _. eapply (booted_mono (bt_visible b)); [intros w Hw; apply elem_of_app; by left|]. apply started_booted. right. apply elem_of_app. right.
    apply (bi_waited _ _ HI i h Hi0 Hi). rewrite Ht. pose proof (todo_other _ _ _ _ Hi0 Hd'). cbn in *. lia.
  - apply (bi_trace _ _ HI).
Qed.

Lemma inv_set rest : hs_todo h = SetStarted :: rest →
  boot_inv n (mkBoot (<[i := mkHartSt rest (Started :: hs_buffer h) (Started :: hs_view h)]> (bt_harts b)) (bt_visible b) (bt_trace b)).
Proof.
  intros Ht. destruct (bi_todo _ _ HI i h Hi) as [done Hd]. pose proof Hd as Hd'. rewrite Ht in Hd'.
  assert (Hi0 : i = 0). { destruct (decide (i = 0)) as [|Hne]; [done|]. by destruct (todo_other _ _ _ _ Hne Hd'). }
  assert (Hb : booted (bt_visible b)). { subst i. apply (bi_fenced _ _ HI h Hi). rewrite Ht. pose proof (todo_first _ _ _ Hd') as Hl. cbn in *. lia. }
  apply (boot_inv_update n b i h); [exact HI|exact Hi|done|..]; cbn [hs_todo hs_buffer hs_view]; try done.
  - exists (done ++ [SetStarted]). by eapply todo_tail.
  - pose proof (bi_calls _ _ HI i h Hi) as Hc. by rewrite Ht in Hc.
  - intros c Hc. right. by apply (bi_own _ _ HI i h).
  - intros _ _. left.
  - apply (bi_trace _ _ HI).
Qed.

Lemma inv_wait rest : hs_todo h = WaitStarted :: rest → Started ∈ hs_view h →
  boot_inv n (mkBoot (<[i := mkHartSt rest (hs_buffer h) (hs_view h)]> (bt_harts b)) (bt_visible b) (bt_trace b)).
Proof.
  intros Ht Hst. destruct (bi_todo _ _ HI i h Hi) as [done Hd]. pose proof Hd as Hd'. rewrite Ht in Hd'.
  assert (Hi0 : i ≠ 0) by (intros ->; by destruct (todo_first _ _ _ Hd')). pose proof (todo_other _ _ _ _ Hi0 Hd') as Hl. cbn in Hl.
  apply (boot_inv_update n b i h); [exact HI|exact Hi|done|..]; cbn [hs_todo hs_buffer hs_view]; try (done || lia).
  - exists (done ++ [WaitStarted]). by eapply todo_tail.
  - pose proof (bi_calls _ _ HI i h Hi) as Hc. by rewrite Ht in Hc.
  - intros c Hc. by apply (bi_own _ _ HI i h).
  - apply started_booted.
  - apply (bi_trace _ _ HI).
Qed.

(** Writes becoming visible, and being noticed. *)
Lemma inv_memory buf view vis :
  (∀ w, w ∈ bt_visible b → w ∈ vis) → (∀ w, w ∈ hs_view h → w ∈ view) → (∀ w, w ∈ hs_buffer h ++ bt_visible b ↔ w ∈ buf ++ vis) → (∀ w, w ∈ view → w ∈ hs_view h ∨ w ∈ bt_visible b) →
  boot_inv n (mkBoot (<[i := mkHartSt (hs_todo h) buf view]> (bt_harts b)) vis (bt_trace b)).
Proof.
  intros Hvis Hview Hbuf Hold. assert (Hb : booted (bt_visible b) → booted vis) by (by apply booted_mono).
  apply (boot_inv_update n b i h); [exact HI|exact Hi|done|..]; cbn [hs_todo hs_buffer hs_view].
  - by apply (bi_todo _ _ HI).
  - done.
  - by apply (bi_calls _ _ HI).
  - intros c Hc. apply Hbuf. by apply (bi_own _ _ HI i h).
  - intros ->. intros Hr. by apply Hb, (bi_fenced _ _ HI h).
  - intros ->. intros Hr. by apply Hbuf, (bi_flag _ _ HI h).
  - intros H. apply Hb, started_booted. specialize (Hbuf Started). specialize (Hold Started). rewrite !elem_of_app in *. tauto.
  - intros Hi0 Hr. by apply Hview, (bi_waited _ _ HI i h).
  - intros Hi0 Hr. eapply booted_mono; [exact Hview|]. by apply (bi_view _ _ HI i h).
  - apply (bi_trace _ _ HI).
Qed.
End Steps.

Lemma boot_inv_step n b b' : boot_inv n b → boot_step b b' → boot_inv n b'.
Proof.
  intros HI Hs. revert HI.
  destruct Hs as [b0 i h c rest Hi Ht|b0 i h rest Hi Ht Hbuf|b0 i h rest Hi Ht|b0 i h rest Hi Ht Hst|b0 i h pre w post Hi Hbuf|b0 i h w Hi Hw]; intros HI.
  - apply (inv_call n b0 i h HI Hi c rest Ht).
  - apply (inv_fence n b0 i h HI Hi rest Ht Hbuf).
  - apply (inv_set n b0 i h HI Hi rest Ht).
  - apply (inv_wait n b0 i h HI Hi rest Ht Hst).
  - apply (inv_memory n b0 i h); [done|done|by right|done| |by left]. intros x. rewrite Hbuf. clear. set_solver.
  - apply (inv_memory n b0 i h); [done|done|done|by right|done|]. intros x [->|Hx]%elem_of_cons; [by right|by left].
Qed.

Lemma boot_inv_steps n b b' : boot_inv n b → rtc boot_step b b' → boot_inv n b'.
Proof. intros HI Hs. induction Hs as [b|b b1 b' Hs _ IH]; [done|]. apply IH. by eapply boot_inv_step. Qed.

(** ** Every hart reaches the scheduler *)

Definition todo_total (b : Boot) : nat := sum_list (length ∘ hs_todo <$> bt_harts b).

Lemma sum_list_insert (l : list nat) i x y : l !! i = Some x → sum_list (<[i := y]> l) + x = sum_list l + y.
Proof.
  revert i. induction l as [|z l IH]; intros [|i] Hi; [done|done| |].
  - injection Hi as ->. cbn. unfold id. set (S := sum_list_with _ l). lia.
  - specialize (IH i Hi). cbn. set (S := sum_list_with _ _) in IH |- *. set (S' := sum_list_with _ l) in IH |- *. unfold id. lia.
Qed.
Lemma todo_total_set b i h v vis tr : bt_harts b !! i = Some h →
  todo_total (mkBoot (<[i := v]> (bt_harts b)) vis tr) + length (hs_todo h) = todo_total b + length (hs_todo v).
Proof.
  intros Hi. unfold todo_total. cbn [bt_harts]. rewrite list_fmap_insert. apply sum_list_insert. by rewrite list_lookup_fmap, Hi.
Qed.

(** All writes of hart [i] can become visible. *)
Lemma flush_all b i h : bt_harts b !! i = Some h →
  ∃ b', rtc boot_step b b' ∧ bt_harts b' = <[i := mkHartSt (hs_todo h) [] (hs_view h)]> (bt_harts b) ∧ (∀ w, w ∈ bt_visible b' ↔ w ∈ hs_buffer h ++ bt_visible b).
Proof.
  remember (hs_buffer h) as buf eqn:Hbuf. revert b h Hbuf. induction buf as [|w buf IH]; intros b h Hbuf Hi.
  - exists b. split_and!; [done| |done]. rewrite list_insert_id; [done|]. rewrite Hi. destruct h. cbn in *. by subst.
  - pose proof (BFlush b i h [] w buf Hi (eq_sym Hbuf)) as Hstep. cbn [app] in Hstep. set (b1 := mkBoot _ _ _) in Hstep.
    destruct (IH b1 (mkHartSt (hs_todo h) buf (hs_view h)) eq_refl) as (b' & Hr & Hh & Hv); [cbn; apply list_lookup_insert_eq; by eapply lookup_lt_Some|].
    exists b'. split_and!; [by eapply rtc_l| |].
    + rewrite Hh. unfold b1. cbn [bt_harts hs_todo hs_view]. apply list_insert_insert_eq.
    + intros x. rewrite (Hv x). unfold b1. cbn [bt_visible]. clear. set_solver.
Qed.

(** A hart that is not waiting can go on. *)
Lemma advance_hart b i h s rest : bt_harts b !! i = Some h → hs_todo h = s :: rest → (s = WaitStarted → Started ∈ hs_view h) →
  ∃ b', rtc boot_step b b' ∧ todo_total b' < todo_total b.
Proof.
  intros Hi Ht Hw.
  assert (Hless : ∀ b1 h1 v vis tr, bt_harts b1 !! i = Some h1 → hs_todo h1 = hs_todo h → hs_todo v = rest → todo_total b1 = todo_total b →
    todo_total (mkBoot (<[i := v]> (bt_harts b1)) vis tr) < todo_total b).
  { intros b1 h1 v vis tr Hi1 Ht1 Hv Heq. pose proof (todo_total_set b1 i h1 v vis tr Hi1) as H. rewrite Ht1, Ht, Hv in H. cbn [length] in H. lia. }
  destruct s as [c| | |].
  - eexists. split; [eapply rtc_once, BCall; [exact Hi|exact Ht]|]. by eapply Hless.
  - destruct (flush_all b i h Hi) as (b1 & Hr & Hh & _). set (h1 := mkHartSt (hs_todo h) [] (hs_view h)) in *.
    assert (Hi1 : bt_harts b1 !! i = Some h1) by (rewrite Hh; apply list_lookup_insert_eq; by eapply lookup_lt_Some).
    eexists. split; [eapply rtc_r; [exact Hr|eapply BFence; [exact Hi1|exact Ht|done]]|]. eapply Hless; [exact Hi1|done|done|].
    pose proof (todo_total_set b i h h1 (bt_visible b1) (bt_trace b1) Hi) as H. rewrite <- Hh in H. destruct b1. cbn in *. lia.
  - eexists. split; [eapply rtc_once, BSet; [exact Hi|exact Ht]|]. by eapply Hless.
  - eexists. split; [eapply rtc_once, BWait; [exact Hi|exact Ht|by apply Hw]|]. by eapply Hless.
Qed.

Lemma progress n b : boot_inv n b → (∃ i h, bt_harts b !! i = Some h ∧ hs_todo h ≠ []) → ∃ b', rtc boot_step b b' ∧ todo_total b' < todo_total b.
Proof.
  intros HI (i & h & Hi & Hne). destruct (hs_todo h) as [|s rest] eqn:Ht; [done|].
  destruct (decide (s = WaitStarted ∧ Started ∉ hs_view h)) as [[-> Hst]|Hok].
  2: { eapply advance_hart; [exact Hi|exact Ht|]. intros ->. destruct (decide (Started ∈ hs_view h)); [done|]. by destruct Hok. }
  destruct (bt_harts b !! 0) as [h0|] eqn:H0.
  2: { apply lookup_ge_None in H0. apply lookup_lt_Some in Hi. lia. }
  destruct (hs_todo h0) as [|s0 rest0] eqn:Ht0.
  2: { destruct (bi_todo _ _ HI 0 h0 H0) as [done Hd]. rewrite Ht0 in Hd. eapply advance_hart; [exact H0|exact Ht0|]. intros ->. by destruct (todo_first _ _ _ Hd). }
  destruct (flush_all b 0 h0 H0) as (b1 & Hr & Hh & Hv). assert (HI1 : boot_inv n b1) by (by eapply boot_inv_steps).
  assert (Hi0 : i ≠ 0) by (intros ->; congruence).
  assert (Hi1 : bt_harts b1 !! i = Some h) by (rewrite Hh, list_lookup_insert_ne; done).
  assert (Hvis : Started ∈ bt_visible b1) by (apply Hv, (bi_flag _ _ HI h0 H0); rewrite Ht0; cbn; lia).
  pose proof (BNotice b1 i h Started Hi1 Hvis) as Hstep. set (h2 := mkHartSt (hs_todo h) (hs_buffer h) (Started :: hs_view h)) in *.
  set (b2 := mkBoot _ _ _) in Hstep. assert (Hi2 : bt_harts b2 !! i = Some h2) by (apply list_lookup_insert_eq; by eapply lookup_lt_Some).
  destruct (advance_hart b2 i h2 _ rest Hi2 Ht) as (b3 & Hr3 & Hlt); [intros _; left|]. exists b3. split; [etransitivity; [exact Hr|]; by eapply rtc_l|].
  pose proof (todo_total_set b1 i h h2 (bt_visible b1) (bt_trace b1) Hi1) as E2. pose proof (todo_total_set b 0 h0 (mkHartSt (hs_todo h0) [] (hs_view h0)) (bt_visible b1) (bt_trace b1) H0) as E1.
  rewrite <- Hh in E1. unfold b2 in Hlt. destruct b1. cbn in *. lia.
Qed.

(** C21: [main] on any number of harts with weakly ordered memory.  A hart other
    than 0 makes a call only when it has noticed everything that hart 0 has
    initialised; every hart makes the calls of its branch of [main], in
    order and once; and from every state that can be reached the harts can go on until all
    are in the scheduler. *)
Theorem main_boots_in_order (n : nat) (b : Boot) (Hrun : rtc boot_step (boot_init n) b) :
  (∀ e, e ∈ bt_trace b → ev_hart e ≠ 0 → booted (ev_view e)) ∧
  (∀ i h, bt_harts b !! i = Some h → calls_of i (bt_trace b) ++ stmt_calls (hs_todo h) = stmt_calls (main i)) ∧
  ∃ b', rtc boot_step b b' ∧ ∀ i h, bt_harts b' !! i = Some h → hs_todo h = [].
Proof.
  assert (HI : boot_inv n b) by (eapply boot_inv_steps; [apply boot_inv_init|exact Hrun]). clear Hrun.
  split_and!; [by apply (bi_trace n)|by apply (bi_calls n)|]. remember (todo_total b) as k eqn:Hk. revert b HI Hk.
  induction (lt_wf k) as [k _ IH]; intros b HI Hk.
  destruct (decide (Forall (λ h, hs_todo h = []) (bt_harts b))) as [Hall|Hsome].
  { exists b. split; [done|]. intros i h Hi. by eapply (Forall_lookup_1 (λ h, hs_todo h = [])). }
  apply not_Forall_Exists in Hsome; [|apply _]. apply Exists_exists in Hsome as (h & [i Hi]%list_elem_of_lookup & Hne).
  destruct (progress n b HI) as (b1 & Hr & Hlt); [by exists i, h|].
  destruct (IH (todo_total b1)) with (b := b1) as (b2 & Hr2 & Hend); [lia|by eapply boot_inv_steps|done|]. exists b2. split; [by etransitivity|done].
Qed.

(** Two harts, one step. *)
Lemma main_boots_in_order_witness :
  let b := mkBoot [mkHartSt (tail (main 0)) [Called 0 CConsoleinit] [Called 0 CConsoleinit]; mkHartSt (main 1) [] []] [] [mkEvent 0 CConsoleinit []] in
  ∃ b', rtc boot_step b b' ∧ ∀ i h, bt_harts b' !! i = Some h → hs_todo h = [].
Proof.
  cbv zeta. apply (main_boots_in_order 2). apply rtc_once. exact (BCall (boot_init 2) 0 (mkHartSt (main 0) [] []) CConsoleinit (tail (main 0)) eq_refl eq_refl).
Defined.
