(* ===== verification/Start.v ===== *)
(** * Leaving machine mode

    start.c on the registers of a hart: the accessors of riscv.h for the
    machine-mode registers, [timerinit], [start] and the instruction mret at its end.
    Which bits of a register are writable is a property of the hardware. *)

From S2P Require Import Prelude Kernel.
Open Scope Z_scope.

Inductive Mode := UserMode | SupervisorMode | MachineMode.
(** Two bits of mstatus name a mode; 2 is reserved. *)
Definition mode_of (v : Z) : option Mode :=
  if v =? 0 then Some UserMode else if v =? 1 then Some SupervisorMode else if v =? 3 then Some MachineMode else None.

(** The registers that [start] reads and writes. *)
Record HartRegs := mkHart {
  h_mode : Mode; h_pc : Z; h_tp : Z; h_mhartid : Z; h_time : Z;
  h_mstatus : Z; h_mepc : Z; h_satp : Z; h_medeleg : Z; h_mideleg : Z; h_mie : Z;
  h_pmpaddr0 : Z; h_pmpcfg0 : Z; h_menvcfg : Z; h_mcounteren : Z; h_stimecmp : Z }.

(** The bits of each register that the hardware implements. *)
Class Hardware := { medeleg_bits : Z; mideleg_bits : Z; mie_bits : Z; menvcfg_bits : Z; mcounteren_bits : Z }.

Definition MSTATUS_MPP_MASK : Z := Z.shiftl 3 11.
Definition MSTATUS_MPP_S : Z := Z.shiftl 1 11.
Definition SIE_SEIE : Z := Z.shiftl 1 9.
Definition SIE_STIE : Z := Z.shiftl 1 5.
Definition MIE_STIE : Z := Z.shiftl 1 5.

Section Accessors.
Context `{Hardware}.

Definition r_mhartid (h : HartRegs) : Z := h_mhartid h.
Definition r_mstatus (h : HartRegs) : Z := h_mstatus h.
Definition r_mie (h : HartRegs) : Z := h_mie h.
Definition r_menvcfg (h : HartRegs) : Z := h_menvcfg h.
Definition r_mcounteren (h : HartRegs) : Z := h_mcounteren h.
Definition r_mtime (h : HartRegs) : Z := h_time h.
(** sie is the part of mie for the delegated interrupts. *)
Definition r_sie (h : HartRegs) : Z := Z.land (h_mie h) (h_mideleg h).

Definition w_mstatus (x : Z) (h : HartRegs) : HartRegs :=
  mkHart (h_mode h) (h_pc h) (h_tp h) (h_mhartid h) (h_time h) x (h_mepc h) (h_satp h) (h_medeleg h) (h_mideleg h) (h_mie h) (h_pmpaddr0 h) (h_pmpcfg0 h) (h_menvcfg h) (h_mcounteren h) (h_stimecmp h).
(** Bit 0 of mepc is always 0. *)
Definition w_mepc (x : Z) (h : HartRegs) : HartRegs :=
  mkHart (h_mode h) (h_pc h) (h_tp h) (h_mhartid h) (h_time h) (h_mstatus h) (Z.ldiff x 1) (h_satp h) (h_medeleg h) (h_mideleg h) (h_mie h) (h_pmpaddr0 h) (h_pmpcfg0 h) (h_menvcfg h) (h_mcounteren h) (h_stimecmp h).
Definition w_satp (x : Z) (h : HartRegs) : HartRegs :=
  mkHart (h_mode h) (h_pc h) (h_tp h) (h_mhartid h) (h_time h) (h_mstatus h) (h_mepc h) x (h_medeleg h) (h_mideleg h) (h_mie h) (h_pmpaddr0 h) (h_pmpcfg0 h) (h_menvcfg h) (h_mcounteren h) (h_stimecmp h).
Definition w_medeleg (x : Z) (h : HartRegs) : HartRegs :=
  mkHart (h_mode h) (h_pc h) (h_tp h) (h_mhartid h) (h_time h) (h_mstatus h) (h_mepc h) (h_satp h) (Z.land x medeleg_bits) (h_mideleg h) (h_mie h) (h_pmpaddr0 h) (h_pmpcfg0 h) (h_menvcfg h) (h_mcounteren h) (h_stimecmp h).
Definition w_mideleg (x : Z) (h : HartRegs) : HartRegs :=
  mkHart (h_mode h) (h_pc h) (h_tp h) (h_mhartid h) (h_time h) (h_mstatus h) (h_mepc h) (h_satp h) (h_medeleg h) (Z.land x mideleg_bits) (h_mie h) (h_pmpaddr0 h) (h_pmpcfg0 h) (h_menvcfg h) (h_mcounteren h) (h_stimecmp h).
Definition w_mie (x : Z) (h : HartRegs) : HartRegs :=
  mkHart (h_mode h) (h_pc h) (h_tp h) (h_mhartid h) (h_time h) (h_mstatus h) (h_mepc h) (h_satp h) (h_medeleg h) (h_mideleg h) (Z.land x mie_bits) (h_pmpaddr0 h) (h_pmpcfg0 h) (h_menvcfg h) (h_mcounteren h) (h_stimecmp h).
(** A write to sie changes the delegated bits of mie. *)
Definition w_sie (x : Z) (h : HartRegs) : HartRegs := w_mie (Z.lor (Z.ldiff (h_mie h) (h_mideleg h)) (Z.land x (h_mideleg h))) h.
Definition w_pmpaddr0 (x : Z) (h : HartRegs) : HartRegs :=
  mkHart (h_mode h) (h_pc h) (h_tp h) (h_mhartid h) (h_time h) (h_mstatus h) (h_mepc h) (h_satp h) (h_medeleg h) (h_mideleg h) (h_mie h) x (h_pmpcfg0 h) (h_menvcfg h) (h_mcounteren h) (h_stimecmp h).
Definition w_pmpcfg0 (x : Z) (h : HartRegs) : HartRegs :=
  mkHart (h_mode h) (h_pc h) (h_tp h) (h_mhartid h) (h_time h) (h_mstatus h) (h_mepc h) (h_satp h) (h_medeleg h) (h_mideleg h) (h_mie h) (h_pmpaddr0 h) x (h_menvcfg h) (h_mcounteren h) (h_stimecmp h).
Definition w_menvcfg (x : Z) (h : HartRegs) : HartRegs :=
  mkHart (h_mode h) (h_pc h) (h_tp h) (h_mhartid h) (h_time h) (h_mstatus h) (h_mepc h) (h_satp h) (h_medeleg h) (h_mideleg h) (h_mie h) (h_pmpaddr0 h) (h_pmpcfg0 h) (Z.land x menvcfg_bits) (h_mcounteren h) (h_stimecmp h).
Definition w_mcounteren (x : Z) (h : HartRegs) : HartRegs :=
  mkHart (h_mode h) (h_pc h) (h_tp h) (h_mhartid h) (h_time h) (h_mstatus h) (h_mepc h) (h_satp h) (h_medeleg h) (h_mideleg h) (h_mie h) (h_pmpaddr0 h) (h_pmpcfg0 h) (h_menvcfg h) (Z.land x mcounteren_bits) (h_stimecmp h).
Definition w_stimecmp (x : Z) (h : HartRegs) : HartRegs :=
  mkHart (h_mode h) (h_pc h) (h_tp h) (h_mhartid h) (h_time h) (h_mstatus h) (h_mepc h) (h_satp h) (h_medeleg h) (h_mideleg h) (h_mie h) (h_pmpaddr0 h) (h_pmpcfg0 h) (h_menvcfg h) (h_mcounteren h) x.
Definition w_tp (x : Z) (h : HartRegs) : HartRegs :=
  mkHart (h_mode h) (h_pc h) x (h_mhartid h) (h_time h) (h_mstatus h) (h_mepc h) (h_satp h) (h_medeleg h) (h_mideleg h) (h_mie h) (h_pmpaddr0 h) (h_pmpcfg0 h) (h_menvcfg h) (h_mcounteren h) (h_stimecmp h).

(** The bit field of [n] bits at [i]. *)
Definition field (v : Z) (i n : Z) : Z := Z.land (Z.shiftr v i) (Z.ones n).

(** The instruction mret: to mepc in the mode of MPP (bits 11 and 12); MIE
    (3) becomes MPIE (7), MPIE 1, MPP user mode, and MPRV (17) is cleared when
    machine mode is left.  [None] for a reserved MPP. *)
Definition mret_insn (h : HartRegs) : option HartRegs :=
  m ← mode_of (field (h_mstatus h) 11 2);
  let st := h_mstatus h in
  let st := if Z.testbit st 7 then Z.setbit st 3 else Z.clearbit st 3 in
  let st := Z.clearbit (Z.clearbit (Z.setbit st 7) 11) 12 in
  let st := match m with MachineMode => st | _ => Z.clearbit st 17 end in
  Some (mkHart m (h_mepc h) (h_tp h) (h_mhartid h) (h_time h) st (h_mepc h) (h_satp h) (h_medeleg h) (h_mideleg h) (h_mie h) (h_pmpaddr0 h) (h_pmpcfg0 h) (h_menvcfg h) (h_mcounteren h) (h_stimecmp h)).

Definition timerinit (h : HartRegs) : HartRegs :=
  let h := w_mie (Z.lor (r_mie h) MIE_STIE) h in
  let h := w_menvcfg (Z.lor (r_menvcfg h) (Z.shiftl 1 63)) h in
  let h := w_mcounteren (Z.lor (r_mcounteren h) 2) h in
  w_stimecmp (u64 (r_mtime h + 1000000)) h.

(** [start], with the address of [main]. *)
Definition start (main : Z) (h : HartRegs) : option HartRegs :=
  let x := r_mstatus h in
  let x := Z.ldiff x MSTATUS_MPP_MASK in
  let x := Z.lor x MSTATUS_MPP_S in
  let h := w_mstatus x h in
  let h := w_mepc main h in
  let h := w_satp 0 h in
  let h := w_medeleg 0xffff h in
  let h := w_mideleg 0xffff h in
  let h := w_sie (Z.lor (Z.lor (r_sie h) SIE_SEIE) SIE_STIE) h in
  let h := w_pmpaddr0 0x3fffffffffffff h in
  let h := w_pmpcfg0 0xf h in
  let h := timerinit h in
  let id := s32 (r_mhartid h) in
  let h := w_tp (u64 id) h in
  mret_insn h.
End Accessors.

(** ** What the registers mean *)

(** What the kernel needs the hardware to implement: delegation and enabling of
    supervisor timer (5) and external (9) interrupts, delegation of system
    calls from user mode (8) and of page faults (12, 13, 15), the Sstc
    extension (bit 63) and the counter enable of time (bit 1). *)
Record HardwareLaw (H : Hardware) : Prop := {
  hw_deleg : ∀ i, i = 5 ∨ i = 9 → Z.testbit mideleg_bits i = true ∧ Z.testbit mie_bits i = true;
  hw_except : ∀ i, i = 8 ∨ i = 12 ∨ i = 13 ∨ i = 15 → Z.testbit medeleg_bits i = true;
  hw_sstc : Z.testbit menvcfg_bits 63 = true;
  hw_time : Z.testbit mcounteren_bits 1 = true
}.

(** Interrupt [i] is taken in machine mode; by the supervisor when its own
    interrupts are on. *)
Definition machine_interrupt (h : HartRegs) (i : Z) : Prop := Z.testbit (h_mie h) i = true ∧ Z.testbit (h_mideleg h) i = false.
Definition supervisor_interrupt (h : HartRegs) (i : Z) : Prop := Z.testbit (h_mie h) i = true ∧ Z.testbit (h_mideleg h) i = true.

(** [start] can delegate interrupt [i]; and [i] was enabled, by a bit that exists. *)
Definition delegable `{Hardware} (i : Z) : Prop := 0 ≤ i < 16 ∧ Z.testbit mideleg_bits i = true.
Definition enabled_before `{Hardware} (h : HartRegs) (i : Z) : Prop := Z.testbit (h_mie h) i = true ∧ Z.testbit mie_bits i = true.

(** Entry 0 of the physical memory protection is a range from 0 (mode 1, "top
    of range") with all rights that contains address [a]. *)
Definition pmp_allows (h : HartRegs) (a : Z) : Prop :=
  field (h_pmpcfg0 h) 3 2 = 1 ∧ field (h_pmpcfg0 h) 0 3 = 7 ∧ 0 ≤ a < Z.shiftl (h_pmpaddr0 h) 2.

(** ** [start] reaches [main] *)

Lemma field_lookup v i n k : 0 ≤ k < n → 0 ≤ i → Z.testbit (field v i n) k = Z.testbit v (k + i).
Proof. intros Hk Hi. unfold field. rewrite Z.land_spec, Z.shiftr_spec, Z.ones_spec_low by lia. apply andb_true_r. Qed.
Lemma field2 v i a b : 0 ≤ i → Z.testbit v i = a → Z.testbit v (i + 1) = b → field v i 2 = Z.b2z a + 2 * Z.b2z b.
Proof.
  intros Hi Ha Hb. assert (H0 : Z.testbit (field v i 2) 0 = a) by (rewrite field_lookup by lia; by rewrite Z.add_0_l).
  assert (H1 : Z.testbit (field v i 2) 1 = b) by (rewrite field_lookup by lia; by rewrite Z.add_comm).
  assert (Hr : 0 ≤ field v i 2 < 4) by (unfold field; rewrite Z.land_ones by lia; apply Z.mod_pos_bound; lia).
  assert (field v i 2 = 0 ∨ field v i 2 = 1 ∨ field v i 2 = 2 ∨ field v i 2 = 3) as [E|[E|[E|E]]] by lia; rewrite E in H0, H1 |- *; rewrite <- H0, <- H1; reflexivity.
Qed.

Lemma start_status x : field (Z.lor (Z.ldiff x MSTATUS_MPP_MASK) MSTATUS_MPP_S) 11 2 = 1.
Proof. rewrite (field2 _ 11 true false); [done|lia| |]; rewrite Z.lor_spec, Z.ldiff_spec; [apply orb_true_r|]. rewrite andb_false_r. done. Qed.

(** The status word after [mret] from the word [start] has written. *)
Definition left_status (x : Z) : Z :=
  let st := Z.lor (Z.ldiff x MSTATUS_MPP_MASK) MSTATUS_MPP_S in
  let st := if Z.testbit st 7 then Z.setbit st 3 else Z.clearbit st 3 in
  Z.clearbit (Z.clearbit (Z.clearbit (Z.setbit st 7) 11) 12) 17.
Lemma left_status_other x i : 0 ≤ i → i ∉ [3; 7; 11; 12; 17] → Z.testbit (left_status x) i = Z.testbit x i.
Proof.
  intros H0 Hi. rewrite !not_elem_of_cons in Hi. destruct Hi as (H3 & H7 & H11 & H12 & H17 & _). unfold left_status.
  rewrite !Z.clearbit_neq, Z.setbit_neq by lia. assert (Hst : Z.testbit (Z.lor (Z.ldiff x MSTATUS_MPP_MASK) MSTATUS_MPP_S) i = Z.testbit x i).
  { unfold MSTATUS_MPP_MASK, MSTATUS_MPP_S. rewrite Z.lor_spec, Z.ldiff_spec.
    assert (Hs : ∀ v, (v = 1 ∨ v = 3) → Z.testbit (Z.shiftl v 11) i = false).
    { intros v Hv. destruct (decide (i < 11)); [apply Z.shiftl_spec_low; lia|]. rewrite Z.shiftl_spec by lia. apply Z.bits_above_log2; destruct Hv as [-> | ->]; cbn; lia. }
    rewrite !Hs by auto. cbn. by rewrite andb_true_r, orb_false_r. }
  destruct (Z.testbit _ 7); [rewrite Z.setbit_neq by lia|rewrite Z.clearbit_neq by lia]; exact Hst.
Qed.

(** The bits of mie at the end, from the bits [e] before. *)
Definition enabled_bits `{Hardware} (e : Z) : Z :=
  let deleg := Z.land 0xffff mideleg_bits in
  Z.land (Z.lor (Z.land (Z.lor (Z.ldiff e deleg) (Z.land (Z.lor (Z.lor (Z.land e deleg) SIE_SEIE) SIE_STIE) deleg)) mie_bits) MIE_STIE) mie_bits.
Lemma enabled_spec `{Hw : Hardware} e i :
  HardwareLaw Hw → Z.testbit (enabled_bits e) i = true ↔ i = 5 ∨ i = 9 ∨ (Z.testbit e i = true ∧ Z.testbit mie_bits i = true).
Proof.
  intros [L1 _ _ _]. unfold enabled_bits. cbv zeta. repeat first [rewrite Z.land_spec|rewrite Z.lor_spec|rewrite Z.ldiff_spec].
  unfold SIE_SEIE, SIE_STIE, MIE_STIE. change (Z.shiftl 1 9) with (2 ^ 9). change (Z.shiftl 1 5) with (2 ^ 5). repeat rewrite Z.pow2_bits_eqb by lia.
  destruct (Z.eqb_spec 9 i) as [<-|H9]; [destruct (L1 9) as [-> ->]; [by right|]; destruct (Z.testbit e 9); cbn; naive_solver|].
  destruct (Z.eqb_spec 5 i) as [<-|H5]; [destruct (L1 5) as [-> ->]; [by left|]; destruct (Z.testbit e 5); cbn; naive_solver|].
  destruct (Z.testbit e i), (Z.testbit mideleg_bits i), (Z.testbit mie_bits i), (Z.testbit 65535 i); cbn; naive_solver.
Qed.
Lemma low_bits i : Z.testbit 0xffff i = true ↔ 0 ≤ i < 16.
Proof.
  change 0xffff with (Z.ones 16). rewrite Z.testbit_ones by lia. rewrite andb_true_iff, Z.leb_le, Z.ltb_lt. done.
Qed.

Lemma start_run `{Hardware} main h :
  start main h = Some (mkHart SupervisorMode (Z.ldiff main 1) (u64 (s32 (h_mhartid h))) (h_mhartid h) (h_time h) (left_status (h_mstatus h)) (Z.ldiff main 1) 0
    (Z.land 0xffff medeleg_bits) (Z.land 0xffff mideleg_bits) (enabled_bits (h_mie h)) 0x3fffffffffffff 0xf (Z.land (Z.lor (h_menvcfg h) (Z.shiftl 1 63)) menvcfg_bits)
    (Z.land (Z.lor (h_mcounteren h) 2) mcounteren_bits) (u64 (h_time h + 1000000))).
Proof.
  unfold start, mret_insn, timerinit, w_sie, r_sie, r_mie.
  cbn [h_mode h_pc h_tp h_mhartid h_time h_mstatus h_mepc h_satp h_medeleg h_mideleg h_mie h_pmpaddr0 h_pmpcfg0 h_menvcfg h_mcounteren h_stimecmp w_mstatus w_mepc w_satp w_medeleg
    w_mideleg w_mie w_pmpaddr0 w_pmpcfg0 w_menvcfg w_mcounteren w_stimecmp w_tp r_mstatus r_mhartid r_menvcfg r_mcounteren r_mtime].
  rewrite start_status. reflexivity.
Qed.

(** C22: [start] leaves machine mode for [main] on every hart, whatever the
    registers held: supervisor mode at [main], paging off, the hart's number in
    tp; every physical address below 2^56 - 4 can be read, written and
    executed; timer and external interrupts, system calls and page faults go to
    the supervisor, which can program the timer and read the time; of the other
    interrupts exactly those stay enabled that were enabled before, so none
    after a reset that clears mie; the first timer interrupt is due in 1000000 cycles;
    the supervisor's interrupt flag and the other bits of the status register
    outside the return from machine mode are as they were. *)
Theorem start_reaches_main (H : Hardware) (main : Z) (h : HartRegs)
  (Hlaw : HardwareLaw H) (Hmain : Z.testbit main 0 = false) (Hid : 0 ≤ h_mhartid h < 2 ^ 31) :
  ∃ h', start main h = Some h' ∧ h_mode h' = SupervisorMode ∧ h_pc h' = main ∧ h_satp h' = 0 ∧ h_tp h' = h_mhartid h ∧
    (∀ a, 0 ≤ a < 2 ^ 56 - 4 → pmp_allows h' a) ∧
    (∀ i, supervisor_interrupt h' i ↔ i = 5 ∨ i = 9 ∨ (delegable i ∧ enabled_before h i)) ∧
    (∀ i, machine_interrupt h' i ↔ ¬ delegable i ∧ enabled_before h i) ∧
    (∀ i, i = 8 ∨ i = 12 ∨ i = 13 ∨ i = 15 → Z.testbit (h_medeleg h') i = true) ∧
    Z.testbit (h_menvcfg h') 63 = true ∧ Z.testbit (h_mcounteren h') 1 = true ∧ h_stimecmp h' = u64 (h_time h + 1000000) ∧
    (∀ i, 0 ≤ i → i ∉ [3; 7; 11; 12; 17] → Z.testbit (h_mstatus h') i = Z.testbit (h_mstatus h) i).
Proof.
  eexists. split; [apply start_run|]. cbn [h_mode h_pc h_satp h_tp h_medeleg h_menvcfg h_mcounteren h_stimecmp h_mstatus].
  unfold supervisor_interrupt, machine_interrupt, pmp_allows. cbn [h_mie h_mideleg h_pmpcfg0 h_pmpaddr0]. destruct Hlaw as [L1 L2 L3 L4].
  assert (Hdel : ∀ i, Z.testbit (Z.land 65535 mideleg_bits) i = true ↔ delegable i) by (intros i; rewrite Z.land_spec, andb_true_iff, low_bits; done).
  assert (H59 : ∀ i, i = 5 ∨ i = 9 → delegable i) by (intros i Hi; split; [lia|by apply L1]).
  split_and!; [done| |done| | | | | | | |done|].
  - apply Z.bits_inj'. intros n Hn. rewrite Z.ldiff_spec. destruct (decide (n = 0)) as [->|Hn0]; [by rewrite Hmain|].
    change 1 with (2 ^ 0). rewrite Z.pow2_bits_eqb by lia. rewrite (proj2 (Z.eqb_neq 0 n)) by lia. apply andb_true_r.
  - unfold s32, u32. rewrite Z.mod_small by lia. rewrite (proj2 (Z.ltb_lt _ _)) by lia. unfold u64. apply Z.mod_small. lia.
  - intros a Ha. split_and!; [reflexivity|reflexivity|lia|]. change (Z.shiftl _ 2) with (2 ^ 56 - 4). lia.
  - intros i. rewrite enabled_spec, Hdel by done. unfold enabled_before. naive_solver.
  - intros i. rewrite enabled_spec by done. rewrite <- not_true_iff_false, Hdel. unfold enabled_before. naive_solver.
  - intros i Hi. rewrite Z.land_spec, L2 by done. by destruct Hi as [-> |[-> |[-> | ->]]].
  - rewrite Z.land_spec, Z.lor_spec, L3. by rewrite orb_true_r.
  - rewrite Z.land_spec, Z.lor_spec, L4. by rewrite orb_true_r.
  - intros i H0 Hi. by apply left_status_other.
Qed.

(** Hardware that implements the supervisor interrupts (bits 1, 5 and 9) and
    no delegation of calls from machine mode (bit 11). *)
Definition sample_hardware : Hardware :=
  {| medeleg_bits := 0xb3ff; mideleg_bits := 0x222; mie_bits := 0xaaa; menvcfg_bits := Z.shiftl 1 63; mcounteren_bits := 7 |}.
Lemma sample_hardware_law : HardwareLaw sample_hardware.
Proof. split; [|intros i [-> |[-> |[-> | ->]]]; reflexivity|reflexivity|reflexivity]. intros i [-> | ->]; split; reflexivity. Qed.
Definition reset_regs : HartRegs := mkHart MachineMode 0x1000 0 2 77 0xa00001800 0 5 0 0 0 0 0 0 0 0.
Lemma start_reaches_main_witness : ∃ h', @start sample_hardware 0x80000a2e reset_regs = Some h' ∧ h_mode h' = SupervisorMode ∧ h_pc h' = 0x80000a2e ∧ h_tp h' = 2.
Proof.
  destruct (start_reaches_main sample_hardware 0x80000a2e reset_regs) as (h' & H1 & H2 & H3 & _ & H4 & _).
  - exact sample_hardware_law.
  - reflexivity.
  - cbn. lia.
  - exists h'. split; [exact H1|]. split; [exact H2|]. split; [exact H3|exact H4].
Defined.
