(* ===== verification/Bio.v ===== *)
(** * Sleep locks (sleeplock.c) and the buffer cache (bio.c)

    The doubly linked LRU list is the list of buffer numbers from the most to
    the least recently used.  The disk driver is an interface: the law says
    that the transfer is complete when it returns. *)

From S2P Require Import Prelude CString Kernel KLogic Spinlock KMem Kalloc Vm Proc.
Open Scope Z_scope.
Open Scope os_scope.


(** Access to the parts of the file system state. *)
Definition set_bufs (v : list Buf) (s : KState) : KState :=
  set_fs (mkFs v (fs_lru (fs s)) (fs_log (fs s)) (fs_sb (fs s)) (fs_disk (fs s))) s.
Definition set_lru (v : list nat) (s : KState) : KState :=
  set_fs (mkFs (fs_bufs (fs s)) v (fs_log (fs s)) (fs_sb (fs s)) (fs_disk (fs s))) s.
Definition set_log (v : LogState) (s : KState) : KState :=
  set_fs (mkFs (fs_bufs (fs s)) (fs_lru (fs s)) v (fs_sb (fs s)) (fs_disk (fs s))) s.
Definition set_sb (v : SuperBlock) (s : KState) : KState :=
  set_fs (mkFs (fs_bufs (fs s)) (fs_lru (fs s)) (fs_log (fs s)) v (fs_disk (fs s))) s.
Definition set_disk (v : list (Z * list Z)) (s : KState) : KState :=
  set_fs (mkFs (fs_bufs (fs s)) (fs_lru (fs s)) (fs_log (fs s)) (fs_sb (fs s)) v) s.

(** The contents of a block after the writes [h]; a block never written holds
    zeroes. *)
Fixpoint block (h : list (Z * list Z)) (b : Z) : list Z :=
  match h with
  | [] => replicate BSIZE 0
  | (k, d) :: h' => if k =? b then d else block h' b
  end.

Definition with_lock (l : Sleeplock) (b : Buf) : Buf :=
  mkBuf (b_valid b) (b_dev b) (b_blockno b) l (b_refcnt b) (b_data b).
Definition with_refcnt (n : Z) (b : Buf) : Buf :=
  mkBuf (b_valid b) (b_dev b) (b_blockno b) (b_lock b) n (b_data b).
Definition with_valid (v : bool) (b : Buf) : Buf :=
  mkBuf v (b_dev b) (b_blockno b) (b_lock b) (b_refcnt b) (b_data b).
Definition with_data (d : list Z) (b : Buf) : Buf :=
  mkBuf (b_valid b) (b_dev b) (b_blockno b) (b_lock b) (b_refcnt b) d.
Definition recycle (dev blockno : Z) (b : Buf) : Buf :=
  mkBuf false dev blockno (b_lock b) 1 (b_data b).
Definition with_ilock (l : Sleeplock) (ip : Inode) : Inode :=
  mkInode (i_dev ip) (i_inum ip) (i_ref ip) l (i_valid ip) (i_type ip) (i_major ip) (i_minor ip)
    (i_nlink ip) (i_size ip) (i_addrs ip).

Definition getb (i : nat) : M Buf := o ← gets (λ s, fs_bufs (fs s) !! i); need o.
Definition putb (i : nat) (f : Buf → Buf) : M unit :=
  b ← getb i; modify (λ s, set_bufs (<[i := f b]> (fs_bufs (fs s))) s).
Definition geti (k : nat) : M Inode := o ← gets (λ s, itable s !! k); need o.
Definition puti (k : nat) (f : Inode → Inode) : M unit :=
  ip ← geti k; modify (λ s, set_itable (<[k := f ip]> (itable s)) s).

(** The disk driver: [virtio_disk_rw b write]. *)
Class Disk := { virtio_disk_rw : nat → bool → M unit }.

(** What the driver promises: when it returns, the buffer holds the block, or
    the block holds the buffer; nothing else has changed. *)
Class DiskLaw (D : Disk) := {
  disk_reads : ∀ E i b s (Q : unit → KState → Prop), fs_bufs (fs s) !! i = Some b →
    (∀ s', s' ≡k set_bufs (<[i := with_data (block (fs_disk (fs s)) (b_blockno b)) b]> (fs_bufs (fs s))) s → Q tt s') →
    wp E (virtio_disk_rw i false) Q s;
  disk_writes : ∀ E i b s (Q : unit → KState → Prop), fs_bufs (fs s) !! i = Some b →
    (∀ s', s' ≡k set_disk ((b_blockno b, b_data b) :: fs_disk (fs s)) s → Q tt s') →
    wp E (virtio_disk_rw i true) Q s
}.

(** A driver that waits for the device. *)
Definition polled_disk : Disk := {| virtio_disk_rw := λ i write,
  b ← getb i;
  if write : bool then modify (λ s, set_disk ((b_blockno b, b_data b) :: fs_disk (fs s)) s)
  else modify (λ s, set_bufs (<[i := with_data (block (fs_disk (fs s)) (b_blockno b)) b]> (fs_bufs (fs s))) s) |}.

#[global] Instance polled_disk_law : DiskLaw polled_disk.
Proof.
  split; intros E i b s Q Hb HQ; cbn; unfold getb; ksteps; by apply HQ.
Qed.

Section Bio.
Context `{KernelImage} `{Disk}.
(** How often a lock that is held may send the caller to sleep. *)
Context (sleeps : nat).

(** ** sleeplock.c *)

(** Sleep lock [n] is that of buffer [n], then that of inode [n - NBUF]. *)
Definition get_sleep (n : nat) : M Sleeplock :=
  if (n <? NBUF)%nat then b ← getb n; mret (b_lock b) else ip ← geti (n - NBUF); mret (i_lock ip).
Definition put_sleep (n : nat) (l : Sleeplock) : M unit :=
  if (n <? NBUF)%nat then putb n (with_lock l) else puti (n - NBUF) (with_ilock l).

Definition initsleeplock (n : nat) : M unit :=
  initlock (Lsleep (Z.of_nat n)) "sleep lock";;
  put_sleep n (mkSleep false 0).

Fixpoint sleep_while_locked (fuel : nat) (n : nat) : M unit :=
  l ← get_sleep n;
  if sl_locked l then
    match fuel with
    | O => halt NoFuel
    | S f => sleep (slock_addr n) (Lsleep (Z.of_nat n));; sleep_while_locked f n
    end
  else mret tt.

Definition acquiresleep (n : nat) : M unit :=
  acquire (Lsleep (Z.of_nat n));;
  sleep_while_locked sleeps n;;
  i ← curproc;
  p ← getp i;
  put_sleep n (mkSleep true (p_pid p));;
  release (Lsleep (Z.of_nat n)).

Definition releasesleep (n : nat) : M unit :=
  acquire (Lsleep (Z.of_nat n));;
  put_sleep n (mkSleep false 0);;
  wakeup (slock_addr n);;
  release (Lsleep (Z.of_nat n)).

Definition holdingsleep (n : nat) : M bool :=
  acquire (Lsleep (Z.of_nat n));;
  l ← get_sleep n;
  r ← (if sl_locked l then i ← curproc; p ← getp i; mret (sl_pid l =? p_pid p) else mret false);
  release (Lsleep (Z.of_nat n));;
  mret r.

(** ** bio.c *)

Fixpoint binit_loop (l : list nat) : M unit :=
  match l with
  | [] => mret tt
  | i :: l' =>
      initsleeplock i;;
      modify (λ s, set_lru (i :: fs_lru (fs s)) s);;
      binit_loop l'
  end.
Definition binit : M unit :=
  initlock Lbcache "bcache";;
  modify (set_lru []);;
  binit_loop (seq 0 NBUF).

(** The first buffer in a list that satisfies a test. *)
Fixpoint scan_bufs (test : Buf → bool) (l : list nat) : M (option nat) :=
  match l with
  | [] => mret None
  | i :: l' => b ← getb i; if test b then mret (Some i) else scan_bufs test l'
  end.

Definition bget (dev blockno : Z) : M nat :=
  acquire Lbcache;;
  lru ← gets (λ s, fs_lru (fs s));
  hit ← scan_bufs (λ b, (b_dev b =? dev) && (b_blockno b =? blockno)) lru;
  match hit with
  | Some i =>
      putb i (λ b, with_refcnt (u32 (b_refcnt b + 1)) b);;
      release Lbcache;;
      acquiresleep i;;
      mret i
  | None =>
      free ← scan_bufs (λ b, b_refcnt b =? 0) (reverse lru);
      match free with
      | Some i =>
          putb i (recycle dev blockno);;
          release Lbcache;;
          acquiresleep i;;
          mret i
      | None => panic "bget: no buffers"
      end
  end.

Definition bread (dev blockno : Z) : M nat :=
  i ← bget dev blockno;
  b ← getb i;
  when (negb (b_valid b)) (virtio_disk_rw i false;; putb i (with_valid true));;
  mret i.

Definition bwrite (i : nat) : M unit :=
  h ← holdingsleep i;
  if negb h then panic "bwrite" else virtio_disk_rw i true.

Definition brelse (i : nat) : M unit :=
  h ← holdingsleep i;
  if negb h then panic "brelse" else
  releasesleep i;;
  acquire Lbcache;;
  putb i (λ b, with_refcnt (u32 (b_refcnt b - 1)) b);;
  b ← getb i;
  when (b_refcnt b =? 0)
    (modify (λ s, set_lru (i :: filter (λ j, j ≠ i) (fs_lru (fs s))) s));;
  release Lbcache.

Definition bpin (i : nat) : M unit :=
  acquire Lbcache;;
  putb i (λ b, with_refcnt (u32 (b_refcnt b + 1)) b);;
  release Lbcache.
Definition bunpin (i : nat) : M unit :=
  acquire Lbcache;;
  putb i (λ b, with_refcnt (u32 (b_refcnt b - 1)) b);;
  release Lbcache.
End Bio.
