(* ===== verification/BioSpec.v ===== *)
(** * The buffer cache refines a map of pinned blocks

    While no other process competes for buffers, the cache behaves as a finite
    map from the block numbers in use to their reference count, lock and
    contents; a block that is not in use has the contents of the disk.
    [idle]: the process [me] runs, and none of the locks the cache needs is
    held.  [after s f s']: [s'] is [s] with the file system state [f] and
    some sleeping processes woken. *)

From S2P Require Import Prelude CString Kernel KLogic Spinlock KMem Kalloc Vm VmSpec VmUser Proc ProcSpec Bio.
Open Scope Z_scope.
Open Scope os_scope.

(** ** Critical sections *)

Lemma keq_syn s t : s ≡k t → noff (cpu t) ≠ 0 → syn s = syn t.
Proof.
  intros Heq Hn. pose proof (keq_intena _ _ Heq Hn) as H1. pose proof (keq_locks _ _ Heq).
  pose proof (keq_hart _ _ Heq). pose proof (keq_sie _ _ Heq). pose proof (keq_noff _ _ Heq). pose proof (keq_proc _ _ Heq).
  destruct s as [[? ? [] ?] ?], t as [[? ? [] ?] ?]. cbn in *. by subst.
Qed.

Lemma wp_unlock E l (Q : unit → KState → Prop) s t :
  lock_free s l → sync_ok s → syn t = syn (acq l s) →
  (∀ s', s' ≡k restore s t → Q tt s') → wp E (release l) Q t.
Proof.
  intros Hl Hs Hy HQ. apply wp_release.
  - unfold lock_mine. rewrite Hy. apply acq_mine.
  - rewrite Hy. done.
  - rewrite Hy. destruct Hs. cbn. lia.
  - apply HQ. by apply rel_restore.
Qed.

(** ** Woken processes *)

Definition woke (p q : Proc) : Prop := q = p ∨ q = with_state RUNNABLE p.
Lemma woke_pid p q : woke p q → p_pid q = p_pid p.
Proof. by intros [-> | ->]. Qed.

Definition after (s : KState) (f : FsState) (s' : KState) : Prop :=
  ∃ P, Forall2 woke (procs s) P ∧ s' ≡k set_fs f (set_procs P s).

Lemma woke_refl ps : Forall2 woke ps ps.
Proof. apply Forall_Forall2_diag, Forall_forall. intros p _. by left. Qed.
Lemma woke_trans ps qs rs : Forall2 woke ps qs → Forall2 woke qs rs → Forall2 woke ps rs.
Proof.
  intros H. revert rs. induction H as [|p q ps qs Hpq _ IH]; intros rs H'; inversion H' as [|? r ? ? Hqr H'']; subst; constructor; [|by apply IH].
  destruct Hpq as [-> | ->], Hqr as [-> | ->]; [by left|by right|by right|by right].
Qed.
Lemma woke_imap o chan ps : Forall2 woke ps (imap (wake_one o chan) ps).
Proof.
  apply Forall2_same_length_lookup. split; [by rewrite length_imap|]. intros j p q Hp Hq.
  rewrite list_lookup_imap, Hp in Hq. injection Hq as <-. unfold wake_one, woke.
  case_decide; [by left|]. destruct (bool_decide _ && _); [by right|by left].
Qed.

Lemma after_keq s f s' : s' ≡k set_fs f s → after s f s'.
Proof. intros Heq. exists (procs s). split; [apply woke_refl|]. by rewrite set_procs_same. Qed.
Lemma after_same s s' : s' ≡k s → after s (fs s) s'.
Proof. intros Heq. apply after_keq. rewrite Heq. by destruct s as [? []]. Qed.
Lemma after_trans s f1 s1 f2 s2 : after s f1 s1 → after s1 f2 s2 → after s f2 s2.
Proof.
  intros (P1 & H1 & E1) (P2 & H2 & E2). exists P2. split.
  - eapply woke_trans; [exact H1|]. by rewrite (keq_procs _ _ E1) in H2.
  - rewrite E2, E1. done.
Qed.
Lemma after_fs s f s' : after s f s' → fs s' = f.
Proof. intros (P & _ & E). exact (keq_fs _ _ E). Qed.

(** ** Idle states *)

Record idle (me : nat) (pid : Z) (s : KState) : Prop := {
  id_table : table_free s;
  id_me : c_proc (cpu s) = Some me;
  id_pid : ∃ p, procs s !! me = Some p ∧ p_pid p = pid;
  id_bcache : lock_free s Lbcache;
  id_sleep : ∀ n, (n < NBUF)%nat → lock_free s (Lsleep (Z.of_nat n))
}.

Lemma idle_sync me pid s : idle me pid s → sync_ok s.
Proof. intros H. apply (id_table _ _ _ H). Qed.

Lemma after_free s f s' l : after s f s' → lock_free s l → lock_free s' l.
Proof. intros (P & _ & Heq) Hl. by rewrite Heq. Qed.
Lemma idle_after me pid s f s' : idle me pid s → after s f s' → idle me pid s'.
Proof.
  intros [H1 H2 (p & Hp & Hpid) H4 H5] Ha. pose proof (λ l, after_free s f s' l Ha) as Hlf. destruct Ha as (P & HP & Heq).
  split; [|by rewrite (keq_proc _ _ Heq)| |auto|auto].
  - destruct H1 as (A & B & C). split_and!; [by rewrite Heq| |intros j Hj; apply Hlf, C, Hj].
    rewrite (keq_procs _ _ Heq). cbn. by rewrite <- (Forall2_length _ _ _ HP).
  - destruct (Forall2_lookup_l _ _ _ _ _ HP Hp) as (q & Hq & Hw). exists q.
    rewrite (keq_procs _ _ Heq). split; [exact Hq|]. by rewrite (woke_pid _ _ Hw).
Qed.

(** ** Buffers *)

Definition with_bufs (v : list Buf) (f : FsState) : FsState := mkFs v (fs_lru f) (fs_log f) (fs_sb f) (fs_disk f).
Definition with_lru (v : list nat) (f : FsState) : FsState := mkFs (fs_bufs f) v (fs_log f) (fs_sb f) (fs_disk f).
Definition with_disk (v : list (Z * list Z)) (f : FsState) : FsState :=
  mkFs (fs_bufs f) (fs_lru f) (fs_log f) (fs_sb f) v.

Lemma wp_getb E i b (Q : Buf → KState → Prop) s : fs_bufs (fs s) !! i = Some b → Q b s → wp E (getb i) Q s.
Proof. intros Hb HQ. unfold getb. by ksteps. Qed.
Lemma wp_putb E i b g (Q : unit → KState → Prop) s :
  fs_bufs (fs s) !! i = Some b → Q tt (set_bufs (<[i := g b]> (fs_bufs (fs s))) s) → wp E (putb i g) Q s.
Proof. intros Hb HQ. unfold putb. apply wp_bind. eapply wp_getb; [done|]. by apply wp_modify. Qed.

Lemma wp_putb_same E i x f g (Q : unit → KState → Prop) s :
  fs_bufs (fs s) !! i = Some x → f x = g x → wp E (putb i g) Q s → wp E (putb i f) Q s.
Proof.
  intros Hx Hfg Hg. unfold putb, getb, wp in *. revert Hg. keval. rewrite Hx. keval. by rewrite Hfg.
Qed.

Section Bio.
Context {IMG : KernelImage} {D : Disk} {DL : DiskLaw D} (sleeps : nat) (me : nat) (pid : Z).

(** The current process inside a critical section. *)
Lemma wp_me E l s t (Q : nat → KState → Prop) :
  idle me pid s → syn t = syn (acq l s) → (∀ t', syn t' = syn t → dat t' = dat t → Q me t') → wp E curproc Q t.
Proof.
  intros Hid Hy HQ. assert (Hst : sync_ok t).
  { unfold sync_ok. rewrite Hy. apply (acq_sync l s), (idle_sync _ _ _ Hid). }
  eapply wp_curproc; [exact Hst|rewrite Hy; apply (id_me _ _ _ Hid)|].
  intros t' Heq. apply HQ; [|apply (keq_dat _ _ Heq)]. apply keq_syn; [done|].
  rewrite Hy. pose proof (idle_sync _ _ _ Hid) as [? _]. cbn. lia.
Qed.

Lemma wp_acquiresleep E n b (Q : unit → KState → Prop) s :
  idle me pid s → (n < NBUF)%nat → fs_bufs (fs s) !! n = Some b → sl_locked (b_lock b) = false →
  (∀ s', s' ≡k set_bufs (<[n := with_lock (mkSleep true pid) b]> (fs_bufs (fs s))) s → Q tt s') →
  wp E (acquiresleep sleeps n) Q s.
Proof.
  intros Hid Hn Hb Hl HQ. unfold acquiresleep. set (l := Lsleep (Z.of_nat n)).
  pose proof (id_sleep _ _ _ Hid n Hn) as Hfree. destruct (id_pid _ _ _ Hid) as (p & Hp & Hpid).
  apply wp_bind, wp_acquire; [exact Hfree|]. apply wp_bind.
  assert (Hloop : ∀ Q, Q tt (acq l s) → wp E (sleep_while_locked sleeps n) Q (acq l s)).
  { intros Q' HQ'. destruct sleeps; cbn [sleep_while_locked]; unfold get_sleep;
      rewrite (proj2 (Nat.ltb_lt _ _) Hn); repeat apply wp_bind; (eapply wp_getb; [exact Hb|]);
      apply wp_ret; rewrite Hl; by apply wp_ret. }
  apply Hloop. apply wp_bind. apply (wp_me E l s); [done|done|]. intros t Hy Hd.
  apply wp_bind. eapply (wp_getp _ me p); [by rewrite Hd|]. apply wp_bind. unfold put_sleep.
  rewrite (proj2 (Nat.ltb_lt _ _) Hn). eapply wp_putb; [rewrite Hd; exact Hb|].
  apply (wp_unlock E l _ s); [exact Hfree|by eapply idle_sync|exact Hy|].
  intros s' Hs'. apply HQ. rewrite Hs', <- Hpid. destruct s as [y d], t as [y' d']. cbn in *. by subst.
Qed.

Lemma wp_holdingsleep E n b (Q : bool → KState → Prop) s :
  idle me pid s → (n < NBUF)%nat → fs_bufs (fs s) !! n = Some b → b_lock b = mkSleep true pid →
  (∀ s', s' ≡k s → Q true s') → wp E (holdingsleep n) Q s.
Proof.
  intros Hid Hn Hb Hl HQ. unfold holdingsleep. set (l := Lsleep (Z.of_nat n)).
  pose proof (id_sleep _ _ _ Hid n Hn) as Hfree. destruct (id_pid _ _ _ Hid) as (p & Hp & Hpid).
  apply wp_bind, wp_acquire; [exact Hfree|]. apply wp_bind. unfold get_sleep.
  rewrite (proj2 (Nat.ltb_lt _ _) Hn). apply wp_bind. eapply wp_getb; [exact Hb|]. apply wp_ret.
  rewrite Hl. cbn [sl_locked sl_pid]. apply wp_bind, wp_bind.
  apply (wp_me E l s); [done|done|]. intros t Hy Hd. apply wp_bind.
  eapply (wp_getp _ me p); [by rewrite Hd|]. apply wp_ret. rewrite Hpid, Z.eqb_refl. apply wp_bind.
  apply (wp_unlock E l _ s); [exact Hfree|by eapply idle_sync|exact Hy|].
  intros s' Hs'. apply wp_ret, HQ. rewrite Hs'. destruct s as [y d], t as [y' d']. cbn in *. by subst.
Qed.

Lemma wp_releasesleep E n b (Q : unit → KState → Prop) s :
  idle me pid s → (n < NBUF)%nat → fs_bufs (fs s) !! n = Some b →
  (∀ s', after s (with_bufs (<[n := with_lock (mkSleep false 0) b]> (fs_bufs (fs s))) (fs s)) s' → Q tt s') →
  wp E (releasesleep n) Q s.
Proof.
  intros Hid Hn Hb HQ. unfold releasesleep. set (l := Lsleep (Z.of_nat n)).
  pose proof (id_sleep _ _ _ Hid n Hn) as Hfree. pose proof (idle_sync _ _ _ Hid) as Hs.
  apply wp_bind, wp_acquire; [exact Hfree|]. apply wp_bind. unfold put_sleep.
  rewrite (proj2 (Nat.ltb_lt _ _) Hn). eapply wp_putb; [exact Hb|]. apply wp_bind.
  set (t := set_bufs _ _). destruct (id_table _ _ _ Hid) as (_ & Hlen & Hlk).
  apply wp_wakeup; [apply (acq_sync l s Hs)|exact Hlen|intros j Hj _; apply (acq_free l (Lproc j) s); [done|by apply Hlk]|].
  intros t' Heq. assert (Hy : syn t' = syn (acq l s)).
  { apply (keq_syn _ _ Heq). destruct Hs. cbn. lia. }
  apply (wp_unlock E l _ s); [exact Hfree|done|exact Hy|].
  intros s' Hs'. apply HQ. eexists. split; [apply (woke_imap (c_proc (cpu s)) (slock_addr n))|].
  rewrite Hs'. unfold restore. rewrite (keq_dat _ _ Heq). by destruct s.
Qed.

(** ** [bget] on the concrete cache *)

(** The first buffer of [l] that passes the test. *)
Fixpoint first_buf (bufs : list Buf) (test : Buf → bool) (l : list nat) : option nat :=
  match l with
  | [] => None
  | i :: l' => match bufs !! i with
               | Some b => if test b then Some i else first_buf bufs test l'
               | None => first_buf bufs test l'
               end
  end.

Lemma first_buf_Some bufs test l i :
  first_buf bufs test l = Some i → ∃ b, bufs !! i = Some b ∧ test b = true.
Proof.
  induction l as [|j l IH]; cbn; [done|]. destruct (bufs !! j) as [b|] eqn:Hb; [|done].
  destruct (test b) eqn:Ht; [|done]. intros [= <-]. eauto.
Qed.
Lemma first_buf_None bufs test l i b :
  first_buf bufs test l = None → i ∈ l → bufs !! i = Some b → test b = false.
Proof.
  intros Hf Hi Hb. induction l as [|j l IH]; cbn in Hf; [by apply not_elem_of_nil in Hi|].
  apply elem_of_cons in Hi as [<-|Hi].
  - rewrite Hb in Hf. by destruct (test b).
  - apply IH; [|done]. destruct (bufs !! j) as [c|]; [|done]. by destruct (test c).
Qed.

Lemma wp_scan_bufs E test l (Q : option nat → KState → Prop) s :
  (∀ i, i ∈ l → (i < length (fs_bufs (fs s)))%nat) →
  Q (first_buf (fs_bufs (fs s)) test l) s → wp E (scan_bufs test l) Q s.
Proof.
  induction l as [|i l IH]; intros Hin HQ; cbn [scan_bufs first_buf] in *; [by apply wp_ret|].
  destruct (lookup_lt_is_Some_2 (fs_bufs (fs s)) i) as [b Hb]; [apply Hin; set_solver|].
  apply wp_bind. eapply wp_getb; [exact Hb|]. rewrite Hb in HQ. destruct (test b); [by apply wp_ret|].
  apply IH; [|done]. intros j Hj. apply Hin. set_solver.
Qed.

Definition is_block (dev blockno : Z) (b : Buf) : bool := (b_dev b =? dev) && (b_blockno b =? blockno).
Definition is_unused (b : Buf) : bool := b_refcnt b =? 0.

(** The buffer [bget] takes, and what becomes of it. *)
Definition bget_pick (f : FsState) (dev blockno : Z) : option (nat * (Buf → Buf)) :=
  match first_buf (fs_bufs f) (is_block dev blockno) (fs_lru f) with
  | Some i => Some (i, λ b, with_refcnt (u32 (b_refcnt b + 1)) b)
  | None => match first_buf (fs_bufs f) is_unused (reverse (fs_lru f)) with
            | Some i => Some (i, recycle dev blockno)
            | None => None
            end
  end.

Lemma wp_bget E dev blockno i g b (Q : nat → KState → Prop) s :
  idle me pid s → (∀ j, j ∈ fs_lru (fs s) → (j < length (fs_bufs (fs s)))%nat) → length (fs_bufs (fs s)) = NBUF →
  bget_pick (fs s) dev blockno = Some (i, g) → fs_bufs (fs s) !! i = Some b → sl_locked (b_lock (g b)) = false →
  (∀ s', s' ≡k set_bufs (<[i := with_lock (mkSleep true pid) (g b)]> (fs_bufs (fs s))) s → Q i s') →
  wp E (bget sleeps dev blockno) Q s.
Proof.
  intros Hid Hlru Hlen Hpick Hb Hl HQ. unfold bget.
  pose proof (id_bcache _ _ _ Hid) as Hfree. pose proof (idle_sync _ _ _ Hid) as Hs.
  assert (Hi : (i < NBUF)%nat) by (rewrite <- Hlen; by eapply lookup_lt_Some).
  assert (Htail : wp E (putb i g;; release Lbcache;; acquiresleep sleeps i;; mret i) Q (acq Lbcache s)).
  { apply wp_bind. eapply wp_putb; [exact Hb|]. apply wp_bind.
    apply (wp_unlock E Lbcache _ s); [done|done|done|]. intros s1 Hs1.
    assert (Heq1 : s1 ≡k set_bufs (<[i := g b]> (fs_bufs (fs s))) s) by (rewrite Hs1; by destruct s).
    pose proof (keq_fs _ _ Heq1) as Hf1. apply wp_bind. eapply (wp_acquiresleep E i (g b)).
    - eapply idle_after; [exact Hid|]. apply after_keq. exact Heq1.
    - exact Hi.
    - rewrite Hf1. apply list_lookup_insert_eq. by rewrite Hlen.
    - exact Hl.
    - intros s2 Hs2. apply wp_ret, HQ. rewrite Hs2, Hf1. cbn [fs_bufs set_bufs set_fs dat d_fs].
      rewrite list_insert_insert_eq. unfold set_bufs at 1. rewrite Hf1, Heq1. done. }
  apply wp_bind, wp_acquire; [exact Hfree|]. apply wp_bind, wp_gets. apply wp_bind.
  apply wp_scan_bufs; [exact Hlru|]. change (fs (acq Lbcache s)) with (fs s).
  unfold bget_pick, is_block in Hpick.
  destruct (first_buf _ _ (fs_lru (fs s))) as [j|]; [by injection Hpick as <- <-|].
  apply wp_bind, wp_scan_bufs; [intros j Hj; apply Hlru; by apply elem_of_reverse|].
  change (fs (acq Lbcache s)) with (fs s). change (λ b0, b_refcnt b0 =? 0) with is_unused.
  destruct (first_buf _ _ (reverse (fs_lru (fs s)))) as [j|]; [by injection Hpick as <- <-|done].
Qed.
End Bio.

(** ** The abstract cache *)

(** A block in use: its buffer, reference count, sleep lock and contents. *)
Record Ent := mkEnt { e_buf : nat; e_ref : Z; e_lock : Sleeplock; e_data : list Z }.
Definition unlocked : Sleeplock := mkSleep false 0.
Definition ent_buf (dv bn : Z) (e : Ent) : Buf := mkBuf true dv bn (e_lock e) (e_ref e) (e_data e).

(** The cache [f] of device [dv] holds the blocks [A]. *)
Record rep (dv : Z) (f : FsState) (A : gmap Z Ent) : Prop := {
  rep_lru : fs_lru f ≡ₚ seq 0 NBUF;
  rep_len : length (fs_bufs f) = NBUF;
  rep_in : ∀ bn e, A !! bn = Some e → fs_bufs f !! e_buf e = Some (ent_buf dv bn e) ∧ 0 < e_ref e < 2 ^ 32;
  rep_out : ∀ i b, fs_bufs f !! i = Some b → b_refcnt b ≠ 0 → ∃ e, A !! b_blockno b = Some e ∧ e_buf e = i;
  rep_free : ∀ i b, fs_bufs f !! i = Some b → b_refcnt b = 0 →
    sl_locked (b_lock b) = false ∧ (b_dev b = dv → b_valid b = true → b_data b = block (fs_disk f) (b_blockno b));
  rep_uniq : ∀ i j b c, fs_bufs f !! i = Some b → fs_bufs f !! j = Some c →
    b_dev b = dv → b_dev c = dv → b_blockno b = b_blockno c → i = j
}.

Lemma rep_lru_lt dv f A j : rep dv f A → j ∈ fs_lru f → (j < length (fs_bufs f))%nat.
Proof. intros [HP HL _ _ _ _]. rewrite HP, HL, elem_of_seq. lia. Qed.
Lemma rep_all_lru dv f A i b : rep dv f A → fs_bufs f !! i = Some b → i ∈ fs_lru f.
Proof.
  intros [HP HL _ _ _ _] Hb. rewrite HP, elem_of_seq. apply lookup_lt_Some in Hb. lia.
Qed.
Lemma rep_buf_ne dv f A bn e bn' e' : rep dv f A → A !! bn = Some e → A !! bn' = Some e' → bn ≠ bn' → e_buf e ≠ e_buf e'.
Proof.
  intros HR H1 H2 Hne Heq. destruct (rep_in _ _ _ HR _ _ H1) as [Hb1 _], (rep_in _ _ _ HR _ _ H2) as [Hb2 _].
  rewrite Heq, Hb2 in Hb1. injection Hb1 as Hbn _ _ _. by apply Hne.
Qed.

(** Changes of the log, the super block and the order of the LRU list. *)
Lemma rep_same dv f g A :
  rep dv f A → fs_lru g ≡ₚ fs_lru f → fs_bufs g = fs_bufs f → fs_disk g = fs_disk f → rep dv g A.
Proof. intros [H1 H2 H3 H4 H5 H6] E1 E2 E3. split; rewrite ?E1, ?E2, ?E3; done. Qed.

(** A buffer takes, or goes on holding, the block [bn]. *)
Lemma rep_insert dv f g A bn e b :
  rep dv f A → fs_lru g = fs_lru f → fs_disk g = fs_disk f →
  fs_bufs g = <[e_buf e := ent_buf dv bn e]> (fs_bufs f) → 0 < e_ref e < 2 ^ 32 →
  fs_bufs f !! e_buf e = Some b →
  (∃ e0, A !! bn = Some e0 ∧ e_buf e0 = e_buf e) ∨
    (b_refcnt b = 0 ∧ A !! bn = None ∧
     ∀ j c, fs_bufs f !! j = Some c → b_dev c = dv → b_blockno c = bn → j = e_buf e) →
  rep dv g (<[bn := e]> A).
Proof.
  intros HR E1 E2 E3 Href Hb Hcase.
  assert (Hother : ∀ bn' e', bn' ≠ bn → A !! bn' = Some e' → e_buf e' ≠ e_buf e).
  { intros bn' e' Hne He'. destruct Hcase as [(e0 & He0 & <-)|(Hz & _ & _)]; [by eapply rep_buf_ne|].
    intros Heq. destruct (rep_in _ _ _ HR _ _ He') as [Hb' Hr]. rewrite Heq, Hb in Hb'. injection Hb' as ->.
    cbn in Hz. lia. }
  assert (Hbn : ∀ j c, fs_bufs f !! j = Some c → b_dev c = dv → b_blockno c = bn → j = e_buf e).
  { destruct Hcase as [(e0 & He0 & Hbuf)|(_ & _ & Hu)]; [|exact Hu]. intros j c Hc Hd Hn.
    destruct (rep_in _ _ _ HR _ _ He0) as [Hb0 _]. rewrite <- Hbuf. eapply (rep_uniq _ _ _ HR); [exact Hc|exact Hb0|..]; done. }
  assert (Hlt : (e_buf e < length (fs_bufs f))%nat) by (by eapply lookup_lt_Some).
  destruct HR as [H1 H2 H3 H4 H5 H6]. split; rewrite ?E1, ?E2, ?E3.
  - done.
  - by rewrite length_insert.
  - intros bn' e' [[<- <-]|[Hne He']]%lookup_insert_Some; [by rewrite list_lookup_insert_eq|].
    rewrite list_lookup_insert_ne by (symmetry; by apply Hother with bn'). by apply H3.
  - intros i c [(<- & <- & _)|(Hne & Hc)]%list_lookup_insert_Some Hr.
    { exists e. cbn. by rewrite lookup_insert_eq. }
    destruct (H4 i c Hc Hr) as (e' & He' & <-). exists e'. split; [|done].
    rewrite lookup_insert_ne; [done|]. intros ->. destruct (H3 _ _ He') as [Hb' _]. rewrite Hc in Hb'.
    injection Hb' as Hcc. apply Hne. symmetry. apply (Hbn _ c); [done|by rewrite Hcc|done].
  - intros i c [(<- & <- & _)|(Hne & Hc)]%list_lookup_insert_Some Hr; [cbn in Hr; lia|by eapply H5].
  - intros i j c c' [(<- & <- & _)|(Hne & Hc)]%list_lookup_insert_Some
      [(<- & <- & _)|(Hne' & Hc')]%list_lookup_insert_Some Hd Hd' Heq; [done| | |by eapply H6].
    + symmetry. by apply (Hbn j c').
    + by apply (Hbn i c).
Qed.

(** A buffer is given back with the contents of the disk. *)
Lemma rep_delete dv f g A bn e :
  rep dv f A → A !! bn = Some e → fs_lru g ≡ₚ fs_lru f → fs_disk g = fs_disk f →
  fs_bufs g = <[e_buf e := ent_buf dv bn (mkEnt (e_buf e) 0 unlocked (e_data e))]> (fs_bufs f) →
  e_data e = block (fs_disk f) bn → rep dv g (delete bn A).
Proof.
  intros HR He E1 E2 E3 Hdata. pose proof (λ bn' e', rep_buf_ne dv f A bn e bn' e' HR He) as Hne0.
  destruct (rep_in _ _ _ HR _ _ He) as [Hb Href]. pose proof HR as [H1 H2 H3 H4 H5 H6].
  split; rewrite ?E1, ?E2, ?E3.
  - done.
  - by rewrite length_insert.
  - intros bn' e' [Hne He']%lookup_delete_Some. rewrite list_lookup_insert_ne; [by apply H3|]. by apply (Hne0 bn').
  - intros i c [(<- & <- & _)|(Hne & Hc)]%list_lookup_insert_Some Hr; [done|].
    destruct (H4 i c Hc Hr) as (e' & He' & <-). exists e'. split; [|done].
    rewrite lookup_delete_ne; [done|]. intros Heq. rewrite <- Heq, He in He'. injection He' as <-. done.
  - intros i c [(<- & <- & _)|(Hne & Hc)]%list_lookup_insert_Some Hr; [done|by eapply H5].
  - intros i j c c' [(<- & <- & _)|(Hne & Hc)]%list_lookup_insert_Some
      [(<- & <- & _)|(Hne' & Hc')]%list_lookup_insert_Some Hd Hd' Heq; [done| | |by eapply H6].
    + by eapply (H6 _ _ _ _ Hb Hc').
    + by eapply (H6 _ _ _ _ Hc Hb).
Qed.

(** A block in use is written. *)
Lemma rep_write dv f g A bn e d :
  rep dv f A → A !! bn = Some e → fs_lru g = fs_lru f → fs_bufs g = fs_bufs f → fs_disk g = (bn, d) :: fs_disk f →
  rep dv g A.
Proof.
  intros HR He E1 E2 E3. destruct (rep_in _ _ _ HR _ _ He) as [Hb Href]. pose proof HR as [H1 H2 H3 H4 H5 H6].
  split; rewrite ?E1, ?E2, ?E3; try done.
  intros i c Hc Hr. destruct (H5 i c Hc Hr) as [Hl Hd]. split; [done|]. intros Hdev Hv. cbn [block].
  destruct (Z.eqb_spec bn (b_blockno c)) as [Heq|]; [|by apply Hd].
  rewrite (H6 i (e_buf e) c _ Hc Hb Hdev eq_refl (eq_sym Heq)) in Hc. rewrite Hc in Hb. injection Hb as ->.
  cbn in Hr. lia.
Qed.

(** With fewer than [NBUF] blocks in use some buffer is unused. *)
Lemma rep_unused dv f A :
  rep dv f A → (size A < NBUF)%nat → ∃ i b, fs_bufs f !! i = Some b ∧ b_refcnt b = 0.
Proof.
  intros HR Hsize. destruct (decide (Exists (λ b, b_refcnt b = 0) (fs_bufs f))) as [Hex|Hno].
  { apply Exists_exists in Hex as (b & Hin & Hz). apply list_elem_of_lookup in Hin as [i Hi]. eauto. }
  exfalso. apply not_Exists_Forall in Hno; [|solve_decision].
  assert (Hsub : seq 0 NBUF ⊆+ (e_buf ∘ snd <$> map_to_list A)).
  { apply NoDup_submseteq; [apply NoDup_seq|]. intros i Hi%elem_of_seq.
    destruct (lookup_lt_is_Some_2 (fs_bufs f) i) as [b Hb]; [rewrite (rep_len _ _ _ HR); lia|].
    destruct (rep_out _ _ _ HR i b Hb) as (e & He & <-); [by eapply (Forall_lookup_1 _ _ _ _ Hno)|].
    apply list_elem_of_fmap. exists (b_blockno b, e). split; [done|]. by apply elem_of_map_to_list. }
  apply submseteq_length in Hsub. rewrite length_seq, length_fmap, length_map_to_list in Hsub. lia.
Qed.

Section Cache.
Context {IMG : KernelImage} {D : Disk} {DL : DiskLaw D} (sleeps : nat) (me : nat) (pid dv : Z).
Variable s0 : KState.
Hypothesis Hidle : idle me pid s0.

(** The state [s0] with the cache [A], the log [L] and the disk [d]. *)
Record cache (A : gmap Z Ent) (L : LogState) (d : list (Z * list Z)) (s : KState) : Prop := {
  ca_after : after s0 (fs s) s;
  ca_rep : rep dv (fs s) A;
  ca_log : fs_log (fs s) = L;
  ca_disk : fs_disk (fs s) = d;
  ca_sb : fs_sb (fs s) = fs_sb (fs s0)
}.

Lemma cache_idle A L d s : cache A L d s → idle me pid s.
Proof. intros [H _ _ _ _]. by eapply idle_after. Qed.
Lemma cache_in A L d s bn e :
  cache A L d s → A !! bn = Some e →
  fs_bufs (fs s) !! e_buf e = Some (ent_buf dv bn e) ∧ 0 < e_ref e < 2 ^ 32 ∧ (e_buf e < NBUF)%nat.
Proof.
  intros [_ HR _ _ _] He. destruct (rep_in _ _ _ HR _ _ He) as [Hb Hr]. split; [exact Hb|]. split; [exact Hr|].
  rewrite <- (rep_len _ _ _ HR). by eapply lookup_lt_Some.
Qed.

(** A step of the path that ends in a state equivalent to [s] with the file
    system state [f]. *)
Lemma cache_step A L d s A' L' d' f s' :
  cache A L d s → after s f s' → rep dv f A' → fs_log f = L' → fs_disk f = d' → fs_sb f = fs_sb (fs s) →
  cache A' L' d' s'.
Proof.
  intros [Ha HR HL HD HS] Hs' HR' HL' HD' HS'. pose proof (after_fs _ _ _ Hs') as Hf.
  split; rewrite ?Hf; [eapply after_trans; [exact Ha|exact Hs']|done|done|done|by rewrite HS'].
Qed.

(** Setting the contents of a locked block. *)
Definition set_ent_data (v : list Z) (e : Ent) : Ent := mkEnt (e_buf e) (e_ref e) (e_lock e) v.
Lemma wp_fill E A L d bn e i v s (Q : unit → KState → Prop) :
  cache A L d s → A !! bn = Some e → e_buf e = i →
  (∀ s', cache (<[bn := set_ent_data v e]> A) L d s' → Q tt s') → wp E (putb i (with_data v)) Q s.
Proof.
  intros Hc He <- HQ. destruct (cache_in _ _ _ _ _ _ Hc He) as (Hb & Hr & Hlt).
  eapply wp_putb; [exact Hb|]. apply HQ. eapply (cache_step A L d s); [done|by apply after_keq|..]; [|apply Hc..|done].
  eapply rep_insert; [apply (ca_rep _ _ _ _ Hc)|done|done|done|exact Hr|exact Hb|]. left. by exists e.
Qed.
Lemma wp_peek E A L d bn e i s (Q : Buf → KState → Prop) :
  cache A L d s → A !! bn = Some e → e_buf e = i → Q (ent_buf dv bn e) s → wp E (getb i) Q s.
Proof. intros Hc He <- HQ. destruct (cache_in _ _ _ _ _ _ Hc He) as (Hb & _ & _). by eapply wp_getb. Qed.

Lemma wp_bwrite E A L d bn e i s (Q : unit → KState → Prop) :
  cache A L d s → A !! bn = Some e → e_buf e = i → e_lock e = mkSleep true pid →
  (∀ s', cache A L ((bn, e_data e) :: d) s' → Q tt s') → wp E (bwrite i) Q s.
Proof.
  intros Hc He <- Hl HQ. destruct (cache_in _ _ _ _ _ _ Hc He) as (Hb & Hr & Hlt). unfold bwrite. apply wp_bind.
  eapply wp_holdingsleep; [by eapply cache_idle|exact Hlt|exact Hb|exact Hl|]. intros s1 Hs1. cbn [negb].
  pose proof (keq_fs _ _ Hs1) as Hf. eapply disk_writes; [rewrite Hf; exact Hb|]. intros s2 Hs2. apply HQ.
  eapply (cache_step A L d s); [done|apply after_keq; rewrite Hs2; unfold set_disk; rewrite Hf, Hs1; done|..].
  - eapply rep_write; [apply (ca_rep _ _ _ _ Hc)|exact He|done|done|]. done.
  - apply Hc.
  - cbn. by rewrite (ca_disk _ _ _ _ Hc).
  - done.
Qed.

Definition mine : Sleeplock := mkSleep true pid.
Definition take_ent (e : Ent) : Ent := mkEnt (e_buf e) (e_ref e + 1) mine (e_data e).

(** The state after [bget] has put [b'] in buffer [i]. *)
Lemma wp_bget_cache E A L d bn i g b s (Q : nat → KState → Prop) :
  cache A L d s → bget_pick (fs s) dv bn = Some (i, g) → fs_bufs (fs s) !! i = Some b → sl_locked (b_lock (g b)) = false →
  (∀ s', s' ≡k set_bufs (<[i := with_lock mine (g b)]> (fs_bufs (fs s))) s → Q i s') →
  wp E (bget sleeps dv bn) Q s.
Proof.
  intros Hc Hp Hb Hl HQ. eapply wp_bget; [by eapply cache_idle| |apply (rep_len _ _ _ (ca_rep _ _ _ _ Hc))|exact Hp|exact Hb|exact Hl|exact HQ].
  intros j. apply (rep_lru_lt _ _ _ _ (ca_rep _ _ _ _ Hc)).
Qed.

(** The block is in use: one more reference. *)
Lemma wp_bread_hit E A L d bn e s (Q : nat → KState → Prop) :
  cache A L d s → A !! bn = Some e → sl_locked (e_lock e) = false → e_ref e + 1 < 2 ^ 32 →
  (∀ s', cache (<[bn := take_ent e]> A) L d s' → Q (e_buf e) s') → wp E (bread sleeps dv bn) Q s.
Proof.
  intros Hc He Hl Hlt HQ. destruct (cache_in _ _ _ _ _ _ Hc He) as (Hb & Hr & _). pose proof (ca_rep _ _ _ _ Hc) as HR.
  unfold bread. apply wp_bind.
  apply (wp_bget_cache E A L d bn (e_buf e) (λ b, with_refcnt (u32 (b_refcnt b + 1)) b) (ent_buf dv bn e)); [done| |done|done|].
  { unfold bget_pick. destruct (first_buf _ (is_block dv bn) _) as [i|] eqn:Hf.
    - apply first_buf_Some in Hf as (c & Hcb & [Hd Hn]%andb_true_iff). do 2 f_equal.
      apply Z.eqb_eq in Hd, Hn. eapply (rep_uniq _ _ _ HR); [exact Hcb|exact Hb|done|done|done].
    - eapply first_buf_None in Hf; [|by eapply rep_all_lru|exact Hb]. unfold is_block in Hf. cbn in Hf.
      by rewrite !Z.eqb_refl in Hf. }
  intros s' Hs'. set (b' := with_lock _ _) in Hs'.
  assert (Heb : b' = ent_buf dv bn (take_ent e)).
  { unfold b', ent_buf, with_lock, with_refcnt. cbn. unfold u32. rewrite Z.mod_small by lia. done. }
  assert (Hlen : (e_buf e < length (fs_bufs (fs s)))%nat) by (by eapply lookup_lt_Some).
  apply wp_bind. eapply wp_getb.
  { rewrite (keq_fs _ _ Hs'). cbn. by apply list_lookup_insert_eq. }
  rewrite Heb. cbn [b_valid ent_buf negb when]. apply wp_bind, wp_ret, wp_ret, HQ.
  eapply (cache_step A L d s); [done|by apply after_keq|..]; [|apply Hc..|done].
  eapply rep_insert; [exact HR|done|done|cbn; by rewrite Heb|cbn; lia|exact Hb|]. left. by exists e.
Qed.

(** The block is not in use: it is read, unless a buffer still has it. *)
Lemma bget_pick_miss A L d bn s :
  cache A L d s → A !! bn = None → (size A < NBUF)%nat →
  ∃ i g b, bget_pick (fs s) dv bn = Some (i, g) ∧ fs_bufs (fs s) !! i = Some b ∧ b_refcnt b = 0 ∧
    (∃ v, with_lock mine (g b) = mkBuf v dv bn mine 1 (b_data b) ∧ (v = true → b_data b = block d bn)) ∧
    sl_locked (b_lock (g b)) = false ∧
    (∀ j c, fs_bufs (fs s) !! j = Some c → b_dev c = dv → b_blockno c = bn → j = i).
Proof.
  intros Hc Hnone Hsize. pose proof (ca_rep _ _ _ _ Hc) as HR. unfold bget_pick.
  destruct (first_buf _ (is_block dv bn) _) as [i|] eqn:Hf.
  - apply first_buf_Some in Hf as (b & Hb & [Hd Hn]%andb_true_iff). apply Z.eqb_eq in Hd, Hn.
    assert (Hz : b_refcnt b = 0).
    { destruct (decide (b_refcnt b = 0)) as [|Hnz]; [done|].
      destruct (rep_out _ _ _ HR i b Hb Hnz) as (e & He & _). by rewrite Hn, Hnone in He. }
    destruct (rep_free _ _ _ HR i b Hb Hz) as [Hl Hdata]. rewrite (ca_disk _ _ _ _ Hc), Hn in Hdata.
    exists i, (λ b, with_refcnt (u32 (b_refcnt b + 1)) b), b. split_and!; [done|done|done| |done|].
    + exists (b_valid b). unfold with_lock, with_refcnt. cbn [b_valid b_dev b_blockno b_refcnt b_data].
      rewrite Hz, Hd, Hn. split; [done|by apply Hdata].
    + intros j c Hcb Hdc Hnc. eapply (rep_uniq _ _ _ HR); [exact Hcb|exact Hb|done|done|by rewrite Hnc].
  - destruct (first_buf _ is_unused _) as [i|] eqn:Hu.
    + apply first_buf_Some in Hu as (b & Hb & Hz%Z.eqb_eq). destruct (rep_free _ _ _ HR i b Hb Hz) as [Hl _].
      exists i, (recycle dv bn), b. split_and!; [done|done|done|by exists false|done|].
      intros j c Hcb Hdc Hnc. eapply first_buf_None in Hf; [|by eapply rep_all_lru|exact Hcb].
      unfold is_block in Hf. by rewrite Hdc, Hnc, !Z.eqb_refl in Hf.
    + destruct (rep_unused _ _ _ HR Hsize) as (i & b & Hb & Hz).
      eapply first_buf_None in Hu; [|apply elem_of_reverse; by eapply rep_all_lru|exact Hb].
      unfold is_unused in Hu. by rewrite Hz in Hu.
Qed.

Lemma wp_bread_miss E A L d bn s (Q : nat → KState → Prop) :
  cache A L d s → A !! bn = None → (size A < NBUF)%nat →
  (∀ i s', cache (<[bn := mkEnt i 1 mine (block d bn)]> A) L d s' → Q i s') → wp E (bread sleeps dv bn) Q s.
Proof.
  intros Hc Hnone Hsize HQ. pose proof (ca_rep _ _ _ _ Hc) as HR.
  destruct (bget_pick_miss A L d bn s Hc Hnone Hsize) as (i & g & b & Hp & Hb & Hz & (v & Hg & Hv) & Hl & Hu).
  assert (Hlen : (i < length (fs_bufs (fs s)))%nat) by (by eapply lookup_lt_Some).
  assert (Hend : ∀ s', s' ≡k set_bufs (<[i := ent_buf dv bn (mkEnt i 1 mine (block d bn))]> (fs_bufs (fs s))) s → Q i s').
  { intros s' Hs'. apply HQ. eapply (cache_step A L d s); [done|by apply after_keq|..]; [|apply Hc..|done].
    eapply rep_insert; [exact HR|done|done|done|cbn; lia|exact Hb|]. right. by split_and!. }
  unfold bread. apply wp_bind. apply (wp_bget_cache E A L d bn i g b); [done..|]. rewrite Hg. intros s1 Hs1.
  pose proof (keq_fs _ _ Hs1) as Hf1.
  assert (Hb1 : fs_bufs (fs s1) !! i = Some (mkBuf v dv bn mine 1 (b_data b))).
  { rewrite Hf1. cbn. by apply list_lookup_insert_eq. }
  apply wp_bind. eapply wp_getb; [exact Hb1|]. cbn [b_valid]. apply wp_bind. destruct v; cbn [negb when].
  { apply wp_ret, wp_ret, Hend. rewrite Hs1, Hv by done. done. }
  apply wp_bind. eapply disk_reads; [exact Hb1|]. intros s2 Hs2. pose proof (keq_fs _ _ Hs2) as Hf2.
  eapply wp_putb.
  { rewrite Hf2. cbn. rewrite Hf1. cbn. rewrite list_insert_insert_eq. by apply list_lookup_insert_eq. }
  apply wp_ret, Hend. unfold set_bufs at 1. rewrite Hf2, Hs2. unfold set_bufs. cbn. rewrite Hf1, Hs1. cbn.
  rewrite !list_insert_insert_eq, (ca_disk _ _ _ _ Hc). done.
Qed.

(** Change of the reference count, under the lock of the cache. *)
Definition set_ref (n : Z) (e : Ent) : Ent := mkEnt (e_buf e) n (e_lock e) (e_data e).
Lemma wp_recount E A L d bn e n s (Q : unit → KState → Prop) :
  cache A L d s → A !! bn = Some e → 0 < e_ref e + n < 2 ^ 32 →
  (∀ s', cache (<[bn := set_ref (e_ref e + n) e]> A) L d s' → Q tt s') →
  wp E (acquire Lbcache;; putb (e_buf e) (λ b, with_refcnt (u32 (b_refcnt b + n)) b);; release Lbcache) Q s.
Proof.
  intros Hc He Hn HQ. destruct (cache_in _ _ _ _ _ _ Hc He) as (Hb & Hr & _). pose proof (cache_idle _ _ _ _ Hc) as Hid.
  apply wp_bind, wp_acquire; [apply (id_bcache _ _ _ Hid)|]. apply wp_bind. eapply wp_putb; [exact Hb|].
  apply (wp_unlock E Lbcache _ s); [apply (id_bcache _ _ _ Hid)|by eapply idle_sync|done|]. intros s' Hs'. apply HQ.
  set (b' := with_refcnt _ _) in Hs'. eapply (cache_step A L d s _ _ _ (with_bufs (<[e_buf e := b']> (fs_bufs (fs s))) (fs s))); [done| |..].
  - apply after_keq. rewrite Hs'. by destruct s.
  - eapply rep_insert; [apply (ca_rep _ _ _ _ Hc)|done|done| |exact Hn|exact Hb|left; by exists e].
    unfold b', with_refcnt, u32. cbn [b_refcnt ent_buf]. by rewrite Z.mod_small by lia.
  - apply Hc.
  - apply Hc.
  - done.
Qed.
Lemma wp_bpin E A L d bn e i s (Q : unit → KState → Prop) :
  cache A L d s → A !! bn = Some e → e_buf e = i → e_ref e + 1 < 2 ^ 32 →
  (∀ s', cache (<[bn := set_ref (e_ref e + 1) e]> A) L d s' → Q tt s') → wp E (bpin i) Q s.
Proof.
  intros Hc He <- Hn HQ. destruct (cache_in _ _ _ _ _ _ Hc He) as (_ & Hr & _). eapply (wp_recount E A L d bn e 1); [done..|lia|done].
Qed.
Lemma wp_bunpin E A L d bn e i s (Q : unit → KState → Prop) :
  cache A L d s → A !! bn = Some e → e_buf e = i → 1 < e_ref e →
  (∀ s', cache (<[bn := set_ref (e_ref e - 1) e]> A) L d s' → Q tt s') → wp E (bunpin i) Q s.
Proof.
  intros Hc He <- Hn HQ. destruct (cache_in _ _ _ _ _ _ Hc He) as (_ & Hr & _). eapply (wp_recount E A L d bn e (-1)); [done..|lia|done].
Qed.

(** A reference and the lock are given back; the last reference gives the
    buffer back, and moves it to the front of the list. *)
Definition give_back (bn : Z) (e : Ent) (A : gmap Z Ent) : gmap Z Ent :=
  if e_ref e =? 1 then delete bn A else <[bn := mkEnt (e_buf e) (e_ref e - 1) unlocked (e_data e)]> A.

Lemma move_to_front (i : nat) l : NoDup l → i ∈ l → i :: filter (λ j, j ≠ i) l ≡ₚ l.
Proof.
  intros Hnd Hi. apply NoDup_Permutation; [|done|].
  - constructor; [|by apply NoDup_filter]. by rewrite list_elem_of_filter; intros [? _].
  - intros j. rewrite elem_of_cons, list_elem_of_filter. destruct (decide (j = i)) as [->|]; naive_solver.
Qed.

Lemma wp_brelse E A L d bn e i s (Q : unit → KState → Prop) :
  cache A L d s → A !! bn = Some e → e_buf e = i → e_lock e = mine → (e_ref e = 1 → e_data e = block d bn) →
  (∀ s', cache (give_back bn e A) L d s' → Q tt s') → wp E (brelse i) Q s.
Proof.
  intros Hc He <- Hl Hd HQ. destruct (cache_in _ _ _ _ _ _ Hc He) as (Hb & Hr & Hlt). pose proof (ca_rep _ _ _ _ Hc) as HR.
  assert (Hlen : (e_buf e < length (fs_bufs (fs s)))%nat) by (by eapply lookup_lt_Some).
  unfold brelse. apply wp_bind.
  eapply wp_holdingsleep; [by eapply cache_idle|exact Hlt|exact Hb|exact Hl|]. intros s1 Hs1. cbn [negb].
  pose proof (keq_fs _ _ Hs1) as Hf1. apply wp_bind.
  assert (Hid1 : idle me pid s1).
  { eapply idle_after; [eapply cache_idle; exact Hc|]. by apply after_same. }
  eapply wp_releasesleep; [exact Hid1|exact Hlt|by rewrite Hf1|]. intros s2 Ha2. pose proof (after_fs _ _ _ Ha2) as Hf2.
  pose proof (idle_after _ _ _ _ _ Hid1 Ha2) as Hid2. rewrite Hf1 in Hf2.
  apply wp_bind, wp_acquire; [apply (id_bcache _ _ _ Hid2)|]. apply wp_bind.
  set (b2 := with_lock _ (ent_buf dv bn e)) in *.
  eapply (wp_putb E _ b2); [cbn; rewrite Hf2; by apply list_lookup_insert_eq|].
  set (b3 := with_refcnt (u32 (b_refcnt b2 - 1)) b2). apply wp_bind.
  eapply (wp_getb E _ b3); [cbn; rewrite Hf2; cbn; rewrite list_insert_insert_eq; by apply list_lookup_insert_eq|].
  assert (Hb3 : b3 = ent_buf dv bn (mkEnt (e_buf e) (e_ref e - 1) unlocked (e_data e))).
  { unfold b3, b2, ent_buf, with_lock, with_refcnt, u32. cbn. by rewrite Z.mod_small by lia. }
  assert (Hfin : ∀ t, syn t = syn (acq Lbcache s2) →
    (∃ g, dat t = dat (set_fs g s2) ∧ rep dv g (give_back bn e A) ∧ fs_log g = L ∧ fs_disk g = d ∧ fs_sb g = fs_sb (fs s)) →
    wp E (release Lbcache) Q t).
  { intros t Hy (g & Hg & HRg & HLg & HDg & HSg). apply (wp_unlock E Lbcache _ s2); [apply (id_bcache _ _ _ Hid2)|by eapply idle_sync|done|].
    intros s' Hs'. apply HQ. eapply (cache_step A L d s _ _ _ g); [done| |done..].
    apply (after_trans s (fs s) s1); [by apply after_same|].
    eapply after_trans; [exact Ha2|]. apply after_keq. rewrite Hs'. unfold restore. rewrite Hg. by destruct s2. }
  apply wp_bind. unfold when. rewrite Hb3. cbn [b_refcnt ent_buf e_ref]. unfold give_back in Hfin.
  destruct (Z.eqb_spec (e_ref e) 1) as [H1|H1].
  - rewrite H1 in Hb3 |- *. cbn [Z.eqb Z.sub Z.opp Z.add Z.pos_sub]. apply wp_modify, Hfin; [done|]. eexists. split; [reflexivity|].
    cbn. rewrite Hf2. cbn. split_and!; [|apply Hc..|done].
    eapply rep_delete; [exact HR|exact He| |done| |]; cbn [fs_lru fs_bufs fs_disk].
    + apply move_to_front; [rewrite (rep_lru _ _ _ HR); apply NoDup_seq|by eapply rep_all_lru].
    + rewrite list_insert_insert_eq. reflexivity.
    + rewrite (ca_disk _ _ _ _ Hc). by apply Hd.
  - rewrite (proj2 (Z.eqb_neq (e_ref e - 1) 0)) by lia. apply wp_ret, Hfin; [done|]. eexists. split; [reflexivity|].
    cbn. rewrite Hf2. cbn. split_and!; [|apply Hc..|done].
    eapply (rep_insert _ _ _ _ _ (mkEnt (e_buf e) (e_ref e - 1) unlocked (e_data e)));
      [exact HR|done|done|cbn [fs_bufs e_buf]; rewrite list_insert_insert_eq; reflexivity|cbn; lia|exact Hb|]. left. by exists e.
Qed.

(** The log is not part of the cache. *)
Lemma cache_set_log A L d s L' : cache A L d s → cache A L' d (set_log L' s).
Proof.
  intros Hc. eapply (cache_step A L d s); [done|by apply after_keq|..]; [|done|apply Hc|done].
  eapply rep_same; [apply (ca_rep _ _ _ _ Hc)|done..].
Qed.
End Cache.

(** ** Inside another lock *)

Lemma idle_acq me pid s l :
  idle me pid s → (∀ j, l ≠ Lproc j) → l ≠ Lbcache → (∀ n, l ≠ Lsleep n) → idle me pid (acq l s).
Proof.
  intros [(H1 & H2 & H3) H4 H5 H6 H7] Hp Hb Hn. split; [|done|done|by apply acq_free|intros n Hlt; apply acq_free; [done|by apply H7]].
  split_and!; [by apply acq_sync|done|]. intros j Hj. apply acq_free; [done|by apply H3].
Qed.

Lemma cache_enter dv s0 A L d s l : cache dv s0 A L d s → cache dv (acq l s) A L d (acq l s).
Proof. intros [H1 H2 H3 H4 H5]. split; [by apply after_same|done..]. Qed.

Lemma wp_leave_cache E dv s0 A L d s l A' L' d' t (Q : unit → KState → Prop) :
  cache dv s0 A L d s → lock_free s l → sync_ok s → cache dv (acq l s) A' L' d' t →
  (∀ s', cache dv s0 A' L' d' s' → Q tt s') → wp E (release l) Q t.
Proof.
  intros Hc Hl Hs [(P & HP & Heq) H2 H3 H4 H5] HQ.
  assert (Hy : syn t = syn (acq l s)) by (apply (keq_syn _ _ Heq); destruct Hs; cbn; lia).
  apply (wp_unlock E l _ s); [done|done|done|]. intros s' Hs'. apply HQ.
  eapply (cache_step dv s0 A L d s _ _ _ (fs t)); [done| |done..]. exists P. split; [exact HP|].
  rewrite Hs'. unfold restore. rewrite (keq_dat _ _ Heq). by destruct s.
Qed.

Lemma wp_wakeup_cache E me pid dv s0 A L d s chan (Q : unit → KState → Prop) :
  idle me pid s0 → cache dv s0 A L d s → (∀ s', cache dv s0 A L d s' → Q tt s') → wp E (wakeup chan) Q s.
Proof.
  intros Hid Hc HQ. destruct (id_table _ _ _ (cache_idle _ _ _ _ Hid _ _ _ _ Hc)) as (Hs & Hlen & Hlk).
  apply wp_wakeup; [done|done|by intros j Hj _; apply Hlk|]. intros s' Hs'. apply HQ.
  eapply (cache_step dv s0 A L d s _ _ _ (fs s)); [done| |apply Hc..|done].
  eexists. split; [apply woke_imap|]. rewrite Hs'. by destruct s as [? []].
Qed.
