(* ===== verification/PipeSpec.v ===== *)
(** * Pipes as queues of bytes

    [pipe_rep]: the structure of a pipe in its page holds a queue.  [pipewrite]
    appends the bytes of user memory to it, [piperead] moves bytes from its
    front into user memory. *)

From S2P Require Import Prelude CString Kernel Ring KLogic Spinlock KMem Kalloc Vm VmSpec VmUser Proc ProcSpec Pipe BioSpec.
Open Scope Z_scope.
Open Scope os_scope.

(** ** The structure *)

Ltac pi_lia := unfold PI_data, PI_nread, PI_nwrite, PI_readopen, PI_writeopen, PIPESIZE, PGSIZE in *; lia.

Definition ring_of (m : mem) (pi : Z) : list Z := bytes_at m (pi + PI_data) (Z.to_nat PIPESIZE).
Record pipe_rep (m : mem) (pi nr : Z) (q : list Z) : Prop := {
  pp_nread : read_le m (pi + PI_nread) 4 = nr;
  pp_range : 0 ≤ nr < 2 ^ 32;
  pp_nwrite : read_le m (pi + PI_nwrite) 4 = u32 (nr + Z.of_nat (length q));
  pp_len : Z.of_nat (length q) ≤ PIPESIZE;
  pp_ring : holds (Z.to_nat PIPESIZE) (ring_of m pi) nr q
}.
Definition readopen (m : mem) (pi : Z) : bool := negb (read_le m (pi + PI_readopen) 4 =? 0).
Definition writeopen (m : mem) (pi : Z) : bool := negb (read_le m (pi + PI_writeopen) 4 =? 0).

Lemma pipe_full m pi nr q : pipe_rep m pi nr q → (u32 (nr + Z.of_nat (length q)) =? u32 (nr + PIPESIZE)) = (Z.of_nat (length q) =? PIPESIZE).
Proof.
  intros [_ Hr _ Hl _]. destruct (Z.eqb_spec (Z.of_nat (length q)) PIPESIZE) as [->|Hne]; [apply Z.eqb_refl|]. apply Z.eqb_neq. intros E. unfold u32, PIPESIZE in *.
  assert (E2 : (nr + 512) mod 2 ^ 32 = ((nr + Z.of_nat (length q)) mod 2 ^ 32 + (512 - Z.of_nat (length q))) mod 2 ^ 32) by (rewrite Zplus_mod_idemp_l; f_equal; lia).
  rewrite <- E in E2. symmetry in E2. revert E2. apply counter_ne; [apply Z.mod_pos_bound; lia|lia].
Qed.
Lemma pipe_empty m pi nr q : pipe_rep m pi nr q → (nr =? u32 (nr + Z.of_nat (length q))) = bool_decide (q = []).
Proof.
  intros [_ Hr _ Hl _]. destruct q as [|x q]; cbn [length].
  - rewrite Z.add_0_r. unfold u32. rewrite Z.mod_small by done. apply Z.eqb_refl.
  - rewrite bool_decide_eq_false_2 by done. apply Z.eqb_neq. apply not_eq_sym. apply counter_ne; [done|]. cbn [length] in Hl. unfold PIPESIZE in Hl. lia.
Qed.

Lemma pipe_ext m m' pi nr q : agree pi PGSIZE m' m → pipe_rep m pi nr q → pipe_rep m' pi nr q.
Proof.
  intros Ha [H1 H2 H3 H4 H5]. assert (Hs : ∀ o n, 0 ≤ o → o + n ≤ PGSIZE → agree (pi + o) n m' m) by (intros o n ? ?; apply (agree_sub pi PGSIZE); [done|lia|lia]).
  split; [by rewrite (read_le_ext m' m) by (apply Hs; done)|done|by rewrite (read_le_ext m' m) by (apply Hs; done)|done|].
  unfold ring_of. rewrite (bytes_at_ext m' m); [exact H5|]. apply Hs; done.
Qed.
Lemma open_ext m m' pi : agree pi PGSIZE m' m → readopen m' pi = readopen m pi ∧ writeopen m' pi = writeopen m pi.
Proof.
  intros Ha. unfold readopen, writeopen. split; rewrite (read_le_ext m' m); try done; (apply (agree_sub pi PGSIZE); [done|..]; unfold PI_readopen, PI_writeopen, PGSIZE; lia).
Qed.

(** The two stores of a written byte, and the store that ends a read. *)
Definition push_mem (m : mem) (pi nw x : Z) : mem := wr (write_le m (pi + PI_nwrite) (u32 (nw + 1)) 4) (pi + PI_data + nw mod PIPESIZE) x.
Definition pop_mem (m : mem) (pi nr : Z) : mem := write_le m (pi + PI_nread) (u32 (nr + 1)) 4.

(** A change inside the page. *)
Definition in_page (pi : Z) (m' m : mem) : Prop := ∀ x, x < pi ∨ pi + PGSIZE ≤ x → rd m' x = rd m x.
Lemma push_in_page m pi nw x : in_page pi (push_mem m pi nw x) m.
Proof.
  intros a Ha. unfold push_mem. pose proof (Z.mod_pos_bound nw PIPESIZE ltac:(done)). unfold PIPESIZE, PGSIZE, PI_data, PI_nwrite in *.
  rewrite rd_wr, decide_False by lia. by rewrite rd_write_le, decide_False by lia.
Qed.
Lemma pop_in_page m pi nr : in_page pi (pop_mem m pi nr) m.
Proof. intros a Ha. unfold pop_mem, PI_nread, PGSIZE in *. by rewrite rd_write_le, decide_False by lia. Qed.

Lemma u32_bounds x : 0 ≤ u32 x < 2 ^ 32.
Proof. apply Z.mod_pos_bound. done. Qed.
Lemma u32_u32_add x y : u32 (u32 x + y) = u32 (x + y).
Proof. unfold u32. apply Zplus_mod_idemp_l. Qed.

Lemma read_le_wr_other m a v b n : b < a ∨ a + Z.of_nat n ≤ b → read_le (wr m b v) a n = read_le m a n.
Proof. intros H. apply read_le_ext. intros x Hx. by rewrite rd_wr, decide_False by lia. Qed.
Lemma read_le_write_other m a n b v k : b + Z.of_nat k ≤ a ∨ a + Z.of_nat n ≤ b → read_le (write_le m b v k) a n = read_le m a n.
Proof. intros H. apply read_le_ext. intros x Hx. by rewrite rd_write_le, decide_False by lia. Qed.

Lemma ring_push m pi nw x : ring_of (push_mem m pi nw x) pi = <[Z.to_nat (nw mod PIPESIZE) := x]> (ring_of m pi).
Proof.
  pose proof (Z.mod_pos_bound nw PIPESIZE ltac:(done)) as Hb. unfold ring_of. apply list_eq_same_length with (Z.to_nat PIPESIZE);
    [by rewrite length_insert, length_bytes_at|by rewrite length_bytes_at|]. intros k y z Hk Hy Hz. rewrite bytes_at_lookup in Hy by done. injection Hy as <-.
  unfold push_mem in *. rewrite rd_wr. unfold PIPESIZE, PI_data, PI_nwrite in *. destruct (decide (k = Z.to_nat (nw mod 512))) as [->|Hne].
  - rewrite list_lookup_insert_eq in Hz by (rewrite length_bytes_at; lia). rewrite decide_True by lia. congruence.
  - rewrite list_lookup_insert_ne, bytes_at_lookup in Hz by (done || lia). injection Hz as <-. rewrite decide_False by lia. by rewrite rd_write_le, decide_False by lia.
Qed.

Lemma pipe_push m pi nr q x :
  pipe_rep m pi nr q → Z.of_nat (length q) < PIPESIZE →
  let m' := push_mem m pi (u32 (nr + Z.of_nat (length q))) x in
  pipe_rep m' pi nr (q ++ [x]) ∧ readopen m' pi = readopen m pi ∧ writeopen m' pi = writeopen m pi.
Proof.
  intros [H1 H2 H3 H4 H5] Hlt m'. set (nw := u32 (nr + Z.of_nat (length q))) in *. pose proof (Z.mod_pos_bound nw PIPESIZE ltac:(done)) as Hb.
  assert (Hother : ∀ o, PI_data + PIPESIZE ≤ o → o + 4 ≤ PI_nwrite ∨ PI_nwrite + 4 ≤ o → read_le m' (pi + o) 4 = read_le m (pi + o) 4).
  { intros o Ho Hor. unfold m', push_mem. rewrite read_le_wr_other, read_le_write_other; [done|lia|]. unfold PI_data, PIPESIZE in *. lia. }
  split_and!; [|unfold readopen; by rewrite Hother by pi_lia|unfold writeopen; by rewrite Hother by pi_lia]. split.
  - by rewrite Hother by pi_lia.
  - done.
  - unfold m', push_mem. rewrite read_le_wr_other by (unfold PI_data, PI_nwrite, PIPESIZE in *; lia). rewrite read_write_le by apply u32_bounds.
    unfold nw. rewrite u32_u32_add, length_app. cbn [length]. f_equal. lia.
  - rewrite length_app. cbn [length]. lia.
  - unfold m'. rewrite ring_push. replace (Z.to_nat (nw mod PIPESIZE)) with (cell (Z.to_nat PIPESIZE) (nr + Z.of_nat (length q))).
    { apply holds_push; [pi_lia|by unfold ring_of; rewrite length_bytes_at|pi_lia|done]. }
    unfold nw, u32. change PIPESIZE with (Z.of_nat 512). fold (cell 512 ((nr + Z.of_nat (length q)) mod 2 ^ 32)). symmetry. apply cell_wrap; [lia|lia|by exists (2 ^ 23)].
Qed.

Lemma pipe_pop m pi nr x q :
  pipe_rep m pi nr (x :: q) →
  rd m (pi + PI_data + nr mod PIPESIZE) = x ∧
  pipe_rep (pop_mem m pi nr) pi (u32 (nr + 1)) q ∧ readopen (pop_mem m pi nr) pi = readopen m pi ∧ writeopen (pop_mem m pi nr) pi = writeopen m pi.
Proof.
  intros [H1 H2 H3 H4 H5]. pose proof (Z.mod_pos_bound nr PIPESIZE ltac:(done)) as Hb.
  assert (Hother : ∀ o, o + 4 ≤ PI_nread ∨ PI_nread + 4 ≤ o → read_le (pop_mem m pi nr) (pi + o) 4 = read_le m (pi + o) 4).
  { intros o Ho. unfold pop_mem. apply read_le_write_other. lia. }
  split_and!; [|split|unfold readopen; by rewrite Hother by pi_lia|unfold writeopen; by rewrite Hother by pi_lia].
  - apply holds_head in H5. unfold ring_of, cell in H5. change (Z.of_nat (Z.to_nat PIPESIZE)) with PIPESIZE in H5.
    rewrite bytes_at_lookup in H5 by (unfold PIPESIZE in *; lia). rewrite Z2Nat.id in H5 by lia. congruence.
  - unfold pop_mem. apply read_write_le, u32_bounds.
  - apply u32_bounds.
  - rewrite Hother by pi_lia. rewrite H3, u32_u32_add. cbn [length]. f_equal. lia.
  - cbn [length] in H4. lia.
  - replace (ring_of (pop_mem m pi nr) pi) with (ring_of m pi).
    { apply (holds_pop _ (2 ^ 32)) in H5; [exact H5|pi_lia|lia|by exists (2 ^ 23)]. }
    unfold ring_of. apply bytes_at_ext. intros a Ha. unfold pop_mem. rewrite rd_write_le, decide_False; [done|]. unfold PI_data, PI_nread, PIPESIZE in *. lia.
Qed.

(** ** User memory next to the pipe's page *)

Section User.
Context `{KernelImage} {OT : Others}.

Lemma in_page_agree pi m' m q : page_ok pi → page_ok q → q ≠ pi → in_page pi m' m → agree q PGSIZE m' m.
Proof. intros Hp Hq Hne Hi x Hx. apply Hi. destruct (page_disjoint pi q) as [?|?]; [done|done|congruence|lia|lia]. Qed.

Lemma uspace_page s root T l pi m :
  uspace s root T l → other_page pi → in_page pi m (ram s) →
  uspace (set_ram m s) root T l ∧ (∀ va, pte_of m T va = pte_of (ram s) T va) ∧ (∀ va, 0 ≤ va < MAXVA → uview m T va = uview (ram s) T va).
Proof.
  intros Hu Hpi Hm. destruct (us_other _ _ _ _ Hu pi Hpi) as (Q1 & Q2 & Q3 & Q4). pose proof (us_vs _ _ _ _ Hu) as Hvs.
  assert (Htab : tables_agree T m (ram s)).
  { intros p t Hp. apply (in_page_agree pi); [done| |by apply (Q3 p)|done]. by eapply pt_page; [apply Hvs|]. }
  assert (Hpte : ∀ va, pte_of m T va = pte_of (ram s) T va) by (intros va; by apply pte_of_ext).
  assert (Hum : ∀ va, umapped m T va = umapped (ram s) T va) by (intros va; unfold umapped; by rewrite Hpte).
  assert (Hfr : ∀ va, frame_of m T va = frame_of (ram s) T va) by (intros va; unfold frame_of; by rewrite Hpte).
  split_and!; [|done|].
  - split.
    + split; [by eapply pt_rep_ext; [apply Hvs|]| |apply Hvs]. pose proof (vs_free _ _ _ _ Hvs) as Hfl.
      apply (free_list_ext s); [done|done| |apply Hfl|apply Hfl]. intros q Hq. apply (agree_sub q PGSIZE); [|lia|unfold PGSIZE; lia].
      apply (in_page_agree pi); [done|by eapply Forall_forall; [apply (fl_pages _ _ Hfl)|]|by intros ->|done].
    + intros va. cbn. rewrite Hum, Hfr. apply (us_page _ _ _ _ Hu).
    + intros va. cbn. rewrite Hum, Hfr. apply (us_used _ _ _ _ Hu).
    + intros va p t. cbn. rewrite Hum, Hfr. apply (us_table _ _ _ _ Hu).
    + intros va va'. cbn. rewrite !Hum, !Hfr. apply (us_inj _ _ _ _ Hu).
    + intros q Hq. destruct (us_other _ _ _ _ Hu q Hq) as (R1 & R2 & R3 & R4). split_and!; [done|done|done|]. intros va. cbn. rewrite Hum, Hfr. apply R4.
  - intros va Hva. unfold uview. rewrite Hum. destruct (umapped (ram s) T va) eqn:Hv; [|done]. rewrite Hfr. f_equal.
    apply (in_page_agree pi _ _ (frame_of (ram s) T va)); [done|by apply (us_page _ _ _ _ Hu)|by apply Q4|done|].
    pose proof (Z.mod_pos_bound va 4096 ltac:(done)). unfold PGSIZE. lia.
Qed.

(** ** Inside the critical section *)

(** [s0] is the state in which the pipe's lock was taken, with the tables
    [T0]; [t] differs in user memory and the contents of the pipe. *)
Record in_pipe (s0 : KState) (T0 : gmap (list Z) Z) (root pi : Z) (t : KState) (T : gmap (list Z) Z) (l : list Z) (nr : Z) (q : list Z) : Prop := {
  pv_only : only_mem s0 t;
  pv_user : uspace t root T l;
  pv_pte : ∀ va, 0 ≤ va < MAXVA → umapped (ram s0) T0 va = true → pte_of (ram t) T va = pte_of (ram s0) T0 va;
  pv_pipe : pipe_rep (ram t) pi nr q;
  pv_open : readopen (ram t) pi = readopen (ram s0) pi ∧ writeopen (ram t) pi = writeopen (ram s0) pi
}.

Lemma in_pipe_keq s0 T0 root pi t t' T l nr q : t' ≡k t → in_pipe s0 T0 root pi t T l nr q → in_pipe s0 T0 root pi t' T l nr q.
Proof.
  intros Heq [H1 H2 H3 H4 H5]. pose proof (keq_ram _ _ Heq) as Hr.
  split; rewrite ?Hr; [eapply only_mem_trans; [done|by apply only_mem_keq]|by eapply uspace_keq; [symmetry|]|done|done|done].
Qed.

(** After a copy to or from user memory. *)
Lemma in_pipe_ext s0 T0 root pi t T l nr q d n t' T' l' :
  other_page pi → in_pipe s0 T0 root pi t T l nr q → uspace t' root T' l' → uext d n t T t' T' → in_pipe s0 T0 root pi t' T' l' nr q.
Proof.
  intros Hpi [H1 H2 H3 H4 H5] Hu He. pose proof (ue_other _ _ _ _ _ _ He pi Hpi) as Ha. destruct (open_ext _ _ _ Ha) as [Hr Hw].
  split; [eapply only_mem_trans; [done|apply He]|done| |by eapply pipe_ext|by rewrite Hr, Hw].
  intros va Hva Hm. rewrite <- (H3 va Hva Hm). apply (ue_pte _ _ _ _ _ _ He); [done|]. unfold umapped in *. by rewrite H3.
Qed.

(** After a change of the pipe's page. *)
Lemma in_pipe_page s0 T0 root pi t T l nr q m nr' q' :
  other_page pi → in_pipe s0 T0 root pi t T l nr q → in_page pi m (ram t) →
  pipe_rep m pi nr' q' → readopen m pi = readopen (ram t) pi ∧ writeopen m pi = writeopen (ram t) pi →
  in_pipe s0 T0 root pi (set_ram m t) T l nr' q' ∧ (∀ va, 0 ≤ va < MAXVA → uview m T va = uview (ram t) T va).
Proof.
  intros Hpi [H1 H2 H3 H4 H5] Hm Hrep [Hr Hw]. destruct (uspace_page _ _ _ _ _ _ H2 Hpi Hm) as (Hu & Hpte & Hv). split; [|done].
  split; cbn; [by apply only_mem_set_ram|done| |done|by rewrite Hr, Hw]. intros va Hva Hmv. rewrite Hpte. by apply H3.
Qed.

(** User memory still shows what it showed, outside [len] bytes from [dst]. *)
Definition views_kept (dst len : Z) (s0 : KState) (T0 : gmap (list Z) Z) (t : KState) (T : gmap (list Z) Z) : Prop :=
  ∀ va b, 0 ≤ va < MAXVA → va < dst ∨ dst + len ≤ va → uview (ram s0) T0 va = Some b → uview (ram t) T va = Some b.
(** The bytes [bs] are in user memory at [dst]. *)
Definition user_has (t : KState) (T : gmap (list Z) Z) (dst : Z) (bs : list Z) : Prop :=
  ∀ k b, bs !! k = Some b → 0 ≤ dst + Z.of_nat k < MAXVA ∧ uview (ram t) T (dst + Z.of_nat k) = Some b.

Lemma user_has_snoc t T dst bs b :
  user_has t T dst bs → 0 ≤ dst + Z.of_nat (length bs) < MAXVA → uview (ram t) T (dst + Z.of_nat (length bs)) = Some b → user_has t T dst (bs ++ [b]).
Proof.
  intros Hb Hr Hv k x Hk. apply lookup_snoc_Some in Hk as [[_ Hk]|[-> ->]]; [by apply Hb|done].
Qed.

(** ** The loops *)

Section Loops.
Context (E : Env) (s0 : KState) (T0 : gmap (list Z) Z) (root pi : Z) (pr : nat) (p : Proc).
Hypothesis Hpi : other_page pi.
Hypothesis Hsync : sync_ok s0.
Hypothesis Hlk : lockable s0 pr.
Hypothesis Hpr : procs s0 !! pr = Some p.
Hypothesis Hcp : c_proc (cpu s0) = Some pr.
Hypothesis Hroot : p_pagetable p = root.
Hypothesis Hsz : 0 ≤ p_sz p ≤ TRAPFRAME.
Hypothesis Hkill : p_killed p = 0.
#[local] Abbreviation in_pipe := (in_pipe s0 T0 root pi).

Lemma pipe_running t T l nr q : in_pipe t T l nr q → running_on t root ∧ procs t !! pr = Some p ∧ sync_ok t ∧ lockable t pr.
Proof.
  intros [Ho _ _ _ _]. split_and!; [|by rewrite (only_mem_procs _ _ Ho)|by eapply only_mem_sync|by apply (only_mem_lock _ _ _ Ho)].
  eapply running_only; [exact Ho|]. by exists pr, p.
Qed.

Lemma wp_pipewrite_loop fuel addr n bs t T l q nr (Q : Z + Z → KState → Prop) :
  in_pipe t T l nr (q ++ bs) → views_kept 0 0 s0 T0 t T → user_has t T addr bs → readopen (ram s0) pi = true →
  Z.of_nat (length q) + n ≤ PIPESIZE → Z.of_nat (length bs) ≤ n ≤ Z.of_nat (length bs) + Z.of_nat fuel → 0 ≤ addr → addr + n ≤ 2 ^ 64 →
  (∀ bs' t' T' l', in_pipe t' T' l' nr (q ++ bs') → views_kept 0 0 s0 T0 t' T' → user_has t' T' addr bs' → Z.of_nat (length bs') ≤ n →
     (Z.of_nat (length bs') < n → ¬ readable (ram s0) T0 addr n) → Q (inl (Z.of_nat (length bs'))) t') →
  wp E (pipewrite_loop fuel pr pi addr n (Z.of_nat (length bs))) Q t.
Proof.
  revert bs t T l. induction fuel as [|fuel IH]; intros bs t T l Hin Hv Hb Hro Hroom Hn Ha Hend HQ; cbn [pipewrite_loop];
    (destruct (Z.ltb_spec (Z.of_nat (length bs)) n) as [Hlt|Hge]; [|apply wp_ret; apply (HQ bs t T l); [done|done|done|lia|lia]]); [lia|].
  destruct (pipe_running _ _ _ _ _ Hin) as (_ & Hpt & Hst & Hlt0). pose proof Hin as [_ _ _ Hpipe [Hopen _]].
  assert (Hr0 : (read_le (ram t) (pi + PI_readopen) 4 =? 0) = false) by (rewrite Hro in Hopen; unfold readopen in Hopen; by apply negb_true_iff in Hopen).
  apply wp_bind, wp_gets. rewrite Hr0. apply wp_bind, wp_bind. eapply wp_killed; [done|done|done|]. intros t1 Heq1. rewrite Hkill. apply wp_ret. cbn [negb Z.eqb].
  apply (in_pipe_keq _ _ _ _ t t1) in Hin; [|done]. pose proof (keq_ram _ _ Heq1) as Hr1. destruct (pipe_running _ _ _ _ _ Hin) as (Hrun & Hpt1 & _ & _).
  apply wp_bind, wp_gets, wp_bind, wp_gets. rewrite Hr1, (pp_nwrite _ _ _ _ Hpipe), (pp_nread _ _ _ _ Hpipe), (pipe_full _ _ _ _ Hpipe).
  rewrite (proj2 (Z.eqb_neq _ PIPESIZE)) by (rewrite length_app; lia). apply wp_bind. eapply wp_getp; [exact Hpt1|]. rewrite Hroot.
  apply wp_bind. unfold u64. rewrite Z.mod_small by lia.
  eapply wp_mono; [apply (wp_copyin_loop E root 1 (addr + Z.of_nat (length bs)) 1 T l t1 (pv_user _ _ _ _ _ _ _ _ _ Hin) Hrun); lia|].
  intros [r ch] t2 (T2 & l2 & F). pose proof (in_pipe_ext _ _ _ _ _ _ _ _ _ _ _ _ _ _ Hpi Hin (ft_space _ _ _ _ _ _ _ _ _ F) (ft_ext _ _ _ _ _ _ _ _ _ F)) as Hin2.
  assert (Hv2 : views_kept 0 0 s0 T0 t2 T2).
  { intros va b Hva Ho Hx. apply (ue_view _ _ _ _ _ _ (ft_ext _ _ _ _ _ _ _ _ _ F)); [done|done|]. rewrite Hr1. by apply Hv. }
  assert (Hb2 : user_has t2 T2 addr bs).
  { intros k b Hk. destruct (Hb k b Hk) as [? ?]. split; [done|]. apply (ue_view _ _ _ _ _ _ (ft_ext _ _ _ _ _ _ _ _ _ F)); [done|lia|]. by rewrite Hr1. }
  destruct (Z.eqb_spec r (-1)) as [->|Hr]; cbn [fst snd].
  { apply wp_ret. apply (HQ bs t2 T2 l2); [done|done|done|lia|]. intros _ Hrd. pose proof (ft_succeeds _ _ _ _ _ _ _ _ _ F) as Hsu. cbn in Hsu.
    enough (-1 = 0) by lia. apply Hsu. intros va Hva. assert (va = addr + Z.of_nat (length bs)) as -> by lia. destruct (Hrd (addr + Z.of_nat (length bs))) as [Hm1 Hm2]; [lia|].
    split; [done|]. unfold umapped in *. rewrite (pv_pte _ _ _ _ _ _ _ _ _ Hin); [done|lia|done]. }
  assert (r = 0) as -> by (pose proof (ft_ret _ _ _ _ _ _ _ _ _ F) as Hret; cbn in Hret; lia).
  pose proof (ft_len _ _ _ _ _ _ _ _ _ F eq_refl) as Hlen. cbn [snd] in Hlen. destruct ch as [|c [|? ?]]; try done.
  destruct (ft_bytes _ _ _ _ _ _ _ _ _ F eq_refl 0%nat c eq_refl) as [Hc1 Hc2]. rewrite Z.add_0_r in Hc1, Hc2.
  cbn [list_lookup lookup]. apply wp_bind. eapply wp_need; [reflexivity|]. apply wp_bind, wp_modify, wp_bind, wp_modify.
  pose proof (pv_pipe _ _ _ _ _ _ _ _ _ Hin2) as Hpipe2. destruct (pipe_push _ _ _ _ c Hpipe2) as (Hrep & Ho); [rewrite length_app; lia|].
  destruct (in_pipe_page _ _ _ _ _ _ _ _ _ _ _ _ Hpi Hin2 (push_in_page _ _ _ _) Hrep Ho) as [Hin3 Hview].
  change (set_ram _ (set_ram _ t2)) with (set_ram (push_mem (ram t2) pi (u32 (nr + Z.of_nat (length (q ++ bs)))) c) t2).
  set (t3 := set_ram _ t2) in *. replace (Z.of_nat (length bs) + 1) with (Z.of_nat (length (bs ++ [c]))) by (rewrite length_app; cbn; lia).
  rewrite <- app_assoc in Hin3. apply (IH (bs ++ [c]) t3 T2 l2); [exact Hin3| | |done|done|rewrite length_app; cbn [length]; lia|done|done|exact HQ].
  - intros va b Hva Ho' Hx. change (ram t3) with (push_mem (ram t2) pi (u32 (nr + Z.of_nat (length (q ++ bs)))) c). rewrite Hview by done. by apply Hv2.
  - apply user_has_snoc.
    + intros k b Hk. destruct (Hb2 k b Hk) as [? ?]. split; [done|]. change (ram t3) with (push_mem (ram t2) pi (u32 (nr + Z.of_nat (length (q ++ bs)))) c). by rewrite Hview.
    + lia.
    + change (ram t3) with (push_mem (ram t2) pi (u32 (nr + Z.of_nat (length (q ++ bs)))) c). rewrite Hview by lia. exact Hc2.
Qed.

Lemma views_widen dst a b t T : a ≤ b → views_kept dst a s0 T0 t T → views_kept dst b s0 T0 t T.
Proof. intros Hab Hv va x Hva Ho. apply Hv; [done|lia]. Qed.

Lemma wp_piperead_copy left addr ds t T l q nr (Q : Z → KState → Prop) :
  in_pipe t T l nr q → views_kept addr (Z.of_nat (length ds)) s0 T0 t T → user_has t T addr ds →
  0 ≤ addr → addr + Z.of_nat (length ds + left) ≤ 2 ^ 64 →
  (∀ es q' failed t' T' l' nr', q = es ++ q' → in_pipe t' T' l' nr' q' → views_kept addr (Z.of_nat (length ds + left)) s0 T0 t' T' →
     user_has t' T' addr (ds ++ es) → (length es ≤ left)%nat →
     (if failed : bool then ¬ writable (ram s0) T0 addr (Z.of_nat (length ds + left)) else length es = left ∨ q' = []) →
     Q (if failed && (Z.of_nat (length (ds ++ es)) =? 0) then -1 else Z.of_nat (length (ds ++ es))) t') →
  wp E (piperead_copy left pr pi addr (Z.of_nat (length ds))) Q t.
Proof.
  revert ds t T l q nr. induction left as [|left IH]; intros ds t T l q nr Hin Hv Hb Ha Hend HQ; cbn [piperead_copy].
  { apply wp_ret. specialize (HQ [] q false t T l nr). rewrite (app_nil_r ds) in HQ. apply HQ; [done|done|by eapply views_widen; [|exact Hv]; lia|done|done|by left]. }
  pose proof Hin as [_ Hu _ Hpipe _]. destruct (pipe_running _ _ _ _ _ Hin) as (Hrun & Hpt & _ & _).
  apply wp_bind, wp_gets, wp_bind, wp_gets. rewrite (pp_nwrite _ _ _ _ Hpipe), (pp_nread _ _ _ _ Hpipe), (pipe_empty _ _ _ _ Hpipe).
  destruct q as [|x q].
  { rewrite bool_decide_eq_true_2 by done. apply wp_ret. specialize (HQ [] [] false t T l nr). rewrite (app_nil_r ds) in HQ.
    apply HQ; [done|done|by eapply views_widen; [|exact Hv]; lia|done|cbn; lia|by right]. }
  rewrite bool_decide_eq_false_2 by done. destruct (pipe_pop _ _ _ _ _ Hpipe) as (Hx & _). apply wp_bind, wp_gets. rewrite Hx.
  apply wp_bind. eapply wp_getp; [exact Hpt|]. rewrite Hroot. apply wp_bind. unfold u64. rewrite Z.mod_small by lia.
  eapply wp_mono; [apply (wp_copyout_loop E root 1 (addr + Z.of_nat (length ds)) [x] T l t Hu Hrun); [lia|cbn; lia]|].
  intros r t2 (T2 & l2 & C). pose proof (in_pipe_ext _ _ _ _ _ _ _ _ _ _ _ _ _ _ Hpi Hin (cp_space _ _ _ _ _ _ _ _ _ C) (cp_ext _ _ _ _ _ _ _ _ _ C)) as Hin2.
  assert (Hv2 : views_kept addr (Z.of_nat (length ds + 1)) s0 T0 t2 T2).
  { intros va b Hva Ho Hz. apply (ue_view _ _ _ _ _ _ (cp_ext _ _ _ _ _ _ _ _ _ C)); [done|cbn; lia|]. apply Hv; [done|lia|done]. }
  assert (Hb2 : user_has t2 T2 addr ds).
  { intros k b Hk. destruct (Hb k b Hk) as [? ?]. split; [done|]. apply (ue_view _ _ _ _ _ _ (cp_ext _ _ _ _ _ _ _ _ _ C)); [done| |done]. apply lookup_lt_Some in Hk. lia. }
  destruct (Z.eqb_spec r (-1)) as [->|Hr].
  { specialize (HQ [] (x :: q) true t2 T2 l2 nr). rewrite (app_nil_r ds) in HQ. cbn [andb] in HQ. apply wp_ret. apply HQ; [done|done|by eapply views_widen; [|exact Hv2]; lia|done|cbn; lia|].
    intros Hw. pose proof (cp_succeeds _ _ _ _ _ _ _ _ _ C) as Hsu. enough (-1 = 0) by lia. apply Hsu. intros va Hva. cbn [length] in Hva.
    assert (va = addr + Z.of_nat (length ds)) as -> by lia. destruct (Hw (addr + Z.of_nat (length ds))) as (Hm1 & Hm2 & Hm3); [lia|].
    unfold umapped in *. by rewrite (pv_pte _ _ _ _ _ _ _ _ _ Hin) by (done || lia). }
  assert (r = 0) as -> by (pose proof (cp_ret _ _ _ _ _ _ _ _ _ C); lia).
  destruct (cp_bytes _ _ _ _ _ _ _ _ _ C eq_refl 0%nat x eq_refl) as [Hc1 Hc2]. rewrite Z.add_0_r in Hc1, Hc2.
  pose proof (pv_pipe _ _ _ _ _ _ _ _ _ Hin2) as Hpipe2. destruct (pipe_pop _ _ _ _ _ Hpipe2) as (_ & Hrep & Ho).
  destruct (in_pipe_page _ _ _ _ _ _ _ _ _ _ _ _ Hpi Hin2 (pop_in_page _ _ _) Hrep Ho) as [Hin3 Hview].
  apply wp_bind, wp_modify. change (set_ram _ t2) with (set_ram (pop_mem (ram t2) pi nr) t2). set (t3 := set_ram _ t2) in *.
  replace (Z.of_nat (length ds) + 1) with (Z.of_nat (length (ds ++ [x]))) by (rewrite length_app; cbn; lia).
  assert (Hlen : (length (ds ++ [x]) + left = length ds + S left)%nat) by (rewrite length_app; cbn; lia).
  apply (IH (ds ++ [x]) t3 T2 l2 q (u32 (nr + 1))); [exact Hin3| | |done|by rewrite Hlen|].
  - intros va b Hva Ho' Hz. change (ram t3) with (pop_mem (ram t2) pi nr). rewrite Hview by done. apply Hv2; [done| |done]. rewrite length_app in Ho'. exact Ho'.
  - apply user_has_snoc.
    + intros k b Hk. destruct (Hb2 k b Hk) as [? ?]. split; [done|]. change (ram t3) with (pop_mem (ram t2) pi nr). by rewrite Hview.
    + lia.
    + change (ram t3) with (pop_mem (ram t2) pi nr). rewrite Hview by lia. exact Hc2.
  - intros es q' failed t' T' l' nr' Hq Hin' Hvw Hus Hle Hres. rewrite Hlen, <- app_assoc in *. cbn [app] in *.
    apply (HQ (x :: es) q' failed t' T' l' nr'); [by rewrite Hq|done|done|done|cbn; lia|]. destruct failed; [exact Hres|]. destruct Hres as [<-|Hres]; [by left|by right].
Qed.
End Loops.

(** ** The operations *)

(** Process [pr], with descriptor [p], runs in the user memory [T] and holds no
    lock; the pipe at [pi] is the queue [q] and nobody holds its lock. *)
Record pipe_user (pr : nat) (p : Proc) (pi : Z) (s : KState) (T : gmap (list Z) Z) (l : list Z) (nr : Z) (q : list Z) : Prop := {
  pu_table : table_free s;
  pu_lock : lock_free s (Lpipe pi);
  pu_space : uspace s (p_pagetable p) T l;
  pu_other : other_page pi;
  pu_me : c_proc (cpu s) = Some pr;
  pu_proc : procs s !! pr = Some p;
  pu_size : 0 ≤ p_sz p ≤ TRAPFRAME;
  pu_pipe : pipe_rep (ram s) pi nr q
}.

Lemma uspace_data t s root T l :
  uspace t root T l → ram s = ram t → freelist s = freelist t → lock_free s Lkmem → sync_ok s → uspace s root T l.
Proof.
  intros [[V1 V2 V3] H2 H3 H4 H5 H6] Hr Hf Hl Hs. split; rewrite ?Hr; try done. split; [by rewrite Hr| |done].
  apply (free_list_ext t); [done|done| |done|done]. intros x _ a _. by rewrite Hr.
Qed.

Lemma pipe_user_keq pr p pi s t T l nr q : t ≡k s → pipe_user pr p pi s T l nr q → pipe_user pr p pi t T l nr q.
Proof.
  intros Heq [H1 H2 H3 H4 H5 H6 H7 H8].
  split; [by eapply table_free_keq; [symmetry|]|by rewrite Heq|by eapply uspace_keq; [symmetry|]|done|by rewrite (keq_proc _ _ Heq)|by rewrite (keq_procs _ _ Heq)|done|by rewrite (keq_ram _ _ Heq)].
Qed.

Lemma pipe_enter pr p pi s T l nr q :
  pipe_user pr p pi s T l nr q → in_pipe (acq (Lpipe pi) s) T (p_pagetable p) pi (acq (Lpipe pi) s) T l nr q.
Proof.
  intros [(Hs & H1 & H1') H2 H3 H4 H5 H6 H7 H8]. split; [by apply only_mem_keq| |done|done|done].
  apply (uspace_data s); [done|done|done| |by apply acq_sync]. apply acq_free; [done|]. apply (vs_free _ _ _ _ (us_vs _ _ _ _ H3)).
Qed.

Lemma wake_me chan pr p (ps : list Proc) : ps !! pr = Some p → imap (wake_one (Some pr) chan) ps !! pr = Some p.
Proof. intros Hp. rewrite list_lookup_imap, Hp. cbn. unfold wake_one. by rewrite decide_True. Qed.

(** Waking the other end and leaving the critical section. *)
Lemma wp_pipe_leave E pr p pi s T l nr q t T' l' nr' q' chan r (Q : Z → KState → Prop) :
  pipe_user pr p pi s T l nr q → in_pipe (acq (Lpipe pi) s) T (p_pagetable p) pi t T' l' nr' q' →
  (∀ s', pipe_user pr p pi s' T' l' nr' q' → ram s' = ram t → Forall2 woke (procs s) (procs s') → Q r s') →
  wp E (wakeup chan;; release (Lpipe pi);; mret r) Q t.
Proof.
  intros [(Hs & Hlen & Hlk) H2 H3 H4 H5 H6 H7 H8] [Ho Hu _ Hp _] HQ. set (s0 := acq (Lpipe pi) s) in *. apply wp_bind.
  pose proof (only_mem_procs _ _ Ho) as Hprocs. pose proof (only_mem_cproc _ _ Ho) as Hc. change (procs s0) with (procs s) in Hprocs. change (c_proc (cpu s0)) with (c_proc (cpu s)) in Hc.
  apply wp_wakeup; [by eapply only_mem_sync, acq_sync| by rewrite Hprocs| |].
  { intros j Hj _. apply (only_mem_lock _ _ _ Ho), acq_free; [done|by apply Hlk]. }
  intros t1 Heq1. rewrite Hc, Hprocs, H5 in Heq1. set (P := imap _ _) in Heq1.
  assert (Hy : syn t1 = syn s0).
  { destruct Ho as (m & f & Ho). change (syn s0) with (syn (set_procs P (set_ram m (set_freelist f s0)))).
    apply keq_syn; [by rewrite Heq1, Ho|]. destruct Hs. cbn. lia. }
  apply wp_bind. apply (wp_unlock E (Lpipe pi) _ s); [done|done|exact Hy|]. intros s' Heq'. apply wp_ret.
  assert (Hram : ram s' = ram t) by (exact (eq_trans (keq_ram _ _ Heq') (keq_ram _ _ Heq1))).
  assert (Hpr : procs s' = P) by (exact (eq_trans (keq_procs _ _ Heq') (keq_procs _ _ Heq1))).
  assert (Hs' : sync_ok s') by (by rewrite Heq').
  assert (Hl' : ∀ k, lock_free s k → lock_free s' k) by (intros k ?; by rewrite Heq').
  apply HQ; [|done|rewrite Hpr; apply woke_imap]. split; [|by apply Hl'| |done|by rewrite (keq_proc _ _ Heq')| |done|by rewrite Hram].
  - split_and!; [done|by rewrite Hpr; unfold P; rewrite length_imap|]. intros j Hj. by apply Hl', Hlk.
  - apply (uspace_data t); [done|done| | |done].
    + exact (eq_trans (keq_freelist _ _ Heq') (keq_freelist _ _ Heq1)).
    + apply Hl'. apply (vs_free _ _ _ _ (us_vs _ _ _ _ H3)).
  - rewrite Hpr. by apply wake_me.
Qed.

Lemma wp_pipewrite E fuel pr p pi s T l nr q addr n :
  pipe_user pr p pi s T l nr q → p_killed p = 0 → readopen (ram s) pi = true →
  0 ≤ n → Z.of_nat (length q) + n ≤ PIPESIZE → (Z.to_nat n ≤ fuel)%nat → 0 ≤ addr → addr + n ≤ 2 ^ 64 →
  wp E (pipewrite fuel pi addr n) (λ r s', ∃ bs T' l',
    r = Z.of_nat (length bs) ∧ r ≤ n ∧ (readable (ram s) T addr n → r = n) ∧
    pipe_user pr p pi s' T' l' nr (q ++ bs) ∧ user_has s' T' addr bs ∧ views_kept 0 0 s T s' T' ∧
    (readopen (ram s') pi, writeopen (ram s') pi) = (readopen (ram s) pi, writeopen (ram s) pi) ∧
    Forall2 woke (procs s) (procs s')) s.
Proof.
  intros Hpu Hkill Hro Hn Hroom Hfuel Ha Hend. unfold pipewrite. pose proof (pu_table _ _ _ _ _ _ _ _ Hpu) as (Hs & _).
  apply wp_bind. eapply wp_curproc; [done|apply Hpu|]. intros s1 Heq1. pose proof (pipe_user_keq _ _ _ _ s1 _ _ _ _ Heq1 Hpu) as Hpu1.
  pose proof (keq_ram _ _ Heq1) as Hr1. pose proof (keq_procs _ _ Heq1) as Hp1. pose proof Hpu1 as [(Hs1 & Hlen & Hlk) L1 U1 O1 C1 P1 Z1 _].
  apply wp_bind, wp_acquire; [done|]. apply wp_bind. pose proof (pipe_enter _ _ _ _ _ _ _ _ Hpu1) as Hin.
  apply (wp_pipewrite_loop E (acq (Lpipe pi) s1) T (p_pagetable p) pi pr p) with (bs := []) (T := T) (l := l) (q := q) (nr := nr).
  all: try done.
  - by apply acq_sync.
  - apply acq_free; [done|]. apply Hlk. rewrite <- Hlen. by eapply lookup_lt_Some.
  - by rewrite app_nil_r.
  - by intros va b _ _ Hx.
  - change (ram (acq (Lpipe pi) s1)) with (ram s1). by rewrite Hr1.
  - cbn [length]. lia.
  - intros bs t T' l' Hin' Hv Hb Hle Hshort. destruct (pv_open _ _ _ _ _ _ _ _ _ Hin') as [Ho1 Ho2]. unfold views_kept, user_has, readopen, writeopen in *. change (ram (acq (Lpipe pi) s1)) with (ram s1) in *. rewrite Hr1 in *.
    apply (wp_pipe_leave E pr p pi s1 T l nr q t T' l' nr (q ++ bs)); [done|done|]. intros s' Hpu' Hr' Hw. exists bs, T', l'.
    unfold views_kept, user_has. rewrite Hr', Hp1 in *. split_and!; [done|done| |done|done|done| |done].
    + intros Hrd. destruct (Z.lt_ge_cases (Z.of_nat (length bs)) n); [by destruct Hshort|lia].
    + by rewrite Ho1, Ho2.
Qed.

Lemma wp_piperead_wait E fuel pr pi t nr q (Q : bool → KState → Prop) :
  pipe_rep (ram t) pi nr q → q ≠ [] ∨ writeopen (ram t) pi = false → Q true t → wp E (piperead_wait fuel pr pi) Q t.
Proof.
  intros Hp Hq HQ. assert (Hb : (nr =? u32 (nr + Z.of_nat (length q))) && negb (read_le (ram t) (pi + PI_writeopen) 4 =? 0) = false).
  { rewrite (pipe_empty _ _ _ _ Hp). destruct Hq as [Hq|Hq]; [by rewrite bool_decide_eq_false_2|]. unfold writeopen in Hq. rewrite Hq. apply andb_false_r. }
  destruct fuel; cbn [piperead_wait]; apply wp_bind, wp_gets, wp_bind, wp_gets, wp_bind, wp_gets;
    rewrite (pp_nread _ _ _ _ Hp), (pp_nwrite _ _ _ _ Hp), Hb; by apply wp_ret.
Qed.

Lemma wp_piperead E fuel pr p pi s T l nr q addr n :
  pipe_user pr p pi s T l nr q → q ≠ [] ∨ writeopen (ram s) pi = false → 0 ≤ n → 0 ≤ addr → addr + n ≤ 2 ^ 64 →
  wp E (piperead fuel pi addr n) (λ r s', ∃ es q' T' l' nr',
    q = es ++ q' ∧ pipe_user pr p pi s' T' l' nr' q' ∧ user_has s' T' addr es ∧ views_kept addr n s T s' T' ∧
    Z.of_nat (length es) ≤ n ∧ (r = Z.of_nat (length es) ∨ r = -1 ∧ es = []) ∧
    (writable (ram s) T addr n → r = Z.min n (Z.of_nat (length q))) ∧
    (readopen (ram s') pi, writeopen (ram s') pi) = (readopen (ram s) pi, writeopen (ram s) pi) ∧
    Forall2 woke (procs s) (procs s')) s.
Proof.
  intros Hpu Hq Hn Ha Hend. unfold piperead. pose proof (pu_table _ _ _ _ _ _ _ _ Hpu) as (Hs & _).
  apply wp_bind. eapply wp_curproc; [done|apply Hpu|]. intros s1 Heq1. pose proof (pipe_user_keq _ _ _ _ s1 _ _ _ _ Heq1 Hpu) as Hpu1.
  pose proof (keq_ram _ _ Heq1) as Hr1. pose proof (keq_procs _ _ Heq1) as Hp1. pose proof Hpu1 as [(Hs1 & Hlen & Hlk) L1 U1 O1 C1 P1 Z1 R1].
  apply wp_bind, wp_acquire; [done|]. apply wp_bind. pose proof (pipe_enter _ _ _ _ _ _ _ _ Hpu1) as Hin.
  eapply wp_piperead_wait; [exact R1|change (ram (acq (Lpipe pi) s1)) with (ram s1); by rewrite Hr1|]. cbn [negb]. apply wp_bind.
  apply (wp_piperead_copy E (acq (Lpipe pi) s1) T (p_pagetable p) pi pr p) with (ds := []) (T := T) (l := l) (q := q) (nr := nr).
  all: try done.
  - by apply acq_sync.
  - apply acq_free; [done|]. apply Hlk. rewrite <- Hlen. by eapply lookup_lt_Some.
  - by intros va b _ _ Hx.
  - cbn [length]. lia.
  - cbn [length Nat.add app]. rewrite Z2Nat.id by done. intros es q' failed t T' l' nr' Hes Hin' Hv Hb Hle Hres.
    destruct (pv_open _ _ _ _ _ _ _ _ _ Hin') as [Ho1 Ho2]. unfold views_kept, user_has, readopen, writeopen in *. change (ram (acq (Lpipe pi) s1)) with (ram s1) in *. rewrite Hr1 in *.
    apply (wp_pipe_leave E pr p pi s1 T l nr q t T' l' nr' q'); [done|done|]. intros s' Hpu' Hr' Hw. exists es, q', T', l', nr'.
    unfold views_kept, user_has. rewrite Hr', Hp1 in *. split_and!; [done|done|done|done|lia| | |by rewrite Ho1, Ho2|done].
    + destruct failed; [|by left]. destruct es as [|e es]; [by right|by left].
    + intros Hwr. destruct failed; [done|]. cbn [andb]. rewrite Hes, length_app. destruct Hres as [Hres|Hres]; [lia|]. subst q'. cbn [length]. lia.
Qed.

(** C15: the writing end of a pipe.  While the reading end is open, the ring
    has room for [n] bytes and the process has not been killed, [pipewrite] returns without sleeping; the number
    it returns is the number of bytes it appended to the queue, in order, and
    they are the bytes of user memory from [addr]; it is [n] when the buffer is
    mapped.  No user byte changes, the flags of the pipe stay, and no process
    changes except that sleepers may become runnable. *)
Theorem pipewrite_appends (fuel : nat) (pr : nat) (p : Proc) (pi : Z) (s : KState) (T : gmap (list Z) Z) (l : list Z) (nr : Z) (q : list Z) (addr n : Z)
  (Hpipe : pipe_user pr p pi s T l nr q) (Hlive : p_killed p = 0) (Hopen : readopen (ram s) pi = true)
  (Hn : 0 ≤ n) (Hroom : Z.of_nat (length q) + n ≤ PIPESIZE) (Hfuel : (Z.to_nat n ≤ fuel)%nat) (Haddr : 0 ≤ addr) (Hend : addr + n ≤ 2 ^ 64) :
  ∃ bs s' T' l', pipewrite fuel pi addr n s = Ret (Z.of_nat (length bs)) s' ∧ Z.of_nat (length bs) ≤ n ∧
    (readable (ram s) T addr n → Z.of_nat (length bs) = n) ∧
    pipe_user pr p pi s' T' l' nr (q ++ bs) ∧ user_has s' T' addr bs ∧ views_kept 0 0 s T s' T' ∧
    (readopen (ram s') pi, writeopen (ram s') pi) = (readopen (ram s) pi, writeopen (ram s) pi) ∧
    Forall2 woke (procs s) (procs s').
Proof.
  pose proof (wp_pipewrite Atomic fuel pr p pi s T l nr q addr n Hpipe Hlive Hopen Hn Hroom Hfuel Haddr Hend) as Hwp.
  apply wp_atomic in Hwp as (r & s' & Hrun & bs & T' & l' & -> & H1 & H2 & H3). by exists bs, s', T', l'.
Qed.

(** C16: the reading end of a pipe.  When the queue is not empty or the writing
    end is closed, [piperead] returns without sleeping.  It removes a prefix of
    the queue, stores exactly those bytes in order from [addr] in user memory
    and returns their number, [min n (length q)] when the buffer is mapped for
    writing; -1 means that the first byte could not be stored and the queue is
    as before.  No user byte outside the [n] bytes from [addr] changes. *)
Theorem piperead_takes (fuel : nat) (pr : nat) (p : Proc) (pi : Z) (s : KState) (T : gmap (list Z) Z) (l : list Z) (nr : Z) (q : list Z) (addr n : Z)
  (Hpipe : pipe_user pr p pi s T l nr q) (Hready : q ≠ [] ∨ writeopen (ram s) pi = false)
  (Hn : 0 ≤ n) (Haddr : 0 ≤ addr) (Hend : addr + n ≤ 2 ^ 64) :
  ∃ r s' es q' T' l' nr', piperead fuel pi addr n s = Ret r s' ∧ q = es ++ q' ∧
    pipe_user pr p pi s' T' l' nr' q' ∧ user_has s' T' addr es ∧ views_kept addr n s T s' T' ∧
    Z.of_nat (length es) ≤ n ∧ (r = Z.of_nat (length es) ∨ r = -1 ∧ es = []) ∧
    (writable (ram s) T addr n → r = Z.min n (Z.of_nat (length q))) ∧
    (readopen (ram s') pi, writeopen (ram s') pi) = (readopen (ram s) pi, writeopen (ram s) pi) ∧
    Forall2 woke (procs s) (procs s').
Proof.
  pose proof (wp_piperead Atomic fuel pr p pi s T l nr q addr n Hpipe Hready Hn Haddr Hend) as Hwp.
  apply wp_atomic in Hwp as (r & s' & Hrun & es & q' & T' & l' & nr' & H1). by exists r, s', es, q', T', l', nr'.
Qed.
End User.

(** ** An example *)

(** Process 0 of [user_sample] with a pipe at 0x80034000 that holds 5, 6, 7;
    its counters are about to wrap. *)
Definition pipe_page : mem :=
  let m0 := write_le (ram user_sample) (0x80034000 + PI_readopen) 1 4 in
  let m1 := write_le m0 (0x80034000 + PI_writeopen) 1 4 in
  let m2 := write_le m1 (0x80034000 + PI_nread) (2 ^ 32 - 2) 4 in
  let m3 := write_le m2 (0x80034000 + PI_nwrite) 1 4 in
  wr (wr (wr m3 (0x80034000 + PI_data + 510) 5) (0x80034000 + PI_data + 511) 6) (0x80034000 + PI_data) 7.
Definition pipe_locks : gmap lockid spinlock :=
  foldr (λ j m, <[Lproc j := mkLock 0 "proc" None]> m) (<[Lpipe 0x80034000 := mkLock 0 "pipe" None]> (locks user_sample)) (seq 0 NPROC).
Definition pipe_sample : KState := set_ram pipe_page (set_locks pipe_locks user_sample).
Definition pipe_proc : Proc := with_sz 8192 (with_pagetable 0x80100000 proc0).

Lemma pipe_page_in : in_page 0x80034000 pipe_page (ram user_sample).
Proof.
  intros x Hx. unfold pipe_page, PI_data, PI_nread, PI_nwrite, PI_readopen, PI_writeopen, PGSIZE in *.
  rewrite !rd_wr, !decide_False by lia. by rewrite !rd_write_le, !decide_False by lia.
Qed.

Lemma pipe_sample_user :
  pipe_user (H := sample_image) (OT := sample_others) 0 pipe_proc 0x80034000 pipe_sample {[ [] := 0x80100000 ]}
    [0x80030000; 0x80031000; 0x80032000; 0x80033000] (2 ^ 32 - 2) [5; 6; 7].
Proof.
  split.
  - apply table_free_b_spec. vm_compute. reflexivity.
  - apply lock_free_b_spec. vm_compute. reflexivity.
  - destruct (uspace_page (H := sample_image) (OT := sample_others) user_sample 0x80100000 {[ [] := 0x80100000 ]} _ 0x80034000 pipe_page user_sample_uspace eq_refl pipe_page_in) as (Hu & _).
    eapply uspace_data; [exact Hu|reflexivity|reflexivity|apply lock_free_b_spec; vm_compute; reflexivity|].
    split; [done|by intros ?].
  - reflexivity.
  - reflexivity.
  - vm_compute. reflexivity.
  - vm_compute. done.
  - split; [vm_compute; reflexivity|lia|vm_compute; reflexivity|done|].
    intros [|[|[|k]]] x Hx; try done; injection Hx as <-; vm_compute; reflexivity.
Qed.

Lemma pipewrite_appends_witness :
  ∃ (bs : list Z) s', pipewrite (H := sample_image) 4 0x80034000 4094 4 pipe_sample = Ret (Z.of_nat (length bs)) s' ∧ Z.of_nat (length bs) ≤ 4.
Proof.
  destruct (pipewrite_appends (H := sample_image) (OT := sample_others) 4 0 pipe_proc 0x80034000 pipe_sample _ _ _ _ 4094 4 pipe_sample_user)
    as (bs & s' & T' & l' & H1 & H2 & _); [reflexivity|vm_compute; reflexivity|lia|done|cbn; lia|lia|lia|].
  exists bs, s'. split; [exact H1|exact H2].
Defined.

Lemma piperead_takes_witness :
  ∃ r s' (es q' : list Z), piperead (H := sample_image) 0 0x80034000 4094 2 pipe_sample = Ret r s' ∧ [5; 6; 7] = es ++ q' ∧ (r = Z.of_nat (length es) ∨ r = -1 ∧ es = []).
Proof.
  destruct (piperead_takes (H := sample_image) (OT := sample_others) 0 0 pipe_proc 0x80034000 pipe_sample _ _ _ _ 4094 2 pipe_sample_user)
    as (r & s' & es & q' & T' & l' & nr' & H1 & H2 & _ & _ & _ & _ & H3 & _); [by left|lia|lia|lia|].
  exists r, s', es, q'. split; [exact H1|]. split; [exact H2|exact H3].
Defined.
