(* ===== verification/CacheSpec.v ===== *)
(** * The buffer cache refines a map of blocks in use

    The specification knows neither buffers nor the LRU list: a map from the
    block numbers in use to reference count, lock and contents, next to the
    disk.  A client of bio.c keeps the buffer [bread] returned for each block. *)

From S2P Require Import Prelude CString Kernel KLogic Spinlock KMem Kalloc Vm VmSpec VmUser Proc ProcSpec Bio BioSpec.
Open Scope Z_scope.
Open Scope os_scope.

(** ** Specification *)

Record Slot := mkSlot { s_ref : Z; s_lock : Sleeplock; s_data : list Z }.

Inductive CacheOp :=
  | CRead (bn : Z)
  | CFill (bn : Z) (v : list Z)
  | CWrite (bn : Z)
  | CRelease (bn : Z)
  | CPin (bn : Z)
  | CUnpin (bn : Z).

Global Instance sleeplock_eq_dec : EqDecision Sleeplock.
Proof. solve_decision. Defined.

Definition hist := list (Z * list Z).

Section Spec.
Context (pid : Z).

(** What an operation of process [pid] does; [None]: the caller must not make
    it, because it would panic, wait for another process, or lose a change
    that is not on the disk. *)
Definition cache_spec (op : CacheOp) (C : gmap Z Slot) (d : hist) : option (gmap Z Slot * hist) :=
  match op with
  | CRead bn =>
      match C !! bn with
      | None => guard (size C < NBUF)%nat;; Some (<[bn := mkSlot 1 (mine pid) (block d bn)]> C, d)
      | Some e => guard (sl_locked (s_lock e) = false ∧ s_ref e + 1 < 2 ^ 32);;
                  Some (<[bn := mkSlot (s_ref e + 1) (mine pid) (s_data e)]> C, d)
      end
  | CFill bn v => e ← C !! bn; guard (s_lock e = mine pid);; Some (<[bn := mkSlot (s_ref e) (s_lock e) v]> C, d)
  | CWrite bn => e ← C !! bn; guard (s_lock e = mine pid);; Some (C, (bn, s_data e) :: d)
  | CRelease bn =>
      e ← C !! bn; guard (s_lock e = mine pid);;
      if s_ref e =? 1 then guard (s_data e = block d bn);; Some (delete bn C, d)
      else Some (<[bn := mkSlot (s_ref e - 1) unlocked (s_data e)]> C, d)
  | CPin bn => e ← C !! bn; guard (s_ref e + 1 < 2 ^ 32);; Some (<[bn := mkSlot (s_ref e + 1) (s_lock e) (s_data e)]> C, d)
  | CUnpin bn => e ← C !! bn; guard (1 < s_ref e);; Some (<[bn := mkSlot (s_ref e - 1) (s_lock e) (s_data e)]> C, d)
  end.

Fixpoint cache_specs (ops : list CacheOp) (C : gmap Z Slot) (d : hist) : option (gmap Z Slot * hist) :=
  match ops with [] => Some (C, d) | op :: ops' => r ← cache_spec op C d; cache_specs ops' r.1 r.2 end.
End Spec.

(** ** The client of bio.c *)

Section Client.
Context `{KernelImage} `{Disk} (sleeps : nat) (dv : Z).

Definition cache_op (op : CacheOp) (h : gmap Z nat) : M (gmap Z nat) :=
  match op with
  | CRead bn => i ← bread sleeps dv bn; mret (<[bn := i]> h)
  | CFill bn v => i ← need (h !! bn); putb i (with_data v);; mret h
  | CWrite bn => i ← need (h !! bn); bwrite i;; mret h
  | CRelease bn => i ← need (h !! bn); brelse i;; mret h
  | CPin bn => i ← need (h !! bn); bpin i;; mret h
  | CUnpin bn => i ← need (h !! bn); bunpin i;; mret h
  end.
Fixpoint cache_ops (ops : list CacheOp) (h : gmap Z nat) : M (gmap Z nat) :=
  match ops with [] => mret h | op :: ops' => h' ← cache_op op h; cache_ops ops' h' end.
End Client.

(** ** Refinement *)

Definition slot_of (e : Ent) : Slot := mkSlot (e_ref e) (e_lock e) (e_data e).
Definition handles (h : gmap Z nat) (A : gmap Z Ent) : Prop := ∀ bn e, A !! bn = Some e → h !! bn = Some (e_buf e).

Section Refine.
Context {IMG : KernelImage} {D : Disk} {DL : DiskLaw D} (sleeps : nat) (me : nat) (pid dv : Z).
Variable s0 : KState.
Hypothesis Hidle : idle me pid s0.

Lemma handles_insert h A bn e e' : handles h A → A !! bn = Some e → e_buf e' = e_buf e → handles h (<[bn := e']> A).
Proof. intros Hh He Hb k x [[<- <-]|[_ Hx]]%lookup_insert_Some; [rewrite Hb|]; by apply Hh. Qed.
Lemma handles_new h A bn e : handles h A → handles (<[bn := e_buf e]> h) (<[bn := e]> A).
Proof.
  intros Hh k x [[<- <-]|[Hne Hx]]%lookup_insert_Some; [by rewrite lookup_insert_eq|]. rewrite lookup_insert_ne by done. by apply Hh.
Qed.
Lemma handles_delete h A bn : handles h A → handles h (delete bn A).
Proof. intros Hh k x [_ Hx]%lookup_delete_Some. by apply Hh. Qed.

Lemma cache_op_refines E A L d s h op C' d' :
  cache dv s0 A L d s → handles h A → cache_spec pid op (slot_of <$> A) d = Some (C', d') →
  wp E (cache_op sleeps dv op h) (λ h' s', ∃ A', cache dv s0 A' L d' s' ∧ handles h' A' ∧ C' = slot_of <$> A') s.
Proof.
  intros Hc Hh Hspec. assert (Hneed : ∀ bn e (k : nat → M (gmap Z nat)) Q, A !! bn = Some e → wp E (k (e_buf e)) Q s → wp E (need (h !! bn) ≫= k) Q s).
  { intros bn e k Q He Hk. apply wp_bind. eapply wp_need; [by apply Hh|done]. }
  destruct op as [bn|bn v|bn|bn|bn|bn]; cbn [cache_op cache_spec] in *; rewrite lookup_fmap in Hspec;
    destruct (A !! bn) as [e|] eqn:He; cbn [fmap option_fmap option_map mbind option_bind slot_of s_ref s_lock s_data] in Hspec; try done;
    apply bind_Some in Hspec as (Hg & _ & Hspec).
  - injection Hspec as <- <-. destruct Hg as [Hl Hr]. apply wp_bind.
    eapply (wp_bread_hit sleeps me pid dv s0 Hidle E A L d bn e); [done..|]. intros s' Hc'. apply wp_ret. eexists. split; [exact Hc'|].
    split; [by apply (handles_new h A bn (take_ent pid e))|by rewrite fmap_insert].
  - injection Hspec as <- <-. rewrite map_size_fmap in Hg. apply wp_bind.
    eapply (wp_bread_miss sleeps me pid dv s0 Hidle E A L d bn); [done..|]. intros i s' Hc'. apply wp_ret. eexists. split; [exact Hc'|].
    split; [by apply (handles_new h A bn (mkEnt i 1 (mine pid) (block d bn)))|by rewrite fmap_insert].
  - injection Hspec as <- <-. eapply Hneed; [exact He|]. apply wp_bind.
    eapply (wp_fill dv s0 E A L d bn e); [done..|]. intros s' Hc'. apply wp_ret. eexists. split; [exact Hc'|].
    split; [by eapply handles_insert|by rewrite fmap_insert].
  - injection Hspec as <- <-. eapply Hneed; [exact He|]. apply wp_bind.
    eapply (wp_bwrite me pid dv s0 Hidle E A L d bn e); [exact Hc|exact He|done|exact Hg|]. intros s' Hc'. apply wp_ret. by eexists.
  - eapply Hneed; [exact He|]. apply wp_bind.
    assert (Hd : e_ref e = 1 → e_data e = block d bn).
    { intros H1. rewrite H1 in Hspec. cbn in Hspec. by case_guard. }
    eapply (wp_brelse me pid dv s0 Hidle E A L d bn e); [exact Hc|exact He|reflexivity|exact Hg|exact Hd|]. intros s' Hc'. apply wp_ret. unfold give_back in Hc'.
    destruct (e_ref e =? 1); [case_guard; cbn [mbind option_bind] in Hspec; [|done]|]; injection Hspec as <- <-;
      (eexists; split; [exact Hc'|]).
    + split; [by apply handles_delete|by rewrite fmap_delete].
    + split; [by eapply handles_insert|by rewrite fmap_insert].
  - injection Hspec as <- <-. eapply Hneed; [exact He|]. apply wp_bind.
    eapply (wp_bpin me pid dv s0 Hidle E A L d bn e); [done..|]. intros s' Hc'. apply wp_ret. eexists. split; [exact Hc'|].
    split; [by eapply handles_insert|by rewrite fmap_insert].
  - injection Hspec as <- <-. eapply Hneed; [exact He|]. apply wp_bind.
    eapply (wp_bunpin me pid dv s0 Hidle E A L d bn e); [done..|]. intros s' Hc'. apply wp_ret. eexists. split; [exact Hc'|].
    split; [by eapply handles_insert|by rewrite fmap_insert].
Qed.

Lemma cache_ops_refines E A L d s h ops C' d' :
  cache dv s0 A L d s → handles h A → cache_specs pid ops (slot_of <$> A) d = Some (C', d') →
  wp E (cache_ops sleeps dv ops h) (λ h' s', ∃ A', cache dv s0 A' L d' s' ∧ handles h' A' ∧ C' = slot_of <$> A') s.
Proof.
  revert A d s h. induction ops as [|op ops IH]; intros A d s h Hc Hh Hspec; cbn [cache_specs cache_ops] in *.
  - injection Hspec as <- <-. apply wp_ret. eauto.
  - destruct (cache_spec pid op (slot_of <$> A) d) as [[C1 d1]|] eqn:H1; [|done]. cbn in Hspec. apply wp_bind.
    eapply wp_mono; [by eapply cache_op_refines|]. intros h1 s1 (A1 & Hc1 & Hh1 & ->). by eapply IH.
Qed.
End Refine.

(** ** [binit] *)

Lemma rep_boot dv f : fs_lru f ≡ₚ seq 0 NBUF → fs_bufs f = replicate NBUF buf0 → dv ≠ 0 → rep dv f ∅.
Proof.
  intros Hlru Hbufs Hdv. assert (Hb : ∀ i b, fs_bufs f !! i = Some b → b = buf0).
  { intros i b Hi. rewrite Hbufs in Hi. by apply lookup_replicate in Hi as [-> _]. }
  split; [done|by rewrite Hbufs, length_replicate|done| | |].
  - intros i b Hi Hr. by rewrite (Hb i b Hi) in Hr.
  - intros i b Hi _. by rewrite (Hb i b Hi).
  - intros i j b c Hi _ Hd. rewrite (Hb i b Hi) in Hd. by cbn in Hd.
Qed.

(** The locks and the list that the loop of [binit] sets up. *)
Definition sleep_locks (n : nat) (m : gmap lockid spinlock) : gmap lockid spinlock :=
  foldl (λ m i, <[Lsleep (Z.of_nat i) := mkLock 0 "sleep lock" None]> m) m (seq 0 n).
Definition binit_state (n : nat) (s : KState) : KState :=
  set_lru (reverse (seq 0 n)) (set_locks (sleep_locks n (<[Lbcache := mkLock 0 "bcache" None]> (locks s))) s).

Lemma binit_state_S n s : fs_bufs (fs s) = replicate NBUF buf0 → (n < NBUF)%nat →
  wp Atomic (initsleeplock n;; modify (λ s, set_lru (n :: fs_lru (fs s)) s)) (λ _ s', s' = binit_state (S n) s) (binit_state n s).
Proof.
  intros Hb Hn. unfold initsleeplock, initlock. apply wp_bind, wp_bind, wp_modify. unfold put_sleep.
  rewrite (proj2 (Nat.ltb_lt _ _) Hn). eapply (wp_putb _ _ buf0); [cbn; rewrite Hb; by apply lookup_replicate_2|].
  apply wp_modify. unfold binit_state, sleep_locks. rewrite seq_S, foldl_app, reverse_app. cbn.
  unfold set_bufs, set_lru, set_fs, set_locks. cbn. rewrite Hb. replace (with_lock _ buf0) with buf0 by done.
  by rewrite insert_replicate.
Qed.

Lemma binit_runs s : fs_bufs (fs s) = replicate NBUF buf0 → binit s = Ret tt (binit_state NBUF s).
Proof.
  intros Hb. assert (Hloop : ∀ m n, (n + m ≤ NBUF)%nat →
    wp Atomic (binit_loop (seq n m)) (λ _ s', s' = binit_state (n + m) s) (binit_state n s)).
  { induction m as [|m IH]; intros n Hn; cbn [seq binit_loop]; [apply wp_ret; by rewrite Nat.add_0_r|].
    pose proof (binit_state_S n s Hb ltac:(lia)) as Hstep. apply wp_run_bind in Hstep.
    apply wp_bind. eapply wp_mono; [exact Hstep|]. intros [] s1 H1. apply wp_bind. eapply wp_mono; [exact H1|].
    intros [] s2 ->. rewrite <- Nat.add_succ_comm. apply IH. lia. }
  assert (Hw : wp Atomic binit (λ _ s', s' = binit_state NBUF s) s).
  { unfold binit, initlock. apply wp_bind, wp_modify. apply wp_bind, wp_modify. apply (Hloop NBUF 0%nat). lia. }
  apply wp_atomic in Hw as ([] & s' & -> & ->). done.
Qed.

Lemma sleep_locks_lookup n m l :
  sleep_locks n m !! l = match l with
                         | Lsleep z => if decide (0 ≤ z < Z.of_nat n) then Some (mkLock 0 "sleep lock" None) else m !! l
                         | _ => m !! l
                         end.
Proof.
  induction n as [|n IH]; [unfold sleep_locks; cbn; destruct l; try done; by rewrite decide_False by lia|].
  unfold sleep_locks in *. rewrite seq_S, foldl_app. cbn. destruct l; try by rewrite lookup_insert_ne, IH by done.
  destruct (decide (n0 = Z.of_nat n)) as [->|Hne].
  - by rewrite lookup_insert_eq, decide_True by lia.
  - rewrite lookup_insert_ne, IH by congruence. destruct (decide (0 ≤ n0 < Z.of_nat n)); [by rewrite decide_True by lia|by rewrite decide_False by lia].
Qed.

#[local] Arguments sleep_locks : simpl never.

(** After [binit] the cache is empty and nobody holds a lock of it. *)
Lemma binit_idle me pid dv s :
  table_free s → c_proc (cpu s) = Some me → (∃ p, procs s !! me = Some p ∧ p_pid p = pid) →
  fs_bufs (fs s) = replicate NBUF buf0 → dv ≠ 0 →
  idle me pid (binit_state NBUF s) ∧ rep dv (fs (binit_state NBUF s)) ∅.
Proof.
  intros (Hs & Hlen & Hp) Hme Hpid Hb Hdv. split.
  - split; [split_and!; [done|done|]|done|done| |].
    + intros j Hj. destruct (Hp j Hj) as [nm Hnm]. exists nm. cbn. by rewrite sleep_locks_lookup, lookup_insert_ne.
    + eexists. cbn. by rewrite sleep_locks_lookup, lookup_insert_eq.
    + intros n Hn. eexists. cbn. by rewrite sleep_locks_lookup, decide_True by (unfold NBUF, MAXOPBLOCKS in *; lia).
  - apply rep_boot; [|done|done]. exact (reverse_Permutation (seq 0 NBUF)).
Qed.

Section Property.
Context {IMG : KernelImage} {D : Disk} {DL : DiskLaw D} (sleeps : nat) (me : nat) (pid dv : Z).

(** C2: the buffer cache implements its specification.  A sequence of
    [bread], changes of the data, [bwrite], [brelse], [bpin] and [bunpin] that
    the specification allows, started with an empty cache, runs without a
    panic or a wait; afterwards the disk is that of the specification, and
    the client's buffer of every block in use has the reference count, the
    lock and the contents the specification says. *)
Theorem buffer_cache_refines (ops : list CacheOp) (s : KState) (C' : gmap Z Slot) (d' : hist)
  (Hid : idle me pid s) (Hrep : rep dv (fs s) ∅) (Hspec : cache_specs pid ops ∅ (fs_disk (fs s)) = Some (C', d')) :
  ∃ h s', cache_ops sleeps dv ops ∅ s = Ret h s' ∧ fs_disk (fs s') = d' ∧ fs_log (fs s') = fs_log (fs s) ∧
    ∀ bn e, C' !! bn = Some e → ∃ i, h !! bn = Some i ∧
      fs_bufs (fs s') !! i = Some (mkBuf true dv bn (s_lock e) (s_ref e) (s_data e)).
Proof.
  assert (Hc : cache dv s ∅ (fs_log (fs s)) (fs_disk (fs s)) s) by (split; [by apply after_same|done..]).
  rewrite <- (fmap_empty slot_of) in Hspec.
  pose proof (cache_ops_refines sleeps me pid dv s Hid Atomic ∅ _ _ s ∅ ops C' d' Hc ltac:(by intros ? ?) Hspec) as Hwp.
  apply wp_atomic in Hwp as (h & s' & Hrun & A' & Hc' & Hh & ->). exists h, s'.
  split_and!; [done|apply Hc'|apply Hc'|]. intros bn e He. rewrite lookup_fmap, fmap_Some in He. destruct He as (x & Hx & ->).
  exists (e_buf x). split; [by apply Hh|]. apply (rep_in _ _ _ (ca_rep _ _ _ _ _ _ Hc') _ _ Hx).
Qed.
End Property.

(** Process 1, with pid 4, after [binit]: two blocks are read and changed, one
    of them is written and given back, the other stays pinned. *)
Definition cache_boot : KState := binit_state NBUF procs_sample.
Definition block_of (v : Z) : list Z := replicate BSIZE v.
Definition cache_sample : list CacheOp :=
  [CRead 40; CFill 40 (block_of 7); CRead 41; CWrite 40; CRelease 40; CPin 41; CRelease 41; CRead 40].

Lemma cache_boot_idle : idle 1 4 cache_boot ∧ rep 1 (fs cache_boot) ∅.
Proof.
  apply binit_idle; [exact procs_sample_free|vm_compute; reflexivity| |vm_compute; reflexivity|done].
  eexists. split; vm_compute; reflexivity.
Qed.

Lemma buffer_cache_refines_witness :
  ∃ h s' i, @cache_ops sample_image polled_disk 0 1 cache_sample ∅ cache_boot = Ret h s' ∧ h !! 40 = Some i ∧
    fs_bufs (fs s') !! i = Some (mkBuf true 1 40 (mine 4) 1 (block_of 7)).
Proof.
  destruct (@buffer_cache_refines sample_image polled_disk polled_disk_law 0 1 4 1 cache_sample cache_boot
    (<[40 := mkSlot 1 (mine 4) (block_of 7)]> (<[41 := mkSlot 1 unlocked (block_of 0)]> ∅)) [(40, block_of 7)])
    as (h & s' & Hrun & _ & _ & Hd).
  - apply cache_boot_idle.
  - apply cache_boot_idle.
  - vm_compute. reflexivity.
  - destruct (Hd 40 (mkSlot 1 (mine 4) (block_of 7))) as (i & Hi & Hb); [vm_compute; reflexivity|].
    exists h, s', i. split; [exact Hrun|]. split; [exact Hi|exact Hb].
Defined.
