(* ===== verification/Virtio.v ===== *)
(** * virtio_disk.c

    The driver of the virtio disk: descriptors, the available and the used
    ring, and the book-keeping of [struct disk].  Pointers that the driver
    hands to the device name the object they point to.  The critical
    sections under [vdisk_lock] are functions on the driver state; [sleep] may
    return at any time, so [wakeup] has nothing to do here.  Memory is
    sequentially consistent. *)

From S2P Require Import Prelude Kernel.
Open Scope Z_scope.

Definition NUM : nat := 8.
Definition VRING_DESC_F_NEXT : Z := 1.
Definition VRING_DESC_F_WRITE : Z := 2.
Definition VIRTIO_BLK_T_IN : Z := 0.
Definition VIRTIO_BLK_T_OUT : Z := 1.
Definition u16 (x : Z) : Z := x mod 2 ^ 16.

(** ** State *)

Inductive DevPtr := Null | ReqAt (i : nat) | DataOf (b : nat) | StatusOf (i : nat).
Record VirtqDesc := mkDesc { d_addr : DevPtr; d_len : Z; d_flags : Z; d_next : Z }.
Record BlkReq := mkReq { q_type : Z; q_reserved : Z; q_sector : Z }.
(** The fields of [struct buf] the driver uses. *)
Record VBuf := mkVBuf { vb_blockno : Z; vb_data : list Z; vb_disk : Z }.

Record VDisk := mkVDisk {
  v_desc : list VirtqDesc;
  avail_idx : Z; avail_ring : list Z;
  used_idx_dev : Z; used_ring : list Z;       (* used->idx, used->ring[].id *)
  v_free : list bool; used_idx : Z;
  info_b : list (option nat); info_status : list Z;
  v_ops : list BlkReq;
  v_bufs : list VBuf
}.

Definition set_desc x v := mkVDisk x (avail_idx v) (avail_ring v) (used_idx_dev v) (used_ring v) (v_free v) (used_idx v) (info_b v) (info_status v) (v_ops v) (v_bufs v).
Definition set_avail i x v := mkVDisk (v_desc v) i x (used_idx_dev v) (used_ring v) (v_free v) (used_idx v) (info_b v) (info_status v) (v_ops v) (v_bufs v).
Definition set_used i x v := mkVDisk (v_desc v) (avail_idx v) (avail_ring v) i x (v_free v) (used_idx v) (info_b v) (info_status v) (v_ops v) (v_bufs v).
Definition set_free x v := mkVDisk (v_desc v) (avail_idx v) (avail_ring v) (used_idx_dev v) (used_ring v) x (used_idx v) (info_b v) (info_status v) (v_ops v) (v_bufs v).
Definition set_used_idx x v := mkVDisk (v_desc v) (avail_idx v) (avail_ring v) (used_idx_dev v) (used_ring v) (v_free v) x (info_b v) (info_status v) (v_ops v) (v_bufs v).
Definition set_info_b x v := mkVDisk (v_desc v) (avail_idx v) (avail_ring v) (used_idx_dev v) (used_ring v) (v_free v) (used_idx v) x (info_status v) (v_ops v) (v_bufs v).
Definition set_status x v := mkVDisk (v_desc v) (avail_idx v) (avail_ring v) (used_idx_dev v) (used_ring v) (v_free v) (used_idx v) (info_b v) x (v_ops v) (v_bufs v).
Definition set_ops x v := mkVDisk (v_desc v) (avail_idx v) (avail_ring v) (used_idx_dev v) (used_ring v) (v_free v) (used_idx v) (info_b v) (info_status v) x (v_bufs v).
Definition set_vbufs x v := mkVDisk (v_desc v) (avail_idx v) (avail_ring v) (used_idx_dev v) (used_ring v) (v_free v) (used_idx v) (info_b v) (info_status v) (v_ops v) x.

(** ** Driver code: results, panics and accesses outside an array *)

Inductive Out (A : Type) := Done (a : A) (v : VDisk) | Panics (m : string) | Invalid.
Arguments Done {A} a v.
Arguments Panics {A} m.
Arguments Invalid {A}.
Definition DM (A : Type) : Type := VDisk → Out A.

Global Instance DM_ret : MRet DM := λ A a v, Done a v.
Global Instance DM_bind : MBind DM := λ A B f m v,
  match m v with Done a v' => f a v' | Panics e => Panics e | Invalid => Invalid end.

Definition vget {A} (f : VDisk → A) : DM A := λ v, Done (f v) v.
Definition vput (f : VDisk → VDisk) : DM unit := λ v, Done tt (f v).
Definition vpanic {A} (m : string) : DM A := λ _, Panics m.
(** [f v [i]] and its assignment. *)
Definition at_ {A} (f : VDisk → list A) (i : nat) : DM A :=
  λ v, match f v !! i with Some a => Done a v | None => Invalid end.
Definition put_ {A} (f : VDisk → list A) (g : list A → VDisk → VDisk) (i : nat) (a : A) : DM unit :=
  λ v, if decide (i < length (f v))%nat then Done tt (g (<[i := a]> (f v)) v) else Invalid.

(** [alloc_desc]; [None] is -1. *)
Fixpoint alloc_from (l : list nat) : DM (option nat) :=
  match l with
  | [] => mret None
  | i :: l' => f ← at_ v_free i; if (f : bool) then put_ v_free set_free i false;; mret (Some i) else alloc_from l'
  end.
Definition alloc_desc : DM (option nat) := alloc_from (seq 0 NUM).

Definition free_desc (i : nat) : DM unit :=
  if (NUM <=? i)%nat then vpanic "free_desc 1" else
  f ← at_ v_free i;
  if (f : bool) then vpanic "free_desc 2" else
  put_ v_desc set_desc i (mkDesc Null 0 0 0);;
  put_ v_free set_free i true.

(** At most [NUM] descriptors are in a chain: each round frees one that was
    not free. *)
Fixpoint free_chain_loop (fuel : nat) (i : nat) : DM unit :=
  match fuel with
  | O => λ _, Invalid
  | S fuel' =>
      d ← at_ v_desc i;
      free_desc i;;
      if Z.land (d_flags d) VRING_DESC_F_NEXT =? 0 then mret tt else free_chain_loop fuel' (Z.to_nat (d_next d))
  end.
Definition free_chain (i : nat) : DM unit := free_chain_loop (S NUM) i.

(** [alloc3_desc]: the descriptors taken so far are [got]. *)
Fixpoint free_all (l : list nat) : DM unit := match l with [] => mret tt | i :: l' => free_desc i;; free_all l' end.
Fixpoint alloc_loop (n : nat) (got : list nat) : DM (option (list nat)) :=
  match n with
  | O => mret (Some got)
  | S n' =>
      o ← alloc_desc;
      match o with
      | None => free_all got;; mret None
      | Some i => alloc_loop n' (got ++ [i])
      end
  end.
Definition alloc3_desc : DM (option (list nat)) := alloc_loop 3 [].

(** [virtio_disk_rw], from the descriptors to the notification. *)
Definition rw_submit (b : nat) (write : bool) (idx : list nat) : DM unit :=
  match idx with
  | [i0; i1; i2] =>
      x ← at_ v_bufs b;
      let sector := u32 (vb_blockno x * (Z.of_nat BSIZE / 512)) in
      put_ v_ops set_ops i0 (mkReq (if write then VIRTIO_BLK_T_OUT else VIRTIO_BLK_T_IN) 0 sector);;
      put_ v_desc set_desc i0 (mkDesc (ReqAt i0) 16 VRING_DESC_F_NEXT (Z.of_nat i1));;
      put_ v_desc set_desc i1 (mkDesc (DataOf b) (Z.of_nat BSIZE) (Z.lor (if write then 0 else VRING_DESC_F_WRITE) VRING_DESC_F_NEXT) (Z.of_nat i2));;
      put_ info_status set_status i0 0xff;;
      put_ v_desc set_desc i2 (mkDesc (StatusOf i0) 1 VRING_DESC_F_WRITE 0);;
      put_ v_bufs set_vbufs b (mkVBuf (vb_blockno x) (vb_data x) 1);;
      put_ info_b set_info_b i0 (Some b);;
      k ← vget avail_idx;
      put_ avail_ring (λ r v, set_avail (avail_idx v) r v) (Z.to_nat (k mod Z.of_nat NUM)) (Z.of_nat i0);;
      vput (λ v, set_avail (u16 (avail_idx v + 1)) (avail_ring v) v)
  | _ => λ _, Invalid
  end.
(** One round of the loop that waits for descriptors; [None] when it sleeps. *)
Definition rw_try (b : nat) (write : bool) : DM (option (list nat)) :=
  o ← alloc3_desc;
  match o with
  | None => mret None
  | Some idx => rw_submit b write idx;; mret (Some idx)
  end.
(** The wait for the interrupt is over. *)
Definition rw_done (b : nat) : DM bool := x ← at_ v_bufs b; mret (negb (vb_disk x =? 1)).
Definition rw_finish (idx : list nat) : DM unit :=
  match idx with i0 :: _ => put_ info_b set_info_b i0 None;; free_chain i0 | [] => λ _, Invalid end.

(** The loop condition and one round of [virtio_disk_intr]. *)
Definition intr_pending : DM bool := i ← vget used_idx; j ← vget used_idx_dev; mret (negb (i =? j)).
Definition intr_one : DM unit :=
  i ← vget used_idx;
  id ← at_ used_ring (Z.to_nat (i mod Z.of_nat NUM));
  st ← at_ info_status (Z.to_nat id);
  if negb (st =? 0) then vpanic "virtio_disk_intr status" else
  ob ← at_ info_b (Z.to_nat id);
  match ob with
  | None => λ _, Invalid
  | Some b =>
      x ← at_ v_bufs b;
      put_ v_bufs set_vbufs b (mkVBuf (vb_blockno x) (vb_data x) 0);;
      vput (λ v, set_used_idx (u16 (used_idx v + 1)) v)
  end.

(** ** [virtio_disk_init] *)

Definition VIRTIO_MMIO_MAGIC_VALUE : Z := 0x000.
Definition VIRTIO_MMIO_VERSION : Z := 0x004.
Definition VIRTIO_MMIO_DEVICE_ID : Z := 0x008.
Definition VIRTIO_MMIO_VENDOR_ID : Z := 0x00c.
Definition VIRTIO_MMIO_DEVICE_FEATURES : Z := 0x010.
Definition VIRTIO_MMIO_DRIVER_FEATURES : Z := 0x020.
Definition VIRTIO_MMIO_QUEUE_SEL : Z := 0x030.
Definition VIRTIO_MMIO_QUEUE_NUM_MAX : Z := 0x034.
Definition VIRTIO_MMIO_QUEUE_NUM : Z := 0x038.
Definition VIRTIO_MMIO_QUEUE_READY : Z := 0x044.
Definition VIRTIO_MMIO_STATUS : Z := 0x070.
Definition VIRTIO_MMIO_QUEUE_DESC_LOW : Z := 0x080.
Definition VIRTIO_MMIO_QUEUE_DESC_HIGH : Z := 0x084.
Definition VIRTIO_MMIO_DRIVER_DESC_LOW : Z := 0x090.
Definition VIRTIO_MMIO_DRIVER_DESC_HIGH : Z := 0x094.
Definition VIRTIO_MMIO_DEVICE_DESC_LOW : Z := 0x0a0.
Definition VIRTIO_MMIO_DEVICE_DESC_HIGH : Z := 0x0a4.

(** The device's registers, as the driver sees them. *)
Class Mmio := { Regs : Type; reg_read : Regs → Z → Z; reg_write : Regs → Z → Z → Regs }.

(** The features the driver does not want. *)
Definition refused_features : list Z := [5; 7; 11; 12; 27; 29; 28].
Definition clear_bit (f k : Z) : Z := Z.land f (Z.lnot (Z.shiftl 1 k)).

Definition write_regs `{Mmio} (r : Regs) (l : list (Z * Z)) : Regs := foldl (λ r x, reg_write r x.1 x.2) r l.

(** [virtio_disk_init] with the pages [kalloc] returns: the registers after
    it, or the message of the panic. *)
Definition virtio_disk_init `{Mmio} (desc avail used : Z) (r : Regs) : Regs + string :=
  if negb ((reg_read r VIRTIO_MMIO_MAGIC_VALUE =? 0x74726976) && (reg_read r VIRTIO_MMIO_VERSION =? 2) &&
           (reg_read r VIRTIO_MMIO_DEVICE_ID =? 2) && (reg_read r VIRTIO_MMIO_VENDOR_ID =? 0x554d4551))
  then inr "could not find virtio disk"%string else
  let r := write_regs r [(VIRTIO_MMIO_STATUS, 0); (VIRTIO_MMIO_STATUS, 1); (VIRTIO_MMIO_STATUS, Z.lor 1 2)] in
  let features := foldl clear_bit (reg_read r VIRTIO_MMIO_DEVICE_FEATURES) refused_features in
  let r := write_regs r [(VIRTIO_MMIO_DRIVER_FEATURES, u32 features); (VIRTIO_MMIO_STATUS, Z.lor (Z.lor 1 2) 8)] in
  let status := reg_read r VIRTIO_MMIO_STATUS in
  if Z.land status 8 =? 0 then inr "virtio disk FEATURES_OK unset"%string else
  let r := write_regs r [(VIRTIO_MMIO_QUEUE_SEL, 0)] in
  if negb (reg_read r VIRTIO_MMIO_QUEUE_READY =? 0) then inr "virtio disk should not be ready"%string else
  let max := reg_read r VIRTIO_MMIO_QUEUE_NUM_MAX in
  if max =? 0 then inr "virtio disk has no queue 0"%string else
  if max <? Z.of_nat NUM then inr "virtio disk max queue too short"%string else
  if (desc =? 0) || (avail =? 0) || (used =? 0) then inr "virtio disk kalloc"%string else
  inl (write_regs r
    [(VIRTIO_MMIO_QUEUE_NUM, Z.of_nat NUM);
     (VIRTIO_MMIO_QUEUE_DESC_LOW, u32 desc); (VIRTIO_MMIO_QUEUE_DESC_HIGH, u32 (Z.shiftr desc 32));
     (VIRTIO_MMIO_DRIVER_DESC_LOW, u32 avail); (VIRTIO_MMIO_DRIVER_DESC_HIGH, u32 (Z.shiftr avail 32));
     (VIRTIO_MMIO_DEVICE_DESC_LOW, u32 used); (VIRTIO_MMIO_DEVICE_DESC_HIGH, u32 (Z.shiftr used 32));
     (VIRTIO_MMIO_QUEUE_READY, 1); (VIRTIO_MMIO_STATUS, Z.lor status 4)]).

(** The driver's memory after it: cleared pages, and all descriptors free. *)
Definition vdisk0 (bufs : list VBuf) : VDisk :=
  mkVDisk (replicate NUM (mkDesc Null 0 0 0)) 0 (replicate NUM 0) 0 (replicate NUM 0) (replicate NUM true) 0
    (replicate NUM None) (replicate NUM 0) (replicate NUM (mkReq 0 0 0)) bufs.

(** ** The machine: calls, driver and device *)

(** A call of [virtio_disk_rw]: waiting for descriptors, or with the local
    array [idx] waiting for the interrupt. *)
Inductive Call := Waiting (b : nat) (write : bool) | InFlight (b : nat) (write : bool) (idx : list nat).
Definition call_buf (c : Call) : nat := match c with Waiting b _ | InFlight b _ _ => b end.

(** A request the device has read from the descriptors. *)
Record Job := mkJob { j_head : nat; j_type : Z; j_sector : Z; j_buf : nat; j_status : nat }.

Record Machine := mkMachine {
  m_v : VDisk;
  m_seen : Z;                  (* the device's index in the available ring *)
  m_jobs : list Job;           (* requests it works on *)
  m_disk : Z → list Z;         (* sectors *)
  m_calls : gmap nat Call      (* by process *)
}.

(** The device follows a chain of three descriptors, as the virtio
    specification says (sections 2.6 and 5.2). *)
Definition read_chain (v : VDisk) (h : nat) : option Job :=
  d0 ← v_desc v !! h;
  d1 ← v_desc v !! Z.to_nat (d_next d0);
  d2 ← v_desc v !! Z.to_nat (d_next d1);
  match d_addr d0, d_addr d1, d_addr d2 with
  | ReqAt r, DataOf b, StatusOf st =>
      q ← v_ops v !! r;
      if (d_flags d0 =? 1) && (d_flags d2 =? 2) && (d_len d0 =? 16) && (d_len d1 =? Z.of_nat BSIZE) && (d_len d2 =? 1) &&
         (d_flags d1 =? (if q_type q =? VIRTIO_BLK_T_IN then 3 else 1)) && ((q_type q =? VIRTIO_BLK_T_IN) || (q_type q =? VIRTIO_BLK_T_OUT))
      then Some (mkJob h (q_type q) (q_sector q) b st) else None
  | _, _, _ => None
  end.

Definition sectors (d : Z → list Z) (s : Z) : list Z := d s ++ d (s + 1).
Definition put_sectors (d : Z → list Z) (s : Z) (bs : list Z) : Z → list Z :=
  λ x, if x =? s then take 512 bs else if x =? s + 1 then drop 512 bs else d x.

Definition with_vdata (bs : list Z) (x : VBuf) : VBuf := mkVBuf (vb_blockno x) bs (vb_disk x).

(** The transfer of a job: the disk and the buffers after it. *)
Definition transfer (j : Job) (d : Z → list Z) (bufs : list VBuf) : (Z → list Z) * list VBuf :=
  if j_type j =? VIRTIO_BLK_T_IN then (d, alter (with_vdata (sectors d (j_sector j))) (j_buf j) bufs)
  else (put_sectors d (j_sector j) (default [] (vb_data <$> bufs !! j_buf j)), bufs).

Definition push_used (h : nat) (v : VDisk) : VDisk :=
  set_used (u16 (used_idx_dev v + 1)) (<[Z.to_nat (used_idx_dev v mod Z.of_nat NUM) := Z.of_nat h]> (used_ring v)) v.

(** A buffer that no call uses. *)
Definition unused (m : Machine) (b : nat) : Prop := ∀ p c, m_calls m !! p = Some c → call_buf c ≠ b.

Inductive vstep (m : Machine) : Machine → Prop :=
  | step_call p b w :
      m_calls m !! p = None → unused m b → (b < length (v_bufs (m_v m)))%nat →
      vstep m (mkMachine (m_v m) (m_seen m) (m_jobs m) (m_disk m) (<[p := Waiting b w]> (m_calls m)))
  | step_sleep p b w v :
      m_calls m !! p = Some (Waiting b w) → rw_try b w (m_v m) = Done None v →
      vstep m (mkMachine v (m_seen m) (m_jobs m) (m_disk m) (m_calls m))
  | step_submit p b w idx v :
      m_calls m !! p = Some (Waiting b w) → rw_try b w (m_v m) = Done (Some idx) v →
      vstep m (mkMachine v (m_seen m) (m_jobs m) (m_disk m) (<[p := InFlight b w idx]> (m_calls m)))
  | step_intr v :
      intr_pending (m_v m) = Done true (m_v m) → intr_one (m_v m) = Done tt v →
      vstep m (mkMachine v (m_seen m) (m_jobs m) (m_disk m) (m_calls m))
  | step_finish p b w idx v :
      m_calls m !! p = Some (InFlight b w idx) → rw_done b (m_v m) = Done true (m_v m) → rw_finish idx (m_v m) = Done tt v →
      vstep m (mkMachine v (m_seen m) (m_jobs m) (m_disk m) (delete p (m_calls m)))
  | step_owner b n bs x :
      unused m b → v_bufs (m_v m) !! b = Some x →
      vstep m (mkMachine (set_vbufs (<[b := mkVBuf n bs (vb_disk x)]> (v_bufs (m_v m))) (m_v m)) (m_seen m) (m_jobs m) (m_disk m) (m_calls m))
  | step_fetch h j :
      m_seen m ≠ avail_idx (m_v m) → avail_ring (m_v m) !! Z.to_nat (m_seen m mod Z.of_nat NUM) = Some h →
      read_chain (m_v m) (Z.to_nat h) = Some j →
      vstep m (mkMachine (m_v m) (u16 (m_seen m + 1)) (m_jobs m ++ [j]) (m_disk m) (m_calls m))
  | step_complete js j js' :
      m_jobs m = js ++ j :: js' →
      vstep m (mkMachine (push_used (j_head j) (set_status (<[j_status j := 0]> (info_status (m_v m)))
                           (set_vbufs (transfer j (m_disk m) (v_bufs (m_v m))).2 (m_v m))))
                 (m_seen m) (js ++ js') (transfer j (m_disk m) (v_bufs (m_v m))).1 (m_calls m)).

(** A step of the driver, or of the device reading the rings, goes wrong: a
    panic, an index outside an array, a malformed chain. *)
Inductive goes_wrong (m : Machine) : Prop :=
  | wrong_try p b w : m_calls m !! p = Some (Waiting b w) → (∀ r v, rw_try b w (m_v m) ≠ Done r v) → goes_wrong m
  | wrong_intr : intr_pending (m_v m) = Done true (m_v m) → (∀ v, intr_one (m_v m) ≠ Done tt v) → goes_wrong m
  | wrong_finish p b w idx :
      m_calls m !! p = Some (InFlight b w idx) → rw_done b (m_v m) = Done true (m_v m) → (∀ v, rw_finish idx (m_v m) ≠ Done tt v) → goes_wrong m
  | wrong_fetch h :
      m_seen m ≠ avail_idx (m_v m) → avail_ring (m_v m) !! Z.to_nat (m_seen m mod Z.of_nat NUM) = Some h →
      read_chain (m_v m) (Z.to_nat h) = None → goes_wrong m.

Definition machine0 (bufs : list VBuf) (d : Z → list Z) : Machine := mkMachine (vdisk0 bufs) 0 [] d ∅.
