(* ===== verification/VirtioSpec.v ===== *)
(** * The disk driver refines an atomic disk

    Any number of processes call [virtio_disk_rw] on buffers of their own,
    while the device takes requests from the available ring, works on them in
    any order and reports them in the used ring.  The invariant relates every
    descriptor in use to the call it belongs to, and every request to its
    place: available ring, device, used ring, or done. *)

From S2P Require Import Prelude Kernel Ring Virtio.
Open Scope Z_scope.

(** ** Running driver code *)

Lemma at_run {A B} (f : VDisk → list A) i a (k : A → DM B) v : f v !! i = Some a → (at_ f i ≫= k) v = k a v.
Proof. intros H. unfold mbind, DM_bind, at_. by rewrite H. Qed.
Lemma put_run {A B} (f : VDisk → list A) g i a (k : unit → DM B) v :
  (i < length (f v))%nat → (put_ f g i a ≫= k) v = k tt (g (<[i := a]> (f v)) v).
Proof. intros H. unfold mbind, DM_bind, put_. by rewrite decide_True. Qed.
Lemma put_last {A} (f : VDisk → list A) g i a v : (i < length (f v))%nat → put_ f g i a v = Done tt (g (<[i := a]> (f v)) v).
Proof. intros H. unfold put_. by rewrite decide_True. Qed.
Lemma bind_run {A B} (m : DM A) (k : A → DM B) v a v' : m v = Done a v' → (m ≫= k) v = k a v'.
Proof. intros H. unfold mbind, DM_bind. by rewrite H. Qed.

(** ** Descriptors *)

Record sized (v : VDisk) : Prop := {
  sz_desc : length (v_desc v) = NUM; sz_avail : length (avail_ring v) = NUM; sz_used : length (used_ring v) = NUM;
  sz_free : length (v_free v) = NUM; sz_info : length (info_b v) = NUM; sz_status : length (info_status v) = NUM; sz_ops : length (v_ops v) = NUM
}.

Lemma alloc_from_spec v l :
  length (v_free v) = NUM → Forall (λ i, i < NUM)%nat l →
  (∃ i, i ∈ l ∧ v_free v !! i = Some true ∧ alloc_from l v = Done (Some i) (set_free (<[i := false]> (v_free v)) v)) ∨
  (Forall (λ i, v_free v !! i = Some false) l ∧ alloc_from l v = Done None v).
Proof.
  intros Hl. induction 1 as [|i l Hi _ IH]; [by right|]. cbn [alloc_from].
  destruct (lookup_lt_is_Some_2 (v_free v) i) as [f Hf]; [by rewrite Hl|]. rewrite (at_run _ _ _ _ _ Hf). destruct f.
  - left. exists i. rewrite put_run by (by rewrite Hl). split_and!; [left|done|done].
  - destruct IH as [(j & Hj & Hf' & Hr)|[Hall Hr]].
    + left. exists j. split_and!; [by right|done|done].
    + right. split; [by constructor|done].
Qed.
Lemma alloc_desc_spec v :
  length (v_free v) = NUM →
  (∃ i, (i < NUM)%nat ∧ v_free v !! i = Some true ∧ alloc_desc v = Done (Some i) (set_free (<[i := false]> (v_free v)) v)) ∨
  alloc_desc v = Done None v.
Proof.
  intros Hl. destruct (alloc_from_spec v (seq 0 NUM) Hl) as [(i & Hi & Hf & Hr)|[_ Hr]]; [|left|by right].
  - apply Forall_forall. intros i Hi%elem_of_seq. lia.
  - exists i. apply elem_of_seq in Hi. split_and!; [lia|done|done].
Qed.

Definition no_desc : VirtqDesc := mkDesc Null 0 0 0.
(** Descriptors given back. *)
Definition clear1 (v : VDisk) (i : nat) : VDisk := set_free (<[i := true]> (v_free v)) (set_desc (<[i := no_desc]> (v_desc v)) v).
Definition cleared (l : list nat) (v : VDisk) : VDisk := foldl clear1 v l.

Lemma free_desc_run v i :
  length (v_free v) = NUM → length (v_desc v) = NUM → v_free v !! i = Some false → free_desc i v = Done tt (cleared [i] v).
Proof.
  intros Hf Hd Hi. pose proof (lookup_lt_Some _ _ _ Hi) as Hlt. unfold free_desc. rewrite (proj2 (Nat.leb_gt _ _)) by lia.
  rewrite (at_run _ _ _ _ _ Hi), put_run by lia. rewrite put_last by (cbn; lia). done.
Qed.

Lemma cleared_cons i l v : cleared (i :: l) v = cleared l (clear1 v i).
Proof. done. Qed.
Lemma cleared_len l v : length (v_free (cleared l v)) = length (v_free v) ∧ length (v_desc (cleared l v)) = length (v_desc v).
Proof.
  revert v. induction l as [|i l IH]; intros v; [done|]. rewrite cleared_cons. destruct (IH (clear1 v i)) as [H1 H2].
  rewrite H1, H2. cbn. by rewrite !length_insert.
Qed.
Lemma cleared_free l v j : (j < length (v_free v))%nat → v_free (cleared l v) !! j = if decide (j ∈ l) then Some true else v_free v !! j.
Proof.
  revert v. induction l as [|i l IH]; intros v Hj; [done|]. rewrite cleared_cons, IH by (cbn; by rewrite length_insert). cbn.
  destruct (decide (j ∈ l)) as [Hin|Hni]; [by rewrite decide_True by (by right)|].
  destruct (decide (j = i)) as [->|Hne]; [rewrite decide_True by left; by rewrite list_lookup_insert_eq|].
  rewrite decide_False by (by intros [->|?]%elem_of_cons). by rewrite list_lookup_insert_ne.
Qed.
Lemma cleared_desc l v j : j ∉ l → v_desc (cleared l v) !! j = v_desc v !! j.
Proof.
  revert v. induction l as [|i l IH]; intros v Hj; [done|]. apply not_elem_of_cons in Hj as [Hne Hj]. rewrite cleared_cons, IH by done.
  cbn. by rewrite list_lookup_insert_ne.
Qed.
(** The other fields. *)
Definition same_rest (v v' : VDisk) : Prop :=
  v' = set_free (v_free v') (set_desc (v_desc v') v).
Lemma cleared_rest l v : same_rest v (cleared l v).
Proof.
  revert v. induction l as [|i l IH]; intros v; [by destruct v|]. rewrite cleared_cons. unfold same_rest in *. rewrite (IH (clear1 v i)) at 1. done.
Qed.

Lemma free_all_run v l :
  length (v_free v) = NUM → length (v_desc v) = NUM → NoDup l → Forall (λ i, v_free v !! i = Some false) l → free_all l v = Done tt (cleared l v).
Proof.
  intros Hf Hd Hnd. revert v Hf Hd. induction Hnd as [|i l Hni _ IH]; intros v Hf Hd Hall; [done|]. apply Forall_cons in Hall as [Hi Hall].
  cbn [free_all]. rewrite (bind_run _ _ _ _ _ (free_desc_run v i Hf Hd Hi)). destruct (cleared_len [i] v) as [L1 L2].
  rewrite IH; [done|by rewrite L1|by rewrite L2|]. apply Forall_forall. intros j Hj. rewrite Forall_forall in Hall.
  pose proof (lookup_lt_Some _ _ _ (Hall j Hj)). rewrite cleared_free by done. rewrite decide_False; [by apply Hall|].
  intros ->%list_elem_of_singleton. done.
Qed.

(** [alloc3_desc] takes three free descriptors or leaves all free ones free. *)
Definition take1 (v : VDisk) (i : nat) : VDisk := set_free (<[i := false]> (v_free v)) v.
Definition taken (l : list nat) (v : VDisk) : VDisk := foldl take1 v l.

Lemma taken_rest l v : taken l v = set_free (v_free (taken l v)) v ∧ length (v_free (taken l v)) = length (v_free v).
Proof.
  revert v. induction l as [|i l IH]; intros v; [by destruct v|]. change (taken (i :: l) v) with (taken l (take1 v i)).
  destruct (IH (take1 v i)) as [H1 H2]. split; [by rewrite H1 at 1|]. rewrite H2. cbn. by rewrite length_insert.
Qed.
Lemma taken_free l v j : (j < length (v_free v))%nat → v_free (taken l v) !! j = if decide (j ∈ l) then Some false else v_free v !! j.
Proof.
  revert v. induction l as [|i l IH]; intros v Hj; [done|]. change (taken (i :: l) v) with (taken l (take1 v i)).
  rewrite IH by (cbn; by rewrite length_insert). cbn.
  destruct (decide (j ∈ l)) as [Hin|Hni]; [by rewrite decide_True by (by right)|].
  destruct (decide (j = i)) as [->|Hne]; [rewrite decide_True by left; by rewrite list_lookup_insert_eq|].
  rewrite decide_False by (by intros [->|?]%elem_of_cons). by rewrite list_lookup_insert_ne.
Qed.

(** A failed allocation. *)
Definition only_free_cleared (v v' : VDisk) : Prop :=
  same_rest v v' ∧ v_free v' = v_free v ∧ length (v_desc v') = NUM ∧ ∀ i, v_free v !! i = Some false → v_desc v' !! i = v_desc v !! i.

Lemma alloc_undone v got :
  length (v_free v) = NUM → length (v_desc v) = NUM → NoDup got → Forall (λ i, v_free v !! i = Some true) got →
  ∃ v', free_all got (taken got v) = Done tt v' ∧ only_free_cleared v v'.
Proof.
  intros Hf Hd Hnd Hall. destruct (taken_rest got v) as [Hrest Hlen]. rewrite Forall_forall in Hall.
  assert (Hlt : ∀ i, i ∈ got → (i < length (v_free v))%nat) by (intros i Hi; eapply lookup_lt_Some, Hall, Hi).
  exists (cleared got (taken got v)). destruct (cleared_len got (taken got v)) as [L1 L2]. split; [|split_and!].
  - apply free_all_run; [congruence|by rewrite Hrest|done|]. apply Forall_forall. intros i Hi.
    by rewrite taken_free, decide_True by auto.
  - pose proof (cleared_rest got (taken got v)) as Hr. unfold same_rest in *. rewrite Hr at 1. by rewrite Hrest at 3.
  - apply list_eq. intros j. destruct (decide (j < NUM)%nat) as [Hj|Hj].
    + rewrite cleared_free by congruence. destruct (decide (j ∈ got)); [by rewrite Hall|]. by rewrite taken_free, decide_False by (by rewrite ?Hf).
    + rewrite !lookup_ge_None_2; [done|lia..].
  - rewrite L2, Hrest. done.
  - intros i Hi. rewrite cleared_desc; [by rewrite Hrest|]. intros Hin. rewrite (Hall _ Hin) in Hi. done.
Qed.

(** [alloc_loop], having taken [got]. *)
Lemma alloc_loop_spec v n got :
  length (v_free v) = NUM → length (v_desc v) = NUM → NoDup got → Forall (λ i, v_free v !! i = Some true) got →
  (∃ l, alloc_loop n got (taken got v) = Done (Some l) (taken l v) ∧ length l = (length got + n)%nat ∧ NoDup l ∧ Forall (λ i, v_free v !! i = Some true) l) ∨
  (∃ v', alloc_loop n got (taken got v) = Done None v' ∧ only_free_cleared v v').
Proof.
  intros Hf Hd. revert got. induction n as [|n IH]; intros got Hnd Hall; cbn [alloc_loop].
  { left. exists got. split_and!; [done|lia|done|done]. }
  destruct (taken_rest got v) as [_ Hlen]. destruct (alloc_desc_spec (taken got v)) as [(i & Hi & Hfi & Hr)|Hr]; [congruence| |];
    rewrite (bind_run _ _ _ _ _ Hr).
  - replace (set_free _ _) with (taken (got ++ [i]) v) by (unfold taken; by rewrite foldl_app).
    rewrite taken_free in Hfi by lia. destruct (decide (i ∈ got)) as [|Hni]; [done|].
    destruct (IH (got ++ [i])) as [(l & H1 & H2 & H3)|(v' & H1 & H2)].
    + apply NoDup_app. split_and!; [done| |apply NoDup_singleton]. intros j Hj ->%list_elem_of_singleton. done.
    + apply Forall_app. split; [done|]. by constructor.
    + left. exists l. rewrite length_app in H2. cbn in H2. split_and!; [done|lia|apply H3..].
    + right. by exists v'.
  - right. destruct (alloc_undone v got Hf Hd Hnd Hall) as (v' & H1 & H2). exists v'. by rewrite (bind_run _ _ _ _ _ H1).
Qed.


(** ** The specification: a disk that serves every call in one step *)

Record ADisk := mkADisk { a_disk : Z → list Z; a_bufs : list (Z * list Z); a_calls : gmap nat (nat * bool * bool) }.
Definition block_sector (n : Z) : Z := u32 (n * 2).

Inductive astep (a : ADisk) : ADisk → Prop :=
  | astep_call p b w :
      a_calls a !! p = None → (∀ q c, a_calls a !! q = Some c → c.1.1 ≠ b) →
      astep a (mkADisk (a_disk a) (a_bufs a) (<[p := (b, w, false)]> (a_calls a)))
  | astep_read p b n bs :
      a_calls a !! p = Some (b, false, false) → a_bufs a !! b = Some (n, bs) →
      astep a (mkADisk (a_disk a) (<[b := (n, sectors (a_disk a) (block_sector n))]> (a_bufs a)) (<[p := (b, false, true)]> (a_calls a)))
  | astep_write p b n bs :
      a_calls a !! p = Some (b, true, false) → a_bufs a !! b = Some (n, bs) →
      astep a (mkADisk (put_sectors (a_disk a) (block_sector n) bs) (a_bufs a) (<[p := (b, true, true)]> (a_calls a)))
  | astep_return p b w :
      a_calls a !! p = Some (b, w, true) → astep a (mkADisk (a_disk a) (a_bufs a) (delete p (a_calls a)))
  | astep_owner b n bs :
      (∀ q c, a_calls a !! q = Some c → c.1.1 ≠ b) → (b < length (a_bufs a))%nat →
      astep a (mkADisk (a_disk a) (<[b := (n, bs)]> (a_bufs a)) (a_calls a)).

(** A call is served when its status byte says so. *)
Definition served (v : VDisk) (idx : list nat) : bool :=
  match idx with i0 :: _ => bool_decide (info_status v !! i0 = Some 0) | [] => false end.
Definition abs_call (v : VDisk) (c : Call) : nat * bool * bool :=
  match c with Waiting b w => (b, w, false) | InFlight b w idx => (b, w, served v idx) end.
Definition abs_buf (x : VBuf) : Z * list Z := (vb_blockno x, vb_data x).
Definition abs (m : Machine) : ADisk :=
  mkADisk (m_disk m) (abs_buf <$> v_bufs (m_v m)) (abs_call (m_v m) <$> m_calls m).

(** ** The invariant *)

(** The ring holds the queue [q] from index [lo]. *)
Definition region (ring : list Z) (lo : Z) (q : list nat) : Prop := holds NUM ring lo (Z.of_nat <$> q).

Definition ty (w : bool) : Z := if w then VIRTIO_BLK_T_OUT else VIRTIO_BLK_T_IN.

(** The three descriptors of a call on [b]. *)
Record formatted (v : VDisk) (b : nat) (w : bool) (i0 i1 i2 : nat) : Prop := {
  f_nodup : NoDup [i0; i1; i2];
  f_busy : Forall (λ i, v_free v !! i = Some false) [i0; i1; i2];
  f_d0 : v_desc v !! i0 = Some (mkDesc (ReqAt i0) 16 VRING_DESC_F_NEXT (Z.of_nat i1));
  f_d1 : v_desc v !! i1 = Some (mkDesc (DataOf b) (Z.of_nat BSIZE) (Z.lor (if w then 0 else VRING_DESC_F_WRITE) VRING_DESC_F_NEXT) (Z.of_nat i2));
  f_d2 : v_desc v !! i2 = Some (mkDesc (StatusOf i0) 1 VRING_DESC_F_WRITE 0);
  f_info : info_b v !! i0 = Some (Some b);
  f_op : ∃ n, vb_blockno <$> v_bufs v !! b = Some n ∧ v_ops v !! i0 = Some (mkReq (ty w) 0 (block_sector n))
}.

(** Where the request of head [h] is: not yet served (in [Q]), served and
    reported (in [U]), or acknowledged. *)
Definition placed (v : VDisk) (Q U : list nat) (b h : nat) : Prop :=
  (h ∈ Q ∧ info_status v !! h = Some 255 ∧ vb_disk <$> v_bufs v !! b = Some 1) ∨
  (h ∈ U ∧ info_status v !! h = Some 0 ∧ vb_disk <$> v_bufs v !! b = Some 1) ∨
  (h ∉ Q ++ U ∧ info_status v !! h = Some 0 ∧ vb_disk <$> v_bufs v !! b = Some 0).

Definition job_of (v : VDisk) (b : nat) (w : bool) (h : nat) : Job :=
  mkJob h (ty w) (block_sector (default 0 (vb_blockno <$> v_bufs v !! b))) b h.

Record inv (m : Machine) (A U : list nat) : Prop := {
  i_sized : sized (m_v m);
  i_seen : 0 ≤ m_seen m < 2 ^ 16;
  i_avail : avail_idx (m_v m) = u16 (m_seen m + Z.of_nat (length A));
  i_aring : region (avail_ring (m_v m)) (m_seen m) A;
  i_uidx : 0 ≤ used_idx (m_v m) < 2 ^ 16;
  i_used : used_idx_dev (m_v m) = u16 (used_idx (m_v m) + Z.of_nat (length U));
  i_uring : region (used_ring (m_v m)) (used_idx (m_v m)) U;
  i_nodup : NoDup (A ++ (j_head <$> m_jobs m) ++ U);
  i_call : ∀ p c, m_calls m !! p = Some c → (call_buf c < length (v_bufs (m_v m)))%nat;
  i_flight : ∀ p b w idx, m_calls m !! p = Some (InFlight b w idx) →
    ∃ i0 i1 i2, idx = [i0; i1; i2] ∧ formatted (m_v m) b w i0 i1 i2 ∧ placed (m_v m) (A ++ (j_head <$> m_jobs m)) U b i0;
  i_bufs : ∀ p q c c', m_calls m !! p = Some c → m_calls m !! q = Some c' → call_buf c = call_buf c' → p = q;
  i_disj : ∀ p q b w idx b' w' idx' i, m_calls m !! p = Some (InFlight b w idx) → m_calls m !! q = Some (InFlight b' w' idx') →
    i ∈ idx → i ∈ idx' → p = q;
  i_heads : ∀ h, h ∈ A ++ (j_head <$> m_jobs m) ++ U → ∃ p b w t, m_calls m !! p = Some (InFlight b w (h :: t));
  i_jobs : ∀ j p b w t, j ∈ m_jobs m → m_calls m !! p = Some (InFlight b w (j_head j :: t)) → j = job_of (m_v m) b w (j_head j);
  i_owned : ∀ i, v_free (m_v m) !! i = Some false → ∃ p b w idx, m_calls m !! p = Some (InFlight b w idx) ∧ i ∈ idx
}.

(** ** Rings *)

Lemma u16_range x : 0 ≤ u16 x < 2 ^ 16.
Proof. unfold u16. apply Z.mod_pos_bound. lia. Qed.
Lemma u16_small x : 0 ≤ x < 2 ^ 16 → u16 x = x.
Proof. apply Z.mod_small. Qed.
Lemma u16_add x y : u16 (u16 x + y) = u16 (x + y).
Proof. unfold u16. apply Zplus_mod_idemp_l. Qed.
Lemma NUM_ok : (0 < NUM)%nat ∧ 0 < 2 ^ 16 ∧ (Z.of_nat NUM | 2 ^ 16).
Proof. split_and!; [apply Nat.ltb_lt; reflexivity|lia|]. by exists 8192. Qed.
Lemma mod_lt_NUM x : (Z.to_nat (x mod Z.of_nat NUM) < NUM)%nat.
Proof. apply cell_lt, NUM_ok. Qed.

Lemma region_pop ring lo h q : region ring lo (h :: q) → region ring (u16 (lo + 1)) q.
Proof. apply (holds_pop NUM (2 ^ 16)); apply NUM_ok. Qed.
Lemma region_push ring lo q h :
  length ring = NUM → (length q < NUM)%nat → region ring lo q →
  region (<[Z.to_nat (u16 (lo + Z.of_nat (length q)) mod Z.of_nat NUM) := Z.of_nat h]> ring) lo (q ++ [h]).
Proof.
  intros Hr Hl H. unfold region. rewrite fmap_app. change (Z.to_nat (u16 ?x mod Z.of_nat NUM)) with (cell NUM (u16 x)). unfold u16.
  rewrite (cell_wrap NUM (2 ^ 16)) by apply NUM_ok. rewrite <- (length_fmap Z.of_nat q). apply holds_push; [apply NUM_ok|done|by rewrite length_fmap|done].
Qed.
Lemma ring_head ring lo h q : region ring lo (h :: q) → ring !! Z.to_nat (lo mod Z.of_nat NUM) = Some (Z.of_nat h).
Proof. apply (holds_head NUM). Qed.

(** Distinct descriptors: there are at most [NUM]. *)
Lemma NoDup_bound (l : list nat) n : NoDup l → (∀ i, i ∈ l → i < n)%nat → (length l ≤ n)%nat.
Proof.
  intros Hnd Hlt. rewrite <- (length_seq n 0). apply submseteq_length, NoDup_submseteq; [done|].
  intros i Hi. apply elem_of_seq. specialize (Hlt i Hi). lia.
Qed.

(** ** Frames *)

(** [v'] agrees with [v] on the descriptors [idx] and the fields of buffer [b]
    that the invariant speaks of. *)
Record same_at (v v' : VDisk) (b : nat) (idx : list nat) : Prop := {
  sa_free : ∀ i, i ∈ idx → v_free v' !! i = v_free v !! i;
  sa_desc : ∀ i, i ∈ idx → v_desc v' !! i = v_desc v !! i;
  sa_info : ∀ i, i ∈ idx → info_b v' !! i = info_b v !! i;
  sa_ops : ∀ i, i ∈ idx → v_ops v' !! i = v_ops v !! i;
  sa_status : ∀ i, i ∈ idx → info_status v' !! i = info_status v !! i;
  sa_no : vb_blockno <$> v_bufs v' !! b = vb_blockno <$> v_bufs v !! b;
  sa_disk : vb_disk <$> v_bufs v' !! b = vb_disk <$> v_bufs v !! b
}.

Lemma formatted_same v v' b w i0 i1 i2 : same_at v v' b [i0; i1; i2] → formatted v b w i0 i1 i2 → formatted v' b w i0 i1 i2.
Proof.
  intros S F. assert (i0 ∈ [i0; i1; i2] ∧ i1 ∈ [i0; i1; i2] ∧ i2 ∈ [i0; i1; i2]) as (E0 & E1 & E2) by set_solver. split.
  - apply F.
  - pose proof (f_busy _ _ _ _ _ _ F) as Hb. rewrite Forall_forall in Hb |- *. intros i Hi. rewrite (sa_free _ _ _ _ S i Hi). by apply Hb.
  - rewrite (sa_desc _ _ _ _ S _ E0). apply F.
  - rewrite (sa_desc _ _ _ _ S _ E1). apply F.
  - rewrite (sa_desc _ _ _ _ S _ E2). apply F.
  - rewrite (sa_info _ _ _ _ S _ E0). apply F.
  - rewrite (sa_no _ _ _ _ S), (sa_ops _ _ _ _ S _ E0). apply F.
Qed.
Lemma placed_same v v' Q U Q' U' b h :
  info_status v' !! h = info_status v !! h → vb_disk <$> v_bufs v' !! b = vb_disk <$> v_bufs v !! b →
  (h ∈ Q' ↔ h ∈ Q) → (h ∈ U' ↔ h ∈ U) → placed v Q U b h → placed v' Q' U' b h.
Proof. intros Hs Hd HQ HU. unfold placed. rewrite Hs, Hd, !elem_of_app, HQ, HU. done. Qed.

(** A call in flight stays good when what it looks at stays. *)
Lemma flight_frame m A U v' Q' U' p b w idx :
  inv m A U → m_calls m !! p = Some (InFlight b w idx) → same_at (m_v m) v' b idx →
  (∀ h t, idx = h :: t → (h ∈ Q' ↔ h ∈ A ++ (j_head <$> m_jobs m)) ∧ (h ∈ U' ↔ h ∈ U)) →
  ∃ i0 i1 i2, idx = [i0; i1; i2] ∧ formatted v' b w i0 i1 i2 ∧ placed v' Q' U' b i0.
Proof.
  intros I Hp S Hq. destruct (i_flight _ _ _ I _ _ _ _ Hp) as (i0 & i1 & i2 & -> & F & P).
  exists i0, i1, i2. split_and!; [done|by eapply formatted_same|]. destruct (Hq i0 [i1; i2] eq_refl).
  eapply placed_same; [| |done..|exact P]; [apply (sa_status _ _ _ _ S); left|apply S].
Qed.

Lemma same_at_refl v b idx : same_at v v b idx.
Proof. by split. Qed.
Lemma job_of_same v v' b w h : vb_blockno <$> v_bufs v' !! b = vb_blockno <$> v_bufs v !! b → job_of v' b w h = job_of v b w h.
Proof. intros H. unfold job_of. by rewrite H. Qed.

Lemma inv_lt m A U h : inv m A U → h ∈ A ++ (j_head <$> m_jobs m) ++ U → (h < NUM)%nat.
Proof.
  intros I Hh. destruct (i_heads _ _ _ I h Hh) as (p & b & w & t & Hp). destruct (i_flight _ _ _ I _ _ _ _ Hp) as (i0 & i1 & i2 & [= -> ->] & F & _).
  rewrite <- (sz_info _ (i_sized _ _ _ I)). eapply lookup_lt_Some, F.
Qed.
Lemma inv_len m A U : inv m A U → (length (A ++ (j_head <$> m_jobs m) ++ U) ≤ NUM)%nat.
Proof. intros I. apply NoDup_bound; [apply I|]. intros i. by apply inv_lt. Qed.

(** ** The steps *)

Lemma inv0 bufs d : inv (machine0 bufs d) [] [].
Proof.
  split; try done; cbn [machine0 m_v vdisk0 v_free].
  - constructor.
  - intros h Hh. by apply not_elem_of_nil in Hh.
  - intros i Hi. apply lookup_replicate in Hi. by destruct Hi.
Qed.

Lemma call_step m A U p b w :
  inv m A U → m_calls m !! p = None → unused m b → (b < length (v_bufs (m_v m)))%nat →
  inv (mkMachine (m_v m) (m_seen m) (m_jobs m) (m_disk m) (<[p := Waiting b w]> (m_calls m))) A U.
Proof.
  intros I Hp Hu Hb. assert (Hin : ∀ q c, <[p := Waiting b w]> (m_calls m) !! q = Some c → (q = p ∧ c = Waiting b w) ∨ (q ≠ p ∧ m_calls m !! q = Some c)).
  { intros q c [[-> <-]|[? ?]]%lookup_insert_Some; auto. }
  assert (Hfl : ∀ q b' w' idx, <[p := Waiting b w]> (m_calls m) !! q = Some (InFlight b' w' idx) ↔ m_calls m !! q = Some (InFlight b' w' idx)).
  { intros q b' w' idx. rewrite lookup_insert_Some. split; [intros [[_ ?]|[_ ?]]; done|]. intros Hq. right. split; [|done]. intros ->. congruence. }
  split; cbn; try apply I.
  - intros q c [[-> ->]|[_ Hq]]%Hin; [done|]. by eapply (i_call _ _ _ I).
  - intros q b' w' idx Hq%Hfl. by eapply (i_flight _ _ _ I).
  - intros q q' c c' [[-> ->]|[_ H1]]%Hin [[-> ->]|[_ H2]]%Hin Hc; cbn in *; [done| | |by eapply (i_bufs _ _ _ I)].
    + by destruct (Hu _ _ H2).
    + by destruct (Hu _ _ H1).
  - intros q q' b1 w1 x1 b2 w2 x2 i H1%Hfl H2%Hfl. by apply (i_disj _ _ _ I q q' b1 w1 x1 b2 w2 x2 i).
  - intros h (q & b' & w' & t & Hq)%(i_heads _ _ _ I). exists q, b', w', t. by apply Hfl.
  - intros j q b' w' t Hj Hq%Hfl. by eapply (i_jobs _ _ _ I).
  - intros i (q & b' & w' & t & Hq & Hi)%(i_owned _ _ _ I). exists q, b', w', t. by rewrite Hfl.
Qed.

(** The driver's state changes where no call in flight looks. *)
Lemma inv_same_calls m A U v d :
  inv m A U → sized v →
  avail_idx v = avail_idx (m_v m) → avail_ring v = avail_ring (m_v m) → used_idx_dev v = used_idx_dev (m_v m) → used_ring v = used_ring (m_v m) →
  used_idx v = used_idx (m_v m) → v_free v = v_free (m_v m) → length (v_bufs v) = length (v_bufs (m_v m)) →
  (∀ p b w idx, m_calls m !! p = Some (InFlight b w idx) → same_at (m_v m) v b idx) →
  inv (mkMachine v (m_seen m) (m_jobs m) d (m_calls m)) A U.
Proof.
  intros I Hs Ha Har Hu Hur Hui Hf Hb Hsame.
  split; cbn in *; rewrite ?Ha, ?Har, ?Hu, ?Hur, ?Hui, ?Hf, ?Hb; try apply I; [done| |].
  - intros p b w idx Hp. eapply flight_frame; [exact I|exact Hp|by eapply Hsame|done].
  - intros j p b w t Hj Hp. rewrite (job_of_same (m_v m)) by (eapply sa_no, Hsame, Hp). by eapply (i_jobs _ _ _ I).
Qed.

Lemma busy_of m A U p b w idx i : inv m A U → m_calls m !! p = Some (InFlight b w idx) → i ∈ idx → v_free (m_v m) !! i = Some false.
Proof.
  intros I Hp Hi. destruct (i_flight _ _ _ I _ _ _ _ Hp) as (i0 & i1 & i2 & -> & F & _). pose proof (f_busy _ _ _ _ _ _ F) as Hb.
  rewrite Forall_forall in Hb. by apply Hb.
Qed.

Lemma sleep_step m A U v : inv m A U → only_free_cleared (m_v m) v → inv (mkMachine v (m_seen m) (m_jobs m) (m_disk m) (m_calls m)) A U.
Proof.
  intros I (Hr & Hf & Hl & Hd). pose proof (i_sized _ _ _ I) as Sz. apply inv_same_calls; [done| |by rewrite Hr..|done|by rewrite Hr|].
  - split; [done| |..]; rewrite Hr; cbn; try apply Sz. rewrite Hf. apply Sz.
  - intros p b w idx Hp. split; try (by rewrite Hr).
    + by rewrite Hf.
    + intros i Hi. apply Hd. by eapply busy_of.
Qed.

Lemma owner_step m A U b n bs x :
  inv m A U → unused m b → v_bufs (m_v m) !! b = Some x →
  inv (mkMachine (set_vbufs (<[b := mkVBuf n bs (vb_disk x)]> (v_bufs (m_v m))) (m_v m)) (m_seen m) (m_jobs m) (m_disk m) (m_calls m)) A U.
Proof.
  intros I Hu Hb. pose proof (i_sized _ _ _ I) as Sz. apply inv_same_calls; try done.
  - split; apply Sz.
  - cbn. by rewrite length_insert.
  - intros p b' w idx Hp. assert (b ≠ b') by (intros ->; by apply (Hu _ _ Hp)). split; cbn; try done; by rewrite list_lookup_insert_ne.
Qed.

(** *** Fetch *)

Lemma read_chain_run v b w i0 i1 i2 : formatted v b w i0 i1 i2 → read_chain v i0 = Some (job_of v b w i0).
Proof.
  intros F. unfold read_chain. rewrite (f_d0 _ _ _ _ _ _ F). cbn [mbind option_bind d_next]. rewrite Nat2Z.id, (f_d1 _ _ _ _ _ _ F). cbn [mbind option_bind d_next].
  rewrite Nat2Z.id, (f_d2 _ _ _ _ _ _ F). cbn [mbind option_bind d_addr]. destruct (f_op _ _ _ _ _ _ F) as (n & Hn & ->). unfold job_of. rewrite Hn. by destruct w.
Qed.

Lemma seen_nonempty m A U : inv m A U → m_seen m ≠ avail_idx (m_v m) → ∃ h A', A = h :: A'.
Proof.
  intros I Hne. destruct A as [|h A']; [|by exists h, A']. rewrite (i_avail _ _ _ I) in Hne. cbn in Hne.
  rewrite Z.add_0_r, u16_small in Hne by apply I. done.
Qed.
Lemma fetch_job m h A U :
  inv m (h :: A) U → ∃ p b w t, m_calls m !! p = Some (InFlight b w (h :: t)) ∧ read_chain (m_v m) h = Some (job_of (m_v m) b w h).
Proof.
  intros I. destruct (i_heads _ _ _ I h) as (p & b & w & t & Hp); [left|]. destruct (i_flight _ _ _ I _ _ _ _ Hp) as (i0 & i1 & i2 & [= -> ->] & F & _).
  exists p, b, w, [i1; i2]. split; [done|]. by eapply read_chain_run.
Qed.
Lemma fetch_step m h A U j :
  inv m (h :: A) U → read_chain (m_v m) h = Some j → inv (mkMachine (m_v m) (u16 (m_seen m + 1)) (m_jobs m ++ [j]) (m_disk m) (m_calls m)) A U.
Proof.
  intros I Hj. destruct (fetch_job m h A U I) as (p & b & w & t & Hp & Hj'). rewrite Hj in Hj'. injection Hj' as ->.
  assert (Heq : ∀ x, x ∈ A ++ (j_head <$> m_jobs m ++ [job_of (m_v m) b w h]) ↔ x ∈ (h :: A) ++ (j_head <$> m_jobs m)).
  { intros x. rewrite fmap_app. cbn. rewrite elem_of_cons, !elem_of_app, list_elem_of_singleton. tauto. }
  split; cbn -[u16] in *; try apply I.
  - apply u16_range.
  - rewrite u16_add, (i_avail _ _ _ I). f_equal. cbn [length]. lia.
  - by eapply region_pop, I.
  - eapply NoDup_Permutation_proper; [|apply I]. rewrite fmap_app. cbn. solve_Permutation.
  - intros q b' w' idx Hq. eapply flight_frame; [exact I|exact Hq|apply same_at_refl|]. intros x t' _. split; [apply Heq|done].
  - intros x Hx. apply (i_heads _ _ _ I). rewrite app_assoc, elem_of_app in Hx |- *. rewrite Heq in Hx. done.
  - intros j q b' w' t' Hin Hq. apply elem_of_app in Hin as [Hin| ->%list_elem_of_singleton]; [by eapply (i_jobs _ _ _ I)|].
    cbn in Hq |- *. pose proof (i_disj _ _ _ I p q _ _ _ _ _ _ h Hp Hq ltac:(left) ltac:(left)) as <-. rewrite Hp in Hq. by injection Hq as <- <- <-.
Qed.

(** *** Interrupt *)

Lemma used_nonempty m A U : inv m A U → used_idx (m_v m) ≠ used_idx_dev (m_v m) → ∃ h U', U = h :: U'.
Proof.
  intros I Hne. destruct U as [|h U']; [|by exists h, U']. rewrite (i_used _ _ _ I) in Hne. cbn in Hne.
  rewrite Z.add_0_r, u16_small in Hne by apply I. done.
Qed.

(** The request at the head of the used queue. *)
Lemma used_head m A h U :
  inv m A (h :: U) → ∃ p b w t x, m_calls m !! p = Some (InFlight b w (h :: t)) ∧ info_b (m_v m) !! h = Some (Some b) ∧
    info_status (m_v m) !! h = Some 0 ∧ v_bufs (m_v m) !! b = Some x ∧ vb_disk x = 1.
Proof.
  intros I. destruct (i_heads _ _ _ I h) as (p & b & w & t & Hp); [set_solver|]. destruct (i_flight _ _ _ I _ _ _ _ Hp) as (i0 & i1 & i2 & [= <- ->] & F & P).
  pose proof (i_nodup _ _ _ I) as Hnd. rewrite app_assoc in Hnd. apply NoDup_app in Hnd as (_ & Hnd & _).
  destruct P as [(Hin & _)|[(_ & Hs & Hd)|(Hni & _)]]; [by destruct (Hnd h Hin); left| |by destruct Hni; set_solver].
  destruct (v_bufs (m_v m) !! b) as [x|] eqn:Hx; [|done]. injection Hd as Hd. exists p, b, w, [i1; i2], x. split_and!; try done. apply F.
Qed.

Definition intr_state (b : nat) (x : VBuf) (v : VDisk) : VDisk :=
  set_used_idx (u16 (used_idx v + 1)) (set_vbufs (<[b := mkVBuf (vb_blockno x) (vb_data x) 0]> (v_bufs v)) v).

Lemma intr_run m A h U b x :
  inv m A (h :: U) → info_b (m_v m) !! h = Some (Some b) → info_status (m_v m) !! h = Some 0 → v_bufs (m_v m) !! b = Some x →
  intr_one (m_v m) = Done tt (intr_state b x (m_v m)).
Proof.
  intros I Hi Hs Hx. unfold intr_one. rewrite (bind_run _ _ _ (used_idx (m_v m)) (m_v m)) by done.
  erewrite at_run by (by eapply ring_head, I). rewrite Nat2Z.id, (at_run _ _ _ _ _ Hs). cbn [negb Z.eqb]. rewrite (at_run _ _ _ _ _ Hi).
  rewrite (at_run _ _ _ _ _ Hx), put_run by (by eapply lookup_lt_Some). done.
Qed.

Lemma insert_proj {B} (f : VBuf → B) (l : list VBuf) b b' x y :
  l !! b = Some x → f y = f x → f <$> <[b := y]> l !! b' = f <$> l !! b'.
Proof.
  intros Hb Hf. destruct (decide (b = b')) as [<-|Hne]; [|by rewrite list_lookup_insert_ne].
  rewrite list_lookup_insert_eq by (by eapply lookup_lt_Some). rewrite Hb. cbn. by rewrite Hf.
Qed.

Lemma intr_step m A h U p b w t x :
  inv m A (h :: U) → m_calls m !! p = Some (InFlight b w (h :: t)) → info_status (m_v m) !! h = Some 0 → v_bufs (m_v m) !! b = Some x →
  inv (mkMachine (intr_state b x (m_v m)) (m_seen m) (m_jobs m) (m_disk m) (m_calls m)) A U.
Proof.
  intros I Hp Hs Hx. pose proof (i_sized _ _ _ I) as Sz. pose proof (i_nodup _ _ _ I) as Hnd. rewrite app_assoc in Hnd.
  assert (Hno : ∀ b', vb_blockno <$> v_bufs (intr_state b x (m_v m)) !! b' = vb_blockno <$> v_bufs (m_v m) !! b').
  { intros b'. cbn. by eapply insert_proj. }
  split; cbn -[u16] in *; try apply I.
  - split; apply Sz.
  - apply u16_range.
  - rewrite u16_add, (i_used _ _ _ I). f_equal. cbn [length]. lia.
  - by eapply region_pop, I.
  - rewrite app_assoc. apply NoDup_app in Hnd as (N1 & N2 & N3%NoDup_cons). apply NoDup_app. split_and!; [done| |apply N3]. set_solver.
  - rewrite length_insert. apply I.
  - intros q b' w' idx Hq. destruct (decide (q = p)) as [->|Hne].
    + rewrite Hp in Hq. injection Hq as <- <- <-. destruct (i_flight _ _ _ I _ _ _ _ Hp) as (i0 & i1 & i2 & [= <- ->] & F & P).
      exists h, i1, i2. split_and!; [done| |].
      * destruct F as [F1 F2 F3 F4 F5 F6 F7]. split; try done. cbn -[u16]. by rewrite Hno.
      * right. right. cbn. rewrite list_lookup_insert_eq by (by eapply lookup_lt_Some). split_and!; [|done|done].
        apply NoDup_app in Hnd as (N1 & N2 & N3%NoDup_cons). rewrite elem_of_app. intros [H|H]; [|by apply N3]. apply (N2 h H). left.
    + assert (b ≠ b') by (intros <-; apply Hne; by eapply (i_bufs _ _ _ I)).
      eapply flight_frame; [exact I|exact Hq| |].
      * split; cbn; try done; by rewrite list_lookup_insert_ne.
      * intros h' t' ->. split; [done|]. rewrite elem_of_cons. split; [auto|]. intros [->|]; [|done].
        destruct Hne. eapply (i_disj _ _ _ I q p); [exact Hq|exact Hp|left..].
  - intros h' Hh. apply (i_heads _ _ _ I). set_solver.
  - intros j q b' w' t' Hj Hq. rewrite (job_of_same (m_v m)) by apply Hno. by eapply (i_jobs _ _ _ I).
Qed.

(** *** Completion *)

Lemma transfer_proj {B} (f : VBuf → B) j d bufs b :
  (∀ bs x, f (with_vdata bs x) = f x) → f <$> (transfer j d bufs).2 !! b = f <$> bufs !! b.
Proof.
  intros Hf. unfold transfer. case_match; [|done]. cbn. destruct (decide (j_buf j = b)) as [<-|Hne].
  - rewrite list_lookup_alter_eq. destruct (bufs !! j_buf j); [cbn; by rewrite Hf|done].
  - by rewrite list_lookup_alter_ne.
Qed.
Lemma transfer_len j d bufs : length (transfer j d bufs).2 = length bufs.
Proof. unfold transfer. case_match; [|done]. cbn. by rewrite length_alter. Qed.

(** A job belongs to a call. *)
Lemma job_call m A U j : inv m A U → j ∈ m_jobs m → ∃ p b w t, m_calls m !! p = Some (InFlight b w (j_head j :: t)) ∧ j = job_of (m_v m) b w (j_head j).
Proof.
  intros I Hj. destruct (i_heads _ _ _ I (j_head j)) as (p & b & w & t & Hp).
  { rewrite !elem_of_app. right. left. by apply list_elem_of_fmap_2. }
  exists p, b, w, t. split; [done|]. by eapply (i_jobs _ _ _ I).
Qed.

Definition completed (j : Job) (d : Z → list Z) (v : VDisk) : VDisk :=
  push_used (j_head j) (set_status (<[j_status j := 0]> (info_status v)) (set_vbufs (transfer j d (v_bufs v)).2 v)).

Lemma complete_step m A U js j js' p b w t :
  inv m A U → m_jobs m = js ++ j :: js' → m_calls m !! p = Some (InFlight b w (j_head j :: t)) → j_status j = j_head j →
  inv (mkMachine (completed j (m_disk m) (m_v m)) (m_seen m) (js ++ js') (transfer j (m_disk m) (v_bufs (m_v m))).1 (m_calls m)) A (U ++ [j_head j]).
Proof.
  intros I Hjs Hp Hst. pose proof (i_sized _ _ _ I) as Sz. pose proof (i_nodup _ _ _ I) as Hnd. pose proof (inv_len _ _ _ I) as Hlen.
  rewrite Hjs, fmap_app, fmap_cons in Hnd, Hlen. set (h := j_head j) in *.
  assert (Hperm : A ++ (j_head <$> js ++ js') ++ (U ++ [h]) ≡ₚ A ++ ((j_head <$> js) ++ h :: (j_head <$> js')) ++ U) by (rewrite fmap_app; solve_Permutation).
  assert (Hno : ∀ b', vb_blockno <$> v_bufs (completed j (m_disk m) (m_v m)) !! b' = vb_blockno <$> v_bufs (m_v m) !! b') by (intros; by apply transfer_proj).
  assert (Hdk : ∀ b', vb_disk <$> v_bufs (completed j (m_disk m) (m_v m)) !! b' = vb_disk <$> v_bufs (m_v m) !! b') by (intros; by apply transfer_proj).
  assert (HlenU : (length U < NUM)%nat) by (rewrite !length_app in Hlen; cbn [length] in Hlen; lia).
  assert (HhU : h ∉ A ++ (j_head <$> js ++ js') ++ U).
  { rewrite <- Hperm in Hnd. rewrite !app_assoc in Hnd. apply NoDup_app in Hnd as (_ & N2 & _). intros Hh. rewrite <- !app_assoc in N2. apply (N2 h Hh). left. }
  unfold completed in *. fold h. rewrite Hst in *. fold h in Hno, Hdk |- *. split; cbn -[u16 NUM] in *; try apply I.
  - split; cbn -[u16 NUM]; rewrite ?length_insert; apply Sz.
  - rewrite (i_used _ _ _ I), u16_add, length_app. f_equal. cbn [length]. lia.
  - rewrite (i_used _ _ _ I). apply region_push; [apply Sz|done|apply I].
  - by rewrite Hperm.
  - rewrite transfer_len. apply I.
  - intros q b' w' idx Hq. destruct (decide (q = p)) as [->|Hne].
    + rewrite Hp in Hq. injection Hq as <- <- <-. destruct (i_flight _ _ _ I _ _ _ _ Hp) as (i0 & i1 & i2 & [= <- ->] & F & P).
      exists h, i1, i2. split_and!; [done| |].
      * destruct F as [F1 F2 F3 F4 F5 F6 F7]. split; try done. cbn -[u16]. by rewrite Hno.
      * right. left. cbn -[u16 NUM]. rewrite Hdk, list_lookup_insert_eq.
        2:{ rewrite (sz_status _ Sz). eapply inv_lt; [exact I|]. rewrite Hjs, fmap_app, fmap_cons. set_solver. }
        split_and!; [set_solver|done|]. destruct P as [P|[P|P]]; [apply P|apply P|]. destruct P as [P _]. destruct P. rewrite Hjs, fmap_app, fmap_cons. set_solver.
    + assert (Hh : h ∉ idx). { intros Hin. apply Hne. eapply (i_disj _ _ _ I q p); [exact Hq|exact Hp|exact Hin|left]. }
      eapply flight_frame; [exact I|exact Hq| |].
      * split; cbn -[u16 NUM]; auto. intros i Hi. rewrite list_lookup_insert_ne; [done|]. by intros ->.
      * intros h' t' ->. apply not_elem_of_cons in Hh as [Hh _]. rewrite Hjs, !fmap_app, fmap_cons, !elem_of_app, elem_of_cons, list_elem_of_singleton.
        fold h. apply not_eq_sym in Hh. clear -Hh. tauto.
  - intros h' Hh. apply (i_heads _ _ _ I). rewrite Hjs, fmap_app, fmap_cons. by rewrite Hperm in Hh.
  - intros j' q b' w' t' Hj Hq. rewrite (job_of_same (m_v m)) by apply Hno. eapply (i_jobs _ _ _ I); [|exact Hq]. rewrite Hjs. set_solver.
Qed.

(** *** Return *)

(** One round of [free_chain]. *)
Lemma chain_round fuel v i d :
  length (v_free v) = NUM → length (v_desc v) = NUM → v_free v !! i = Some false → v_desc v !! i = Some d →
  free_chain_loop (S fuel) i v =
    if Z.land (d_flags d) VRING_DESC_F_NEXT =? 0 then Done tt (cleared [i] v) else free_chain_loop fuel (Z.to_nat (d_next d)) (cleared [i] v).
Proof.
  intros Hf Hd Hi Hdi. cbn [free_chain_loop]. rewrite (at_run _ _ _ _ _ Hdi), (bind_run _ _ _ _ _ (free_desc_run v i Hf Hd Hi)).
  by case_match.
Qed.
Lemma cleared_app l l' v : cleared l' (cleared l v) = cleared (l ++ l') v.
Proof. unfold cleared. by rewrite foldl_app. Qed.

Lemma free_chain_run v b w i0 i1 i2 :
  length (v_free v) = NUM → length (v_desc v) = NUM → formatted v b w i0 i1 i2 →
  rw_finish [i0; i1; i2] v = Done tt (cleared [i0; i1; i2] (set_info_b (<[i0 := None]> (info_b v)) v)).
Proof.
  intros Hf Hd F. cbn [rw_finish]. rewrite put_run by (eapply lookup_lt_Some, F). set (v1 := set_info_b _ v).
  pose proof (f_nodup _ _ _ _ _ _ F) as (N0 & (N1 & _)%NoDup_cons)%NoDup_cons. pose proof (f_busy _ _ _ _ _ _ F) as (B0 & (B1 & (B2 & _)%Forall_cons)%Forall_cons)%Forall_cons.
  assert (Hstep : ∀ l i d fuel, i ∉ l → v_free v !! i = Some false → v_desc v !! i = Some d → free_chain_loop (S fuel) i (cleared l v1) =
     if Z.land (d_flags d) VRING_DESC_F_NEXT =? 0 then Done tt (cleared (l ++ [i]) v1) else free_chain_loop fuel (Z.to_nat (d_next d)) (cleared (l ++ [i]) v1)).
  { intros l i d fuel Hni Hfi Hdi. destruct (cleared_len l v1) as [L1 L2]. rewrite <- cleared_app. apply chain_round; [by rewrite L1|by rewrite L2| |].
    - rewrite cleared_free by (by eapply lookup_lt_Some). by rewrite decide_False.
    - by rewrite cleared_desc. }
  unfold free_chain. change (S NUM) with 9%nat. change v1 with (cleared [] v1) at 1. rewrite (Hstep [] i0 _ _ (not_elem_of_nil _) B0 (f_d0 _ _ _ _ _ _ F)). cbn [d_flags d_next app].
  change (Z.land VRING_DESC_F_NEXT VRING_DESC_F_NEXT =? 0) with false. cbv iota. rewrite Nat2Z.id.
  rewrite (Hstep [i0] i1 _ _ ltac:(set_solver) B1 (f_d1 _ _ _ _ _ _ F)). cbn [d_flags d_next app].
  replace (Z.land _ _ =? 0) with false by (by destruct w). cbv iota. rewrite Nat2Z.id.
  by rewrite (Hstep [i0; i1] i2 _ _ ltac:(set_solver) B2 (f_d2 _ _ _ _ _ _ F)).
Qed.

Lemma finish_step m A U p b w i0 i1 i2 :
  inv m A U → m_calls m !! p = Some (InFlight b w [i0; i1; i2]) → vb_disk <$> v_bufs (m_v m) !! b = Some 0 →
  inv (mkMachine (cleared [i0; i1; i2] (set_info_b (<[i0 := None]> (info_b (m_v m))) (m_v m))) (m_seen m) (m_jobs m) (m_disk m) (delete p (m_calls m))) A U.
Proof.
  intros I Hp Hd. pose proof (i_sized _ _ _ I) as Sz. set (idx := [i0; i1; i2]) in *. set (v1 := set_info_b _ _). pose proof (cleared_rest idx v1) as Hr.
  destruct (cleared_len idx v1) as [L1 L2]. set (v' := cleared idx v1) in *. unfold same_rest in Hr.
  assert (Hfree : ∀ i, (i < NUM)%nat → v_free v' !! i = if decide (i ∈ idx) then Some true else v_free (m_v m) !! i).
  { intros i Hi. unfold v'. rewrite cleared_free by (cbn; by rewrite (sz_free _ Sz)). done. }
  assert (Hout : ∀ h, h ∈ A ++ (j_head <$> m_jobs m) ++ U → h ≠ i0).
  { intros h Hh ->. destruct (i_flight _ _ _ I _ _ _ _ Hp) as (? & ? & ? & [= <- <- <-] & F & [P|[P|P]]); [destruct P as (_ & _ & P); congruence|destruct P as (_ & _ & P); congruence|].
    destruct P as [P _]. rewrite app_assoc in Hh. done. }
  assert (Hdj : ∀ q b' w' idx' i, q ≠ p → m_calls m !! q = Some (InFlight b' w' idx') → i ∈ idx' → i ∉ idx).
  { intros q b' w' idx' i Hne Hq Hi Hi'. apply Hne. by eapply (i_disj _ _ _ I q p). }
  split; cbn [m_v m_seen m_jobs m_calls]; try (rewrite Hr; cbn; apply I).
  - split; [by rewrite L2; cbn; apply Sz|..]; rewrite Hr; cbn; rewrite ?length_insert; try apply Sz.
  - apply I.
  - apply I.
  - intros q c Hq. rewrite Hr. cbn. apply lookup_delete_Some in Hq as [_ Hq]. by eapply (i_call _ _ _ I).
  - intros q b' w' idx' [Hne Hq]%lookup_delete_Some. eapply flight_frame; [exact I|exact Hq| |done]. split; try (intros i Hi; rewrite Hr; cbn; done); try (by rewrite Hr).
    + intros i Hi. rewrite Hfree, decide_False; [done|eapply Hdj; [by apply not_eq_sym|done..]|].
      rewrite <- (sz_free _ Sz). eapply lookup_lt_Some, busy_of; [exact I|exact Hq|done].
    + intros i Hi. unfold v'. rewrite cleared_desc; [done|]. eapply Hdj; [by apply not_eq_sym|done..].
    + intros i Hi. rewrite Hr. cbn. rewrite list_lookup_insert_ne; [done|]. intros ->. eapply Hdj; [by apply not_eq_sym|exact Hq|exact Hi|left].
  - intros q q' c c' [_ H1]%lookup_delete_Some [_ H2]%lookup_delete_Some. by eapply (i_bufs _ _ _ I).
  - intros q q' b1 w1 x1 b2 w2 x2 i [_ H1]%lookup_delete_Some [_ H2]%lookup_delete_Some. by apply (i_disj _ _ _ I q q' b1 w1 x1 b2 w2 x2 i).
  - intros h Hh. destruct (i_heads _ _ _ I h Hh) as (q & b' & w' & t & Hq). exists q, b', w', t. rewrite lookup_delete_ne; [done|].
    intros <-. rewrite Hp in Hq. injection Hq as _ _ <- _. by destruct (Hout i0 Hh).
  - intros j q b' w' t Hj [_ Hq]%lookup_delete_Some. rewrite (job_of_same (m_v m)) by (by rewrite Hr). by eapply (i_jobs _ _ _ I).
  - intros i Hi. assert (i < NUM)%nat as Hlt by (rewrite <- (sz_free _ Sz); change (v_free (m_v m)) with (v_free v1); rewrite <- L1; by eapply lookup_lt_Some).
    rewrite Hfree in Hi by done. destruct (decide (i ∈ idx)) as [|Hni]; [done|]. destruct (i_owned _ _ _ I i Hi) as (q & b' & w' & idx' & Hq & Hi').
    exists q, b', w', idx'. rewrite lookup_delete_ne; [done|]. intros <-. rewrite Hp in Hq. by injection Hq as _ _ <-.
Qed.

(** *** Submission *)

Definition submitted (b : nat) (w : bool) (x : VBuf) (i0 i1 i2 : nat) (v : VDisk) : VDisk :=
  mkVDisk
    (<[i2 := mkDesc (StatusOf i0) 1 VRING_DESC_F_WRITE 0]>
      (<[i1 := mkDesc (DataOf b) (Z.of_nat BSIZE) (Z.lor (if w then 0 else VRING_DESC_F_WRITE) VRING_DESC_F_NEXT) (Z.of_nat i2)]>
        (<[i0 := mkDesc (ReqAt i0) 16 VRING_DESC_F_NEXT (Z.of_nat i1)]> (v_desc v))))
    (u16 (avail_idx v + 1)) (<[Z.to_nat (avail_idx v mod Z.of_nat NUM) := Z.of_nat i0]> (avail_ring v))
    (used_idx_dev v) (used_ring v) (v_free v) (used_idx v) (<[i0 := Some b]> (info_b v)) (<[i0 := 255]> (info_status v))
    (<[i0 := mkReq (ty w) 0 (block_sector (vb_blockno x))]> (v_ops v)) (<[b := mkVBuf (vb_blockno x) (vb_data x) 1]> (v_bufs v)).

Lemma submit_run v b w x i0 i1 i2 :
  sized v → v_bufs v !! b = Some x → Forall (λ i, i < NUM)%nat [i0; i1; i2] → rw_submit b w [i0; i1; i2] v = Done tt (submitted b w x i0 i1 i2 v).
Proof.
  intros Sz Hx (H0 & (H1 & (H2 & _)%Forall_cons)%Forall_cons)%Forall_cons. pose proof (mod_lt_NUM (avail_idx v)) as Hk. cbn [rw_submit].
  rewrite (at_run _ _ _ _ _ Hx). destruct Sz as [S1 S2 S3 S4 S5 S6 S7]. pose proof (lookup_lt_Some _ _ _ Hx) as Hb.
  do 7 rewrite put_run by (cbn -[NUM]; rewrite ?length_insert, ?S1, ?S2, ?S5, ?S6, ?S7; done).
  erewrite bind_run by done. cbv beta. by rewrite put_run by (cbn -[NUM]; by rewrite S2).
Qed.

Lemma sized_taken l v : sized v → sized (taken l v).
Proof. intros Sz. destruct (taken_rest l v) as [Hr Hl]. split; rewrite Hr; cbn; try apply Sz. rewrite Hl. apply Sz. Qed.
Lemma submitted_sized b w x i0 i1 i2 v : sized v → sized (submitted b w x i0 i1 i2 v).
Proof. intros Sz. split; cbn -[NUM u16]; rewrite ?length_insert; apply Sz. Qed.

Lemma rw_try_run m A U p b w :
  inv m A U → m_calls m !! p = Some (Waiting b w) →
  (∃ v, rw_try b w (m_v m) = Done None v ∧ only_free_cleared (m_v m) v) ∨
  (∃ i0 i1 i2 x, rw_try b w (m_v m) = Done (Some [i0; i1; i2]) (submitted b w x i0 i1 i2 (taken [i0; i1; i2] (m_v m))) ∧
     v_bufs (m_v m) !! b = Some x ∧ NoDup [i0; i1; i2] ∧ Forall (λ i, v_free (m_v m) !! i = Some true) [i0; i1; i2]).
Proof.
  intros I Hp. pose proof (i_sized _ _ _ I) as Sz. pose proof (i_call _ _ _ I _ _ Hp) as Hb. unfold rw_try, alloc3_desc.
  destruct (alloc_loop_spec (m_v m) 3 []) as [(l & Hr & Hl & Hnd & Hall)|(v & Hr & Ho)]; [apply Sz|apply Sz|constructor|constructor| |].
  - right. change (taken [] (m_v m)) with (m_v m) in Hr. rewrite (bind_run _ _ _ _ _ Hr). destruct l as [|i0 [|i1 [|i2 [|]]]]; try done.
    destruct (lookup_lt_is_Some_2 _ _ Hb) as [x Hx]. cbn [call_buf] in Hx. exists i0, i1, i2, x. split_and!; [|done..].
    erewrite bind_run; [done|]. apply submit_run; [by apply sized_taken|by rewrite (proj1 (taken_rest _ _))|].
    eapply Forall_impl; [exact Hall|]. cbn. intros i Hi. rewrite <- (sz_free _ Sz). by eapply lookup_lt_Some.
  - left. change (taken [] (m_v m)) with (m_v m) in Hr. rewrite (bind_run _ _ _ _ _ Hr). by exists v.
Qed.

Lemma nodup3 (i0 i1 i2 : nat) : NoDup [i0; i1; i2] → i0 ≠ i1 ∧ i0 ≠ i2 ∧ i1 ≠ i2.
Proof. intros (N0 & (N1 & _)%NoDup_cons)%NoDup_cons. set_solver. Qed.

Lemma submitted_formatted b w x i0 i1 i2 v :
  sized v → v_bufs v !! b = Some x → NoDup [i0; i1; i2] → Forall (λ i, v_free v !! i = Some false) [i0; i1; i2] →
  formatted (submitted b w x i0 i1 i2 v) b w i0 i1 i2.
Proof.
  intros Sz Hx Hnd Hall. destruct (nodup3 _ _ _ Hnd) as (N01 & N02 & N12). pose proof Hall as (B0 & (B1 & (B2 & _)%Forall_cons)%Forall_cons)%Forall_cons.
  assert (∀ i, v_free v !! i = Some false → (i < NUM)%nat) as Hlt by (intros i Hi; rewrite <- (sz_free _ Sz); by eapply lookup_lt_Some).
  apply Hlt in B0, B1, B2. destruct Sz as [S1 S2 S3 S4 S5 S6 S7]. split; cbn -[NUM u16]; [done|done|..|exists (vb_blockno x); split].
  - rewrite !list_lookup_insert_ne, list_lookup_insert_eq by (done || by rewrite S1). done.
  - rewrite list_lookup_insert_ne, list_lookup_insert_eq by (done || by rewrite !length_insert, S1). done.
  - rewrite list_lookup_insert_eq by (by rewrite !length_insert, S1). done.
  - rewrite list_lookup_insert_eq by (by rewrite S5). done.
  - rewrite list_lookup_insert_eq by (by eapply lookup_lt_Some). done.
  - rewrite list_lookup_insert_eq by (by rewrite S7). done.
Qed.

(** Submission does not touch the descriptors of other calls. *)
Lemma submitted_same b w x i0 i1 i2 v b' idx :
  sized v → b ≠ b' → (∀ i, i ∈ idx → i ∉ [i0; i1; i2]) → (∀ i, i ∈ idx → (i < NUM)%nat) →
  same_at v (submitted b w x i0 i1 i2 (taken [i0; i1; i2] v)) b' idx.
Proof.
  intros Sz Hb Hd Hlt. assert (Hne : ∀ i, i ∈ idx → i0 ≠ i ∧ i1 ≠ i ∧ i2 ≠ i) by (intros i Hi; specialize (Hd i Hi); set_solver).
  assert (Hf : ∀ i, i ∈ idx → v_free (taken [i0; i1; i2] v) !! i = v_free v !! i).
  { intros i Hi. rewrite taken_free by (rewrite (sz_free _ Sz); auto). rewrite decide_False; auto. }
  set (f := v_free (taken [i0; i1; i2] v)) in *. rewrite (proj1 (taken_rest _ _)). fold f. clearbody f.
  split; cbn -[NUM u16]; try (intros i Hi; destruct (Hne i Hi) as (? & ? & ?)); rewrite ?list_lookup_insert_ne by done; auto.
Qed.

Section submit.
  Context (m : Machine) (A U : list nat) (p b : nat) (w : bool) (x : VBuf) (i0 i1 i2 : nat).
Let idx := [i0; i1; i2].
Let v' := submitted b w x i0 i1 i2 (taken idx (m_v m)).
  Context (I : inv m A U) (Hp : m_calls m !! p = Some (Waiting b w)) (Hx : v_bufs (m_v m) !! b = Some x).
  Context (Hnd : NoDup idx) (Hall : ∀ i, i ∈ idx → v_free (m_v m) !! i = Some true).

Lemma fresh_out q b' w' idx' i : m_calls m !! q = Some (InFlight b' w' idx') → i ∈ idx' → i ∉ idx.
Proof using I Hall. intros Hq Hi Hi'%Hall. rewrite (busy_of _ _ _ _ _ _ _ _ I Hq Hi) in Hi'. done. Qed.
Lemma fresh_head : i0 ∉ A ++ (j_head <$> m_jobs m) ++ U.
Proof using I Hall. intros (q & b' & w' & t & Hq)%(i_heads _ _ _ I). eapply fresh_out; [exact Hq|left|left]. Qed.
Lemma fresh_lt i : i ∈ idx → (i < NUM)%nat.
Proof using I Hall. intros Hi. rewrite <- (sz_free _ (i_sized _ _ _ I)). eapply lookup_lt_Some, Hall, Hi. Qed.
Lemma fresh_nodup : NoDup (i0 :: (A ++ (j_head <$> m_jobs m) ++ U)).
Proof using I Hall. constructor; [apply fresh_head|apply I]. Qed.
Lemma fresh_room : (length A < NUM)%nat.
Proof using I Hall.
  pose proof (NoDup_bound _ NUM fresh_nodup) as Hl. cbn [length] in Hl. rewrite !length_app in Hl. unfold lt. etransitivity; [|apply Hl]; [lia|].
  intros i [->|Hi]%elem_of_cons; [apply fresh_lt; left|by eapply inv_lt].
Qed.
Lemma fresh_same q b' w' idx' : m_calls m !! q = Some (InFlight b' w' idx') → same_at (m_v m) v' b' idx'.
Proof using I Hall Hp.
  intros Hq. apply submitted_same; [apply I| |intros i; by eapply fresh_out|].
  - intros <-. assert (q = p) as -> by (by eapply (i_bufs _ _ _ I q p)). congruence.
  - intros i Hi. rewrite <- (sz_free _ (i_sized _ _ _ I)). eapply lookup_lt_Some, busy_of; [exact I|exact Hq|done].
Qed.
Lemma fresh_free i : (i < NUM)%nat → v_free v' !! i = if decide (i ∈ idx) then Some false else v_free (m_v m) !! i.
Proof using I. intros Hi. unfold v'. cbn -[taken]. rewrite taken_free; [done|]. by rewrite (sz_free _ (i_sized _ _ _ I)). Qed.
Lemma fresh_formatted : formatted v' b w i0 i1 i2.
Proof using I Hall Hnd Hx.
  apply submitted_formatted; [apply sized_taken, I|by rewrite (proj1 (taken_rest _ _))|done|]. apply Forall_forall. intros i Hi.
  rewrite taken_free; [by rewrite decide_True|]. rewrite (sz_free _ (i_sized _ _ _ I)). by apply fresh_lt.
Qed.
Lemma fresh_placed : placed v' ((A ++ [i0]) ++ (j_head <$> m_jobs m)) U b i0.
Proof using I Hall Hx.
  left. split_and!; [rewrite !elem_of_app, list_elem_of_singleton; auto| |].
  - unfold v'. cbn -[taken]. rewrite list_lookup_insert_eq; [done|]. rewrite (proj1 (taken_rest _ _)). cbn. rewrite (sz_status _ (i_sized _ _ _ I)). apply fresh_lt. left.
  - unfold v'. cbn -[taken]. rewrite (proj1 (taken_rest _ _)). cbn. by rewrite list_lookup_insert_eq by (by eapply lookup_lt_Some).
Qed.

Lemma flights_after q b' w' idx' :
  <[p := InFlight b w idx]> (m_calls m) !! q = Some (InFlight b' w' idx') →
  (q = p ∧ b' = b ∧ w' = w ∧ idx' = idx) ∨ (q ≠ p ∧ m_calls m !! q = Some (InFlight b' w' idx')).
Proof using Hp. intros [[-> [= <- <- <-]]|[? ?]]%lookup_insert_Some; [by left|by right]. Qed.

Lemma bufs_after q c : <[p := InFlight b w idx]> (m_calls m) !! q = Some c → ∃ c', m_calls m !! q = Some c' ∧ call_buf c' = call_buf c.
Proof using Hp. intros [[-> <-]|[? ?]]%lookup_insert_Some; [by exists (Waiting b w)|by exists c]. Qed.
Lemma stays q b' w' idx' : m_calls m !! q = Some (InFlight b' w' idx') → <[p := InFlight b w idx]> (m_calls m) !! q = Some (InFlight b' w' idx').
Proof using Hp. intros Hq. rewrite lookup_insert_ne; [done|]. intros <-. congruence. Qed.

Lemma submit_step : inv (mkMachine v' (m_seen m) (m_jobs m) (m_disk m) (<[p := InFlight b w idx]> (m_calls m))) (A ++ [i0]) U.
Proof using I Hp Hx Hnd Hall.
  assert (Hperm : (A ++ [i0]) ++ (j_head <$> m_jobs m) ++ U ≡ₚ i0 :: (A ++ (j_head <$> m_jobs m) ++ U)) by solve_Permutation.
  pose proof (sized_taken idx _ (i_sized _ _ _ I)) as Szt. pose proof fresh_room as Hroom.
  split; cbn [m_v m_seen m_jobs m_calls]; try apply I.
  - by apply submitted_sized.
  - unfold v'. cbn -[u16 taken]. rewrite (proj1 (taken_rest _ _)). cbn -[u16]. rewrite (i_avail _ _ _ I), u16_add, length_app. f_equal. cbn [length]. lia.
  - unfold v'. cbn -[u16 taken NUM]. rewrite (proj1 (taken_rest _ _)). cbn -[u16 NUM]. rewrite (i_avail _ _ _ I). apply region_push; [apply I|done|apply I].
  - rewrite Hperm. apply fresh_nodup.
  - intros q c (c' & Hq & <-)%bufs_after. unfold v'. cbn -[taken]. rewrite length_insert, (proj1 (taken_rest _ _)). by eapply (i_call _ _ _ I).
  - intros q b' w' idx' [(-> & -> & -> & ->)|[Hne Hq]]%flights_after.
    + exists i0, i1, i2. split_and!; [done|apply fresh_formatted|apply fresh_placed].
    + eapply flight_frame; [exact I|exact Hq|by eapply fresh_same|]. intros h t ->. split; [|done].
      assert (h ≠ i0) by (intros ->; eapply fresh_out; [exact Hq|left|left]). rewrite !elem_of_app, list_elem_of_singleton. tauto.
  - intros q q' c c' (c1 & H1 & <-)%bufs_after (c2 & H2 & <-)%bufs_after. by eapply (i_bufs _ _ _ I).
  - intros q q' b1 w1 x1 b2 w2 x2 i [(-> & -> & -> & ->)|[Hne Hq]]%flights_after [(-> & -> & -> & ->)|[Hne' Hq']]%flights_after Hi Hi'; [done| | |].
    + by destruct (fresh_out _ _ _ _ _ Hq' Hi').
    + by destruct (fresh_out _ _ _ _ _ Hq Hi).
    + by eapply (i_disj _ _ _ I q q').
  - intros h Hh. rewrite Hperm in Hh. apply elem_of_cons in Hh as [->|Hh]; [exists p, b, w, [i1; i2]; by rewrite lookup_insert_eq|].
    destruct (i_heads _ _ _ I h Hh) as (q & b' & w' & t & Hq). exists q, b', w', t. by apply stays.
  - intros j q b' w' t Hj [(-> & -> & -> & [= Hj0 ->])|[Hne Hq]]%flights_after.
    + destruct fresh_head. rewrite !elem_of_app. right. left. rewrite <- Hj0. by apply list_elem_of_fmap_2.
    + rewrite (job_of_same (m_v m)) by (eapply sa_no, fresh_same, Hq). by eapply (i_jobs _ _ _ I).
  - intros i Hi. assert (i < NUM)%nat as Hlt.
    { apply lookup_lt_Some in Hi. unfold v' in Hi. cbn -[taken] in Hi. by rewrite (sz_free _ Szt) in Hi. }
    rewrite fresh_free in Hi by done. destruct (decide (i ∈ idx)) as [Hin|_]; [exists p, b, w, idx; by rewrite lookup_insert_eq|].
    destruct (i_owned _ _ _ I i Hi) as (q & b' & w' & idx' & Hq & Hi'). exists q, b', w', idx'. split; [by apply stays|done].
Qed.
End submit.

(** ** Refinement *)

Lemma served_status v v' idx : (∀ i, i ∈ idx → info_status v' !! i = info_status v !! i) → served v' idx = served v idx.
Proof. intros H. destruct idx as [|i0 t]; [done|]. cbn. by rewrite (H i0) by left. Qed.
Lemma abs_calls_same v v' (calls : gmap nat Call) :
  (∀ p b w idx, calls !! p = Some (InFlight b w idx) → served v' idx = served v idx) → abs_call v' <$> calls = abs_call v <$> calls.
Proof. intros H. apply map_fmap_ext. intros p [b w|b w idx] Hp; [done|]. cbn. by rewrite (H p b w idx Hp). Qed.
Lemma abs_bufs_insert (bufs : list VBuf) b x y : bufs !! b = Some x → abs_buf y = abs_buf x → abs_buf <$> <[b := y]> bufs = abs_buf <$> bufs.
Proof. intros Hb Hxy. rewrite list_fmap_insert, Hxy. apply list_insert_id. by rewrite list_lookup_fmap, Hb. Qed.
Lemma abs_lookup m p c : m_calls m !! p = Some c → a_calls (abs m) !! p = Some (abs_call (m_v m) c).
Proof. intros H. cbn. by rewrite lookup_fmap, H. Qed.
Lemma abs_unused m b : unused m b → ∀ q c, a_calls (abs m) !! q = Some c → c.1.1 ≠ b.
Proof. intros Hu q c. cbn. rewrite lookup_fmap. intros (c0 & Hq & ->)%fmap_Some. by destruct c0; apply (Hu _ _ Hq). Qed.

Lemma abs_eq m m' :
  m_disk m' = m_disk m → abs_buf <$> v_bufs (m_v m') = abs_buf <$> v_bufs (m_v m) → abs_call (m_v m') <$> m_calls m' = abs_call (m_v m) <$> m_calls m → abs m' = abs m.
Proof. unfold abs. congruence. Qed.

Definition sim (m m' : Machine) : Prop := (∃ A U, inv m' A U) ∧ (abs m' = abs m ∨ astep (abs m) (abs m')).

Lemma sim_call m A U p b w :
  inv m A U → m_calls m !! p = None → unused m b → (b < length (v_bufs (m_v m)))%nat →
  sim m (mkMachine (m_v m) (m_seen m) (m_jobs m) (m_disk m) (<[p := Waiting b w]> (m_calls m))).
Proof.
  intros I Hp Hu Hb. split; [exists A, U; by apply call_step|]. right. unfold abs at 2. cbn. rewrite fmap_insert. cbn.
  apply (astep_call (abs m)); [cbn; by rewrite lookup_fmap, Hp|by apply abs_unused].
Qed.

Lemma sim_try m A U p b w r v :
  inv m A U → m_calls m !! p = Some (Waiting b w) → rw_try b w (m_v m) = Done r v →
  sim m (mkMachine v (m_seen m) (m_jobs m) (m_disk m) (match r with None => m_calls m | Some idx => <[p := InFlight b w idx]> (m_calls m) end)).
Proof.
  intros I Hp Hr. destruct (rw_try_run m A U p b w I Hp) as [(v' & Hr' & Ho)|(i0 & i1 & i2 & x & Hr' & Hx & Hnd & Hall)]; rewrite Hr in Hr'; injection Hr' as -> ->.
  - split; [exists A, U; by apply sleep_step|]. left. unfold abs. destruct Ho as [-> _]. done.
  - rewrite Forall_forall in Hall. set (idx := [i0; i1; i2]) in *. split; [exists (A ++ [i0]), U; by apply submit_step|]. left.
    change (take1 (take1 (take1 (m_v m) i0) i1) i2) with (taken idx (m_v m)).
    apply abs_eq; [done|by apply (abs_bufs_insert _ b x)|]. cbn [m_v m_disk m_calls].
    + rewrite fmap_insert. rewrite (abs_calls_same (m_v m)).
      * apply insert_id. rewrite lookup_fmap, Hp. unfold abs_call, served, idx.
        pose proof (fresh_placed m A U b w x i0 i1 i2 I Hx Hall) as P. destruct P as [(_ & -> & _)|[(HU & _)|(HU & _)]]; [by rewrite bool_decide_false| |].
        -- destruct (fresh_head m A U i0 i1 i2 I Hall). set_solver.
        -- destruct HU. set_solver.
      * intros q b' w' idx' Hq. apply served_status. apply (fresh_same m A U p b w x i0 i1 i2 I Hp Hall q b' w' idx' Hq).
Qed.

Lemma sim_intr m A U v :
  inv m A U → intr_pending (m_v m) = Done true (m_v m) → intr_one (m_v m) = Done tt v →
  sim m (mkMachine v (m_seen m) (m_jobs m) (m_disk m) (m_calls m)).
Proof.
  intros I Hpend Hr. destruct (used_nonempty m A U I) as (h & U' & ->). { injection Hpend as E. by apply negb_true_iff, Z.eqb_neq in E. }
  destruct (used_head _ _ _ _ I) as (p & b & w & t & x & Hp & Hi & Hs & Hx & _). rewrite (intr_run _ _ _ _ _ _ I Hi Hs Hx) in Hr. injection Hr as <-.
  split; [exists A, U'; by eapply intr_step|]. left. apply abs_eq; [done|by apply (abs_bufs_insert _ b x)|done].
Qed.

Lemma sim_finish m A U p b w idx v :
  inv m A U → m_calls m !! p = Some (InFlight b w idx) → rw_done b (m_v m) = Done true (m_v m) → rw_finish idx (m_v m) = Done tt v →
  sim m (mkMachine v (m_seen m) (m_jobs m) (m_disk m) (delete p (m_calls m))).
Proof.
  intros I Hp Hd Hr. destruct (i_flight _ _ _ I _ _ _ _ Hp) as (i0 & i1 & i2 & -> & F & P).
  rewrite (free_chain_run _ b w i0 i1 i2) in Hr by (done || apply I). injection Hr as <-.
  unfold rw_done in Hd. destruct (v_bufs (m_v m) !! b) as [x|] eqn:Hx; [|by unfold mbind, DM_bind, at_ in Hd; rewrite Hx in Hd].
  rewrite (at_run _ _ _ _ _ Hx) in Hd. injection Hd as Hd%negb_true_iff%Z.eqb_neq.
  unfold placed in P. rewrite Hx in P. cbn in P. destruct P as [(_ & _ & [= P])|[(_ & _ & [= P])|(_ & Hs & [= P])]]; [done|done|].
  split; [exists A, U; apply (finish_step m A U p b w); [done|done|rewrite Hx; cbn; congruence]|]. right. unfold abs at 2. cbn. rewrite fmap_delete.
  apply (astep_return (abs m) p b w). rewrite (abs_lookup m p _ Hp). cbn. by rewrite Hs.
Qed.

Lemma sim_owner m A U b n bs x :
  inv m A U → unused m b → v_bufs (m_v m) !! b = Some x →
  sim m (mkMachine (set_vbufs (<[b := mkVBuf n bs (vb_disk x)]> (v_bufs (m_v m))) (m_v m)) (m_seen m) (m_jobs m) (m_disk m) (m_calls m)).
Proof.
  intros I Hu Hx. split; [exists A, U; by apply owner_step|]. right. unfold abs at 2. cbn. rewrite list_fmap_insert. cbn.
  apply (astep_owner (abs m) b n bs); [by apply abs_unused|]. cbn. rewrite length_fmap. by eapply lookup_lt_Some.
Qed.

Lemma sim_fetch m A U h j :
  inv m A U → m_seen m ≠ avail_idx (m_v m) → avail_ring (m_v m) !! Z.to_nat (m_seen m mod Z.of_nat NUM) = Some h → read_chain (m_v m) (Z.to_nat h) = Some j →
  sim m (mkMachine (m_v m) (u16 (m_seen m + 1)) (m_jobs m ++ [j]) (m_disk m) (m_calls m)).
Proof.
  intros I Hne Hh Hj. destruct (seen_nonempty _ _ _ I Hne) as (h' & A' & ->). rewrite (ring_head _ _ _ _ (i_aring _ _ _ I)) in Hh. injection Hh as <-.
  rewrite Nat2Z.id in Hj. split; [exists A', U; by eapply fetch_step|by left].
Qed.

Lemma abs_bufs_alter (bufs : list VBuf) b x bs :
  bufs !! b = Some x → abs_buf <$> alter (with_vdata bs) b bufs = <[b := (vb_blockno x, bs)]> (abs_buf <$> bufs).
Proof.
  intros Hb. apply list_eq. intros k. rewrite list_lookup_fmap. destruct (decide (b = k)) as [<-|Hne].
  - rewrite list_lookup_alter_eq, Hb, list_lookup_insert_eq; [done|]. rewrite length_fmap. by eapply lookup_lt_Some.
  - by rewrite list_lookup_alter_ne, list_lookup_insert_ne, list_lookup_fmap.
Qed.

Lemma transfer_job v d b w h x n :
  v_bufs v !! b = Some x → vb_blockno x = n →
  transfer (job_of v b w h) d (v_bufs v) = if w then (put_sectors d (block_sector n) (vb_data x), v_bufs v) else (d, alter (with_vdata (sectors d (block_sector n))) b (v_bufs v)).
Proof. intros Hx <-. unfold transfer, job_of. cbn [j_type j_sector j_buf]. rewrite Hx. by destruct w. Qed.

Lemma sim_complete m A U js j js' :
  inv m A U → m_jobs m = js ++ j :: js' →
  sim m (mkMachine (completed j (m_disk m) (m_v m)) (m_seen m) (js ++ js') (transfer j (m_disk m) (v_bufs (m_v m))).1 (m_calls m)).
Proof.
  intros I Hjs. assert (Hin : j ∈ m_jobs m) by (rewrite Hjs; set_solver). destruct (job_call _ _ _ _ I Hin) as (p & b & w & t & Hp & Hj).
  set (h := j_head j) in *. assert (Hst : j_status j = h) by (by rewrite Hj). assert (Hq : h ∈ A ++ (j_head <$> m_jobs m)).
  { rewrite elem_of_app. right. by apply list_elem_of_fmap_2. }
  split; [exists A, (U ++ [h]); by eapply complete_step|]. right.
  destruct (i_flight _ _ _ I _ _ _ _ Hp) as (i0 & i1 & i2 & [= <- ->] & F & P). destruct (f_op _ _ _ _ _ _ F) as (n & Hn & _).
  destruct (v_bufs (m_v m) !! b) as [x|] eqn:Hx; [|done]. injection Hn as Hn.
  assert (Hs : info_status (m_v m) !! h = Some 255).
  { destruct P as [P|[P|P]]; [apply P| |]; exfalso; destruct P as [P _].
    - pose proof (i_nodup _ _ _ I) as Hnd. rewrite app_assoc in Hnd. apply NoDup_app in Hnd as (_ & Hnd & _). by apply (Hnd h).
    - apply P. set_solver. }
  assert (Hcalls : abs_call (completed j (m_disk m) (m_v m)) <$> m_calls m = <[p := (b, w, true)]> (a_calls (abs m))).
  { apply map_eq. intros q. rewrite lookup_fmap. destruct (decide (q = p)) as [->|Hne].
    - rewrite Hp, lookup_insert_eq. cbn -[u16 NUM]. rewrite Hst, list_lookup_insert_eq by (by eapply lookup_lt_Some). done.
    - rewrite lookup_insert_ne by done. cbn -[u16 NUM]. rewrite lookup_fmap. destruct (m_calls m !! q) as [[b' w'|b' w' idx]|] eqn:Hq'; [done| |done].
      cbn -[u16 NUM served]. rewrite (served_status (m_v m)); [done|]. intros i Hi. cbn -[u16 NUM].
      rewrite Hst, list_lookup_insert_ne; [done|].
      intros <-. apply Hne. eapply (i_disj _ _ _ I q p); [exact Hq'|exact Hp|exact Hi|left]. }
  unfold abs at 2. cbn [m_v m_disk m_calls]. rewrite Hcalls.
  assert (Ha : a_calls (abs m) !! p = Some (b, w, false)) by (rewrite (abs_lookup m p _ Hp); cbn; by rewrite Hs).
  assert (Hb : a_bufs (abs m) !! b = Some (n, vb_data x)) by (cbn; by rewrite list_lookup_fmap, Hx, <- Hn).
  assert (Ht : transfer j (m_disk m) (v_bufs (m_v m)) = if w then (put_sectors (m_disk m) (block_sector n) (vb_data x), v_bufs (m_v m))
    else (m_disk m, alter (with_vdata (sectors (m_disk m) (block_sector n))) b (v_bufs (m_v m)))) by (rewrite Hj; by apply transfer_job).
  change (v_bufs (completed j (m_disk m) (m_v m))) with (transfer j (m_disk m) (v_bufs (m_v m))).2. rewrite Ht. destruct w; cbn [fst snd].
  - by apply (astep_write (abs m) p b n).
  - rewrite (abs_bufs_alter _ b x _ Hx), Hn. by apply (astep_read (abs m) p b n (vb_data x)).
Qed.

Lemma vstep_sim m m' A U : inv m A U → vstep m m' → sim m m'.
Proof.
  intros I [].
  - by eapply sim_call.
  - by apply (sim_try m A U p b w None v).
  - by apply (sim_try m A U p b w (Some idx) v).
  - by eapply sim_intr.
  - by eapply sim_finish.
  - by eapply sim_owner.
  - by eapply sim_fetch.
  - by eapply sim_complete.
Qed.

(** Nothing goes wrong in a state of the invariant. *)
Lemma inv_safe m A U : inv m A U → ¬ goes_wrong m.
Proof.
  intros I [p b w Hp Hw|Hpend Hw|p b w idx Hp Hd Hw|h Hne Hh Hw].
  - by destruct (rw_try_run m A U p b w I Hp) as [(v & Hr & _)|(i0 & i1 & i2 & x & Hr & _)]; apply Hw in Hr.
  - destruct (used_nonempty m A U I) as (h & U' & ->). { injection Hpend as E. by apply negb_true_iff, Z.eqb_neq in E. }
    destruct (used_head _ _ _ _ I) as (p & b & w & t & x & _ & Hi & Hs & Hx & _). by apply (Hw _ (intr_run _ _ _ _ _ _ I Hi Hs Hx)).
  - destruct (i_flight _ _ _ I _ _ _ _ Hp) as (i0 & i1 & i2 & -> & F & _). eapply Hw, (free_chain_run _ b w); [apply I|apply I|done].
  - destruct (seen_nonempty _ _ _ I Hne) as (h' & A' & ->). rewrite (ring_head _ _ _ _ (i_aring _ _ _ I)) in Hh. injection Hh as <-.
    rewrite Nat2Z.id in Hw. destruct (fetch_job _ _ _ _ I) as (p & b & w & t & _ & Hj). congruence.
Qed.

(** No descriptor is lost: one in use belongs to a call in flight. *)
Definition no_leak (m : Machine) : Prop := ∀ i, v_free (m_v m) !! i = Some false → ∃ p b w idx, m_calls m !! p = Some (InFlight b w idx) ∧ i ∈ idx.

Lemma vreach_inv bufs d m : rtc vstep (machine0 bufs d) m → (∃ A U, inv m A U) ∧ rtc astep (abs (machine0 bufs d)) (abs m).
Proof.
  revert m. apply rtc_ind_r; [split; [exists [], []; apply inv0|done]|].
  intros m m' _ Hs [(A & U & I) Hr]. destruct (vstep_sim _ _ _ _ I Hs) as [I' [->|Ha]]; [done|]. split; [done|]. by eapply rtc_r.
Qed.

(** C3: the disk driver implements an atomic disk.  Any number of processes
    call [virtio_disk_rw] on buffers no other call uses, the device takes the
    requests from the available ring and serves them in any order, and the
    interrupt handler runs at any time: no step of the driver panics, leaves an
    array or gives the device a malformed chain, no descriptor is lost, and
    every run is a run of the disk that serves each call at one moment between
    its start and its return, by reading or writing the two sectors of the
    buffer's block.  A call returns only when it has been served.  The device
    serves every request with status 0: what the driver does on a device error
    (it panics) is outside. *)
Theorem virtio_refines_disk bufs d m :
  rtc vstep (machine0 bufs d) m → ¬ goes_wrong m ∧ no_leak m ∧ rtc astep (abs (machine0 bufs d)) (abs m).
Proof.
  intros H. destruct (vreach_inv _ _ _ H) as [(A & U & I) Hr]. split_and!; [by eapply inv_safe|exact (i_owned _ _ _ I)|done].
Qed.

(** One process writes a buffer to block 3 and another reads the block. *)
Definition two_bufs : list VBuf := [mkVBuf 3 [7; 8; 9] 0; mkVBuf 3 [] 0].

(** Steps as a function: a call, a round of the driver for a process, an
    interrupt, a return, and the device. *)
Inductive Act := ACall (p b : nat) (w : bool) | ATry (p : nat) | AIntr | AFinish (p : nat) | AFetch | AComplete.

Definition exec (a : Act) (m : Machine) : option Machine :=
  match a with
  | ACall p b w =>
      guard (m_calls m !! p = None);; guard (map_Forall (λ _ c, call_buf c ≠ b) (m_calls m));; guard (b < length (v_bufs (m_v m)))%nat;;
      Some (mkMachine (m_v m) (m_seen m) (m_jobs m) (m_disk m) (<[p := Waiting b w]> (m_calls m)))
  | ATry p =>
      match m_calls m !! p with
      | Some (Waiting b w) =>
          match rw_try b w (m_v m) with
          | Done (Some idx) v => Some (mkMachine v (m_seen m) (m_jobs m) (m_disk m) (<[p := InFlight b w idx]> (m_calls m)))
          | _ => None
          end
      | _ => None
      end
  | AIntr =>
      if used_idx (m_v m) =? used_idx_dev (m_v m) then None else
      match intr_one (m_v m) with Done _ v => Some (mkMachine v (m_seen m) (m_jobs m) (m_disk m) (m_calls m)) | _ => None end
  | AFinish p =>
      match m_calls m !! p with
      | Some (InFlight b w idx) =>
          match rw_done b (m_v m), rw_finish idx (m_v m) with
          | Done true _, Done _ v => Some (mkMachine v (m_seen m) (m_jobs m) (m_disk m) (delete p (m_calls m)))
          | _, _ => None
          end
      | _ => None
      end
  | AFetch =>
      if m_seen m =? avail_idx (m_v m) then None else
      h ← avail_ring (m_v m) !! Z.to_nat (m_seen m mod Z.of_nat NUM);
      j ← read_chain (m_v m) (Z.to_nat h);
      Some (mkMachine (m_v m) (u16 (m_seen m + 1)) (m_jobs m ++ [j]) (m_disk m) (m_calls m))
  | AComplete =>
      match m_jobs m with
      | j :: js' => Some (mkMachine (completed j (m_disk m) (m_v m)) (m_seen m) js' (transfer j (m_disk m) (v_bufs (m_v m))).1 (m_calls m))
      | [] => None
      end
  end.

Lemma rw_done_keeps b v r v' : rw_done b v = Done r v' → v' = v.
Proof. unfold rw_done, mbind, DM_bind, at_. case_match eqn:E; [|done..]. intros [= _ <-]. case_match; by simplify_eq. Qed.

Lemma exec_sound a m m' : exec a m = Some m' → vstep m m'.
Proof.
  destruct a as [p b w|p| |p| |]; cbn -[NUM u16]; intros H.
  - repeat case_guard; simplify_eq/=. by apply step_call.
  - repeat case_match; simplify_eq. by eapply step_submit.
  - destruct (used_idx (m_v m) =? _) eqn:E; [done|]. destruct (intr_one (m_v m)) as [[] v| |] eqn:Ei; [|done..]. simplify_eq.
    apply step_intr; [|done]. unfold intr_pending, vget, mbind, DM_bind, mret, DM_ret. by rewrite E.
  - destruct (m_calls m !! p) as [[|b w idx]|] eqn:Hp; [done| |done]. destruct (rw_done b (m_v m)) as [[] v0| |] eqn:Ed; [|done..].
    destruct (rw_finish idx (m_v m)) as [[] v| |] eqn:Ef; [|done..]. simplify_eq. pose proof (rw_done_keeps _ _ _ _ Ed) as ->. by eapply step_finish.
  - destruct (m_seen m =? _) eqn:E; [done|]. apply bind_Some in H as (h & Hh & H). apply bind_Some in H as (j & Hj & H). simplify_eq.
    eapply step_fetch; [by apply Z.eqb_neq|done|done].
  - destruct (m_jobs m) as [|j js'] eqn:E; [done|]. simplify_eq. by apply (step_complete m [] j js').
Qed.

Fixpoint run (l : list Act) (m : Machine) : option Machine := match l with [] => Some m | a :: l' => exec a m ≫= run l' end.
Lemma run_sound l m m' : run l m = Some m' → rtc vstep m m'.
Proof.
  revert m. induction l as [|a l IH]; intros m H; cbn in H; [by injection H as <-; apply rtc_refl|].
  apply bind_Some in H as (m1 & H1 & H2). eapply rtc_l; [by eapply exec_sound|by apply IH].
Qed.

Definition two_calls : list Act := [ACall 1 0 true; ACall 2 1 false; ATry 1; ATry 2; AFetch; AFetch; AComplete; AComplete; AIntr; AIntr; AFinish 2; AFinish 1].

(** What the run leaves: the first sector of the block, no calls, the buffers. *)
Definition outcome (om : option Machine) : Prop :=
  match om with
  | Some m => m_disk m 6 = [7; 8; 9] ∧ map_to_list (m_calls m) = [] ∧ map vb_data (v_bufs (m_v m)) = [[7; 8; 9]; [7; 8; 9]]
  | None => False
  end.
Lemma outcome_run om : outcome om → ∃ m, om = Some m ∧ outcome (Some m).
Proof. destruct om as [m|]; [by exists m|done]. Qed.

Lemma virtio_refines_disk_witness :
  ∃ m, run two_calls (machine0 two_bufs (λ _, [])) = Some m ∧ outcome (Some m) ∧
    ¬ goes_wrong m ∧ no_leak m ∧ rtc astep (abs (machine0 two_bufs (λ _, []))) (abs m).
Proof.
  destruct (outcome_run (run two_calls (machine0 two_bufs (λ _, [])))) as (m & E & H); [vm_compute; auto|]. exists m.
  exact (conj E (conj H (virtio_refines_disk two_bufs (λ _, []) m (run_sound _ _ _ E)))).
Defined.
