(* ===== verification/Log.v ===== *)
(** * The log (log.c)

    Block and device numbers are [int] in the log and [uint] in the buffer
    cache; the conversions are written out. *)

From S2P Require Import Prelude CString Kernel KLogic Spinlock KMem Kalloc Vm Proc Bio.
Open Scope Z_scope.
Open Scope os_scope.

(** 32-bit fields of a block. *)
Definition get32 (d : list Z) (off : nat) : Z := le_val (take 4 (drop off d)).
Definition put32 (d : list Z) (off : nat) (v : Z) : list Z := take off d ++ le_bytes 4 v ++ drop (off + 4) d.

(** [struct logheader] inside a block: [n], then [block[]]. *)
Definition head_n (d : list Z) : Z := s32 (get32 d 0).
Definition head_block (d : list Z) (i : nat) : Z := s32 (get32 d (4 + 4 * i)).

(** Updates of [struct log]. *)
Definition with_start (v : Z) (l : LogState) : LogState :=
  mkLog v (l_outstanding l) (l_committing l) (l_dev l) (lh_n l) (lh_block l).
Definition with_outstanding (v : Z) (l : LogState) : LogState :=
  mkLog (l_start l) v (l_committing l) (l_dev l) (lh_n l) (lh_block l).
Definition with_committing (v : Z) (l : LogState) : LogState :=
  mkLog (l_start l) (l_outstanding l) v (l_dev l) (lh_n l) (lh_block l).
Definition with_ldev (v : Z) (l : LogState) : LogState :=
  mkLog (l_start l) (l_outstanding l) (l_committing l) v (lh_n l) (lh_block l).
Definition with_n (v : Z) (l : LogState) : LogState :=
  mkLog (l_start l) (l_outstanding l) (l_committing l) (l_dev l) v (lh_block l).
Definition with_block (v : list Z) (l : LogState) : LogState :=
  mkLog (l_start l) (l_outstanding l) (l_committing l) (l_dev l) (lh_n l) v.

Section Log.
Context `{KernelImage} `{Disk}.
Context (sleeps : nat).

Definition getlog : M LogState := gets (λ s, fs_log (fs s)).
Definition putlog (f : LogState → LogState) : M unit := modify (λ s, set_log (f (fs_log (fs s))) s).

(** [log.lh.block[i]], and its assignment. *)
Definition log_block (i : nat) : M Z := l ← getlog; need (lh_block l !! i).
Definition set_log_block (i : nat) (v : Z) : M unit :=
  l ← getlog; bs ← need (aset (lh_block l) i v); putlog (with_block bs).

(** One round of [install_trans], for the block at [tail]. *)
Definition install_one (recovering : bool) (tail : nat) : M unit :=
  l ← getlog;
  lbuf ← bread sleeps (u32 (l_dev l)) (u32 (l_start l + Z.of_nat tail + 1));
  dst ← log_block tail;
  dbuf ← bread sleeps (u32 (l_dev l)) (u32 dst);
  lb ← getb lbuf;
  putb dbuf (with_data (b_data lb));;
  bwrite dbuf;;
  when (negb recovering) (bunpin dbuf);;
  brelse lbuf;;
  brelse dbuf.
Fixpoint count_loop (body : nat → M unit) (tail n : nat) : M unit :=
  match n with
  | O => mret tt
  | S n' => body tail;; count_loop body (S tail) n'
  end.
Definition install_trans (recovering : bool) : M unit :=
  l ← getlog;
  count_loop (install_one recovering) 0 (Z.to_nat (lh_n l)).

Definition read_head : M unit :=
  l ← getlog;
  buf ← bread sleeps (u32 (l_dev l)) (u32 (l_start l));
  b ← getb buf;
  putlog (with_n (head_n (b_data b)));;
  count_loop (λ i, set_log_block i (head_block (b_data b) i)) 0 (Z.to_nat (head_n (b_data b)));;
  brelse buf.

(** [hb->block[i] = log.lh.block[i]], then the next. *)
Fixpoint fill_head (blocks : list Z) (i n : nat) (d : list Z) : option (list Z) :=
  match n with
  | O => Some d
  | S n' => v ← blocks !! i; fill_head blocks (S i) n' (put32 d (4 + 4 * i) v)
  end.
Definition write_head : M unit :=
  l ← getlog;
  buf ← bread sleeps (u32 (l_dev l)) (u32 (l_start l));
  b ← getb buf;
  d ← need (fill_head (lh_block l) 0 (Z.to_nat (lh_n l)) (put32 (b_data b) 0 (lh_n l)));
  putb buf (with_data d);;
  bwrite buf;;
  brelse buf.

Definition recover_from_log : M unit :=
  read_head;;
  install_trans true;;
  putlog (with_n 0);;
  write_head.

(** The test that the header fits a block holds by computation. *)
Definition initlog (dev : Z) (sb : SuperBlock) : M unit :=
  if (BSIZE <=? 4 + 4 * LOGBLOCKS)%nat then panic "initlog: too big logheader" else
  initlock Llog "log";;
  putlog (with_start (s32 (sb_logstart sb)));;
  putlog (with_ldev dev);;
  recover_from_log.

Fixpoint begin_op_loop (fuel : nat) : M unit :=
  l ← getlog;
  if negb (l_committing l =? 0) || (Z.of_nat LOGBLOCKS <? lh_n l + (l_outstanding l + 1) * Z.of_nat MAXOPBLOCKS) then
    match fuel with
    | O => halt NoFuel
    | S f => sleep log_addr Llog;; begin_op_loop f
    end
  else
    putlog (with_outstanding (l_outstanding l + 1));;
    release Llog.
Definition log_begin_op : M unit :=
  acquire Llog;;
  begin_op_loop sleeps.

Definition write_log_one (tail : nat) : M unit :=
  l ← getlog;
  to ← bread sleeps (u32 (l_dev l)) (u32 (l_start l + Z.of_nat tail + 1));
  src ← log_block tail;
  from ← bread sleeps (u32 (l_dev l)) (u32 src);
  fb ← getb from;
  putb to (with_data (b_data fb));;
  bwrite to;;
  brelse from;;
  brelse to.
Definition write_log : M unit :=
  l ← getlog;
  count_loop write_log_one 0 (Z.to_nat (lh_n l)).

Definition commit : M unit :=
  l ← getlog;
  when (0 <? lh_n l)
    (write_log;;
     write_head;;
     install_trans false;;
     putlog (with_n 0);;
     write_head).

Definition log_end_op : M unit :=
  acquire Llog;;
  l ← getlog;
  putlog (with_outstanding (l_outstanding l - 1));;
  if negb (l_committing l =? 0) then panic "log.committing" else
  (if l_outstanding l - 1 =? 0 then putlog (with_committing 1) else wakeup log_addr);;
  release Llog;;
  when (l_outstanding l - 1 =? 0)
    (commit;;
     acquire Llog;;
     putlog (with_committing 0);;
     wakeup log_addr;;
     release Llog).

(** The index of the block in the header, or the first free one. *)
Fixpoint absorb (blocks : list Z) (blockno : Z) (i n : nat) : M nat :=
  match n with
  | O => mret i
  | S n' => v ← need (blocks !! i); if u32 v =? blockno then mret i else absorb blocks blockno (S i) n'
  end.
Definition log_write (buf : nat) : M unit :=
  acquire Llog;;
  l ← getlog;
  if Z.of_nat LOGBLOCKS <=? lh_n l then panic "too big a transaction" else
  if l_outstanding l <? 1 then panic "log_write outside of trans" else
  b ← getb buf;
  i ← absorb (lh_block l) (b_blockno b) 0 (Z.to_nat (lh_n l));
  set_log_block i (s32 (b_blockno b));;
  when (Z.of_nat i =? lh_n l) (bpin buf;; putlog (with_n (lh_n l + 1)));;
  release Llog.
End Log.
