(* ===== verification/LogSpec.v ===== *)
(** * Crash safety of the log

    [commit] is run by the last [end_op] of a group of file system operations.
    Its writes are in the history of the disk; a crash leaves any prefix of
    them.  The theorems follow [commit] and the recovery after a reboot
    ([initlog]) on the buffer cache of [BioSpec], and compare the home blocks
    after recovery with those before and after the transaction. *)

From S2P Require Import Prelude CString Kernel KLogic Spinlock KMem Kalloc Vm VmSpec VmUser Proc ProcSpec Bio BioSpec Log.
Open Scope Z_scope.
Open Scope os_scope.

(** ** 32-bit fields *)

Lemma le_bytes_length n v : length (le_bytes n v) = n.
Proof. revert v. induction n as [|n IH]; intros v; cbn; [done|by rewrite IH]. Qed.
Lemma le_val_bytes n v : le_val (le_bytes n v) = v mod 256 ^ Z.of_nat n.
Proof.
  revert v. induction n as [|n IH]; intros v; cbn [le_bytes le_val]; [by rewrite Z.mod_1_r|].
  rewrite IH, Nat2Z.inj_succ, Z.pow_succ_r by lia. rewrite Z.rem_mul_r by lia. done.
Qed.

Lemma put32_length d off v : (off + 4 ≤ length d)%nat → length (put32 d off v) = length d.
Proof. intros H. unfold put32. rewrite !length_app, length_take, length_drop, le_bytes_length. lia. Qed.
Lemma get_put32 d off v : (off + 4 ≤ length d)%nat → get32 (put32 d off v) off = v mod 2 ^ 32.
Proof.
  intros H. unfold get32, put32. rewrite drop_app_length' by (rewrite length_take; lia).
  rewrite take_app_length' by (by rewrite le_bytes_length). by rewrite le_val_bytes.
Qed.
Lemma get_put32_ne d off off' v :
  (off + 4 ≤ length d)%nat → (off' + 4 ≤ off ∨ off + 4 ≤ off')%nat → get32 (put32 d off v) off' = get32 d off'.
Proof.
  intros H Hd. unfold get32, put32. f_equal. apply list_eq. intros k.
  destruct (decide (k < 4)%nat) as [Hk|Hk]; [|by rewrite !lookup_take_ge by lia].
  rewrite !lookup_take_lt, !lookup_drop by lia. destruct Hd as [Hd|Hd].
  - rewrite lookup_app_l by (rewrite length_take; lia). by rewrite lookup_take_lt by lia.
  - rewrite lookup_app_r, lookup_app_r; rewrite ?length_take, ?le_bytes_length; try lia.
    rewrite lookup_drop. f_equal. lia.
Qed.

Lemma s32_small v : 0 ≤ v < 2 ^ 31 → s32 (v mod 2 ^ 32) = v.
Proof.
  intros H. unfold s32, u32. rewrite Z.mod_mod, Z.mod_small by lia. by rewrite (proj2 (Z.ltb_lt _ _)) by lia.
Qed.

Lemma s32_id v : 0 ≤ v < 2 ^ 31 → s32 v = v.
Proof. intros H. unfold s32, u32. rewrite Z.mod_small by lia. by rewrite (proj2 (Z.ltb_lt _ _)) by lia. Qed.
Lemma u32_id v : 0 ≤ v < 2 ^ 31 → u32 v = v.
Proof. intros H. unfold u32. apply Z.mod_small. lia. Qed.

(** ** The header block *)

(** A block list that fits the header. *)
Definition header_ok (blks : list Z) : Prop :=
  (length blks ≤ LOGBLOCKS)%nat ∧ Forall (λ b, 0 ≤ b < 2 ^ 31) blks.

(** A block that holds the header of a log with the blocks [blks]. *)
Definition is_header (d : list Z) (blks : list Z) : Prop :=
  length d = BSIZE ∧ head_n d = Z.of_nat (length blks) ∧ ∀ i b, blks !! i = Some b → head_block d i = b.

Lemma fill_head_spec blocks n i d :
  (i + n ≤ length blocks)%nat → (i + n ≤ LOGBLOCKS)%nat → Forall (λ b, 0 ≤ b < 2 ^ 31) (take (i + n) blocks) → length d = BSIZE →
  ∃ d', fill_head blocks i n d = Some d' ∧ length d' = BSIZE ∧
    (∀ off, (off + 4 ≤ 4 + 4 * i)%nat → get32 d' off = get32 d off) ∧
    (∀ k b, (i ≤ k < i + n)%nat → blocks !! k = Some b → head_block d' k = b).
Proof.
  revert i d. induction n as [|n IH]; intros i d Hl Hb Hf Hd; cbn [fill_head].
  - exists d. split_and!; [done|done|done|]. intros; lia.
  - destruct (lookup_lt_is_Some_2 blocks i) as [v Hv]; [lia|]. rewrite Hv. cbn [mbind option_bind].
    assert (Hoff : (4 + 4 * i + 4 ≤ length d)%nat) by (rewrite Hd; unfold BSIZE, LOGBLOCKS, MAXOPBLOCKS in *; lia).
    assert (Hrv : 0 ≤ v < 2 ^ 31) by (apply (Forall_lookup_1 _ _ i v Hf); rewrite lookup_take_lt by lia; done).
    destruct (IH (S i) (put32 d (4 + 4 * i) v)) as (d' & Hd' & Hlen & Hlow & Hhigh); [lia|lia| |by rewrite put32_length|].
    { by replace (S i + n)%nat with (i + S n)%nat by lia. }
    exists d'. split_and!; [done|done| |].
    + intros off Ho. rewrite Hlow by lia. by apply get_put32_ne; [|lia].
    + intros k b Hk Hkb. destruct (decide (k = i)) as [->|]; [|apply Hhigh; [lia|done]].
      rewrite Hv in Hkb. injection Hkb as <-. unfold head_block. rewrite Hlow by lia.
      rewrite get_put32 by done. by apply s32_small.
Qed.

Lemma write_header_spec L blks d :
  length (lh_block L) = LOGBLOCKS → lh_n L = Z.of_nat (length blks) → blks = take (length blks) (lh_block L) →
  header_ok blks → length d = BSIZE →
  ∃ d', fill_head (lh_block L) 0 (Z.to_nat (lh_n L)) (put32 d 0 (lh_n L)) = Some d' ∧ is_header d' blks.
Proof.
  intros HL Hn Hb [Hlen Hr] Hd. rewrite Hn, Nat2Z.id.
  destruct (fill_head_spec (lh_block L) (length blks) 0 (put32 d 0 (Z.of_nat (length blks)))) as (d' & Hd' & Hl & Hlow & Hhigh).
  - lia.
  - lia.
  - by rewrite Nat.add_0_l, <- Hb.
  - rewrite put32_length; [done|]. rewrite Hd. unfold BSIZE. lia.
  - exists d'. split; [done|]. split_and!; [done| |].
    + unfold head_n. rewrite Hlow by lia. rewrite get_put32 by (rewrite Hd; unfold BSIZE; lia).
      apply s32_small. unfold LOGBLOCKS, MAXOPBLOCKS in Hlen. lia.
    + intros i b Hi. apply Hhigh; [apply lookup_lt_Some in Hi; lia|]. rewrite Hb in Hi.
      by apply lookup_take_Some in Hi as [Hi _].
Qed.

(** ** Histories *)

(** [k] writes on top of [d]. *)
Fixpoint writes (w : nat → Z * list Z) (k : nat) (d : list (Z * list Z)) : list (Z * list Z) :=
  match k with O => d | S k' => w k' :: writes w k' d end.

Lemma block_writes_out w k d b : (∀ j, (j < k)%nat → (w j).1 ≠ b) → block (writes w k d) b = block d b.
Proof.
  induction k as [|k IH]; intros H; cbn [writes block]; [done|]. pose proof (H k ltac:(lia)) as Hk.
  destruct (w k) as [c v]. cbn in Hk. rewrite (proj2 (Z.eqb_neq _ _)) by done. apply IH. intros j Hj. apply H. lia.
Qed.
Lemma block_writes_in w k d j b v :
  (j < k)%nat → w j = (b, v) → (∀ i, (j < i < k)%nat → (w i).1 ≠ b) → block (writes w k d) b = v.
Proof.
  induction k as [|k IH]; intros Hj Hw H; cbn [writes block]; [lia|].
  destruct (decide (j = k)) as [->|Hne]; [rewrite Hw; cbn; by rewrite Z.eqb_refl|].
  pose proof (H k ltac:(lia)) as Hk. destruct (w k) as [c u]. cbn in Hk. rewrite (proj2 (Z.eqb_neq _ _)) by done.
  apply IH; [lia|done|]. intros i Hi. apply H. lia.
Qed.

(** The histories below [d] with [k] more writes. *)
Lemma suffix_cons_or {X} (h l : list X) x : h `suffix_of` x :: l → h = x :: l ∨ h `suffix_of` l.
Proof.
  destruct h as [|y h]; intros H; [right; apply suffix_nil|].
  destruct (suffix_cons_inv _ _ _ _ H); [by left|by right].
Qed.
Lemma suffix_writes w k d h : h `suffix_of` writes w k d → h `suffix_of` d ∨ ∃ j, (j ≤ k)%nat ∧ h = writes w j d.
Proof.
  induction k as [|k IH]; cbn [writes]; [by left|].
  intros [->|H]%suffix_cons_or; [right; by exists (S k)|].
  destruct (IH H) as [|(j & Hj & ->)]; [by left|right; exists j; auto].
Qed.

(** Entries of the abstract cache. *)
Ltac ents H := cbn [set_ent_data take_ent set_ref e_buf e_ref e_lock e_data b_data ent_buf] in H.
Lemma give_back_last bn e A : e_ref e = 1 → give_back bn e A = delete bn A.
Proof. intros H. unfold give_back. by rewrite H. Qed.
Lemma give_back_more bn e A :
  e_ref e ≠ 1 → give_back bn e A = <[bn := mkEnt (e_buf e) (e_ref e - 1) unlocked (e_data e)]> A.
Proof. intros H. unfold give_back. by rewrite (proj2 (Z.eqb_neq _ _)). Qed.
Lemma ent_eta e n : e_lock e = unlocked → n = e_ref e → mkEnt (e_buf e) n unlocked (e_data e) = e.
Proof. destruct e. cbn. by intros -> ->. Qed.
(** Two cache maps agree. *)
Ltac kmap c b :=
  let k := fresh "k" in
  apply map_eq; intros k; destruct (decide (k = c)), (decide (k = b)); by simplify_map_eq.

Section Log.
Context {IMG : KernelImage} {D : Disk} {DL : DiskLaw D} (sleeps : nat) (me : nat) (pid dv st : Z).
Variable s0 : KState.
Hypothesis Hidle : idle me pid s0.

#[local] Abbreviation cache := (cache dv s0).

(** The blocks of the log: the header at [st], then the copies. *)
Definition copy_at (k : nat) : Z := st + Z.of_nat k + 1.
Definition is_home (b : Z) : Prop := b < st ∨ st + Z.of_nat LOGBLOCKS < b.

Lemma copy_not_home k b : (k < LOGBLOCKS)%nat → is_home b → copy_at k ≠ b.
Proof. unfold is_home, copy_at. lia. Qed.
Lemma head_not_home b : is_home b → st ≠ b.
Proof. unfold is_home. lia. Qed.

Lemma wp_count_loop E body t n (J : nat → KState → Prop) (Q : unit → KState → Prop) s :
  J t s → (∀ k s, (t ≤ k < t + n)%nat → J k s → wp E (body k) (λ _, J (S k)) s) →
  (∀ s, J (t + n)%nat s → Q tt s) → wp E (count_loop body t n) Q s.
Proof.
  revert t s. induction n as [|n IH]; intros t s HJ Hb HQ; cbn [count_loop].
  - apply wp_ret, HQ. by rewrite Nat.add_0_r.
  - apply wp_bind. eapply wp_mono; [apply Hb; [lia|done]|]. intros [] s' HJ'. apply (IH (S t)); [done| |].
    + intros k s1 Hk. apply Hb. lia.
    + intros s1. replace (S t + n)%nat with (t + S n)%nat by lia. apply HQ.
Qed.

(** Device and log are in the range of [int]. *)
Definition in_range : Prop := 0 ≤ dv < 2 ^ 31 ∧ 0 ≤ st ∧ st + Z.of_nat LOGBLOCKS < 2 ^ 31.

(** The log in memory has the blocks [blks]. *)
Record logst (L : LogState) (blks : list Z) : Prop := {
  ls_dev : l_dev L = dv;
  ls_start : l_start L = st;
  ls_n : lh_n L = Z.of_nat (length blks);
  ls_len : length (lh_block L) = LOGBLOCKS;
  ls_blks : blks = take (length blks) (lh_block L);
  ls_ok : header_ok blks;
  ls_home : Forall is_home blks;
  ls_range : in_range
}.

Lemma logst_at L blks k b : logst L blks → blks !! k = Some b →
  lh_block L !! k = Some b ∧ (k < LOGBLOCKS)%nat ∧ is_home b ∧ u32 b = b.
Proof.
  intros HL Hk. pose proof Hk as Hk'. rewrite (ls_blks _ _ HL), lookup_take_Some in Hk'. destruct Hk' as [Hk1 Hk2].
  pose proof (proj1 (ls_ok _ _ HL)). pose proof (Forall_lookup_1 _ _ _ _ (ls_home _ _ HL) Hk). split_and!; [done|lia|done|].
  apply u32_id, (Forall_lookup_1 _ _ _ _ (proj2 (ls_ok _ _ HL)) Hk).
Qed.
Lemma logst_nums L blks : logst L blks → u32 (l_dev L) = dv ∧ u32 (l_start L) = st.
Proof. intros HL. destruct (ls_range _ _ HL) as (H1 & H2 & H3). rewrite (ls_dev _ _ HL), (ls_start _ _ HL). split; apply u32_id; lia. Qed.
Lemma logst_copy L blks k : logst L blks → (k < LOGBLOCKS)%nat → u32 (l_start L + Z.of_nat k + 1) = copy_at k.
Proof. intros HL Hk. destruct (ls_range _ _ HL) as (H1 & H2 & H3). rewrite (ls_start _ _ HL). unfold copy_at. apply u32_id. lia. Qed.

Lemma wp_getlog E A L d s (Q : LogState → KState → Prop) : cache A L d s → Q L s → wp E getlog Q s.
Proof. intros Hc HQ. unfold getlog. apply wp_gets. by rewrite (ca_log _ _ _ _ _ _ Hc). Qed.
Lemma wp_log_block E A L d k b s (Q : Z → KState → Prop) :
  cache A L d s → lh_block L !! k = Some b → Q b s → wp E (log_block k) Q s.
Proof. intros Hc Hb HQ. unfold log_block. apply wp_bind. eapply wp_getlog; [done|]. by eapply wp_need. Qed.

(** A block of the transaction: pinned in the cache, and not locked. *)
Definition pinned (A : gmap Z Ent) (b : Z) (e : Ent) : Prop :=
  A !! b = Some e ∧ e_lock e = unlocked ∧ e_ref e + 1 < 2 ^ 32.

Lemma wp_write_log_one E A L d blks k b e s (Q : unit → KState → Prop) :
  cache A L d s → logst L blks → blks !! k = Some b → pinned A b e → A !! copy_at k = None → (size A < NBUF)%nat →
  (∀ s', cache A L ((copy_at k, e_data e) :: d) s' → Q tt s') → wp E (write_log_one sleeps k) Q s.
Proof.
  intros Hc HL Hk (He & Hlk & Href) Hno Hsize HQ. destruct (logst_at _ _ _ _ HL Hk) as (Hb & Hlt & Hhome & Hu).
  pose proof (copy_not_home k b Hlt Hhome) as Hne. set (c := copy_at k) in *.
  destruct (cache_in _ _ _ _ _ _ _ _ Hc He) as (_ & Hr & _).
  unfold write_log_one. apply wp_bind. eapply wp_getlog; [done|]. rewrite (proj1 (logst_nums _ _ HL)), (logst_copy _ _ k HL Hlt).
  apply wp_bind. eapply (wp_bread_miss sleeps me pid dv s0 Hidle E A L d c); [done..|]. intros i s1 Hc1.
  apply wp_bind. eapply wp_log_block; [done..|]. rewrite Hu. apply wp_bind.
  eapply (wp_bread_hit sleeps me pid dv s0 Hidle _ _ _ _ b e); [exact Hc1|by simplify_map_eq|by rewrite Hlk|done|].
  intros s2 Hc2. apply wp_bind. eapply (wp_peek dv s0 E _ _ _ b); [exact Hc2|by simplify_map_eq|done|].
  apply wp_bind. eapply (wp_fill dv s0 E _ _ _ c); [exact Hc2|by simplify_map_eq|done|]. intros s3 Hc3.
  apply wp_bind. eapply (wp_bwrite me pid dv s0 Hidle E _ _ _ c); [exact Hc3|by simplify_map_eq|done|done|]. intros s4 Hc4.
  apply wp_bind. eapply (wp_brelse me pid dv s0 Hidle E _ _ _ b); [exact Hc4|by simplify_map_eq|done|done|cbn; lia|]. intros s5 Hc5.
  rewrite give_back_more in Hc5 by (cbn; lia). ents Hc5. rewrite ent_eta in Hc5 by (done || lia).
  eapply (wp_brelse me pid dv s0 Hidle E _ _ _ c); [exact Hc5|by simplify_map_eq|done|done|cbn; by rewrite Z.eqb_refl|].
  intros s6 Hc6. rewrite give_back_last in Hc6 by done. apply HQ.
  replace (delete c _) with A in Hc6; [exact Hc6|]. kmap c b.
Qed.

(** [install_one] copies the log block to its home.  In a commit the block is
    pinned, and loses its pin. *)
Lemma wp_install_pinned E A L d blks k b e s (Q : unit → KState → Prop) :
  cache A L d s → logst L blks → blks !! k = Some b → pinned A b e → A !! copy_at k = None → (size A < NBUF)%nat →
  (∀ s', cache (give_back b (mkEnt (e_buf e) (e_ref e) (mine pid) (block d (copy_at k))) A) L ((b, block d (copy_at k)) :: d) s' → Q tt s') →
  wp E (install_one sleeps false k) Q s.
Proof.
  intros Hc HL Hk (He & Hlk & Href) Hno Hsize HQ. destruct (logst_at _ _ _ _ HL Hk) as (Hb & Hlt & Hhome & Hu).
  pose proof (copy_not_home k b Hlt Hhome) as Hne. set (c := copy_at k) in *. set (v := block d c) in *.
  destruct (cache_in _ _ _ _ _ _ _ _ Hc He) as (_ & Hr & _).
  unfold install_one. apply wp_bind. eapply wp_getlog; [done|]. rewrite (proj1 (logst_nums _ _ HL)), (logst_copy _ _ k HL Hlt).
  apply wp_bind. eapply (wp_bread_miss sleeps me pid dv s0 Hidle E A L d c); [done..|]. intros i s1 Hc1.
  apply wp_bind. eapply wp_log_block; [done..|]. rewrite Hu. apply wp_bind.
  eapply (wp_bread_hit sleeps me pid dv s0 Hidle _ _ _ _ b e); [exact Hc1|by simplify_map_eq|by rewrite Hlk|done|].
  intros s2 Hc2. apply wp_bind. eapply (wp_peek dv s0 E _ _ _ c); [exact Hc2|by simplify_map_eq|done|].
  apply wp_bind. eapply (wp_fill dv s0 E _ _ _ b); [exact Hc2|by simplify_map_eq|done|]. intros s3 Hc3.
  apply wp_bind. eapply (wp_bwrite me pid dv s0 Hidle E _ _ _ b); [exact Hc3|by simplify_map_eq|done|done|]. intros s4 Hc4. ents Hc4.
  cbn [negb when]. apply wp_bind.
  eapply (wp_bunpin me pid dv s0 Hidle E _ _ _ b); [exact Hc4|by simplify_map_eq|done|cbn; lia|]. intros s5 Hc5. ents Hc5.
  apply wp_bind. eapply (wp_brelse me pid dv s0 Hidle E _ _ _ c); [exact Hc5|by simplify_map_eq|done|done| |].
  { intros _. cbn. by rewrite (proj2 (Z.eqb_neq _ _)). }
  intros s6 Hc6. rewrite give_back_last in Hc6 by done. ents Hc6.
  eapply (wp_brelse me pid dv s0 Hidle E _ _ _ b); [exact Hc6|by simplify_map_eq|done|done|cbn; by rewrite Z.eqb_refl|].
  intros s7 Hc7. apply HQ. ents Hc7. replace (e_ref e + 1 - 1) with (e_ref e) in Hc7 by lia.
  match type of Hc7 with cache ?m _ _ _ => replace m with (give_back b (mkEnt (e_buf e) (e_ref e) (mine pid) v) A) in Hc7 end; [exact Hc7|].
  unfold give_back. cbn [e_ref e_buf e_data set_ref set_ent_data take_ent]. destruct (e_ref e =? 1); kmap c b.
Qed.

(** In a recovery nothing is pinned. *)
Lemma wp_install_clean E A L d blks k b s (Q : unit → KState → Prop) :
  cache A L d s → logst L blks → blks !! k = Some b → A !! b = None → A !! copy_at k = None → (S (size A) < NBUF)%nat →
  (∀ s', cache A L ((b, block d (copy_at k)) :: d) s' → Q tt s') → wp E (install_one sleeps true k) Q s.
Proof.
  intros Hc HL Hk He Hno Hsize HQ. destruct (logst_at _ _ _ _ HL Hk) as (Hb & Hlt & Hhome & Hu).
  pose proof (copy_not_home k b Hlt Hhome) as Hne. set (c := copy_at k) in *. set (v := block d c) in *.
  unfold install_one. apply wp_bind. eapply wp_getlog; [done|]. rewrite (proj1 (logst_nums _ _ HL)), (logst_copy _ _ k HL Hlt).
  apply wp_bind. eapply (wp_bread_miss sleeps me pid dv s0 Hidle E A L d c); [done|done|lia|]. intros i s1 Hc1.
  apply wp_bind. eapply wp_log_block; [done..|]. rewrite Hu. apply wp_bind.
  eapply (wp_bread_miss sleeps me pid dv s0 Hidle _ _ _ _ b); [exact Hc1|by simplify_map_eq|by rewrite map_size_insert_None|].
  intros i2 s2 Hc2. apply wp_bind. eapply (wp_peek dv s0 E _ _ _ c); [exact Hc2|by simplify_map_eq|done|].
  apply wp_bind. eapply (wp_fill dv s0 E _ _ _ b); [exact Hc2|by simplify_map_eq|done|]. intros s3 Hc3.
  apply wp_bind. eapply (wp_bwrite me pid dv s0 Hidle E _ _ _ b); [exact Hc3|by simplify_map_eq|done|done|]. intros s4 Hc4. ents Hc4.
  cbn [negb when]. apply wp_bind, wp_ret.
  apply wp_bind. eapply (wp_brelse me pid dv s0 Hidle E _ _ _ c); [exact Hc4|by simplify_map_eq|done|done| |].
  { intros _. cbn. by rewrite (proj2 (Z.eqb_neq _ _)). }
  intros s6 Hc6. rewrite give_back_last in Hc6 by done. ents Hc6.
  eapply (wp_brelse me pid dv s0 Hidle E _ _ _ b); [exact Hc6|by simplify_map_eq|done|done|cbn; by rewrite Z.eqb_refl|].
  intros s7 Hc7. apply HQ. rewrite give_back_last in Hc7 by done.
  match type of Hc7 with cache ?m _ _ _ => replace m with A in Hc7 end; [exact Hc7|]. kmap c b.
Qed.

(** The header is written. *)
Lemma wp_write_head E A L d blks s (Q : unit → KState → Prop) :
  cache A L d s → logst L blks → A !! st = None → (size A < NBUF)%nat → length (block d st) = BSIZE →
  (∀ H s', is_header H blks → cache A L ((st, H) :: d) s' → Q tt s') → wp E (write_head sleeps) Q s.
Proof.
  intros Hc HL Hno Hsize Hlen HQ. unfold write_head. apply wp_bind. eapply wp_getlog; [done|].
  destruct (logst_nums _ _ HL) as [-> ->]. apply wp_bind.
  eapply (wp_bread_miss sleeps me pid dv s0 Hidle E A L d st); [done..|]. intros i s1 Hc1.
  apply wp_bind. eapply (wp_peek dv s0 E _ _ _ st); [exact Hc1|by simplify_map_eq|done|]. cbn [b_data ent_buf e_data].
  destruct (write_header_spec L blks (block d st)) as (H & Hfill & Hh); [apply HL..|done|].
  apply wp_bind. eapply wp_need; [exact Hfill|].
  apply wp_bind. eapply (wp_fill dv s0 E _ _ _ st); [exact Hc1|by simplify_map_eq|done|]. intros s2 Hc2.
  apply wp_bind. eapply (wp_bwrite me pid dv s0 Hidle E _ _ _ st); [exact Hc2|by simplify_map_eq|done|done|]. intros s3 Hc3. ents Hc3.
  eapply (wp_brelse me pid dv s0 Hidle E _ _ _ st); [exact Hc3|by simplify_map_eq|done|done|cbn; by rewrite Z.eqb_refl|].
  intros s4 Hc4. rewrite give_back_last in Hc4 by done. apply (HQ H); [done|].
  match type of Hc4 with cache ?m _ _ _ => replace m with A in Hc4 end; [exact Hc4|]. kmap st st.
Qed.

(** ** The loops *)

(** No buffer holds a block of the log. *)
Definition log_region_free (A : gmap Z Ent) : Prop := ∀ k, (k ≤ LOGBLOCKS)%nat → A !! (st + Z.of_nat k) = None.

Lemma region_copy A k : log_region_free A → (k < LOGBLOCKS)%nat → A !! copy_at k = None.
Proof. intros H Hk. unfold copy_at. replace (st + Z.of_nat k + 1) with (st + Z.of_nat (S k)) by lia. apply H. lia. Qed.
Lemma region_head A : log_region_free A → A !! st = None.
Proof. intros H. specialize (H 0%nat ltac:(lia)). by rewrite Z.add_0_r in H. Qed.

Definition data_of (A : gmap Z Ent) (b : Z) : list Z := from_option e_data [] (A !! b).
Definition log_w (A : gmap Z Ent) (blks : list Z) (k : nat) : Z * list Z := (copy_at k, data_of A (nth k blks 0)).
Definition home_w (A : gmap Z Ent) (blks : list Z) (k : nat) : Z * list Z := (nth k blks 0, data_of A (nth k blks 0)).

Lemma nth_blk (blks : list Z) k : (k < length blks)%nat → blks !! k = Some (nth k blks 0).
Proof. intros H. destruct (lookup_lt_is_Some_2 blks k H) as [b Hb]. by rewrite (nth_lookup_Some _ _ _ _ Hb). Qed.
Lemma logst_lt L blks k : logst L blks → (k < length blks)%nat → (k < LOGBLOCKS)%nat ∧ is_home (nth k blks 0).
Proof. intros HL Hk. pose proof (logst_at _ _ _ _ HL (nth_blk _ _ Hk)). naive_solver. Qed.

Lemma wp_write_log E A L d blks s (Q : unit → KState → Prop) :
  cache A L d s → logst L blks → (∀ b, b ∈ blks → ∃ e, pinned A b e) → log_region_free A → (size A < NBUF)%nat →
  (∀ s', cache A L (writes (log_w A blks) (length blks) d) s' → Q tt s') → wp E (write_log sleeps) Q s.
Proof.
  intros Hc HL Hpin Hreg Hsize HQ. unfold write_log. apply wp_bind. eapply wp_getlog; [done|]. rewrite (ls_n _ _ HL), Nat2Z.id.
  apply (wp_count_loop E _ 0 _ (λ k s, cache A L (writes (log_w A blks) k d) s)); [done| |done].
  intros k s1 Hk Hc1. pose proof (nth_blk blks k ltac:(lia)) as Hb.
  destruct (Hpin (nth k blks 0)) as [e He]; [by eapply list_elem_of_lookup_2|].
  destruct (logst_lt _ _ k HL ltac:(lia)) as [Hlt _].
  eapply wp_write_log_one; [exact Hc1|done|done|exact He|by apply region_copy|done|]. intros s2 Hc2.
  cbn [writes]. unfold log_w at 1, data_of. by rewrite (proj1 He).
Qed.

(** A pinned block loses its pin, and its buffer when that was the last
    reference. *)
Definition released (e : Ent) : option Ent :=
  if e_ref e =? 1 then None else Some (mkEnt (e_buf e) (e_ref e - 1) unlocked (e_data e)).
Definition unpinned (bs : list Z) (A : gmap Z Ent) : gmap Z Ent :=
  map_imap (λ b e, if decide (b ∈ bs) then released e else Some e) A.

Lemma unpinned_out bs A b : (b ∉ bs) → unpinned bs A !! b = A !! b.
Proof. intros H. unfold unpinned. rewrite map_lookup_imap. destruct (A !! b); cbn; [by rewrite decide_False|done]. Qed.
Lemma unpinned_none bs A b : A !! b = None → unpinned bs A !! b = None.
Proof. intros H. unfold unpinned. by rewrite map_lookup_imap, H. Qed.
Lemma unpinned_size bs A : (size (unpinned bs A) ≤ size A)%nat.
Proof.
  rewrite <- !size_dom. apply subseteq_size. intros b. rewrite !elem_of_dom. intros [e He].
  unfold unpinned in He. rewrite map_lookup_imap in He. by destruct (A !! b) as [x|].
Qed.
Lemma unpinned_snoc bs A b e :
  (b ∉ bs) → A !! b = Some e →
  give_back b (mkEnt (e_buf e) (e_ref e) (mine pid) (e_data e)) (unpinned bs A) = unpinned (bs ++ [b]) A.
Proof.
  intros Hb He. apply map_eq. intros k. unfold give_back, unpinned at 3. rewrite map_lookup_imap. cbn [e_ref e_buf e_data].
  destruct (decide (k = b)) as [->|Hne].
  - rewrite He. cbn. rewrite decide_True by set_solver. unfold released.
    destruct (e_ref e =? 1); by simplify_map_eq.
  - replace ((if e_ref e =? 1 then _ else _) !! k) with (unpinned bs A !! k) by (destruct (e_ref e =? 1); by simplify_map_eq).
    unfold unpinned. rewrite map_lookup_imap. destruct (A !! k); cbn; [|done].
    destruct (decide (k ∈ bs)); [by rewrite decide_True by set_solver|by rewrite decide_False by set_solver].
Qed.

(** Home and log blocks on a disk with the log written. *)
Lemma copies_kept A L blks d k j :
  logst L blks → (k < length blks)%nat → (j ≤ length blks)%nat →
  block (writes (home_w A blks) j d) (copy_at k) = block d (copy_at k).
Proof.
  intros HL Hk Hj. apply block_writes_out. intros i Hi. cbn.
  destruct (logst_lt _ _ k HL Hk) as [Hlt _], (logst_lt _ _ i HL ltac:(lia)) as [_ Hh].
  intros Heq. by apply (copy_not_home k _ Hlt Hh).
Qed.

Lemma wp_install_commit E A L d blks s (Q : unit → KState → Prop) :
  cache A L d s → logst L blks → NoDup blks → (∀ b, b ∈ blks → ∃ e, pinned A b e) → log_region_free A → (size A < NBUF)%nat →
  (∀ k, (k < length blks)%nat → block d (copy_at k) = data_of A (nth k blks 0)) →
  (∀ s', cache (unpinned blks A) L (writes (home_w A blks) (length blks) d) s' → Q tt s') →
  wp E (install_trans sleeps false) Q s.
Proof.
  intros Hc HL Hnd Hpin Hreg Hsize Hlog HQ. unfold install_trans. apply wp_bind. eapply wp_getlog; [done|]. rewrite (ls_n _ _ HL), Nat2Z.id.
  apply (wp_count_loop E _ 0 _ (λ k s, cache (unpinned (take k blks) A) L (writes (home_w A blks) k d) s)).
  - replace (unpinned (take 0 blks) A) with A; [done|]. apply map_eq. intros k. by rewrite unpinned_out by apply not_elem_of_nil.
  - intros k s1 Hk Hc1. pose proof (nth_blk blks k ltac:(lia)) as Hb. destruct (logst_lt _ _ k HL ltac:(lia)) as [Hlt _].
    destruct (Hpin (nth k blks 0)) as [e He]; [by eapply list_elem_of_lookup_2|]. pose proof (unpinned_size (take k blks) A).
    assert (Hnew : nth k blks 0 ∉ take k blks).
    { intros (j & Hj)%list_elem_of_lookup. apply lookup_take_Some in Hj as [Hj Hlt'].
      pose proof (NoDup_lookup _ _ _ _ Hnd Hj Hb). lia. }
    assert (Hv : block (writes (home_w A blks) k d) (copy_at k) = e_data e).
    { erewrite copies_kept by (done || lia). rewrite Hlog by lia. unfold data_of. by rewrite (proj1 He). }
    eapply (wp_install_pinned E _ _ _ _ _ _ e); [exact Hc1|done|done| |by apply unpinned_none, region_copy|lia|].
    { split; [rewrite unpinned_out by done|]; apply He. }
    intros s2 Hc2. rewrite Hv, unpinned_snoc, <- take_S_r in Hc2 by (done || apply He). cbn [writes].
    unfold home_w at 1, data_of. by rewrite (proj1 He).
  - intros s1. rewrite Nat.add_0_l, take_ge by done. apply HQ.
Qed.

(** ** [commit] *)

Lemma wp_putlog E A L d g s (Q : unit → KState → Prop) :
  cache A L d s → (∀ s', cache A (g L) d s' → Q tt s') → wp E (putlog g) Q s.
Proof.
  intros Hc HQ. unfold putlog. apply wp_modify, HQ. rewrite (ca_log _ _ _ _ _ _ Hc). by eapply cache_set_log.
Qed.
Lemma logst_empty L blks : logst L blks → logst (with_n 0 L) [].
Proof. intros [H1 H2 H3 H4 H5 H6 H7 H8]. split; [done..| |by constructor|done]. split; [cbn; lia|by constructor]. Qed.

(** The disk after the writes of [commit], with the headers [Hn] and [H0]. *)
Definition copied (A : gmap Z Ent) (blks : list Z) (d : list (Z * list Z)) := writes (log_w A blks) (length blks) d.
Definition committed (A : gmap Z Ent) (blks Hn : list Z) (d : list (Z * list Z)) := (st, Hn) :: copied A blks d.
Definition installed (A : gmap Z Ent) (blks Hn H0 : list Z) (d : list (Z * list Z)) :=
  (st, H0) :: writes (home_w A blks) (length blks) (committed A blks Hn d).

Lemma head_kept_log A blks j d : block (writes (log_w A blks) j d) st = block d st.
Proof. apply block_writes_out. intros i _. cbn. unfold copy_at. lia. Qed.
Lemma head_kept_home A L blks j d : logst L blks → (j ≤ length blks)%nat → block (writes (home_w A blks) j d) st = block d st.
Proof.
  intros HL Hj. apply block_writes_out. intros i Hi. cbn. destruct (logst_lt _ _ i HL ltac:(lia)) as [_ Hh].
  pose proof (head_not_home _ Hh). congruence.
Qed.
Lemma copy_written A blks Hn d k :
  (k < length blks)%nat → block (committed A blks Hn d) (copy_at k) = data_of A (nth k blks 0).
Proof.
  intros Hk. unfold committed, copied. cbn [block]. rewrite (proj2 (Z.eqb_neq _ _)) by (unfold copy_at; lia).
  eapply block_writes_in; [exact Hk|done|]. intros i Hi. cbn. unfold copy_at. lia.
Qed.

Lemma wp_commit E A L d blks s (Q : unit → KState → Prop) :
  cache A L d s → logst L blks → blks ≠ [] → NoDup blks → (∀ b, b ∈ blks → ∃ e, pinned A b e) →
  log_region_free A → (size A < NBUF)%nat → length (block d st) = BSIZE →
  (∀ Hn H0 s', is_header Hn blks → is_header H0 [] →
     cache (unpinned blks A) (with_n 0 L) (installed A blks Hn H0 d) s' → Q tt s') →
  wp E (commit sleeps) Q s.
Proof.
  intros Hc HL Hne Hnd Hpin Hreg Hsize Hlen HQ. unfold commit. apply wp_bind. eapply wp_getlog; [done|].
  assert (Hpos : (0 <? lh_n L) = true) by (rewrite (ls_n _ _ HL); apply Z.ltb_lt; destruct blks; [done|cbn [length]; lia]).
  rewrite Hpos. unfold when. apply wp_bind. eapply wp_write_log; [done..|]. intros s1 Hc1.
  apply wp_bind. eapply wp_write_head; [exact Hc1|done|by apply region_head|done|by rewrite head_kept_log|].
  intros Hn s2 HHn Hc2. apply wp_bind.
  eapply wp_install_commit; [exact Hc2|done|done|done|done|done|by apply copy_written|]. intros s3 Hc3.
  apply wp_bind. eapply wp_putlog; [exact Hc3|]. intros s4 Hc4. pose proof (unpinned_size blks A).
  eapply wp_write_head; [exact Hc4|by eapply logst_empty|by apply unpinned_none, region_head|lia| |].
  { erewrite head_kept_home by done. cbn [block]. rewrite Z.eqb_refl. apply HHn. }
  intros H0 s5 HH0 Hc5. by apply (HQ Hn H0).
Qed.

(** ** Recovery *)

Lemma empty_fits : (S (size (∅ : gmap Z Ent)) < NBUF)%nat.
Proof. rewrite map_size_empty. unfold NBUF, MAXOPBLOCKS. lia. Qed.
Lemma empty_fits' : (size (∅ : gmap Z Ent) < NBUF)%nat.
Proof. pose proof empty_fits. lia. Qed.

Lemma wp_set_block E A L d k v s (Q : unit → KState → Prop) :
  cache A L d s → (k < length (lh_block L))%nat →
  (∀ s', cache A (with_block (<[k := v]> (lh_block L)) L) d s' → Q tt s') → wp E (set_log_block k v) Q s.
Proof.
  intros Hc Hk HQ. unfold set_log_block. apply wp_bind. eapply wp_getlog; [done|]. apply wp_bind.
  eapply wp_need; [by apply aset_Some|]. by eapply wp_putlog.
Qed.

(** The log of a kernel that has just started. *)
Definition fresh_log (L : LogState) : Prop := l_dev L = dv ∧ l_start L = st ∧ length (lh_block L) = LOGBLOCKS ∧ in_range.

Lemma wp_read_head E L d blks s (Q : unit → KState → Prop) :
  cache ∅ L d s → fresh_log L → is_header (block d st) blks → header_ok blks → Forall is_home blks →
  (∀ L' s', cache ∅ L' d s' → logst L' blks → l_outstanding L' = l_outstanding L → l_committing L' = l_committing L → Q tt s') →
  wp E (read_head sleeps) Q s.
Proof.
  intros Hc (Hdev & Hst & HlenL & Hrange) (Hlen & Hn & Hhb) Hok Hhome HQ. unfold read_head. apply wp_bind. eapply wp_getlog; [done|].
  rewrite Hdev, Hst, !u32_id by (destruct Hrange; lia). apply wp_bind. eapply (wp_bread_miss sleeps me pid dv s0 Hidle E ∅ L d st); [done|done|exact empty_fits'|]. intros i s1 Hc1.
  apply wp_bind. eapply (wp_peek dv s0 E _ _ _ st); [exact Hc1|by simplify_map_eq|done|]. cbn [b_data ent_buf e_data].
  rewrite Hn, Nat2Z.id. apply wp_bind. eapply wp_putlog; [exact Hc1|]. intros s2 Hc2. apply wp_bind.
  set (A := <[st := _]> ∅) in *.
  apply (wp_count_loop E _ 0 _ (λ k s, ∃ L', cache A L' d s ∧ l_dev L' = dv ∧ l_start L' = st ∧ lh_n L' = Z.of_nat (length blks) ∧
     length (lh_block L') = LOGBLOCKS ∧ l_outstanding L' = l_outstanding L ∧ l_committing L' = l_committing L ∧
     take k (lh_block L') = take k blks)).
  - eexists. split; [exact Hc2|]. done.
  - intros k s3 Hk (L' & Hc3 & H1 & H2 & H3 & H4 & H6 & H7 & H5). pose proof (proj1 Hok).
    eapply wp_set_block; [exact Hc3|lia|]. intros s4 Hc4. eexists. split; [exact Hc4|]. split_and!; [done|done|done|by cbn; rewrite length_insert|done|done|].
    cbn [lh_block with_block]. rewrite (take_S_r _ k (head_block (block d st) k)) by (apply list_lookup_insert_eq; lia).
    rewrite take_insert_ge, H5 by lia. symmetry. apply take_S_r. rewrite (nth_blk blks k) by lia. f_equal. symmetry.
    apply Hhb, nth_blk. lia.
  - intros s3 (L' & Hc3 & H1 & H2 & H3 & H4 & H6 & H7 & H5). rewrite Nat.add_0_l, (take_ge blks) in H5 by done.
    eapply (wp_brelse me pid dv s0 Hidle E _ _ _ st); [exact Hc3|unfold A; by simplify_map_eq|done|done|done|].
    intros s4 Hc4. rewrite give_back_last in Hc4 by done. apply (HQ L'); [|by split|done|done].
    replace (∅ : gmap Z Ent) with (delete st A); [done|]. unfold A. by rewrite delete_insert_id.
Qed.

Definition recover_w (blks : list Z) (h : list (Z * list Z)) (k : nat) : Z * list Z := (nth k blks 0, block h (copy_at k)).

Lemma wp_install_recover E L h blks s (Q : unit → KState → Prop) :
  cache ∅ L h s → logst L blks →
  (∀ s', cache ∅ L (writes (recover_w blks h) (length blks) h) s' → Q tt s') → wp E (install_trans sleeps true) Q s.
Proof.
  intros Hc HL HQ. unfold install_trans. apply wp_bind. eapply wp_getlog; [done|]. rewrite (ls_n _ _ HL), Nat2Z.id.
  apply (wp_count_loop E _ 0 _ (λ k s, cache ∅ L (writes (recover_w blks h) k h) s)); [done| |done].
  intros k s1 Hk Hc1. destruct (logst_lt _ _ k HL ltac:(lia)) as [Hlt _].
  eapply wp_install_clean; [exact Hc1|exact HL|apply nth_blk; lia|done|done|exact empty_fits|]. intros s2 Hc2. cbn [writes].
  rewrite block_writes_out in Hc2; [done|]. intros i Hi. cbn. destruct (logst_lt _ _ i HL ltac:(lia)) as [_ Hh].
  intros Heq. by apply (copy_not_home k _ Hlt Hh).
Qed.

Lemma wp_recover E L h blks s (Q : unit → KState → Prop) :
  cache ∅ L h s → fresh_log L → is_header (block h st) blks → header_ok blks → Forall is_home blks →
  (∀ H0 L' s', is_header H0 [] → logst L' [] → l_outstanding L' = l_outstanding L → l_committing L' = l_committing L → cache ∅ L' ((st, H0) :: writes (recover_w blks h) (length blks) h) s' → Q tt s') →
  wp E (recover_from_log sleeps) Q s.
Proof.
  intros Hc HL Hh Hok Hhome HQ. unfold recover_from_log. apply wp_bind. eapply wp_read_head; [done..|]. intros L1 s1 Hc1 HL1 Ho1 Hm1.
  apply wp_bind. eapply wp_install_recover; [exact Hc1|done|]. intros s2 Hc2. apply wp_bind. eapply wp_putlog; [exact Hc2|].
  intros s3 Hc3. pose proof (logst_empty _ _ HL1) as HL3. eapply wp_write_head; [exact Hc3|exact HL3|done|exact empty_fits'| |].
  - rewrite block_writes_out; [apply Hh|]. intros i Hi. cbn. destruct (logst_lt _ _ i HL1 Hi) as [_ Hi'].
    pose proof (head_not_home _ Hi'). congruence.
  - intros H0 s4 HH0 Hc4. by eapply HQ.
Qed.

(** ** The home blocks *)

(** The contents of block [b] after the transaction. *)
Definition after_tx (A : gmap Z Ent) (blks : list Z) (d : list (Z * list Z)) (b : Z) : list Z :=
  if decide (b ∈ blks) then data_of A b else block d b.

Lemma home_written (val : Z → list Z) blks w h b :
  NoDup blks → (∀ k, (k < length blks)%nat → w k = (nth k blks 0, val (nth k blks 0))) →
  block (writes w (length blks) h) b = if decide (b ∈ blks) then val b else block h b.
Proof.
  intros Hnd Hw. case_decide as Hb.
  - apply list_elem_of_lookup in Hb as [k Hk]. pose proof (lookup_lt_Some _ _ _ Hk) as Hlt.
    pose proof (nth_lookup_Some _ _ 0 _ Hk) as Hnth.
    apply (block_writes_in _ _ _ k); [done|by rewrite Hw, Hnth|]. intros i Hi. rewrite Hw by lia. cbn. intros Heq.
    pose proof (nth_blk blks i ltac:(lia)) as Hi'. rewrite Heq in Hi'. pose proof (NoDup_lookup _ _ _ _ Hnd Hk Hi'). lia.
  - apply block_writes_out. intros j Hj. rewrite Hw by done. cbn. intros <-. apply Hb.
    eapply list_elem_of_lookup_2, nth_blk, Hj.
Qed.

Lemma home_before A L blks Hn d j b :
  logst L blks → is_home b → (j ≤ length blks)%nat → (b ∉ blks) →
  block (writes (home_w A blks) j (committed A blks Hn d)) b = block d b.
Proof.
  intros HL Hb Hj Hni. rewrite block_writes_out.
  - unfold committed, copied. cbn [block]. rewrite (proj2 (Z.eqb_neq _ _)) by (by apply head_not_home).
    apply block_writes_out. intros k Hk. cbn. destruct (logst_lt _ _ k HL Hk) as [Hlt _]. by apply copy_not_home.
  - intros k Hk. cbn. intros <-. apply Hni. eapply list_elem_of_lookup_2, nth_blk. lia.
Qed.

Lemma installed_home A L blks Hn H0 d b :
  logst L blks → NoDup blks → is_home b → block (installed A blks Hn H0 d) b = after_tx A blks d b.
Proof.
  intros HL Hnd Hb. unfold installed, after_tx. cbn [block]. rewrite (proj2 (Z.eqb_neq _ _)) by (by apply head_not_home).
  rewrite (home_written (data_of A)) by done. case_decide; [done|]. apply (home_before A L blks Hn d 0); [done|done|lia|done].
Qed.

(** A crash before the header of the transaction is written: the header on
    the disk is empty, and recovery changes no home block. *)
Lemma crash_before A L blks d j b : logst L blks → (j ≤ length blks)%nat → is_home b →
  block (writes (log_w A blks) j d) b = block d b.
Proof.
  intros HL Hj Hb. apply block_writes_out. intros k Hk. cbn. destruct (logst_lt _ _ k HL ltac:(lia)) as [Hlt _]. by apply copy_not_home.
Qed.

(** A crash after that: recovery installs every block. *)
Lemma crash_after A L blks Hn d j b :
  logst L blks → NoDup blks → (j ≤ length blks)%nat → is_home b →
  let h := writes (home_w A blks) j (committed A blks Hn d) in
  block (writes (recover_w blks h) (length blks) h) b = after_tx A blks d b.
Proof.
  intros HL Hnd Hj Hb h. rewrite (home_written (data_of A)); [|done|].
  - unfold after_tx. case_decide; [done|]. by apply (home_before A L).
  - intros k Hk. unfold recover_w. f_equal. unfold h. erewrite copies_kept by done. by apply copy_written.
Qed.

(** The disks a crash during [commit] leaves. *)
Lemma crash_points A blks Hn H0 d h :
  d `suffix_of` h → h `suffix_of` installed A blks Hn H0 d →
  (∃ j, (j ≤ length blks)%nat ∧ h = writes (log_w A blks) j d) ∨
  (∃ j, (j ≤ length blks)%nat ∧ h = writes (home_w A blks) j (committed A blks Hn d)) ∨
  h = installed A blks Hn H0 d.
Proof.
  intros Hlow [->|H]%suffix_cons_or; [by right; right|]. destruct (suffix_writes _ _ _ _ H) as [H'|(j & Hj & ->)]; [|right; left; eauto].
  apply suffix_cons_or in H' as [->|H']; [right; left; by exists 0%nat; split; [lia|]|].
  left. destruct (suffix_writes _ _ _ _ H') as [H''|(j & Hj & ->)]; [|eauto].
  exists 0%nat. split; [lia|]. cbn. by apply (anti_symm suffix).
Qed.
End Log.
