(* ===== verification/Crash.v ===== *)
(** * Crash atomicity of a transaction

    [commit] followed by a crash at any of its disk writes, a reboot and
    [initlog]: the home blocks are all as before the transaction, or all as
    after it. *)

From S2P Require Import Prelude CString Kernel KLogic Spinlock KMem Kalloc Vm VmSpec VmUser Proc ProcSpec Bio BioSpec Log LogSpec.
Open Scope Z_scope.
Open Scope os_scope.

(** ** Reboot *)

(** The first process of a kernel that has just started on the disk [h]: the
    cache is empty, the log is still in its initial state. *)
Record rebooted (me : nat) (pid dv : Z) (h : list (Z * list Z)) (r : KState) : Prop := {
  rb_table : table_free r;
  rb_me : c_proc (cpu r) = Some me;
  rb_pid : ∃ p, procs r !! me = Some p ∧ p_pid p = pid;
  rb_bcache : lock_free r Lbcache;
  rb_sleep : ∀ n, (n < NBUF)%nat → lock_free r (Lsleep (Z.of_nat n));
  rb_rep : rep dv (fs r) ∅;
  rb_disk : fs_disk (fs r) = h;
  rb_log : length (lh_block (fs_log (fs r))) = LOGBLOCKS ∧ l_outstanding (fs_log (fs r)) = 0 ∧ l_committing (fs_log (fs r)) = 0
}.

(** Between transactions: the log and the cache are empty, in memory and on
    the disk. *)
Record fs_quiet (me : nat) (pid dv : Z) (sb : SuperBlock) (s : KState) : Prop := {
  fq_idle : idle me pid s;
  fq_lock : lock_free s Llog;
  fq_rep : rep dv (fs s) ∅;
  fq_log : logst dv (sb_logstart sb) (fs_log (fs s)) [];
  fq_none : l_outstanding (fs_log (fs s)) = 0 ∧ l_committing (fs_log (fs s)) = 0;
  fq_head : is_header (block (fs_disk (fs s)) (sb_logstart sb)) []
}.

Lemma rebooted_idle me pid dv h r nm :
  rebooted me pid dv h r → idle me pid (set_locks (<[Llog := mkLock 0 nm None]> (locks r)) r).
Proof.
  intros [(Hs & Hlen & Hp) H2 H3 H4 H5 _ _ _].
  assert (Hlf : ∀ l, l = Llog ∨ lock_free r l → lock_free (set_locks (<[Llog := mkLock 0 nm None]> (locks r)) r) l).
  { intros l Hl. destruct (decide (Llog = l)) as [<-|Hne].
    - exists nm. cbn. by rewrite lookup_insert_eq.
    - destruct Hl as [->|[x Hx]]; [done|]. exists x. cbn. by rewrite lookup_insert_ne. }
  split; [|done|done|apply Hlf; by right|intros n Hn; apply Hlf; right; by apply H5].
  split_and!; [done|done|]. intros j Hj. apply Hlf. right. by apply Hp.
Qed.

Section Crash.
Context {IMG : KernelImage} {D : Disk} {DL : DiskLaw D} (sleeps : nat) (me : nat) (pid dv : Z).

Lemma quiet_after sb s L d s' :
  idle me pid s → lock_free s Llog → cache dv s ∅ L d s' → logst dv (sb_logstart sb) L [] → l_outstanding L = 0 → l_committing L = 0 →
  is_header (block d (sb_logstart sb)) [] → fs_quiet me pid dv sb s'.
Proof.
  intros Hid Hl [H1 H2 H3 H4 H5] HL Ho Hcm Hh.
  split; [by eapply idle_after|by eapply after_free|done|by rewrite H3|by rewrite H3|by rewrite H4].
Qed.

Lemma run_initlog (sb : SuperBlock) h blks r :
  rebooted me pid dv h r → is_header (block h (sb_logstart sb)) blks → header_ok blks → Forall (is_home (sb_logstart sb)) blks → in_range dv (sb_logstart sb) →
  ∃ r' H0, initlog sleeps dv sb r = Ret tt r' ∧ fs_quiet me pid dv sb r' ∧
    fs_disk (fs r') = (sb_logstart sb, H0) :: writes (recover_w (sb_logstart sb) blks h) (length blks) h.
Proof.
  intros Hr Hh Hok Hhome Hrange. set (st := sb_logstart sb) in *.
  pose proof (rebooted_idle _ _ _ _ _ "log"%string Hr) as Hid. set (r0 := set_locks _ r) in Hid.
  assert (Hgoal : wp Atomic (initlog sleeps dv sb) (λ _ r', ∃ H0, fs_quiet me pid dv sb r' ∧
    fs_disk (fs r') = (st, H0) :: writes (recover_w st blks h) (length blks) h) r).
  { unfold initlog. replace (_ <=? _)%nat with false by done. apply wp_bind. unfold initlock. apply wp_modify.
    fold r0. assert (Hc0 : cache dv r0 ∅ (fs_log (fs r)) h r0).
    { split; [by apply after_same|apply (rb_rep _ _ _ _ _ Hr)|done|apply (rb_disk _ _ _ _ _ Hr)|done]. }
    apply wp_bind. eapply wp_putlog; [exact Hc0|]. intros s1 Hc1.
    apply wp_bind. eapply wp_putlog; [exact Hc1|]. intros s2 Hc2.
    eapply (wp_recover sleeps me pid dv st r0 Hid); [exact Hc2| |exact Hh|done|done|].
    - destruct Hrange as (H1 & H2 & H3). split_and!; [done|cbn; apply s32_id; fold st; lia|apply (rb_log _ _ _ _ _ Hr)|done..].
    - intros H0 L' s3 HH0 HL' Ho Hm Hc3. exists H0. split; [|by rewrite (ca_disk _ _ _ _ _ _ Hc3)].
      destruct (rb_log _ _ _ _ _ Hr) as (_ & Ho0 & Hm0).
      eapply (quiet_after sb r0); [done| |exact Hc3|exact HL'|by rewrite Ho|by rewrite Hm|cbn [block]; by rewrite Z.eqb_refl].
      exists "log"%string. cbn. by rewrite lookup_insert_eq. }
  apply wp_atomic in Hgoal as ([] & r' & Hrun & H0 & Hrest). exists r', H0. by split.
Qed.

(** The writes between the disks [d] and [d'] are atomic: a machine that stops
    after any of them and reboots on the disk it left recovers, and all home
    blocks are as on [d] or all have the contents [new]. *)
Definition crash_atomic (sb : SuperBlock) (d d' : list (Z * list Z)) (new : Z → list Z) : Prop :=
  ∀ h r, d `suffix_of` h → h `suffix_of` d' → rebooted me pid dv h r →
    ∃ r', initlog sleeps dv sb r = Ret tt r' ∧ fs_quiet me pid dv sb r' ∧
      ((∀ b, is_home (sb_logstart sb) b → block (fs_disk (fs r')) b = block d b) ∨
       (∀ b, is_home (sb_logstart sb) b → block (fs_disk (fs r')) b = new b)).

Lemma recovers (sb : SuperBlock) h r bs :
  rebooted me pid dv h r → is_header (block h (sb_logstart sb)) bs → header_ok bs → Forall (is_home (sb_logstart sb)) bs → in_range dv (sb_logstart sb) →
  ∃ r', initlog sleeps dv sb r = Ret tt r' ∧ fs_quiet me pid dv sb r' ∧
    ∀ b, is_home (sb_logstart sb) b →
      block (fs_disk (fs r')) b = block (writes (recover_w (sb_logstart sb) bs h) (length bs) h) b.
Proof.
  intros Hr Hh Hok Hho Hra. destruct (run_initlog sb h bs r Hr Hh Hok Hho Hra) as (r' & H0' & Hi & Hn' & Hdr).
  exists r'. split_and!; [done|done|]. intros b Hb. rewrite Hdr. cbn [block].
  by rewrite (proj2 (Z.eqb_neq _ _)) by (by apply (head_not_home (sb_logstart sb))).
Qed.

Lemma header_ok_nil : header_ok [].
Proof. split; [cbn; lia|by constructor]. Qed.

(** The writes of [commit] are atomic. *)
Lemma installed_atomic (sb : SuperBlock) A L blks Hn H0 d :
  logst dv (sb_logstart sb) L blks → NoDup blks → is_header (block d (sb_logstart sb)) [] →
  is_header Hn blks → is_header H0 [] →
  crash_atomic sb d (installed (sb_logstart sb) A blks Hn H0 d) (after_tx A blks d).
Proof.
  set (st := sb_logstart sb) in *. intros HL Hnd Hhead HHn HH0 h r Hlow Hup Hr.
  destruct (crash_points _ _ _ _ _ _ _ Hlow Hup) as [(j & Hj & ->)|[(j & Hj & ->)| ->]].
  - destruct (recovers sb _ r [] Hr) as (r' & Hi & Hz' & Hb'); [by rewrite head_kept_log|exact header_ok_nil|by constructor|apply HL|].
    exists r'. split_and!; [done|done|left]. intros b Hb. rewrite (Hb' b Hb). by eapply crash_before.
  - destruct (recovers sb _ r blks Hr) as (r' & Hi & Hz' & Hb'); [|apply HL|apply HL|apply HL|].
    { erewrite head_kept_home by done. unfold committed. cbn [block]. by rewrite Z.eqb_refl. }
    exists r'. split_and!; [done|done|right]. intros b Hb. rewrite (Hb' b Hb). by eapply crash_after.
  - destruct (recovers sb _ r [] Hr) as (r' & Hi & Hz' & Hb');
      [unfold installed; cbn [block]; by rewrite Z.eqb_refl|exact header_ok_nil|by constructor|apply HL|].
    exists r'. split_and!; [done|done|right]. intros b Hb. rewrite (Hb' b Hb). by eapply installed_home.
Qed.

(** No write at all. *)
Lemma nothing_atomic (sb : SuperBlock) d :
  in_range dv (sb_logstart sb) → is_header (block d (sb_logstart sb)) [] → crash_atomic sb d d (block d).
Proof.
  intros Hra Hhead h r Hlow Hup Hr. rewrite (anti_symm suffix h d) in * by done.
  destruct (recovers sb d r [] Hr) as (r' & Hi & Hz' & Hb'); [done|exact header_ok_nil|by constructor|done|].
  exists r'. split_and!; [done|done|by left].
Qed.
End Crash.
