(* ===== verification/TxView.v ===== *)
(** * The log interface and the state inside a transaction

    [begin_op], [log_write] and [end_op] on the buffer cache.  [in_tx] is the
    state of a process between [begin_op] and [end_op]: [cur] are the contents
    of all blocks as it sees them, [ks] the blocks it has logged, and [H] the
    buffers it has locked.  The buffer operations act on these three alone. *)

From S2P Require Import Prelude CString Kernel KLogic Spinlock KMem Kalloc Vm VmSpec VmUser Proc ProcSpec Bio BioSpec CacheSpec Log LogSpec Crash.
Open Scope Z_scope.
Open Scope os_scope.

Definition upd (b : Z) (v : list Z) (f : Z → list Z) : Z → list Z := λ x, if decide (x = b) then v else f x.
Lemma upd_eq b v f : upd b v f b = v.
Proof. unfold upd. by rewrite decide_True. Qed.
Lemma upd_ne b v f x : x ≠ b → upd b v f x = f x.
Proof. intros H. unfold upd. by rewrite decide_False. Qed.

Section Tx.
Context {IMG : KernelImage} {D : Disk} {DL : DiskLaw D} (sleeps : nat) (me : nat) (pid dv st : Z).
Variable s0 : KState.
Hypothesis Hidle : idle me pid s0.
Hypothesis Hfree : lock_free s0 Llog.
#[local] Abbreviation cache := (cache dv s0).

Lemma log_lock A L d s : cache A L d s → lock_free s Llog ∧ sync_ok s ∧ idle me pid (acq Llog s).
Proof.
  intros Hc. pose proof (cache_idle _ _ _ _ Hidle _ _ _ _ Hc) as Hid.
  split_and!; [by eapply after_free; [apply Hc|]|by eapply idle_sync|by apply idle_acq].
Qed.

(** ** [log_write] *)

Lemma wp_absorb E blocks bn i n (Q : nat → KState → Prop) s :
  (i + n ≤ length blocks)%nat →
  (∀ k, (i ≤ k < i + n)%nat → u32 <$> blocks !! k = Some bn → Q k s) →
  ((∀ k, (i ≤ k < i + n)%nat → u32 <$> blocks !! k ≠ Some bn) → Q (i + n)%nat s) → wp E (absorb blocks bn i n) Q s.
Proof.
  revert i. induction n as [|n IH]; intros i Hl Hin Hout; cbn [absorb].
  - apply wp_ret. rewrite <- (Nat.add_0_r i). apply Hout. intros k Hk. lia.
  - destruct (lookup_lt_is_Some_2 blocks i) as [v Hv]; [lia|]. apply wp_bind. eapply wp_need; [exact Hv|].
    destruct (Z.eqb_spec (u32 v) bn) as [Heq|Hne]; [apply wp_ret, Hin; [lia|rewrite Hv; cbn; by rewrite Heq]|].
    apply (IH (S i)); [lia|intros k Hk; apply Hin; lia|]. intros Hall.
    replace (S i + n)%nat with (i + S n)%nat by lia. apply Hout. intros k Hk.
    destruct (decide (k = i)) as [->|]; [rewrite Hv; cbn; congruence|apply Hall; lia].
Qed.

(** The log with one more block. *)
Definition log_add (b : Z) (L : LogState) : LogState :=
  with_n (lh_n L + 1) (with_block (<[Z.to_nat (lh_n L) := b]> (lh_block L)) L).
Lemma logst_add L blks b :
  logst dv st L blks → (length blks < LOGBLOCKS)%nat → is_home st b → 0 ≤ b < 2 ^ 31 → logst dv st (log_add b L) (blks ++ [b]).
Proof.
  intros [H1 H2 H3 H4 H5 [H6 H7] H8 H9] Hlt Hh Hb. unfold log_add. rewrite H3, Nat2Z.id.
  split; cbn; rewrite ?length_app, ?length_insert; cbn [length].
  - done.
  - done.
  - lia.
  - done.
  - rewrite Nat.add_1_r, (take_S_r _ _ b) by (apply list_lookup_insert_eq; lia). by rewrite take_insert_ge, <- H5 by lia.
  - split; [rewrite length_app; cbn [length]; lia|]. by apply Forall_app; split; [|constructor].
  - by apply Forall_app; split; [|constructor].
  - done.
Qed.

Lemma wp_log_write E A L d blks b e i s (Q : unit → KState → Prop) :
  cache A L d s → logst dv st L blks → (length blks < LOGBLOCKS)%nat → 1 ≤ l_outstanding L →
  A !! b = Some e → e_buf e = i → e_ref e + 1 < 2 ^ 32 → 0 ≤ b < 2 ^ 31 →
  (b ∈ blks → ∀ s', cache A L d s' → Q tt s') →
  ((b ∉ blks) → ∀ s', cache (<[b := set_ref (e_ref e + 1) e]> A) (log_add b L) d s' → Q tt s') →
  wp E (log_write i) Q s.
Proof.
  intros Hc HL Hlt Hout He Hi Href Hrb Hin Hnew. destruct (log_lock _ _ _ _ Hc) as (Hl & Hs & Hid).
  pose proof (cache_enter _ _ _ _ _ _ Llog Hc) as Hc1. pose proof (ls_n _ _ _ _ HL) as Hn. pose proof (ls_len _ _ _ _ HL) as Hlen.
  unfold log_write. apply wp_bind, wp_acquire; [done|]. apply wp_bind. eapply wp_getlog; [exact Hc1|].
  rewrite (proj2 (Z.leb_gt _ _)), (proj2 (Z.ltb_ge _ _)) by lia.
  apply wp_bind. eapply (wp_peek dv _ E _ _ _ b); [exact Hc1|done|done|]. cbn [b_blockno ent_buf]. rewrite (s32_id b Hrb). apply wp_bind.
  assert (Hu : ∀ k x, (k < length blks)%nat → lh_block L !! k = Some x → u32 x = x).
  { intros k x Hk Hx. apply (logst_at dv st L blks k x HL). rewrite (ls_blks _ _ _ _ HL), lookup_take_lt by lia. done. }
  rewrite Hn, Nat2Z.id. apply wp_absorb; [lia| |].
  - intros k Hk Hb. apply fmap_Some in Hb as (x & Hb & Hx). rewrite (Hu k x) in Hx by (done || lia). subst x. assert (Hbk : blks !! k = Some b) by (rewrite (ls_blks _ _ _ _ HL), lookup_take_lt by lia; done).
    apply wp_bind. eapply wp_set_block; [exact Hc1|lia|]. intros s1 Hc2.
    rewrite (proj2 (Z.eqb_neq _ _)) by lia. apply wp_bind, wp_ret.
    eapply (wp_leave_cache E dv s0 A L d s Llog A L d); [done|done|done| |apply Hin; by eapply list_elem_of_lookup_2].
    replace L with (with_block (<[k := b]> (lh_block L)) L) at 1; [done|]. rewrite list_insert_id by done. by destruct L.
  - intros Hall. assert (Hni : b ∉ blks).
    { intros (k & Hk)%list_elem_of_lookup. rewrite (ls_blks _ _ _ _ HL) in Hk. apply lookup_take_Some in Hk as [Hk Hk'].
      apply (Hall k); [lia|]. rewrite Hk. cbn. by rewrite (Hu k b) by (done || lia). }
    apply wp_bind. eapply wp_set_block; [exact Hc1|lia|]. intros s1 Hc2. rewrite Nat.add_0_l, Z.eqb_refl. apply wp_bind. unfold when.
    apply wp_bind. eapply (wp_bpin me pid dv _ Hid E _ _ _ b); [exact Hc2|done|done|done|]. intros s2 Hc3.
    eapply wp_putlog; [exact Hc3|]. intros s3 Hc4.
    eapply (wp_leave_cache E dv s0 A L d s Llog); [done|done|done|exact Hc4|].
    intros s' Hc'. apply (Hnew Hni). unfold log_add. by rewrite Hn, Nat2Z.id.
Qed.

(** ** Inside a transaction *)

(** The cache entry of block [b]. *)
Definition slot_ok (d : list (Z * list Z)) (ks : gset Z) (cur : Z → list Z) (H : gmap Z nat) (b : Z) (o : option Ent) : Prop :=
  match o with
  | None => (b ∉ ks) ∧ H !! b = None ∧ cur b = block d b
  | Some e => e_data e = cur b ∧
      match H !! b with
      | Some i => e_buf e = i ∧ e_lock e = mine pid ∧ e_ref e = if decide (b ∈ ks) then 2 else 1
      | None => b ∈ ks ∧ e_lock e = unlocked ∧ e_ref e = 1
      end
  end.

Inductive in_tx (L0 : LogState) (d : list (Z * list Z)) (ks : gset Z) (cur : Z → list Z) (H : gmap Z nat) (s : KState) : Prop :=
  In_tx blks A L :
    cache A L d s → logst dv st L blks → l_outstanding L = l_outstanding L0 → l_committing L = l_committing L0 →
    NoDup blks → (∀ x, x ∈ blks ↔ x ∈ ks) → (∀ b, slot_ok d ks cur H b (A !! b)) → in_tx L0 d ks cur H s.

Lemma blks_size (blks : list Z) (ks : gset Z) : NoDup blks → (∀ x, x ∈ blks ↔ x ∈ ks) → length blks = size ks.
Proof.
  intros Hnd Hks. rewrite <- (size_list_to_set (C := gset Z) blks Hnd). f_equal. apply set_eq. intros x. by rewrite elem_of_list_to_set.
Qed.

Lemma slots_fit d ks cur H (A : gmap Z Ent) : (∀ b, slot_ok d ks cur H b (A !! b)) → (size A ≤ size ks + size H)%nat.
Proof.
  intros Hs. rewrite <- !size_dom. transitivity (size (ks ∪ dom H)); [|rewrite size_union_alt; pose proof (subseteq_size (dom H ∖ ks) (dom H)); set_solver by lia].
  apply subseteq_size. intros b [e He]%elem_of_dom. specialize (Hs b). rewrite He in Hs. destruct Hs as [_ Hs].
  apply elem_of_union. rewrite elem_of_dom. destruct (H !! b); [by right|by left; apply Hs].
Qed.

(** An update of the entry of [b]. *)
Lemma slots_insert d ks ks' cur cur' H H' (A : gmap Z Ent) b e :
  (∀ x, slot_ok d ks cur H x (A !! x)) →
  (∀ x, x ≠ b → (x ∈ ks' ↔ x ∈ ks) ∧ cur' x = cur x ∧ H' !! x = H !! x) →
  slot_ok d ks' cur' H' b (Some e) → ∀ x, slot_ok d ks' cur' H' x (<[b := e]> A !! x).
Proof.
  intros Hs Hx Hb x. destruct (decide (x = b)) as [->|Hne]; [by rewrite lookup_insert_eq|].
  rewrite lookup_insert_ne by done. specialize (Hs x). destruct (Hx x Hne) as (Hk & Hc & Hh). unfold slot_ok in *.
  rewrite Hc, Hh. destruct (A !! x) as [y|]; [|by rewrite Hk]. destruct (H !! x); [|by rewrite Hk].
  destruct (decide (x ∈ ks')), (decide (x ∈ ks)); tauto.
Qed.
Lemma slots_delete d ks cur H (A : gmap Z Ent) b :
  (∀ x, slot_ok d ks cur H x (A !! x)) → (b ∉ ks) → cur b = block d b →
  ∀ x, slot_ok d ks cur (delete b H) x (delete b A !! x).
Proof.
  intros Hs Hk Hc x. destruct (decide (x = b)) as [->|Hne].
  - rewrite lookup_delete_eq. unfold slot_ok. by rewrite lookup_delete_eq.
  - rewrite lookup_delete_ne by done. specialize (Hs x). unfold slot_ok in *. by rewrite (lookup_delete_ne H) by done.
Qed.

Lemma wp_tx_bread E L0 d ks cur H b s (Q : nat → KState → Prop) :
  in_tx L0 d ks cur H s → H !! b = None → (size ks + size H < NBUF)%nat →
  (∀ i s', in_tx L0 d ks cur (<[b := i]> H) s' → Q i s') → wp E (bread sleeps dv b) Q s.
Proof.
  intros [blks A L Hc HL Ho Hcm Hnd Hks Hs] Hb Hfit HQ. pose proof (slots_fit _ _ _ _ _ Hs) as Hsize. pose proof (Hs b) as Hsb.
  unfold slot_ok in Hsb. rewrite Hb in Hsb. destruct (A !! b) as [e|] eqn:He.
  - destruct Hsb as (Hd & Hk & Hl & Hr). eapply (wp_bread_hit sleeps me pid dv s0 Hidle _ _ _ _ b e); [exact Hc|done|by rewrite Hl|lia|].
    intros s1 Hc1. apply HQ. exists blks (<[b := take_ent pid e]> A) L; [done..|].
    eapply slots_insert; [exact Hs|intros x Hx; by rewrite lookup_insert_ne|]. cbn. rewrite lookup_insert_eq, decide_True by done.
    split_and!; [done|done|done|lia].
  - destruct Hsb as (Hk & _ & Hd). eapply (wp_bread_miss sleeps me pid dv s0 Hidle _ _ _ _ b); [exact Hc|done|lia|].
    intros i s1 Hc1. apply HQ. exists blks (<[b := mkEnt i 1 (mine pid) (block d b)]> A) L; [done..|].
    eapply slots_insert; [exact Hs|intros x Hx; by rewrite lookup_insert_ne|]. cbn. by rewrite lookup_insert_eq, decide_False by done.
Qed.

Lemma wp_tx_getb E L0 d ks cur H b i s (Q : Buf → KState → Prop) :
  in_tx L0 d ks cur H s → H !! b = Some i → (∀ x, b_data x = cur b → Q x s) → wp E (getb i) Q s.
Proof.
  intros [blks A L Hc HL Ho Hcm Hnd Hks Hs] Hb HQ. pose proof (Hs b) as Hsb. unfold slot_ok in Hsb. rewrite Hb in Hsb.
  destruct (A !! b) as [e|] eqn:He; [|by destruct Hsb as (_ & ? & _)]. destruct Hsb as (Hd & <- & _).
  eapply (wp_peek dv s0 E _ _ _ b); [exact Hc|done|done|]. by apply HQ.
Qed.

Lemma wp_tx_fill E L0 d ks cur H b i v s (Q : unit → KState → Prop) :
  in_tx L0 d ks cur H s → H !! b = Some i → (∀ s', in_tx L0 d ks (upd b v cur) H s' → Q tt s') →
  wp E (putb i (with_data v)) Q s.
Proof.
  intros [blks A L Hc HL Ho Hcm Hnd Hks Hs] Hb HQ. pose proof (Hs b) as Hsb. unfold slot_ok in Hsb. rewrite Hb in Hsb.
  destruct (A !! b) as [e|] eqn:He; [|by destruct Hsb as (_ & ? & _)]. destruct Hsb as (Hd & Hi & Hl & Hr).
  eapply (wp_fill dv s0 E _ _ _ b); [exact Hc|done|done|]. intros s1 Hc1. apply HQ.
  exists blks (<[b := set_ent_data v e]> A) L; [done..|].
  eapply slots_insert; [exact Hs|intros x Hx; by rewrite upd_ne|]. cbn. by rewrite upd_eq, Hb.
Qed.

(** The same where the new contents are computed from the old ones. *)
Lemma wp_tx_change E L0 d ks cur H b i g s (Q : unit → KState → Prop) :
  in_tx L0 d ks cur H s → H !! b = Some i → (∀ s', in_tx L0 d ks (upd b (g (cur b)) cur) H s' → Q tt s') →
  wp E (putb i (λ x, with_data (g (b_data x)) x)) Q s.
Proof.
  intros Ht Hb HQ. pose proof (wp_tx_fill E L0 d ks cur H b i (g (cur b)) s Q Ht Hb HQ) as Hf.
  destruct Ht as [blks A L Hc HL Ho Hcm Hnd Hks Hs]. pose proof (Hs b) as Hsb. unfold slot_ok in Hsb. rewrite Hb in Hsb.
  destruct (A !! b) as [e|] eqn:He; [|by destruct Hsb as (_ & ? & _)]. destruct Hsb as (Hd & Hi & _).
  destruct (cache_in _ _ _ _ _ _ _ _ Hc He) as (Hbuf & _ & _). rewrite Hi in Hbuf. rewrite <- Hd in Hf.
  eapply wp_putb_same; [exact Hbuf|reflexivity|exact Hf].
Qed.

Lemma wp_tx_log_write E L0 d ks cur H b i s (Q : unit → KState → Prop) :
  in_tx L0 d ks cur H s → H !! b = Some i → (size ks < LOGBLOCKS)%nat → 1 ≤ l_outstanding L0 → is_home st b → 0 ≤ b < 2 ^ 31 →
  (∀ s', in_tx L0 d ({[b]} ∪ ks) cur H s' → Q tt s') → wp E (log_write i) Q s.
Proof.
  intros [blks A L Hc HL Ho Hcm Hnd Hks Hs] Hb Hlt H1 Hh Hr HQ. pose proof (Hs b) as Hsb. unfold slot_ok in Hsb. rewrite Hb in Hsb.
  destruct (A !! b) as [e|] eqn:He; [|by destruct Hsb as (_ & ? & _)]. destruct Hsb as (Hd & Hi & Hl & Hrf).
  pose proof (blks_size _ _ Hnd Hks) as Hlen.
  eapply (wp_log_write E A L d blks b e i); [exact Hc|exact HL|lia|lia|done|done|case_decide; lia|done| |].
  - intros Hin s1 Hc1. apply HQ. replace ({[b]} ∪ ks) with ks by (apply Hks in Hin; set_solver). by exists blks A L.
  - intros Hni s1 Hc1. apply HQ. rewrite Hks in Hni. rewrite decide_False in Hrf by done.
    exists (blks ++ [b]) (<[b := set_ref (e_ref e + 1) e]> A) (log_add b L);
      [done|apply logst_add; [done|lia|done|done]|done|done| | |].
    + apply NoDup_app. split_and!; [done| |apply NoDup_singleton]. intros x Hx ->%list_elem_of_singleton. by apply Hks in Hx.
    + intros x. rewrite elem_of_app, list_elem_of_singleton, Hks. set_solver.
    + eapply slots_insert; [exact Hs|intros x Hx; set_solver|]. cbn. rewrite Hb, decide_True by set_solver. split_and!; [done|done|done|lia].
Qed.

Lemma wp_tx_brelse E L0 d ks cur H b i s (Q : unit → KState → Prop) :
  in_tx L0 d ks cur H s → H !! b = Some i → b ∈ ks ∨ cur b = block d b →
  (∀ s', in_tx L0 d ks cur (delete b H) s' → Q tt s') → wp E (brelse i) Q s.
Proof.
  intros [blks A L Hc HL Ho Hcm Hnd Hks Hs] Hb Hor HQ. pose proof (Hs b) as Hsb. unfold slot_ok in Hsb. rewrite Hb in Hsb.
  destruct (A !! b) as [e|] eqn:He; [|by destruct Hsb as (_ & ? & _)]. destruct Hsb as (Hd & Hi & Hl & Hr).
  eapply (wp_brelse me pid dv s0 Hidle E A L d b e); [exact Hc|done|done|done| |].
  { intros H1. rewrite Hd. destruct Hor as [Hin|]; [|done]. rewrite decide_True in Hr by done. lia. }
  intros s1 Hc1. apply HQ. exists blks (give_back b e A) L; [done..|]. destruct (decide (b ∈ ks)) as [Hin|Hni].
  - rewrite give_back_more by lia. eapply slots_insert; [exact Hs|intros x Hx; by rewrite lookup_delete_ne|].
    cbn. rewrite lookup_delete_eq. split_and!; [done|done|done|lia].
  - rewrite give_back_last by done. apply slots_delete; [done|done|]. by destruct Hor.
Qed.

(** ** [begin_op] and [end_op] *)

Lemma logst_with L blks o c : logst dv st L blks → logst dv st (with_committing c (with_outstanding o L)) blks.
Proof. by intros []. Qed.

(** There is room for one more operation. *)
Definition has_room (L : LogState) : Prop :=
  l_committing L = 0 ∧ lh_n L + (l_outstanding L + 1) * Z.of_nat MAXOPBLOCKS ≤ Z.of_nat LOGBLOCKS.

Lemma wp_begin_op E A L d s (Q : unit → KState → Prop) :
  cache A L d s → has_room L → (∀ s', cache A (with_outstanding (l_outstanding L + 1) L) d s' → Q tt s') →
  wp E (log_begin_op sleeps) Q s.
Proof.
  intros Hc [Hcm Hroom] HQ. destruct (log_lock _ _ _ _ Hc) as (Hl & Hs & Hid). pose proof (cache_enter _ _ _ _ _ _ Llog Hc) as Hc1.
  unfold log_begin_op. apply wp_bind, wp_acquire; [done|].
  destruct sleeps as [|f]; cbn [begin_op_loop]; apply wp_bind; (eapply wp_getlog; [exact Hc1|]);
    rewrite Hcm, (proj2 (Z.ltb_ge _ _)) by lia; cbn [Z.eqb negb orb]; apply wp_bind; (eapply wp_putlog; [exact Hc1|]);
    intros s1 Hc2; (eapply (wp_leave_cache E dv s0 A L d s Llog); [done|done|done|exact Hc2|exact HQ]).
Qed.

(** The last operation of a transaction commits. *)
Lemma wp_end_op E A L d s (Q : unit → KState → Prop) :
  cache A L d s → l_outstanding L = 1 → l_committing L = 0 →
  (∀ s', cache A (with_committing 1 (with_outstanding 0 L)) d s' →
     wp E (commit sleeps) (λ _ t, ∃ A' L' d', cache A' L' d' t ∧ (∀ t', cache A' (with_committing 0 L') d' t' → Q tt t')) s') →
  wp E (log_end_op sleeps) Q s.
Proof.
  intros Hc Ho Hcm HQ. destruct (log_lock _ _ _ _ Hc) as (Hl & Hs & Hid). pose proof (cache_enter _ _ _ _ _ _ Llog Hc) as Hc1.
  unfold log_end_op. apply wp_bind, wp_acquire; [done|]. apply wp_bind. eapply wp_getlog; [exact Hc1|].
  apply wp_bind. eapply wp_putlog; [exact Hc1|]. intros s1 Hc2. rewrite Hcm, Ho. cbn [Z.eqb negb Z.sub Z.add Z.opp Z.pos_sub].
  apply wp_bind. eapply wp_putlog; [exact Hc2|]. intros s2 Hc3. apply wp_bind.
  eapply (wp_leave_cache E dv s0 A L d s Llog); [done|done|done|exact Hc3|]. rewrite Ho. intros s3 Hc4. cbn [when].
  apply wp_bind. eapply wp_mono; [apply (HQ s3 Hc4)|]. intros [] s4 (A' & L' & d' & Hc5 & HQ').
  destruct (log_lock _ _ _ _ Hc5) as (Hl5 & Hs5 & Hid5). pose proof (cache_enter _ _ _ _ _ _ Llog Hc5) as Hc6.
  apply wp_bind, wp_acquire; [done|]. apply wp_bind. eapply wp_putlog; [exact Hc6|]. intros s6 Hc7.
  apply wp_bind. eapply wp_wakeup_cache; [exact Hid5|exact Hc7|]. intros s7 Hc8.
  eapply (wp_leave_cache E dv s0 A' L' d' s4 Llog); [done|done|done|exact Hc8|exact HQ'].
Qed.

(** An operation that is not the last one only leaves. *)
Lemma wp_end_op_more E A L d s (Q : unit → KState → Prop) :
  cache A L d s → 1 < l_outstanding L → l_committing L = 0 →
  (∀ s', cache A (with_outstanding (l_outstanding L - 1) L) d s' → Q tt s') → wp E (log_end_op sleeps) Q s.
Proof.
  intros Hc Ho Hcm HQ. destruct (log_lock _ _ _ _ Hc) as (Hl & Hs & Hid). pose proof (cache_enter _ _ _ _ _ _ Llog Hc) as Hc1.
  unfold log_end_op. apply wp_bind, wp_acquire; [done|]. apply wp_bind. eapply wp_getlog; [exact Hc1|].
  apply wp_bind. eapply wp_putlog; [exact Hc1|]. intros s1 Hc2. rewrite Hcm, (proj2 (Z.eqb_neq (l_outstanding L - 1) 0)) by lia. cbn [Z.eqb negb].
  apply wp_bind. eapply wp_wakeup_cache; [exact Hid|exact Hc2|]. intros s2 Hc3. apply wp_bind.
  eapply (wp_leave_cache E dv s0 A L d s Llog); [done|done|done|exact Hc3|]. intros s3 Hc4. apply wp_ret. by apply HQ.
Qed.


(** [begin_op] enters a transaction. *)
Lemma in_tx_start L d s : cache ∅ L d s → logst dv st L [] → in_tx L d ∅ (block d) ∅ s.
Proof using Type.
  clear Hidle Hfree DL.
  intros Hc HL. exists [] ∅ L; [done|done|done|done|by constructor|set_solver|]. intros b. rewrite lookup_empty.
  split_and!; [set_solver|done|done].
Qed.

(** The state when no buffer is locked, as [commit] needs it. *)
Lemma in_tx_quiet L0 d ks cur s :
  in_tx L0 d ks cur ∅ s → ∃ blks A L, cache A L d s ∧ logst dv st L blks ∧ l_outstanding L = l_outstanding L0 ∧
    l_committing L = l_committing L0 ∧ NoDup blks ∧ length blks = size ks ∧ size A = length blks ∧
    (∀ b, b ∈ blks → ∃ e, pinned A b e) ∧ log_region_free st A ∧ unpinned blks A = ∅ ∧ (∀ x, after_tx A blks d x = cur x) ∧
    (∀ x, x ∈ blks ↔ x ∈ ks).
Proof using Type.
  clear Hidle Hfree DL.
  intros [blks A L Hc HL Ho Hcm Hnd Hks Hs]. exists blks, A, L.
  assert (Hdom : ∀ b, is_Some (A !! b) ↔ b ∈ blks).
  { intros b. rewrite Hks. specialize (Hs b). unfold slot_ok in Hs. rewrite lookup_empty in Hs.
    destruct (A !! b); [split; [intros _; apply Hs|done]|]. split; [by intros []|by intros ?; destruct Hs]. }
  assert (Hent : ∀ b e, A !! b = Some e → e_lock e = unlocked ∧ e_ref e = 1 ∧ e_data e = cur b).
  { intros b e He. specialize (Hs b). unfold slot_ok in Hs. rewrite He, lookup_empty in Hs. naive_solver. }
  split_and!; [done|done|done|done|done|by apply blks_size| | | | | |done].
  - rewrite <- size_dom, <- (size_list_to_set (C := gset Z) blks Hnd). f_equal.
    apply set_eq. intros b. by rewrite elem_of_dom, elem_of_list_to_set.
  - intros b [e He]%Hdom. exists e. destruct (Hent _ _ He) as (H1 & H2 & _). split_and!; [done|done|lia].
  - intros k Hk. apply eq_None_not_Some. rewrite Hdom. intros Hin. pose proof (ls_home _ _ _ _ HL) as Hh.
    rewrite Forall_forall in Hh. specialize (Hh _ Hin). unfold is_home in Hh. lia.
  - apply map_eq. intros b. rewrite lookup_empty. unfold unpinned. rewrite map_lookup_imap.
    destruct (A !! b) as [e|] eqn:He; [|done]. destruct (Hent _ _ He) as (_ & Hr1 & _). cbn.
    rewrite decide_True by (by apply Hdom). unfold released. by rewrite Hr1.
  - intros b. unfold after_tx, data_of. specialize (Hs b). unfold slot_ok in Hs. rewrite lookup_empty in Hs.
    destruct (decide (b ∈ blks)) as [Hin|Hni].
    + apply Hdom in Hin as [e He]. rewrite He in Hs |- *. cbn. apply Hs.
    + destruct (A !! b) eqn:He; [|symmetry; apply Hs]. exfalso. apply Hni, Hdom. by rewrite He.
Qed.
End Tx.
