(* ===== verification/Tx.v ===== *)
(** * File system transactions are atomic

    A client of the log writes blocks in a transaction; the transaction is
    atomic with respect to crashes.  A log that is as large as the cache makes
    [commit] panic. *)

From S2P Require Import Prelude CString Kernel KLogic Spinlock KMem Kalloc Vm VmSpec VmUser Proc ProcSpec Bio BioSpec CacheSpec Log LogSpec Crash TxView.
Open Scope Z_scope.
Open Scope os_scope.

(** A client that writes the blocks [ws] of device [dv] in one transaction. *)
Section Client.
Context `{KernelImage} `{Disk} (sleeps : nat) (dv : Z).
Definition tx_write (w : Z * list Z) : M unit :=
  i ← bread sleeps dv w.1;
  putb i (with_data w.2);;
  log_write i;;
  brelse i.
Fixpoint tx_writes (ws : list (Z * list Z)) : M unit :=
  match ws with [] => mret tt | w :: ws' => tx_write w;; tx_writes ws' end.
Definition transaction (ws : list (Z * list Z)) : M unit :=
  log_begin_op sleeps;; tx_writes ws;; log_end_op sleeps.
End Client.

(** The contents of the blocks after the writes. *)
Fixpoint tx_view (ws : list (Z * list Z)) (f : Z → list Z) : Z → list Z :=
  match ws with [] => f | (b, v) :: ws' => tx_view ws' (upd b v f) end.

(** A write to a block outside the log. *)
Definition tx_ok (st : Z) (w : Z * list Z) : Prop := is_home st w.1 ∧ 0 ≤ w.1 < 2 ^ 31.

Section Tx.
Context {IMG : KernelImage} {D : Disk} {DL : DiskLaw D} (sleeps : nat) (me : nat) (pid dv st : Z).
Variable s0 : KState.
Hypothesis Hidle : idle me pid s0.
Hypothesis Hfree : lock_free s0 Llog.
#[local] Abbreviation in_tx := (in_tx pid dv st s0).

Lemma wp_tx_write E L0 d ks cur b v s (Q : unit → KState → Prop) :
  in_tx L0 d ks cur ∅ s → tx_ok st (b, v) → (size ks < LOGBLOCKS)%nat → 1 ≤ l_outstanding L0 →
  (∀ s', in_tx L0 d ({[b]} ∪ ks) (upd b v cur) ∅ s' → Q tt s') → wp E (tx_write sleeps dv (b, v)) Q s.
Proof.
  intros Ht [Hh Hr] Hn H1 HQ. cbn [fst] in *. unfold tx_write. apply wp_bind.
  eapply (wp_tx_bread sleeps me pid dv st s0 Hidle Hfree); [exact Ht|done|rewrite map_size_empty; change NBUF with LOGBLOCKS; lia|]. intros i s1 Ht1.
  assert (Hi : (<[b := i]> ∅ : gmap Z nat) !! b = Some i) by apply lookup_insert_eq.
  apply wp_bind. eapply wp_tx_fill; [exact Ht1|exact Hi|]. intros s2 Ht2.
  apply wp_bind. eapply (wp_tx_log_write me pid dv st s0 Hidle Hfree); [exact Ht2|exact Hi|done|done|done|done|]. intros s3 Ht3.
  eapply (wp_tx_brelse me pid dv st s0 Hidle); [exact Ht3|exact Hi|left; set_solver|]. intros s4 Ht4. apply HQ.
  by rewrite delete_insert_id in Ht4.
Qed.

Lemma wp_tx_writes E L0 d ks ws cur s (Q : unit → KState → Prop) :
  in_tx L0 d ks cur ∅ s → Forall (tx_ok st) ws → (size ks + length ws ≤ LOGBLOCKS)%nat → 1 ≤ l_outstanding L0 →
  (∀ s', in_tx L0 d (ks ∪ list_to_set ws.*1) (tx_view ws cur) ∅ s' → Q tt s') → wp E (tx_writes sleeps dv ws) Q s.
Proof.
  intros Hs Hok Hn Ho HQ. revert ks cur s Hs Hn HQ.
  induction Hok as [|[b v] ws Hb Hok IH]; intros ks cur s Hs Hn HQ; cbn [tx_writes tx_view length fmap list_fmap fst list_to_set] in *.
  - apply wp_ret, HQ. by rewrite (union_empty_r_L ks).
  - apply wp_bind. eapply wp_tx_write; [exact Hs|done|lia|done|]. intros s' Hs'. eapply IH; [exact Hs'| |].
    + pose proof (size_union_alt {[b]} ks) as Hu. rewrite size_singleton in Hu. pose proof (subseteq_size (ks ∖ {[b]}) ks). set_solver by lia.
    + intros s2 Hs2. apply HQ. by rewrite (assoc_L (∪) ks), (comm_L (∪) ks).
Qed.
End Tx.

Lemma keys_size (ws : list (Z * list Z)) : (size (list_to_set ws.*1 : gset Z) ≤ length ws)%nat.
Proof.
  rewrite <- (length_fmap fst ws). induction ws.*1 as [|x l IH]; cbn; [by rewrite size_empty|].
  pose proof (size_union_alt {[x]} (list_to_set l : gset Z)) as Hu. rewrite size_singleton in Hu.
  pose proof (subseteq_size ((list_to_set l : gset Z) ∖ {[x]}) (list_to_set l)). set_solver by lia.
Qed.

Section Atomic.
Context {IMG : KernelImage} {D : Disk} {DL : DiskLaw D} (sleeps : nat) (me : nat) (pid dv : Z).

Lemma crash_atomic_ext sb d d' new new' :
  (∀ b, is_home (sb_logstart sb) b → new b = new' b) → crash_atomic sleeps me pid dv sb d d' new → crash_atomic sleeps me pid dv sb d d' new'.
Proof.
  intros He Ha h r H1 H2 Hr. destruct (Ha h r H1 H2 Hr) as (r' & Hi & Hz & Hor). exists r'. split_and!; [done|done|].
  destruct Hor as [H|H]; [by left|right]. intros b Hb. by rewrite H, He.
Qed.

(** [end_op] of a transaction that has logged [ks]. *)
Lemma wp_end_tx sb s L0 d ks cur s2 (Q : unit → KState → Prop) :
  idle me pid s → lock_free s Llog → l_outstanding L0 = 1 → l_committing L0 = 0 → is_header (block d (sb_logstart sb)) [] →
  (size ks < LOGBLOCKS)%nat → in_tx pid dv (sb_logstart sb) s L0 d ks cur ∅ s2 →
  (∀ s', after s (fs s') s' → fs_sb (fs s') = fs_sb (fs s) → fs_quiet me pid dv sb s' → (∀ b, is_home (sb_logstart sb) b → block (fs_disk (fs s')) b = cur b) →
     crash_atomic sleeps me pid dv sb d (fs_disk (fs s')) cur → Q tt s') →
  wp Atomic (log_end_op sleeps) Q s2.
Proof.
  intros Hid Hl Ho0 Hcm0 Hh Hn (blks & A & L2 & Hc2 & HL2 & Ho2 & Hcm2 & Hnd & Hlen & HsA & Hpin & Hreg & Hun & Hv & _)%in_tx_quiet HQ.
  set (st := sb_logstart sb) in *.
  eapply (wp_end_op sleeps me pid dv s Hid Hl); [exact Hc2|by rewrite Ho2|by rewrite Hcm2|]. intros s3 Hc3.
  pose proof (logst_with dv st L2 blks 0 1 HL2) as HL3. set (L3 := with_committing 1 _) in *.
  destruct (decide (blks = [])) as [->|Hne].
  - unfold commit. apply wp_bind. eapply wp_getlog; [exact Hc3|]. rewrite (ls_n _ _ _ _ HL3). cbn [length Z.of_nat Z.ltb when Z.compare].
    apply wp_ret. exists A, L3, d. split; [done|]. intros t Hct. apply map_size_empty_inv in HsA as ->.
    assert (Hbv : ∀ b, block d b = cur b) by (intros b; by rewrite <- Hv).
    apply HQ; rewrite ?(ca_disk _ _ _ _ _ _ Hct); [apply Hct|exact (ca_sb _ _ _ _ _ _ Hct)| |done|].
    + eapply quiet_after; [exact Hid|done|exact Hct|exact (logst_with dv st L3 [] 0 0 HL3)|done|done|done].
    + eapply crash_atomic_ext; [intros b _; exact (Hbv b)|]. apply nothing_atomic; [apply HL2|done].
  - eapply (wp_commit sleeps me pid dv st s Hid); [exact Hc3|exact HL3|done|done|done|done|change NBUF with LOGBLOCKS; lia|apply Hh|].
    intros Hn' H0 s4 HHn HH0 Hc4. eexists _, _, _. split; [exact Hc4|]. intros t Hct.
    rewrite Hun in Hct. apply HQ; rewrite ?(ca_disk _ _ _ _ _ _ Hct); [apply Hct|exact (ca_sb _ _ _ _ _ _ Hct)| | |].
    + eapply quiet_after; [exact Hid|done|exact Hct| |done|done|unfold installed; cbn [block]; by rewrite Z.eqb_refl].
      exact (logst_with dv st (with_n 0 L3) [] 0 0 (logst_empty _ _ _ _ HL3)).
    + intros b Hb. rewrite <- Hv. by eapply installed_home.
    + eapply crash_atomic_ext; [intros b _; exact (Hv b)|]. by eapply installed_atomic.
Qed.

(** C1: a transaction of at most [MAXOPBLOCKS] block writes, [begin_op], then
    for each block [bread], the change, [log_write] and [brelse], then
    [end_op], never panics.  When it returns, the disk has the last contents
    written to each block, every other block outside the log is unchanged,
    and log and cache are empty again.  A machine that stops after any of
    its disk writes and reboots recovers with all of the transaction's blocks
    or none of them, ready for the next transaction. *)
Theorem transaction_atomic (sb : SuperBlock) (ws : list (Z * list Z)) (s : KState)
  (Hq : fs_quiet me pid dv sb s) (Hok : Forall (tx_ok (sb_logstart sb)) ws) (Hlen : (length ws ≤ MAXOPBLOCKS)%nat) :
  ∃ s', transaction sleeps dv ws s = Ret tt s' ∧ fs_quiet me pid dv sb s' ∧
    (∀ b, is_home (sb_logstart sb) b → block (fs_disk (fs s')) b = tx_view ws (block (fs_disk (fs s))) b) ∧
    crash_atomic sleeps me pid dv sb (fs_disk (fs s)) (fs_disk (fs s')) (tx_view ws (block (fs_disk (fs s)))).
Proof.
  destruct Hq as [Hid Hl Hrep HL [Ho Hcm] Hh]. set (st := sb_logstart sb) in *. set (d := fs_disk (fs s)) in *. set (L := fs_log (fs s)) in *.
  assert (Hc : cache dv s ∅ L d s) by (split; [by apply after_same|done..]).
  apply wp_returns. unfold transaction. apply wp_bind.
  eapply (wp_begin_op sleeps me pid dv s Hid Hl); [exact Hc|split; [done|]|].
  { rewrite Ho, (ls_n _ _ _ _ HL). unfold LOGBLOCKS, MAXOPBLOCKS. cbn. lia. }
  intros s1 Hc1. rewrite Ho in Hc1. set (L1 := with_outstanding (0 + 1) L) in *. apply wp_bind.
  eapply (wp_tx_writes sleeps me pid dv st s Hid Hl Atomic L1 d ∅ ws (block d));
    [|done|rewrite size_empty; unfold LOGBLOCKS, MAXOPBLOCKS in *; lia|done|].
  { by apply in_tx_start; [|exact (logst_with dv st L [] 1 (l_committing L) HL)]. }
  intros s2 Hs2. eapply (wp_end_tx sb s L1 d); [done|done|done|done|done| |exact Hs2|by auto].
  rewrite union_empty_l_L. pose proof (keys_size ws). unfold LOGBLOCKS, MAXOPBLOCKS in *. lia.
Qed.
End Atomic.

(** ** A log that fills the cache *)

(** The rest of a path that has come to a state where it panics. *)
Lemma wp_then_halt {X Y} (m : M X) (f : X → M Y) e s : wp Atomic m (λ a s', f a s' = Halt e) s → (m ≫= f) s = Halt e.
Proof. intros (a & s' & Hrun & Hf)%wp_atomic. unfold mbind, M_bind. by rewrite Hrun. Qed.
Lemma bind_halt {X Y} (m : M X) (f : X → M Y) e s : m s = Halt e → (m ≫= f) s = Halt e.
Proof. intros Hm. unfold mbind, M_bind. by rewrite Hm. Qed.

Lemma rep_all_used dv f A i b : rep dv f A → size A = NBUF → fs_bufs f !! i = Some b → b_refcnt b ≠ 0.
Proof.
  intros HR Hsize Hb. set (l := e_buf ∘ snd <$> map_to_list A).
  assert (Hnd : NoDup l).
  { apply NoDup_fmap_2_strong; [|apply NoDup_map_to_list]. intros [k e] [k' e'] Hx%elem_of_map_to_list Hy%elem_of_map_to_list Heq.
    destruct (decide (k = k')) as [->|Hne]; [|exfalso; by apply (rep_buf_ne _ _ _ _ _ _ _ HR Hx Hy Hne)].
    rewrite Hx in Hy. by injection Hy as ->. }
  assert (Hsub : l ⊆+ seq 0 NBUF).
  { apply NoDup_submseteq; [done|]. intros j (x & -> & Hx)%list_elem_of_fmap. destruct x as [k e]. apply elem_of_map_to_list in Hx.
    destruct (rep_in _ _ _ HR _ _ Hx) as [Hbuf _]. apply lookup_lt_Some in Hbuf. rewrite (rep_len _ _ _ HR) in Hbuf. apply elem_of_seq. split; [lia|exact Hbuf]. }
  apply submseteq_length_Permutation in Hsub; [|unfold l; by rewrite length_seq, length_fmap, length_map_to_list, Hsize].
  assert (Hi : i ∈ l).
  { rewrite Hsub, elem_of_seq. apply lookup_lt_Some in Hb. rewrite (rep_len _ _ _ HR) in Hb. lia. }
  apply list_elem_of_fmap in Hi as ([k e] & -> & Hx%elem_of_map_to_list). destruct (rep_in _ _ _ HR _ _ Hx) as [Hbuf Hr].
  cbn in Hb. rewrite Hbuf in Hb. injection Hb as <-. cbn. lia.
Qed.

Section Full.
Context {IMG : KernelImage} {D : Disk} {DL : DiskLaw D} (sleeps : nat) (me : nat) (pid dv : Z).

(** Every buffer is in use: a block that none of them holds cannot be read. *)
Lemma bread_full s0 A L d bn s :
  idle me pid s0 → cache dv s0 A L d s → A !! bn = None → size A = NBUF →
  bread sleeps dv bn s = Halt (Panic "bget: no buffers").
Proof.
  intros Hid0 Hc Hno Hsize. pose proof (ca_rep _ _ _ _ _ _ Hc) as HR. pose proof (cache_idle _ _ _ _ Hid0 _ _ _ _ Hc) as Hid.
  assert (Hscan : ∀ test l, (∀ i b, fs_bufs (fs s) !! i = Some b → test b = false) → first_buf (fs_bufs (fs s)) test l = None).
  { intros test l Ht. induction l as [|i l IH]; cbn; [done|]. destruct (fs_bufs (fs s) !! i) eqn:Hi; [by rewrite (Ht _ _ Hi)|done]. }
  apply bind_halt. unfold bget. apply wp_then_halt, wp_acquire; [apply (id_bcache _ _ _ Hid)|]. apply wp_then_halt, wp_gets.
  apply wp_then_halt, wp_scan_bufs; [intros j; apply (rep_lru_lt _ _ _ _ HR)|]. change (fs (acq Lbcache s)) with (fs s). rewrite Hscan.
  - apply wp_then_halt, wp_scan_bufs; [intros j Hj; apply (rep_lru_lt _ _ _ _ HR); by apply elem_of_reverse|].
    change (fs (acq Lbcache s)) with (fs s). rewrite Hscan; [done|]. intros i b Hb. apply Z.eqb_neq. by eapply rep_all_used.
  - intros i b Hb. apply andb_false_iff. destruct (Z.eqb_spec (b_dev b) dv) as [Hd|]; [right|by left]. apply Z.eqb_neq. intros Hbn.
    destruct (rep_out _ _ _ HR i b Hb) as (e & He & _); [by eapply rep_all_used|]. by rewrite Hbn, Hno in He.
Qed.

(** Three operations at a time, which together write the blocks [ws]. *)
Definition three_ops (ws : list (Z * list Z)) : M unit :=
  log_begin_op sleeps;; log_begin_op sleeps;; log_begin_op sleeps;;
  tx_writes sleeps dv ws;;
  log_end_op sleeps;; log_end_op sleeps;; log_end_op sleeps.

(** [commit] of a log that has as many blocks as the cache has buffers. *)
Lemma commit_full st s0 A L d blks s :
  idle me pid s0 → cache dv s0 A L d s → logst dv st L blks → log_region_free st A → size A = NBUF → length blks = LOGBLOCKS →
  commit sleeps s = Halt (Panic "bget: no buffers").
Proof.
  intros Hid Hc HL Hreg HsA Hlen. unfold commit. apply wp_then_halt. eapply wp_getlog; [exact Hc|].
  rewrite (ls_n _ _ _ _ HL), Hlen. unfold when. change (0 <? Z.of_nat LOGBLOCKS) with true. cbn iota. apply bind_halt.
  unfold write_log. apply wp_then_halt. eapply wp_getlog; [exact Hc|]. rewrite (ls_n _ _ _ _ HL), Hlen, Nat2Z.id.
  destruct LOGBLOCKS as [|n] eqn:Hn; [done|]. cbn [count_loop]. apply bind_halt. unfold write_log_one.
  apply wp_then_halt. eapply wp_getlog; [exact Hc|]. apply bind_halt.
  rewrite (proj1 (logst_nums _ _ _ _ HL)), (logst_copy _ _ _ _ 0 HL) by (rewrite Hn; lia).
  eapply bread_full; [exact Hid|exact Hc|apply (region_copy st A 0); [done|rewrite Hn; lia]|done].
Qed.

Lemma end_op_halts s0 A L d s e :
  idle me pid s0 → lock_free s0 Llog → cache dv s0 A L d s → l_outstanding L = 1 → l_committing L = 0 →
  (∀ s', cache dv s0 A (with_committing 1 (with_outstanding 0 L)) d s' → commit sleeps s' = Halt e) →
  log_end_op sleeps s = Halt e.
Proof.
  intros Hid0 Hl0 Hc Ho Hcm HQ. destruct (log_lock me pid dv s0 Hid0 Hl0 _ _ _ _ Hc) as (Hl & Hs & Hid).
  pose proof (cache_enter _ _ _ _ _ _ Llog Hc) as Hc1.
  unfold log_end_op. apply wp_then_halt, wp_acquire; [done|]. apply wp_then_halt. eapply wp_getlog; [exact Hc1|].
  apply wp_then_halt. eapply wp_putlog; [exact Hc1|]. intros s1 Hc2. rewrite Hcm, Ho. cbn [Z.eqb negb Z.sub Z.add Z.opp Z.pos_sub].
  apply wp_then_halt. eapply wp_putlog; [exact Hc2|]. intros s2 Hc3. apply wp_then_halt.
  eapply (wp_leave_cache Atomic dv s0 A L d s Llog); [done|done|done|exact Hc3|]. rewrite Ho. intros s3 Hc4. cbn [when].
  apply bind_halt. exact (HQ s3 Hc4).
Qed.

(** C25: the log has as many blocks as the cache has buffers.  Three operations
    that [begin_op] admits together and that write [LOGBLOCKS] distinct blocks,
    ten each, leave every buffer pinned: the last [end_op] panics in [bget]
    when [commit] reads the first block of the log. *)
Theorem full_log_panics (sb : SuperBlock) (ws : list (Z * list Z)) (s : KState)
  (Hq : fs_quiet me pid dv sb s) (Hok : Forall (tx_ok (sb_logstart sb)) ws) (Hlen : length ws = (3 * MAXOPBLOCKS)%nat)
  (Hnd : NoDup ws.*1) :
  three_ops ws s = Halt (Panic "bget: no buffers").
Proof.
  destruct Hq as [Hid Hl Hrep HL [Ho Hcm] Hh]. set (st := sb_logstart sb) in *. set (d := fs_disk (fs s)) in *. set (L := fs_log (fs s)) in *.
  assert (Hc : cache dv s ∅ L d s) by (split; [by apply after_same|done..]).
  assert (Hroom : ∀ o, 0 ≤ o ≤ 2 → has_room (with_outstanding o L)).
  { intros o Hr. split; [done|]. cbn [lh_n with_outstanding l_outstanding]. rewrite (ls_n _ _ _ _ HL). unfold LOGBLOCKS, MAXOPBLOCKS. cbn. lia. }
  assert (HL0 : L = with_outstanding 0 L) by (rewrite <- Ho; by destruct L).
  unfold three_ops. rewrite HL0 in Hc.
  apply wp_then_halt. eapply (wp_begin_op sleeps me pid dv s Hid Hl); [exact Hc|by apply Hroom|]. intros s1 Hc1.
  apply wp_then_halt. eapply (wp_begin_op sleeps me pid dv s Hid Hl); [exact Hc1|by apply (Hroom 1)|]. intros s2 Hc2.
  apply wp_then_halt. eapply (wp_begin_op sleeps me pid dv s Hid Hl); [exact Hc2|by apply (Hroom 2)|]. intros s3 Hc3.
  apply wp_then_halt. set (L3 := with_outstanding _ _) in Hc3.
  eapply (wp_tx_writes sleeps me pid dv st s Hid Hl Atomic L3 d ∅ ws (block d)); [|done|rewrite size_empty; by rewrite Hlen|done|].
  { by apply in_tx_start; [|exact (logst_with dv st L [] 3 (l_committing L) HL)]. }
  intros s4 (blks & A & L4 & Hc4 & HL4 & Ho4 & Hcm4 & Hnd4 & Hl4 & HsA & _ & Hreg & _)%in_tx_quiet.
  rewrite union_empty_l_L, (size_list_to_set (C := gset Z) ws.*1 Hnd), length_fmap, Hlen in Hl4.
  apply wp_then_halt. eapply (wp_end_op_more sleeps me pid dv s Hid Hl); [exact Hc4|by rewrite Ho4|by rewrite Hcm4|]. intros s5 Hc5.
  apply wp_then_halt. eapply (wp_end_op_more sleeps me pid dv s Hid Hl); [exact Hc5|cbn; by rewrite Ho4|by cbn; rewrite Hcm4|]. intros s6 Hc6.
  eapply (end_op_halts s); [done|done|exact Hc6|cbn; by rewrite Ho4|by cbn; rewrite Hcm4|]. intros s7 Hc7.
  eapply (commit_full st s); [done|exact Hc7|exact (logst_with dv st L4 blks 0 1 HL4)|done|by rewrite HsA, Hl4|by rewrite Hl4].
Qed.
End Full.

(** ** A concrete machine *)

(** A blank disk with the log at block 2; [initlog] has run on it. *)
Definition sb_sample : SuperBlock := mkSb 0x10203040 2000 1954 200 31 2 33 46.
Definition log_boot : KState :=
  match @initlog sample_image polled_disk 0 1 sb_sample cache_boot with Ret _ s => s | _ => bss end.

Lemma cache_boot_rebooted : rebooted 1 4 1 [] cache_boot.
Proof.
  destruct cache_boot_idle as [[H1 H2 H3 H4 H5] H6]. split; [done|done|done|done|done|done|vm_compute; reflexivity|].
  split_and!; vm_compute; reflexivity.
Qed.
Lemma log_boot_quiet : fs_quiet 1 4 1 sb_sample log_boot.
Proof.
  destruct (@run_initlog sample_image polled_disk polled_disk_law 0 1 4 1 sb_sample [] [] cache_boot) as (r & H0 & Hr & Hq & _).
  - exact cache_boot_rebooted.
  - split_and!; [vm_compute; reflexivity..|by intros i b ?].
  - exact header_ok_nil.
  - by constructor.
  - unfold in_range, sb_sample, LOGBLOCKS, MAXOPBLOCKS. cbn. lia.
  - unfold log_boot. by rewrite Hr.
Qed.

(** Three writes to two blocks, and a reboot on the disk from before them. *)
Definition tx_sample : list (Z * list Z) := [(50, block_of 1); (51, block_of 2); (50, block_of 3)].
Lemma transaction_atomic_witness :
  ∃ s', @transaction sample_image polled_disk 0 1 tx_sample log_boot = Ret tt s' ∧
    block (fs_disk (fs s')) 50 = block_of 3 ∧ block (fs_disk (fs s')) 51 = block_of 2.
Proof.
  destruct (@transaction_atomic sample_image polled_disk polled_disk_law 0 1 4 1 sb_sample tx_sample log_boot)
    as (s' & Hrun & _ & Hb & _).
  - exact log_boot_quiet.
  - repeat constructor; cbn; lia.
  - apply Nat.leb_le. reflexivity.
  - exists s'. split; [exact Hrun|]. split; (rewrite Hb; [reflexivity|unfold is_home, LOGBLOCKS, MAXOPBLOCKS; cbn; lia]).
Defined.

(** Blocks 50 to 79, each written once. *)
Definition full_sample : list (Z * list Z) := (λ k : nat, (50 + Z.of_nat k, block_of 9)) <$> seq 0 30.
Lemma full_log_panics_witness :
  @three_ops sample_image polled_disk 0 1 full_sample log_boot = Halt (Panic "bget: no buffers").
Proof.
  apply (@full_log_panics sample_image polled_disk polled_disk_law 0 1 4 1 sb_sample full_sample log_boot).
  - exact log_boot_quiet.
  - apply Forall_forall. intros w (k & -> & Hk)%list_elem_of_fmap. apply elem_of_seq in Hk.
    unfold tx_ok, is_home, LOGBLOCKS, MAXOPBLOCKS, sb_sample. cbn [fst sb_logstart]. lia.
  - reflexivity.
  - apply (bool_decide_unpack _). vm_compute. exact I.
Defined.
