(* ===== verification/Fs.v ===== *)
(** * fs.c: blocks, inodes, directories and path names

    Inodes are indices into the inode table, [None] the null pointer.  A C
    string is its bytes without the terminator; the name of a directory entry
    is an array of [DIRSIZ] bytes.  Bytes that fs.c copies to or from a local
    variable of the caller are lists; other destinations are addresses.  The
    messages printed on the console are not kept. *)

From S2P Require Import Prelude CString Kernel KLogic Spinlock KMem Kalloc Vm Proc Pipe Fork Bio Log.
Open Scope Z_scope.
Open Scope os_scope.

(** ** Constants of fs.h, stat.h and param.h *)

Definition ROOTINO : Z := 1.
Definition FSMAGIC : Z := 0x10203040.
Definition NDIRECT : nat := 12.
Definition NINDIRECT : nat := 256.
Definition MAXFILE : nat := NDIRECT + NINDIRECT.
Definition IPB : Z := 16.
Definition IBLOCK (i : Z) (sb : SuperBlock) : Z := u32 (i / IPB + sb_inodestart sb).
Definition BPB : Z := 8192.
Definition BBLOCK (b : Z) (sb : SuperBlock) : Z := u32 (b / BPB + sb_bmapstart sb).
Definition DIRSIZ : nat := 14.
Definition T_DIR : Z := 1.
Definition T_FILE : Z := 2.
Definition T_DEVICE : Z := 3.
(** Size of [struct dirent]. *)
Definition DESIZ : nat := 16.

Definition s16 (x : Z) : Z := if x mod 2 ^ 16 <? 2 ^ 15 then x mod 2 ^ 16 else x mod 2 ^ 16 - 2 ^ 16.

(** ** Bytes of a block *)

Definition put_at (d : list Z) (off : nat) (v : list Z) : list Z := take off d ++ v ++ drop (off + length v) d.
Definition get16 (d : list Z) (off : nat) : Z := le_val (take 2 (drop off d)).

(** ** [struct dinode] *)

Record Dinode := mkDinode {
  di_type : Z; di_major : Z; di_minor : Z; di_nlink : Z; di_size : Z; di_addrs : list Z }.

(** The offset of inode [inum] in its block, an array of [struct dinode]. *)
Definition dinode_at (inum : Z) : nat := 64 * Z.to_nat (inum mod IPB).
Definition get_dinode (d : list Z) (off : nat) : Dinode :=
  mkDinode (s16 (get16 d off)) (s16 (get16 d (off + 2))) (s16 (get16 d (off + 4))) (s16 (get16 d (off + 6)))
    (get32 d (off + 8)) ((λ k : nat, get32 d (off + 12 + 4 * k)) <$> seq 0 (S NDIRECT)).
Definition dinode_bytes (di : Dinode) : list Z :=
  le_bytes 2 (di_type di) ++ le_bytes 2 (di_major di) ++ le_bytes 2 (di_minor di) ++ le_bytes 2 (di_nlink di) ++
  le_bytes 4 (di_size di) ++ mjoin (le_bytes 4 <$> di_addrs di).

(** Updates of [struct inode]. *)
Definition dinode_of (ip : Inode) : Dinode :=
  mkDinode (i_type ip) (i_major ip) (i_minor ip) (i_nlink ip) (i_size ip) (i_addrs ip).
Definition with_dinode (di : Dinode) (ip : Inode) : Inode :=
  mkInode (i_dev ip) (i_inum ip) (i_ref ip) (i_lock ip) (i_valid ip) (di_type di) (di_major di) (di_minor di)
    (di_nlink di) (di_size di) (di_addrs di).
Definition with_ivalid (v : bool) (ip : Inode) : Inode :=
  mkInode (i_dev ip) (i_inum ip) (i_ref ip) (i_lock ip) v (i_type ip) (i_major ip) (i_minor ip)
    (i_nlink ip) (i_size ip) (i_addrs ip).
Definition with_itype (v : Z) (ip : Inode) : Inode :=
  mkInode (i_dev ip) (i_inum ip) (i_ref ip) (i_lock ip) (i_valid ip) v (i_major ip) (i_minor ip)
    (i_nlink ip) (i_size ip) (i_addrs ip).
Definition with_nlink (v : Z) (ip : Inode) : Inode :=
  mkInode (i_dev ip) (i_inum ip) (i_ref ip) (i_lock ip) (i_valid ip) (i_type ip) (i_major ip) (i_minor ip)
    v (i_size ip) (i_addrs ip).
Definition with_isize (v : Z) (ip : Inode) : Inode :=
  mkInode (i_dev ip) (i_inum ip) (i_ref ip) (i_lock ip) (i_valid ip) (i_type ip) (i_major ip) (i_minor ip)
    (i_nlink ip) v (i_addrs ip).
Definition with_addrs (v : list Z) (ip : Inode) : Inode :=
  mkInode (i_dev ip) (i_inum ip) (i_ref ip) (i_lock ip) (i_valid ip) (i_type ip) (i_major ip) (i_minor ip)
    (i_nlink ip) (i_size ip) v.
Definition reuse_inode (dev inum : Z) (ip : Inode) : Inode :=
  mkInode dev inum 1 (i_lock ip) false (i_type ip) (i_major ip) (i_minor ip) (i_nlink ip) (i_size ip) (i_addrs ip).

(** The sleep lock of inode [k]. *)
Definition ilock_no (k : nat) : nat := NBUF + k.

(** Where [readi] puts and [writei] takes the bytes: user memory, kernel
    memory, or a local variable. *)
Inductive Place := User (a : Z) | Kern (a : Z) | Local.
Definition advance (p : Place) (m : Z) : Place :=
  match p with User a => User (u64 (a + m)) | Kern a => Kern (u64 (a + m)) | Local => Local end.

(** ** Path names *)

Definition SLASH : Z := 47.

Fixpoint skip_slashes (path : list Z) : list Z :=
  match path with c :: p => if c =? SLASH then skip_slashes p else path | [] => [] end.
Fixpoint elem_len (path : list Z) : nat :=
  match path with c :: p => if c =? SLASH then O else S (elem_len p) | [] => O end.

(** The rest of the path and the new contents of [name]; [None] is the null
    pointer. *)
Definition skipelem (path name : list Z) : option (list Z * list Z) :=
  match skip_slashes path with
  | [] => None
  | s =>
      let len := elem_len s in
      let name := if (DIRSIZ <=? len)%nat then put_at name 0 (take DIRSIZ s)
                  else put_at (put_at name 0 (take len s)) len [0] in
      Some (skip_slashes (drop len s), name)
  end.

(** [strncmp(s, t, n)]; a byte behind the end of a string is its NUL. *)
Fixpoint str_ncmp (s t : list Z) (n : nat) : Z :=
  match n with
  | O => 0
  | S n' =>
      let p := default 0 (head s) in
      let q := default 0 (head t) in
      if negb (p =? 0) && (p =? q) then str_ncmp (tail s) (tail t) n' else p - q
  end.
Definition namecmp (s t : list Z) : Z := str_ncmp s t DIRSIZ.

(** [strncpy] into an array of [n] bytes. *)
Fixpoint str_ncpy (t : list Z) (n : nat) : list Z :=
  match n with
  | O => []
  | S n' =>
      match t with
      | c :: t' => if c =? 0 then replicate n 0 else c :: str_ncpy t' n'
      | [] => replicate n 0
      end
  end.

(** [struct dirent]. *)
Definition de_inum (de : list Z) : Z := get16 de 0.
Definition de_name (de : list Z) : list Z := take DIRSIZ (drop 2 de).
Definition dirent (inum : Z) (name : list Z) : list Z := le_bytes 2 inum ++ name.

(** ** Bitmap *)

(** The first bit that is 0 among the bits from [bi] of a bitmap block, for
    the blocks [b + bi] below [size]; the outer [None] is an index outside
    the block. *)
Fixpoint find_free (d : list Z) (b size : Z) (bi n : nat) : option (option nat) :=
  match n with
  | O => Some None
  | S n' =>
      if b + Z.of_nat bi <? size then
        v ← d !! (bi / 8)%nat;
        if Z.land v (Z.shiftl 1 (Z.of_nat (bi mod 8))) =? 0 then Some (Some bi) else find_free d b size (S bi) n'
      else Some None
  end.
Definition set_bit (d : list Z) (bi : nat) (on : bool) : option (list Z) :=
  v ← d !! (bi / 8)%nat;
  let m := Z.shiftl 1 (Z.of_nat (bi mod 8)) in
  Some (<[(bi / 8)%nat := if on then Z.lor v m else Z.land v (Z.lnot m)]> d).

Section Fs.
Context `{KernelImage} `{Disk}.
Context (sleeps : nat).

Definition getsb : M SuperBlock := gets (λ s, fs_sb (fs s)).

Definition readsb (dev : Z) : M SuperBlock :=
  bp ← bread sleeps (u32 dev) 1;
  b ← getb bp;
  let d := b_data b in
  brelse bp;;
  mret (mkSb (get32 d 0) (get32 d 4) (get32 d 8) (get32 d 12) (get32 d 16) (get32 d 20) (get32 d 24) (get32 d 28)).

(** ** Blocks *)

Definition bzero (dev bno : Z) : M unit :=
  bp ← bread sleeps (u32 dev) (u32 bno);
  putb bp (with_data (replicate BSIZE 0));;
  log_write bp;;
  brelse bp.

Fixpoint balloc_loop (fuel : nat) (dev b : Z) : M Z :=
  sb ← getsb;
  if b <? sb_size sb then
    match fuel with
    | O => halt NoFuel
    | S fuel' =>
        bp ← bread sleeps dev (BBLOCK b sb);
        x ← getb bp;
        hit ← need (find_free (b_data x) b (sb_size sb) 0 (Z.to_nat BPB));
        match hit with
        | Some bi =>
            d ← need (set_bit (b_data x) bi true);
            putb bp (with_data d);;
            log_write bp;;
            brelse bp;;
            bzero dev (b + Z.of_nat bi);;
            mret (b + Z.of_nat bi)
        | None =>
            brelse bp;;
            b' ← iadd b BPB;
            balloc_loop fuel' dev b'
        end
    end
  else mret 0.
Definition balloc (dev : Z) : M Z :=
  sb ← getsb;
  balloc_loop (S (Z.to_nat (sb_size sb / BPB))) dev 0.

Definition bfree (dev b : Z) : M unit :=
  sb ← getsb;
  bp ← bread sleeps (u32 dev) (BBLOCK b sb);
  x ← getb bp;
  let bi := Z.to_nat (b mod BPB) in
  v ← need (b_data x !! (bi / 8)%nat);
  if Z.land v (Z.shiftl 1 (Z.of_nat (bi mod 8))) =? 0 then panic "freeing free block" else
  d ← need (set_bit (b_data x) bi false);
  putb bp (with_data d);;
  log_write bp;;
  brelse bp.

(** ** Inodes *)

Definition iinit : M unit :=
  initlock Litable "itable";;
  count_loop (λ i, initsleeplock (ilock_no i)) 0 NINODE.

(** The search of [iget]: [inl k] an entry with the inode, [inr e] the first
    empty entry. *)
Fixpoint iget_scan (l : list nat) (dev inum : Z) (empty : option nat) : M (nat + option nat) :=
  match l with
  | [] => mret (inr empty)
  | k :: l' =>
      ip ← geti k;
      if (0 <? i_ref ip) && (i_dev ip =? dev) && (i_inum ip =? inum) then mret (inl k)
      else iget_scan l' dev inum (match empty with None => if i_ref ip =? 0 then Some k else None | Some _ => empty end)
  end.
Definition iget (dev inum : Z) : M nat :=
  acquire Litable;;
  r ← iget_scan (seq 0 NINODE) dev inum None;
  match r with
  | inl k =>
      ip ← geti k;
      n ← iadd (i_ref ip) 1;
      puti k (with_iref n);;
      release Litable;;
      mret k
  | inr None => panic "iget: no inodes"
  | inr (Some k) =>
      puti k (reuse_inode dev inum);;
      release Litable;;
      mret k
  end.

Fixpoint ialloc_loop (n : nat) (dev type inum : Z) : M (option nat) :=
  match n with
  | O => mret None
  | S n' =>
      sb ← getsb;
      bp ← bread sleeps dev (IBLOCK inum sb);
      x ← getb bp;
      let off := dinode_at inum in
      if s16 (get16 (b_data x) off) =? 0 then
        putb bp (with_data (put_at (put_at (b_data x) off (replicate 64 0)) off (le_bytes 2 type)));;
        log_write bp;;
        brelse bp;;
        k ← iget dev inum;
        mret (Some k)
      else
        brelse bp;;
        ialloc_loop n' dev type (inum + 1)
  end.
Definition ialloc (dev type : Z) : M (option nat) :=
  sb ← getsb;
  ialloc_loop (Z.to_nat (sb_ninodes sb - 1)) dev type 1.

Definition iupdate (k : nat) : M unit :=
  ip ← geti k;
  sb ← getsb;
  bp ← bread sleeps (i_dev ip) (IBLOCK (i_inum ip) sb);
  x ← getb bp;
  putb bp (with_data (put_at (b_data x) (dinode_at (i_inum ip)) (dinode_bytes (dinode_of ip))));;
  log_write bp;;
  brelse bp.

Definition ilock (k : nat) : M unit :=
  ip ← geti k;
  if i_ref ip <? 1 then panic "ilock" else
  acquiresleep sleeps (ilock_no k);;
  ip ← geti k;
  when (negb (i_valid ip))
    (sb ← getsb;
     bp ← bread sleeps (i_dev ip) (IBLOCK (i_inum ip) sb);
     x ← getb bp;
     puti k (with_dinode (get_dinode (b_data x) (dinode_at (i_inum ip))));;
     brelse bp;;
     puti k (with_ivalid true);;
     ip ← geti k;
     if i_type ip =? 0 then panic "ilock: no type" else mret tt).

Definition iunlock (k : nat) : M unit :=
  h ← holdingsleep (ilock_no k);
  ip ← geti k;
  if negb h || (i_ref ip <? 1) then panic "iunlock" else
  releasesleep (ilock_no k).

(** ** Inode contents *)

(** [ip->addrs[i]], and its assignment. *)
Definition get_addr (k : nat) (i : nat) : M Z := ip ← geti k; need (i_addrs ip !! i).
Definition set_addr (k : nat) (i : nat) (v : Z) : M unit :=
  ip ← geti k; a ← need (aset (i_addrs ip) i v); puti k (with_addrs a).

(** The address in slot [i] of the inode; a block is allocated for an empty
    slot. *)
Definition addr_or_alloc (k : nat) (i : nat) : M Z :=
  a ← get_addr k i;
  if a =? 0 then
    ip ← geti k;
    a' ← balloc (i_dev ip);
    if a' =? 0 then mret 0 else set_addr k i a';; mret a'
  else mret a.

Definition bmap (k : nat) (bn : nat) : M Z :=
  if (bn <? NDIRECT)%nat then addr_or_alloc k bn
  else if (bn - NDIRECT <? NINDIRECT)%nat then
    let bn := (bn - NDIRECT)%nat in
    addr ← addr_or_alloc k NDIRECT;
    if addr =? 0 then mret 0 else
    ip ← geti k;
    bp ← bread sleeps (i_dev ip) addr;
    x ← getb bp;
    let a := get32 (b_data x) (4 * bn) in
    r ← (if a =? 0 then
           a' ← balloc (i_dev ip);
           when (negb (a' =? 0)) (putb bp (λ b, with_data (put32 (b_data b) (4 * bn) a') b);; log_write bp);;
           mret a'
         else mret a);
    brelse bp;;
    mret r
  else panic "bmap: out of range".

Definition trunc_direct (k : nat) (i : nat) : M unit :=
  a ← get_addr k i;
  when (negb (a =? 0)) (ip ← geti k; bfree (i_dev ip) a;; set_addr k i 0).
Definition itrunc (k : nat) : M unit :=
  count_loop (trunc_direct k) 0 NDIRECT;;
  a ← get_addr k NDIRECT;
  when (negb (a =? 0))
    (ip ← geti k;
     bp ← bread sleeps (i_dev ip) a;
     count_loop (λ j, x ← getb bp;
                      let aj := get32 (b_data x) (4 * j) in
                      when (negb (aj =? 0)) (bfree (i_dev ip) aj)) 0 NINDIRECT;;
     brelse bp;;
     bfree (i_dev ip) a;;
     set_addr k NDIRECT 0);;
  puti k (with_isize 0);;
  iupdate k.

Definition iput_ (k : nat) : M unit :=
  acquire Litable;;
  ip ← geti k;
  when ((i_ref ip =? 1) && i_valid ip && (i_nlink ip =? 0))
    (acquiresleep sleeps (ilock_no k);;
     release Litable;;
     itrunc k;;
     puti k (with_itype 0);;
     iupdate k;;
     puti k (with_ivalid false);;
     releasesleep (ilock_no k);;
     acquire Litable);;
  ip ← geti k;
  puti k (with_iref (i_ref ip - 1));;
  release Litable.

Definition iunlockput (k : nat) : M unit := iunlock k;; iput_ k.

Fixpoint ireclaim_loop (n : nat) (dev inum : Z) : M unit :=
  match n with
  | O => mret tt
  | S n' =>
      sb ← getsb;
      bp ← bread sleeps (u32 dev) (IBLOCK inum sb);
      x ← getb bp;
      let di := get_dinode (b_data x) (dinode_at inum) in
      o ← (if negb (di_type di =? 0) && (di_nlink di =? 0) then k ← iget (u32 dev) inum; mret (Some k) else mret None);
      brelse bp;;
      match o with
      | Some k => log_begin_op sleeps;; ilock k;; iunlock k;; iput_ k;; log_end_op sleeps
      | None => mret tt
      end;;
      ireclaim_loop n' dev (inum + 1)
  end.
Definition ireclaim (dev : Z) : M unit :=
  sb ← getsb;
  ireclaim_loop (Z.to_nat (sb_ninodes sb - 1)) dev 1.

Definition fsinit_ (dev : Z) : M unit :=
  sb ← readsb dev;
  modify (set_sb sb);;
  if negb (sb_magic sb =? FSMAGIC) then panic "invalid file system" else
  initlog sleeps dev sb;;
  ireclaim dev.

(** [st] of [stati]: the bytes of [struct stat], with the padding before the
    size. *)
Definition stati (k : nat) (pad : list Z) : M (list Z) :=
  ip ← geti k;
  mret (le_bytes 4 (i_dev ip) ++ le_bytes 4 (i_inum ip) ++ le_bytes 2 (i_type ip) ++ le_bytes 2 (i_nlink ip) ++
        pad ++ le_bytes 8 (i_size ip)).

(** ** Reading and writing *)

(** One transfer of [readi]: false when the user address is bad. *)
Definition put_out (dst : Place) (bs : list Z) : M bool :=
  match dst with
  | User a => r ← either_copyout true a bs; mret (negb (r =? -1))
  | Kern a => r ← either_copyout false a bs; mret (negb (r =? -1))
  | Local => mret true
  end.
(** The bytes for [writei], and whether all of them could be read. *)
Definition take_in (src : Place) (local : list Z) (m : nat) : M (bool * list Z) :=
  match src with
  | User a => r ← either_copyin true a m; mret (negb (r.1 =? -1), r.2)
  | Kern a => r ← either_copyin false a m; mret (negb (r.1 =? -1), r.2)
  | Local => mret (true, take m local)
  end.

(** The return value and the bytes read. *)
Fixpoint readi_loop (fuel : nat) (k : nat) (dst : Place) (off n tot : Z) : M (Z * list Z) :=
  if tot <? n then
    match fuel with
    | O => halt NoFuel
    | S fuel' =>
        addr ← bmap k (Z.to_nat (off / Z.of_nat BSIZE));
        if addr =? 0 then mret (tot, []) else
        ip ← geti k;
        bp ← bread sleeps (i_dev ip) addr;
        let m := Z.min (n - tot) (Z.of_nat BSIZE - off mod Z.of_nat BSIZE) in
        x ← getb bp;
        let bs := take (Z.to_nat m) (drop (Z.to_nat (off mod Z.of_nat BSIZE)) (b_data x)) in
        ok ← put_out dst bs;
        if negb ok then brelse bp;; mret (-1, []) else
        brelse bp;;
        r ← readi_loop fuel' k (advance dst m) (u32 (off + m)) n (tot + m);
        mret (r.1, bs ++ r.2)
    end
  else mret (tot, []).
Definition readi (k : nat) (dst : Place) (off n : Z) : M (Z * list Z) :=
  ip ← geti k;
  if (i_size ip <? off) || (u32 (off + n) <? off) then mret (0, []) else
  let n := if i_size ip <? u32 (off + n) then i_size ip - off else n in
  r ← readi_loop (S (S (Z.to_nat (n / Z.of_nat BSIZE)))) k dst off n 0;
  mret (s32 r.1, r.2).

(** The number of bytes written and the offset behind them. *)
Fixpoint writei_loop (fuel : nat) (k : nat) (src : Place) (local : list Z) (off n tot : Z) : M (Z * Z) :=
  if tot <? n then
    match fuel with
    | O => halt NoFuel
    | S fuel' =>
        addr ← bmap k (Z.to_nat (off / Z.of_nat BSIZE));
        if addr =? 0 then mret (tot, off) else
        ip ← geti k;
        bp ← bread sleeps (i_dev ip) addr;
        let m := Z.min (n - tot) (Z.of_nat BSIZE - off mod Z.of_nat BSIZE) in
        r ← take_in src local (Z.to_nat m);
        putb bp (λ b, with_data (put_at (b_data b) (Z.to_nat (off mod Z.of_nat BSIZE)) r.2) b);;
        if negb r.1 then brelse bp;; mret (tot, off) else
        log_write bp;;
        brelse bp;;
        writei_loop fuel' k (advance src m) (drop (Z.to_nat m) local) (u32 (off + m)) n (tot + m)
    end
  else mret (tot, off).
Definition writei (k : nat) (src : Place) (local : list Z) (off n : Z) : M Z :=
  ip ← geti k;
  if (i_size ip <? off) || (u32 (off + n) <? off) then mret (-1) else
  if Z.of_nat (MAXFILE * BSIZE) <? u32 (off + n) then mret (-1) else
  r ← writei_loop (S (S (Z.to_nat (n / Z.of_nat BSIZE)))) k src local off n 0;
  ip ← geti k;
  when (i_size ip <? r.2) (puti k (with_isize r.2));;
  iupdate k;;
  mret (s32 r.1).

(** ** Directories *)

(** The entry at [off], which must be there. *)
Definition read_dirent (k : nat) (off : Z) (msg : string) : M (list Z) :=
  r ← readi k Local off (Z.of_nat DESIZ);
  if r.1 =? Z.of_nat DESIZ then mret r.2 else panic msg.

Fixpoint dirlookup_loop (fuel : nat) (k : nat) (name : list Z) (off : Z) : M (option (nat * Z)) :=
  dp ← geti k;
  if off <? i_size dp then
    match fuel with
    | O => halt NoFuel
    | S fuel' =>
        de ← read_dirent k off "dirlookup read";
        if de_inum de =? 0 then dirlookup_loop fuel' k name (u32 (off + Z.of_nat DESIZ)) else
        if namecmp name (de_name de) =? 0 then
          dp ← geti k;
          i ← iget (i_dev dp) (de_inum de);
          mret (Some (i, off))
        else dirlookup_loop fuel' k name (u32 (off + Z.of_nat DESIZ))
    end
  else mret None.
(** The inode and the offset of its entry. *)
Definition dirlookup (k : nat) (name : list Z) : M (option (nat * Z)) :=
  dp ← geti k;
  if negb (i_type dp =? T_DIR) then panic "dirlookup not DIR" else
  dirlookup_loop (S (Z.to_nat (i_size dp / Z.of_nat DESIZ))) k name 0.

Fixpoint find_slot (fuel : nat) (k : nat) (off : Z) : M Z :=
  dp ← geti k;
  if u32 off <? i_size dp then
    match fuel with
    | O => halt NoFuel
    | S fuel' =>
        de ← read_dirent k (u32 off) "dirlink read";
        if de_inum de =? 0 then mret off else
        off' ← iadd off (Z.of_nat DESIZ);
        find_slot fuel' k off'
    end
  else mret off.
Definition dirlink (k : nat) (name : list Z) (inum : Z) : M Z :=
  o ← dirlookup k name;
  match o with
  | Some (i, _) => iput_ i;; mret (-1)
  | None =>
      dp ← geti k;
      off ← find_slot (S (Z.to_nat (i_size dp / Z.of_nat DESIZ))) k 0;
      r ← writei k Local (dirent inum (str_ncpy name DIRSIZ)) (u32 off) (Z.of_nat DESIZ);
      mret (if r =? Z.of_nat DESIZ then 0 else -1)
  end.

(** ** Path lookup *)

(** The loop of [namex]: the inode, and the last element when [parent]. *)
Fixpoint namex_loop (fuel : nat) (ip : nat) (path : list Z) (parent : bool) (name : list Z) : M (option (nat * list Z)) :=
  match skipelem path name with
  | None => if parent then iput_ ip;; mret None else mret (Some (ip, name))
  | Some (path, name) =>
      match fuel with
      | O => halt NoFuel
      | S fuel' =>
          ilock ip;;
          x ← geti ip;
          if negb (i_type x =? T_DIR) then iunlockput ip;; mret None else
          if parent && bool_decide (path = []) then iunlock ip;; mret (Some (ip, name)) else
          o ← dirlookup ip name;
          match o with
          | None => iunlockput ip;; mret None
          | Some (next, _) => iunlockput ip;; namex_loop fuel' next path parent name
          end
      end
  end.
Definition namex (path : list Z) (parent : bool) (name : list Z) : M (option (nat * list Z)) :=
  ip ← (match path with
        | c :: _ => if c =? SLASH then iget ROOTDEV ROOTINO else i ← curproc; p ← getp i; w ← need (p_cwd p); idup w
        | [] => i ← curproc; p ← getp i; w ← need (p_cwd p); idup w
        end);
  namex_loop (length path) ip path parent name.

(** The local array [name] is not initialised in the source; its old bytes are
    never read. *)
Definition namei_ (path : list Z) : M (option nat) :=
  r ← namex path false (replicate DIRSIZ 0);
  mret (fst <$> r).
Definition nameiparent (path name : list Z) : M (option (nat * list Z)) := namex path true name.
End Fs.

(** ** The interface of the process code *)

Definition string_bytes (s : string) : list Z := (λ a, Z.of_nat (Ascii.nat_of_ascii a)) <$> String.list_ascii_of_string s.

Definition fs_layer `{KernelImage} `{Disk} (sleeps : nat) : FileLayer := {|
  begin_op := log_begin_op sleeps;
  end_op := log_end_op sleeps;
  iput := iput_ sleeps;
  namei := λ path, namei_ sleeps (string_bytes path) |}.
