(* ===== verification/FsSpec.v ===== *)
(** * The block allocator of fs.c

    The bitmap as a set of used blocks: [balloc] and [bfree] in a transaction. *)

From S2P Require Import Prelude CString Kernel KLogic Spinlock KMem Kalloc Vm VmSpec VmUser Proc ProcSpec Pipe Fork Bio BioSpec CacheSpec Log LogSpec Crash TxView Tx Fs.
Open Scope Z_scope.
Open Scope os_scope.

(** ** Bits of a block *)

Definition bit (d : list Z) (bi : nat) : bool :=
  match d !! (bi / 8)%nat with Some v => Z.testbit v (Z.of_nat (bi mod 8)) | None => false end.

Lemma one_shift_bit k j : 0 ≤ k → 0 ≤ j → Z.testbit (Z.shiftl 1 k) j = (j =? k).
Proof.
  intros Hk Hj. rewrite Z.shiftl_spec by done. destruct (Z.eqb_spec j k) as [->|Hne]; [by rewrite Z.sub_diag|].
  destruct (decide (j < k)); [by rewrite Z.testbit_neg_r by lia|]. apply Z.bits_above_log2; cbn; lia.
Qed.

Lemma mask_testbit v k : 0 ≤ k → (Z.land v (Z.shiftl 1 k) =? 0) = negb (Z.testbit v k).
Proof.
  intros Hk. destruct (Z.testbit v k) eqn:Hb; cbn [negb].
  - apply Z.eqb_neq. intros H0. apply (f_equal (λ x, Z.testbit x k)) in H0.
    rewrite Z.land_spec, one_shift_bit, Z.eqb_refl, Hb, Z.bits_0 in H0 by done. done.
  - apply Z.eqb_eq. apply Z.bits_inj_0. intros j. rewrite Z.land_spec.
    destruct (decide (j < 0)) as [Hj|Hj]; [by rewrite !Z.testbit_neg_r by done|]. rewrite one_shift_bit by lia.
    destruct (Z.eqb_spec j k) as [->|Hne]; [by rewrite Hb|apply andb_false_r].
Qed.

Lemma set_bit_spec d bi on : (bi / 8 < length d)%nat →
  ∃ d', set_bit d bi on = Some d' ∧ length d' = length d ∧ ∀ j, bit d' j = if decide (j = bi) then on else bit d j.
Proof.
  intros Hlt. destruct (lookup_lt_is_Some_2 d (bi / 8) Hlt) as [v Hv]. unfold set_bit. rewrite Hv. cbn [mbind option_bind].
  eexists. split; [done|]. split; [by rewrite length_insert|]. intros j. unfold bit.
  destruct (decide (j / 8 = bi / 8)%nat) as [Heq|Hne].
  - rewrite Heq, list_lookup_insert_eq, Hv by done.
    assert (Hjb : (Z.of_nat (j mod 8) =? Z.of_nat (bi mod 8)) = bool_decide (j = bi)).
    { destruct (decide (j = bi)) as [->|Hj]; [by rewrite Z.eqb_refl, bool_decide_true|].
      rewrite bool_decide_false by done. apply Z.eqb_neq. pose proof (Nat.div_mod_eq j 8). pose proof (Nat.div_mod_eq bi 8). lia. }
    destruct on.
    + rewrite Z.lor_spec, one_shift_bit, Hjb by lia. destruct (decide (j = bi)) as [->|]; [by rewrite bool_decide_true, orb_true_r|].
      by rewrite bool_decide_false, orb_false_r.
    + rewrite Z.land_spec, Z.lnot_spec, one_shift_bit, Hjb by lia.
      destruct (decide (j = bi)) as [->|]; [by rewrite bool_decide_true, andb_false_r|]. by rewrite bool_decide_false, andb_true_r.
  - rewrite list_lookup_insert_ne by done. by rewrite decide_False by (intros ->; done).
Qed.

(** The scan of a bitmap block. *)
Lemma find_free_spec d b size bi n :
  (∀ j, (j < bi + n)%nat → (j / 8 < length d)%nat) →
  match find_free d b size bi n with
  | Some (Some j) => (bi ≤ j < bi + n)%nat ∧ b + Z.of_nat j < size ∧ bit d j = false ∧ ∀ i, (bi ≤ i < j)%nat → bit d i = true
  | Some None => ∀ i, (bi ≤ i < bi + n)%nat → b + Z.of_nat i < size → bit d i = true
  | None => False
  end.
Proof.
  revert bi. induction n as [|n IH]; intros bi Hl; cbn [find_free]; [intros; lia|].
  destruct (Z.ltb_spec (b + Z.of_nat bi) size) as [Hlt|Hge]; [|intros i Hi Hs; lia].
  destruct (lookup_lt_is_Some_2 d (bi / 8)) as [v Hv]; [apply Hl; lia|]. rewrite Hv. cbn [mbind option_bind].
  rewrite mask_testbit by lia. assert (Hbit : bit d bi = Z.testbit v (Z.of_nat (bi mod 8))) by (unfold bit; by rewrite Hv).
  destruct (Z.testbit v (Z.of_nat (bi mod 8))); cbn [negb].
  - specialize (IH (S bi) ltac:(intros j Hj; apply Hl; lia)).
    destruct (find_free d b size (S bi) n) as [[j|]|]; [| |done].
    + destruct IH as (H1 & H2 & H3 & H4). split_and!; [lia|lia|done|done|]. intros i Hi.
      destruct (decide (i = bi)) as [->|]; [done|apply H4; lia].
    + intros i Hi Hs. destruct (decide (i = bi)) as [->|]; [done|apply IH; lia].
  - split_and!; [lia|lia|done|done|]. intros i Hi. lia.
Qed.

(** ** The set of used blocks *)

Definition used (cur : Z → list Z) (sb : SuperBlock) (b : Z) : bool := bit (cur (BBLOCK b sb)) (Z.to_nat (b mod BPB)).

(** The bitmap of a file system whose metadata is marked as used: a block that
    is free lies outside the log and outside the bitmap. *)
Record bitmap_ok (cur : Z → list Z) (sb : SuperBlock) : Prop := {
  bm_size : 0 ≤ sb_size sb ∧ sb_size sb + BPB < 2 ^ 31;
  bm_start : 0 < sb_bmapstart sb ∧ sb_bmapstart sb + sb_size sb / BPB < 2 ^ 31;
  bm_home : ∀ b, 0 ≤ b < sb_size sb → is_home (sb_logstart sb) (BBLOCK b sb);
  bm_len : ∀ b, 0 ≤ b < sb_size sb → length (cur (BBLOCK b sb)) = BSIZE;
  bm_free : ∀ b, 0 ≤ b < sb_size sb → used cur sb b = false →
    0 < b ∧ is_home (sb_logstart sb) b ∧ ∀ x, 0 ≤ x < sb_size sb → b ≠ BBLOCK x sb
}.

Lemma BBLOCK_eq cur sb b : bitmap_ok cur sb → 0 ≤ b < sb_size sb → BBLOCK b sb = b / BPB + sb_bmapstart sb ∧ 0 ≤ BBLOCK b sb < 2 ^ 31.
Proof.
  intros [_ [H1 H2] _ _ _] Hb. unfold BBLOCK, BPB in *. assert (0 ≤ b / 8192 ≤ sb_size sb / 8192).
  { split; [apply Z.div_pos; lia|apply Z.div_le_mono; lia]. }
  rewrite u32_id by lia. lia.
Qed.

Lemma BBLOCK_pos cur sb b : bitmap_ok cur sb → 0 ≤ b < sb_size sb → 0 < BBLOCK b sb.
Proof.
  intros Hok Hb. destruct (BBLOCK_eq cur sb b Hok Hb) as [-> _]. pose proof (bm_start _ _ Hok). unfold BPB in *.
  pose proof (Z.div_pos b 8192). lia.
Qed.

(** [b] is in the bitmap block of [c] at bit [bi]. *)
Lemma used_at cur sb c bi :
  0 ≤ c → c mod BPB = 0 → (bi < Z.to_nat BPB)%nat →
  BBLOCK (c + Z.of_nat bi) sb = BBLOCK c sb ∧ Z.to_nat ((c + Z.of_nat bi) mod BPB) = bi ∧
  used cur sb (c + Z.of_nat bi) = bit (cur (BBLOCK c sb)) bi.
Proof.
  intros Hc Hm Hbi. unfold BPB in *. assert (Hbi' : 0 ≤ Z.of_nat bi < 8192) by lia.
  assert (Hq : (c + Z.of_nat bi) / 8192 = c / 8192).
  { rewrite (Z.div_mod c 8192) at 1 by lia. rewrite Hm, Z.add_0_r, Z.mul_comm, Z.div_add_l by lia. rewrite (Z.div_small (Z.of_nat bi)) by done. lia. }
  assert (Hr : (c + Z.of_nat bi) mod 8192 = Z.of_nat bi).
  { rewrite Z.add_mod, Hm, Z.add_0_l, Z.mod_mod, Z.mod_small by lia. done. }
  assert (Hbb : BBLOCK (c + Z.of_nat bi) sb = BBLOCK c sb) by (unfold BBLOCK, BPB; by rewrite Hq).
  split_and!; [done|by rewrite Hr, Nat2Z.id|]. unfold used, BPB. by rewrite Hbb, Hr, Nat2Z.id.
Qed.

(** Changing the bit of [b] changes that of no other block. *)
Lemma used_upd cur sb b d' on :
  bitmap_ok cur sb → 0 ≤ b < sb_size sb →
  (∀ j, bit d' j = if decide (j = Z.to_nat (b mod BPB)) then on else bit (cur (BBLOCK b sb)) j) →
  ∀ x, 0 ≤ x < sb_size sb → used (upd (BBLOCK b sb) d' cur) sb x = if decide (x = b) then on else used cur sb x.
Proof.
  intros Hok Hb Hd x Hx. destruct (BBLOCK_eq _ _ _ Hok Hb) as [Eb _], (BBLOCK_eq _ _ _ Hok Hx) as [Ex _].
  unfold used. destruct (decide (BBLOCK x sb = BBLOCK b sb)) as [Heq|Hne].
  - rewrite Heq, upd_eq, Hd. assert (Hdiv : x / BPB = b / BPB) by lia. unfold BPB in *.
    destruct (decide (x = b)) as [->|Hxb]; [by rewrite !decide_True|].
    rewrite decide_False; [done|]. intros Hmod. apply Hxb. pose proof (Z.div_mod x 8192). pose proof (Z.div_mod b 8192).
    pose proof (Z.mod_pos_bound x 8192). pose proof (Z.mod_pos_bound b 8192). lia.
  - rewrite upd_ne by done. by rewrite decide_False by (intros ->; done).
Qed.

Lemma in_add (b : Z) (ks : gset Z) : b ∈ {[b]} ∪ ks.
Proof. apply elem_of_union_l, elem_of_singleton. done. Qed.
Lemma size_add (b : Z) (ks : gset Z) : (size ({[b]} ∪ ks) ≤ S (size ks))%nat.
Proof.
  rewrite size_union_alt, size_singleton. pose proof (subseteq_size (ks ∖ {[b]}) ks ltac:(set_solver)). lia.
Qed.

(** Room for [n] more blocks in the log and in the cache. *)
Definition room (n : nat) (ks : gset Z) (H : gmap Z nat) : Prop := (size ks + n ≤ LOGBLOCKS)%nat ∧ (size ks + size H + n ≤ NBUF)%nat.
Lemma room_empty n ks : room n ks ∅ ↔ (size ks + n ≤ LOGBLOCKS)%nat.
Proof. unfold room. change NBUF with LOGBLOCKS. rewrite map_size_empty. lia. Qed.
Lemma room_add n b ks H : room (S n) ks H → room n ({[b]} ∪ ks) H.
Proof. intros [H1 H2]. pose proof (size_add b ks). split; lia. Qed.

Section Alloc.
Context {IMG : KernelImage} {D : Disk} {DL : DiskLaw D} (sleeps : nat) (me : nat) (pid dv : Z) (sb : SuperBlock).
Variable s0 : KState.
Hypothesis Hidle : idle me pid s0.
Hypothesis Hfree : lock_free s0 Llog.
Hypothesis Hsb : fs_sb (fs s0) = sb.
Hypothesis Hdv : 0 ≤ dv < 2 ^ 31.
#[local] Abbreviation in_tx := (in_tx pid dv (sb_logstart sb) s0).

Lemma tx_sb L0 d ks cur H s : in_tx L0 d ks cur H s → fs_sb (fs s) = sb.
Proof. intros [? ? ? Hc _ _ _ _ _ _]. by rewrite (ca_sb _ _ _ _ _ _ Hc). Qed.
Lemma wp_getsb E L0 d ks cur H s (Q : SuperBlock → KState → Prop) : in_tx L0 d ks cur H s → Q sb s → wp E getsb Q s.
Proof. intros Ht HQ. unfold getsb. apply wp_gets. by rewrite (tx_sb _ _ _ _ _ _ Ht). Qed.

(** A block that is not locked is logged or as on the disk. *)
Lemma tx_clean L0 d ks cur H s b : in_tx L0 d ks cur H s → H !! b = None → b ∈ ks ∨ cur b = block d b.
Proof.
  intros [blks A L _ _ _ _ _ _ Hs] Hb. specialize (Hs b). unfold slot_ok in Hs. rewrite Hb in Hs.
  destruct (A !! b); [left; apply Hs|right; apply Hs].
Qed.

Lemma wp_bzero E L0 d ks cur H b s (Q : unit → KState → Prop) :
  in_tx L0 d ks cur H s → H !! b = None → room 1 ks H → 1 ≤ l_outstanding L0 → is_home (sb_logstart sb) b → 0 ≤ b < 2 ^ 31 →
  (∀ s', in_tx L0 d ({[b]} ∪ ks) (upd b (replicate BSIZE 0) cur) H s' → Q tt s') → wp E (bzero sleeps dv b) Q s.
Proof.
  intros Ht Hb [Hr1 Hr2] Ho Hh Hrb HQ. unfold bzero. rewrite !u32_id by done. apply wp_bind.
  eapply (wp_tx_bread sleeps me pid dv _ s0 Hidle Hfree); [exact Ht|done|lia|]. intros i s1 Ht1.
  apply wp_bind. eapply wp_tx_fill; [exact Ht1|apply lookup_insert_eq|]. intros s2 Ht2.
  apply wp_bind. eapply (wp_tx_log_write me pid dv _ s0 Hidle Hfree); [exact Ht2|apply lookup_insert_eq|lia|done|done|done|]. intros s3 Ht3.
  eapply (wp_tx_brelse me pid dv _ s0 Hidle); [exact Ht3|apply lookup_insert_eq|left; apply in_add|]. intros s4 Ht4. apply HQ.
  by rewrite delete_insert_id in Ht4.
Qed.

(** The locked blocks are neither in the bitmap nor free. *)
Definition held_ok (cur : Z → list Z) (H : gmap Z nat) : Prop :=
  ∀ x, 0 ≤ x < sb_size sb → H !! BBLOCK x sb = None ∧ (used cur sb x = false → H !! x = None).

(** A bitmap block with the bit of [r] set to [on]. *)
Definition with_bit (cur : Z → list Z) (r : Z) (on : bool) (d' : list Z) : Prop :=
  length d' = BSIZE ∧ ∀ j, bit d' j = if decide (j = Z.to_nat (r mod BPB)) then on else bit (cur (BBLOCK r sb)) j.

Lemma wp_balloc_loop E fuel L0 d ks cur H c s (Q : Z → KState → Prop) :
  in_tx L0 d ks cur H s → bitmap_ok cur sb → held_ok cur H → room 2 ks H → 1 ≤ l_outstanding L0 →
  0 ≤ c → c mod BPB = 0 → sb_size sb ≤ c + Z.of_nat fuel * BPB → c < sb_size sb + BPB →
  (∀ x, 0 ≤ x < sb_size sb → x < c → used cur sb x = true) →
  (∀ s', (∀ x, 0 ≤ x < sb_size sb → used cur sb x = true) → in_tx L0 d ks cur H s' → Q 0 s') →
  (∀ r d' s', 0 ≤ r < sb_size sb → used cur sb r = false → (∀ x, 0 ≤ x < r → used cur sb x = true) → with_bit cur r true d' →
     in_tx L0 d ({[r]} ∪ ({[BBLOCK r sb]} ∪ ks)) (upd r (replicate BSIZE 0) (upd (BBLOCK r sb) d' cur)) H s' → Q r s') →
  wp E (balloc_loop sleeps fuel dv c) Q s.
Proof.
  revert c s. induction fuel as [|fuel IH]; intros c s Ht Hok Hheld [Hr1 Hr2] Ho Hc Hm Hf Hcs Hall HQ0 HQ1; cbn [balloc_loop];
    apply wp_bind; (eapply wp_getsb; [exact Ht|]); (destruct (Z.ltb_spec c (sb_size sb)) as [Hlt|Hge];
    [|apply wp_ret, HQ0; [intros x Hx; apply Hall; lia|done]]); [lia|].
  assert (Hcr : 0 ≤ c < sb_size sb) by lia. destruct (Hheld c Hcr) as [Hhb _].
  destruct (BBLOCK_eq _ _ _ Hok Hcr) as [_ Hbr]. set (B := BBLOCK c sb) in *.
  apply wp_bind. eapply (wp_tx_bread sleeps me pid dv _ s0 Hidle Hfree); [exact Ht|exact Hhb|lia|]. intros i s1 Ht1.
  apply wp_bind. eapply wp_tx_getb; [exact Ht1|apply lookup_insert_eq|]. intros x Hx. rewrite Hx.
  pose proof (bm_len _ _ Hok c Hcr) as HlenB. fold B in HlenB.
  assert (Hlen : ∀ j, (j < 0 + Z.to_nat BPB)%nat → (j / 8 < length (cur B))%nat).
  { intros j Hj. rewrite HlenB. unfold BSIZE, BPB in *. apply Nat.Div0.div_lt_upper_bound. lia. }
  pose proof (find_free_spec (cur B) c (sb_size sb) 0 (Z.to_nat BPB) Hlen) as Hfind. apply wp_bind.
  destruct (find_free (cur B) c (sb_size sb) 0 (Z.to_nat BPB)) as [hit|]; [|done]. eapply wp_need; [done|].
  destruct hit as [bi|].
  - destruct Hfind as (Hbi & Hsz & Hbit & Hbefore). destruct (used_at cur sb c bi Hc Hm ltac:(lia)) as (Hbb & Hmod & Hu).
    set (r := c + Z.of_nat bi) in *. assert (Hrr : 0 ≤ r < sb_size sb) by lia. fold B in Hbb, Hu. rewrite Hbit in Hu.
    destruct (set_bit_spec (cur B) bi true) as (d' & Hd' & Hl' & Hb'); [apply Hlen; lia|].
    destruct (bm_free _ _ Hok r Hrr Hu) as (Hpos & Hhome & Hnb).
    apply wp_bind. eapply wp_need; [exact Hd'|]. apply wp_bind. eapply wp_tx_fill; [exact Ht1|apply lookup_insert_eq|]. intros s2 Ht2.
    apply wp_bind. eapply (wp_tx_log_write me pid dv _ s0 Hidle Hfree); [exact Ht2|apply lookup_insert_eq|lia|done|by apply (bm_home _ _ Hok)|done|].
    intros s3 Ht3. apply wp_bind. eapply (wp_tx_brelse me pid dv _ s0 Hidle); [exact Ht3|apply lookup_insert_eq|left; apply in_add|].
    intros s4 Ht4. rewrite delete_insert_id in Ht4 by done. apply wp_bind.
    eapply wp_bzero; [exact Ht4|by apply (Hheld r Hrr)|apply (room_add 1 B ks H); by split|done|done|pose proof (bm_size _ _ Hok); unfold BPB in *; lia|].
    intros s5 Ht5. apply wp_ret, (HQ1 r d'); [done|done| | |].
    + intros y Hy. destruct (decide (y < c)) as [|Hyc]; [apply Hall; lia|].
      destruct (used_at cur sb c (Z.to_nat (y - c)) Hc Hm ltac:(lia)) as (_ & _ & Huy). replace (c + Z.of_nat (Z.to_nat (y - c))) with y in Huy by lia.
      rewrite Huy. apply Hbefore. lia.
    + split; [by rewrite Hl'|]. rewrite Hmod, Hbb. exact Hb'.
    + by rewrite Hbb.
  - apply wp_bind. eapply (wp_tx_brelse me pid dv _ s0 Hidle); [exact Ht1|apply lookup_insert_eq|exact (tx_clean _ _ _ _ _ _ _ Ht Hhb)|].
    intros s2 Ht2. rewrite delete_insert_id in Ht2 by done. apply wp_bind. unfold iadd.
    pose proof (bm_size _ _ Hok) as [_ Hmax]. rewrite (proj2 (Z.leb_le _ _)), (proj2 (Z.ltb_lt _ _)) by (unfold BPB in *; lia). cbn [andb]. apply wp_ret.
    eapply (IH (c + BPB)); [exact Ht2|done|done|by split|done|unfold BPB; lia| |lia|lia| |done|done].
    + unfold BPB in *. rewrite Z.add_mod, Hm by lia. done.
    + intros y Hy Hyc. destruct (decide (y < c)) as [|Hyn]; [apply Hall; lia|].
      destruct (used_at cur sb c (Z.to_nat (y - c)) Hc Hm ltac:(lia)) as (_ & _ & Huy). replace (c + Z.of_nat (Z.to_nat (y - c))) with y in Huy by lia.
      rewrite Huy. apply Hfind; lia.
Qed.

Lemma wp_balloc E L0 d ks cur H s (Q : Z → KState → Prop) :
  in_tx L0 d ks cur H s → bitmap_ok cur sb → held_ok cur H → room 2 ks H → 1 ≤ l_outstanding L0 →
  (∀ s', (∀ x, 0 ≤ x < sb_size sb → used cur sb x = true) → in_tx L0 d ks cur H s' → Q 0 s') →
  (∀ r d' s', 0 ≤ r < sb_size sb → used cur sb r = false → (∀ x, 0 ≤ x < r → used cur sb x = true) → with_bit cur r true d' →
     in_tx L0 d ({[r]} ∪ ({[BBLOCK r sb]} ∪ ks)) (upd r (replicate BSIZE 0) (upd (BBLOCK r sb) d' cur)) H s' → Q r s') →
  wp E (balloc sleeps dv) Q s.
Proof.
  intros Ht Hok Hheld Hr Ho HQ0 HQ1. unfold balloc. apply wp_bind. eapply wp_getsb; [exact Ht|].
  pose proof (bm_size _ _ Hok) as [Hpos _]. eapply wp_balloc_loop; [exact Ht|done|done|done|done|done|done| |unfold BPB; lia|lia|done|done].
  assert (0 ≤ sb_size sb / BPB) by (apply Z.div_pos; unfold BPB; lia). unfold BPB in *.
  pose proof (Z.mul_succ_div_gt (sb_size sb) 8192 ltac:(lia)). lia.
Qed.

Lemma wp_bfree E L0 d ks cur H b s (Q : unit → KState → Prop) :
  in_tx L0 d ks cur H s → bitmap_ok cur sb → H !! BBLOCK b sb = None → room 1 ks H → 1 ≤ l_outstanding L0 →
  0 ≤ b < sb_size sb → used cur sb b = true →
  (∀ d' s', with_bit cur b false d' → in_tx L0 d ({[BBLOCK b sb]} ∪ ks) (upd (BBLOCK b sb) d' cur) H s' → Q tt s') →
  wp E (bfree sleeps dv b) Q s.
Proof.
  intros Ht Hok Hb [Hr1 Hr2] Ho Hrb Hu HQ. destruct (BBLOCK_eq _ _ _ Hok Hrb) as [_ Hbr]. pose proof (bm_len _ _ Hok b Hrb) as HlenB.
  pose proof (bm_home _ _ Hok b Hrb) as Hhome. unfold used in Hu. set (B := BBLOCK b sb) in *. set (bi := Z.to_nat (b mod BPB)) in *.
  assert (Hbi : (bi / 8 < length (cur B))%nat).
  { rewrite HlenB. unfold bi, BSIZE, BPB. apply Nat.Div0.div_lt_upper_bound. pose proof (Z.mod_pos_bound b 8192). lia. }
  destruct (lookup_lt_is_Some_2 _ _ Hbi) as [v Hv]. destruct (set_bit_spec (cur B) bi false Hbi) as (d' & Hd' & Hl' & Hb').
  unfold bfree. apply wp_bind. eapply wp_getsb; [exact Ht|]. rewrite (u32_id dv Hdv). fold B bi. apply wp_bind.
  eapply (wp_tx_bread sleeps me pid dv _ s0 Hidle Hfree); [exact Ht|exact Hb|lia|]. intros i s1 Ht1.
  apply wp_bind. eapply wp_tx_getb; [exact Ht1|apply lookup_insert_eq|]. intros x Hx. rewrite Hx.
  apply wp_bind. eapply wp_need; [exact Hv|]. rewrite mask_testbit by lia. unfold bit in Hu. rewrite Hv in Hu. rewrite Hu. cbn [negb].
  apply wp_bind. eapply wp_need; [exact Hd'|]. apply wp_bind. eapply wp_tx_fill; [exact Ht1|apply lookup_insert_eq|]. intros s2 Ht2.
  apply wp_bind. eapply (wp_tx_log_write me pid dv _ s0 Hidle Hfree); [exact Ht2|apply lookup_insert_eq|lia|done|done|done|].
  intros s3 Ht3. eapply (wp_tx_brelse me pid dv _ s0 Hidle); [exact Ht3|apply lookup_insert_eq|left; apply in_add|].
  intros s4 Ht4. rewrite delete_insert_id in Ht4 by done. apply (HQ d'); [|done]. split; [by rewrite Hl'|exact Hb'].
Qed.
End Alloc.

(** ** The allocator refines a set of used blocks *)

Inductive AllocOp := Alloc | Free (b : Z).

(** A block that may be allocated and freed: outside log and bitmap. *)
Definition data_block (sb : SuperBlock) (b : Z) : Prop :=
  0 < b < sb_size sb ∧ is_home (sb_logstart sb) b ∧ ∀ x, 0 ≤ x < sb_size sb → b ≠ BBLOCK x sb.

Definition first_free (sb : SuperBlock) (U : Z → bool) : option Z := head (filter (λ b, U b = false) (seqZ 0 (sb_size sb))).
Definition mark (b : Z) (on : bool) (U : Z → bool) : Z → bool := λ x, if decide (x = b) then on else U x.

(** The result of an operation on the set [U]; a block that is free must not
    be freed. *)
Definition alloc_spec (sb : SuperBlock) (op : AllocOp) (U : Z → bool) : option (Z * (Z → bool)) :=
  match op with
  | Alloc => match first_free sb U with None => Some (0, U) | Some b => Some (b, mark b true U) end
  | Free b => if U b then Some (0, mark b false U) else None
  end.
Fixpoint alloc_specs (sb : SuperBlock) (ops : list AllocOp) (U : Z → bool) : option (list Z * (Z → bool)) :=
  match ops with
  | [] => Some ([], U)
  | op :: ops' => r ← alloc_spec sb op U; t ← alloc_specs sb ops' r.2; Some (r.1 :: t.1, t.2)
  end.

Section AllocClient.
Context `{KernelImage} `{Disk} (sleeps : nat) (dv : Z).
Definition alloc_op (op : AllocOp) : M Z :=
  match op with Alloc => balloc sleeps dv | Free b => bfree sleeps dv b;; mret 0 end.
Fixpoint alloc_ops (ops : list AllocOp) : M (list Z) :=
  match ops with [] => mret [] | op :: ops' => r ← alloc_op op; t ← alloc_ops ops'; mret (r :: t) end.
End AllocClient.

Lemma filter_none (P : Z → Prop) `{∀ x, Decision (P x)} (l : list Z) : (∀ x, x ∈ l → ¬ P x) → filter P l = [].
Proof.
  induction l as [|y l IH]; intros Hn; [done|]. rewrite filter_cons_False by (apply Hn; left).
  apply IH. intros x Hx. apply Hn. by right.
Qed.

Lemma first_free_is sb U b :
  0 ≤ b < sb_size sb → U b = false → (∀ x, 0 ≤ x < b → U x = true) → first_free sb U = Some b.
Proof.
  intros Hb Hu Hx. unfold first_free. replace (sb_size sb) with (b + (sb_size sb - b)) by lia.
  rewrite seqZ_app, filter_app, (seqZ_cons (0 + b)), (filter_none _ (seqZ 0 b)) by first [lia|intros x Hin%elem_of_seqZ Hf; rewrite Hx in Hf by lia; done].
  rewrite Z.add_0_l, filter_cons_True by done. done.
Qed.
Lemma first_free_none sb U : (∀ x, 0 ≤ x < sb_size sb → U x = true) → first_free sb U = None.
Proof.
  intros Hx. unfold first_free. rewrite filter_none; [done|].
  intros x Hin%elem_of_seqZ Hf. rewrite Hx in Hf by lia. done.
Qed.

(** The bitmap after a bit has changed. *)
Lemma bitmap_mark cur sb b d' on :
  bitmap_ok cur sb → 0 ≤ b < sb_size sb → with_bit sb cur b on d' → (on = false → data_block sb b) →
  bitmap_ok (upd (BBLOCK b sb) d' cur) sb ∧
  ∀ x, 0 ≤ x < sb_size sb → used (upd (BBLOCK b sb) d' cur) sb x = mark b on (used cur sb) x.
Proof.
  intros Hok Hb [Hl Hd] Hdata. pose proof (used_upd cur sb b d' on Hok Hb Hd) as Hu. split; [|exact Hu].
  destruct Hok as [H1 H2 H3 H4 H5]. split; [done|done|done| |].
  - intros x Hx. destruct (decide (BBLOCK x sb = BBLOCK b sb)) as [->|Hne]; [by rewrite upd_eq|]. rewrite upd_ne by done. by apply H4.
  - intros x Hx. rewrite Hu by done. case_decide as Hxb; [subst x|by apply H5]. intros ->. destruct (Hdata eq_refl) as (Hp & Hh & Hn).
    split_and!; [lia|done|done].
Qed.

(** A change outside the bitmap. *)
Lemma bitmap_other cur sb r v :
  bitmap_ok cur sb → (∀ x, 0 ≤ x < sb_size sb → r ≠ BBLOCK x sb) →
  bitmap_ok (upd r v cur) sb ∧ ∀ x, 0 ≤ x < sb_size sb → used (upd r v cur) sb x = used cur sb x.
Proof.
  intros Hok Hr. assert (Hc : ∀ x, 0 ≤ x < sb_size sb → upd r v cur (BBLOCK x sb) = cur (BBLOCK x sb)).
  { intros x Hx. apply upd_ne. intros Heq. by apply (Hr x). }
  assert (Hu : ∀ x, 0 ≤ x < sb_size sb → used (upd r v cur) sb x = used cur sb x) by (intros x Hx; unfold used; by rewrite Hc).
  split; [|exact Hu]. destruct Hok as [H1 H2 H3 H4 H5]. split; [done|done|done| |].
  - intros x Hx. rewrite Hc by done. by apply H4.
  - intros x Hx Hf. rewrite Hu in Hf by done. by apply H5.
Qed.

Section AllocRefine.
Context {IMG : KernelImage} {D : Disk} {DL : DiskLaw D} (sleeps : nat) (me : nat) (pid dv : Z) (sb : SuperBlock).
Variable s0 : KState.
Hypothesis Hidle : idle me pid s0.
Hypothesis Hfree : lock_free s0 Llog.
Hypothesis Hsb : fs_sb (fs s0) = sb.
Hypothesis Hdv : 0 ≤ dv < 2 ^ 31.
#[local] Abbreviation in_tx := (in_tx pid dv (sb_logstart sb) s0).

(** The allocator in state [s] has the set [U]; the contents of the data
    blocks are [data]. *)
Definition allocator (L0 : LogState) (d : list (Z * list Z)) (n : nat) (U : Z → bool) (data : Z → list Z) (s : KState) : Prop :=
  ∃ ks cur, in_tx L0 d ks cur ∅ s ∧ bitmap_ok cur sb ∧ room n ks ∅ ∧ (∀ x, 0 ≤ x < sb_size sb → used cur sb x = U x) ∧
    ∀ x, (∀ y, 0 ≤ y < sb_size sb → x ≠ BBLOCK y sb) → cur x = data x.

(** The contents after an operation with the result [r]. *)
Definition fresh (r : Z) (data : Z → list Z) : Z → list Z := if r =? 0 then data else upd r (replicate BSIZE 0) data.

Lemma alloc_op_refines E L0 d n U data s op r U' :
  allocator L0 d (2 + n) U data s → 1 ≤ l_outstanding L0 →
  (∀ b, op = Free b → data_block sb b) → alloc_spec sb op U = Some (r, U') →
  wp E (alloc_op sleeps dv op) (λ r' s', r' = r ∧ allocator L0 d n U' (fresh r data) s') s.
Proof.
  intros (ks & cur & Ht & Hok & Hroom & HU & Hdata) Ho Hfreeok Hspec. apply room_empty in Hroom.
  assert (Hheld : held_ok sb cur ∅) by (intros x _; by rewrite !lookup_empty).
  destruct op as [|b]; cbn [alloc_op alloc_spec] in *.
  - eapply (wp_balloc sleeps me pid dv sb s0 Hidle Hfree Hsb Hdv); [exact Ht|done|done|apply room_empty; lia|done| |].
    + intros s' Hall Ht'. rewrite (first_free_none sb U) in Hspec by (intros x Hx; rewrite <- HU by done; by apply Hall).
      injection Hspec as <- <-. split; [done|]. exists ks, cur. split_and!; [done|done|apply room_empty; lia|done|done].
    + intros b d' s' Hb Hu Hbelow Hd' Ht'. destruct (bm_free _ _ Hok b Hb Hu) as (Hpos & Hhome & Hnb).
      rewrite (first_free_is sb U b) in Hspec; [|done|by rewrite <- HU|intros x Hx; rewrite <- HU by lia; by apply Hbelow].
      injection Hspec as <- <-. split; [done|]. unfold fresh. rewrite (proj2 (Z.eqb_neq b 0)) by lia.
      destruct (bitmap_mark cur sb b d' true Hok Hb Hd') as [Hok1 Hu1]; [done|].
      destruct (bitmap_other _ sb b (replicate BSIZE 0) Hok1 Hnb) as [Hok2 Hu2].
      pose proof (size_add b ({[BBLOCK b sb]} ∪ ks)). pose proof (size_add (BBLOCK b sb) ks).
      eexists _, _. split_and!; [exact Ht'|done|apply room_empty; lia| |].
      * intros x Hx. rewrite Hu2, Hu1 by done. unfold mark. case_decide; [done|by apply HU].
      * intros x Hx. unfold upd. case_decide; [done|]. rewrite decide_False by (by apply Hx). by apply Hdata.
  - destruct (U b) eqn:Hub; [|done]. injection Hspec as <- <-. pose proof (Hfreeok b eq_refl) as Hdb. destruct Hdb as (Hb & Hhome & Hnb).
    apply wp_bind. eapply (wp_bfree sleeps me pid dv sb s0 Hidle Hfree Hsb Hdv); [exact Ht|done|done|apply room_empty; lia|done|lia|rewrite HU by lia; done|].
    intros d' s' Hd' Ht'. apply wp_ret. split; [done|]. destruct (bitmap_mark cur sb b d' false Hok ltac:(lia) Hd') as [Hok1 Hu1]; [by intros _|].
    pose proof (size_add (BBLOCK b sb) ks). eexists _, _. split_and!; [exact Ht'|done|apply room_empty; lia| |].
    + intros x Hx. rewrite Hu1 by done. unfold mark. case_decide; [done|by apply HU].
    + intros x Hx. rewrite upd_ne by (apply Hx; lia). by apply Hdata.
Qed.

Lemma alloc_ops_refine E L0 d n U data s ops rs U' :
  allocator L0 d (2 * length ops + n) U data s → 1 ≤ l_outstanding L0 →
  Forall (λ op, ∀ b, op = Free b → data_block sb b) ops → alloc_specs sb ops U = Some (rs, U') →
  wp E (alloc_ops sleeps dv ops) (λ rs' s', rs' = rs ∧ allocator L0 d n U' (foldl (λ f r, fresh r f) data rs) s') s.
Proof.
  intros Ha Ho Hf. revert U data s rs Ha. induction Hf as [|op ops Hop _ IH]; intros U data s rs Ha Hspec; cbn [alloc_specs alloc_ops length] in *.
  - injection Hspec as <- <-. by apply wp_ret.
  - destruct (alloc_spec sb op U) as [[r U1]|] eqn:H1; [|done]. cbn [mbind option_bind fst snd] in Hspec.
    destruct (alloc_specs sb ops U1) as [[t U2]|] eqn:H2; [|done]. injection Hspec as <- <-. apply wp_bind.
    eapply wp_mono; [eapply (alloc_op_refines E L0 d (2 * length ops + n)); [|done|exact Hop|exact H1]|].
    { by replace (2 + (2 * length ops + n))%nat with (2 * S (length ops) + n)%nat by lia. }
    intros r' s1 [-> Ha1]. apply wp_bind. eapply wp_mono; [eapply IH; [exact Ha1|exact H2]|].
    intros t' s2 [-> Ha2]. apply wp_ret. by split.
Qed.
End AllocRefine.

(** A client that allocates and frees blocks in one transaction. *)
Definition alloc_transaction `{KernelImage} `{Disk} (sleeps : nat) (dv : Z) (ops : list AllocOp) : M (list Z) :=
  log_begin_op sleeps;;
  rs ← alloc_ops sleeps dv ops;
  log_end_op sleeps;;
  mret rs.

Section AllocTx.
Context {IMG : KernelImage} {D : Disk} {DL : DiskLaw D} (sleeps : nat) (me : nat) (pid dv : Z).

(** C9: [balloc] and [bfree] refine a set of used block numbers.  A transaction
    of at most [MAXOPBLOCKS] of them on a well-formed bitmap never panics and
    gives the results of the set: [balloc] the least free number, or zero when
    every block is in use, [bfree] gives its block back.  When it returns the
    bitmap on the disk is well formed and is the resulting set, every block
    that [balloc] has returned is zeroed and no other block outside the log
    and the bitmap has changed; after a crash all of this has happened or
    nothing. *)
Theorem alloc_refines_set (sb : SuperBlock) (ops : list AllocOp) (rs : list Z) (U' : Z → bool) (s : KState)
  (Hq : fs_quiet me pid dv sb s) (Hsb : fs_sb (fs s) = sb) (Hdv : 0 ≤ dv < 2 ^ 31)
  (Hok : bitmap_ok (block (fs_disk (fs s))) sb) (Hlen : (length ops ≤ MAXOPBLOCKS)%nat)
  (Hfr : Forall (λ op, ∀ b, op = Free b → data_block sb b) ops)
  (Hspec : alloc_specs sb ops (used (block (fs_disk (fs s))) sb) = Some (rs, U')) :
  ∃ s' cur, alloc_transaction sleeps dv ops s = Ret rs s' ∧ fs_quiet me pid dv sb s' ∧
    (∀ b, is_home (sb_logstart sb) b → block (fs_disk (fs s')) b = cur b) ∧
    bitmap_ok cur sb ∧ (∀ b, 0 ≤ b < sb_size sb → used cur sb b = U' b) ∧
    (∀ b, (∀ x, 0 ≤ x < sb_size sb → b ≠ BBLOCK x sb) →
       cur b = foldl (λ f r, fresh r f) (block (fs_disk (fs s))) rs b) ∧
    crash_atomic sleeps me pid dv sb (fs_disk (fs s)) (fs_disk (fs s')) cur.
Proof.
  destruct Hq as [Hid Hl Hrep HL [Ho Hcm] Hh]. set (st := sb_logstart sb) in *. set (d := fs_disk (fs s)) in *. set (L := fs_log (fs s)) in *.
  assert (Hc : cache dv s ∅ L d s) by (split; [by apply after_same|done..]).
  cut (wp Atomic (alloc_transaction sleeps dv ops) (λ r s', r = rs ∧ ∃ cur, fs_quiet me pid dv sb s' ∧
    (∀ b, is_home st b → block (fs_disk (fs s')) b = cur b) ∧ bitmap_ok cur sb ∧ (∀ b, 0 ≤ b < sb_size sb → used cur sb b = U' b) ∧
    (∀ b, (∀ x, 0 ≤ x < sb_size sb → b ≠ BBLOCK x sb) → cur b = foldl (λ f r, fresh r f) (block d) rs b) ∧
    crash_atomic sleeps me pid dv sb d (fs_disk (fs s')) cur) s).
  { intros (r & s' & Hrun & -> & cur & Hrest)%wp_atomic. by exists s', cur. }
  unfold alloc_transaction. apply wp_bind. eapply (wp_begin_op sleeps me pid dv s Hid Hl); [exact Hc|split; [done|]|].
  { rewrite Ho, (ls_n _ _ _ _ HL). unfold LOGBLOCKS, MAXOPBLOCKS. cbn. lia. }
  intros s1 Hc1. rewrite Ho in Hc1. set (L1 := with_outstanding (0 + 1) L) in *. apply wp_bind.
  eapply wp_mono; [eapply (alloc_ops_refine sleeps me pid dv sb s Hid Hl Hsb Hdv Atomic L1 d 1 _ (block d)); [|done|exact Hfr|exact Hspec]|].
  { exists ∅, (block d). split_and!; [|done| |done|done].
    - by apply in_tx_start; [|exact (logst_with dv st L [] 1 (l_committing L) HL)].
    - apply room_empty. rewrite size_empty. unfold LOGBLOCKS, MAXOPBLOCKS in *. lia. }
  intros r s2 [-> (ks & cur & Ht & Hok' & Hr%room_empty & HU & Hdata)]. apply wp_bind.
  eapply (wp_end_tx sleeps me pid dv sb s L1 d); [done|done|done|done|done| |exact Ht|]; [lia|].
  intros s3 _ _ Hq3 Hb3 Hca. apply wp_ret. split; [done|]. by exists cur.
Qed.
End AllocTx.

(** ** A concrete file system *)

(** One hundred blocks, the log at 2, the bitmap at 46, and 48 as the first
    free block. *)
Definition alloc_sb : SuperBlock := mkSb 0x10203040 100 53 32 31 2 33 46.
Definition alloc_disk : list (Z * list Z) := [(46, replicate 6 255 ++ replicate (BSIZE - 6) 0)].
Definition alloc_reset : KState := set_sb alloc_sb (set_disk alloc_disk cache_boot).
Definition alloc_boot : KState :=
  match @initlog sample_image polled_disk 0 1 alloc_sb alloc_reset with Ret _ s => s | _ => bss end.

Lemma rebooted_on me pid dv h h' sb r :
  rebooted me pid dv h r → Forall (λ b, b_valid b = false) (fs_bufs (fs r)) → rebooted me pid dv h' (set_sb sb (set_disk h' r)).
Proof.
  intros [H1 H2 H3 H4 H5 [R1 R2 _ R4 R5 R6] _ H8] Hv. split; [exact H1|exact H2|exact H3|exact H4|exact H5| |done|exact H8].
  split; [exact R1|exact R2|done|exact R4| |exact R6].
  intros i b Hb H0. destruct (R5 i b Hb H0) as [Hl _]. split; [done|]. intros _ Hv'. by rewrite (Forall_lookup_1 _ _ _ _ Hv Hb) in Hv'.
Qed.
Lemma alloc_reset_rebooted : rebooted 1 4 1 alloc_disk alloc_reset.
Proof.
  refine (rebooted_on 1 4 1 [] alloc_disk alloc_sb cache_boot cache_boot_rebooted _).
  apply (bool_decide_unpack _). vm_compute. exact I.
Qed.
Lemma alloc_boot_quiet : fs_quiet 1 4 1 alloc_sb alloc_boot.
Proof.
  destruct (@run_initlog sample_image polled_disk polled_disk_law 0 1 4 1 alloc_sb alloc_disk [] alloc_reset) as (r & H0 & Hr & Hq & _).
  - exact alloc_reset_rebooted.
  - split_and!; [vm_compute; reflexivity..|by intros i b ?].
  - exact header_ok_nil.
  - by constructor.
  - unfold in_range, alloc_sb, LOGBLOCKS, MAXOPBLOCKS. cbn. lia.
  - unfold alloc_boot. by rewrite Hr.
Qed.

Lemma alloc_boot_used b : 0 ≤ b < 100 → used (block (fs_disk (fs alloc_boot))) alloc_sb b = (b <? 48).
Proof.
  intros Hb. assert (Hall : forallb (λ b, eqb (used (block (fs_disk (fs alloc_boot))) alloc_sb b) (b <? 48)) (seqZ 0 100) = true)
    by (vm_compute; reflexivity).
  rewrite forallb_forall in Hall. apply eqb_prop, Hall. apply list_elem_of_In, elem_of_seqZ. lia.
Qed.
Lemma alloc_sb_bblock b : 0 ≤ b < 100 → BBLOCK b alloc_sb = 46.
Proof. intros Hb. unfold BBLOCK, BPB. rewrite Z.div_small by lia. reflexivity. Qed.
Lemma alloc_boot_bitmap : bitmap_ok (block (fs_disk (fs alloc_boot))) alloc_sb.
Proof.
  split.
  - split; [apply Z.leb_le|apply Z.ltb_lt]; vm_compute; reflexivity.
  - split; apply Z.ltb_lt; vm_compute; reflexivity.
  - intros b Hb. rewrite alloc_sb_bblock by exact Hb. unfold is_home, LOGBLOCKS, MAXOPBLOCKS. cbn. lia.
  - intros b Hb. rewrite alloc_sb_bblock by exact Hb. vm_compute. reflexivity.
  - intros b Hb. rewrite alloc_boot_used by exact Hb. intros Hf%Z.ltb_ge. split_and!; [lia| |].
    + unfold is_home, LOGBLOCKS, MAXOPBLOCKS. cbn. lia.
    + intros x Hx. rewrite alloc_sb_bblock by exact Hx. lia.
Qed.

Definition alloc_sample : list AllocOp := [Alloc; Alloc; Free 48; Alloc].
Lemma alloc_sample_free : data_block alloc_sb 48.
Proof.
  split_and!; [lia|cbn; lia|unfold is_home, LOGBLOCKS, MAXOPBLOCKS; cbn; lia|]. intros x Hx. rewrite alloc_sb_bblock by exact Hx. lia.
Qed.
Lemma alloc_sample_spec U :
  (∀ b, 0 ≤ b < 100 → U b = (b <? 48)) →
  alloc_specs alloc_sb alloc_sample U = Some ([48; 49; 0; 48], mark 48 true (mark 48 false (mark 49 true (mark 48 true U)))).
Proof.
  intros HU. assert (Hlow : ∀ b, 0 ≤ b < 48 → U b = true) by (intros b Hb; rewrite HU by lia; apply Z.ltb_lt; lia).
  assert (Hhigh : ∀ b, 48 ≤ b < 100 → U b = false) by (intros b Hb; rewrite HU by lia; apply Z.ltb_ge; lia).
  unfold alloc_sample, alloc_specs, alloc_spec. rewrite (first_free_is alloc_sb U 48); [|cbn; lia|by apply Hhigh|exact Hlow]. cbn [mbind option_bind fst snd].
  rewrite (first_free_is alloc_sb (mark 48 true U) 49); [|cbn; lia|by apply (Hhigh 49)|]; last first.
  { intros x Hx. unfold mark. case_decide; [done|]. apply Hlow. lia. }
  cbn [mbind option_bind fst snd]. change (mark 49 true (mark 48 true U) 48) with true. cbn [mbind option_bind fst snd].
  rewrite (first_free_is alloc_sb (mark 48 false (mark 49 true (mark 48 true U))) 48); [done|cbn; lia|done|].
  intros x Hx. unfold mark. rewrite !decide_False by lia. by apply Hlow.
Qed.
Lemma alloc_refines_set_witness :
  ∃ s', @alloc_transaction sample_image polled_disk 0 1 alloc_sample alloc_boot = Ret [48; 49; 0; 48] s' ∧
    block (fs_disk (fs s')) 49 = replicate BSIZE 0.
Proof.
  set (U := used (block (fs_disk (fs alloc_boot))) alloc_sb).
  destruct (@alloc_refines_set sample_image polled_disk polled_disk_law 0 1 4 1 alloc_sb alloc_sample [48; 49; 0; 48]
    (mark 48 true (mark 48 false (mark 49 true (mark 48 true U)))) alloc_boot) as (s' & cur & Hrun & _ & Hb & _ & _ & Hd & _).
  - exact alloc_boot_quiet.
  - vm_compute. reflexivity.
  - lia.
  - exact alloc_boot_bitmap.
  - apply Nat.leb_le. reflexivity.
  - unfold alloc_sample. rewrite !Forall_cons, Forall_nil. split_and!; [discriminate|discriminate|intros b [= <-]; exact alloc_sample_free|discriminate|exact I].
  - apply alloc_sample_spec. exact alloc_boot_used.
  - exists s'. split; [exact Hrun|]. rewrite Hb, Hd; [reflexivity| |unfold is_home, LOGBLOCKS, MAXOPBLOCKS; cbn; lia].
    intros x Hx. rewrite alloc_sb_bblock by exact Hx. lia.
Defined.
