(* ===== verification/FsPath.v ===== *)
(** * Path names and directory entries

    [skipelem] against the list of elements of a path, and the names of
    directory entries as arrays of [DIRSIZ] bytes.  [namex] follows the
    elements of its path, one directory at a time. *)

From S2P Require Import Prelude CString Kernel KEquiv KLogic Spinlock KMem Kalloc Vm Proc Pipe Fork Bio Log Fs.
Open Scope Z_scope.
Open Scope os_scope.

(** ** Elements of a path *)

(** The parts of [l] between the bytes [c]. *)
Fixpoint split_on (c : Z) (l : list Z) : list (list Z) :=
  match l with
  | [] => [[]]
  | x :: l' =>
      if x =? c then [] :: split_on c l'
      else match split_on c l' with p :: ps => (x :: p) :: ps | [] => [[x]] end
  end.
Definition elements (path : list Z) : list (list Z) := filter (λ e, e ≠ []) (split_on SLASH path).

(** The string in an array of bytes. *)
Fixpoint upto_nul (l : list Z) : list Z :=
  match l with [] => [] | c :: l' => if c =? 0 then [] else c :: upto_nul l' end.

Definition no_nul (l : list Z) : Prop := Forall (λ c, c ≠ 0) l.

Lemma split_on_app e rest : Forall (λ c, c ≠ SLASH) e → split_on SLASH (e ++ SLASH :: rest) = e :: split_on SLASH rest.
Proof.
  induction 1 as [|c e Hc He IH]; cbn [split_on app]; [done|]. by rewrite (proj2 (Z.eqb_neq _ _)), IH.
Qed.
Lemma split_on_one e : Forall (λ c, c ≠ SLASH) e → split_on SLASH e = [e].
Proof. induction 1 as [|c e Hc He IH]; cbn; [done|]. by rewrite (proj2 (Z.eqb_neq _ _)), IH. Qed.

Lemma elements_slash p : elements (SLASH :: p) = elements p.
Proof. done. Qed.
Lemma elements_skip p : elements (skip_slashes p) = elements p.
Proof.
  induction p as [|c p IH]; cbn [skip_slashes]; [done|]. destruct (Z.eqb_spec c SLASH) as [->|]; [|done]. by rewrite elements_slash.
Qed.
Lemma skip_head p c q : skip_slashes p = c :: q → c ≠ SLASH.
Proof. induction p as [|x p IH]; cbn; [done|]. destruct (Z.eqb_spec x SLASH); [done|]. by intros [= <- _]. Qed.
Lemma skip_suffix p : skip_slashes p `suffix_of` p.
Proof. induction p as [|c p IH]; cbn; [done|]. case_match; [by apply suffix_cons_r|done]. Qed.

(** The first element of a path that starts with one. *)
Lemma elem_split p :
  p = take (elem_len p) p ++ drop (elem_len p) p ∧ Forall (λ c, c ≠ SLASH) (take (elem_len p) p) ∧
  length (take (elem_len p) p) = elem_len p ∧ (drop (elem_len p) p = [] ∨ ∃ q, drop (elem_len p) p = SLASH :: q).
Proof.
  split; [by rewrite take_drop|]. induction p as [|c p IH]; cbn [elem_len]; [by split_and!; [constructor| |left]|].
  destruct (Z.eqb_spec c SLASH) as [->|Hc]; [split_and!; [constructor|done|right; by exists p]|].
  destruct IH as (H1 & H2 & H3). cbn [take drop length]. split_and!; [by constructor|by rewrite H2|done].
Qed.
Lemma elements_first p :
  (elem_len p ≠ 0)%nat → elements p = take (elem_len p) p :: elements (drop (elem_len p) p).
Proof.
  intros Hn. destruct (elem_split p) as (Hp & Hf & Hl & Hd). set (e := take _ p) in *. set (r := drop _ p) in *.
  assert (He : e ≠ []) by (intros H0; by rewrite H0 in Hl). rewrite Hp. unfold elements. destruct Hd as [->|(q & ->)].
  - by rewrite app_nil_r, (split_on_one e Hf), filter_cons_True.
  - by rewrite (split_on_app e q Hf), filter_cons_True.
Qed.
Lemma elements_nil p : elements p = [] → skip_slashes p = [].
Proof.
  intros H. rewrite <- elements_skip in H. destruct (skip_slashes p) as [|c q] eqn:Hs; [done|].
  rewrite elements_first in H; [done|]. apply skip_head in Hs. cbn. by rewrite (proj2 (Z.eqb_neq _ _)).
Qed.

(** ** The name array *)

Lemma upto_nul_full l : no_nul l → upto_nul l = l.
Proof. induction 1 as [|c l Hc _ IH]; cbn; [done|]. by rewrite (proj2 (Z.eqb_neq _ _)), IH. Qed.
Lemma upto_nul_stop l r : no_nul l → upto_nul (l ++ 0 :: r) = l.
Proof. induction 1 as [|c l Hc _ IH]; cbn; [done|]. by rewrite (proj2 (Z.eqb_neq _ _)), IH. Qed.

(** [name] after [skipelem] has copied [e] into it. *)
Lemma copy_name e s name :
  no_nul e → length name = DIRSIZ → e `prefix_of` s →
  let name' := if (DIRSIZ <=? length e)%nat then put_at name 0 (take DIRSIZ s)
               else put_at (put_at name 0 (take (length e) s)) (length e) [0] in
  upto_nul name' = take DIRSIZ e ∧ length name' = DIRSIZ.
Proof.
  intros He Hn [r ->]. cbn zeta. destruct (Nat.leb_spec DIRSIZ (length e)) as [Hle|Hlt].
  - unfold put_at. rewrite take_0, app_nil_l, Nat.add_0_l, take_app_le, drop_ge, app_nil_r by (rewrite ?length_take; lia).
    split; [apply upto_nul_full; by apply Forall_take|rewrite length_take; lia].
  - rewrite (take_app_length e r), (take_ge e) by lia. unfold put_at. rewrite take_0, app_nil_l, Nat.add_0_l.
    rewrite take_app_length. split; [by apply upto_nul_stop|]. repeat first [rewrite length_app|rewrite length_drop]. cbn [length]. lia.
Qed.

(** One step along a path. *)
Lemma skipelem_step path name :
  no_nul path → length name = DIRSIZ →
  match skipelem path name with
  | None => elements path = []
  | Some (rest, name') => ∃ e es, elements path = e :: es ∧ elements rest = es ∧ upto_nul name' = take DIRSIZ e ∧ length name' = DIRSIZ ∧
      (rest = [] ↔ es = []) ∧ no_nul rest ∧ no_nul e ∧ (length rest < length path)%nat
  end.
Proof.
  intros Hp Hn. unfold skipelem. rewrite <- (elements_skip path). destruct (skip_suffix path) as [pre Hpre].
  destruct (skip_slashes path) as [|c q] eqn:Hs; [done|]. pose proof (skip_head _ _ _ Hs) as Hc. set (p := c :: q) in *.
  assert (Hlen : (elem_len p ≠ 0)%nat) by (unfold p; cbn; by rewrite (proj2 (Z.eqb_neq _ _))).
  assert (Hp' : no_nul p) by (rewrite Hpre in Hp; by apply Forall_app in Hp as [_ ?]).
  destruct (elem_split p) as (Heq & Hf & Hl & _). destruct (copy_name (take (elem_len p) p) p name) as [Hu Hln];
    [by apply Forall_take|done|by exists (drop (elem_len p) p)|]. rewrite Hl in Hu, Hln.
  exists (take (elem_len p) p), (elements (drop (elem_len p) p)). split_and!; [by apply elements_first|apply elements_skip|exact Hu|exact Hln| | | |].
  - split; [intros Hr; by rewrite <- elements_skip, Hr|apply elements_nil].
  - destruct (skip_suffix (drop (elem_len p) p)) as [x Hx]. apply (Forall_drop _ (elem_len p)) in Hp'. rewrite Hx in Hp'.
    by apply Forall_app in Hp' as [_ ?].
  - by apply Forall_take.
  - pose proof (suffix_length _ _ (skip_suffix (drop (elem_len p) p))) as H1. rewrite length_drop in H1.
    rewrite Hpre, length_app. unfold p in *. cbn [length] in *. lia.
Qed.

(** ** Comparing and copying names *)

Lemma head_name n (s : list Z) : default 0 (head s) = default 0 (head (take (S n) (upto_nul s))).
Proof. destruct s as [|c s]; cbn; [done|]. by destruct (Z.eqb_spec c 0). Qed.

Lemma str_ncmp_zero s t n : str_ncmp s t n = 0 ↔ take n (upto_nul s) = take n (upto_nul t).
Proof.
  revert s t. induction n as [|n IH]; intros s t; [done|]. cbn [str_ncmp].
  destruct s as [|c s], t as [|d t]; cbn [head default from_option id tail upto_nul].
  - done.
  - destruct (Z.eqb_spec d 0) as [->|Hd]; [done|]. cbn. split; [lia|done].
  - destruct (Z.eqb_spec c 0) as [->|Hc]; [done|]. cbn. split; [lia|done].
  - destruct (Z.eqb_spec c 0) as [->|Hc], (Z.eqb_spec d 0) as [->|Hd]; cbn [negb andb]; [done| | |].
    + cbn. split; [lia|done].
    + rewrite (proj2 (Z.eqb_neq c 0)) by done. cbn. split; [lia|done].
    + destruct (Z.eqb_spec c d) as [->|Hne]; cbn [take].
      * rewrite IH. split; [by intros ->|by intros [= ->]].
      * split; [lia|by intros [= ? _]].
Qed.

(** A comparison sees a name only up to its first NUL or its [n]th byte. *)
Lemma str_ncmp_name s s' t n : take n (upto_nul s) = take n (upto_nul s') → str_ncmp s t n = str_ncmp s' t n.
Proof.
  revert s s' t. induction n as [|n IH]; intros s s' t Hs; [done|]. cbn [str_ncmp].
  assert (Hh : default 0 (head s) = default 0 (head s')) by (by rewrite (head_name n s), (head_name n s'), Hs).
  rewrite <- Hh. destruct (Z.eqb_spec (default 0 (head s)) 0) as [|Hn]; [done|]. cbn [negb andb].
  destruct (_ =? _); [|done]. apply IH. destruct s as [|c s], s' as [|c' s']; cbn in *; try congruence.
  subst c'. rewrite (proj2 (Z.eqb_neq c 0)) in Hs by done. cbn in Hs. congruence.
Qed.

Lemma str_ncpy_name t n : no_nul t → upto_nul (str_ncpy t n) = take n t ∧ length (str_ncpy t n) = n.
Proof.
  intros Ht. revert n. induction Ht as [|c t Hc _ IH]; intros [|n]; cbn [str_ncpy take]; [done| |done|].
  - split; [done|by rewrite length_replicate].
  - rewrite (proj2 (Z.eqb_neq c 0)) by done. cbn. rewrite (proj2 (Z.eqb_neq c 0)) by done. destruct (IH n) as [-> ->]. done.
Qed.

(** The entry [dirlink] writes is found under its name, and under no name that
    differs from it in the first [DIRSIZ] bytes. *)
Lemma dirent_found name name' inum :
  no_nul name → no_nul name' →
  namecmp name' (de_name (dirent inum (str_ncpy name DIRSIZ))) = 0 ↔ take DIRSIZ name' = take DIRSIZ name.
Proof.
  intros Hn Hn'. destruct (str_ncpy_name name DIRSIZ Hn) as [Hu Hl]. unfold namecmp, de_name, dirent.
  rewrite drop_app_length', (take_ge (str_ncpy _ _)) by (rewrite ?length_le_bytes; lia || done).
  rewrite str_ncmp_zero, Hu, upto_nul_full by done. by rewrite take_take, Nat.min_id.
Qed.

(** ** Following a path *)

Section Walk.
Context `{KernelImage} `{Disk} (sleeps : nat).

(** The directory a path starts in. *)
Definition path_start (path : list Z) : M nat :=
  if decide (head path = Some SLASH) then iget ROOTDEV ROOTINO else i ← curproc; p ← getp i; w ← need (p_cwd p); idup w.

(** From directory [ip] along the elements [es]; to the last but one for the
    parent. *)
Fixpoint walk_path (es : list (list Z)) (ip : nat) (parent : bool) : M (option (nat * list Z)) :=
  match es with
  | [] => if parent then iput_ sleeps ip;; mret None else mret (Some (ip, []))
  | e :: es' =>
      ilock sleeps ip;;
      x ← geti ip;
      if negb (i_type x =? T_DIR) then iunlockput sleeps ip;; mret None else
      if parent && bool_decide (es' = []) then iunlock ip;; mret (Some (ip, take DIRSIZ e)) else
      o ← dirlookup sleeps ip e;
      match o with
      | None => iunlockput sleeps ip;; mret None
      | Some (next, _) => iunlockput sleeps ip;; walk_path es' next parent
      end
  end.

(** The result of [namex]: the name is that of the last element when the
    parent was asked for, and of no interest otherwise. *)
Definition found (parent : bool) (r : option (nat * list Z)) : option (nat * list Z) :=
  (λ x, (x.1, if parent then upto_nul x.2 else [])) <$> r.

Lemma dirlookup_name k name name' :
  take DIRSIZ (upto_nul name) = take DIRSIZ (upto_nul name') → dirlookup sleeps k name ≡ dirlookup sleeps k name'.
Proof.
  intros Hn. unfold dirlookup. apply bind_cong_r. intros dp. destruct (negb _); [done|].
  generalize 0 as off. induction (S _) as [|fuel IH]; intros off; cbn [dirlookup_loop]; [done|].
  apply bind_cong_r. intros dp'. destruct (off <? i_size dp'); [|done]. apply bind_cong_r. intros de.
  destruct (de_inum de =? 0); [apply IH|]. unfold namecmp. rewrite (str_ncmp_name name name') by done.
  destruct (_ =? 0); [done|apply IH].
Qed.

Lemma namex_loop_walk fuel ip path parent name :
  no_nul path → length name = DIRSIZ → (length path ≤ fuel)%nat →
  (r ← namex_loop sleeps fuel ip path parent name; mret (found parent r)) ≡ walk_path (elements path) ip parent.
Proof.
  revert ip path name. induction fuel as [|fuel IH]; intros ip path name Hp Hn Hf; pose proof (skipelem_step path name Hp Hn) as Hs;
    cbn [namex_loop]; (destruct (skipelem path name) as [[rest name']|]; [|rewrite Hs; destruct parent; [etransitivity; [apply bind_assoc|done]|done]]).
  - destruct Hs as (e & es & _ & _ & _ & _ & _ & _ & _ & Hlt). lia.
  - destruct Hs as (e & es & He & Hr & Hu & Hl & Hlast & Hr0 & He0 & Hlt). rewrite He. cbn [walk_path].
    etransitivity; [apply bind_assoc|apply bind_cong_r; intros []].
    etransitivity; [apply bind_assoc|apply bind_cong_r; intros x].
    destruct (negb _); [etransitivity; [apply bind_assoc|done]|].
    replace (bool_decide (rest = [])) with (bool_decide (es = [])) by (apply bool_decide_ext; tauto).
    destruct (parent && bool_decide (es = [])) eqn:Hpar.
    { etransitivity; [apply bind_assoc|]. apply bind_cong_r. intros []. apply andb_true_iff in Hpar as [-> _].
      etransitivity; [apply bind_ret_l|]. unfold found. cbn [fmap option_fmap option_map fst snd]. by rewrite Hu. }
    etransitivity; [apply bind_assoc|]. apply bind_cong; [apply dirlookup_name|intros [[next off]|]].
    + by rewrite Hu, upto_nul_full, take_take, Nat.min_id.
    + etransitivity; [apply bind_assoc|]. apply bind_cong_r. intros []. subst es. apply IH; [done|done|lia].
    + etransitivity; [apply bind_assoc|done].
Qed.

(** C10: [namex] follows the elements of its path, the parts between slashes
    that are not empty, one directory after the other: it ends on every path,
    however long and with however many slashes, and behaves as the walk along
    the list of elements, on every branch and in the states in which it gives
    the processor up.  An element longer than [DIRSIZ] bytes counts with its first
    [DIRSIZ], and what the array [name] held before does not matter. *)
Theorem namex_follows_elements (path name : list Z) (parent : bool)
  (Hpath : Forall (λ c, c ≠ 0) path) (Hname : length name = DIRSIZ) :
  (r ← namex sleeps path parent name; mret (found parent r)) ≡ (ip ← path_start path; walk_path (elements path) ip parent).
Proof.
  unfold namex. etransitivity; [apply bind_assoc|]. apply bind_cong; [|intros ip; by apply namex_loop_walk].
  unfold path_start. destruct path as [|c p]; [done|]. cbn [head]. destruct (Z.eqb_spec c SLASH) as [->|Hc]; [done|].
  by rewrite decide_False by congruence.
Qed.
End Walk.

(** The path [//usr/bin/] has two elements. *)
Definition path_sample : list Z := [47; 47; 117; 115; 114; 47; 98; 105; 110; 47].
Lemma namex_follows_elements_witness :
  (r ← @namex sample_image polled_disk 0 path_sample true (replicate DIRSIZ 7); mret (found true r))
    ≡ (ip ← @iget ROOTDEV ROOTINO; @walk_path sample_image polled_disk 0 [[117; 115; 114]; [98; 105; 110]] ip true).
Proof.
  refine (@namex_follows_elements sample_image polled_disk 0 path_sample (replicate DIRSIZ 7) true _ _).
  - repeat constructor; discriminate.
  - reflexivity.
Defined.
