(* ===== verification/FileTx.v ===== *)
(** * Transactions with the inode table

    [ftx]: the state of a process inside a transaction, as [in_tx], with the
    inode table [T].  The rules of this file are those the code of inode
    contents needs; the allocator gives a fresh zeroed block or finds the disk
    full. *)

From S2P Require Import Prelude CString Kernel KLogic Spinlock KMem Kalloc Vm VmSpec VmUser Proc ProcSpec Pipe Fork Bio BioSpec CacheSpec Log LogSpec Crash TxView Tx Fs FsSpec.
Open Scope Z_scope.
Open Scope os_scope.

(** ** The inode table *)

Lemma after_itable s f s' : after s f s' → itable s' = itable s.
Proof. intros (P & _ & Heq). exact (keq_itable _ _ Heq). Qed.
Lemma after_set_itable T s f s' : after s f s' → after (set_itable T s) f (set_itable T s').
Proof. intros (P & HP & Heq). exists P. split; [exact HP|]. by rewrite Heq. Qed.
Lemma idle_set_itable me pid T s : idle me pid s → idle me pid (set_itable T s).
Proof. by intros [H1 H2 H3 H4 H5]. Qed.

(** The locks of the log and of the inode table are free. *)
Definition fs_free (s : KState) : Prop := lock_free s Llog ∧ lock_free s Litable.

Section FileTx.
Context {IMG : KernelImage} {D : Disk} {DL : DiskLaw D} (sleeps : nat) (me : nat) (pid dv : Z) (sb : SuperBlock).
Hypothesis Hdv : 0 ≤ dv < 2 ^ 31.

Record ftx (L0 : LogState) (d : list (Z * list Z)) (ks : gset Z) (cur : Z → list Z) (H : gmap Z nat) (T : list Inode) (s : KState) : Prop :=
  { ft_base : ∃ s0, idle me pid s0 ∧ fs_free s0 ∧ fs_sb (fs s0) = sb ∧ itable s0 = T ∧ in_tx pid dv (sb_logstart sb) s0 L0 d ks cur H s }.

Lemma ftx_itable L0 d ks cur H T s : ftx L0 d ks cur H T s → itable s = T.
Proof. intros [(s0 & _ & _ & _ & <- & [blks A L Hc _ _ _ _ _ _])]. eapply after_itable. apply Hc. Qed.
Lemma ftx_clean L0 d ks cur H T s b : ftx L0 d ks cur H T s → H !! b = None → b ∈ ks ∨ cur b = block d b.
Proof. intros [(s0 & _ & _ & _ & _ & Ht)]. by eapply tx_clean. Qed.

Lemma wp_f_getsb E L0 d ks cur H T s (Q : SuperBlock → KState → Prop) : ftx L0 d ks cur H T s → Q sb s → wp E getsb Q s.
Proof. intros [(s0 & _ & _ & Hs & _ & Ht)] HQ. by eapply wp_getsb. Qed.

Lemma wp_f_geti E L0 d ks cur H T k ip s (Q : Inode → KState → Prop) :
  ftx L0 d ks cur H T s → T !! k = Some ip → Q ip s → wp E (geti k) Q s.
Proof. intros Ht Hk HQ. unfold geti. apply wp_bind, wp_gets. rewrite (ftx_itable _ _ _ _ _ _ _ Ht), Hk. by apply wp_ret. Qed.

Lemma wp_f_puti E L0 d ks cur H T k f ip s (Q : unit → KState → Prop) :
  ftx L0 d ks cur H T s → T !! k = Some ip → (∀ s', ftx L0 d ks cur H (<[k := f ip]> T) s' → Q tt s') → wp E (puti k f) Q s.
Proof.
  intros Ht Hk HQ. unfold puti. apply wp_bind. eapply wp_f_geti; [exact Ht|exact Hk|]. apply wp_modify, HQ.
  rewrite (ftx_itable _ _ _ _ _ _ _ Ht). destruct Ht as [(s0 & Hid & Hl & Hs & HT & [blks A L [H1 H2 H3 H4 H5] HL Ho Hcm Hnd Hks Hsl])].
  split. exists (set_itable (<[k := f ip]> T) s0). split_and!; [by apply idle_set_itable|done|done|done|].
  exists blks A L; [|done..]. split; [by apply after_set_itable|done..].
Qed.

Lemma wp_f_bread E L0 d ks cur H T b s (Q : nat → KState → Prop) :
  ftx L0 d ks cur H T s → H !! b = None → (size ks + size H < NBUF)%nat →
  (∀ i s', ftx L0 d ks cur (<[b := i]> H) T s' → Q i s') → wp E (bread sleeps dv b) Q s.
Proof.
  intros [(s0 & Hid & Hl & Hs & HT & Ht)] Hb Hn HQ. eapply (wp_tx_bread sleeps me pid dv _ s0 Hid (proj1 Hl)); [exact Ht|done|done|].
  intros i s' Ht'. apply HQ. split. by exists s0.
Qed.
Lemma wp_f_getb E L0 d ks cur H T b i s (Q : Buf → KState → Prop) :
  ftx L0 d ks cur H T s → H !! b = Some i → (∀ x, b_data x = cur b → Q x s) → wp E (getb i) Q s.
Proof. intros [(s0 & _ & _ & _ & _ & Ht)] Hb HQ. eapply wp_tx_getb; [exact Ht|exact Hb|exact HQ]. Qed.
Lemma wp_f_fill E L0 d ks cur H T b i v s (Q : unit → KState → Prop) :
  ftx L0 d ks cur H T s → H !! b = Some i → (∀ s', ftx L0 d ks (upd b v cur) H T s' → Q tt s') → wp E (putb i (with_data v)) Q s.
Proof.
  intros [(s0 & Hid & Hl & Hs & HT & Ht)] Hb HQ. eapply wp_tx_fill; [exact Ht|exact Hb|]. intros s' Ht'. apply HQ. split. by exists s0.
Qed.
Lemma wp_f_change E L0 d ks cur H T b i g s (Q : unit → KState → Prop) :
  ftx L0 d ks cur H T s → H !! b = Some i → (∀ s', ftx L0 d ks (upd b (g (cur b)) cur) H T s' → Q tt s') →
  wp E (putb i (λ x, with_data (g (b_data x)) x)) Q s.
Proof.
  intros [(s0 & Hid & Hl & Hs & HT & Ht)] Hb HQ. eapply wp_tx_change; [exact Ht|exact Hb|]. intros s' Ht'. apply HQ. split. by exists s0.
Qed.
Lemma wp_f_log_write E L0 d ks cur H T b i s (Q : unit → KState → Prop) :
  ftx L0 d ks cur H T s → H !! b = Some i → (size ks < LOGBLOCKS)%nat → 1 ≤ l_outstanding L0 → is_home (sb_logstart sb) b → 0 ≤ b < 2 ^ 31 →
  (∀ s', ftx L0 d ({[b]} ∪ ks) cur H T s' → Q tt s') → wp E (log_write i) Q s.
Proof.
  intros [(s0 & Hid & Hl & Hs & HT & Ht)] Hb Hn Ho Hh Hr HQ.
  eapply (wp_tx_log_write me pid dv _ s0 Hid (proj1 Hl)); [exact Ht|exact Hb|done|done|done|done|]. intros s' Ht'. apply HQ. split. by exists s0.
Qed.
Lemma wp_f_brelse E L0 d ks cur H T b i s (Q : unit → KState → Prop) :
  ftx L0 d ks cur H T s → H !! b = Some i → b ∈ ks ∨ cur b = block d b →
  (∀ s', ftx L0 d ks cur (delete b H) T s' → Q tt s') → wp E (brelse i) Q s.
Proof.
  intros [(s0 & Hid & Hl & Hs & HT & Ht)] Hb Hor HQ. eapply (wp_tx_brelse me pid dv _ s0 Hid); [exact Ht|exact Hb|done|].
  intros s' Ht'. apply HQ. split. by exists s0.
Qed.

(** ** Allocation *)

Definition in_bitmap (x : Z) : Prop := ∃ y, 0 ≤ y < sb_size sb ∧ x = BBLOCK y sb.
Definition full (cur : Z → list Z) : Prop := ∀ x, 0 ≤ x < sb_size sb → used cur sb x = true.

(** [cur'] is [cur] with the fresh block [r]. *)
Record fresh_block (cur : Z → list Z) (r : Z) (cur' : Z → list Z) : Prop := {
  fb_free : used cur sb r = false;
  fb_data : data_block sb r;
  fb_zero : cur' r = replicate BSIZE 0;
  fb_frame : ∀ x, x ≠ r → ¬ in_bitmap x → cur' x = cur x;
  fb_used : ∀ x, 0 ≤ x < sb_size sb → used cur' sb x = mark r true (used cur sb) x;
  fb_ok : bitmap_ok cur' sb
}.

Lemma wp_f_balloc E L0 d ks cur H T s (Q : Z → KState → Prop) :
  ftx L0 d ks cur H T s → bitmap_ok cur sb → held_ok sb cur H → room 2 ks H → 1 ≤ l_outstanding L0 →
  (∀ s', full cur → ftx L0 d ks cur H T s' → Q 0 s') →
  (∀ r ks' cur' s', fresh_block cur r cur' → r ≠ 0 → ks ⊆ ks' → r ∈ ks' → (size ks' ≤ 2 + size ks)%nat → ftx L0 d ks' cur' H T s' → Q r s') →
  wp E (balloc sleeps dv) Q s.
Proof.
  intros [(s0 & Hid & Hl & Hs & HT & Ht)] Hok Hh Hr Ho HQ0 HQ1.
  eapply (wp_balloc sleeps me pid dv sb s0 Hid (proj1 Hl) Hs Hdv); [exact Ht|done|done|done|done| |].
  - intros s' Hall Ht'. apply HQ0; [exact Hall|]. split. by exists s0.
  - intros r d' s' Hr' Hu _ Hd' Ht'. destruct (bm_free _ _ Hok r Hr' Hu) as (Hpos & Hhome & Hnb).
    destruct (bitmap_mark cur sb r d' true Hok Hr' Hd') as [Hok1 Hu1]; [done|].
    destruct (bitmap_other _ sb r (replicate BSIZE 0) Hok1 Hnb) as [Hok2 Hu2].
    eapply HQ1; [|lia| | | |split; exists s0; split_and!; [exact Hid|exact Hl|exact Hs|exact HT|exact Ht']].
    + split; [exact Hu|split_and!; [lia|lia|done|done]|apply upd_eq| |intros x Hx; by rewrite Hu2, Hu1|exact Hok2].
      intros x Hx Hb. rewrite !upd_ne; [done| |done]. intros ->. apply Hb. by exists r.
    + intros x Hx. by apply elem_of_union_r, elem_of_union_r.
    + apply in_add.
    + pose proof (size_add r ({[BBLOCK r sb]} ∪ ks)). pose proof (size_add (BBLOCK r sb) ks). lia.
Qed.
End FileTx.
