(* ===== verification/FileSpec.v ===== *)
(** * The blocks of a file

    The addresses of a file, the invariant of a file on the disk, and [bmap]:
    it finds the block of a file or extends the file by a fresh zeroed one. *)

From S2P Require Import Prelude CString Kernel KLogic Spinlock KMem Kalloc Vm VmSpec VmUser Proc ProcSpec Pipe Fork Bio BioSpec CacheSpec Log LogSpec Crash TxView Tx Fs FsSpec FileTx.
Open Scope Z_scope.
Open Scope os_scope.

(** ** Addresses *)

(** The address of block [i] of the file, and of the indirect block for
    [i = MAXFILE]; 0 when there is none. *)
Definition indirect (ip : Inode) : Z := default 0 (i_addrs ip !! NDIRECT).
Definition slot (cur : Z → list Z) (ip : Inode) (i : nat) : Z :=
  if decide (i < NDIRECT)%nat then default 0 (i_addrs ip !! i)
  else if decide (i = MAXFILE) then indirect ip
  else if decide (indirect ip = 0) then 0
  else get32 (cur (indirect ip)) (4 * (i - NDIRECT)).

(** The fields of an inode fit those of [struct dinode]. *)
Definition is_short (v : Z) : Prop := - 2 ^ 15 ≤ v < 2 ^ 15.

Section File.
Context (dv : Z) (sb : SuperBlock).

(** A block that may belong to a file. *)
Record owned (cur : Z → list Z) (ip : Inode) (a : Z) : Prop := {
  ow_data : data_block sb a;
  ow_used : used cur sb a = true;
  ow_inode : a ≠ IBLOCK (i_inum ip) sb;
  ow_len : length (cur a) = BSIZE
}.

Record file_ok (cur : Z → list Z) (ip : Inode) : Prop := {
  fo_dev : i_dev ip = dv;
  fo_short : is_short (i_type ip) ∧ is_short (i_major ip) ∧ is_short (i_minor ip) ∧ is_short (i_nlink ip);
  fo_addrs : length (i_addrs ip) = S NDIRECT;
  fo_size : 0 ≤ i_size ip ≤ Z.of_nat (MAXFILE * BSIZE);
  fo_inode : data_block sb (IBLOCK (i_inum ip) sb) ∧ used cur sb (IBLOCK (i_inum ip) sb) = true ∧
             length (cur (IBLOCK (i_inum ip) sb)) = BSIZE;
  fo_own : ∀ i, (i ≤ MAXFILE)%nat → slot cur ip i ≠ 0 → owned cur ip (slot cur ip i);
  fo_inj : ∀ i j, (i ≤ MAXFILE)%nat → (j ≤ MAXFILE)%nat → slot cur ip i ≠ 0 → slot cur ip i = slot cur ip j → i = j;
  fo_full : ∀ i, (i < MAXFILE)%nat → Z.of_nat (i * BSIZE) < i_size ip → slot cur ip i ≠ 0
}.

Lemma slot_max cur ip : slot cur ip MAXFILE = indirect ip.
Proof. reflexivity. Qed.
Lemma slot_direct cur ip i : (i < NDIRECT)%nat → slot cur ip i = default 0 (i_addrs ip !! i).
Proof. intros H. unfold slot. by rewrite decide_True. Qed.
Lemma slot_ind cur ip i :
  (NDIRECT ≤ i)%nat → (i < MAXFILE)%nat → slot cur ip i = if decide (indirect ip = 0) then 0 else get32 (cur (indirect ip)) (4 * (i - NDIRECT)).
Proof. intros H1 H2. unfold slot. by rewrite decide_False, decide_False by lia. Qed.

(** The addresses depend on the inode and the indirect block only. *)
Lemma slot_frame cur cur' ip i : cur' (indirect ip) = cur (indirect ip) → slot cur' ip i = slot cur ip i.
Proof. intros H. unfold slot. by rewrite H. Qed.

(** ** Extending a file *)

(** One empty slot gets a fresh block. *)
Lemma file_grow cur ip cur1 r cur' ip' i :
  file_ok cur ip → fresh_block sb cur r cur1 → (i ≤ MAXFILE)%nat → slot cur ip i = 0 →
  (∀ x, x ≠ indirect ip → cur' x = cur1 x) → length (cur' (indirect ip)) = length (cur1 (indirect ip)) →
  (¬ in_bitmap sb (indirect ip)) →
  ip' = with_addrs (i_addrs ip') ip → length (i_addrs ip') = S NDIRECT →
  (∀ j, (j ≤ MAXFILE)%nat → slot cur' ip' j = if decide (j = i) then r else slot cur ip j) →
  file_ok cur' ip' ∧ bitmap_ok cur' sb ∧ ∀ x, 0 ≤ x < sb_size sb → used cur' sb x = mark r true (used cur sb) x.
Proof.
  intros [H1 H2 H3 H4 (H5a & H5b & H5c) H6 H7 H8] [F1 F2 F3 F4 F5 F6] Hi H0 Hc Hlen Hnb Hip Hla Hslot.
  assert (Hbit : ∀ x, 0 ≤ x < sb_size sb → cur' (BBLOCK x sb) = cur1 (BBLOCK x sb)).
  { intros x Hx. apply Hc. intros Heq. apply Hnb. by exists x. }
  assert (Hu : ∀ x, 0 ≤ x < sb_size sb → used cur' sb x = mark r true (used cur sb) x).
  { intros x Hx. unfold used at 1. rewrite Hbit by done. by apply F5. }
  assert (Hr : ∀ j, (j ≤ MAXFILE)%nat → slot cur ip j ≠ r).
  { intros j Hj Heq. assert (slot cur ip j ≠ 0) by (rewrite Heq; destruct F2; lia). destruct (H6 j Hj) as [_ Hus _ _]; [done|]. congruence. }
  assert (Hkeep : ∀ a, data_block sb a → used cur sb a = true → length (cur a) = BSIZE → used cur' sb a = true ∧ length (cur' a) = BSIZE).
  { intros a Ha Hua Hl. split; [rewrite Hu by (destruct Ha; lia); unfold mark; by case_decide|].
    assert (Hl1 : length (cur1 a) = BSIZE).
    { rewrite F4; [done|intros ->; congruence|]. intros (y & Hy & ->). destruct Ha as (_ & _ & Hn). by apply (Hn y). }
    destruct (decide (a = indirect ip)) as [->|Hne]; [by rewrite Hlen|by rewrite Hc]. }
  assert (Hinum : i_inum ip' = i_inum ip) by (by rewrite Hip).
  split_and!; [|destruct F6; split; try done|exact Hu].
  - split; rewrite ?Hinum; try (rewrite Hip; done).
    + destruct (Hkeep _ H5a H5b H5c). done.
    + intros j Hj Hj0. rewrite Hslot in Hj0 |- * by done. destruct (decide (j = i)) as [->|Hne].
      * split; [done|rewrite Hu by (destruct F2; lia); unfold mark; by rewrite decide_True|rewrite Hinum; intros Heq; congruence|].
        destruct (decide (r = indirect ip)) as [->|Hrn]; [rewrite Hlen|rewrite Hc by done]; by rewrite F3, length_replicate.
      * destruct (H6 j Hj Hj0) as [O1 O2 O3 O4]. destruct (Hkeep _ O1 O2 O4). split; [done|done|by rewrite Hinum|done].
    + intros j j' Hj Hj' Hj0. rewrite !Hslot in * by done. destruct (decide (j = i)) as [->|], (decide (j' = i)) as [->|]; intros Heq; [done| | |].
      * exfalso. by apply (Hr j' Hj').
      * exfalso. by apply (Hr j Hj).
      * by apply H7.
    + intros j Hj Hjs. rewrite Hslot by lia. case_decide; [destruct F2; lia|]. apply H8; [done|]. by rewrite Hip in Hjs.
  - intros b Hb. rewrite Hbit by done. auto.
  - intros b Hb Hf. apply bm_free; [done|]. unfold used in *. by rewrite Hbit in Hf by done.
Qed.

(** The new addresses, for each of the three places an address is stored in. *)
Lemma slots_direct cur cur' ip i r :
  (i < NDIRECT)%nat → length (i_addrs ip) = S NDIRECT → cur' (indirect ip) = cur (indirect ip) →
  ∀ j, slot cur' (with_addrs (<[i := r]> (i_addrs ip)) ip) j = if decide (j = i) then r else slot cur ip j.
Proof.
  intros Hi Hl Hc j. assert (Hind : indirect (with_addrs (<[i := r]> (i_addrs ip)) ip) = indirect ip).
  { unfold indirect. cbn [i_addrs with_addrs]. by rewrite list_lookup_insert_ne by lia. }
  unfold slot. rewrite Hind, Hc. cbn [i_addrs with_addrs]. destruct (decide (j = i)) as [->|Hne].
  - by rewrite decide_True, list_lookup_insert_eq by lia.
  - by rewrite list_lookup_insert_ne by done.
Qed.
Lemma get32_zeros n off : get32 (replicate n 0) off = 0.
Proof.
  unfold get32. rewrite drop_replicate, take_replicate. generalize (4 `min` (n - off))%nat. intros m. induction m as [|m IH]; cbn; lia.
Qed.
Lemma slots_indirect cur cur' ip r :
  indirect ip = 0 → r ≠ 0 → length (i_addrs ip) = S NDIRECT → cur' r = replicate BSIZE 0 →
  ∀ j, (j ≤ MAXFILE)%nat → slot cur' (with_addrs (<[NDIRECT := r]> (i_addrs ip)) ip) j = if decide (j = MAXFILE) then r else slot cur ip j.
Proof.
  intros H0 Hr Hl Hc j Hj. assert (Hind : indirect (with_addrs (<[NDIRECT := r]> (i_addrs ip)) ip) = r).
  { unfold indirect. cbn [i_addrs with_addrs]. by rewrite list_lookup_insert_eq by lia. }
  unfold slot. rewrite Hind, H0. cbn [i_addrs with_addrs]. destruct (decide (j < NDIRECT)%nat) as [Hlt|].
  - rewrite list_lookup_insert_ne by lia. rewrite decide_False; [done|]. unfold MAXFILE. lia.
  - destruct (decide (j = MAXFILE)); [done|]. rewrite decide_False, decide_True by done. by rewrite Hc, get32_zeros.
Qed.
Lemma slots_entry cur cur1 ip i r :
  (NDIRECT ≤ i)%nat → (i < MAXFILE)%nat → indirect ip ≠ 0 → length (cur (indirect ip)) = BSIZE → 0 ≤ r < 2 ^ 32 →
  cur1 (indirect ip) = cur (indirect ip) →
  ∀ j, (j ≤ MAXFILE)%nat →
  slot (upd (indirect ip) (put32 (cur1 (indirect ip)) (4 * (i - NDIRECT)) r) cur1) ip j = if decide (j = i) then r else slot cur ip j.
Proof.
  intros H1 H2 H0 Hl Hr Hc j Hj. unfold slot. rewrite upd_eq, Hc.
  assert (Hfit : (4 * (i - NDIRECT) + 4 ≤ length (cur (indirect ip)))%nat) by (rewrite Hl; unfold BSIZE, MAXFILE, NDIRECT, NINDIRECT in *; lia).
  destruct (decide (j < NDIRECT)%nat) as [Hlt|]; [by rewrite decide_False by lia|].
  destruct (decide (j = MAXFILE)) as [->|]; [by rewrite decide_False by lia|].
  destruct (decide (indirect ip = 0)) as [|_]; [done|]. destruct (decide (j = i)) as [->|]; [rewrite get_put32 by done; by apply Z.mod_small|]. apply get_put32_ne; [done|lia].
Qed.

(** [cur'] and [ip'] after block [i] of the file has been looked up or
    allocated at [a]; [a] is 0 when the disk is full. *)
Record grown (cur : Z → list Z) (ip : Inode) (i : nat) (a : Z) (cur' : Z → list Z) (ip' : Inode) : Prop := {
  gr_file : file_ok cur' ip';
  gr_bitmap : bitmap_ok cur' sb;
  gr_same : ip' = with_addrs (i_addrs ip') ip;
  gr_addr : slot cur' ip' i = a;
  gr_rest : ∀ j, (j < MAXFILE)%nat → j ≠ i → slot cur' ip' j = slot cur ip j;
  gr_old : slot cur ip i ≠ 0 → a = slot cur ip i;
  gr_new : slot cur ip i = 0 → a ≠ 0 → cur' a = replicate BSIZE 0 ∧ used cur sb a = false;
  gr_keep : ∀ x, 0 ≤ x < sb_size sb → used cur sb x = true → ¬ in_bitmap sb x → x ≠ indirect ip → cur' x = cur x;
  gr_mono : ∀ x, 0 ≤ x < sb_size sb → used cur sb x = true → used cur' sb x = true;
  gr_zero : a = 0 → full sb cur';
  gr_slots : ∀ j, (j ≤ MAXFILE)%nat → slot cur' ip' j = slot cur ip j ∨ data_block sb (slot cur' ip' j) ∧ used cur sb (slot cur' ip' j) = false
}.

Lemma with_addrs_same ip : with_addrs (i_addrs ip) ip = ip.
Proof. by destruct ip. Qed.
Lemma grown_refl cur ip i : file_ok cur ip → bitmap_ok cur sb → (slot cur ip i = 0 → full sb cur) → grown cur ip i (slot cur ip i) cur ip.
Proof. intros Hf Hb H0. split; try done; [by rewrite with_addrs_same|by left]. Qed.

(** An address that is not that of a bitmap block, or no address. *)
Lemma indirect_not_bitmap cur ip : file_ok cur ip → bitmap_ok cur sb → ¬ in_bitmap sb (indirect ip).
Proof.
  intros Hf Hb (y & Hy & Heq). destruct (decide (indirect ip = 0)) as [H0|Hn0].
  - pose proof (BBLOCK_pos _ _ _ Hb Hy). lia.
  - destruct (fo_own _ _ Hf MAXFILE) as [(_ & _ & Hn) _ _ _]; [done|done|]. by apply (Hn y).
Qed.

(** A fresh block in slot [i]. *)
Lemma grown_fresh cur ip cur1 r cur' ip' i :
  file_ok cur ip → bitmap_ok cur sb → fresh_block sb cur r cur1 → (i ≤ MAXFILE)%nat → slot cur ip i = 0 → r ≠ 0 →
  (∀ x, x ≠ indirect ip → cur' x = cur1 x) → length (cur' (indirect ip)) = length (cur1 (indirect ip)) →
  (r = indirect ip → cur' r = cur1 r) →
  ip' = with_addrs (i_addrs ip') ip → length (i_addrs ip') = S NDIRECT →
  (∀ j, (j ≤ MAXFILE)%nat → slot cur' ip' j = if decide (j = i) then r else slot cur ip j) →
  grown cur ip i r cur' ip'.
Proof.
  intros Hf Hb Hr Hi H0 Hr0 Hc Hl Hcr Hip Hla Hslot. destruct (file_grow cur ip cur1 r cur' ip' i) as (Hf' & Hb' & Hu); try done.
  { by eapply indirect_not_bitmap. }
  destruct Hr as [F1 F2 F3 F4 F5 F6]. split; try done.
  - rewrite Hslot by done. by rewrite decide_True.
  - intros j Hj Hne. rewrite Hslot by lia. by rewrite decide_False.
  - intros _ _. split; [|done]. destruct (decide (r = indirect ip)); [by rewrite Hcr|by rewrite Hc].
  - intros x Hx Hux Hnb Hni. rewrite Hc by done. apply F4; [intros ->; congruence|done].
  - intros x Hx Hux. rewrite Hu by done. unfold mark. by case_decide.
  - intros j Hj. rewrite Hslot by done. case_decide; [by right|by left].
Qed.

(** The indirect block first, then the entry. *)
Lemma grown_entry cur ip b cur1 ip1 i a cur2 ip2 :
  file_ok cur ip → bitmap_ok cur sb → grown cur ip MAXFILE b cur1 ip1 → b ≠ 0 → (i < MAXFILE)%nat → grown cur1 ip1 i a cur2 ip2 → grown cur ip i a cur2 ip2.
Proof.
  intros Hf Hb G1 Hb0 Hi G2. assert (Hsi : slot cur1 ip1 i = slot cur ip i) by (apply (gr_rest _ _ _ _ _ _ G1); lia).
  assert (Hind : indirect ip1 = b) by (by rewrite <- (slot_max cur1 ip1), (gr_addr _ _ _ _ _ _ G1)).
  split; try apply G2.
  - rewrite (gr_same _ _ _ _ _ _ G2), (gr_same _ _ _ _ _ _ G1). done.
  - intros j Hj Hne. rewrite (gr_rest _ _ _ _ _ _ G2) by done. apply (gr_rest _ _ _ _ _ _ G1); lia.
  - rewrite <- Hsi. apply G2.
  - rewrite <- Hsi. intros H0 Ha. destruct (gr_new _ _ _ _ _ _ G2 H0 Ha) as [Hz Hu]. split; [done|].
    destruct (used cur sb a) eqn:Hua; [|done]. rewrite (gr_mono _ _ _ _ _ _ G1) in Hu; [done| |done].
    pose proof (fo_own _ _ (gr_file _ _ _ _ _ _ G2) i ltac:(lia)) as Ho. rewrite (gr_addr _ _ _ _ _ _ G2) in Ho. destruct (Ho Ha) as [(? & _) _ _ _]. lia.
  - intros x Hx Hux Hnb Hni. rewrite (gr_keep _ _ _ _ _ _ G2); [by apply (gr_keep _ _ _ _ _ _ G1)|done|by apply (gr_mono _ _ _ _ _ _ G1)|done|].
    rewrite Hind. intros ->. destruct (decide (slot cur ip MAXFILE = 0)) as [H0|Hn0].
    + destruct (gr_new _ _ _ _ _ _ G1 H0 Hb0). congruence.
    + apply Hni. by apply (gr_old _ _ _ _ _ _ G1).
  - intros x Hx Hux. apply (gr_mono _ _ _ _ _ _ G2); [done|]. by apply (gr_mono _ _ _ _ _ _ G1).
  - intros j Hj. destruct (gr_slots _ _ _ _ _ _ G2 j Hj) as [Heq|[Hd Hu]]; [rewrite Heq; by apply (gr_slots _ _ _ _ _ _ G1)|].
    right. split; [done|]. destruct (used cur sb (slot cur2 ip2 j)) eqn:Hux; [|done].
    rewrite (gr_mono _ _ _ _ _ _ G1) in Hu; [done|destruct Hd; lia|done].
Qed.
Lemma grown_no_indirect cur ip cur1 ip1 i :
  (NDIRECT ≤ i)%nat → (i < MAXFILE)%nat → grown cur ip MAXFILE 0 cur1 ip1 → grown cur ip i 0 cur1 ip1.
Proof.
  intros H1 H2 G. assert (Hind : indirect ip = 0).
  { rewrite <- (slot_max cur ip). destruct (decide (slot cur ip MAXFILE = 0)) as [|Hn]; [done|]. symmetry. exact (gr_old _ _ _ _ _ _ G Hn). }
  assert (H0 : slot cur ip i = 0) by (rewrite slot_ind by done; by rewrite decide_True).
  split; try apply G; try done.
  - rewrite (gr_rest _ _ _ _ _ _ G) by lia. done.
  - intros j Hj _. apply (gr_rest _ _ _ _ _ _ G); lia.
Qed.
End File.

(** ** [bmap] *)

Section Bmap.
Context {IMG : KernelImage} {D : Disk} {DL : DiskLaw D} (sleeps : nat) (me : nat) (pid dv : Z) (sb : SuperBlock).
Hypothesis Hdv : 0 ≤ dv < 2 ^ 31.
#[local] Abbreviation ftx := (ftx me pid dv sb).
#[local] Abbreviation file_ok := (file_ok dv sb).

Lemma held_none cur : held_ok sb cur ∅.
Proof. intros x _. by rewrite !lookup_empty. Qed.
Lemma home_range cur a : bitmap_ok cur sb → data_block sb a → is_home (sb_logstart sb) a ∧ 0 ≤ a < 2 ^ 31.
Proof. intros Hb (Ha & Hh & _). split; [done|]. pose proof (bm_size _ _ Hb). unfold BPB in *. lia. Qed.

(** An entry of [addrs]: number [i], slot [si]. *)
Lemma wp_addr_or_alloc E L0 d ks cur T k ip i si s (Q : Z → KState → Prop) :
  ftx L0 d ks cur ∅ T s → T !! k = Some ip → file_ok cur ip → bitmap_ok cur sb → room 2 ks ∅ → 1 ≤ l_outstanding L0 →
  (i < NDIRECT ∧ si = i ∨ i = NDIRECT ∧ si = MAXFILE)%nat →
  (∀ a ks' cur' ip' s', grown dv sb cur ip si a cur' ip' → (size ks' ≤ 2 + size ks)%nat → ftx L0 d ks' cur' ∅ (<[k := ip']> T) s' → Q a s') →
  wp E (addr_or_alloc sleeps k i) Q s.
Proof.
  intros Ht Hk Hf Hb Hr Ho Hi HQ. pose proof (fo_addrs _ _ _ _ Hf) as Hla.
  assert (Hsi : i_addrs ip !! i = Some (slot cur ip si)).
  { destruct (lookup_lt_is_Some_2 (i_addrs ip) i) as [v Hv]; [lia|]. destruct Hi as [[H1 ->]|[-> ->]].
    - by rewrite slot_direct, Hv.
    - by rewrite slot_max; unfold indirect; rewrite Hv. }
  unfold addr_or_alloc, get_addr. apply wp_bind, wp_bind. eapply wp_f_geti; [exact Ht|exact Hk|]. eapply wp_need; [exact Hsi|].
  assert (Hsame : <[k := ip]> T = T) by (by apply list_insert_id).
  destruct (Z.eqb_spec (slot cur ip si) 0) as [H0|Hn0].
  - apply wp_bind. eapply wp_f_geti; [exact Ht|exact Hk|]. rewrite (fo_dev _ _ _ _ Hf). apply wp_bind.
    eapply (wp_f_balloc sleeps me pid dv sb Hdv); [exact Ht|exact Hb|apply held_none|exact Hr|exact Ho| |].
    + intros s1 Hfull Ht1. apply wp_ret. rewrite <- H0. eapply (HQ _ ks cur ip); [by apply grown_refl|lia|by rewrite Hsame].
    + intros r ks' cur' s1 Hfb Hr0 Hks _ Hsz Ht1. rewrite (proj2 (Z.eqb_neq r 0)) by done. apply wp_bind. unfold set_addr.
      apply wp_bind. eapply wp_f_geti; [exact Ht1|exact Hk|]. apply wp_bind. eapply wp_need; [apply aset_Some; lia|].
      eapply wp_f_puti; [exact Ht1|exact Hk|]. intros s2 Ht2. apply wp_ret. eapply HQ; [|exact Hsz|exact Ht2].
      eapply (grown_fresh dv sb cur ip cur' r cur'); try done.
      * destruct Hi as [[H1 ->]|[-> ->]]; [unfold MAXFILE; lia|done].
      * cbn. by rewrite length_insert.
      * pose proof (indirect_not_bitmap _ _ _ _ Hf Hb) as Hnb.
        destruct Hi as [[H1 ->]|[-> ->]]; [|apply slots_indirect; [exact H0|done|done|apply Hfb]].
        intros j _. apply slots_direct; [done|done|]. apply (fb_frame _ _ _ _ Hfb); [|done].
        intros Heq. destruct (decide (indirect ip = 0)); [congruence|].
        destruct (fo_own _ _ _ _ Hf MAXFILE) as [_ Hu _ _]; [done|done|]. rewrite slot_max, Heq, (fb_free _ _ _ _ Hfb) in Hu. done.
  - apply wp_ret. eapply (HQ _ ks cur ip); [by apply grown_refl|lia|by rewrite Hsame].
Qed.

(** The entry of block [i] in the indirect block [b], which is locked. *)
Lemma held_indirect cur ip i : file_ok cur ip → indirect ip ≠ 0 → held_ok sb cur {[indirect ip := i]}.
Proof.
  intros Hf Hn x Hx. destruct (fo_own _ _ _ _ Hf MAXFILE) as [(_ & _ & Hnb) Hu _ _]; [done|done|]. rewrite slot_max in Hnb, Hu.
  split; [rewrite lookup_singleton_ne; [done|by apply Hnb]|]. intros Hf'. rewrite lookup_singleton_ne; [done|]. intros Heq. congruence.
Qed.
Lemma grown_in_indirect cur ip i r cur1 :
  file_ok cur ip → bitmap_ok cur sb → fresh_block sb cur r cur1 → r ≠ 0 → (NDIRECT ≤ i)%nat → (i < MAXFILE)%nat → indirect ip ≠ 0 → slot cur ip i = 0 →
  cur1 (indirect ip) = cur (indirect ip) ∧
  grown dv sb cur ip i r (upd (indirect ip) (put32 (cur1 (indirect ip)) (4 * (i - NDIRECT)) r) cur1) ip.
Proof.
  intros Hf Hb Hfb Hr0 H1 H2 Hn H0. destruct (fo_own _ _ _ _ Hf MAXFILE) as [_ Hu _ Hlen]; [done|done|]. rewrite slot_max in Hu, Hlen.
  assert (Hne : indirect ip ≠ r) by (intros Heq; rewrite Heq, (fb_free _ _ _ _ Hfb) in Hu; done).
  assert (Hc : cur1 (indirect ip) = cur (indirect ip)) by (apply (fb_frame _ _ _ _ Hfb); [done|by eapply indirect_not_bitmap]).
  split; [done|]. eapply (grown_fresh dv sb cur ip cur1 r); [done|done|done|lia|done|done| | | | |apply Hf|].
  - intros x Hx. by apply upd_ne.
  - rewrite upd_eq, put32_length; [done|]. rewrite Hc, Hlen. unfold BSIZE, MAXFILE, NDIRECT, NINDIRECT in *. lia.
  - intros Heq. congruence.
  - by rewrite with_addrs_same.
  - apply slots_entry; [done|done|done|done| |done]. destruct (fb_data _ _ _ _ Hfb) as (Hrr & _). pose proof (bm_size _ _ Hb). unfold BPB in *. lia.
Qed.

Lemma wp_bmap E L0 d ks cur T k ip i s (Q : Z → KState → Prop) :
  ftx L0 d ks cur ∅ T s → T !! k = Some ip → file_ok cur ip → bitmap_ok cur sb → room 5 ks ∅ → 1 ≤ l_outstanding L0 → (i < MAXFILE)%nat →
  (∀ a ks' cur' ip' s', grown dv sb cur ip i a cur' ip' → (size ks' ≤ 5 + size ks)%nat → ftx L0 d ks' cur' ∅ (<[k := ip']> T) s' → Q a s') →
  wp E (bmap sleeps k i) Q s.
Proof.
  intros Ht Hk Hf Hb Hr%room_empty Ho Hi HQ. unfold bmap. destruct (Nat.ltb_spec i NDIRECT) as [Hlt|Hge].
  { eapply (wp_addr_or_alloc E L0 d ks cur T k ip i i); [exact Ht|done|done|done|apply room_empty; lia|done|by left|].
    intros a ks' cur' ip' s' Hg Hsz Ht'. eapply HQ; [exact Hg| |exact Ht']; lia. }
  rewrite (proj2 (Nat.ltb_lt _ _)) by (unfold MAXFILE in *; lia). apply wp_bind.
  eapply (wp_addr_or_alloc E L0 d ks cur T k ip NDIRECT MAXFILE); [exact Ht|done|done|done|apply room_empty; lia|done|by right|].
  intros b ks1 cur1 ip1 s1 G1 Hsz1 Ht1. destruct (Z.eqb_spec b 0) as [->|Hb0].
  { apply wp_ret. eapply HQ; [by apply grown_no_indirect| |exact Ht1]; lia. }
  assert (Hind : indirect ip1 = b) by (by rewrite <- (slot_max cur1 ip1), (gr_addr _ _ _ _ _ _ _ _ G1)). subst b.
  pose proof (gr_file _ _ _ _ _ _ _ _ G1) as Hf1. pose proof (gr_bitmap _ _ _ _ _ _ _ _ G1) as Hb1.
  destruct (fo_own _ _ _ _ Hf1 MAXFILE) as [Hdata Hu _ Hlen]; [done|done|]. rewrite slot_max in Hdata, Hu, Hlen.
  assert (Hk1 : <[k := ip1]> T !! k = Some ip1) by (apply list_lookup_insert_eq; by eapply lookup_lt_Some).
  assert (HTT : ∀ ip2, <[k := ip2]> (<[k := ip1]> T) = <[k := ip2]> T) by (intros; by apply list_insert_insert_eq).
  apply wp_bind. eapply wp_f_geti; [exact Ht1|exact Hk1|]. rewrite (fo_dev _ _ _ _ Hf1). apply wp_bind.
  eapply wp_f_bread; [exact Ht1|done|rewrite map_size_empty; change NBUF with LOGBLOCKS; lia|]. intros bp s2 Ht2.
  pose proof (ftx_clean _ _ _ _ _ _ _ _ _ _ _ (indirect ip1) Ht1 (lookup_empty _)) as Hclean. rewrite insert_empty in Ht2.
  apply wp_bind. eapply wp_f_getb; [exact Ht2|apply lookup_singleton_eq|]. intros x Hx. rewrite Hx.
  assert (Hslot : slot cur1 ip1 i = get32 (cur1 (indirect ip1)) (4 * (i - NDIRECT))) by (rewrite slot_ind by done; by rewrite decide_False).
  rewrite <- Hslot.
  assert (Hrel : ∀ a s3, grown dv sb cur1 ip1 i a cur1 ip1 → ftx L0 d ks1 cur1 {[indirect ip1 := bp]} (<[k := ip1]> T) s3 → wp E (brelse bp;; mret a) Q s3).
  { intros a s3 G2 Ht3. apply wp_bind. eapply wp_f_brelse; [exact Ht3|apply lookup_singleton_eq|done|]. intros s4 Ht4.
    rewrite delete_singleton_eq in Ht4. apply wp_ret. eapply HQ; [by eapply grown_entry| |exact Ht4]; lia. }
  destruct (Z.eqb_spec (slot cur1 ip1 i) 0) as [H0|Hn0]; [|apply wp_bind, wp_ret, Hrel; [by apply grown_refl|done]].
  apply wp_bind. apply wp_bind. eapply (wp_f_balloc sleeps me pid dv sb Hdv); [exact Ht2|done|by apply held_indirect| |done| |].
  { split; rewrite ?map_size_singleton; change NBUF with LOGBLOCKS; lia. }
  - intros s3 Hfull Ht3. cbn [Z.eqb negb when]. apply wp_bind, wp_ret, wp_ret. apply Hrel; [|done]. rewrite <- H0. by apply grown_refl.
  - intros r ks2 cur2 s3 Hfb Hr0 Hks Hrk Hsz2 Ht3. destruct (grown_in_indirect cur1 ip1 i r cur2) as [Hcc Hg]; try done.
    rewrite (proj2 (Z.eqb_neq r 0)) by done. cbn [negb when]. apply wp_bind, wp_bind.
    eapply (wp_f_change me pid dv sb E _ _ _ _ _ _ _ _ (λ y, put32 y (4 * (i - NDIRECT)) r)); [exact Ht3|apply lookup_singleton_eq|]. intros s4 Ht4.
    destruct (home_range cur1 _ Hb1 Hdata) as [Hhome Hrange].
    eapply wp_f_log_write; [exact Ht4|apply lookup_singleton_eq|lia|done|done|done|]. intros s5 Ht5. apply wp_ret.
    apply wp_bind. eapply wp_f_brelse; [exact Ht5|apply lookup_singleton_eq|left; apply in_add|]. intros s6 Ht6.
    rewrite delete_singleton_eq in Ht6. apply wp_ret. eapply HQ; [eapply grown_entry; [done|done|exact G1|done|done|exact Hg]| |exact Ht6].
    pose proof (size_add (indirect ip1) ks2). lia.
Qed.
End Bmap.
