(* ===== verification/FileData.v ===== *)
(** * The contents of files

    The bytes of a file; [writei] writes them, [readi] reads them back. *)

From S2P Require Import Prelude CString Kernel KLogic Spinlock KMem Kalloc Vm VmSpec VmUser Proc ProcSpec Pipe Fork Bio BioSpec CacheSpec Log LogSpec Crash TxView Tx Fs FsSpec FileTx FileSpec.
Open Scope Z_scope.
Open Scope os_scope.

Lemma lookup_put_at (d v : list Z) off k :
  (off + length v ≤ length d)%nat → put_at d off v !! k = if decide (off ≤ k < off + length v)%nat then v !! (k - off)%nat else d !! k.
Proof.
  intros Hfit. unfold put_at. destruct (decide (k < off)%nat) as [Hlt|Hge].
  - rewrite lookup_app_l by (rewrite length_take; lia). rewrite lookup_take_lt by lia. by rewrite decide_False by lia.
  - rewrite lookup_app_r, length_take, Nat.min_l by (rewrite ?length_take; lia). destruct (decide (k < off + length v)%nat).
    + rewrite lookup_app_l by lia. by rewrite decide_True by lia.
    + rewrite lookup_app_r, lookup_drop, decide_False by lia. f_equal. lia.
Qed.
Lemma length_put_at (d v : list Z) off : (off + length v ≤ length d)%nat → length (put_at d off v) = length d.
Proof. intros H. unfold put_at. rewrite !length_app, length_take, length_drop. lia. Qed.

Lemma div_chunk o j : (o mod BSIZE + j < BSIZE → (o + j) / BSIZE = o / BSIZE ∧ (o + j) mod BSIZE = o mod BSIZE + j)%nat.
Proof.
  intros H. pose proof (Nat.div_mod_eq o BSIZE) as Ho. split.
  - symmetry. apply (Nat.div_unique _ _ _ (o mod BSIZE + j)); lia.
  - symmetry. apply (Nat.mod_unique _ _ (o / BSIZE)); lia.
Qed.
Lemma next_block o : ((o + (BSIZE - o mod BSIZE)) mod BSIZE = 0)%nat.
Proof.
  symmetry. pose proof (Nat.div_mod_eq o BSIZE) as Ho. pose proof (Nat.mod_upper_bound o BSIZE). unfold BSIZE in *.
  apply (Nat.mod_unique _ _ (S (o / 1024))); lia.
Qed.
Lemma block_lt j : (j < MAXFILE * BSIZE → j / BSIZE < MAXFILE)%nat.
Proof. intros H. apply Nat.Div0.div_lt_upper_bound. lia. Qed.

(** Byte [j] of a file; none when its block is not allocated. *)
Definition byte (cur : Z → list Z) (ip : Inode) (j : nat) : option Z :=
  if decide (slot cur ip (j / BSIZE) = 0) then None else cur (slot cur ip (j / BSIZE)) !! (j mod BSIZE)%nat.

Section Data.
Context (dv : Z) (sb : SuperBlock).
#[local] Abbreviation file_ok := (file_ok dv sb).

(** A new content for a block of the file. *)
Lemma file_upd cur ip i v :
  file_ok cur ip → bitmap_ok cur sb → (i < MAXFILE)%nat → slot cur ip i ≠ 0 → length v = BSIZE →
  let cur' := upd (slot cur ip i) v cur in
  file_ok cur' ip ∧ bitmap_ok cur' sb ∧ (∀ j, slot cur' ip j = slot cur ip j) ∧ ∀ x, 0 ≤ x < sb_size sb → used cur' sb x = used cur sb x.
Proof.
  intros Hf Hb Hi Hn Hl cur'. pose proof Hf as [H1 H2 H3 H4 (H5a & H5b & H5c) H6 H7 H8].
  destruct (H6 i) as [(Hr & Hh & Hnb) Hu Hin Hlen]; [lia|done|].
  assert (Hs : ∀ j, slot cur' ip j = slot cur ip j).
  { intros j. apply slot_frame. apply upd_ne. intros Heq. rewrite <- (slot_max cur ip) in Heq. symmetry in Heq. apply H7 in Heq; [lia|lia|done|done]. }
  destruct (bitmap_other cur sb (slot cur ip i) v Hb) as [Hb' Hu']; [done|].
  assert (Hlen' : ∀ a, length (cur a) = BSIZE → length (cur' a) = BSIZE) by (intros a Ha; unfold cur', upd; by case_decide).
  split_and!; [|done|done|done]. split; try done.
  - split_and!; [done|rewrite Hu'; [done|destruct H5a; lia]|by apply Hlen'].
  - intros j Hj. rewrite !Hs. intros Hj0. destruct (H6 j Hj Hj0) as [O1 O2 O3 O4]. split; [done|rewrite Hu'; [done|destruct O1; lia]|done|by apply Hlen'].
  - intros j j' Hj Hj'. rewrite !Hs. by apply H7.
  - intros j Hj. rewrite Hs. by apply H8.
Qed.

(** The bytes [l] have been written at offset [o]. *)
Record wrote (cur : Z → list Z) (ip : Inode) (o : nat) (l : list Z) (cur' : Z → list Z) (ip' : Inode) : Prop := {
  wr_file : file_ok cur' ip';
  wr_bitmap : bitmap_ok cur' sb;
  wr_same : ip' = with_addrs (i_addrs ip') ip;
  wr_new : ∀ j, (j < length l)%nat → byte cur' ip' (o + j) = l !! j;
  wr_old : ∀ j, (j / BSIZE < MAXFILE)%nat → slot cur ip (j / BSIZE) ≠ 0 → (j < o ∨ o + length l ≤ j)%nat → byte cur' ip' j = byte cur ip j;
  wr_slot : ∀ i, (i < MAXFILE)%nat → slot cur ip i ≠ 0 → slot cur' ip' i = slot cur ip i;
  wr_slots : ∀ i, (i ≤ MAXFILE)%nat → slot cur' ip' i = slot cur ip i ∨ data_block sb (slot cur' ip' i) ∧ used cur sb (slot cur' ip' i) = false;
  wr_mono : ∀ x, 0 ≤ x < sb_size sb → used cur sb x = true → used cur' sb x = true;
  wr_frame : ∀ x, 0 ≤ x < sb_size sb → used cur sb x = true → ¬ in_bitmap sb x → (∀ i, (i ≤ MAXFILE)%nat → slot cur ip i ≠ x) → cur' x = cur x
}.

(** A lookup that found or allocated a block writes nothing. *)
Lemma wrote_nothing cur ip o i a cur' ip' : (i < MAXFILE)%nat → grown dv sb cur ip i a cur' ip' → file_ok cur ip → wrote cur ip o [] cur' ip'.
Proof.
  intros Hi [G1 G2 G3 G4 G5 G6 G7 G8 G9 G10 G11] Hf.
  assert (Hs : ∀ j, (j < MAXFILE)%nat → slot cur ip j ≠ 0 → slot cur' ip' j = slot cur ip j).
  { intros j Hj Hn. destruct (decide (j = i)) as [->|]; [by rewrite G4, G6|by apply G5]. }
  split; try done.
  - intros j Hj. cbn [length] in Hj. lia.
  - intros j Hj Hn _. unfold byte. rewrite Hs by done. rewrite !decide_False by done. f_equal.
    destruct (fo_own _ _ _ _ Hf (j / BSIZE)) as [(Hr & _ & Hnb) Hu _ _]; [lia|done|]. apply G8; [lia|done| |].
    + intros (y & Hy & Heq). by apply (Hnb y).
    + rewrite <- (slot_max cur ip). intros Heq. apply (fo_inj _ _ _ _ Hf) in Heq; [lia|lia|done|done].
  - intros x Hx Hu Hnb Ho. apply G8; [done|done|done|]. rewrite <- (slot_max cur ip). symmetry. by apply Ho.
Qed.

Lemma wrote_app cur ip o l cur1 ip1 l' cur2 ip2 :
  (o + length l ≤ MAXFILE * BSIZE)%nat → wrote cur ip o l cur1 ip1 → wrote cur1 ip1 (o + length l) l' cur2 ip2 → wrote cur ip o (l ++ l') cur2 ip2.
Proof.
  intros Hmax [A1 A2 A3 A4 A5 A6 A7 A8 A9] [B1 B2 B3 B4 B5 B6 B7 B8 B9].
  assert (Hback : ∀ x, data_block sb x → used cur1 sb x = false → used cur sb x = false).
  { intros x Hd Hu. destruct (used cur sb x) eqn:Hx; [|done]. rewrite A8 in Hu; [done|destruct Hd; lia|done]. }
  split; try done.
  - rewrite B3, A3. done.
  - intros j Hj. rewrite length_app in Hj. destruct (decide (j < length l)%nat) as [Hlt|Hge].
    + rewrite lookup_app_l by done. rewrite <- (A4 j Hlt). pose proof (A4 j Hlt) as Hby. unfold byte in Hby.
      destruct (decide (slot cur1 ip1 ((o + j) / BSIZE) = 0)) as [|Hn0]; [symmetry in Hby; apply lookup_ge_None in Hby; lia|].
      apply B5; [apply block_lt; lia|done|lia].
    + rewrite lookup_app_r by lia. replace (o + j)%nat with (o + length l + (j - length l))%nat by lia. apply B4. lia.
  - intros j Hj Hn Hor. rewrite length_app in Hor. rewrite B5; [apply A5; [done|done|lia]|done|by rewrite A6|lia].
  - intros i Hi Hn. rewrite B6; [by apply A6|done|by rewrite A6].
  - intros i Hi. destruct (B7 i Hi) as [->|[Hd Hu]]; [by apply A7|]. right. split; [done|by apply Hback].
  - intros x Hx Hu. apply B8; [done|by apply A8].
  - intros x Hx Hu Hnb Ho. rewrite B9; [by apply A9|done|by apply A8|done|]. intros i Hi Heq.
    destruct (A7 i Hi) as [Hs|[Hd Hu']]; [by apply (Ho i Hi); congruence|]. rewrite Heq in Hu'. congruence.
Qed.

Lemma wrote_after cur ip i a cur1 ip1 o l cur2 ip2 :
  (i < MAXFILE)%nat → grown dv sb cur ip i a cur1 ip1 → file_ok cur ip → (o ≤ MAXFILE * BSIZE)%nat → wrote cur1 ip1 o l cur2 ip2 → wrote cur ip o l cur2 ip2.
Proof.
  intros Hi G Hf Ho W. apply (wrote_app cur ip o [] cur1 ip1 l); [cbn [length]; lia|by eapply wrote_nothing|]. cbn [length]. by rewrite Nat.add_0_r.
Qed.

Lemma wrote_chunk cur ip o l :
  file_ok cur ip → bitmap_ok cur sb → (o / BSIZE < MAXFILE)%nat → slot cur ip (o / BSIZE) ≠ 0 → (o mod BSIZE + length l ≤ BSIZE)%nat →
  let a := slot cur ip (o / BSIZE) in
  wrote cur ip o l (upd a (put_at (cur a) (o mod BSIZE) l) cur) ip.
Proof.
  intros Hf Hb Hi Hn Hfit a. destruct (fo_own _ _ _ _ Hf (o / BSIZE)) as [Hd Hu _ Hlen]; [lia|done|]. fold a in Hd, Hu, Hlen.
  destruct (file_upd cur ip (o / BSIZE) (put_at (cur a) (o mod BSIZE) l)) as (Hf' & Hb' & Hs & Hu'); try done.
  { rewrite length_put_at by lia. done. }
  fold a in Hf', Hb', Hs, Hu'. split; try done.
  - by rewrite with_addrs_same.
  - intros j Hj. assert (Hdiv : ((o + j) / BSIZE = o / BSIZE)%nat ∧ ((o + j) mod BSIZE = o mod BSIZE + j)%nat).
    { apply div_chunk. lia. }
    destruct Hdiv as [Hq Hm]. unfold byte. rewrite Hs, Hq, Hm. fold a. rewrite decide_False, upd_eq by done.
    rewrite lookup_put_at by lia. rewrite decide_True by lia. f_equal. lia.
  - intros j Hj Hnj Hor. unfold byte. rewrite Hs. rewrite !decide_False by done. unfold upd. case_decide as Heq; [|done].
    apply (fo_inj _ _ _ _ Hf) in Heq; [|lia|lia|done]. rewrite Heq. fold a. rewrite lookup_put_at by lia. rewrite decide_False; [done|].
    pose proof (Nat.div_mod_eq o BSIZE). pose proof (Nat.div_mod_eq j BSIZE). rewrite Heq in *. lia.
  - intros i Hi'. left. apply Hs.
  - intros x Hx Hux. by rewrite Hu'.
  - intros x Hx Hux Hnb Ho. apply upd_ne. intros ->. by apply (Ho (o / BSIZE)%nat); [lia|].
Qed.

Lemma wrote_refl cur ip o : file_ok cur ip → bitmap_ok cur sb → wrote cur ip o [] cur ip.
Proof.
  intros Hf Hb. split; try done; [by rewrite with_addrs_same|intros j Hj; cbn [length] in Hj; lia|by left].
Qed.
End Data.

(** ** [writei] *)

Section Write.
Context {IMG : KernelImage} {D : Disk} {DL : DiskLaw D} (sleeps : nat) (me : nat) (pid dv : Z) (sb : SuperBlock).
Hypothesis Hdv : 0 ≤ dv < 2 ^ 31.
#[local] Abbreviation ftx := (ftx me pid dv sb).
#[local] Abbreviation file_ok := (file_ok dv sb).

Lemma file_range o : (o ≤ MAXFILE * BSIZE)%nat → Z.of_nat o < 2 ^ 31.
Proof. intros H. apply (Nat2Z.inj_le o) in H. eapply Z.le_lt_trans; [exact H|]. vm_compute. reflexivity. Qed.

(** The first block of a write. *)
Lemma wp_write_block {R} E L0 d ks cur T k ip o l bp a s (m : M R) (Q : R → KState → Prop) :
  ftx L0 d ks cur {[a := bp]} T s → file_ok cur ip → bitmap_ok cur sb → a = slot cur ip (o / BSIZE) → a ≠ 0 → (o / BSIZE < MAXFILE)%nat →
  (size ks < LOGBLOCKS)%nat → 1 ≤ l_outstanding L0 → (o mod BSIZE + length l ≤ BSIZE)%nat → T !! k = Some ip →
  (∀ s', wrote dv sb cur ip o l (upd a (put_at (cur a) (o mod BSIZE) l) cur) ip →
     ftx L0 d ({[a]} ∪ ks) (upd a (put_at (cur a) (o mod BSIZE) l) cur) ∅ T s' → wp E m Q s') →
  wp E (putb bp (λ b, with_data (put_at (b_data b) (o mod BSIZE) l) b);; log_write bp;; brelse bp;; m) Q s.
Proof.
  intros Ht Hf Hb Ha Hn Hi Hks Ho Hfit Hk HQ. destruct (fo_own _ _ _ _ Hf (o / BSIZE)) as [Hd _ _ _]; [lia|by rewrite <- Ha|].
  rewrite <- Ha in Hd. destruct (home_range sb cur _ Hb Hd) as [Hhome Hrange]. apply wp_bind.
  eapply (wp_f_change me pid dv sb E _ _ _ _ _ _ _ _ (λ y, put_at y (o mod BSIZE) l)); [exact Ht|apply lookup_singleton_eq|]. intros s1 Ht1.
  apply wp_bind. eapply wp_f_log_write; [exact Ht1|apply lookup_singleton_eq|done|done|done|done|]. intros s2 Ht2.
  apply wp_bind. eapply wp_f_brelse; [exact Ht2|apply lookup_singleton_eq|left; apply in_add|]. intros s3 Ht3. rewrite delete_singleton_eq in Ht3.
  apply HQ; [|exact Ht3]. rewrite Ha. apply wrote_chunk; [done|done|done|by rewrite <- Ha|done].
Qed.

Lemma writei_loop_done fuel k src local off n tot : n ≤ tot → writei_loop sleeps fuel k src local off n tot = mret (tot, off).
Proof. intros H. destruct fuel; cbn [writei_loop]; by rewrite (proj2 (Z.ltb_ge tot n)). Qed.

Lemma wp_writei_loop E it fuel L0 d ks cur T k ip o local n tot s (Q : Z * Z → KState → Prop) :
  ftx L0 d ks cur ∅ T s → T !! k = Some ip → file_ok cur ip → bitmap_ok cur sb → room (6 * it) ks ∅ → 1 ≤ l_outstanding L0 →
  (it ≤ fuel)%nat → 0 ≤ tot → n = tot + Z.of_nat (length local) → (o + length local ≤ MAXFILE * BSIZE)%nat → (local ≠ [] → o mod BSIZE + length local ≤ it * BSIZE)%nat →
  (∀ w ks' cur' ip' s', (w ≤ length local)%nat → wrote dv sb cur ip o (take w local) cur' ip' → ((w < length local)%nat → full sb cur' ∧ (w = 0 ∨ (o + w) mod BSIZE = 0)%nat) →
     (size ks' ≤ 6 * it + size ks)%nat → ftx L0 d ks' cur' ∅ (<[k := ip']> T) s' → Q (tot + Z.of_nat w, Z.of_nat (o + w)) s') →
  wp E (writei_loop sleeps fuel k Local local (Z.of_nat o) n tot) Q s.
Proof.
  revert fuel ks cur T ip o local tot s Q. induction it as [|it IH];
    intros fuel ks cur T ip o local tot s Q Ht Hk Hf Hb Hr%room_empty Ho Hfuel Htot Hn Hmax Hfit HQ.
  { assert (local = []) as -> by (destruct local as [|b local]; [done|]; exfalso; specialize (Hfit ltac:(done)); cbn [length] in Hfit; lia). cbn [length] in *.
    rewrite writei_loop_done by lia. apply wp_ret. rewrite <- (Z.add_0_r tot), <- (Nat.add_0_r o).
    eapply (HQ 0%nat ks cur ip); [lia|by apply wrote_refl|lia|lia|by rewrite list_insert_id]. }
  destruct (decide (n ≤ tot)) as [Hge|Hlt%Z.nle_gt].
  { rewrite writei_loop_done by lia. apply wp_ret. rewrite <- (Z.add_0_r tot), <- (Nat.add_0_r o).
    eapply (HQ 0%nat ks cur ip); [lia|by apply wrote_refl|lia|lia|by rewrite list_insert_id]. }
  destruct fuel as [|fuel]; [lia|]. cbn [writei_loop]. rewrite (proj2 (Z.ltb_lt tot n)) by done.
  rewrite <- (Nat2Z.inj_div o BSIZE), Nat2Z.id, <- (Nat2Z.inj_mod o BSIZE), Nat2Z.id. apply wp_bind.
  pose proof (block_lt o ltac:(lia)) as Hi.
  eapply (wp_bmap sleeps me pid dv sb Hdv); [exact Ht|done|done|done|apply room_empty; lia|done|done|].
  intros a ks1 cur1 ip1 s1 G Hsz1 Ht1. destruct (Z.eqb_spec a 0) as [->|Ha].
  { apply wp_ret. rewrite <- (Z.add_0_r tot), <- (Nat.add_0_r o). eapply (HQ 0%nat); [lia| |intros _; split; [by apply (gr_zero _ _ _ _ _ _ _ _ G)|by left]| |exact Ht1]; [|lia].
    by eapply wrote_nothing. }
  pose proof (gr_file _ _ _ _ _ _ _ _ G) as Hf1. pose proof (gr_bitmap _ _ _ _ _ _ _ _ G) as Hb1. pose proof (gr_addr _ _ _ _ _ _ _ _ G) as Hsl.
  assert (Hk1 : <[k := ip1]> T !! k = Some ip1) by (apply list_lookup_insert_eq; by eapply lookup_lt_Some).
  apply wp_bind. eapply wp_f_geti; [exact Ht1|exact Hk1|]. rewrite (fo_dev _ _ _ _ Hf1). apply wp_bind.
  eapply wp_f_bread; [exact Ht1|done|rewrite map_size_empty; change NBUF with LOGBLOCKS; lia|]. intros bp s2 Ht2. rewrite insert_empty in Ht2.
  set (m := Nat.min (length local) (BSIZE - o mod BSIZE)).
  assert (Hm : Z.min (n - tot) (Z.of_nat BSIZE - Z.of_nat (o mod BSIZE)) = Z.of_nat m).
  { unfold m. pose proof (Nat.mod_upper_bound o BSIZE). rewrite Nat2Z.inj_min. unfold BSIZE in *. lia. }
  rewrite Hm, Nat2Z.id. apply wp_bind. cbn [take_in]. apply wp_ret. cbn [fst snd negb].
  assert (Hml : length (take m local) = m) by (rewrite length_take; unfold m; lia).
  assert (Hmo : (o + m ≤ MAXFILE * BSIZE)%nat) by (unfold m; lia).
  eapply (wp_write_block E L0 d ks1 cur1 (<[k := ip1]> T) k ip1 o (take m local) bp a); [exact Ht2|done|done|done|done|done|lia|done| |exact Hk1|].
  { rewrite Hml. unfold m. pose proof (Nat.mod_upper_bound o BSIZE). unfold BSIZE in *. lia. }
  intros s3 W Ht3. rewrite <- Nat2Z.inj_add, u32_id by (pose proof (file_range _ Hmo); lia). cbn [advance].
  eapply (IH fuel); [exact Ht3|exact Hk1|apply W|apply W| |done|lia|lia|rewrite length_drop; lia|rewrite length_drop; lia| |].
  - apply room_empty. pose proof (size_add a ks1). lia.
  - rewrite length_drop. intros Hne. assert (m < length local)%nat.
    { destruct (decide (m < length local)%nat); [done|]. exfalso. apply Hne, drop_ge. lia. }
    assert (Hmb : (m = BSIZE - o mod BSIZE)%nat) by (unfold m in *; lia). rewrite Hmb, next_block. 
    assert (Hln : local ≠ []) by (intros ->; cbn [length] in *; lia). specialize (Hfit Hln).
    pose proof (Nat.mod_upper_bound o BSIZE). unfold BSIZE in *. lia.
  - intros w ks' cur' ip' s4 Hw W' Hfull Hsz Ht4. rewrite length_drop in Hw, Hfull.
    rewrite <- Z.add_assoc, <- Nat2Z.inj_add, <- Nat.add_assoc. rewrite list_insert_insert_eq in Ht4.
    eapply HQ; [lia| |intros Hlt'; destruct Hfull as [Hfu Hbd]; [lia|]; split; [done|right]| |exact Ht4].
    2: { destruct Hbd as [-> |Hbd]; [|by rewrite Nat.add_assoc]. rewrite Nat.add_0_r. assert (Hmb : (m = BSIZE - o mod BSIZE)%nat) by (unfold m in *; lia). by rewrite Hmb, next_block. }
    + rewrite <- (take_take_drop local m w). eapply wrote_app; [|eapply wrote_after; [exact Hi|exact G|done| |exact W]|]; rewrite ?Hml; [lia|lia|exact W'].
    + pose proof (size_add a ks1). lia.
Qed.
End Write.
