(* ===== verification/FileInode.v ===== *)
(** * The inode on the disk

    [struct dinode] in its block: [iupdate] writes it, [ilock] reads it. *)

From S2P Require Import Prelude CString Kernel KLogic Spinlock KMem Kalloc Vm VmSpec VmUser Proc ProcSpec Pipe Fork Bio BioSpec CacheSpec Log LogSpec Crash TxView Tx Fs FsSpec FileTx FileSpec FileData.
Open Scope Z_scope.
Open Scope os_scope.

Definition is_uint (v : Z) : Prop := 0 ≤ v < 2 ^ 32.
Record dinode_ok (di : Dinode) : Prop := {
  dk_short : is_short (di_type di) ∧ is_short (di_major di) ∧ is_short (di_minor di) ∧ is_short (di_nlink di);
  dk_size : is_uint (di_size di);
  dk_addrs : length (di_addrs di) = S NDIRECT ∧ Forall is_uint (di_addrs di)
}.

Lemma s16_mod v : is_short v → s16 (v mod 256 ^ Z.of_nat 2) = v.
Proof.
  unfold is_short, s16. change (256 ^ Z.of_nat 2) with (2 ^ 16). intros Hv. rewrite Z.mod_mod by lia.
  destruct (decide (0 ≤ v)); [rewrite Z.mod_small by lia; by rewrite (proj2 (Z.ltb_lt _ _)) by lia|].
  assert (Hm : v mod 2 ^ 16 = v + 2 ^ 16) by (symmetry; apply (Z.mod_unique _ _ (-1)); lia).
  rewrite Hm, (proj2 (Z.ltb_ge _ _)) by lia. lia.
Qed.

Lemma join_cons x l : mjoin (le_bytes 4 <$> x :: l) = le_bytes 4 x ++ mjoin (le_bytes 4 <$> l).
Proof. reflexivity. Qed.
Lemma join_words_length l : length (mjoin (le_bytes 4 <$> l)) = (4 * length l)%nat.
Proof. induction l as [|x l IH]; [done|]. rewrite join_cons, length_app, le_bytes_length, IH. cbn [length]. lia. Qed.
Lemma join_words l k v : l !! k = Some v → take 4 (drop (4 * k) (mjoin (le_bytes 4 <$> l))) = le_bytes 4 v.
Proof.
  revert k. induction l as [|x l IH]; intros [|k] Hk; try done.
  - injection Hk as ->. reflexivity.
  - replace (4 * S k)%nat with (length (le_bytes 4 x) + 4 * k)%nat by (rewrite le_bytes_length; lia).
    rewrite join_cons, drop_app_add. by apply IH.
Qed.

Lemma length_dinode di : length (di_addrs di) = S NDIRECT → length (dinode_bytes di) = 64%nat.
Proof. intros H. unfold dinode_bytes. rewrite !length_app, !le_bytes_length, join_words_length, H. reflexivity. Qed.

(** Bytes inside a part that has just been written. *)
Lemma read_put_at (d v : list Z) off c n :
  (off ≤ length d)%nat → (c + n ≤ length v)%nat → take n (drop (off + c) (put_at d off v)) = take n (drop c v).
Proof.
  intros Ho Hc. unfold put_at. rewrite <- drop_drop, drop_app_length' by (rewrite length_take; lia).
  rewrite drop_app_le by lia. apply take_app_le. rewrite length_drop. lia.
Qed.

(** What [iupdate] stores is what [ilock] reads. *)
Lemma get_put_dinode d off di : dinode_ok di → (off + 64 ≤ length d)%nat → get_dinode (put_at d off (dinode_bytes di)) off = di.
Proof.
  intros [(H1 & H2 & H3 & H4) H5 [H6 H7]] Ho. pose proof (length_dinode di H6) as Hl.
  assert (Hread : ∀ c n, (c + n ≤ 64)%nat → take n (drop (off + c) (put_at d off (dinode_bytes di))) = take n (drop c (dinode_bytes di))).
  { intros c n Hc. apply read_put_at; lia. }
  unfold get_dinode, get16, get32. rewrite <- (Nat.add_0_r off) at 1. rewrite !Hread by lia.
  replace di with (mkDinode (di_type di) (di_major di) (di_minor di) (di_nlink di) (di_size di) (di_addrs di)) at 6 by (by destruct di).
  f_equal.
  - change (take 2 (drop 0 (dinode_bytes di))) with (le_bytes 2 (di_type di)). by rewrite le_val_bytes, s16_mod.
  - change (take 2 (drop 2 (dinode_bytes di))) with (le_bytes 2 (di_major di)). by rewrite le_val_bytes, s16_mod.
  - change (take 2 (drop 4 (dinode_bytes di))) with (le_bytes 2 (di_minor di)). by rewrite le_val_bytes, s16_mod.
  - change (take 2 (drop 6 (dinode_bytes di))) with (le_bytes 2 (di_nlink di)). by rewrite le_val_bytes, s16_mod.
  - change (take 4 (drop 8 (dinode_bytes di))) with (le_bytes 4 (di_size di)). rewrite le_val_bytes. by apply Z.mod_small.
  - apply list_eq_same_length with (S NDIRECT); [done|by rewrite length_fmap, length_seq|]. intros k x y Hk Hx Hy.
    rewrite list_lookup_fmap, lookup_seq_lt in Hx by done. injection Hx as <-.
    rewrite <- Nat.add_assoc, Hread by (unfold NDIRECT in *; lia).
    change (drop (12 + _) (dinode_bytes di)) with (drop (4 * k) (mjoin (le_bytes 4 <$> di_addrs di))).
    rewrite (join_words _ _ _ Hy), le_val_bytes. apply Z.mod_small. exact (Forall_lookup_1 _ _ _ _ H7 Hy).
Qed.

Lemma read_put_other (d v : list Z) off c n :
  (off + length v ≤ length d)%nat → (c + n ≤ off ∨ off + length v ≤ c)%nat → take n (drop c (put_at d off v)) = take n (drop c d).
Proof.
  intros Hfit Hor. apply list_eq. intros i. destruct (decide (i < n)%nat) as [Hi|Hi]; [|by rewrite !lookup_take_ge by lia].
  rewrite !lookup_take_lt, !lookup_drop, lookup_put_at by lia. by rewrite decide_False by lia.
Qed.
(** The other inodes of the block. *)
Lemma get_dinode_other d off off' v :
  length v = 64%nat → (off + 64 ≤ length d)%nat → (off' + 64 ≤ off ∨ off + 64 ≤ off')%nat → get_dinode (put_at d off v) off' = get_dinode d off'.
Proof.
  intros Hv Hfit Hor.
  assert (Hread : ∀ c n, (c + n ≤ 64)%nat → take n (drop (off' + c) (put_at d off v)) = take n (drop (off' + c) d)).
  { intros c n Hc. apply read_put_other; lia. }
  pose proof (Hread 0%nat 2%nat ltac:(lia)) as Hread0. rewrite Nat.add_0_r in Hread0.
  unfold get_dinode, get16, get32. rewrite Hread0, !Hread by lia. f_equal.
  apply list_fmap_ext. intros i k Hk. apply lookup_seq in Hk as [-> Hk]. rewrite <- Nat.add_assoc, Hread by (unfold NDIRECT in *; lia). done.
Qed.

Lemma dinode_at_fits inum : (dinode_at inum + 64 ≤ BSIZE)%nat.
Proof. unfold dinode_at, IPB, BSIZE. pose proof (Z.mod_pos_bound inum 16). lia. Qed.
Lemma dinode_at_other inum inum' :
  inum ≠ inum' → inum / IPB = inum' / IPB → (dinode_at inum' + 64 ≤ dinode_at inum ∨ dinode_at inum + 64 ≤ dinode_at inum')%nat.
Proof.
  intros Hne Hq. unfold dinode_at, IPB in *. pose proof (Z.div_mod inum 16). pose proof (Z.div_mod inum' 16).
  pose proof (Z.mod_pos_bound inum 16). pose proof (Z.mod_pos_bound inum' 16). lia.
Qed.

Section Inode.
Context {IMG : KernelImage} {D : Disk} {DL : DiskLaw D} (sleeps : nat) (me : nat) (pid dv : Z) (sb : SuperBlock).
Hypothesis Hdv : 0 ≤ dv < 2 ^ 31.
#[local] Abbreviation ftx := (ftx me pid dv sb).
#[local] Abbreviation file_ok := (file_ok dv sb).

Lemma file_dinode cur ip : file_ok cur ip → bitmap_ok cur sb → dinode_ok (dinode_of ip).
Proof.
  intros Hf Hb. pose proof Hf as [H1 H2 H3 H4 _ H6 _ _]. pose proof (bm_size _ _ Hb) as [_ Hmax]. unfold BPB in Hmax.
  assert (Hu : ∀ i, (i ≤ MAXFILE)%nat → is_uint (slot cur ip i)).
  { intros i Hi. unfold is_uint. destruct (decide (slot cur ip i = 0)) as [->|Hn]; [lia|]. destruct (H6 i Hi Hn) as [(Hr & _) _ _ _]. lia. }
  split; [done| |split; [done|]].
  - unfold is_uint. cbn [dinode_of di_size]. unfold MAXFILE, NDIRECT, NINDIRECT, BSIZE in H4. lia.
  - apply Forall_lookup. cbn [dinode_of di_addrs]. intros i a Ha. destruct (decide (i < NDIRECT)%nat) as [Hlt|Hge].
    + specialize (Hu i ltac:(unfold MAXFILE; lia)). by rewrite slot_direct, Ha in Hu by done.
    + assert (i = NDIRECT) as -> by (apply lookup_lt_Some in Ha; lia). specialize (Hu MAXFILE ltac:(lia)). rewrite slot_max in Hu. unfold indirect in Hu. by rewrite Ha in Hu.
Qed.

(** A new content for the inode's block. *)
Lemma file_iblock cur ip v :
  file_ok cur ip → bitmap_ok cur sb → length v = BSIZE →
  let cur' := upd (IBLOCK (i_inum ip) sb) v cur in
  file_ok cur' ip ∧ bitmap_ok cur' sb ∧ (∀ j, (j ≤ MAXFILE)%nat → slot cur' ip j = slot cur ip j) ∧
  (∀ x, 0 ≤ x < sb_size sb → used cur' sb x = used cur sb x) ∧ ∀ j, (j / BSIZE < MAXFILE)%nat → byte cur' ip j = byte cur ip j.
Proof.
  intros Hf Hb Hl cur'. pose proof Hf as [H1 H2 H3 H4 (H5a & H5b & H5c) H6 H7 H8].
  assert (Hne : ∀ i, (i ≤ MAXFILE)%nat → slot cur ip i ≠ IBLOCK (i_inum ip) sb).
  { intros i Hi Heq. destruct (decide (slot cur ip i = 0)) as [H0|Hn]; [|by destruct (H6 i Hi Hn)]. destruct H5a. lia. }
  assert (Hs : ∀ j, slot cur' ip j = slot cur ip j).
  { intros j. apply slot_frame, upd_ne. rewrite <- (slot_max cur ip). by apply Hne. }
  destruct (bitmap_other cur sb (IBLOCK (i_inum ip) sb) v Hb) as [Hb' Hu']; [by destruct H5a as (_ & _ & ?)|].
  split_and!; [|done|done|done|].
  - split; try done.
    + split_and!; [done|rewrite Hu'; [done|destruct H5a; lia]|unfold cur'; by rewrite upd_eq].
    + intros j Hj. rewrite Hs. intros Hj0. destruct (H6 j Hj Hj0) as [O1 O2 O3 O4].
      split; [done|rewrite Hu'; [done|destruct O1; lia]|done|unfold cur'; by rewrite upd_ne].
    + intros j j' Hj Hj'. rewrite !Hs. by apply H7.
    + intros j Hj. rewrite Hs. by apply H8.
  - intros j Hj. unfold byte. rewrite Hs. case_decide; [done|]. unfold cur'. rewrite upd_ne; [done|]. apply Hne. lia.
Qed.

Lemma wp_iupdate E L0 d ks cur T k ip s (Q : unit → KState → Prop) :
  ftx L0 d ks cur ∅ T s → T !! k = Some ip → file_ok cur ip → bitmap_ok cur sb → room 1 ks ∅ → 1 ≤ l_outstanding L0 →
  (∀ s', let B := IBLOCK (i_inum ip) sb in
     ftx L0 d ({[B]} ∪ ks) (upd B (put_at (cur B) (dinode_at (i_inum ip)) (dinode_bytes (dinode_of ip))) cur) ∅ T s' → Q tt s') →
  wp E (iupdate sleeps k) Q s.
Proof.
  intros Ht Hk Hf Hb Hr%room_empty Ho HQ. pose proof Hf as [H1 _ _ _ (H5a & _ & _) _ _ _].
  destruct (home_range sb cur _ Hb H5a) as [Hhome Hrange]. unfold iupdate. apply wp_bind. eapply wp_f_geti; [exact Ht|exact Hk|].
  apply wp_bind. eapply wp_f_getsb; [exact Ht|]. rewrite H1. apply wp_bind.
  eapply wp_f_bread; [exact Ht|done|rewrite map_size_empty; change NBUF with LOGBLOCKS; lia|]. intros bp s1 Ht1. rewrite insert_empty in Ht1.
  apply wp_bind. eapply wp_f_getb; [exact Ht1|apply lookup_singleton_eq|]. intros x Hx. rewrite Hx.
  apply wp_bind. eapply wp_f_fill; [exact Ht1|apply lookup_singleton_eq|]. intros s2 Ht2.
  apply wp_bind. eapply wp_f_log_write; [exact Ht2|apply lookup_singleton_eq|lia|done|done|done|]. intros s3 Ht3.
  eapply wp_f_brelse; [exact Ht3|apply lookup_singleton_eq|left; apply in_add|]. intros s4 Ht4. rewrite delete_singleton_eq in Ht4. by apply HQ.
Qed.
End Inode.
