(* ===== verification/FileRw.v ===== *)
(** * Reading and writing files

    A file on the disk has a list of bytes as its data.  [writei] in a
    transaction replaces or appends bytes, [readi] returns them. *)

From S2P Require Import Prelude CString Kernel KLogic Spinlock KMem Kalloc Vm VmSpec VmUser Proc ProcSpec Pipe Fork Bio BioSpec CacheSpec Log LogSpec Crash TxView Tx Fs FsSpec FileTx FileSpec FileData FileInode.
Open Scope Z_scope.
Open Scope os_scope.

(** The file has the bytes [l]. *)
Definition has_data (cur : Z → list Z) (ip : Inode) (l : list Z) : Prop :=
  i_size ip = Z.of_nat (length l) ∧ ∀ j, (j < length l)%nat → byte cur ip j = l !! j.

Section Rw.
Context {IMG : KernelImage} {D : Disk} {DL : DiskLaw D} (sleeps : nat) (me : nat) (pid dv : Z) (sb : SuperBlock).
Hypothesis Hdv : 0 ≤ dv < 2 ^ 31.
#[local] Abbreviation ftx := (ftx me pid dv sb).
#[local] Abbreviation file_ok := (file_ok dv sb).

Lemma file_resize cur ip n :
  file_ok cur ip → 0 ≤ n ≤ Z.of_nat (MAXFILE * BSIZE) → (∀ i, (i < MAXFILE)%nat → Z.of_nat (i * BSIZE) < n → slot cur ip i ≠ 0) →
  file_ok cur (with_isize n ip).
Proof. intros [H1 H2 H3 H4 H5 H6 H7 H8] Hn Hs. split; try done. intros i Hi H0. by destruct (H6 i Hi H0). Qed.

(** The size of a file after bytes have been written up to [o + length v]. *)
Definition grow_size (ip : Inode) (n : Z) : Inode := if i_size ip <? n then with_isize n ip else ip.

Lemma wrote_sized cur ip o v cur' ip' l :
  wrote dv sb cur ip o v cur' ip' → file_ok cur ip → has_data cur ip l → (o ≤ length l)%nat → (o + length v ≤ MAXFILE * BSIZE)%nat →
  file_ok cur' (grow_size ip' (Z.of_nat (o + length v))) ∧ has_data cur' (grow_size ip' (Z.of_nat (o + length v))) (put_at l o v).
Proof.
  intros [W1 W2 W3 W4 W5 W6 W7 W8 W9] Hf [Hsz Hd] Ho Hmax. assert (Hsz' : i_size ip' = Z.of_nat (length l)) by (by rewrite W3).
  pose proof (fo_size _ _ _ _ Hf) as Hs4. pose proof (fo_full _ _ _ _ Hf) as Hfull.
  assert (Hold : ∀ j, (j < length l → j < o ∨ o + length v ≤ j → byte cur' ip' j = l !! j)%nat).
  { intros j Hj Hor. assert (Hjm : (j / BSIZE < MAXFILE)%nat) by (apply block_lt; lia). rewrite <- (Hd j Hj). apply W5; [done| |done].
    apply Hfull; [done|]. pose proof (Nat.Div0.mul_div_le j BSIZE). lia. }
  assert (Hby : ∀ j, (j < o + length v ∨ j < length l)%nat → byte cur' ip' j = put_at l o v !! j).
  { intros j Hj. unfold put_at. destruct (decide (j < o)%nat) as [Hlt|Hge].
    - rewrite lookup_app_l, lookup_take_lt by (rewrite ?length_take; lia). apply Hold; lia.
    - rewrite lookup_app_r, length_take, Nat.min_l by (rewrite ?length_take; lia). destruct (decide (j < o + length v)%nat).
      + rewrite lookup_app_l by lia. replace j with (o + (j - o))%nat at 1 by lia. apply W4. lia.
      + rewrite lookup_app_r, lookup_drop by lia. rewrite Hold by lia. f_equal. lia. }
  assert (Hlp : length (put_at l o v) = Nat.max (length l) (o + length v)) by (unfold put_at; rewrite !length_app, length_take, length_drop; lia).
  unfold grow_size. rewrite Hsz'. destruct (Z.ltb_spec (Z.of_nat (length l)) (Z.of_nat (o + length v))) as [Hlt|Hge]; split.
  - apply file_resize; [done|lia|]. intros i Hi Hin H0. assert (Hq : (i * BSIZE / BSIZE = i)%nat) by (apply Nat.div_mul; done).
    assert (Hn : byte cur' ip' (i * BSIZE) = None) by (unfold byte; by rewrite Hq, decide_True).
    rewrite Hby in Hn by lia. apply lookup_ge_None in Hn. lia.
  - split; [rewrite Hlp; cbn [i_size with_isize]; lia|]. intros j Hj. rewrite Hlp in Hj. apply Hby. lia.
  - done.
  - split; [rewrite Hlp, Hsz'; lia|]. intros j Hj. rewrite Hlp in Hj. apply Hby. lia.
Qed.

Lemma wp_writei E L0 d ks cur T k ip o bs l it s (Q : Z → KState → Prop) :
  ftx L0 d ks cur ∅ T s → T !! k = Some ip → file_ok cur ip → bitmap_ok cur sb → has_data cur ip l → 1 ≤ l_outstanding L0 →
  (o ≤ length l)%nat → (o + length bs ≤ MAXFILE * BSIZE)%nat → (o mod BSIZE + length bs ≤ it * BSIZE)%nat → (it ≤ S (S (length bs / BSIZE)))%nat →
  room (S (6 * it)) ks ∅ →
  (∀ w ks' cur1 ip1 s', (w ≤ length bs)%nat → wrote dv sb cur ip o (take w bs) cur1 ip1 → ((w < length bs)%nat → full sb cur1 ∧ (w = 0 ∨ (o + w) mod BSIZE = 0)%nat) →
     let ip' := grow_size ip1 (Z.of_nat (o + w)) in let B := IBLOCK (i_inum ip) sb in
     (size ks' ≤ S (6 * it) + size ks)%nat →
     ftx L0 d ks' (upd B (put_at (cur1 B) (dinode_at (i_inum ip)) (dinode_bytes (dinode_of ip'))) cur1) ∅ (<[k := ip']> T) s' → Q (Z.of_nat w) s') →
  wp E (writei sleeps k Local bs (Z.of_nat o) (Z.of_nat (length bs))) Q s.
Proof.
  intros Ht Hk Hf Hb Hd Ho Hol Hmax Hit Hfuel Hr%room_empty HQ. pose proof (file_range (o + length bs) Hmax) as Hrange.
  unfold writei. apply wp_bind. eapply wp_f_geti; [exact Ht|exact Hk|]. rewrite (proj1 Hd), <- Nat2Z.inj_add, u32_id by lia.
  rewrite (proj2 (Z.ltb_ge _ _)), (proj2 (Z.ltb_ge (Z.of_nat (o + _)) _)), (proj2 (Z.ltb_ge _ _)) by lia. cbn [orb].
  rewrite <- (Nat2Z.inj_div (length bs) BSIZE), Nat2Z.id. apply wp_bind.
  eapply (wp_writei_loop sleeps me pid dv sb Hdv E it _ L0 d ks cur T k ip o bs _ 0); [exact Ht|done|done|done|apply room_empty; lia|done|done|done|lia|done|done|].
  intros w ks1 cur1 ip1 s1 Hw W Hfull Hsz Ht1. assert (Hk1 : <[k := ip1]> T !! k = Some ip1) by (apply list_lookup_insert_eq; by eapply lookup_lt_Some).
  apply wp_bind. eapply wp_f_geti; [exact Ht1|exact Hk1|]. cbn [fst snd]. rewrite Z.add_0_l. apply wp_bind.
  assert (Hlw : length (take w bs) = w) by (rewrite length_take; lia).
  destruct (wrote_sized _ _ _ _ _ _ l W Hf Hd Hol) as [Hf' _]; [rewrite Hlw; lia|]. rewrite Hlw in Hf'.
  assert (Hstep : wp E (when (i_size ip1 <? Z.of_nat (o + w)) (puti k (with_isize (Z.of_nat (o + w)))))
    (λ _ s2, ftx L0 d ks1 cur1 ∅ (<[k := grow_size ip1 (Z.of_nat (o + w))]> T) s2) s1).
  { unfold grow_size. destruct (i_size ip1 <? Z.of_nat (o + w)); cbn [when]; [|by apply wp_ret].
    eapply wp_f_puti; [exact Ht1|exact Hk1|]. intros s2 Ht2. by rewrite list_insert_insert_eq in Ht2. }
  eapply wp_mono; [exact Hstep|]. intros [] s2 Ht2. set (ip2 := grow_size ip1 (Z.of_nat (o + w))) in *.
  assert (Hk2 : <[k := ip2]> T !! k = Some ip2) by (apply list_lookup_insert_eq; by eapply lookup_lt_Some).
  assert (Hinum : i_inum ip2 = i_inum ip) by (unfold ip2, grow_size; rewrite (wr_same _ _ _ _ _ _ _ _ W); by case_match).
  apply wp_bind. eapply (wp_iupdate sleeps me pid dv sb); [exact Ht2|exact Hk2|done|apply W|apply room_empty; lia|done|]. intros s3 B Ht3.
  subst B. rewrite Hinum in Ht3. apply wp_ret. rewrite s32_id by lia. eapply HQ; [done|exact W|done| |exact Ht3].
  pose proof (size_add (IBLOCK (i_inum ip) sb) ks1). lia.
Qed.

(** ** [readi] *)

Lemma wp_bmap_hit E L0 d ks cur T k ip i s (Q : Z → KState → Prop) :
  ftx L0 d ks cur ∅ T s → T !! k = Some ip → file_ok cur ip → (size ks < NBUF)%nat → (i < MAXFILE)%nat → slot cur ip i ≠ 0 →
  (∀ s', ftx L0 d ks cur ∅ T s' → Q (slot cur ip i) s') → wp E (bmap sleeps k i) Q s.
Proof.
  intros Ht Hk Hf Hr Hi Hn HQ. pose proof (fo_addrs _ _ _ _ Hf) as Hla.
  assert (Hhit : ∀ n a (Q' : Z → KState → Prop), i_addrs ip !! n = Some a → a ≠ 0 → Q' a s → wp E (addr_or_alloc sleeps k n) Q' s).
  { intros n a Q' Ha H0 HQ'. unfold addr_or_alloc, get_addr. apply wp_bind, wp_bind. eapply wp_f_geti; [exact Ht|exact Hk|].
    eapply wp_need; [exact Ha|]. rewrite (proj2 (Z.eqb_neq a 0)) by done. by apply wp_ret. }
  unfold bmap. destruct (Nat.ltb_spec i NDIRECT) as [Hlt|Hge].
  { destruct (lookup_lt_is_Some_2 (i_addrs ip) i) as [v Hv]; [lia|]. rewrite slot_direct, Hv in HQ, Hn by done. apply (Hhit i v); [done|done|by apply HQ]. }
  rewrite (proj2 (Nat.ltb_lt _ _)) by (unfold MAXFILE in *; lia). rewrite slot_ind in HQ, Hn by done.
  destruct (decide (indirect ip = 0)) as [|Hi0]; [done|]. apply wp_bind. apply (Hhit NDIRECT (indirect ip)); [|done|].
  { destruct (lookup_lt_is_Some_2 (i_addrs ip) NDIRECT) as [v Hv]; [lia|]. unfold indirect. by rewrite Hv. }
  rewrite (proj2 (Z.eqb_neq (indirect ip) 0)) by done. apply wp_bind. eapply wp_f_geti; [exact Ht|exact Hk|]. rewrite (fo_dev _ _ _ _ Hf).
  apply wp_bind. eapply wp_f_bread; [exact Ht|done|rewrite map_size_empty; lia|]. intros bp s1 Ht1. rewrite insert_empty in Ht1.
  apply wp_bind. eapply wp_f_getb; [exact Ht1|apply lookup_singleton_eq|]. intros x Hx. rewrite Hx.
  rewrite (proj2 (Z.eqb_neq (get32 _ _) 0)) by done. apply wp_bind, wp_ret, wp_bind.
  eapply wp_f_brelse; [exact Ht1|apply lookup_singleton_eq|exact (ftx_clean _ _ _ _ _ _ _ _ _ _ _ _ Ht (lookup_empty _))|].
  intros s2 Ht2. rewrite delete_singleton_eq in Ht2. apply wp_ret. by apply HQ.
Qed.

(** The part of a block that is in a range of the file. *)
Lemma data_chunk cur ip l o m :
  file_ok cur ip → has_data cur ip l → (o + m ≤ length l)%nat → (o mod BSIZE + m ≤ BSIZE)%nat → (0 < m)%nat →
  slot cur ip (o / BSIZE) ≠ 0 ∧ take m (drop (o mod BSIZE) (cur (slot cur ip (o / BSIZE)))) = take m (drop o l).
Proof.
  intros Hf [Hsz Hd] Hol Hm H0. pose proof (fo_size _ _ _ _ Hf) as Hs4.
  assert (Hn : slot cur ip (o / BSIZE) ≠ 0).
  { apply (fo_full _ _ _ _ Hf); [apply block_lt; lia|]. pose proof (Nat.Div0.mul_div_le o BSIZE). lia. }
  split; [done|]. apply list_eq. intros i. destruct (decide (i < m)%nat) as [Hi|]; [|by rewrite !lookup_take_ge by lia].
  rewrite !lookup_take_lt, !lookup_drop by lia. rewrite <- Hd by lia. destruct (div_chunk o i) as [Hq Hr]; [lia|].
  unfold byte. by rewrite Hq, Hr, decide_False.
Qed.

Lemma readi_loop_done fuel k dst off n tot : n ≤ tot → readi_loop sleeps fuel k dst off n tot = mret (tot, []).
Proof. intros H. destruct fuel; cbn [readi_loop]; by rewrite (proj2 (Z.ltb_ge tot n)). Qed.

Lemma wp_readi_loop E it fuel L0 d ks cur T k ip o rem l n tot s (Q : Z * list Z → KState → Prop) :
  ftx L0 d ks cur ∅ T s → T !! k = Some ip → file_ok cur ip → has_data cur ip l → (size ks < NBUF)%nat →
  (it ≤ fuel)%nat → n = tot + Z.of_nat rem → (o + rem ≤ length l)%nat → (rem ≠ 0 → o mod BSIZE + rem ≤ it * BSIZE)%nat →
  (∀ s', ftx L0 d ks cur ∅ T s' → Q (n, take rem (drop o l)) s') →
  wp E (readi_loop sleeps fuel k Local (Z.of_nat o) n tot) Q s.
Proof.
  revert fuel o rem tot s Q. induction it as [|it IH]; intros fuel o rem tot s Q Ht Hk Hf Hd Hr Hfuel Hn Hol Hfit HQ;
    (destruct (decide (rem = 0%nat)) as [->|Hr0]; [rewrite readi_loop_done by lia; apply wp_ret; replace tot with n by lia; by apply HQ|specialize (Hfit Hr0)]); [lia|].
  destruct fuel as [|fuel]; [lia|]. cbn [readi_loop]. rewrite (proj2 (Z.ltb_lt tot n)) by lia.
  rewrite <- (Nat2Z.inj_div o BSIZE), Nat2Z.id, <- (Nat2Z.inj_mod o BSIZE), Nat2Z.id.
  set (m := Nat.min rem (BSIZE - o mod BSIZE)). pose proof (Nat.mod_upper_bound o BSIZE ltac:(done)) as Hmod.
  destruct (data_chunk cur ip l o m Hf Hd) as [Hs Hch]; [unfold m; lia|unfold m; lia|unfold m; lia|].
  assert (Hmax : (length l ≤ MAXFILE * BSIZE)%nat) by (pose proof (fo_size _ _ _ _ Hf) as Hs4; rewrite (proj1 Hd) in Hs4; lia).
  apply wp_bind. eapply wp_bmap_hit; [exact Ht|done|done|done|apply block_lt; lia|done|]. intros s1 Ht1.
  rewrite (proj2 (Z.eqb_neq (slot _ _ _) 0)) by done. apply wp_bind. eapply wp_f_geti; [exact Ht1|exact Hk|]. rewrite (fo_dev _ _ _ _ Hf).
  apply wp_bind. eapply wp_f_bread; [exact Ht1|done|rewrite map_size_empty; lia|]. intros bp s2 Ht2. rewrite insert_empty in Ht2.
  assert (Hm : Z.min (n - tot) (Z.of_nat BSIZE - Z.of_nat (o mod BSIZE)) = Z.of_nat m) by (unfold m; rewrite Nat2Z.inj_min; lia).
  rewrite Hm, Nat2Z.id. apply wp_bind. eapply wp_f_getb; [exact Ht2|apply lookup_singleton_eq|]. intros x Hx. rewrite Hx, Hch.
  apply wp_bind. cbn [put_out]. apply wp_ret. cbn [negb]. apply wp_bind.
  eapply wp_f_brelse; [exact Ht2|apply lookup_singleton_eq|exact (ftx_clean _ _ _ _ _ _ _ _ _ _ _ _ Ht1 (lookup_empty _))|].
  intros s3 Ht3. rewrite delete_singleton_eq in Ht3. apply wp_bind. cbn [advance].
  rewrite <- Nat2Z.inj_add, u32_id by (pose proof (file_range (o + m)); unfold m in *; lia).
  eapply (IH fuel (o + m)%nat (rem - m)%nat); [exact Ht3|done|done|done|done|lia|unfold m; lia|unfold m; lia| |].
  - intros Hne. assert (Hmb : (m = BSIZE - o mod BSIZE)%nat) by (unfold m in *; lia). rewrite Hmb, next_block. lia.
  - intros s4 Ht4. apply wp_ret. cbn [fst snd]. rewrite <- drop_drop, (take_take_drop (drop o l) m (rem - m)).
    replace (m + (rem - m))%nat with rem by (unfold m; lia). by apply HQ.
Qed.

Lemma wp_readi E L0 d ks cur T k ip o n l s (Q : Z * list Z → KState → Prop) :
  ftx L0 d ks cur ∅ T s → T !! k = Some ip → file_ok cur ip → has_data cur ip l → (size ks < NBUF)%nat → Z.of_nat (o + n) < 2 ^ 31 →
  (∀ s', ftx L0 d ks cur ∅ T s' → Q (Z.of_nat (length (take n (drop o l))), take n (drop o l)) s') →
  wp E (readi sleeps k Local (Z.of_nat o) (Z.of_nat n)) Q s.
Proof.
  intros Ht Hk Hf Hd Hr Hon HQ. unfold readi. apply wp_bind. eapply wp_f_geti; [exact Ht|exact Hk|].
  rewrite <- Nat2Z.inj_add, u32_id, (proj1 Hd) by lia. rewrite (proj2 (Z.ltb_ge (Z.of_nat (o + n)) _)), orb_false_r by lia.
  destruct (Z.ltb_spec (Z.of_nat (length l)) (Z.of_nat o)) as [Hlt|Hge].
  { apply wp_ret. rewrite drop_ge, take_nil in HQ by lia. by apply HQ. }
  set (r := length (take n (drop o l))) in *. assert (Hrr : (r = Nat.min n (length l - o))%nat) by (unfold r; rewrite length_take, length_drop; done).
  assert (Hn : (if Z.of_nat (length l) <? Z.of_nat (o + n) then Z.of_nat (length l) - Z.of_nat o else Z.of_nat n) = Z.of_nat r).
  { destruct (Z.ltb_spec (Z.of_nat (length l)) (Z.of_nat (o + n))); lia. }
  rewrite Hn, <- (Nat2Z.inj_div r BSIZE), Nat2Z.id. apply wp_bind.
  eapply (wp_readi_loop E _ _ L0 d ks cur T k ip o r l _ 0); [exact Ht|done|done|done|done|reflexivity|lia|lia| |].
  - intros _. pose proof (Nat.mod_upper_bound o BSIZE ltac:(done)). pose proof (Nat.div_mod_eq r BSIZE). pose proof (Nat.mod_upper_bound r BSIZE ltac:(done)). lia.
  - intros s' Ht'. apply wp_ret. cbn [fst snd]. rewrite s32_id by lia. replace (take r (drop o l)) with (take n (drop o l)); [by apply HQ|].
    destruct (decide (n ≤ length l - o)%nat); [f_equal; lia|]. rewrite !take_ge; [done|rewrite length_drop; lia..].
Qed.
End Rw.
