(* ===== verification/FileClient.v ===== *)
(** * Files as lists of bytes

    The contract of [writei] and [readi] between transactions: a file on the
    disk is a list of bytes; writing is atomic with respect to crashes. *)

From S2P Require Import Prelude CString Kernel KLogic Spinlock KMem Kalloc Vm VmSpec VmUser Proc ProcSpec Pipe Fork Bio BioSpec CacheSpec Log LogSpec Crash TxView Tx Fs FsSpec FileTx FileSpec FileData FileInode FileRw.
Open Scope Z_scope.
Open Scope os_scope.

(** A client that writes the bytes [bs] at offset [o] in one transaction, as
    [filewrite] does for each of its pieces. *)
Definition write_file `{KernelImage} `{Disk} (sleeps : nat) (k : nat) (bs : list Z) (o : nat) : M Z :=
  log_begin_op sleeps;;
  r ← writei sleeps k Local bs (Z.of_nat o) (Z.of_nat (length bs));
  log_end_op sleeps;;
  mret r.

Section Ext.
Context (dv : Z) (sb : SuperBlock) (f cur : Z → list Z).
Hypothesis Hhome : ∀ b, is_home (sb_logstart sb) b → f b = cur b.

Lemma used_home x : bitmap_ok cur sb → 0 ≤ x < sb_size sb → used f sb x = used cur sb x.
Proof. intros Hb Hx. unfold used. by rewrite Hhome by (by apply (bm_home _ _ Hb)). Qed.
Lemma bitmap_home : bitmap_ok cur sb → bitmap_ok f sb.
Proof.
  intros Hb. pose proof Hb as [H1 H2 H3 H4 H5]. split; [done|done|done| |].
  - intros b Hr. rewrite Hhome by (by apply H3). by apply H4.
  - intros b Hr. rewrite used_home by done. by apply H5.
Qed.
Lemma slot_home ip i : file_ok dv sb cur ip → (i ≤ MAXFILE)%nat → slot f ip i = slot cur ip i.
Proof.
  intros Hf Hi. destruct (decide (indirect ip = 0)) as [H0|Hn]; [unfold slot; by rewrite H0|]. apply slot_frame, Hhome.
  destruct (fo_own _ _ _ _ Hf MAXFILE) as [(_ & Hh & _) _ _ _]; [done|done|exact Hh].
Qed.
Lemma file_home ip : bitmap_ok cur sb → file_ok dv sb cur ip → file_ok dv sb f ip.
Proof.
  intros Hb Hf. pose proof Hf as [H1 H2 H3 H4 (H5a & H5b & H5c) H6 H7 H8]. split; try done.
  - split_and!; [done|rewrite used_home; [done|done|destruct H5a; lia]|rewrite Hhome; [done|by destruct H5a as (_ & ? & _)]].
  - intros i Hi. rewrite slot_home by done. intros H0. destruct (H6 i Hi H0) as [O1 O2 O3 O4].
    split; [done|rewrite used_home; [done|done|destruct O1; lia]|done|rewrite Hhome; [done|by destruct O1 as (_ & ? & _)]].
  - intros i j Hi Hj. rewrite !slot_home by done. by apply H7.
  - intros i Hi. rewrite slot_home by (done || lia). by apply H8.
Qed.
Lemma data_home ip l : file_ok dv sb cur ip → has_data cur ip l → has_data f ip l.
Proof.
  intros Hf [Hsz Hd]. split; [done|]. intros j Hj. rewrite <- (Hd j Hj). pose proof (fo_size _ _ _ _ Hf) as Hs.
  assert (Hjm : (j / BSIZE < MAXFILE)%nat) by (apply block_lt; lia). unfold byte. rewrite slot_home by (done || lia).
  case_decide as H0; [done|]. rewrite Hhome; [done|]. destruct (fo_own _ _ _ _ Hf (j / BSIZE)) as [(_ & ? & _) _ _ _]; [lia|done|done].
Qed.
End Ext.

Section Client.
Context {IMG : KernelImage} {D : Disk} {DL : DiskLaw D} (sleeps : nat) (me : nat) (pid dv : Z) (sb : SuperBlock).

(** Between transactions: entry [k] of the inode table is the inode [ip] of a
    file on the disk with the bytes [l]. *)
Record file_at (s : KState) (k : nat) (ip : Inode) (l : list Z) : Prop := {
  fa_quiet : fs_quiet me pid dv sb s;
  fa_lock : lock_free s Litable;
  fa_sb : fs_sb (fs s) = sb;
  fa_inode : itable s !! k = Some ip;
  fa_bitmap : bitmap_ok (block (fs_disk (fs s))) sb;
  fa_file : file_ok dv sb (block (fs_disk (fs s))) ip;
  fa_data : has_data (block (fs_disk (fs s))) ip l
}.

Lemma ftx_start L s : fs_quiet me pid dv sb s → lock_free s Litable → fs_sb (fs s) = sb → logst dv (sb_logstart sb) L [] →
  ∀ s1, cache dv s ∅ L (fs_disk (fs s)) s1 → ftx me pid dv sb L (fs_disk (fs s)) ∅ (block (fs_disk (fs s))) ∅ (itable s) s1.
Proof.
  intros [Hid Hl _ _ _ _] Hli Hsb HL s1 Hc. split. exists s. split_and!; [done|done|done|done|]. by apply in_tx_start.
Qed.

(** What [writei] leaves of the rest of the disk. *)
Definition rest_kept (d d' : list (Z * list Z)) (ip : Inode) : Prop :=
  ∀ x, 0 ≤ x < sb_size sb → is_home (sb_logstart sb) x → used (block d) sb x = true → ¬ in_bitmap sb x → x ≠ IBLOCK (i_inum ip) sb →
    (∀ i, (i ≤ MAXFILE)%nat → slot (block d) ip i ≠ x) → block d' x = block d x.

(** The state in which [writei] leaves the blocks. *)
Lemma written_file cur ip l o w bs cur1 ip1 :
  file_ok dv sb cur ip → has_data cur ip l → (o ≤ length l)%nat → (o + length bs ≤ MAXFILE * BSIZE)%nat → (w ≤ length bs)%nat →
  wrote dv sb cur ip o (take w bs) cur1 ip1 →
  let ip' := grow_size ip1 (Z.of_nat (o + w)) in let B := IBLOCK (i_inum ip) sb in
  let cur' := upd B (put_at (cur1 B) (dinode_at (i_inum ip)) (dinode_bytes (dinode_of ip'))) cur1 in
  file_ok dv sb cur' ip' ∧ bitmap_ok cur' sb ∧ has_data cur' ip' (put_at l o (take w bs)) ∧
  ip' = with_addrs (i_addrs ip') (with_isize (i_size ip') ip) ∧ (full sb cur1 → full sb cur') ∧ get_dinode (cur' B) (dinode_at (i_inum ip)) = dinode_of ip' ∧
  ∀ n, n ≠ i_inum ip → n / IPB = i_inum ip / IPB → get_dinode (cur' B) (dinode_at n) = get_dinode (cur B) (dinode_at n).
Proof.
  intros Hf Hd Ho Hmax Hw W ip' B cur'. assert (Hlw : length (take w bs) = w) by (rewrite length_take; lia).
  pose proof (wr_bitmap _ _ _ _ _ _ _ _ W) as Hb1. pose proof (wr_same _ _ _ _ _ _ _ _ W) as Hsame.
  destruct (wrote_sized dv sb _ _ _ _ _ _ l W Hf Hd Ho) as [Hf1 Hd1]; [rewrite Hlw; lia|]. rewrite Hlw in Hf1, Hd1. fold ip' in Hf1, Hd1.
  assert (Hinum : i_inum ip' = i_inum ip) by (unfold ip', grow_size; rewrite Hsame; by case_match).
  pose proof Hf1 as [_ _ Ha _ (_ & _ & HlB) _ _ _]. rewrite Hinum in HlB. fold B in HlB.
  assert (HlD : length (dinode_bytes (dinode_of ip')) = 64%nat) by (by apply length_dinode).
  pose proof (dinode_at_fits (i_inum ip)) as Hfits.
  assert (HB : cur1 B = cur B).
  { pose proof Hf as [_ _ _ _ ((H1 & H2 & H3) & H5 & _) H6 _ _]. apply (wr_frame _ _ _ _ _ _ _ _ W); [lia|done| |].
    - intros (y & Hy & Heq). by apply (H3 y).
    - intros i Hi Heq. destruct (decide (slot cur ip i = 0)); [lia|]. by destruct (H6 i Hi). }
  destruct (file_iblock dv sb cur1 ip' (put_at (cur1 B) (dinode_at (i_inum ip)) (dinode_bytes (dinode_of ip')))) as (Hf2 & Hb2 & Hs2 & Hu2 & Hby2);
    [done|done|rewrite length_put_at; lia|]. rewrite Hinum in Hf2, Hb2, Hs2, Hu2, Hby2. fold B cur' in Hf2, Hb2, Hs2, Hu2, Hby2.
  split_and!; [done|done| | |intros Hfull x Hx; rewrite Hu2 by done; by apply Hfull| |].
  - destruct Hd1 as [Hsz Hdb]. split; [done|]. intros j Hj. rewrite Hby2; [by apply Hdb|]. pose proof (fo_size _ _ _ _ Hf1). apply block_lt. lia.
  - unfold ip', grow_size. rewrite Hsame. case_match; by destruct ip.
  - unfold cur'. rewrite upd_eq. apply get_put_dinode; [by eapply file_dinode|lia].
  - intros n Hn Hq. unfold cur'. rewrite upd_eq, <- HB. apply get_dinode_other; [done|lia|]. apply dinode_at_other; [done|by rewrite Hq].
Qed.

Lemma wp_write_file k ip l bs o s (Q : Z → KState → Prop) :
  file_at s k ip l → 0 ≤ dv < 2 ^ 31 → (o ≤ length l)%nat → (length bs ≤ 3 * BSIZE)%nat → (o + length bs ≤ MAXFILE * BSIZE)%nat →
  (∀ w cur1 ip1 s', (w ≤ length bs)%nat → wrote dv sb (block (fs_disk (fs s))) ip o (take w bs) cur1 ip1 → ((w < length bs)%nat → full sb cur1) →
     let ip' := grow_size ip1 (Z.of_nat (o + w)) in let B := IBLOCK (i_inum ip) sb in
     let cur' := upd B (put_at (cur1 B) (dinode_at (i_inum ip)) (dinode_bytes (dinode_of ip'))) cur1 in
     itable s' !! k = Some ip' → lock_free s' Litable → fs_sb (fs s') = sb → fs_quiet me pid dv sb s' → (∀ b, is_home (sb_logstart sb) b → block (fs_disk (fs s')) b = cur' b) →
     crash_atomic sleeps me pid dv sb (fs_disk (fs s)) (fs_disk (fs s')) cur' → Q (Z.of_nat w) s') →
  wp Atomic (write_file sleeps k bs o) Q s.
Proof.
  intros [Hq Hli Hsb Hk Hb Hf Hd] Hdv Ho Hlen Hmax HQ. pose proof Hq as [Hid Hl Hrep HL [Hout Hcm] Hh].
  set (d := fs_disk (fs s)) in *. set (L := fs_log (fs s)) in *.
  assert (Hc : cache dv s ∅ L d s) by (split; [by apply after_same|done..]).
  unfold write_file. apply wp_bind. eapply (wp_begin_op sleeps me pid dv s Hid Hl); [exact Hc|split; [done|]|].
  { rewrite Hout, (ls_n _ _ _ _ HL). unfold LOGBLOCKS, MAXOPBLOCKS. cbn. lia. }
  intros s1 Hc1. rewrite Hout in Hc1. set (L1 := with_outstanding (0 + 1) L) in *. apply wp_bind.
  set (it := Nat.min 4 (S (S (length bs / BSIZE)))).
  eapply (wp_writei sleeps me pid dv sb Hdv Atomic L1 d ∅ (block d) (itable s) k ip o bs l it); [|done|done|done|done|done|done|done| | | |].
  { apply ftx_start; [done|done|done|exact (logst_with dv (sb_logstart sb) L [] 1 (l_committing L) HL)|exact Hc1]. }
  { pose proof (Nat.mod_upper_bound o BSIZE ltac:(done)). pose proof (Nat.div_mod_eq (length bs) BSIZE).
    pose proof (Nat.mod_upper_bound (length bs) BSIZE ltac:(done)). unfold it. unfold BSIZE in *. lia. }
  { unfold it. lia. }
  { apply room_empty. rewrite size_empty. unfold it, LOGBLOCKS, MAXOPBLOCKS. lia. }
  intros w ks cur1 ip1 s2 Hw W Hfull ip' B Hsz [(s0 & Hid0 & Hl0 & Hsb0 & HT0 & Ht)]. apply wp_bind.
  destruct Hl0 as [Hl0 Hli0].
  eapply (wp_end_tx sleeps me pid dv sb s0 L1 d); [done|done|done|done|done| |exact Ht|].
  { rewrite size_empty in Hsz. unfold it, LOGBLOCKS, MAXOPBLOCKS in *. lia. }
  intros s3 Ha Hsb3 Hq3 Hb3 Hca. apply wp_ret. eapply HQ; [done|exact W|intros Hlt; by apply Hfull| |by eapply after_free|by rewrite Hsb3|done|done|done].
  rewrite (after_itable _ _ _ Ha), HT0. apply list_lookup_insert_eq. by eapply lookup_lt_Some.
Qed.

(** C4: a file is a list of bytes, and [writei] of a source in kernel memory,
    in a transaction of its own, replaces the bytes from an offset at most the
    file's length on, or appends, for at most [3 * BSIZE] bytes (the pieces
    [filewrite] makes) and a file of direct and indirect blocks.  It never panics; it writes all bytes or, when the
    disk has become full, a prefix whose length it returns.  The inode on the
    disk is that in memory, the other inodes of its block and every block in
    use outside the file are unchanged, and after a crash the disk has all of
    this or nothing. *)
Theorem writei_updates_file (k : nat) (ip : Inode) (l bs : list Z) (o : nat) (s : KState)
  (Hfile : file_at s k ip l) (Hdv : 0 ≤ dv < 2 ^ 31) (Ho : (o ≤ length l)%nat) (Hlen : (length bs ≤ 3 * BSIZE)%nat)
  (Hmax : (o + length bs ≤ MAXFILE * BSIZE)%nat) :
  ∃ w ip' s', write_file sleeps k bs o s = Ret (Z.of_nat w) s' ∧ (w ≤ length bs)%nat ∧ file_at s' k ip' (put_at l o (take w bs)) ∧
    ip' = with_addrs (i_addrs ip') (with_isize (i_size ip') ip) ∧
    ((w < length bs)%nat → full sb (block (fs_disk (fs s')))) ∧
    (let B := IBLOCK (i_inum ip) sb in
     get_dinode (block (fs_disk (fs s')) B) (dinode_at (i_inum ip)) = dinode_of ip' ∧
     ∀ n, n ≠ i_inum ip → n / IPB = i_inum ip / IPB →
       get_dinode (block (fs_disk (fs s')) B) (dinode_at n) = get_dinode (block (fs_disk (fs s)) B) (dinode_at n)) ∧
    rest_kept (fs_disk (fs s)) (fs_disk (fs s')) ip ∧
    crash_atomic sleeps me pid dv sb (fs_disk (fs s)) (fs_disk (fs s')) (block (fs_disk (fs s'))).
Proof.
  set (d := fs_disk (fs s)) in *.
  cut (wp Atomic (write_file sleeps k bs o) (λ r s', ∃ w ip', r = Z.of_nat w ∧ (w ≤ length bs)%nat ∧ file_at s' k ip' (put_at l o (take w bs)) ∧
    ip' = with_addrs (i_addrs ip') (with_isize (i_size ip') ip) ∧ ((w < length bs)%nat → full sb (block (fs_disk (fs s')))) ∧
    (let B := IBLOCK (i_inum ip) sb in get_dinode (block (fs_disk (fs s')) B) (dinode_at (i_inum ip)) = dinode_of ip' ∧
     ∀ n, n ≠ i_inum ip → n / IPB = i_inum ip / IPB → get_dinode (block (fs_disk (fs s')) B) (dinode_at n) = get_dinode (block d B) (dinode_at n)) ∧
    rest_kept d (fs_disk (fs s')) ip ∧ crash_atomic sleeps me pid dv sb d (fs_disk (fs s')) (block (fs_disk (fs s')))) s).
  { intros (r & s' & Hrun & w & ip' & -> & Hrest)%wp_atomic. by exists w, ip', s'. }
  eapply wp_write_file; [exact Hfile|done|done|done|done|]. destruct Hfile as [Hq Hli Hsb Hk Hb Hf Hd].
  intros w cur1 ip1 s' Hw W Hfull ip' B cur' Hk' Hli' Hsb' Hq' Hb' Hca. exists w, ip'.
  destruct (written_file (block d) ip l o w bs cur1 ip1) as (Hf2 & Hb2 & Hd2 & Hsame & Hfl & Hdi & Hot); [done..|].
  fold ip' B cur' in Hf2, Hb2, Hd2, Hsame, Hfl, Hdi, Hot.
  assert (HB : block (fs_disk (fs s')) B = cur' B) by (apply Hb'; pose proof Hf as [_ _ _ _ ((_ & ? & _) & _) _ _ _]; done).
  split_and!; [done|done| |done| | | |].
  - split; [done|done|done|done|by eapply bitmap_home|by eapply file_home|by eapply data_home].
  - intros Hlt x Hx. rewrite (used_home sb _ cur' Hb') by done. exact (Hfl (Hfull Hlt) x Hx).
  - cbn zeta. fold B. rewrite HB. by split.
  - intros x Hx Hh Hu Hnb Hnx Hns. rewrite Hb' by done. unfold cur'. rewrite upd_ne by done. by apply (wr_frame _ _ _ _ _ _ _ _ W).
  - eapply crash_atomic_ext; [|exact Hca]. intros b Hb0. by rewrite Hb'.
Qed.

(** A transaction that has logged nothing leaves the state between
    transactions. *)
Lemma ftx_quiet L d cur T s :
  ftx me pid dv sb L d ∅ cur ∅ T s → l_outstanding L = 0 → l_committing L = 0 → is_header (block d (sb_logstart sb)) [] →
  fs_quiet me pid dv sb s ∧ lock_free s Litable ∧ fs_sb (fs s) = sb ∧ itable s = T ∧ fs_disk (fs s) = d.
Proof.
  intros Hft Ho Hcm Hh. pose proof (ftx_itable _ _ _ _ _ _ _ _ _ _ _ Hft) as HT. destruct Hft as [(s0 & Hid & [Hl Hli] & Hsb & _ & Ht)].
  apply in_tx_quiet in Ht as (blks & A & L' & Hc & HL & Ho' & Hcm' & _ & Hlen & HsA & _). rewrite size_empty in Hlen.
  apply nil_length_inv in Hlen as ->. apply map_size_empty_inv in HsA as ->.
  split_and!; [|eapply after_free; [apply Hc|done]|by rewrite (ca_sb _ _ _ _ _ _ Hc)|done|apply Hc]. eapply quiet_after; [exact Hid|done|exact Hc|done|by rewrite Ho'|by rewrite Hcm'|done].
Qed.

(** C5: [readi] to a destination in kernel memory, on a file with the bytes
    [l], returns the bytes from the offset on, as many as asked for and as the file has, through direct and indirect
    blocks alike; past the end it returns 0.  It changes neither the disk nor
    the file. *)
Theorem readi_reads_file (k : nat) (ip : Inode) (l : list Z) (o n : nat) (s : KState)
  (Hfile : file_at s k ip l) (Hn : Z.of_nat (o + n) < 2 ^ 31) :
  ∃ s', readi sleeps k Local (Z.of_nat o) (Z.of_nat n) s = Ret (Z.of_nat (length (take n (drop o l))), take n (drop o l)) s' ∧
    file_at s' k ip l ∧ fs_disk (fs s') = fs_disk (fs s).
Proof.
  destruct Hfile as [Hq Hli Hsb Hk Hb Hf Hd]. pose proof Hq as [Hid Hl Hrep HL [Hout Hcm] Hh].
  set (d := fs_disk (fs s)) in *. set (L := fs_log (fs s)) in *.
  assert (Hc : cache dv s ∅ L d s) by (split; [by apply after_same|done..]).
  cut (wp Atomic (readi sleeps k Local (Z.of_nat o) (Z.of_nat n)) (λ r s', r = (Z.of_nat (length (take n (drop o l))), take n (drop o l)) ∧
    file_at s' k ip l ∧ fs_disk (fs s') = d) s).
  { intros (r & s' & Hrun & -> & Hrest)%wp_atomic. by exists s'. }
  eapply (wp_readi sleeps me pid dv sb Atomic L d ∅ (block d) (itable s)); [|done|done|done|rewrite size_empty; unfold NBUF, MAXOPBLOCKS; lia|done|].
  { by apply ftx_start. }
  intros s' Ht. split; [done|]. destruct (ftx_quiet _ _ _ _ _ Ht Hout Hcm Hh) as (Hq' & Hli' & Hsb' & HT' & Hd').
  split; [|done]. split; rewrite ?Hd', ?HT'; done.
Qed.
End Client.

(** ** A concrete file *)

(** Inode 2 with five bytes in block 47. *)
Definition file_inode : Inode := mkInode 1 2 1 (mkSleep true 4) true 2 0 0 1 5 (47 :: replicate NDIRECT 0).
Definition iinit_lock (s : KState) : KState := set_locks (<[Litable := mkLock 0 "itable" None]> (locks s)) s.
Definition file_boot : KState := set_itable (<[0%nat := file_inode]> (itable alloc_boot)) (iinit_lock alloc_boot).

Lemma quiet_set_itable me pid dv sb T s : fs_quiet me pid dv sb s → fs_quiet me pid dv sb (set_itable T s).
Proof. intros [H1 H2 H3 H4 H5 H6]. split; [by apply idle_set_itable|exact H2|exact H3|exact H4|exact H5|exact H6]. Qed.

Lemma quiet_iinit me pid dv sb s : fs_quiet me pid dv sb s → fs_quiet me pid dv sb (iinit_lock s).
Proof.
  assert (Hlk : ∀ l, l ≠ Litable → lock_free s l → lock_free (iinit_lock s) l) by (intros l Hl [nm Hn]; exists nm; cbn; by rewrite lookup_insert_ne).
  intros [[(H1 & H2 & H3) H4 H5 H6 H7] L1 L2 L3 L4 L5]. split; [|by apply Hlk|done..]. split; [|done|done|by apply Hlk|intros n Hn; apply Hlk; [done|by apply H7]].
  split_and!; [done|done|]. intros j Hj. apply Hlk; [done|by apply H3].
Qed.

Lemma file_inode_slot cur i : slot cur file_inode i = if decide (i = 0%nat) then 47 else 0.
Proof.
  unfold slot. change (indirect file_inode) with 0. cbn [i_addrs file_inode]. destruct i as [|i]; [done|]. rewrite (decide_False (P := S i = 0%nat)) by lia.
  destruct (decide (S i < NDIRECT)%nat); [|by destruct (decide (S i = MAXFILE))]. rewrite lookup_cons. by rewrite lookup_replicate_2 by lia.
Qed.
Lemma alloc_sb_data b : 32 < b < 100 → b ≠ 46 → data_block alloc_sb b.
Proof.
  intros Hb Hn. split_and!; [lia|cbn; lia|unfold is_home, LOGBLOCKS, MAXOPBLOCKS; cbn; lia|]. intros x Hx. rewrite alloc_sb_bblock by exact Hx. lia.
Qed.
Lemma file_inode_ok : file_ok 1 alloc_sb (block (fs_disk (fs alloc_boot))) file_inode.
Proof.
  assert (HB : IBLOCK (i_inum file_inode) alloc_sb = 33) by reflexivity.
  split; rewrite ?HB.
  - reflexivity.
  - unfold is_short. cbn [file_inode i_type i_major i_minor i_nlink]. lia.
  - reflexivity.
  - cbn [i_size file_inode]. split; [lia|]. apply Z.leb_le. vm_compute. reflexivity.
  - split_and!; [apply alloc_sb_data; lia|rewrite alloc_boot_used by lia; reflexivity|vm_compute; reflexivity].
  - intros i Hi. rewrite file_inode_slot. case_decide; [|congruence]. intros _. split; [apply alloc_sb_data; lia|rewrite alloc_boot_used by lia; reflexivity| |vm_compute; reflexivity].
    rewrite HB. lia.
  - intros i j Hi Hj. rewrite !file_inode_slot. repeat case_decide; congruence.
  - intros i Hi. rewrite file_inode_slot. cbn [i_size file_inode]. case_decide; [lia|]. unfold BSIZE. lia.
Qed.
Lemma file_at_set me pid dv sb s k ip l :
  fs_quiet me pid dv sb s → fs_sb (fs s) = sb → (k < length (itable s))%nat → bitmap_ok (block (fs_disk (fs s))) sb →
  file_ok dv sb (block (fs_disk (fs s))) ip → has_data (block (fs_disk (fs s))) ip l → file_at me pid dv sb (set_itable (<[k := ip]> (itable s)) (iinit_lock s)) k ip l.
Proof.
  intros H1 H2 H3 H4 H5 H6. split; [by apply quiet_set_itable, quiet_iinit|exists "itable"%string; cbn; by rewrite lookup_insert_eq|exact H2|by apply list_lookup_insert_eq|exact H4|exact H5|exact H6].
Qed.
Lemma file_boot_at : file_at 1 4 1 alloc_sb file_boot 0 file_inode (replicate 5 0).
Proof.
  apply file_at_set; [exact alloc_boot_quiet|vm_compute; reflexivity| |exact alloc_boot_bitmap|exact file_inode_ok|].
  - apply Nat.ltb_lt. vm_compute. reflexivity.
  - split; [reflexivity|]. intros j Hj. cbn [length replicate] in Hj. do 5 (destruct j as [|j]; [vm_compute; reflexivity|]). lia.
Qed.

Lemma writei_updates_file_witness :
  ∃ w ip' s', @write_file sample_image polled_disk 0 0 [104; 105; 106] 3 file_boot = Ret (Z.of_nat w) s' ∧
    file_at 1 4 1 alloc_sb s' 0 ip' (put_at (replicate 5 0) 3 (take w [104; 105; 106])).
Proof.
  destruct (@writei_updates_file sample_image polled_disk polled_disk_law 0 1 4 1 alloc_sb 0 file_inode (replicate 5 0) [104; 105; 106] 3 file_boot)
    as (w & ip' & s' & Hrun & _ & Hf & _).
  - exact file_boot_at.
  - lia.
  - apply Nat.leb_le. reflexivity.
  - apply Nat.leb_le. reflexivity.
  - apply Nat.leb_le. vm_compute. reflexivity.
  - exists w, ip', s'. split; [exact Hrun|exact Hf].
Defined.
Lemma readi_reads_file_witness :
  ∃ s', @readi sample_image polled_disk 0 0 Local 1 10 file_boot = Ret (4, [0; 0; 0; 0]) s' ∧ file_at 1 4 1 alloc_sb s' 0 file_inode (replicate 5 0).
Proof.
  destruct (@readi_reads_file sample_image polled_disk polled_disk_law 0 1 4 1 alloc_sb 0 file_inode (replicate 5 0) 1 10 file_boot) as (s' & Hrun & Hf & _).
  - exact file_boot_at.
  - lia.
  - exists s'. split; [exact Hrun|exact Hf].
Defined.
