(* ===== verification/Dir.v ===== *)
(** * Directories as maps

    The bytes of a directory are entries of [DESIZ] bytes; those with an inode
    number other than 0 make a map from names to inode numbers.  A name counts
    with its first [DIRSIZ] bytes up to a NUL. *)

From S2P Require Import Prelude CString Kernel KEquiv KLogic Spinlock KMem Kalloc Vm Proc Pipe Fork Bio Log LogSpec Fs FileData FileInode FsPath.
Open Scope Z_scope.
Open Scope os_scope.

(** The name in an array. *)
Definition file_name (s : list Z) : list Z := take DIRSIZ (upto_nul s).
Definition dir_entry (l : list Z) (j : nat) : list Z := take DESIZ (drop (DESIZ * j) l).
(** What entry [j] binds. *)
Definition dir_bind (l : list Z) (j : nat) : option (list Z * Z) :=
  let de := dir_entry l j in if de_inum de =? 0 then None else Some (file_name (de_name de), de_inum de).
(** The number of entries. *)
Definition dir_size (l : list Z) : nat := length l / DESIZ.
(** The bindings of the entries from [j] on; the first of a name counts. *)
Definition dir_from (l : list Z) (j : nat) : gmap (list Z) Z := list_to_map (omap (dir_bind l) (seq j (dir_size l - j))).
Definition dir_map (l : list Z) : gmap (list Z) Z := dir_from l 0.

Lemma namecmp_file_name s t : namecmp s t = 0 ↔ file_name s = file_name t.
Proof. apply str_ncmp_zero. Qed.

Lemma dir_from_end l : dir_from l (dir_size l) = ∅.
Proof. unfold dir_from. by rewrite Nat.sub_diag. Qed.
Lemma dir_from_step l j :
  (j < dir_size l)%nat →
  dir_from l j = match dir_bind l j with Some (n, i) => <[n := i]> (dir_from l (S j)) | None => dir_from l (S j) end.
Proof.
  intros Hj. unfold dir_from. replace (dir_size l - j)%nat with (S (dir_size l - S j)) by lia. cbn [seq omap list_omap].
  by destruct (dir_bind l j) as [[n i]|].
Qed.

Lemma list_to_map_middle (l1 l2 : list (list Z * Z)) n i :
  n ∉ l1.*1 → list_to_map (l1 ++ (n, i) :: l2) =@{gmap (list Z) Z} <[n := i]> (list_to_map (l1 ++ l2)).
Proof.
  induction l1 as [|[n1 i1] l1 IH]; cbn; [done|]. intros [Hn Hl]%not_elem_of_cons.
  rewrite IH by done. by apply insert_insert_ne.
Qed.

(** ** A directory with entry [j] replaced *)

Section Put.
Context (l : list Z) (j : nat) (de : list Z).
Hypothesis Hlen : (length l = DESIZ * dir_size l)%nat.
Hypothesis Hj : (j ≤ dir_size l)%nat.
Hypothesis Hde : length de = DESIZ.
Let l' : list Z := put_at l (DESIZ * j) de.

Lemma put_size : dir_size l' = Nat.max (dir_size l) (S j) ∧ (length l' = DESIZ * dir_size l')%nat.
Proof.
  assert (Hl : (length l' = DESIZ * Nat.max (dir_size l) (S j))%nat)
    by (unfold l', put_at; rewrite !length_app, length_take, length_drop, Hde; unfold DESIZ in *; lia).
  assert (Hs : dir_size l' = Nat.max (dir_size l) (S j)) by (unfold dir_size at 1; rewrite Hl, Nat.mul_comm; by apply Nat.div_mul).
  by rewrite Hs.
Qed.
Lemma entry_put_eq : dir_entry l' j = de.
Proof.
  unfold dir_entry, l'. rewrite <- (Nat.add_0_r (DESIZ * j)) at 1. rewrite read_put_at by (unfold DESIZ in *; lia). by rewrite drop_0, take_ge by lia.
Qed.
Lemma entry_put_ne i : (i < dir_size l)%nat → i ≠ j → dir_entry l' i = dir_entry l i.
Proof.
  intros Hi Hne. unfold dir_entry, l'. apply list_eq. intros x. destruct (decide (x < DESIZ)%nat) as [Hx|]; [|by rewrite !lookup_take_ge by lia].
  rewrite !lookup_take_lt, !lookup_drop by lia. unfold put_at. destruct (decide (i < j)%nat) as [Hlt|Hge].
  - rewrite lookup_app_l by (rewrite length_take; unfold DESIZ in *; lia). apply lookup_take_lt. unfold DESIZ in *; lia.
  - rewrite lookup_app_r, length_take, Nat.min_l, lookup_app_r, lookup_drop, Hde by (rewrite ?length_take; unfold DESIZ in *; lia). f_equal. unfold DESIZ in *; lia.
Qed.

(** Filling a free entry, or one behind the last, adds its binding. *)
Lemma dir_map_put n i :
  (j < dir_size l → dir_bind l j = None)%nat → dir_bind l' j = Some (n, i) → dir_map l !! n = None →
  dir_map l' = <[n := i]> (dir_map l).
Proof.
  intros Hfree Hb Hn. destruct put_size as [Hs _]. unfold dir_map, dir_from in *. rewrite !Nat.sub_0_r in *. rewrite Hs.
  assert (Hother : ∀ a c, (a + c ≤ dir_size l)%nat → (j < a ∨ a + c ≤ j)%nat → omap (dir_bind l') (seq a c) = omap (dir_bind l) (seq a c)).
  { intros a c Hc Ho. apply list_omap_ext, Forall_Forall2_diag, Forall_forall. intros x [Hx1 Hx2]%elem_of_seq.
    unfold dir_bind. by rewrite entry_put_ne by lia. }
  assert (Hk : n ∉ (omap (dir_bind l) (seq 0 (dir_size l))).*1) by (by apply not_elem_of_list_to_map).
  destruct (decide (j < dir_size l)%nat) as [Hlt|Hge].
  - rewrite Nat.max_l by lia. assert (Hseq : seq 0 (dir_size l) = seq 0 j ++ j :: seq (S j) (dir_size l - S j)).
    { replace (dir_size l) with (j + S (dir_size l - S j))%nat at 1 by lia. by rewrite seq_app. }
    rewrite Hseq, omap_app, fmap_app, not_elem_of_app in Hk. destruct Hk as [Hk _].
    rewrite Hseq, !omap_app. cbn [omap list_omap].
    rewrite Hb, (Hfree Hlt), !Hother by lia. by apply list_to_map_middle.
  - replace (Nat.max (dir_size l) (S j)) with (j + 1)%nat by lia. assert (Hjs : j = dir_size l) by lia. rewrite <- Hjs in *.
    rewrite seq_app, omap_app. cbn [seq omap list_omap Nat.add]. rewrite Hb, Hother by lia.
    rewrite list_to_map_middle by done. by rewrite app_nil_r.
Qed.
End Put.

(** The entry [dirlink] writes. *)
Lemma dir_entry_new name inum :
  no_nul name → 0 < inum < 2 ^ 16 →
  let de := dirent inum (str_ncpy name DIRSIZ) in length de = DESIZ ∧ de_inum de = inum ∧ file_name (de_name de) = file_name name.
Proof.
  intros Hn Hi de. destruct (str_ncpy_name name DIRSIZ Hn) as [Hu Hl]. split_and!.
  - unfold de, dirent. by rewrite length_app, le_bytes_length, Hl.
  - unfold de, de_inum, dirent, get16. rewrite drop_0, take_app_length' by (by rewrite le_bytes_length). rewrite le_val_bytes. apply Z.mod_small. change (256 ^ Z.of_nat 2) with (2 ^ 16). lia.
  - unfold file_name, de, de_name, dirent. rewrite drop_app_length', (take_ge (str_ncpy _ _)) by (rewrite ?le_bytes_length; lia || done).
    by rewrite Hu, (upto_nul_full name Hn), take_take, Nat.min_id.
Qed.
Lemma dir_map_link l j name inum :
  no_nul name → 0 < inum < 2 ^ 16 → (length l = DESIZ * dir_size l)%nat → (j ≤ dir_size l)%nat → (j < dir_size l → dir_bind l j = None)%nat →
  dir_map l !! file_name name = None →
  let l' := put_at l (DESIZ * j) (dirent inum (str_ncpy name DIRSIZ)) in
  dir_map l' = <[file_name name := inum]> (dir_map l) ∧ (length l' = DESIZ * dir_size l')%nat.
Proof.
  intros Hn Hi Hl Hj Hf Hk. destruct (dir_entry_new name inum Hn Hi) as (H1 & H2 & H3). split; [|by apply put_size].
  apply dir_map_put; [done|done|done|done| |done]. unfold dir_bind. rewrite entry_put_eq by done. rewrite H2, H3.
  by rewrite (proj2 (Z.eqb_neq inum 0)) by lia.
Qed.
