(* ===== verification/DirSpec.v ===== *)
(** * Directory operations

    [iget] and [iput] on the inode table, [dirlookup] and [dirlink] on a
    directory, against the map of the directory. *)

From S2P Require Import Prelude CString Kernel KLogic Spinlock KMem Kalloc Vm VmSpec VmUser Proc ProcSpec Pipe Fork Bio BioSpec CacheSpec Log LogSpec Crash TxView Tx Fs FsSpec FsPath FileTx FileSpec FileData FileInode FileRw FileClient Dir.
Open Scope Z_scope.
Open Scope os_scope.

(** ** The inode table *)

(** Entry [ip] is in use for inode [inum] of device [dev]. *)
Definition inode_is (dev inum : Z) (ip : Inode) : Prop := 0 < i_ref ip ∧ i_dev ip = dev ∧ i_inum ip = inum.
Global Instance inode_is_dec dev inum ip : Decision (inode_is dev inum ip).
Proof. unfold inode_is. apply _. Defined.

Record itable_ok (T : list Inode) : Prop := {
  it_len : length T = NINODE;
  it_ref : ∀ k ip, T !! k = Some ip → 0 ≤ i_ref ip < 2 ^ 31 - 1
}.
(** The inode has an entry or there is a free one. *)
Definition can_get (T : list Inode) (dev inum : Z) : Prop :=
  ∃ k ip, T !! k = Some ip ∧ (i_ref ip = 0 ∨ inode_is dev inum ip).

(** What [iget] does to the table. *)
Definition got (T : list Inode) (dev inum : Z) (k : nat) (T' : list Inode) : Prop :=
  ∃ ip, T !! k = Some ip ∧
    (inode_is dev inum ip ∧ T' = <[k := with_iref (i_ref ip + 1) ip]> T ∨
     i_ref ip = 0 ∧ (∀ j jp, T !! j = Some jp → ¬ inode_is dev inum jp) ∧ T' = <[k := reuse_inode dev inum ip]> T).

(** Entries in use stay as they are. *)
Definition kept (T T' : list Inode) : Prop := ∀ j jp, T !! j = Some jp → 0 < i_ref jp → T' !! j = Some jp.

Section Table.
Context {IMG : KernelImage} {D : Disk} {DL : DiskLaw D} (sleeps : nat) (me : nat) (pid dv : Z) (sb : SuperBlock).
#[local] Abbreviation ftx := (ftx me pid dv sb).

Lemma ftx_sync L0 d ks cur H T s : ftx L0 d ks cur H T s → sync_ok s ∧ lock_free s Litable.
Proof.
  intros [(s0 & Hid & [_ Hl] & _ & _ & [blks A L Hc _ _ _ _ _ _])]. split; [|eapply after_free; [apply Hc|done]].
  eapply idle_sync, idle_after; [exact Hid|apply Hc].
Qed.

(** The critical sections of the inode table. *)
Lemma wp_f_acquire E L0 d ks cur H T s (Q : unit → KState → Prop) :
  ftx L0 d ks cur H T s → (itable (acq Litable s) = T → Q tt (acq Litable s)) → wp E (acquire Litable) Q s.
Proof. intros Ht HQ. apply wp_acquire; [by eapply ftx_sync|]. apply HQ. exact (ftx_itable _ _ _ _ _ _ _ _ _ _ _ Ht). Qed.

Lemma wp_f_release E L0 d ks cur H T T' s (Q : unit → KState → Prop) :
  ftx L0 d ks cur H T s → (∀ s', ftx L0 d ks cur H T' s' → Q tt s') → wp E (release Litable) Q (set_itable T' (acq Litable s)).
Proof.
  intros Ht HQ. destruct (ftx_sync _ _ _ _ _ _ _ Ht) as [Hs Hl]. apply (wp_unlock E Litable _ s); [done|done|done|].
  intros s' Hs'. apply HQ. destruct Ht as [(s0 & Hid & Hl0 & Hsb & HT & [blks A L [H1 H2 H3 H4 H5] HL Ho Hcm Hnd Hks Hsl])].
  assert (Hs2 : s' ≡k set_itable T' s) by (rewrite Hs'; by destruct s).
  split. exists (set_itable T' s0). split_and!; [by apply idle_set_itable|done|done|done|].
  exists blks A L; [|done..]. pose proof (keq_fs _ _ Hs2) as Hf. change (fs (set_itable T' s)) with (fs s) in Hf.
  split; rewrite ?Hf; [|done..]. destruct (after_set_itable T' _ _ _ H1) as (P & HP & Heq). exists P. split; [done|]. by rewrite Hs2.
Qed.

Lemma wp_iget_scan E l dev inum e T s (Q : nat + option nat → KState → Prop) :
  itable s = T → Forall (λ k, k < length T)%nat l →
  (∀ k ip, T !! k = Some ip → inode_is dev inum ip → Q (inl k) s) →
  (∀ e', Forall (λ k, ∀ ip, T !! k = Some ip → ¬ inode_is dev inum ip) l →
     match e' with
     | Some k => e = Some k ∨ ∃ ip, T !! k = Some ip ∧ i_ref ip = 0
     | None => e = None ∧ Forall (λ k, ∀ ip, T !! k = Some ip → i_ref ip ≠ 0) l
     end → Q (inr e') s) →
  wp E (iget_scan l dev inum e) Q s.
Proof.
  intros HT Hl Hin Hno. revert e Hno. induction Hl as [|k l Hk _ IH]; intros e Hno; cbn [iget_scan].
  { apply wp_ret, Hno; [constructor|]. destruct e; [by left|by split]. }
  destruct (lookup_lt_is_Some_2 T k Hk) as [ip Hip]. apply wp_bind. unfold geti. apply wp_bind, wp_gets. rewrite HT, Hip. apply wp_ret.
  destruct ((0 <? i_ref ip) && (i_dev ip =? dev) && (i_inum ip =? inum)) eqn:Hb.
  { apply wp_ret. apply (Hin k ip Hip). rewrite !andb_true_iff, Z.ltb_lt, !Z.eqb_eq in Hb. unfold inode_is. tauto. }
  assert (Hnot : ¬ inode_is dev inum ip) by (intros (H1 & H2 & H3); rewrite !andb_false_iff, Z.ltb_ge, !Z.eqb_neq in Hb; lia).
  apply IH. intros e' Hf He. apply Hno; [constructor; [|done]; intros ip' Hip'; congruence|].
  destruct e' as [k'|].
  - destruct He as [He|He]; [|by right]. destruct e as [k0|]; [by left|]. destruct (Z.eqb_spec (i_ref ip) 0) as [H0|]; [|done].
    injection He as <-. right. by exists ip.
  - destruct He as [He Hf']. destruct e as [k0|]; [done|]. destruct (Z.eqb_spec (i_ref ip) 0) as [H0|H0]; [done|].
    split; [done|]. constructor; [intros ip' Hip'; congruence|done].
Qed.

Lemma Forall_table (T : list Inode) (P : Inode → Prop) :
  length T = NINODE → Forall (λ k, ∀ ip, T !! k = Some ip → P ip) (seq 0 NINODE) → ∀ j jp, T !! j = Some jp → P jp.
Proof.
  intros Hl Hf j jp Hj. rewrite Forall_forall in Hf. apply (Hf j); [|done]. apply elem_of_seq. apply lookup_lt_Some in Hj. lia.
Qed.

Lemma wp_f_iget E L0 d ks cur H T dev inum s (Q : nat → KState → Prop) :
  ftx L0 d ks cur H T s → itable_ok T → can_get T dev inum →
  (∀ k T' s', got T dev inum k T' → ftx L0 d ks cur H T' s' → Q k s') → wp E (iget dev inum) Q s.
Proof.
  intros Ht [Hlen Href] (k0 & ip0 & Hk0 & Hor) HQ. unfold iget. apply wp_bind. eapply wp_f_acquire; [exact Ht|]. intros HT.
  assert (Hput : ∀ k ip f (Q' : unit → KState → Prop), T !! k = Some ip → Q' tt (set_itable (<[k := f ip]> T) (acq Litable s)) → wp E (puti k f) Q' (acq Litable s)).
  { intros k ip f Q' Hk HQ'. unfold puti, geti. apply wp_bind, wp_bind, wp_gets. rewrite HT, Hk. apply wp_ret, wp_modify. by rewrite HT. }
  apply wp_bind. eapply wp_iget_scan; [exact HT| | |].
  { apply Forall_forall. intros k Hk%elem_of_seq. lia. }
  - intros k ip Hk His. apply wp_bind. unfold geti. apply wp_bind, wp_gets. rewrite HT, Hk. apply wp_ret.
    pose proof (Href k ip Hk) as Hr. apply wp_bind. unfold iadd. rewrite (proj2 (Z.leb_le _ _)), (proj2 (Z.ltb_lt _ _)) by lia. apply wp_ret.
    apply wp_bind. eapply Hput; [exact Hk|]. apply wp_bind. eapply wp_f_release; [exact Ht|]. intros s' Ht'. apply wp_ret. eapply HQ; [|exact Ht'].
    exists ip. split; [done|]. by left.
  - intros [k|] Hno He; cbn iota beta.
    + destruct He as [He|(ip & Hk & H0)]; [done|]. apply wp_bind. eapply Hput; [exact Hk|].
      apply wp_bind. eapply wp_f_release; [exact Ht|]. intros s' Ht'. apply wp_ret. eapply HQ; [|exact Ht'].
      exists ip. split; [done|]. right. split_and!; [done| |done]. by eapply Forall_table.
    + destruct He as [_ He]. destruct Hor as [H0|His]; [by destruct (Forall_table T _ Hlen He _ _ Hk0)|by destruct (Forall_table T _ Hlen Hno _ _ Hk0)].
Qed.

(** [iput] of the reference [iget] has just given. *)
Lemma wp_f_iput_got E L0 d ks cur H T dev inum k T1 s (Q : unit → KState → Prop) :
  ftx L0 d ks cur H T1 s → itable_ok T → got T dev inum k T1 →
  (∀ T2 s', kept T T2 → itable_ok T2 → ftx L0 d ks cur H T2 s' → Q tt s') → wp E (iput_ sleeps k) Q s.
Proof.
  intros Ht [Hlen Href] (ip & Hk & Hgot) HQ. unfold iput_. apply wp_bind. eapply wp_f_acquire; [exact Ht|]. intros HT.
  assert (Hlt : (k < length T)%nat) by (by eapply lookup_lt_Some).
  assert (∃ ip1, T1 !! k = Some ip1 ∧ (i_ref ip1 =? 1) && i_valid ip1 && (i_nlink ip1 =? 0) = false ∧
    kept T (<[k := with_iref (i_ref ip1 - 1) ip1]> T1) ∧ itable_ok (<[k := with_iref (i_ref ip1 - 1) ip1]> T1)) as (ip1 & Hk1 & Hno & Hkept & Hok).
  { pose proof (Href k ip Hk) as Hr.
    destruct Hgot as [[(Hr0 & _) ->]|(H0 & _ & ->)]; eexists; (split; [by apply list_lookup_insert_eq|]).
    - cbn [i_ref with_iref i_valid i_nlink]. rewrite (proj2 (Z.eqb_neq _ 1)) by lia. split; [done|].
      rewrite list_insert_insert_eq, Z.add_simpl_r. replace (with_iref (i_ref ip) (with_iref _ ip)) with ip by (by destruct ip).
      rewrite list_insert_id by done. split; [by intros j jp Hj _|by split].
    - cbn [i_ref reuse_inode i_valid andb]. split; [by rewrite andb_false_r|]. rewrite list_insert_insert_eq. split.
      + intros j jp Hj Hrj. rewrite list_lookup_insert_ne; [done|]. intros ->. assert (jp = ip) as -> by congruence. lia.
      + split; [by rewrite length_insert|]. intros j jp [(<- & <- & _)|[_ Hj]]%list_lookup_insert_Some; [cbn; lia|by apply (Href j)]. }
  apply wp_bind. unfold geti. apply wp_bind, wp_gets. rewrite HT, Hk1. apply wp_ret. rewrite Hno. apply wp_bind. cbn [when]. apply wp_ret.
  apply wp_bind, wp_bind, wp_gets. rewrite HT, Hk1. apply wp_ret. apply wp_bind. unfold puti, geti. apply wp_bind, wp_bind, wp_gets. rewrite HT, Hk1.
  apply wp_ret, wp_modify. rewrite HT. eapply wp_f_release; [exact Ht|]. intros s' Ht'. by eapply HQ.
Qed.
End Table.

(** ** Searching a directory *)

Section Search.
Context {IMG : KernelImage} {D : Disk} {DL : DiskLaw D} (sleeps : nat) (me : nat) (pid dv : Z) (sb : SuperBlock).
#[local] Abbreviation ftx := (ftx me pid dv sb).
#[local] Abbreviation file_ok := (file_ok dv sb).
Context (E : Env) (L0 : LogState) (d : list (Z * list Z)) (ks : gset Z) (cur : Z → list Z) (T : list Inode) (k : nat) (ip : Inode) (l : list Z).
Hypothesis Hk : T !! k = Some ip.
Hypothesis Hf : file_ok cur ip.
Hypothesis Hd : has_data cur ip l.
Hypothesis Hks : (size ks < NBUF)%nat.
Hypothesis Hl : (length l = DESIZ * dir_size l)%nat.

Lemma dir_range : Z.of_nat (length l + DESIZ) < 2 ^ 31.
Proof.
  clear Hks Hl. pose proof (fo_size _ _ _ _ Hf) as Hs. rewrite (proj1 Hd) in Hs. pose proof (file_range (length l)). unfold MAXFILE, NDIRECT, NINDIRECT, BSIZE, DESIZ in *. lia.
Qed.

Lemma wp_read_dirent j (msg : string) s (Q : list Z → KState → Prop) :
  ftx L0 d ks cur ∅ T s → (j < dir_size l)%nat → (∀ s', ftx L0 d ks cur ∅ T s' → Q (dir_entry l j) s') →
  wp E (read_dirent sleeps k (Z.of_nat (DESIZ * j)) msg) Q s.
Proof.
  intros Ht Hj HQ. pose proof dir_range as Hr. unfold read_dirent. apply wp_bind.
  eapply (wp_readi sleeps me pid dv sb E L0 d ks cur T k ip); [exact Ht|done|done|done|done|unfold DESIZ in *; lia|].
  intros s' Ht'. cbn [fst snd]. fold (dir_entry l j). assert (Hlen : length (dir_entry l j) = DESIZ) by (unfold dir_entry; rewrite length_take, length_drop; unfold DESIZ in *; lia).
  rewrite Hlen, Z.eqb_refl. apply wp_ret. by apply HQ.
Qed.

Lemma wp_dirlookup_loop fuel name j s (Q : option (nat * Z) → KState → Prop) :
  ftx L0 d ks cur ∅ T s → itable_ok T → (j ≤ dir_size l)%nat → (dir_size l < fuel + j)%nat →
  match dir_from l j !! file_name name with
  | None => ∀ s', ftx L0 d ks cur ∅ T s' → Q None s'
  | Some inum => can_get T dv inum ∧
      ∀ i i' T' s', (i' < dir_size l)%nat → dir_bind l i' = Some (file_name name, inum) → got T dv inum i T' → ftx L0 d ks cur ∅ T' s' →
        Q (Some (i, Z.of_nat (DESIZ * i'))) s'
  end →
  wp E (dirlookup_loop sleeps fuel k name (Z.of_nat (DESIZ * j))) Q s.
Proof.
  revert j s. induction fuel as [|fuel IH]; intros j s Ht Hok Hj Hfuel HQ; [lia|]. cbn [dirlookup_loop].
  apply wp_bind. eapply wp_f_geti; [exact Ht|exact Hk|]. rewrite (proj1 Hd).
  destruct (Z.ltb_spec (Z.of_nat (DESIZ * j)) (Z.of_nat (length l))) as [Hlt|Hge].
  2: { assert (j = dir_size l) as -> by (unfold DESIZ in *; lia). rewrite dir_from_end, lookup_empty in HQ. apply wp_ret. by apply HQ. }
  assert (Hj' : (j < dir_size l)%nat) by (unfold DESIZ in *; lia). rewrite (dir_from_step l j Hj') in HQ. unfold dir_bind in HQ at 1.
  assert (Hnext : u32 (Z.of_nat (DESIZ * j) + Z.of_nat DESIZ) = Z.of_nat (DESIZ * S j)).
  { pose proof dir_range. rewrite u32_id; unfold DESIZ in *; lia. }
  apply wp_bind. eapply wp_read_dirent; [exact Ht|done|]. intros s1 Ht1. rewrite Hnext.
  destruct (Z.eqb_spec (de_inum (dir_entry l j)) 0) as [H0|H0]; [apply IH; [done|done|lia|lia|exact HQ]|].
  pose proof (namecmp_file_name name (de_name (dir_entry l j))) as Hcmp. destruct (Z.eqb_spec (namecmp name (de_name (dir_entry l j))) 0) as [Hz|Hz].
  - apply Hcmp in Hz. rewrite <- Hz, lookup_insert_eq in HQ. destruct HQ as [Hcan HQ].
    apply wp_bind. eapply wp_f_geti; [exact Ht1|exact Hk|]. rewrite (fo_dev _ _ _ _ Hf). apply wp_bind.
    eapply wp_f_iget; [exact Ht1|done|exact Hcan|]. intros i T' s2 Hgot Ht2. apply wp_ret. eapply HQ; [exact Hj'| |exact Hgot|exact Ht2].
    unfold dir_bind. by rewrite (proj2 (Z.eqb_neq _ 0)), Hz by done.
  - rewrite lookup_insert_ne in HQ by (intros Heq; apply Hz, Hcmp; congruence). apply IH; [done|done|lia|lia|exact HQ].
Qed.

Lemma wp_dirlookup name s (Q : option (nat * Z) → KState → Prop) :
  ftx L0 d ks cur ∅ T s → itable_ok T → i_type ip = T_DIR →
  match dir_map l !! file_name name with
  | None => ∀ s', ftx L0 d ks cur ∅ T s' → Q None s'
  | Some inum => can_get T dv inum ∧
      ∀ i i' T' s', (i' < dir_size l)%nat → dir_bind l i' = Some (file_name name, inum) → got T dv inum i T' → ftx L0 d ks cur ∅ T' s' →
        Q (Some (i, Z.of_nat (DESIZ * i'))) s'
  end →
  wp E (dirlookup sleeps k name) Q s.
Proof.
  intros Ht Hok Hty HQ. unfold dirlookup. apply wp_bind. eapply wp_f_geti; [exact Ht|exact Hk|]. rewrite Hty, Z.eqb_refl. cbn [negb].
  apply (wp_dirlookup_loop _ name 0); [done|done|lia| |exact HQ].
  rewrite (proj1 Hd), <- Nat2Z.inj_div, Nat2Z.id. fold (dir_size l). lia.
Qed.

(** [find_slot] stops at the first free entry or behind the last. *)
Lemma wp_find_slot fuel j s (Q : Z → KState → Prop) :
  ftx L0 d ks cur ∅ T s → (j ≤ dir_size l)%nat → (dir_size l < fuel + j)%nat →
  (∀ j' s', (j' ≤ dir_size l)%nat → (j' < dir_size l → dir_bind l j' = None)%nat → ftx L0 d ks cur ∅ T s' → Q (Z.of_nat (DESIZ * j')) s') →
  wp E (find_slot sleeps fuel k (Z.of_nat (DESIZ * j))) Q s.
Proof.
  revert j s. pose proof dir_range as Hr. induction fuel as [|fuel IH]; intros j s Ht Hj Hfuel HQ; [lia|]. cbn [find_slot].
  apply wp_bind. eapply wp_f_geti; [exact Ht|exact Hk|]. rewrite (proj1 Hd), u32_id by (unfold DESIZ in *; lia).
  destruct (Z.ltb_spec (Z.of_nat (DESIZ * j)) (Z.of_nat (length l))) as [Hlt|Hge].
  2: { apply wp_ret, HQ; [done| |done]. unfold DESIZ in *; lia. }
  assert (Hj' : (j < dir_size l)%nat) by (unfold DESIZ in *; lia).
  apply wp_bind. eapply wp_read_dirent; [exact Ht|done|]. intros s1 Ht1.
  destruct (Z.eqb_spec (de_inum (dir_entry l j)) 0) as [H0|H0].
  { apply wp_ret, HQ; [done| |done]. intros _. unfold dir_bind. by rewrite H0. }
  apply wp_bind. unfold iadd. rewrite (proj2 (Z.leb_le _ _)), (proj2 (Z.ltb_lt _ _)) by (unfold DESIZ in *; lia). apply wp_ret.
  replace (Z.of_nat (DESIZ * j) + Z.of_nat DESIZ) with (Z.of_nat (DESIZ * S j)) by (unfold DESIZ; lia). apply IH; [done|lia|lia|exact HQ].
Qed.
End Search.

(** ** Adding an entry *)

(** Entry [k] of the inode table [T] is a directory with the bytes [l]. *)
Record dir_in (dv : Z) (sb : SuperBlock) (cur : Z → list Z) (T : list Inode) (k : nat) (ip : Inode) (l : list Z) : Prop := {
  di_inode : T !! k = Some ip;
  di_table : itable_ok T;
  di_ref : 0 < i_ref ip;
  di_type : i_type ip = T_DIR;
  di_bitmap : bitmap_ok cur sb;
  di_file : file_ok dv sb cur ip;
  di_data : has_data cur ip l;
  di_len : (length l = DESIZ * dir_size l)%nat
}.

(** The outcomes of [dirlink]: its result and what becomes of the map. *)
Inductive linked (sb : SuperBlock) (l : list Z) (name : list Z) (inum : Z) (cur' : Z → list Z) : Z → gmap (list Z) Z → Prop :=
  | LinkExists i : dir_map l !! file_name name = Some i → linked sb l name inum cur' (-1) (dir_map l)
  | LinkDone : dir_map l !! file_name name = None → linked sb l name inum cur' 0 (<[file_name name := inum]> (dir_map l))
  | LinkMax : dir_map l !! file_name name = None → (MAXFILE * BSIZE < length l + DESIZ)%nat → linked sb l name inum cur' (-1) (dir_map l)
  | LinkFull : dir_map l !! file_name name = None → full sb cur' → linked sb l name inum cur' (-1) (dir_map l).

(** The inode on the disk is that in memory. *)
Definition saved (sb : SuperBlock) (cur : Z → list Z) (ip : Inode) : Prop :=
  get_dinode (cur (IBLOCK (i_inum ip) sb)) (dinode_at (i_inum ip)) = dinode_of ip.

(** What a change of file [ip] leaves: the other inodes of its block, and every
    block in use outside the file. *)
Definition others_kept (sb : SuperBlock) (cur cur' : Z → list Z) (ip : Inode) : Prop :=
  (∀ n, n ≠ i_inum ip → n / IPB = i_inum ip / IPB →
     get_dinode (cur' (IBLOCK (i_inum ip) sb)) (dinode_at n) = get_dinode (cur (IBLOCK (i_inum ip) sb)) (dinode_at n)) ∧
  ∀ x, 0 ≤ x < sb_size sb → is_home (sb_logstart sb) x → used cur sb x = true → ¬ in_bitmap sb x → x ≠ IBLOCK (i_inum ip) sb →
    (∀ i, (i ≤ MAXFILE)%nat → slot cur ip i ≠ x) → cur' x = cur x.

(** A file keeps everything but its size and its blocks. *)
Definition resized (ip ip' : Inode) : Prop := ip' = with_addrs (i_addrs ip') (with_isize (i_size ip') ip).
Lemma resized_refl ip : resized ip ip.
Proof. by destruct ip. Qed.

Lemma put_at_none (l : list Z) o : (o ≤ length l)%nat → put_at l o [] = l.
Proof. intros H. unfold put_at. cbn [length app]. by rewrite Nat.add_0_r, take_drop. Qed.

Section Link.
Context {IMG : KernelImage} {D : Disk} {DL : DiskLaw D} (sleeps : nat) (me : nat) (pid dv : Z) (sb : SuperBlock).
Hypothesis Hdv : 0 ≤ dv < 2 ^ 31.
#[local] Abbreviation ftx := (ftx me pid dv sb).

Lemma dir_in_wrote cur T k ip l o w bs cur1 ip1 :
  dir_in dv sb cur T k ip l → (o ≤ length l)%nat → (o + length bs ≤ MAXFILE * BSIZE)%nat → (w ≤ length bs)%nat →
  wrote dv sb cur ip o (take w bs) cur1 ip1 →
  let l' := put_at l o (take w bs) in let ip' := grow_size ip1 (Z.of_nat (o + w)) in let B := IBLOCK (i_inum ip) sb in
  let cur' := upd B (put_at (cur1 B) (dinode_at (i_inum ip)) (dinode_bytes (dinode_of ip'))) cur1 in
  (length l' = DESIZ * dir_size l')%nat →
  dir_in dv sb cur' (<[k := ip']> T) k ip' l' ∧ saved sb cur' ip' ∧ others_kept sb cur cur' ip ∧ (full sb cur1 → full sb cur') ∧ resized ip ip'.
Proof.
  intros [H1 [H2 H2'] H3 H4 H5 H6 H7 H8] Ho Hmax Hw W l' ip' B cur' Hl'.
  destruct (written_file dv sb cur ip l o w bs cur1 ip1) as (Hf2 & Hb2 & Hd2 & Hsame & Hfl & Hdi & Hot); [done..|].
  fold ip' B cur' in Hf2, Hb2, Hd2, Hsame, Hfl, Hdi, Hot.
  assert (Hr : i_ref ip' = i_ref ip ∧ i_inum ip' = i_inum ip ∧ i_type ip' = i_type ip) by (rewrite Hsame; by destruct ip). destruct Hr as (Hr & Hi & Hty).
  split_and!; [|unfold saved; rewrite Hi; exact Hdi| |exact Hfl|exact Hsame].
  - split; [apply list_lookup_insert_eq; by eapply lookup_lt_Some| |lia|congruence|done|done|done|done].
    split; [by rewrite length_insert|]. intros j jp [(<- & <- & _)|[_ Hj]]%list_lookup_insert_Some; [rewrite Hr; by apply (H2' k)|by apply (H2' j)].
  - split; [exact Hot|]. intros x Hx Hh Hu Hnb Hnx Hns. unfold cur'. rewrite upd_ne by done. by apply (wr_frame _ _ _ _ _ _ _ _ W).
Qed.

Lemma wp_dirlink E L0 d ks cur T k ip l name inum s (Q : Z → KState → Prop) :
  ftx L0 d ks cur ∅ T s → dir_in dv sb cur T k ip l → no_nul name → 0 < inum < 2 ^ 16 → 1 ≤ l_outstanding L0 → room 7 ks ∅ →
  (∀ i, dir_map l !! file_name name = Some i → can_get T dv i) →
  (∀ r ks' cur' T' ip' l' s', ftx L0 d ks' cur' ∅ T' s' → (size ks' ≤ 7 + size ks)%nat → dir_in dv sb cur' T' k ip' l' →
     linked sb l name inum cur' r (dir_map l') → resized ip ip' → (saved sb cur ip → saved sb cur' ip') → others_kept sb cur cur' ip →
     (∀ j jp, j ≠ k → T !! j = Some jp → 0 < i_ref jp → T' !! j = Some jp) → Q r s') →
  wp E (dirlink sleeps k name inum) Q s.
Proof.
  intros Ht Hdir Hn Hi Ho Hroom Hcan HQ. pose proof Hdir as [Hk Hok Href Hty Hb Hf Hd Hl]. pose proof (proj1 (room_empty _ _) Hroom) as Hroom'.
  assert (Hks : (size ks < NBUF)%nat) by (change NBUF with LOGBLOCKS; lia).
  pose proof (dir_range dv sb cur ip l Hf Hd) as Hrange.
  unfold dirlink. apply wp_bind. eapply wp_dirlookup; [exact Hk|exact Hf|exact Hd|exact Hks|exact Hl|exact Ht|exact Hok|exact Hty|].
  destruct (dir_map l !! file_name name) as [i|] eqn:Hm.
  { split; [by apply Hcan|]. intros e i' T' s1 Hi' Hbind Hgot Ht1. apply wp_bind. eapply wp_f_iput_got; [exact Ht1|exact Hok|exact Hgot|].
    intros T2 s2 Hkept Hok2 Ht2. apply wp_ret. eapply (HQ _ ks cur T2 ip l); [exact Ht2|lia| |by eapply LinkExists|apply resized_refl|done|done|intros j jp _; apply Hkept].
    split; [by apply Hkept|done..]. }
  intros s1 Ht1. apply wp_bind. eapply wp_f_geti; [exact Ht1|exact Hk|]. apply wp_bind.
  eapply (wp_find_slot sleeps me pid dv sb E L0 d ks cur T k ip l Hk Hf Hd Hks Hl _ 0); [exact Ht1|lia| |].
  { rewrite (proj1 Hd), <- Nat2Z.inj_div, Nat2Z.id. fold (dir_size l). lia. }
  intros j s2 Hj Hfree Ht2. rewrite u32_id by (unfold DESIZ in *; lia). destruct (dir_entry_new name inum Hn Hi) as (Hde & _ & _).
  set (de := dirent inum (str_ncpy name DIRSIZ)) in *. replace (Z.of_nat DESIZ) with (Z.of_nat (length de)) by (by rewrite Hde). apply wp_bind.
  destruct (decide (DESIZ * j + DESIZ ≤ MAXFILE * BSIZE)%nat) as [Hfit|Hmax].
  2: { unfold writei. apply wp_bind. eapply wp_f_geti; [exact Ht2|exact Hk|]. rewrite <- Nat2Z.inj_add, u32_id by (rewrite Hde; unfold DESIZ in *; lia).
    rewrite (proj1 Hd), (proj2 (Z.ltb_ge _ _)), (proj2 (Z.ltb_ge (Z.of_nat (_ + _)) _)) by (unfold DESIZ in *; lia). cbn [orb].
    rewrite (proj2 (Z.ltb_lt _ _)) by (rewrite Hde; lia). apply wp_ret. rewrite (proj2 (Z.eqb_neq _ _)) by lia. apply wp_ret.
    eapply (HQ _ ks cur T ip l); [exact Ht2|lia|done|apply LinkMax; [done|unfold DESIZ in *; lia]|apply resized_refl|done|done|done]. }
  assert (Hmod : ∃ c : nat, ((DESIZ * j) mod BSIZE = DESIZ * c)%nat ∧ (c < 64)%nat).
  { exists (j mod 64)%nat. split; [|by apply Nat.mod_upper_bound]. change BSIZE with (DESIZ * 64)%nat. by rewrite Nat.Div0.mul_mod_distr_l. }
  destruct Hmod as (c & Hc & Hc64).
  eapply (wp_writei sleeps me pid dv sb Hdv E L0 d ks cur T k ip (DESIZ * j) de l 1); [exact Ht2|exact Hk|exact Hf|exact Hb|exact Hd|exact Ho| |rewrite Hde; exact Hfit| |lia|exact Hroom|].
  { rewrite Hl. by apply Nat.mul_le_mono_l. }
  { rewrite Hc, Hde. unfold DESIZ, BSIZE. lia. }
  intros w ks' cur1 ip1 s3 Hw W Hpart ip' B Hsz Ht3. apply wp_ret.
  assert (Hw01 : (w = DESIZ ∨ w = 0)%nat ∧ (w = 0%nat → full sb cur1)).
  { rewrite Hde in Hw, Hpart. destruct (decide (w = DESIZ)) as [->|Hne]; [split; [by left|unfold DESIZ; lia]|]. destruct (Hpart ltac:(lia)) as [Hfull Hor].
    destruct (decide (w = 0)%nat) as [->|H0]; [split; [by right|done]|]. destruct Hor as [->|Hm0]; [done|].
    exfalso. rewrite <- Nat.Div0.add_mod_idemp_l, Hc, Nat.mod_small in Hm0; unfold DESIZ, BSIZE in *; lia. }
  destruct Hw01 as [[-> | ->] Hfull].
  - rewrite (proj2 (Z.eqb_eq _ _)) by lia. rewrite take_ge in W by lia.
    destruct (dir_map_link l j name inum Hn Hi Hl Hj Hfree Hm) as [Hmap Hlen']. fold de in Hmap, Hlen'.
    destruct (dir_in_wrote cur T k ip l (DESIZ * j) DESIZ de cur1 ip1 Hdir) as (Hd' & Hsv & Hfr & _ & Hrs); rewrite ?(take_ge de) by lia;
      [unfold DESIZ in *; lia|lia|lia|done|done|]. rewrite (take_ge de) in Hd' by lia.
    eapply HQ; [exact Ht3|lia|exact Hd'| |exact Hrs|done|done|by intros j' jp Hne; rewrite list_lookup_insert_ne]. rewrite Hmap. by apply LinkDone.
  - rewrite (proj2 (Z.eqb_neq _ _)) by (rewrite Hde; unfold DESIZ; lia). change (take 0 de) with (@nil Z) in W.
    destruct (dir_in_wrote cur T k ip l (DESIZ * j) 0 de cur1 ip1 Hdir) as (Hd' & Hsv & Hfr & Hfl & Hrs);
      [unfold DESIZ in *; lia|lia|lia|done|change (take 0 de) with (@nil Z); rewrite put_at_none by (unfold DESIZ in *; lia); done|].
    change (take 0 de) with (@nil Z) in Hd'. rewrite put_at_none in Hd' by (unfold DESIZ in *; lia).
    eapply HQ; [exact Ht3|lia|exact Hd'| |exact Hrs|done|done|by intros j' jp Hne; rewrite list_lookup_insert_ne]. by apply LinkFull; [|apply Hfl, Hfull].
Qed.
End Link.

(** ** Between transactions *)

(** A client that adds an entry in a transaction of its own, as [sys_link] and
    [create] do among other things. *)
Definition link_file `{KernelImage} `{Disk} (sleeps : nat) (k : nat) (name : list Z) (inum : Z) : M Z :=
  log_begin_op sleeps;;
  r ← dirlink sleeps k name inum;
  log_end_op sleeps;;
  mret r.

Section Client.
Context {IMG : KernelImage} {D : Disk} {DL : DiskLaw D} (sleeps : nat) (me : nat) (pid dv : Z) (sb : SuperBlock).

Record fs_still (s : KState) : Prop := {
  fst_quiet : fs_quiet me pid dv sb s;
  fst_lock : lock_free s Litable;
  fst_sb : fs_sb (fs s) = sb
}.
(** Entry [k] of the inode table is a directory on the disk with the bytes [l]. *)
Definition dir_at (s : KState) (k : nat) (ip : Inode) (l : list Z) : Prop :=
  fs_still s ∧ dir_in dv sb (block (fs_disk (fs s))) (itable s) k ip l.

Lemma dir_in_home f cur T k ip l : (∀ b, is_home (sb_logstart sb) b → f b = cur b) → dir_in dv sb cur T k ip l → dir_in dv sb f T k ip l.
Proof. intros Hh [H1 H2 H3 H4 H5 H6 H7 H8]. split; [done|done|done|done|by eapply bitmap_home|by eapply file_home|by eapply data_home|done]. Qed.
Lemma linked_home f cur l name inum r m :
  (∀ b, is_home (sb_logstart sb) b → f b = cur b) → bitmap_ok cur sb → linked sb l name inum cur r m → linked sb l name inum f r m.
Proof.
  intros Hh Hb [i H1|H1|H1 H2|H1 H2]; [by eapply LinkExists|by apply LinkDone|by apply LinkMax|].
  apply LinkFull; [done|]. intros x Hx. rewrite (used_home sb f cur Hh) by done. by apply H2.
Qed.
Lemma others_kept_home f cur0 cur ip :
  (∀ b, is_home (sb_logstart sb) b → f b = cur b) → is_home (sb_logstart sb) (IBLOCK (i_inum ip) sb) → others_kept sb cur0 cur ip → others_kept sb cur0 f ip.
Proof. intros Hh HB [H1 H2]. split; [by rewrite (Hh _ HB)|]. intros x ? Hx **. rewrite Hh by done. by apply H2. Qed.
Lemma inode_home cur T k ip l : dir_in dv sb cur T k ip l → is_home (sb_logstart sb) (IBLOCK (i_inum ip) sb).
Proof. intros [_ _ _ _ _ Hf _ _]. by pose proof Hf as [_ _ _ _ ((_ & ? & _) & _) _ _ _]. Qed.

(** C6: a directory is a map from names of at most [DIRSIZ] bytes to inode
    numbers, and [dirlink] in a transaction adds a binding to it: while the
    inode table has room for the inode of a bound name, it refuses a
    name that is bound, and otherwise binds it or, when the directory has the
    largest size or the disk has become full, returns -1 with the map as it
    was.  It never panics; the references to other inodes in the table, the
    other inodes on the disk and every block in use outside the directory stay
    as they are, the directory's inode on the disk stays equal to that in
    memory, and after a crash the disk has all of this or nothing. *)
Theorem dirlink_adds_binding (k : nat) (ip : Inode) (l name : list Z) (inum : Z) (s : KState)
  (Hdir : dir_at s k ip l) (Hdv : 0 ≤ dv < 2 ^ 31) (Hname : Forall (λ c, c ≠ 0) name) (Hinum : 0 < inum < 2 ^ 16)
  (Hcan : ∀ i, dir_map l !! file_name name = Some i → can_get (itable s) dv i) :
  ∃ r ip' l' s', link_file sleeps k name inum s = Ret r s' ∧ dir_at s' k ip' l' ∧
    linked sb l name inum (block (fs_disk (fs s'))) r (dir_map l') ∧
    resized ip ip' ∧ (saved sb (block (fs_disk (fs s))) ip → saved sb (block (fs_disk (fs s'))) ip') ∧
    others_kept sb (block (fs_disk (fs s))) (block (fs_disk (fs s'))) ip ∧
    (∀ j jp, j ≠ k → itable s !! j = Some jp → 0 < i_ref jp → itable s' !! j = Some jp) ∧
    crash_atomic sleeps me pid dv sb (fs_disk (fs s)) (fs_disk (fs s')) (block (fs_disk (fs s'))).
Proof.
  destruct Hdir as [[Hq Hli Hsb] Hdir]. set (d := fs_disk (fs s)) in *. pose proof Hq as [Hid Hl Hrep HL [Hout Hcm] Hh].
  set (L := fs_log (fs s)) in *. assert (Hc : cache dv s ∅ L d s) by (split; [by apply after_same|done..]).
  cut (wp Atomic (link_file sleeps k name inum) (λ r s', ∃ ip' l', dir_at s' k ip' l' ∧ linked sb l name inum (block (fs_disk (fs s'))) r (dir_map l') ∧
    resized ip ip' ∧ (saved sb (block d) ip → saved sb (block (fs_disk (fs s'))) ip') ∧ others_kept sb (block d) (block (fs_disk (fs s'))) ip ∧
    (∀ j jp, j ≠ k → itable s !! j = Some jp → 0 < i_ref jp → itable s' !! j = Some jp) ∧
    crash_atomic sleeps me pid dv sb d (fs_disk (fs s')) (block (fs_disk (fs s')))) s).
  { intros (r & s' & Hrun & ip' & l' & Hrest)%wp_atomic. by exists r, ip', l', s'. }
  unfold link_file. apply wp_bind. eapply (wp_begin_op sleeps me pid dv s Hid Hl); [exact Hc|split; [done|]|].
  { rewrite Hout, (ls_n _ _ _ _ HL). unfold LOGBLOCKS, MAXOPBLOCKS. cbn. lia. }
  intros s1 Hc1. rewrite Hout in Hc1. set (L1 := with_outstanding (0 + 1) L) in *. apply wp_bind.
  eapply (wp_dirlink sleeps me pid dv sb Hdv Atomic L1 d ∅ (block d) (itable s) k ip l); [|exact Hdir|exact Hname|exact Hinum|done| |exact Hcan|].
  { apply ftx_start; [done|done|done|exact (logst_with dv (sb_logstart sb) L [] 1 (l_committing L) HL)|exact Hc1]. }
  { apply room_empty. rewrite size_empty. unfold LOGBLOCKS, MAXOPBLOCKS. lia. }
  intros r ks cur' T' ip' l' s2 [(s0 & Hid0 & [Hl0 Hli0] & Hsb0 & HT0 & Ht)] Hsz Hdir' Hlk Hrs Hsv Hfr Hoth. apply wp_bind.
  eapply (wp_end_tx sleeps me pid dv sb s0 L1 d); [done|done|done|done|done| |exact Ht|].
  { rewrite size_empty in Hsz. unfold LOGBLOCKS, MAXOPBLOCKS in *. lia. }
  intros s3 Ha Hsb3 Hq3 Hb3 Hca. apply wp_ret. exists ip', l'. pose proof (after_itable _ _ _ Ha) as HT3. rewrite HT0 in HT3.
  split_and!.
  - split; [split; [done|by eapply after_free|by rewrite Hsb3]|]. rewrite HT3. by eapply dir_in_home.
  - eapply linked_home; [exact Hb3|by apply (di_bitmap _ _ _ _ _ _ _ Hdir')|done].
  - exact Hrs.
  - intros Hs0. assert (Hi : i_inum ip' = i_inum ip) by (rewrite Hrs; by destruct ip). unfold saved. rewrite Hi, Hb3 by (by eapply inode_home). rewrite <- Hi. by apply Hsv.
  - eapply others_kept_home; [exact Hb3|by eapply inode_home|done].
  - rewrite HT3. exact Hoth.
  - eapply crash_atomic_ext; [|exact Hca]. intros b Hb. by rewrite Hb3.
Qed.

(** C7: [dirlookup] finds what the map of the directory has: nothing, or the
    entry of the name and a reference to its inode, taken by [iget]: one more
    on the inode's entry in the table, or the first in a free entry when it has
    none.  It reads through blocks alike and leaves the disk as it is. *)
Theorem dirlookup_reads_map (k : nat) (ip : Inode) (l name : list Z) (s : KState)
  (Hdir : dir_at s k ip l) (Hcan : ∀ i, dir_map l !! file_name name = Some i → can_get (itable s) dv i) :
  ∃ r s', dirlookup sleeps k name s = Ret r s' ∧ fs_still s' ∧ fs_disk (fs s') = fs_disk (fs s) ∧
    match dir_map l !! file_name name, r with
    | None, None => itable s' = itable s
    | Some inum, Some (i, off) => got (itable s) dv inum i (itable s') ∧
        ∃ j, (j < dir_size l)%nat ∧ off = Z.of_nat (DESIZ * j) ∧ dir_bind l j = Some (file_name name, inum)
    | _, _ => False
    end.
Proof.
  destruct Hdir as [[Hq Hli Hsb] [Hk Hok Href Hty Hb Hf Hd Hlen]]. set (d := fs_disk (fs s)) in *. pose proof Hq as [Hid Hl Hrep HL [Hout Hcm] Hh].
  set (L := fs_log (fs s)) in *. assert (Hc : cache dv s ∅ L d s) by (split; [by apply after_same|done..]).
  assert (Hstill : ∀ T s', ftx me pid dv sb L d ∅ (block d) ∅ T s' → fs_still s' ∧ fs_disk (fs s') = d ∧ itable s' = T).
  { intros T s' Ht. by destruct (ftx_quiet _ _ _ _ _ _ _ _ _ Ht Hout Hcm Hh) as (? & ? & ? & ? & ?). }
  apply wp_atomic. eapply (wp_dirlookup sleeps me pid dv sb Atomic L d ∅ (block d) (itable s)); [exact Hk|exact Hf|exact Hd| |exact Hlen| |exact Hok|exact Hty|].
  { rewrite size_empty. unfold NBUF, MAXOPBLOCKS. lia. }
  { by apply ftx_start. }
  destruct (dir_map l !! file_name name) as [inum|] eqn:Hm.
  - split; [by apply Hcan|]. intros i j T' s' Hj Hbind Hgot Ht'. destruct (Hstill _ _ Ht') as (H1 & H2 & ->). split_and!; [done|done|done|]. by exists j.
  - intros s' Ht'. by destruct (Hstill _ _ Ht') as (H1 & H2 & H3).
Qed.
End Client.

(** ** A concrete directory *)

(** Inode 2 is a directory with the entries [.], [a] for inode 5 and a free
    one, in block 47. *)
Definition dir_bytes : list Z := dirent 2 (str_ncpy [46] DIRSIZ) ++ dirent 5 (str_ncpy [97] DIRSIZ) ++ replicate DESIZ 0.
Definition dir_inode : Inode := with_itype T_DIR (with_isize 48 file_inode).
Definition dir_disk : list (Z * list Z) := (47, dir_bytes ++ replicate (BSIZE - 48) 0) :: alloc_disk.
Definition dir_reset : KState := set_sb alloc_sb (set_disk dir_disk cache_boot).
Definition dir_quiet : KState :=
  match @initlog sample_image polled_disk 0 1 alloc_sb dir_reset with Ret _ s => s | _ => bss end.
Definition dir_boot : KState := set_itable (<[0%nat := dir_inode]> (itable dir_quiet)) (iinit_lock dir_quiet).

Lemma dir_quiet_ok : fs_quiet 1 4 1 alloc_sb dir_quiet.
Proof.
  destruct (@run_initlog sample_image polled_disk polled_disk_law 0 1 4 1 alloc_sb dir_disk [] dir_reset) as (r & H0 & Hr & Hq & _).
  - refine (rebooted_on 1 4 1 [] dir_disk alloc_sb cache_boot cache_boot_rebooted _). apply (bool_decide_unpack _). vm_compute. exact I.
  - split_and!; [vm_compute; reflexivity..|by intros i b ?].
  - exact header_ok_nil.
  - by constructor.
  - unfold in_range, alloc_sb, LOGBLOCKS, MAXOPBLOCKS. cbn. lia.
  - unfold dir_quiet. by rewrite Hr.
Qed.
Lemma dir_disk_eq : fs_disk (fs dir_quiet) = (2, replicate BSIZE 0) :: dir_disk.
Proof. vm_compute. reflexivity. Qed.
Lemma alloc_disk_eq : fs_disk (fs alloc_boot) = (2, replicate BSIZE 0) :: alloc_disk.
Proof. vm_compute. reflexivity. Qed.
Lemma dir_block b : block (fs_disk (fs dir_quiet)) b = upd 47 (dir_bytes ++ replicate (BSIZE - 48) 0) (block (fs_disk (fs alloc_boot))) b.
Proof.
  rewrite dir_disk_eq, alloc_disk_eq. destruct (decide (b = 47)) as [->|Hb]; [by rewrite upd_eq|rewrite upd_ne by done].
  unfold dir_disk. cbn [block]. by rewrite (proj2 (Z.eqb_neq 47 b)) by done.
Qed.
Lemma dir_bitmap_used : bitmap_ok (block (fs_disk (fs dir_quiet))) alloc_sb ∧
  ∀ x, 0 ≤ x < 100 → used (block (fs_disk (fs dir_quiet))) alloc_sb x = (x <? 48).
Proof.
  destruct (bitmap_other (block (fs_disk (fs alloc_boot))) alloc_sb 47 (dir_bytes ++ replicate (BSIZE - 48) 0) alloc_boot_bitmap) as [Hb Hu].
  { apply (alloc_sb_data 47); lia. }
  assert (Hext : ∀ b, is_home (sb_logstart alloc_sb) b → block (fs_disk (fs dir_quiet)) b = upd 47 (dir_bytes ++ replicate (BSIZE - 48) 0) (block (fs_disk (fs alloc_boot))) b)
    by (intros b _; apply dir_block).
  split; [by eapply bitmap_home|]. intros x Hx. rewrite (used_home alloc_sb _ _ Hext x Hb Hx), Hu by done. by apply alloc_boot_used.
Qed.
Lemma dir_inode_ok : file_ok 1 alloc_sb (block (fs_disk (fs dir_quiet))) dir_inode.
Proof.
  destruct dir_bitmap_used as [_ Hu]. assert (HB : IBLOCK (i_inum dir_inode) alloc_sb = 33) by reflexivity.
  assert (Hs : ∀ i, slot (block (fs_disk (fs dir_quiet))) dir_inode i = if decide (i = 0%nat) then 47 else 0) by (intros i; exact (file_inode_slot (block (fs_disk (fs dir_quiet))) i)).
  split; rewrite ?HB.
  - reflexivity.
  - unfold is_short. cbn [dir_inode file_inode with_itype with_isize i_type i_major i_minor i_nlink]. unfold T_DIR. lia.
  - reflexivity.
  - split; apply Z.leb_le; vm_compute; reflexivity.
  - split_and!; [apply alloc_sb_data; lia|rewrite Hu by lia; reflexivity|vm_compute; reflexivity].
  - intros i Hi. rewrite Hs. case_decide; [|congruence]. intros _. split; [apply alloc_sb_data; lia|rewrite Hu by lia; reflexivity| |vm_compute; reflexivity].
    rewrite HB. lia.
  - intros i j Hi Hj. rewrite !Hs. repeat case_decide; congruence.
  - intros i Hi. rewrite Hs. change (i_size dir_inode) with 48. case_decide; [lia|]. unfold BSIZE. lia.
Qed.
Lemma dir_data : has_data (block (fs_disk (fs dir_quiet))) dir_inode dir_bytes.
Proof.
  split; [reflexivity|]. intros j Hj. change (length dir_bytes) with 48%nat in Hj.
  assert (Hall : forallb (λ j, bool_decide (byte (block (fs_disk (fs dir_quiet))) dir_inode j = dir_bytes !! j)) (seq 0 48) = true) by (vm_compute; reflexivity).
  rewrite forallb_forall in Hall. apply (bool_decide_eq_true_1 _), Hall. apply list_elem_of_In, elem_of_seq. lia.
Qed.
Lemma itable_ok_set T k ip : itable_ok T → 0 ≤ i_ref ip < 2 ^ 31 - 1 → itable_ok (<[k := ip]> T).
Proof. intros [H1 H2] Hr. split; [by rewrite length_insert|]. by intros j jp [(_ & <- & _)|[_ Hj]]%list_lookup_insert_Some; [|apply (H2 j)]. Qed.
Lemma dir_at_set me pid dv sb s k ip l :
  fs_quiet me pid dv sb s → fs_sb (fs s) = sb → itable_ok (itable s) → (k < NINODE)%nat → 0 < i_ref ip < 2 ^ 31 - 1 → i_type ip = T_DIR →
  bitmap_ok (block (fs_disk (fs s))) sb → file_ok dv sb (block (fs_disk (fs s))) ip → has_data (block (fs_disk (fs s))) ip l → (length l = DESIZ * dir_size l)%nat →
  dir_at me pid dv sb (set_itable (<[k := ip]> (itable s)) (iinit_lock s)) k ip l.
Proof.
  intros H1 H2 H3 H4 H5 H6 H7 H8 H9 H10. split.
  - split; [by apply quiet_set_itable, quiet_iinit|exists "itable"%string; cbn; by rewrite lookup_insert_eq|exact H2].
  - split; [apply list_lookup_insert_eq; by rewrite (it_len _ H3)|apply itable_ok_set; [done|lia]|lia|exact H6|exact H7|exact H8|exact H9|exact H10].
Qed.
Lemma dir_boot_table : itable_ok (itable dir_quiet) ∧ ∃ ip, itable dir_quiet !! 1%nat = Some ip ∧ i_ref ip = 0.
Proof.
  assert (Heq : itable dir_quiet = itable bss) by (vm_compute; reflexivity). rewrite Heq. split; [|by eexists; split; [vm_compute; reflexivity|]].
  split; [reflexivity|]. intros k ip [-> _]%lookup_replicate. cbn. lia.
Qed.
Lemma dir_boot_at : dir_at 1 4 1 alloc_sb dir_boot 0 dir_inode dir_bytes.
Proof.
  destruct dir_bitmap_used as [Hb _]. destruct dir_boot_table as [Ht _].
  apply dir_at_set; [exact dir_quiet_ok|vm_compute; reflexivity|exact Ht|apply Nat.ltb_lt; reflexivity|cbn; lia|reflexivity|exact Hb|exact dir_inode_ok|exact dir_data|reflexivity].
Qed.
Lemma dir_boot_free inum : can_get (itable dir_boot) 1 inum.
Proof.
  destruct dir_boot_table as [_ (ip & H1 & H0)]. exists 1%nat, ip. split; [|by left].
  change (itable dir_boot) with (<[0%nat := dir_inode]> (itable dir_quiet)). by rewrite list_lookup_insert_ne.
Qed.

(** Adding [b] for inode 7. *)
Lemma dirlink_adds_binding_witness :
  dir_map dir_bytes !! [98] = None ∧
  ∃ r ip' l' s', @link_file sample_image polled_disk 0 0 [98] 7 dir_boot = Ret r s' ∧ dir_at 1 4 1 alloc_sb s' 0 ip' l' ∧
    linked alloc_sb dir_bytes [98] 7 (block (fs_disk (fs s'))) r (dir_map l').
Proof.
  split; [vm_compute; reflexivity|].
  destruct (@dirlink_adds_binding sample_image polled_disk polled_disk_law 0 1 4 1 alloc_sb 0 dir_inode dir_bytes [98] 7 dir_boot)
    as (r & ip' & l' & s' & Hrun & Hd & Hl & _).
  - exact dir_boot_at.
  - lia.
  - repeat constructor; discriminate.
  - lia.
  - intros i _. apply dir_boot_free.
  - exists r, ip', l', s'. split; [exact Hrun|]. split; [exact Hd|exact Hl].
Defined.
(** Looking [a] up. *)
Lemma dirlookup_reads_map_witness :
  dir_map dir_bytes !! [97] = Some 5 ∧
  ∃ i s' j, @dirlookup sample_image polled_disk 0 0 [97] dir_boot = Ret (Some (i, Z.of_nat (DESIZ * j))) s' ∧
    got (itable dir_boot) 1 5 i (itable s') ∧ dir_bind dir_bytes j = Some ([97], 5).
Proof.
  assert (Hm : dir_map dir_bytes !! file_name [97] = Some 5) by (vm_compute; reflexivity). split; [exact Hm|].
  destruct (@dirlookup_reads_map sample_image polled_disk polled_disk_law 0 1 4 1 alloc_sb 0 dir_inode dir_bytes [97] dir_boot) as (r & s' & Hrun & _ & _ & Hres).
  - exact dir_boot_at.
  - intros i _. apply dir_boot_free.
  - rewrite Hm in Hres. destruct r as [[i off]|]; [|destruct Hres]. destruct Hres as (Hgot & j & _ & Hoff & Hb). exists i, s', j.
    split; [rewrite Hrun, Hoff; reflexivity|]. split; [exact Hgot|exact Hb].
Defined.
