(* ===== verification/UserProg.v ===== *)
(** * The small user programs: init, ls, mkdir, rm, ln, kill and psinfo

    Programs as interaction trees over the system calls; [init] never ends.
    [may] gives the calls a program can make for any answers, [run] its
    behaviour on a file system that answers by name.  [printf] is one event
    with its format and arguments; what it writes is in Printf. *)

From ITree Require Import ITree.
From Stdlib Require Import Ascii String.
From S2P Require Import Prelude Printf Sh Uart Sysproc Fs FsPath Dir.
Open Scope Z_scope.

(** ** System calls *)

(** [struct stat]. *)
Record Stat := mkStat { st_dev : Z; st_ino : Z; st_type : Z; st_nlink : Z; st_size : Z }.
(** An element of the array that psinfo fills. *)
Record Info := mkInfoU { in_pid : Z; in_name : list Z; in_state : list Z }.

Inductive sysE : Type → Type :=
  | Open (path : list Z) (mode : Z) : sysE Z
  | Close (fd : Z) : sysE Z
  | Read (fd n : Z) : sysE (Z * list Z)
  | Fstat (fd : Z) : sysE (Z * Stat)
  | Dup (fd : Z) : sysE Z
  | Mknod (path : list Z) (major minor : Z) : sysE Z
  | Mkdir (path : list Z) : sysE Z
  | Unlink (path : list Z) : sysE Z
  | Link (old new : list Z) : sysE Z
  | Fork : sysE Z
  | Exec (path : list Z) (argv : list (list Z)) : sysE Z
  | Wait : sysE Z
  | Kill (pid : Z) : sysE Z
  | SysSbrk (n how : Z) : sysE Z
  | Psinfo (max : Z) : sysE (Z * list Info)
  | Fprintf (fd : Z) (fmt : string) (args : list Arg) : sysE unit
  | Exit (status : Z) : sysE Empty_set
  (** Undefined behaviour of C. *)
  | Undefined : sysE Empty_set.

Abbreviation prog := (itree sysE).
#[export] Instance prog_ret : MRet prog := λ A x, Ret x.
#[export] Instance prog_bind : MBind prog := λ A B f t, ITree.bind t f.
Definition sys {A} (e : sysE A) : prog A := ITree.trigger e.
Definition printf (fmt : string) (args : list Arg) : prog unit := sys (Fprintf 1 fmt args).
Definition exit {A} (status : Z) : prog A := v ← sys (Exit status); match v : Empty_set with end.
Definition undefined {A} : prog A := v ← sys Undefined; match v : Empty_set with end.

(** ** ulib.c: start, stat, sbrk *)

(** A program whose [main] returns. *)
Definition ulib_start (main : prog Z) : prog Empty_set := r ← main; exit r.

Definition SBRK_LAZY : Z := 2.
Definition usbrk (n : Z) : prog Z := sys (SysSbrk n SBRK_EAGER).
Definition usbrklazy (n : Z) : prog Z := sys (SysSbrk n SBRK_LAZY).

Definition stat (n : list Z) (st0 : Stat) : prog (Z * Stat) :=
  fd ← sys (Open n O_RDONLY);
  if fd <? 0 then mret (-1, st0) else
  r ← sys (Fstat fd);
  sys (Close fd);;
  mret r.

(** ** init.c *)

Definition init_reap (pid : Z) : prog (unit + unit) :=
  wpid ← sys Wait;
  if wpid =? pid then mret (inr tt)
  else if wpid <? 0 then printf "init: wait returned an error
" [];; exit 1
  else mret (inl tt).

Definition init_round : prog (unit + Empty_set) :=
  printf "init: starting sh
" [];;
  pid ← sys Fork;
  if pid <? 0 then printf "init: fork failed
" [];; exit 1 else
  if pid =? 0 then
    sys (Exec (text "sh") [text "sh"]);;
    printf "init: exec sh failed
" [];;
    exit 1
  else
    ITree.iter (λ _, init_reap pid) tt;;
    mret (inl tt).

Definition init_console : prog unit :=
  fd ← sys (Open (text "console") O_RDWR);
  (if fd <? 0 then
     sys (Mknod (text "console") (Z.of_nat CONSOLE) 0);;
     sys (Open (text "console") O_RDWR);;
     mret tt
   else mret tt);;
  sys (Dup 0);;
  sys (Dup 0);;
  mret tt.

Definition init_main : prog Empty_set := init_console;; ITree.iter (λ _, init_round) tt.

(** ** mkdir.c, rm.c, ln.c, kill.c *)

Fixpoint mkdir_loop (args : list (list Z)) : prog Empty_set :=
  match args with
  | [] => exit 0
  | a :: args' =>
      r ← sys (Mkdir a);
      if r <? 0 then sys (Fprintf 2 "mkdir: %s failed to create
" [AStr (Some a)]);; exit 0
      else mkdir_loop args'
  end.
(** The arguments are those after the name of the program. *)
Definition mkdir_main (args : list (list Z)) : prog Empty_set :=
  match args with [] => sys (Fprintf 2 "Usage: mkdir files...
" []);; exit 1 | _ => mkdir_loop args end.

Fixpoint rm_loop (args : list (list Z)) : prog Empty_set :=
  match args with
  | [] => exit 0
  | a :: args' =>
      r ← sys (Unlink a);
      if r <? 0 then sys (Fprintf 2 "rm: %s failed to delete
" [AStr (Some a)]);; exit 0
      else rm_loop args'
  end.
Definition rm_main (args : list (list Z)) : prog Empty_set :=
  match args with [] => sys (Fprintf 2 "Usage: rm files...
" []);; exit 1 | _ => rm_loop args end.

Definition ln_main (args : list (list Z)) : prog Empty_set :=
  match args with
  | [old; new] =>
      r ← sys (Link old new);
      (if r <? 0 then sys (Fprintf 2 "link %s %s: failed
" [AStr (Some old); AStr (Some new)]) else mret tt);;
      exit 0
  | _ => sys (Fprintf 2 "Usage: ln old new
" []);; exit 1
  end.

Fixpoint kill_loop (args : list (list Z)) : prog Empty_set :=
  match args with
  | [] => exit 0
  | a :: args' => match atoi a with Some pid => sys (Kill pid);; kill_loop args' | None => undefined end
  end.
Definition kill_main (args : list (list Z)) : prog Empty_set :=
  match args with [] => sys (Fprintf 2 "usage: kill pid...
" []);; exit 1 | _ => kill_loop args end.

(** ** psinfo.c *)

(** Elements [i], ... of the array, [left] of them. *)
Fixpoint psinfo_print (left : nat) (pinfo : list Info) (i : nat) : prog Empty_set :=
  match left with
  | O => exit 0
  | S left' =>
      match pinfo !! i with
      | None => undefined
      | Some x =>
          printf "%d	%s		%s
" [AInt (in_pid x); AStr (Some (upto_nul (in_name x))); AStr (Some (upto_nul (in_state x)))];;
          psinfo_print left' pinfo (S i)
      end
  end.
Definition psinfo_main : prog Empty_set :=
  r ← sys (Psinfo 64);
  if r.1 <? 0 then printf "psinfo failed
" [];; exit 1 else
  printf "PID	NAME		STATE
" [];;
  printf "----------------------------------
" [];;
  psinfo_print (Z.to_nat r.1) r.2 0.

(** ** ls.c *)

(** [for(p=path+strlen(path); p >= path && *p != '/'; p--); p++;] from index [i]. *)
Fixpoint after_slash (path : list Z) (i : nat) : nat :=
  if bool_decide (path !! i = Some (chr "/")) then S i
  else match i with O => O | S i' => after_slash path i' end.

(** The string returned and the static array. *)
Definition fmtname (buf : list Z) (path : list Z) : list Z * list Z :=
  let p := drop (after_slash path (length path)) path in
  if (DIRSIZ <=? length p)%nat then (p, buf) else
  let buf := put_at buf 0 p in
  let buf := put_at buf (length p) (replicate (DIRSIZ - length p) (chr " ")) in
  let buf := put_at buf DIRSIZ [0] in
  (upto_nul buf, buf).

Definition BUFSZ : nat := 512.
Definition show (name : list Z) (st : Stat) : prog unit :=
  printf "%s %d %d %d
" [AStr (Some name); AInt (st_type st); AInt (st_ino st); AInt (to_int (st_size st))].

(** The state of the loop: [buf], [st] and the static array of [fmtname]. *)
Definition ls_entry (fd : Z) (p : nat) (v : list Z * Stat * list Z) : prog (list Z * Stat * list Z + list Z) :=
  let '(buf, st, fbuf) := v in
  r ← sys (Read fd (Z.of_nat DESIZ));
  if negb (r.1 =? Z.of_nat DESIZ) then mret (inr fbuf) else
  if de_inum r.2 =? 0 then mret (inl v) else
  let buf := put_at (put_at buf p (de_name r.2)) (p + DIRSIZ) [0] in
  x ← stat (upto_nul buf) st;
  if x.1 <? 0 then
    printf "ls: cannot stat %s
" [AStr (Some (upto_nul buf))];;
    mret (inl (buf, x.2, fbuf))
  else
    let '(name, fbuf) := fmtname fbuf (upto_nul buf) in
    show name x.2;;
    mret (inl (buf, x.2, fbuf)).

(** [buf0] and [st0] are what the stack held; the result is the static array. *)
Definition ls (buf0 : list Z) (st0 : Stat) (fbuf : list Z) (path : list Z) : prog (list Z) :=
  fd ← sys (Open path O_RDONLY);
  if fd <? 0 then sys (Fprintf 2 "ls: cannot open %s
" [AStr (Some path)]);; mret fbuf else
  r ← sys (Fstat fd);
  if r.1 <? 0 then sys (Fprintf 2 "ls: cannot stat %s
" [AStr (Some path)]);; sys (Close fd);; mret fbuf else
  let st := r.2 in
  fbuf ← (if (st_type st =? T_DEVICE) || (st_type st =? T_FILE) then
            let '(name, fbuf) := fmtname fbuf path in show name st;; mret fbuf
          else if st_type st =? T_DIR then
            if (BUFSZ <? length path + 1 + DIRSIZ + 1)%nat then printf "ls: path too long
" [];; mret fbuf else
            let buf := put_at buf0 0 (path ++ [0]) in
            let p := length (upto_nul buf) in
            let buf := put_at buf p [chr "/"] in
            ITree.iter (ls_entry fd (S p)) (buf, st, fbuf)
          else mret fbuf);
  sys (Close fd);;
  mret fbuf.

(** [junk i] is what the stack holds at call number [i]. *)
Fixpoint ls_args (junk : nat → list Z * Stat) (i : nat) (fbuf : list Z) (args : list (list Z)) : prog Empty_set :=
  match args with
  | [] => exit 0
  | a :: args' => fbuf ← ls (junk i).1 (junk i).2 fbuf a; ls_args junk (S i) fbuf args'
  end.
Definition ls_main (junk : nat → list Z * Stat) (args : list (list Z)) : prog Empty_set :=
  let fbuf := replicate (S DIRSIZ) 0 in
  match args with
  | [] => ls (junk 0%nat).1 (junk 0%nat).2 fbuf (text ".");; exit 0
  | _ => ls_args junk 0 fbuf args
  end.

(** ** Unfolding *)

Lemma bind_step {A B} (t : prog A) (k : A → prog B) :
  observe (t ≫= k) = match observe t with RetF r => observe (k r) | TauF u => TauF (u ≫= k) | VisF e h => VisF e (λ x, h x ≫= k) end.
Proof.
  change (observe (match observe t with RetF r => k r | TauF u => Tau (u ≫= k) | VisF e h => Vis e (λ x, h x ≫= k) end) =
    match observe t with RetF r => observe (k r) | TauF u => TauF (u ≫= k) | VisF e h => VisF e (λ x, h x ≫= k) end).
  by destruct (observe t).
Qed.
Lemma iter_step {I R} (body : I → prog (I + R)) i :
  observe (ITree.iter body i) = observe (body i ≫= λ lr, match lr with inl j => Tau (ITree.iter body j) | inr r => Ret r end).
Proof. done. Qed.

(** ** Names *)

(** A name as [ls] shows it: blanks up to [DIRSIZ] characters. *)
Definition padded (b : list Z) : list Z := b ++ replicate (DIRSIZ - length b) (chr " ").

Lemma after_slash_none (d b : list Z) i :
  chr "/" ∉ b → (i ≤ length b)%nat → after_slash (d ++ b) (length d + i) = after_slash (d ++ b) (length d).
Proof.
  intros Hb. induction i as [|i IH]; intros Hi; [by rewrite Nat.add_0_r|]. rewrite Nat.add_succ_r. cbn [after_slash].
  rewrite bool_decide_eq_false_2; [apply IH; lia|]. rewrite lookup_app_r by lia. replace (S (length d + i) - length d)%nat with (S i) by lia.
  intros H. apply Hb. by eapply list_elem_of_lookup_2.
Qed.
Lemma after_slash_base (d b : list Z) : chr "/" ∉ b → after_slash (d ++ chr "/" :: b) (length (d ++ chr "/" :: b)) = S (length d).
Proof.
  intros Hb. replace (d ++ chr "/" :: b) with ((d ++ [chr "/"]) ++ b) by by rewrite <- app_assoc. rewrite length_app.
  rewrite after_slash_none by done. rewrite length_app. cbn [length]. rewrite Nat.add_1_r. cbn [after_slash].
  case_bool_decide as H1.
  { rewrite lookup_app_r in H1 by (rewrite length_app; cbn [length]; lia). exfalso. apply Hb. by eapply list_elem_of_lookup_2. }
  destruct (length d) as [|n] eqn:Hd; cbn [after_slash]; rewrite bool_decide_eq_true_2; try done;
    rewrite <- app_assoc, lookup_app_r, Hd by lia; by rewrite Nat.sub_diag.
Qed.

Lemma upto_nul_app a l : no_nul a → upto_nul (a ++ l) = a ++ upto_nul l.
Proof. induction 1 as [|c a Hc _ IH]; cbn [app upto_nul]; [done|]. by rewrite (proj2 (Z.eqb_neq _ _)), IH. Qed.
Lemma upto_nul_end l r : upto_nul (l ++ 0 :: r) = upto_nul l.
Proof. induction l as [|c l IH]; cbn [app upto_nul]; [done|]. by destruct (c =? 0); [|rewrite IH]. Qed.
Lemma put_at_app (a v r : list Z) : put_at (a ++ r) (length a) v = a ++ v ++ drop (length v) r.
Proof. unfold put_at. by rewrite take_app_length, drop_app_add. Qed.

(** [fmtname] shows what is behind the last slash. *)
Lemma fmtname_base fbuf d b :
  length fbuf = S DIRSIZ → no_nul b → chr "/" ∉ b →
  (fmtname fbuf (d ++ chr "/" :: b)).1 = padded b ∧ length (fmtname fbuf (d ++ chr "/" :: b)).2 = S DIRSIZ.
Proof.
  intros Hl Hn Hb. unfold fmtname. rewrite after_slash_base by done. replace (drop (S (length d)) (d ++ chr "/" :: b)) with b.
  2:{ replace (S (length d)) with (length d + 1)%nat by lia. by rewrite drop_app_add. }
  destruct (Nat.leb_spec DIRSIZ (length b)) as [Hge|Hlt].
  { unfold padded. replace (DIRSIZ - length b)%nat with 0%nat by lia. by rewrite app_nil_r. }
  assert (Hp : length (padded b) = DIRSIZ) by (unfold padded; rewrite length_app, length_replicate; lia).
  assert (E : put_at (put_at (put_at fbuf 0 b) (length b) (replicate (DIRSIZ - length b) (chr " "))) DIRSIZ [0] = padded b ++ 0 :: drop (S DIRSIZ) fbuf).
  { replace (put_at fbuf 0 b) with (b ++ drop (length b) fbuf) by (symmetry; exact (put_at_app [] b fbuf)).
    rewrite put_at_app, length_replicate, drop_drop. replace (length b + (DIRSIZ - length b))%nat with DIRSIZ by lia. rewrite app_assoc. fold (padded b).
    rewrite <- Hp at 2. rewrite put_at_app, drop_drop. cbn [length app]. by rewrite Nat.add_1_r. }
  rewrite E. cbn [fst snd].
  assert (Hnp : no_nul (padded b)) by (apply Forall_app; split; [done|]; apply Forall_replicate; done). split.
  - by rewrite upto_nul_end, upto_nul_full.
  - rewrite length_app, Hp. cbn [length]. rewrite length_drop, Hl. lia.
Qed.

(** ** Programs on a file system *)

(** A file that a name leads to. *)
Record Node := mkNode { nd_stat : Stat; nd_bytes : list Z }.
(** The descriptors, with the offsets, and the calls of printf so far. *)
Record World := mkWorld { w_fds : list (option (Node * nat)); w_out : list (Z * string * list Arg) }.

Fixpoint free_fd {A} (l : list (option A)) : option nat :=
  match l with [] => None | None :: _ => Some O | Some _ :: l' => S <$> free_fd l' end.
Definition with_fd (fd : nat) (o : option (Node * nat)) (w : World) : World := mkWorld (<[fd := o]> (w_fds w)) (w_out w).
Definition opened (w : World) (fd : Z) : option (Node * nat) := if fd <? 0 then None else mjoin (w_fds w !! Z.to_nat fd).

Inductive Ended R := Done (r : R) (w : World) | Exited (status : Z) (w : World) | Stuck | OutOfFuel.
Arguments Done {R} r w. Arguments Exited {R} status w. Arguments Stuck {R}. Arguments OutOfFuel {R}.

Section World.
Context (files : list Z → option Node).

(** The calls of [ls]; the other programs are not run on this file system. *)
Definition answer {A} (e : sysE A) (w : World) : option (A * World) :=
  match e in sysE A return option (A * World) with
  | Open path _ =>
      match files path, free_fd (w_fds w) with
      | Some nd, Some k => Some (Z.of_nat k, with_fd k (Some (nd, O)) w)
      | _, _ => Some (-1, w)
      end
  | Close fd => match opened w fd with Some _ => Some (0, with_fd (Z.to_nat fd) None w) | None => Some (-1, w) end
  | Read fd n =>
      match opened w fd with
      | Some (nd, off) =>
          let bs := take (Z.to_nat n) (drop off (nd_bytes nd)) in
          Some ((Z.of_nat (length bs), bs), with_fd (Z.to_nat fd) (Some (nd, off + length bs)%nat) w)
      | None => Some ((-1, []), w)
      end
  | Fstat fd => match opened w fd with Some (nd, _) => Some ((0, nd_stat nd), w) | None => Some ((-1, mkStat 0 0 0 0 0), w) end
  | Fprintf fd fmt args => Some (tt, mkWorld (w_fds w) (w_out w ++ [(fd, fmt, args)]))
  | _ => None
  end.

Fixpoint run {R} (fuel : nat) (t : prog R) (w : World) : Ended R :=
  match fuel with
  | O => OutOfFuel
  | S f =>
      match observe t with
      | RetF r => Done r w
      | TauF u => run f u w
      | VisF e k =>
          match e in sysE A return (A → prog R) → Ended R with
          | Exit st => λ _, Exited st w
          | e' => λ k, match answer e' w with Some (x, w') => run f (k x) w' | None => Stuck end
          end k
      end
  end.
Definition finishes {R} (t : prog R) (w : World) (o : Ended R) : Prop := o ≠ OutOfFuel ∧ ∃ n, run n t w = o.

Lemma run_bind_done {A B} n m (t : prog A) (k : A → prog B) w r w' o :
  run n t w = Done r w' → run m (k r) w' = o → o ≠ OutOfFuel → ∃ n', run n' (t ≫= k) w = o.
Proof.
  revert t w. induction n as [|n IH]; intros t w H Hk Ho; [done|]. cbn [run] in H.
  destruct (observe t) as [a|u|X e h] eqn:Ht.
  - injection H as -> ->. destruct m as [|m]; [by subst o|]. exists (S m). cbn [run] in *. rewrite bind_step, Ht. done.
  - destruct (IH u w H Hk Ho) as [n' Hn]. exists (S n'). cbn [run]. rewrite bind_step, Ht. done.
  - destruct e; try done; cbn in H |- *;
      try (match type of H with match ?a with _ => _ end = _ => destruct a as [[x w1]|] eqn:Ha; [|done] end;
           destruct (IH _ _ H Hk Ho) as [n' Hn]; exists (S n'); cbn [run]; rewrite bind_step, Ht; cbn; rewrite ?Ha; done).
    destruct (IH _ _ H Hk Ho) as [n' Hn]. exists (S n'). cbn [run]. rewrite bind_step, Ht. exact Hn.
Qed.

Lemma finishes_ret {R} (r : R) w : finishes (mret r) w (Done r w).
Proof. split; [done|]. by exists 1%nat. Qed.
Lemma finishes_bind {A B} (t : prog A) (k : A → prog B) w r w' o : finishes t w (Done r w') → finishes (k r) w' o → finishes (t ≫= k) w o.
Proof. intros [_ [n Hn]] [Ho [m Hm]]. split; [done|]. by eapply run_bind_done. Qed.
Lemma finishes_sys {A B} (e : sysE A) (k : A → prog B) w x w' o : answer e w = Some (x, w') → finishes (k x) w' o → finishes (sys e ≫= k) w o.
Proof.
  intros Ha Hk. eapply finishes_bind; [|exact Hk]. split; [done|]. exists 2%nat. cbn [run]. unfold sys. cbn [observe ITree.trigger _observe].
  destruct e; rewrite ?Ha; done.
Qed.
Lemma finishes_step {R} (t u : prog R) w o : observe t = observe u → finishes u w o → finishes t w o.
Proof. intros E [Ho [[|n] Hn]]; [by subst o|]. split; [done|]. exists (S n). cbn [run] in *. by rewrite E. Qed.
Lemma finishes_tau {R} (t : prog R) w o : finishes t w o → finishes (Tau t) w o.
Proof. intros [Ho [n Hn]]. split; [done|]. by exists (S n). Qed.

(** One more round of a loop, and its end. *)
Lemma finishes_again {I R} (body : I → prog (I + R)) i w j w' o : finishes (body i) w (Done (inl j) w') → finishes (ITree.iter body j) w' o → finishes (ITree.iter body i) w o.
Proof. intros Hb Hl. eapply finishes_step; [apply iter_step|]. eapply finishes_bind; [exact Hb|]. by apply finishes_tau. Qed.
Lemma finishes_last {I R} (body : I → prog (I + R)) i w r w' : finishes (body i) w (Done (inr r) w') → finishes (ITree.iter body i) w (Done r w').
Proof. intros Hb. eapply finishes_step; [apply iter_step|]. eapply finishes_bind; [exact Hb|]. apply finishes_ret. Qed.

(** *** Descriptors *)

Lemma free_fd_spec {A} (l : list (option A)) k : free_fd l = Some k → l !! k = Some None.
Proof.
  revert k. induction l as [|[a|] l IH]; intros k H; cbn in H; [done| |by injection H as <-].
  destruct (free_fd l) as [j|]; [|done]. injection H as <-. by apply IH.
Qed.
Lemma opened_with k o w : (k < length (w_fds w))%nat → opened (with_fd k o w) (Z.of_nat k) = o.
Proof. intros Hk. unfold opened. rewrite (proj2 (Z.ltb_ge _ _)), Nat2Z.id by lia. cbn. by rewrite list_lookup_insert_eq. Qed.
Lemma with_fd_twice k o o' w : with_fd k o (with_fd k o' w) = with_fd k o w.
Proof. unfold with_fd. cbn. by rewrite list_insert_insert_eq. Qed.
Lemma with_fd_free k w : w_fds w !! k = Some None → with_fd k None w = w.
Proof. intros Hk. unfold with_fd. rewrite list_insert_id by done. by destruct w. Qed.

(** [stat] of a file by name, with a descriptor left. *)
Lemma finishes_stat n st0 w :
  is_Some (free_fd (w_fds w)) → finishes (stat n st0) w (Done (match files n with Some nd => (0, nd_stat nd) | None => (-1, st0) end) w).
Proof.
  intros [k Hk]. pose proof (free_fd_spec _ _ Hk) as Hf. pose proof (lookup_lt_Some _ _ _ Hf) as Hlt. unfold stat. destruct (files n) as [nd|] eqn:Hn.
  - eapply finishes_sys; [cbn; by rewrite Hn, Hk|]. rewrite (proj2 (Z.ltb_ge _ _)) by lia.
    eapply finishes_sys; [cbn; by rewrite opened_with|]. eapply finishes_sys; [cbn; by rewrite opened_with|].
    rewrite Nat2Z.id, with_fd_twice, with_fd_free by done. apply finishes_ret.
  - eapply finishes_sys; [cbn; by rewrite Hn|]. apply finishes_ret.
Qed.

(** *** ls *)

Definition say (out : list (Z * string * list Arg)) (w : World) : World := mkWorld (w_fds w) (w_out w ++ out).
Lemma say_say o1 o2 w : say o2 (say o1 w) = say (o1 ++ o2) w.
Proof. unfold say. cbn. by rewrite app_assoc. Qed.
Lemma say_nil w : say [] w = w.
Proof. unfold say. rewrite app_nil_r. by destruct w. Qed.
Lemma say_with_fd o k x w : say o (with_fd k x w) = with_fd k x (say o w).
Proof. done. Qed.

(** The line for a file, and for an entry of the directory [path]. *)
Definition file_line (name : list Z) (st : Stat) : Z * string * list Arg :=
  (1, "%s %d %d %d
"%string, [AStr (Some name); AInt (st_type st); AInt (st_ino st); AInt (to_int (st_size st))]).
Definition entry_line (path : list Z) (e : list Z * Z) : Z * string * list Arg :=
  match files (path ++ chr "/" :: e.1) with
  | Some nd => file_line (padded e.1) (nd_stat nd)
  | None => (1, "ls: cannot stat %s
"%string, [AStr (Some (path ++ chr "/" :: e.1))])
  end.
(** What the entries from [j] on bind, in order. *)
Definition dir_list (l : list Z) (j : nat) : list (list Z * Z) := omap (dir_bind l) (seq j (dir_size l - j)).

Lemma dir_list_step l j : (j < dir_size l)%nat →
  dir_list l j = match dir_bind l j with Some e => e :: dir_list l (S j) | None => dir_list l (S j) end.
Proof. intros Hj. unfold dir_list. replace (dir_size l - j)%nat with (S (dir_size l - S j)) by lia. cbn [seq omap list_omap]. by destruct (dir_bind l j). Qed.

Lemma free_fd_insert {A} (l : list (option A)) k a b : l !! k = Some (Some a) → free_fd (<[k := Some b]> l) = free_fd l.
Proof.
  revert k. induction l as [|[x|] l IH]; intros [|k] H; cbn in *; try done. by rewrite IH.
Qed.

Section Ls.
Context (path : list Z) (nd : Node) (fd : nat).
Hypothesis Hpath : no_nul path.
Hypothesis Hslash : ∀ e, e ∈ dir_list (nd_bytes nd) 0 → chr "/" ∉ e.1.
Let l : list Z := nd_bytes nd.

Lemma entry_name buf rest de :
  length de = DESIZ → buf = path ++ chr "/" :: rest →
  ∃ rest', let buf' := put_at (put_at buf (S (length path)) (de_name de)) (S (length path) + DIRSIZ) [0] in
  buf' = path ++ chr "/" :: rest' ∧ upto_nul buf' = path ++ chr "/" :: file_name (de_name de).
Proof.
  intros Hde ->. assert (Hn : length (de_name de) = DIRSIZ) by (unfold de_name; rewrite length_take, length_drop, Hde; done).
  assert (E : path ++ chr "/" :: rest = (path ++ [chr "/"]) ++ rest) by by rewrite <- app_assoc.
  assert (Hl : S (length path) = length (path ++ [chr "/"])) by (rewrite length_app; cbn [length]; lia).
  rewrite E, Hl, put_at_app. rewrite app_assoc. replace (length (path ++ [chr "/"]) + DIRSIZ)%nat with (length ((path ++ [chr "/"]) ++ de_name de)) by (rewrite length_app, Hn; done).
  rewrite put_at_app. eexists. split; [rewrite <- !app_assoc; reflexivity|]. rewrite <- !app_assoc, !upto_nul_app by (done || by constructor). cbn [app]. rewrite upto_nul_end.
  unfold file_name. rewrite take_ge; [done|]. rewrite <- Hn. clear. induction (de_name de) as [|c r IH]; cbn; [done|]. destruct (c =? 0); cbn; lia.
Qed.

Lemma size_bound (d : list Z) : (DESIZ * dir_size d ≤ length d < DESIZ * dir_size d + DESIZ)%nat.
Proof. unfold dir_size. pose proof (Nat.div_mod (length d) DESIZ ltac:(done)). pose proof (Nat.mod_upper_bound (length d) DESIZ ltac:(done)). lia. Qed.
Lemma opened_at w off : w_fds w !! fd = Some (Some (nd, off)) → opened w (Z.of_nat fd) = Some (nd, off).
Proof. intros Hw. unfold opened. rewrite (proj2 (Z.ltb_ge _ _)), Nat2Z.id, Hw by lia. done. Qed.
Lemma answer_read w off :
  w_fds w !! fd = Some (Some (nd, off)) →
  answer (Read (Z.of_nat fd) (Z.of_nat DESIZ)) w =
    Some ((Z.of_nat (length (take DESIZ (drop off l))), take DESIZ (drop off l)), with_fd fd (Some (nd, off + length (take DESIZ (drop off l)))%nat) w).
Proof. intros Hw. cbn [answer]. by rewrite (opened_at _ _ Hw), !Nat2Z.id. Qed.

Lemma ls_round j buf rest st fbuf w :
  (j < dir_size l)%nat → buf = path ++ chr "/" :: rest → length fbuf = S DIRSIZ →
  w_fds w !! fd = Some (Some (nd, DESIZ * j)%nat) → is_Some (free_fd (w_fds w)) →
  ∃ buf' rest' st' fbuf', buf' = path ++ chr "/" :: rest' ∧ length fbuf' = S DIRSIZ ∧
    finishes (ls_entry (Z.of_nat fd) (S (length path)) (buf, st, fbuf)) w
      (Done (inl (buf', st', fbuf'))
        (say (match dir_bind l j with Some e => [entry_line path e] | None => [] end) (with_fd fd (Some (nd, DESIZ * S j)%nat) w))).
Proof.
  intros Hj Hbuf Hfb Hfd Hfree. destruct (size_bound l) as [Hs1 _].
  assert (Hlen : length (dir_entry l j) = DESIZ) by (unfold dir_entry; rewrite length_take, length_drop; unfold DESIZ in *; lia).
  set (w1 := with_fd fd (Some (nd, DESIZ * S j)%nat) w).
  assert (Hfree1 : is_Some (free_fd (w_fds w1))) by (cbn; by erewrite free_fd_insert).
  assert (Hread : answer (Read (Z.of_nat fd) (Z.of_nat DESIZ)) w = Some ((Z.of_nat DESIZ, dir_entry l j), w1)).
  { rewrite (answer_read _ _ Hfd). fold (dir_entry l j). rewrite Hlen. by replace (DESIZ * j + DESIZ)%nat with (DESIZ * S j)%nat by lia. }
  unfold ls_entry, dir_bind. destruct (Z.eqb_spec (de_inum (dir_entry l j)) 0) as [H0|H0].
  { exists buf, rest, st, fbuf. split_and!; [done|done|]. eapply finishes_sys; [exact Hread|]. cbn [fst snd negb]. rewrite Z.eqb_refl. cbn [negb].
    rewrite (proj2 (Z.eqb_eq _ _) H0), say_nil. apply finishes_ret. }
  destruct (entry_name buf rest _ Hlen Hbuf) as (rest' & Hb' & Hname). cbv zeta in Hb', Hname. set (buf' := put_at _ _ [0]) in *.
  set (name := file_name (de_name (dir_entry l j))) in *.
  assert (Hin : (name, de_inum (dir_entry l j)) ∈ dir_list l 0).
  { apply list_elem_of_omap. exists j. split; [apply elem_of_seq; lia|]. unfold dir_bind. by rewrite (proj2 (Z.eqb_neq _ _) H0). }
  assert (Hnn : no_nul name).
  { unfold name, file_name. apply Forall_take. clear. induction (de_name _) as [|c r IH]; cbn; [constructor|]. destruct (Z.eqb_spec c 0); [constructor|by constructor]. }
  destruct (fmtname_base fbuf path name Hfb Hnn (Hslash _ Hin)) as [Hf1 Hf2].
  unfold entry_line. cbn [fst]. destruct (files (path ++ chr "/" :: name)) as [x|] eqn:Hx.
  - exists buf', rest', (nd_stat x), (fmtname fbuf (path ++ chr "/" :: name)).2. split_and!; [done|done|].
    eapply finishes_sys; [exact Hread|]. cbn [fst snd]. rewrite Z.eqb_refl. cbn [negb]. rewrite (proj2 (Z.eqb_neq _ _) H0). fold buf'. cbv zeta.
    eapply finishes_bind; [by apply finishes_stat|]. rewrite Hname, Hx. cbn [fst snd Z.ltb Z.compare].
    destruct (fmtname fbuf (path ++ chr "/" :: name)) as [shown fb]. cbn [fst snd] in *. subst shown.
    eapply finishes_sys; [reflexivity|]. apply finishes_ret.
  - exists buf', rest', st, fbuf. split_and!; [done|done|].
    eapply finishes_sys; [exact Hread|]. cbn [fst snd]. rewrite Z.eqb_refl. cbn [negb]. rewrite (proj2 (Z.eqb_neq _ _) H0). fold buf'. cbv zeta.
    eapply finishes_bind; [by apply finishes_stat|]. rewrite Hname, Hx. cbn [fst snd Z.ltb Z.compare].
    eapply finishes_sys; [reflexivity|]. apply finishes_ret.
Qed.

Lemma ls_loop m j buf rest st fbuf w :
  (dir_size l - j = m)%nat → (j ≤ dir_size l)%nat → buf = path ++ chr "/" :: rest → length fbuf = S DIRSIZ →
  w_fds w !! fd = Some (Some (nd, DESIZ * j)%nat) → is_Some (free_fd (w_fds w)) →
  ∃ fbuf', length fbuf' = S DIRSIZ ∧
    finishes (ITree.iter (ls_entry (Z.of_nat fd) (S (length path))) (buf, st, fbuf)) w
      (Done fbuf' (with_fd fd (Some (nd, length l)) (say (entry_line path <$> dir_list l j) w))).
Proof.
  revert j buf rest st fbuf w. induction m as [|m IH]; intros j buf rest st fbuf w Hm Hj Hbuf Hfb Hfd Hfree.
  - assert (j = dir_size l) as -> by lia. destruct (size_bound l) as [Hs1 Hs2]. exists fbuf. split; [done|].
    unfold dir_list. rewrite Nat.sub_diag, say_nil. apply finishes_last. unfold ls_entry. eapply finishes_sys; [by apply answer_read|].
    fold l. cbn [fst]. rewrite length_take, length_drop. rewrite (proj2 (Z.eqb_neq _ _)) by lia. cbn [negb].
    replace (DESIZ * dir_size l + DESIZ `min` (length l - DESIZ * dir_size l))%nat with (length l) by lia. apply finishes_ret.
  - destruct (ls_round j buf rest st fbuf w) as (buf' & rest' & st' & fbuf' & Hb & Hf & Hround); [lia|done..|].
    set (out := match dir_bind l j with Some e => [entry_line path e] | None => [] end) in *. set (w1 := say out _) in Hround.
    destruct (IH (S j) buf' rest' st' fbuf' w1) as (fbuf2 & Hf2 & Hend); [lia|lia|done|done| |cbn; by erewrite free_fd_insert|].
    { cbn. by rewrite list_lookup_insert_eq by (by eapply lookup_lt_Some). }
    exists fbuf2. split; [done|]. eapply finishes_again; [exact Hround|].
    unfold w1 in Hend at 2. rewrite say_say, say_with_fd, with_fd_twice in Hend. rewrite (dir_list_step l j) by lia.
    unfold out in Hend. by destruct (dir_bind l j).
Qed.
End Ls.

(** [ls] on a directory prints one line for every entry in use, in order:
    the name padded with blanks, and the type, the inode number and the size of
    the file that the name leads to.  It ends, and leaves the descriptors as
    they were; the path fits in its buffer. *)
Theorem ls_lists_directory (path : list Z) (nd : Node) (buf0 : list Z) (st0 : Stat) (fbuf : list Z) (w : World) (fd : nat)
  (Hpath : no_nul path) (Hlong : (length path + 1 + DIRSIZ + 1 ≤ BUFSZ)%nat)
  (Hfile : files path = Some nd) (Hdir : st_type (nd_stat nd) = T_DIR)
  (Hslash : ∀ e, e ∈ dir_list (nd_bytes nd) 0 → chr "/" ∉ e.1)
  (Hbuf : length buf0 = BUFSZ) (Hfbuf : length fbuf = S DIRSIZ)
  (Hfree : free_fd (w_fds w) = Some fd) (Hfree2 : is_Some (free_fd (<[fd := Some (nd, 0%nat)]> (w_fds w)))) :
  ∃ fbuf', length fbuf' = S DIRSIZ ∧
    finishes (ls buf0 st0 fbuf path) w (Done fbuf' (say (entry_line path <$> dir_list (nd_bytes nd) 0) w)).
Proof.
  pose proof (free_fd_spec _ _ Hfree) as Hf. pose proof (lookup_lt_Some _ _ _ Hf) as Hlt.
  set (w1 := with_fd fd (Some (nd, 0%nat)) w).
  assert (Hw1 : w_fds w1 !! fd = Some (Some (nd, 0%nat))) by (cbn; by rewrite list_lookup_insert_eq).
  assert (E1 : put_at buf0 0 (path ++ [0]) = path ++ 0 :: drop (S (length path)) buf0).
  { pose proof (put_at_app [] (path ++ [0]) buf0) as E. cbn [app length] in E. rewrite E, <- app_assoc, length_app. cbn [length app]. by rewrite Nat.add_1_r. }
  assert (E2 : length (upto_nul (put_at buf0 0 (path ++ [0]))) = length path) by (by rewrite E1, upto_nul_stop).
  destruct (ls_loop path nd fd Hpath Hslash (dir_size (nd_bytes nd)) 0 (path ++ chr "/" :: drop 1 (0 :: drop (S (length path)) buf0))
    (drop (S (length path)) buf0) (nd_stat nd) fbuf w1) as (fbuf' & Hfb & Hloop); [lia|lia|done|done|done|done|].
  exists fbuf'. split; [done|]. unfold ls. eapply finishes_sys; [cbn; by rewrite Hfile, Hfree|]. fold w1.
  rewrite (proj2 (Z.ltb_ge _ _)) by lia. eapply finishes_sys; [cbn; by rewrite (opened_at nd fd _ _ Hw1)|]. cbn [fst snd Z.ltb Z.compare].
  rewrite Hdir. cbn [Z.eqb orb T_DIR T_DEVICE T_FILE Pos.eqb]. rewrite (proj2 (Nat.ltb_ge _ _)) by done. cbv zeta. rewrite E2, E1, put_at_app.
  eapply finishes_bind; [exact Hloop|]. eapply finishes_sys.
  { cbn [answer]. rewrite opened_with; [reflexivity|]. cbn. by rewrite length_insert. }
  rewrite Nat2Z.id, with_fd_twice. unfold w1. rewrite say_with_fd, with_fd_twice, with_fd_free by done. apply finishes_ret.
Qed.
End World.

(** A directory with two files and a free entry between them. *)
Definition sample_bytes : list Z := dirent 5 (str_ncpy (text "a") DIRSIZ) ++ dirent 0 (str_ncpy (text "b") DIRSIZ) ++ dirent 7 (str_ncpy (text "cc") DIRSIZ).
Definition sample_files (p : list Z) : option Node :=
  if bool_decide (p = text "d") then Some (mkNode (mkStat 1 3 T_DIR 1 48) sample_bytes)
  else if bool_decide (p = text "d/a") then Some (mkNode (mkStat 1 5 T_FILE 1 10) []) else None.
Definition sample_world : World := mkWorld [Some (mkNode (mkStat 1 2 T_DEVICE 1 0) [], 0%nat); None; None] [].

Lemma ls_lists_directory_witness :
  ∃ fbuf', finishes sample_files (ls (replicate BUFSZ 1) (mkStat 0 0 0 0 0) (replicate 15 0) (text "d")) sample_world
    (Done fbuf' (say [(1, "%s %d %d %d
"%string, [AStr (Some (text "a             ")); AInt 2; AInt 5; AInt 10]);
                      (1, "ls: cannot stat %s
"%string, [AStr (Some (text "d/cc"))])] sample_world)).
Proof.
  destruct (ls_lists_directory sample_files (text "d") (mkNode (mkStat 1 3 T_DIR 1 48) sample_bytes) (replicate BUFSZ 1) (mkStat 0 0 0 0 0) (replicate 15 0) sample_world 1) as (fb & _ & Hr).
  - by repeat constructor.
  - apply Nat.leb_le. reflexivity.
  - reflexivity.
  - reflexivity.
  - intros e He. assert (dir_list sample_bytes 0 = [(text "a", 5); (text "cc", 7)]) as E by reflexivity. cbn [nd_bytes] in He. rewrite E in He.
    apply elem_of_cons in He as [-> |He]; [|apply list_elem_of_singleton in He as ->]; apply (bool_decide_unpack _); reflexivity.
  - reflexivity.
  - reflexivity.
  - reflexivity.
  - by eexists.
  - exists fb. exact Hr.
Defined.

(** ** Programs with any answers *)

(** The calls that matter for what follows, with their results. *)
Inductive Obs :=
  | OFork (pid : Z) | OWait (pid : Z) | OExec (path : list Z) (argv : list (list Z))
  | OMkdir (path : list Z) (r : Z) | OUnlink (path : list Z) (r : Z) | OExit (status : Z) | OUndefined | OOther.
Definition obs {A} (e : sysE A) : A → Obs :=
  match e in sysE A return A → Obs with
  | Fork => OFork
  | Wait => OWait
  | Exec path argv => λ _, OExec path argv
  | Mkdir path => OMkdir path
  | Unlink path => OUnlink path
  | _ => λ _, OOther
  end.
(** [tr] is a sequence of calls that the program can make, in [n] steps. *)
Fixpoint may {R} (n : nat) (t : prog R) (tr : list Obs) : Prop :=
  match n with
  | O => tr = []
  | S n' =>
      match observe t with
      | RetF _ => tr = []
      | TauF u => may n' u tr
      | VisF e k =>
          tr = [] ∨
          match e in sysE A return (A → prog R) → Prop with
          | Exit st => λ _, tr = [OExit st]
          | Undefined => λ _, tr = [OUndefined]
          | e' => λ k, ∃ x tr', tr = obs e' x :: tr' ∧ may n' (k x) tr'
          end k
      end
  end.

(** The life of the shell as [init] has to look after it: [live] is the shell
    that runs, [child] says that this is the new process, [failed] that a call
    has failed for which [init] gives up. *)
Fixpoint looked_after (live : option Z) (child failed : bool) (tr : list Obs) : Prop :=
  match tr with
  | [] => True
  | OFork p :: tr' => live = None ∧ child = false ∧ failed = false ∧ looked_after (if 0 <? p then Some p else None) (p =? 0) (p <? 0) tr'
  | OWait r :: tr' =>
      ∃ p, live = Some p ∧ child = false ∧ failed = false ∧
        looked_after (if r =? p then None else live) false ((r <? 0) && negb (r =? p)) tr'
  | OExec path argv :: tr' => child = true ∧ path = text "sh" ∧ argv = [text "sh"] ∧ looked_after live child true tr'
  | OExit st :: tr' => st = 1 ∧ failed = true ∧ tr' = []
  | OOther :: tr' => looked_after live child failed tr'
  | _ => False
  end.

Lemma may_ext {R} n (t u : prog R) tr : observe t = observe u → may n t tr → may n u tr.
Proof. intros E. destruct n; cbn [may]; [done|]. by rewrite E. Qed.
Lemma may_assoc {A B C} n (t : prog A) (f : A → prog B) (g : B → prog C) tr :
  may n ((t ≫= f) ≫= g) tr → may n (t ≫= λ x, f x ≫= g) tr.
Proof.
  revert t tr. induction n as [|n IH]; intros t tr; cbn [may]; [done|]. rewrite (bind_step (t ≫= f)), !(bind_step t).
  destruct (observe t) as [a|u|X e h]; [by rewrite bind_step|apply IH|].
  intros [H|H]; [by left|right]. destruct e; try exact H; destruct H as (x & tr' & -> & H); exists x, tr'; (split; [done|by apply IH]).
Qed.
Lemma may_exit {B} n st (k : Empty_set → prog B) tr : may n (sys (Exit st) ≫= k) tr → tr = [] ∨ tr = [OExit st].
Proof. destruct n; cbn [may]; [by left|]. intros [H|H]; [by left|by right]. Qed.
Lemma may_sys {A B} n (e : sysE A) (k : A → prog B) tr :
  may n (sys e ≫= k) tr →
  tr = [] ∨ match e with Exit _ | Undefined => True | _ => False end ∨ ∃ m x tr', (m < n)%nat ∧ tr = obs e x :: tr' ∧ may m (k x) tr'.
Proof.
  destruct n as [|n]; cbn [may]; [by left|]. unfold sys. rewrite bind_step. cbn [observe ITree.trigger _observe].
  intros [H|H]; [by left|right]. destruct e; try (by left); right; destruct H as (x & tr' & -> & H); exists n, x, tr'; (split; [lia|]); (split; [done|]);
    by eapply may_ext; [|exact H].
Qed.
Lemma may_ret {A B} n (x : A) (k : A → prog B) tr : may n (mret x ≫= k) tr → may n (k x) tr.
Proof. by apply may_ext. Qed.
Lemma may_iter {I R B} n (body : I → prog (I + R)) i (k : R → prog B) tr :
  may n (ITree.iter body i ≫= k) tr →
  may n (body i ≫= λ lr, match lr with inl j => Tau (ITree.iter body j) ≫= k | inr r => k r end) tr.
Proof.
  intros H. assert (H' : may n ((body i ≫= λ lr, match lr with inl j => Tau (ITree.iter body j) | inr r => Ret r end) ≫= k) tr).
  { eapply may_ext; [|exact H]. by rewrite (bind_step (ITree.iter _ _)), (bind_step (body i ≫= _)), iter_step. }
  apply may_assoc in H'. revert H'. generalize (body i). clear. revert tr. induction n as [|n IH]; intros tr t; cbn [may]; [done|].
  rewrite !bind_step. destruct (observe t) as [[j|r]|u|X e h]; [done|by rewrite bind_step|apply IH|].
  intros [H|H]; [by left|right]. destruct e; try exact H; destruct H as (x & tr' & -> & H); exists x, tr'; (split; [done|by apply IH]).
Qed.
Lemma may_tau {A B} n (t : prog A) (k : A → prog B) tr : may n (Tau t ≫= k) tr → tr = [] ∨ ∃ m, (m < n)%nat ∧ may m (t ≫= k) tr.
Proof. destruct n as [|n]; cbn [may]; [by left|]. rewrite bind_step. cbn [observe]. right. exists n. split; [lia|done]. Qed.

Lemma may_bind_ret {A} n (t : prog A) tr : may n t tr → may n (t ≫= mret) tr.
Proof.
  revert t tr. induction n as [|n IH]; intros t tr; cbn [may]; [done|]. rewrite bind_step. destruct (observe t) as [r|u|X e h]; [done|apply IH|].
  intros [H|H]; [by left|right]. destruct e; try exact H; destruct H as (x & tr' & -> & H); exists x, tr'; (split; [done|by apply IH]).
Qed.

(** Brings the first call to the front. *)
Ltac reassoc H :=
  repeat lazymatch type of H with
  | may _ ((_ ≫= _) ≫= _) _ => apply may_assoc in H
  | may _ (mret _ ≫= _) _ => apply may_ret in H
  | may _ (printf _ _ ≫= _) _ => unfold printf at 1 in H
  | may _ (exit _ ≫= _) _ => unfold exit at 1 in H
  end.
(** Moves to the next call. *)
Ltac next_call H := reassoc H; apply may_sys in H as [-> |[[]|(?m & ?x & ?tr & ?Hlt & -> & H)]]; [done|cbn [obs looked_after]].
Ltac gives_up H := reassoc H; apply may_exit in H as [-> | ->]; done.

Lemma reap_loop (k : prog Empty_set) N p :
  0 < p → (∀ n tr, (n < N)%nat → may n k tr → looked_after None false false tr) →
  ∀ n tr, (n ≤ N)%nat → may n (ITree.iter (λ _, init_reap p) tt ≫= λ _, k) tr → looked_after (Some p) false false tr.
Proof.
  intros Hp Hk n. induction n as [n IH] using lt_wf_ind. intros tr Hn H. apply may_iter in H. unfold init_reap in H. next_call H.
  exists p. split_and!; [done|done|done|]. destruct (Z.eqb_spec x p) as [->|Hne].
  { rewrite (proj2 (Z.ltb_ge _ _)) by lia. apply may_ret in H. apply (Hk m); [lia|done]. }
  destruct (Z.ltb_spec x 0) as [Hneg|Hpos]; cbn [andb negb].
  - next_call H. gives_up H.
  - apply may_ret, may_tau in H as [-> |(m' & Hm & H)]; [done|]. apply (IH m'); [lia|lia|done].
Qed.

Lemma rounds n : ∀ tr, may n (ITree.iter (λ _ : unit, init_round) tt ≫= mret) tr → looked_after None false false tr.
Proof.
  induction n as [n IH] using lt_wf_ind. intros tr H. apply may_iter in H. unfold init_round in H. next_call H. next_call H.
  split_and!; [done|done|done|]. destruct (Z.ltb_spec x0 0) as [Hneg|Hpos].
  { rewrite (proj2 (Z.ltb_ge 0 x0)), (proj2 (Z.eqb_neq _ _)) by lia. next_call H. gives_up H. }
  destruct (Z.eqb_spec x0 0) as [->|Hne].
  { cbn [Z.ltb Z.compare]. next_call H. split_and!; [done|done|done|]. next_call H. gives_up H. }
  rewrite (proj2 (Z.ltb_lt 0 x0)) by lia. apply may_assoc in H.
  eapply (reap_loop _ m0); [lia| |reflexivity|exact H]. intros n' tr' Hn' H'. apply may_ret, may_tau in H' as [-> |(m' & Hm & H')]; [done|].
  apply (IH m'); [lia|done].
Qed.

(** Whatever the system calls return, [init] keeps one shell: it forks only
    when no shell of its own is left, after a fork it waits until [wait] returns
    that shell, taking whatever orphans come in between; it ends only after a
    fork or a wait has failed, and the new process does nothing but start [sh]. *)
Theorem init_keeps_a_shell (n : nat) (tr : list Obs) (H : may n init_main tr) : looked_after None false false tr.
Proof.
  unfold init_main, init_console in H. next_call H.
  destruct (x <? 0); [do 2 next_call H|]; do 2 next_call H; reassoc H; eapply rounds, may_bind_ret, H.
Qed.

(** A run in which the calls return the given numbers. *)
Definition give {A} (e : sysE A) (z : Z) : option A :=
  match e in sysE A return option A with
  | Open _ _ | Close _ | Dup _ | Mknod _ _ _ | Mkdir _ | Unlink _ | Link _ _ | Fork | Exec _ _ | Wait | Kill _ | SysSbrk _ _ => Some z
  | Fprintf _ _ _ => Some tt
  | _ => None
  end.
Fixpoint trace_of {R} (n : nat) (t : prog R) (zs : list Z) : list Obs :=
  match n, zs with
  | S n', z :: zs' =>
      match observe t with
      | RetF _ => []
      | TauF u => trace_of n' u zs
      | VisF e k => match give e z with Some x => obs e x :: trace_of n' (k x) zs' | None => [] end
      end
  | _, _ => []
  end.
Lemma may_nil {R} n (t : prog R) : may n t [].
Proof. revert t. induction n as [|n IH]; intros t; cbn [may]; [done|]. destruct (observe t); [done|apply IH|by left]. Qed.
Lemma may_trace {R} n (t : prog R) zs : may n t (trace_of n t zs).
Proof.
  revert t zs. induction n as [|n IH]; intros t zs; [done|]. destruct zs as [|z zs]; [apply (may_nil (S n))|]. cbn [may trace_of].
  destruct (observe t) as [r|u|X e k]; [done|apply IH|]. destruct e; cbn [give]; (by left) || (right; eexists _, _; (split; [reflexivity|apply IH])).
Qed.

(** A restart: an orphan is taken, and the shell ends. *)
Lemma init_keeps_a_shell_witness :
  looked_after None false false [OOther; OOther; OOther; OOther; OFork 2; OWait 5; OWait 2; OOther; OFork 6].
Proof.
  apply (init_keeps_a_shell 20).
  assert (E : trace_of 20 init_main [0; 1; 2; 0; 2; 5; 2; 0; 6] = [OOther; OOther; OOther; OOther; OFork 2; OWait 5; OWait 2; OOther; OFork 6]) by (vm_compute; reflexivity).
  rewrite <- E. apply may_trace.
Defined.

(** [rm] and [mkdir] stop at the first name for which the call fails. *)
Fixpoint first_failure (call : list Z → Z → Obs) (args : list (list Z)) (tr : list Obs) : Prop :=
  match tr, args with
  | [], _ => True
  | o :: tr', a :: args' =>
      ∃ r, o = call a r ∧ if r <? 0 then tr' = [] ∨ tr' = [OOther] ∨ tr' = [OOther; OExit 0] else first_failure call args' tr'
  | o :: tr', [] => o = OExit 0 ∧ tr' = []
  end.
Ltac stops_there H IH :=
  reassoc H; apply may_sys in H as [-> |[[]|(?m & ?r & ?tr & _ & -> & H)]]; [done|]; eexists; (split; [reflexivity|]); destruct (_ <? 0); [|by eapply IH];
  reassoc H; apply may_sys in H as [-> |[[]|(?m & ?u & ?tr & _ & -> & H)]]; [by left|]; right; reassoc H; apply may_exit in H as [-> | ->]; [by left|by right].
Lemma rm_stops n args tr : may n (rm_loop args ≫= mret) tr → first_failure OUnlink args tr.
Proof.
  revert n tr. induction args as [|a args IH]; intros n tr H; cbn [rm_loop] in H; [|stops_there H IH].
  reassoc H. by apply may_exit in H as [-> | ->].
Qed.
Lemma mkdir_stops n args tr : may n (mkdir_loop args ≫= mret) tr → first_failure OMkdir args tr.
Proof.
  revert n tr. induction args as [|a args IH]; intros n tr H; cbn [mkdir_loop] in H; [|stops_there H IH].
  reassoc H. by apply may_exit in H as [-> | ->].
Qed.
