(* ===== verification/Mkfs.v ===== *)
(** * mkfs/mkfs.c

    The program that builds the initial disk image.  The image is the list of
    its sectors; reading behind the end fails and the program dies.  The host
    files are given as their paths with the pieces that [read] returns.  The
    host is little-endian, as [xshort] and [xint] make the image. *)

From S2P Require Import Prelude CString Kernel Log Fs.
Open Scope Z_scope.

Definition NINODES : Z := 200.
Definition FSSIZE : Z := 2000.
Definition nbitmap : Z := FSSIZE / BPB + 1.
Definition ninodeblocks : Z := NINODES / IPB + 1.
Definition nlog : Z := Z.of_nat LOGBLOCKS + 1.
Definition nmeta : Z := 2 + nlog + ninodeblocks + nbitmap.
Definition nblocks : Z := FSSIZE - nmeta.
Definition mkfs_sb : SuperBlock := mkSb FSMAGIC FSSIZE nblocks NINODES nlog 2 (2 + nlog) (2 + nlog + ninodeblocks).
Definition sb_bytes (sb : SuperBlock) : list Z :=
  mjoin (le_bytes 4 <$> [sb_magic sb; sb_size sb; sb_nblocks sb; sb_ninodes sb; sb_nlog sb; sb_logstart sb; sb_inodestart sb; sb_bmapstart sb]).

Record Mk := mkMk { k_img : list (list Z); k_freeinode : Z; k_freeblock : Z }.

(** Why the program ends early: [die], or an assertion. *)
Inductive Why := ReadFails | FileTooBig | BadName | OpenFails | TooManyBlocks | RootNotFirst.
Inductive MkRes (A : Type) := Made (a : A) (s : Mk) | Dies (w : Why) (s : Mk) | NoFuel.
Arguments Made {A} a s.
Arguments Dies {A} w s.
Arguments NoFuel {A}.
Definition MkM (A : Type) : Type := Mk → MkRes A.
Global Instance MkM_ret : MRet MkM := λ A a s, Made a s.
Global Instance MkM_bind : MBind MkM := λ A B f m s, match m s with Made a s' => f a s' | Dies w s' => Dies w s' | NoFuel => NoFuel end.
Definition mk_assert (b : bool) (w : Why) : MkM unit := λ s, if b then Made tt s else Dies w s.

Definition rsect (sec : Z) : MkM (list Z) := λ s, match k_img s !! Z.to_nat sec with Some d => Made d s | None => Dies ReadFails s end.
Definition wsect (sec : Z) (buf : list Z) : MkM unit := λ s,
  let i := Z.to_nat sec in
  let img := if decide (i < length (k_img s))%nat then <[i := buf]> (k_img s)
             else k_img s ++ replicate (i - length (k_img s)) (replicate BSIZE 0) ++ [buf] in
  Made tt (mkMk img (k_freeinode s) (k_freeblock s)).
(** [freeblock++] *)
Definition new_block : MkM Z := λ s, Made (k_freeblock s) (mkMk (k_img s) (k_freeinode s) (k_freeblock s + 1)).
Definition new_inode : MkM Z := λ s, Made (k_freeinode s) (mkMk (k_img s) (k_freeinode s + 1) (k_freeblock s)).

Definition winode (inum : Z) (di : Dinode) : MkM unit :=
  d ← rsect (IBLOCK inum mkfs_sb);
  wsect (IBLOCK inum mkfs_sb) (put_at d (dinode_at inum) (dinode_bytes di)).
Definition rinode (inum : Z) : MkM Dinode := d ← rsect (IBLOCK inum mkfs_sb); mret (get_dinode d (dinode_at inum)).

(** [ialloc] of mkfs.c. *)
Definition mk_ialloc (type : Z) : MkM Z :=
  inum ← new_inode;
  winode inum (mkDinode type 0 0 1 0 (replicate (S NDIRECT) 0));;
  mret inum.

(** The block of index [fbn] of the file, allocated when there is none. *)
Definition with_daddrs (v : list Z) (di : Dinode) : Dinode := mkDinode (di_type di) (di_major di) (di_minor di) (di_nlink di) (di_size di) v.
Definition addr_at (di : Dinode) (i : nat) : Z := default 0 (di_addrs di !! i).
Definition daddr_or_next (i : nat) (di : Dinode) : MkM Dinode :=
  if addr_at di i =? 0 then b ← new_block; mret (with_daddrs (<[i := b]> (di_addrs di)) di) else mret di.
Definition file_block (fbn : nat) (di : Dinode) : MkM (Dinode * Z) :=
  if (fbn <? NDIRECT)%nat then di' ← daddr_or_next fbn di; mret (di', addr_at di' fbn)
  else
    di' ← daddr_or_next NDIRECT di;
    let ind := addr_at di' NDIRECT in
    d ← rsect ind;
    let off := (4 * (fbn - NDIRECT))%nat in
    if get32 d off =? 0 then b ← new_block; wsect ind (put32 d off b);; mret (di', b)
    else mret (di', get32 d off).

(** The loop of [iappend]; every round takes at least one byte. *)
Fixpoint append_loop (fuel : nat) (di : Dinode) (off : nat) (bs : list Z) : MkM (Dinode * nat) :=
  match fuel with
  | O => λ _, NoFuel
  | S fuel' =>
      match bs with
      | [] => mret (di, off)
      | _ =>
          let fbn := (off / BSIZE)%nat in
          mk_assert (fbn <? MAXFILE)%nat FileTooBig;;
          r ← file_block fbn di;
          let n1 := (length bs `min` (S fbn * BSIZE - off))%nat in
          d ← rsect r.2;
          wsect r.2 (put_at d (off - fbn * BSIZE) (take n1 bs));;
          append_loop fuel' r.1 (off + n1) (drop n1 bs)
      end
  end.
Definition with_dsize (v : Z) (di : Dinode) : Dinode := mkDinode (di_type di) (di_major di) (di_minor di) (di_nlink di) v (di_addrs di).
Definition iappend (inum : Z) (bs : list Z) : MkM unit :=
  di ← rinode inum;
  r ← append_loop (S (length bs)) di (Z.to_nat (di_size di)) bs;
  winode inum (with_dsize (Z.of_nat r.2) r.1).

(** The bitmap with the first [used] blocks marked. *)
Fixpoint mark_bits (n : nat) (d : list Z) : list Z :=
  match n with
  | O => d
  | S i => let d' := mark_bits i d in <[(i / 8)%nat := Z.lor (default 0 (d' !! (i / 8)%nat)) (Z.shiftl 1 (Z.of_nat (i mod 8)))]> d'
  end.
Definition mk_balloc (used : Z) : MkM unit :=
  mk_assert (used <? BPB) TooManyBlocks;;
  wsect (sb_bmapstart mkfs_sb) (mark_bits (Z.to_nat used) (replicate BSIZE 0)).

(** The name of a host file in the image: without "user/" and a leading "_". *)
Definition user_slash : list Z := [117; 115; 101; 114; 47].
Definition strip_user (arg : list Z) : list Z := if decide (take 5 arg = user_slash) then drop 5 arg else arg.
Definition skip_underscore (s : list Z) : list Z := match s with 95 :: s' => s' | _ => s end.
Definition mk_dirent (inum : Z) (name : list Z) : list Z := dirent inum (name ++ replicate (DIRSIZ - length name) 0).

Fixpoint append_pieces (inum : Z) (ps : list (list Z)) : MkM unit :=
  match ps with [] => mret tt | p :: ps' => iappend inum p;; append_pieces inum ps' end.
(** A host file: its path, and what [read] returns; none when it does not open. *)
Record Host := mkHost { h_arg : list Z; h_reads : option (list (list Z)) }.
Definition add_file (rootino : Z) (f : Host) : MkM unit :=
  let s := strip_user (h_arg f) in
  mk_assert (negb (bool_decide (SLASH ∈ s))) BadName;;
  match h_reads f with
  | None => λ s, Dies OpenFails s
  | Some pieces =>
      let name := skip_underscore s in
      mk_assert (length name <=? DIRSIZ)%nat BadName;;
      inum ← mk_ialloc T_FILE;
      iappend rootino (mk_dirent inum name);;
      append_pieces inum pieces
  end.
Fixpoint add_files (rootino : Z) (fs : list Host) : MkM unit :=
  match fs with [] => mret tt | f :: fs' => add_file rootino f;; add_files rootino fs' end.

(** The truncated image file, and the image with the super block only. *)
Definition mk_start : Mk := mkMk [] 1 0.
Definition set_freeblock (v : Z) : MkM unit := λ s, Made tt (mkMk (k_img s) (k_freeinode s) v).
Fixpoint clear_sectors (n : nat) : MkM unit :=
  match n with O => mret tt | S i => clear_sectors i;; wsect (Z.of_nat i) (replicate BSIZE 0) end.
Definition init_image : MkM unit :=
  set_freeblock nmeta;;
  clear_sectors (Z.to_nat FSSIZE);;
  wsect 1 (put_at (replicate BSIZE 0) 0 (sb_bytes mkfs_sb)).
Definition fix_root_size (rootino : Z) : MkM unit :=
  di ← rinode rootino;
  winode rootino (with_dsize ((di_size di / Z.of_nat BSIZE + 1) * Z.of_nat BSIZE) di).

Definition write_bitmap : MkM unit := λ s, mk_balloc (k_freeblock s) s.

(** [main], once the image file has been opened. *)
Definition populate (fs : list Host) : MkM unit :=
  rootino ← mk_ialloc T_DIR;
  mk_assert (rootino =? ROOTINO) RootNotFirst;;
  iappend rootino (mk_dirent rootino [46]);;
  iappend rootino (mk_dirent rootino [46; 46]);;
  add_files rootino fs;;
  fix_root_size rootino;;
  write_bitmap.
Definition mkfs (fs : list Host) : MkM unit := init_image;; populate fs.
