(* ===== verification/MkfsFile.v ===== *)
(** * Appending to a file of the image

    [iappend] of mkfs.c on one file, in the terms of the kernel's view of a
    disk, as if the bitmap of the blocks allocated so far were already written:
    a block taken from [freeblock] is a block [balloc] could have returned, and
    the bytes end up where [readi] finds them. *)

From Stdlib Require Import FunctionalExtensionality.
From S2P Require Import Prelude CString Kernel KLogic Spinlock KMem Kalloc Vm VmSpec VmUser Proc ProcSpec Pipe Fork Bio BioSpec CacheSpec Log LogSpec Crash TxView Tx Fs FsSpec FileTx FileSpec FileData FileInode FileRw Mkfs.
Open Scope Z_scope.

(** ** The bitmap *)

Lemma mark_bits_length n d : length (mark_bits n d) = length d.
Proof. induction n as [|n IH]; [done|]. cbn [mark_bits]. by rewrite length_insert. Qed.
Lemma mark_bits_bit n d j : (n ≤ 8 * length d)%nat → bit (mark_bits n d) j = if decide (j < n)%nat then true else bit d j.
Proof.
  induction n as [|n IH]; intros Hn; [by rewrite decide_False by lia|]. cbn [mark_bits].
  assert (Hlt : (n / 8 < length (mark_bits n d))%nat) by (rewrite mark_bits_length; apply Nat.Div0.div_lt_upper_bound; lia).
  destruct (set_bit_spec (mark_bits n d) n true Hlt) as (d' & Hd' & _ & Hbit). unfold set_bit in Hd'. destruct (lookup_lt_is_Some_2 _ _ Hlt) as [v Hv]. rewrite Hv in Hd'. cbn [mbind option_bind] in Hd'.
  injection Hd' as <-. rewrite Hv. cbn [default]. rewrite Hbit. destruct (decide (j = n)) as [->|Hne]; [by rewrite decide_True by lia|].
  rewrite IH by lia. destruct (decide (j < n)%nat); [by rewrite decide_True by lia|by rewrite decide_False by lia].
Qed.

(** ** The disk as the kernel will see it *)

Definition sect (s : Mk) (x : Z) : list Z := default [] (k_img s !! Z.to_nat x).
Definition bmap_sector : Z := sb_bmapstart mkfs_sb.
Definition bits_to (n : Z) : list Z := mark_bits (Z.to_nat n) (replicate BSIZE 0).
Definition view (s : Mk) : Z → list Z := upd bmap_sector (bits_to (k_freeblock s)) (sect s).

(** Sizes, the allocated part, and zeros behind it. *)
Record geo (s : Mk) : Prop := {
  g_len : length (k_img s) = Z.to_nat FSSIZE;
  g_sect : ∀ x, 0 ≤ x < FSSIZE → length (sect s x) = BSIZE;
  g_fb : nmeta ≤ k_freeblock s ≤ FSSIZE;
  g_zero : ∀ x, k_freeblock s ≤ x < FSSIZE → sect s x = replicate BSIZE 0
}.

Lemma sb_numbers : sb_size mkfs_sb = 2000 ∧ nmeta = 47 ∧ bmap_sector = 46 ∧ sb_logstart mkfs_sb = 2 ∧ sb_inodestart mkfs_sb = 33 ∧ FSSIZE = 2000 ∧ Z.of_nat LOGBLOCKS = 30.
Proof. done. Qed.
Lemma bblock b : 0 ≤ b < 2000 → BBLOCK b mkfs_sb = 46.
Proof. intros Hb. unfold BBLOCK, BPB. rewrite Z.div_small by lia. done. Qed.
Lemma iblock i : 0 ≤ i < 208 → IBLOCK i mkfs_sb = i / 16 + 33 ∧ 33 ≤ IBLOCK i mkfs_sb < 46.
Proof.
  intros Hi. unfold IBLOCK, IPB. change (sb_inodestart mkfs_sb) with 33. assert (0 ≤ i / 16 < 13) by (split; [apply Z.div_pos; lia|apply Z.div_lt_upper_bound; lia]).
  unfold u32. rewrite Z.mod_small by lia. lia.
Qed.

Lemma view_used s b : geo s → 0 ≤ b < 2000 → used (view s) mkfs_sb b = (b <? k_freeblock s).
Proof.
  intros G Hb. pose proof (g_fb _ G) as Hfb. change nmeta with 47 in Hfb. change FSSIZE with 2000 in Hfb. unfold used. rewrite bblock by done. unfold view. rewrite upd_eq. unfold BPB. rewrite Z.mod_small by lia.
  unfold bits_to. rewrite mark_bits_bit by (rewrite length_replicate; unfold BSIZE; lia).
  destruct (decide (Z.to_nat b < Z.to_nat (k_freeblock s))%nat) as [H|H]; [by rewrite (proj2 (Z.ltb_lt _ _)) by lia|]. rewrite (proj2 (Z.ltb_ge _ _)) by lia.
  unfold bit. rewrite lookup_replicate_2; [apply Z.testbit_0_l|]. unfold BSIZE. apply Nat.Div0.div_lt_upper_bound. lia.
Qed.
Lemma data_from_fb s b : geo s → k_freeblock s ≤ b < 2000 → data_block mkfs_sb b.
Proof.
  intros G Hb. pose proof (g_fb _ G) as Hfb. change nmeta with 47 in Hfb. split; [change (sb_size mkfs_sb) with 2000; lia|split; [unfold is_home; change (sb_logstart mkfs_sb) with 2; change (Z.of_nat LOGBLOCKS) with 30; lia|]].
  intros x Hx. change (sb_size mkfs_sb) with 2000 in Hx. rewrite bblock by done. lia.
Qed.
Lemma view_ok s : geo s → bitmap_ok (view s) mkfs_sb.
Proof.
  intros G. split; change (sb_size mkfs_sb) with 2000; change (sb_bmapstart mkfs_sb) with 46; change (sb_logstart mkfs_sb) with 2; unfold BPB.
  - lia.
  - rewrite Z.div_small by lia. lia.
  - intros b Hb. rewrite bblock by done. unfold is_home. change (Z.of_nat LOGBLOCKS) with 30. lia.
  - intros b Hb. rewrite bblock by done. unfold view. rewrite upd_eq. unfold bits_to. by rewrite mark_bits_length, length_replicate.
  - intros b Hb Hu. rewrite (view_used s b G Hb) in Hu. apply Z.ltb_ge in Hu. destruct (data_from_fb s b G) as (? & ? & Hn); [lia|]. split_and!; [lia|done|]. intros x Hx. by apply Hn.
Qed.
Lemma view_sect s x : x ≠ 46 → view s x = sect s x.
Proof. intros Hx. unfold view. by rewrite upd_ne. Qed.

(** ** Reading and writing sectors *)

Lemma mk_bind_run {A B} (m : MkM A) (k : A → MkM B) s a s' : m s = Made a s' → (m ≫= k) s = k a s'.
Proof. intros E. unfold mbind, MkM_bind. by rewrite E. Qed.
Lemma mk_bind_dies {A B} (m : MkM A) (k : A → MkM B) s w s' : m s = Dies w s' → (m ≫= k) s = Dies w s'.
Proof. intros E. unfold mbind, MkM_bind. by rewrite E. Qed.

Lemma rsect_run s x : geo s → 0 ≤ x < 2000 → rsect x s = Made (sect s x) s.
Proof.
  intros G Hx. unfold rsect, sect. destruct (lookup_lt_is_Some_2 (k_img s) (Z.to_nat x)) as [d Hd]; [rewrite (g_len _ G); change FSSIZE with 2000; lia|]. by rewrite Hd.
Qed.
Lemma rsect_dies s x : length (k_img s) = Z.to_nat FSSIZE → 2000 ≤ x → rsect x s = Dies ReadFails s.
Proof. intros Hl Hx. unfold rsect. rewrite lookup_ge_None_2; [done|]. rewrite Hl. change FSSIZE with 2000. lia. Qed.

Definition put_sect (x : Z) (d : list Z) (s : Mk) : Mk := mkMk (<[Z.to_nat x := d]> (k_img s)) (k_freeinode s) (k_freeblock s).
Lemma wsect_run s x d : length (k_img s) = Z.to_nat FSSIZE → 0 ≤ x < 2000 → wsect x d s = Made tt (put_sect x d s).
Proof. intros Hl Hx. unfold wsect. rewrite decide_True; [done|]. rewrite Hl. change FSSIZE with 2000. lia. Qed.
Lemma put_sect_at s x d y : length (k_img s) = Z.to_nat FSSIZE → 0 < x < 2000 → sect (put_sect x d s) y = if decide (y = x) then d else sect s y.
Proof.
  intros Hl Hx. unfold sect, put_sect. cbn [k_img]. destruct (decide (y = x)) as [->|Hne].
  - rewrite list_lookup_insert_eq; [done|]. rewrite Hl. change FSSIZE with 2000. lia.
  - rewrite list_lookup_insert_ne; [done|]. lia.
Qed.
Lemma put_sect_geo s x d : geo s → 0 < x < k_freeblock s → length d = BSIZE → geo (put_sect x d s).
Proof.
  intros [G1 G2 G3 G4] Hx Hd. change FSSIZE with 2000 in *. split; change FSSIZE with 2000; cbn [put_sect k_img k_freeblock]; [by rewrite length_insert| |done|].
  - intros y Hy. fold (put_sect x d s). rewrite put_sect_at by (done || lia). case_decide; [done|by apply G2].
  - intros y Hy. fold (put_sect x d s). rewrite put_sect_at by (done || lia). rewrite decide_False by lia. by apply G4.
Qed.
Lemma view_put s x d : length (k_img s) = Z.to_nat FSSIZE → 0 < x < 2000 → x ≠ 46 → view (put_sect x d s) = upd x d (view s).
Proof.
  intros Hl Hx Hne. apply functional_extensionality. intros y. unfold view, upd. cbn [put_sect k_freeblock]. change bmap_sector with 46.
  destruct (decide (y = 46)) as [->|]; [by rewrite decide_False|]. fold (put_sect x d s). by rewrite put_sect_at.
Qed.

(** [freeblock++] allocates a fresh block of the kernel's view. *)
Definition bump (s : Mk) : Mk := mkMk (k_img s) (k_freeinode s) (k_freeblock s + 1).
Lemma bump_geo s : geo s → k_freeblock s < 2000 → geo (bump s).
Proof. intros [G1 G2 G3 G4] Hlt. change FSSIZE with 2000 in *. change nmeta with 47 in *. split; change FSSIZE with 2000; change nmeta with 47; cbn [bump k_freeblock]; [done|done|lia|]. intros x Hx. apply G4. lia. Qed.
Lemma bump_view s x : x ≠ 46 → view (bump s) x = view s x.
Proof. intros Hx. rewrite !view_sect by done. done. Qed.
Lemma fresh_next s : geo s → k_freeblock s < 2000 → fresh_block mkfs_sb (view s) (k_freeblock s) (view (bump s)).
Proof.
  intros G Hlt. pose proof (bump_geo s G Hlt) as G'. pose proof (g_fb _ G) as Hfb. change nmeta with 47 in Hfb. change FSSIZE with 2000 in Hfb. split.
  - rewrite view_used by (done || lia). by rewrite Z.ltb_irrefl.
  - apply (data_from_fb s); [done|lia].
  - rewrite view_sect by lia. apply (g_zero _ G). change FSSIZE with 2000. lia.
  - intros x Hx Hb. apply bump_view. intros ->. apply Hb. exists 0. split; [change (sb_size mkfs_sb) with 2000; lia|by rewrite bblock by lia].
  - intros x Hx. change (sb_size mkfs_sb) with 2000 in Hx. rewrite !view_used by done. cbn [bump k_freeblock]. unfold mark.
    destruct (decide (x = k_freeblock s)) as [->|Hne]; [apply Z.ltb_lt; lia|]. rewrite view_used by done. destruct (Z.ltb_spec x (k_freeblock s + 1)), (Z.ltb_spec x (k_freeblock s)); (done || (exfalso; lia)).
  - by apply view_ok.
Qed.

(** ** Inodes *)

Definition inode_of (inum : Z) (di : Dinode) : Inode :=
  mkInode ROOTDEV inum 1 sleep0 true (di_type di) (di_major di) (di_minor di) (di_nlink di) (di_size di) (di_addrs di).
Lemma inode_addrs inum v di : with_addrs v (inode_of inum di) = inode_of inum (with_daddrs v di).
Proof. done. Qed.
Lemma dinode_inode inum di : dinode_of (inode_of inum di) = di.
Proof. by destruct di. Qed.
Lemma addr_slot cur inum di i : (i < NDIRECT)%nat → addr_at di i = slot cur (inode_of inum di) i.
Proof. intros Hi. by rewrite slot_direct. Qed.

#[local] Abbreviation fok := (file_ok ROOTDEV mkfs_sb).
#[local] Abbreviation fgrown := (grown ROOTDEV mkfs_sb).
#[local] Abbreviation fwrote := (wrote ROOTDEV mkfs_sb).

(** A new direct block, or a new indirect block. *)
Lemma grown_direct s inum di i :
  geo s → fok (view s) (inode_of inum di) → (i < NDIRECT)%nat → addr_at di i = 0 → k_freeblock s < 2000 →
  fgrown (view s) (inode_of inum di) i (k_freeblock s) (view (bump s)) (inode_of inum (with_daddrs (<[i := k_freeblock s]> (di_addrs di)) di)).
Proof.
  intros G F Hi H0 Hlt. pose proof (g_fb _ G) as Hfb. change nmeta with 47 in Hfb. rewrite <- inode_addrs. pose proof (view_ok s G) as Hb. pose proof (fo_addrs _ _ _ _ F) as Hla.
  apply grown_fresh with (view (bump s)); try done; [by apply fresh_next|unfold MAXFILE; lia|by rewrite <- addr_slot|lia|cbn; by rewrite length_insert|].
  intros j Hj. apply slots_direct; [done|done|]. apply bump_view. intros E. pose proof (indirect_not_bitmap _ _ _ _ F Hb) as Hn. apply Hn. exists 0. rewrite E. split; [change (sb_size mkfs_sb) with 2000; lia|by rewrite bblock by lia].
Qed.
Lemma grown_ind s inum di :
  geo s → fok (view s) (inode_of inum di) → addr_at di NDIRECT = 0 → k_freeblock s < 2000 →
  fgrown (view s) (inode_of inum di) MAXFILE (k_freeblock s) (view (bump s)) (inode_of inum (with_daddrs (<[NDIRECT := k_freeblock s]> (di_addrs di)) di)).
Proof.
  intros G F H0 Hlt. pose proof (g_fb _ G) as Hfb. change nmeta with 47 in Hfb. rewrite <- inode_addrs. pose proof (view_ok s G) as Hb. pose proof (fo_addrs _ _ _ _ F) as Hla.
  apply grown_fresh with (view (bump s)); try done; [by apply fresh_next|lia|cbn; by rewrite length_insert|].
  intros j Hj. apply slots_indirect; [done|lia|done| |done]. apply (fb_zero _ _ _ _ (fresh_next s G Hlt)).
Qed.

(** ** Weakest preconditions of the builder *)

(** [m] ends well in a state of [Q], or early for a reason that [E] allows. *)
Definition mwp {A} (E : Why → Mk → Prop) (m : MkM A) (Q : A → Mk → Prop) (s : Mk) : Prop :=
  match m s with Made a s' => Q a s' | Dies w s' => E w s' | NoFuel => False end.

Lemma mwp_bind {A B} E (m : MkM A) (k : A → MkM B) Q s : mwp E m (λ a s', mwp E (k a) Q s') s → mwp E (m ≫= k) Q s.
Proof. unfold mwp, mbind, MkM_bind. by destruct (m s). Qed.
Lemma mwp_ret {A} E (a : A) (Q : A → Mk → Prop) s : Q a s → mwp E (mret a) Q s.
Proof. done. Qed.
Lemma mwp_mono {A} E (m : MkM A) (Q Q' : A → Mk → Prop) s : mwp E m Q s → (∀ a s', Q a s' → Q' a s') → mwp E m Q' s.
Proof. unfold mwp. destruct (m s); auto. Qed.
Lemma mwp_assert E b w (Q : unit → Mk → Prop) s : (b = true → Q tt s) → (b = false → E w s) → mwp E (mk_assert b w) Q s.
Proof. unfold mwp, mk_assert. destruct b; auto. Qed.
Lemma mwp_rsect E x (Q : list Z → Mk → Prop) s : geo s → 0 ≤ x < 2000 → Q (sect s x) s → mwp E (rsect x) Q s.
Proof. intros G Hx HQ. unfold mwp. by rewrite rsect_run. Qed.
Lemma mwp_wsect E x d (Q : unit → Mk → Prop) s : geo s → 0 ≤ x < 2000 → Q tt (put_sect x d s) → mwp E (wsect x d) Q s.
Proof. intros G Hx HQ. unfold mwp. rewrite wsect_run; [done|apply G|done]. Qed.
Lemma mwp_new_block E (Q : Z → Mk → Prop) s : Q (k_freeblock s) (bump s) → mwp E new_block Q s.
Proof. done. Qed.

(** The disk was full: block [a] is behind its end. *)
Definition out (s : Mk) (a : Z) : Prop := length (k_img s) = Z.to_nat FSSIZE ∧ a = FSSIZE ∧ FSSIZE < k_freeblock s.
Lemma out_next s : geo s → ¬ k_freeblock s < 2000 → out (bump s) (k_freeblock s).
Proof. intros G Hn. pose proof (g_fb _ G) as Hfb. change FSSIZE with 2000 in *. unfold out. change FSSIZE with 2000. cbn [bump k_freeblock k_img]. split_and!; [apply G|lia|lia]. Qed.
Lemma mwp_out {A} E a (k : list Z → MkM A) Q s : out s a → (∀ s', FSSIZE < k_freeblock s' → E ReadFails s') → mwp E (rsect a ≫= k) Q s.
Proof. intros (Hl & -> & Hfb) HE. unfold mwp. erewrite mk_bind_dies; [by apply HE|]. by apply rsect_dies. Qed.

(** ** The blocks of a file *)

(** [s'] after block [i] of the file has been found or allocated at [a]. *)
Record placed (s : Mk) (inum : Z) (di : Dinode) (i : nat) (a : Z) (s' : Mk) (di' : Dinode) : Prop := {
  pl_geo : geo s';
  pl_grown : fgrown (view s) (inode_of inum di) i a (view s') (inode_of inum di');
  pl_addr : a ≠ 0;
  pl_inodes : k_freeinode s' = k_freeinode s
}.

Lemma owned_range s ip a : geo s → owned mkfs_sb (view s) ip a → 0 < a < k_freeblock s ∧ a < 2000 ∧ a ≠ 46.
Proof.
  intros G [(Hr & _ & Hn) Hu _ _]. change (sb_size mkfs_sb) with 2000 in *. rewrite view_used in Hu by (done || lia). apply Z.ltb_lt in Hu.
  split_and!; [lia|lia|lia|]. intros ->. apply (Hn 0); [lia|]. by rewrite bblock by lia.
Qed.

Lemma addr_insert di i b : length (di_addrs di) = S NDIRECT → (i ≤ NDIRECT)%nat → addr_at (with_daddrs (<[i := b]> (di_addrs di)) di) i = b.
Proof. intros Hl Hi. unfold addr_at. cbn [with_daddrs di_addrs]. by rewrite list_lookup_insert_eq by lia. Qed.

Lemma mwp_daddr E s inum di i si (Q : Dinode → Mk → Prop) :
  geo s → fok (view s) (inode_of inum di) → (i < NDIRECT ∧ si = i ∨ i = NDIRECT ∧ si = MAXFILE)%nat →
  (∀ di' s', placed s inum di si (addr_at di' i) s' di' → Q di' s') →
  (∀ di' s', out s' (addr_at di' i) → Q di' s') → mwp E (daddr_or_next i di) Q s.
Proof.
  intros G F Hi HQ HQo. pose proof (fo_addrs _ _ _ _ F) as Hla. cbn [inode_of i_addrs] in Hla. pose proof (g_fb _ G) as Hfb. change nmeta with 47 in Hfb.
  assert (Hsi : slot (view s) (inode_of inum di) si = addr_at di i) by (destruct Hi as [[H ->]|[-> ->]]; [by rewrite slot_direct|done]).
  assert (Hai : ∀ b, addr_at (with_daddrs (<[i := b]> (di_addrs di)) di) i = b) by (intros b; apply addr_insert; [done|lia]).
  unfold daddr_or_next. destruct (Z.eqb_spec (addr_at di i) 0) as [H0|Hn0].
  - apply mwp_bind, mwp_new_block, mwp_ret. destruct (decide (k_freeblock s < 2000)) as [Hlt|Hge].
    + apply HQ. rewrite Hai. split; [by apply bump_geo| |lia|done]. destruct Hi as [[H ->]|[-> ->]]; [by apply grown_direct|by apply grown_ind].
    + apply HQo. rewrite Hai. by apply out_next.
  - apply mwp_ret, HQ. split; [done| |done|done]. rewrite <- Hsi. apply grown_refl; [done|by apply view_ok|]. by rewrite Hsi.
Qed.

(** The entry [i] of the indirect block, of a file that has one. *)
Lemma placed_entry s inum di i :
  geo s → fok (view s) (inode_of inum di) → (NDIRECT ≤ i)%nat → (i < MAXFILE)%nat → addr_at di NDIRECT ≠ 0 → slot (view s) (inode_of inum di) i = 0 → k_freeblock s < 2000 →
  placed s inum di i (k_freeblock s) (put_sect (addr_at di NDIRECT) (put32 (sect s (addr_at di NDIRECT)) (4 * (i - NDIRECT)) (k_freeblock s)) (bump s)) di.
Proof.
  intros G F H1 H2 Ha H0 Hlt. pose proof (g_fb _ G) as Hfb. change nmeta with 47 in Hfb. pose proof (fo_own _ _ _ _ F MAXFILE ltac:(lia) Ha) as Ho.
  destruct (owned_range _ _ _ G Ho) as (Hr & Hr' & H46). destruct Ho as [_ _ _ Hl]. change (slot (view s) (inode_of inum di) MAXFILE) with (addr_at di NDIRECT) in *.
  rewrite view_sect in Hl by done. pose proof (bump_geo s G Hlt) as G'.
  destruct (grown_in_indirect ROOTDEV mkfs_sb (view s) (inode_of inum di) i (k_freeblock s) (view (bump s))) as [_ Hg]; [done|by apply view_ok|by apply fresh_next|lia|done|done|done|done|].
  split; [|change FSSIZE with 2000 in *|lia|done].
  - apply put_sect_geo; [done|cbn [bump k_freeblock]; lia|]. rewrite put32_length; [done|]. rewrite Hl. unfold MAXFILE, NDIRECT, NINDIRECT, BSIZE in *. lia.
  - rewrite view_put by (apply G' || lia || done). change (indirect (inode_of inum di)) with (addr_at di NDIRECT) in Hg. by rewrite bump_view, view_sect in Hg.
Qed.

Lemma mwp_file_block E s inum di i (Q : Dinode * Z → Mk → Prop) :
  geo s → fok (view s) (inode_of inum di) → (i < MAXFILE)%nat → (∀ s', FSSIZE < k_freeblock s' → E ReadFails s') →
  (∀ di' a s', placed s inum di i a s' di' ∨ out s' a → Q (di', a) s') → mwp E (file_block i di) Q s.
Proof.
  intros G F Hi HE HQ. unfold file_block. destruct (Nat.ltb_spec i NDIRECT) as [Hlt|Hge].
  { apply mwp_bind. eapply mwp_daddr; [done|done|by left| |]; intros di' s' H; apply mwp_ret, HQ; [by left|by right]. }
  apply mwp_bind. eapply mwp_daddr; [done|exact F|by right| |]; intros di1 s1 H1; [|by apply mwp_out].
  destruct H1 as [G1 R1 A1 I1]. pose proof (gr_file _ _ _ _ _ _ _ _ R1) as F1. pose proof (view_ok s G) as Hb.
  pose proof (fo_own _ _ _ _ F1 MAXFILE ltac:(lia) A1) as Ho. destruct (owned_range _ _ _ G1 Ho) as (Hr & Hr' & H46).
  change (slot (view s1) (inode_of inum di1) MAXFILE) with (addr_at di1 NDIRECT) in *.
  assert (Hs : slot (view s1) (inode_of inum di1) i = get32 (sect s1 (addr_at di1 NDIRECT)) (4 * (i - NDIRECT))).
  { rewrite slot_ind by done. change (indirect (inode_of inum di1)) with (addr_at di1 NDIRECT). by rewrite decide_False, view_sect. }
  apply mwp_bind. apply mwp_rsect; [done|lia|]. rewrite <- Hs. destruct (Z.eqb_spec (slot (view s1) (inode_of inum di1) i) 0) as [H0|Hn0].
  - apply mwp_bind, mwp_new_block, mwp_bind. unfold mwp. rewrite wsect_run by (apply G1 || lia). cbn [mret MkM_ret]. apply HQ.
    destruct (decide (k_freeblock s1 < 2000)) as [Hlt|Hfull]; [left|right].
    + destruct (placed_entry s1 inum di1 i) as [G2 R2 A2 I2]; try done. split; [done| |done|by rewrite I2]. by eapply grown_entry.
    + destruct (out_next s1 G1 Hfull) as (Ho1 & Ho2 & Ho3). split_and!; [cbn [put_sect k_img]; by rewrite length_insert|done|done].
  - apply mwp_ret, HQ. left. split; [done| |done|done]. eapply grown_entry; [done|done|exact R1|done|done|]. apply grown_refl; [done|by apply view_ok|done].
Qed.

(** ** Appending *)

(** Behind offset [o] the blocks of the file hold zeros. *)
Definition tail_zero (cur : Z → list Z) (ip : Inode) (o : nat) : Prop :=
  ∀ j, (o ≤ j)%nat → (j / BSIZE < MAXFILE)%nat → slot cur ip (j / BSIZE) ≠ 0 → byte cur ip j = Some 0.

Lemma tail_grown cur ip i a cur' ip' o :
  fgrown cur ip i a cur' ip' → a ≠ 0 → fok cur ip → (i < MAXFILE)%nat → tail_zero cur ip o → tail_zero cur' ip' o.
Proof.
  intros R Ha F Hi Ht j Hj Hm Hs. destruct (decide (slot cur ip (j / BSIZE) = 0)) as [H0|Hn].
  - destruct (decide ((j / BSIZE)%nat = i)) as [<-|Hne]; [|rewrite (gr_rest _ _ _ _ _ _ _ _ R) in Hs by done; done].
    destruct (gr_new _ _ _ _ _ _ _ _ R H0 Ha) as [Hz _]. unfold byte. rewrite decide_False by done. rewrite (gr_addr _ _ _ _ _ _ _ _ R), Hz.
    apply lookup_replicate_2. by apply Nat.mod_upper_bound.
  - rewrite <- (Ht j Hj Hm Hn). pose proof (wrote_nothing _ _ _ _ o _ _ _ _ Hi R F) as W. apply (wr_old _ _ _ _ _ _ _ _ W); [done|done|]. cbn [length]. lia.
Qed.
Lemma tail_chunk cur ip o l :
  fok cur ip → bitmap_ok cur mkfs_sb → (o / BSIZE < MAXFILE)%nat → slot cur ip (o / BSIZE) ≠ 0 → (o mod BSIZE + length l ≤ BSIZE)%nat → tail_zero cur ip o →
  let a := slot cur ip (o / BSIZE) in tail_zero (upd a (put_at (cur a) (o mod BSIZE) l) cur) ip (o + length l).
Proof.
  intros F Hb Hi Hn Hfit Ht a j Hj Hm Hs. pose proof (wrote_chunk _ _ _ _ _ _ F Hb Hi Hn Hfit) as W. fold a in W.
  assert (Hl : length (put_at (cur a) (o mod BSIZE) l) = BSIZE) by (destruct (fo_own _ _ _ _ F (o / BSIZE)%nat ltac:(lia) Hn) as [_ _ _ Hl]; rewrite length_put_at; fold a in Hl; lia).
  destruct (file_upd _ _ _ _ _ _ F Hb Hi Hn Hl) as (_ & _ & Hsl & _). fold a in Hsl. rewrite Hsl in Hs.
  rewrite (wr_old _ _ _ _ _ _ _ _ W); [|done|done|lia]. apply Ht; [lia|done|done].
Qed.

Lemma mwp_append_loop E fuel s inum di o bs (Q : Dinode * nat → Mk → Prop) :
  geo s → fok (view s) (inode_of inum di) → tail_zero (view s) (inode_of inum di) o → (length bs < fuel)%nat → (o ≤ MAXFILE * BSIZE)%nat →
  (∀ s', FSSIZE < k_freeblock s' → E ReadFails s') → ((MAXFILE * BSIZE < o + length bs)%nat → ∀ s', E FileTooBig s') →
  (∀ di' s', geo s' → fwrote (view s) (inode_of inum di) o bs (view s') (inode_of inum di') → tail_zero (view s') (inode_of inum di') (o + length bs) →
     k_freeinode s' = k_freeinode s → (o + length bs ≤ MAXFILE * BSIZE)%nat → Q (di', (o + length bs)%nat) s') →
  mwp E (append_loop fuel di o bs) Q s.
Proof.
  intros G F Ht Hfuel Hmax HE HE2 HQ. revert s di o bs G F Ht Hfuel Hmax HE2 HQ. induction fuel as [|fuel IH]; intros s di o bs G F Ht Hfuel Hmax HE2 HQ; [lia|].
  pose proof (view_ok s G) as Hb. destruct (decide (bs = [])) as [->|Hne].
  { apply mwp_ret. cbn [length] in HQ. rewrite Nat.add_0_r in HQ. apply HQ; [done|by apply wrote_refl|done|done|done]. }
  assert (Hl0 : (0 < length bs)%nat) by (destruct bs; [done|cbn [length]; lia]).
  assert (Heq : append_loop (S fuel) di o bs = (mk_assert (o / BSIZE <? MAXFILE)%nat FileTooBig;;
    r ← file_block (o / BSIZE) di; let n1 := (length bs `min` (S (o / BSIZE) * BSIZE - o))%nat in d ← rsect r.2;
    wsect r.2 (put_at d (o - o / BSIZE * BSIZE) (take n1 bs));; append_loop fuel r.1 (o + n1) (drop n1 bs))) by (by destruct bs).
  rewrite Heq. clear Heq. pose proof (Nat.div_mod_eq o BSIZE) as Hdm. pose proof (Nat.mod_upper_bound o BSIZE ltac:(done)) as Hmb.
  apply mwp_bind, mwp_assert; [intros Hi%Nat.ltb_lt|intros Hi%Nat.ltb_ge; apply HE2; nia].
  replace (S (o / BSIZE) * BSIZE - o)%nat with (BSIZE - o mod BSIZE)%nat by lia. replace (o - o / BSIZE * BSIZE)%nat with (o mod BSIZE)%nat by lia.
  set (n1 := (length bs `min` (BSIZE - o mod BSIZE))%nat). assert (Hn1 : (0 < n1 ≤ length bs ∧ n1 ≤ BSIZE - o mod BSIZE)%nat) by (unfold n1; lia). clearbody n1.
  assert (Hlt : length (take n1 bs) = n1) by (rewrite length_take; lia).
  apply mwp_bind. eapply mwp_file_block; [done|exact F|done|exact HE|]. intros di1 a s1 [[G1 R1 A1 I1]|Hout]; cbn [fst snd]; [|by apply mwp_out].
  pose proof (gr_file _ _ _ _ _ _ _ _ R1) as F1. pose proof (gr_addr _ _ _ _ _ _ _ _ R1) as Ha. subst a.
  pose proof (fo_own _ _ _ _ F1 (o / BSIZE) ltac:(lia) A1) as Ho. destruct (owned_range _ _ _ G1 Ho) as (Hr & Hr' & H46). destruct Ho as [_ _ _ Hlen].
  set (a := slot (view s1) (inode_of inum di1) (o / BSIZE)) in *.
  apply mwp_bind, mwp_rsect; [done|lia|]. rewrite <- (view_sect s1 a) by done. apply mwp_bind, mwp_wsect; [done|lia|].
  set (s2 := put_sect a _ s1). assert (G2 : geo s2) by (apply put_sect_geo; [done|lia|]; rewrite length_put_at; lia).
  assert (V2 : view s2 = upd a (put_at (view s1 a) (o mod BSIZE) (take n1 bs)) (view s1)) by (apply view_put; [apply G1|lia|done]).
  pose proof (wrote_chunk _ _ _ _ _ (take n1 bs) F1 (view_ok s1 G1) Hi A1 ltac:(lia)) as W. cbv zeta in W. fold a in W. rewrite <- V2 in W.
  assert (Ht2 : tail_zero (view s2) (inode_of inum di1) (o + n1)).
  { rewrite V2. pose proof (tail_chunk (view s1) (inode_of inum di1) o (take n1 bs) F1 (view_ok s1 G1) Hi A1) as Tc. cbv zeta in Tc. fold a in Tc.
    rewrite Hlt in Tc. apply Tc; [lia|]. by eapply tail_grown. }
  apply IH; [done|apply W|done|rewrite length_drop; lia|nia|rewrite length_drop; intros ?; apply HE2; lia|]. rewrite length_drop.
  intros di3 s3 G3 W3 Ht3 I3 Hm3. replace (o + n1 + (length bs - n1))%nat with (o + length bs)%nat in * by lia.
  apply HQ; [done| |done|rewrite I3; done|done]. rewrite <- (take_drop n1 bs). apply wrote_app with (view s2) (inode_of inum di1); [nia| |by rewrite Hlt].
  eapply wrote_after; [exact Hi|exact R1|done|done|exact W].
Qed.
