(* ===== verification/MkfsSpec.v ===== *)
(** * The initial disk image

    The image that mkfs.c builds satisfies what the kernel's file system relies
    on: the bitmap, the super block, an empty log, and every file with its
    contents. *)

From Stdlib Require Import FunctionalExtensionality.
From S2P Require Import Prelude CString Kernel KLogic Spinlock KMem Kalloc Vm VmSpec VmUser Proc ProcSpec Pipe Fork Bio BioSpec CacheSpec Log LogSpec Crash TxView Tx Fs FsSpec FileTx FileSpec FileData FileInode FileRw Mkfs MkfsFile.
Open Scope Z_scope.

#[local] Abbreviation fok := (file_ok ROOTDEV mkfs_sb).
#[local] Abbreviation fwrote := (wrote ROOTDEV mkfs_sb).

(** ** All the files of the image *)

#[local] Abbreviation iblk := (λ inum, IBLOCK inum mkfs_sb).
(** Inode [inum] as it is on the disk. *)
Definition disk_dinode (cur : Z → list Z) (inum : Z) : Dinode := get_dinode (cur (IBLOCK inum mkfs_sb)) (dinode_at inum).
Definition disk_inode (cur : Z → list Z) (inum : Z) : Inode := inode_of inum (disk_dinode cur inum).

(** Inode [inum] is a file of type [t] with the bytes [l], zeros behind them. *)
Record stored (cur : Z → list Z) (inum t : Z) (l : list Z) : Prop := {
  st_file : fok cur (disk_inode cur inum);
  st_data : has_data cur (disk_inode cur inum) l;
  st_tail : tail_zero cur (disk_inode cur inum) (length l);
  st_type : di_type (disk_dinode cur inum) = t;
  st_nlink : di_nlink (disk_dinode cur inum) = 1;
  st_blocks : ∀ i, (i ≤ MAXFILE)%nat → slot cur (disk_inode cur inum) i ≠ 0 → nmeta ≤ slot cur (disk_inode cur inum) i
}.

Definition sb_sector : list Z := put_at (replicate BSIZE 0) 0 (sb_bytes mkfs_sb).
(** The disk holds the files [D], from inode 1 on, and nothing else. *)
Record good (cur : Z → list Z) (D : list (Z * list Z)) : Prop := {
  gd_files : ∀ k t l, D !! k = Some (t, l) → stored cur (Z.of_nat (S k)) t l;
  gd_apart : ∀ k k' i j, (k < length D)%nat → (k' < length D)%nat → k ≠ k' → (i ≤ MAXFILE)%nat → (j ≤ MAXFILE)%nat →
    slot cur (disk_inode cur (Z.of_nat (S k))) i ≠ 0 → slot cur (disk_inode cur (Z.of_nat (S k))) i ≠ slot cur (disk_inode cur (Z.of_nat (S k'))) j;
  gd_unused : ∀ inum, Z.of_nat (length D) < inum < 208 → di_type (disk_dinode cur inum) = 0;
  gd_super : cur 1 = sb_sector;
  gd_log : ∀ x, 2 ≤ x ≤ 32 → cur x = replicate BSIZE 0;
  gd_iblocks : ∀ x, 33 ≤ x < 46 → length (cur x) = BSIZE
}.

Lemma in_bitmap_46 x : in_bitmap mkfs_sb x → x = 46.
Proof. intros (y & Hy & ->). by apply bblock. Qed.

Lemma data_range b : data_block mkfs_sb b → 0 < b < 2000.
Proof. intros [H _]. exact H. Qed.

(** A file whose blocks have not changed. *)
Lemma file_frame cur cur' ip :
  fok cur ip → (∀ i, (i ≤ MAXFILE)%nat → slot cur ip i ≠ 0 → cur' (slot cur ip i) = cur (slot cur ip i)) →
  length (cur' (iblk (i_inum ip))) = BSIZE → (∀ x, 0 ≤ x < 2000 → used cur mkfs_sb x = true → used cur' mkfs_sb x = true) →
  fok cur' ip ∧ (∀ i, slot cur' ip i = slot cur ip i) ∧ ∀ j, (j / BSIZE < MAXFILE)%nat → byte cur' ip j = byte cur ip j.
Proof.
  intros [H1 H2 H3 H4 (H5a & H5b & H5c) H6 H7 H8] Hk Hl Hu.
  assert (Hs : ∀ i, slot cur' ip i = slot cur ip i).
  { intros i. destruct (decide (indirect ip = 0)) as [H0|Hn]; [unfold slot; by rewrite H0|]. by apply slot_frame, (Hk MAXFILE). }
  split_and!; [|done|].
  - split; try done.
    + split_and!; [done|apply Hu; [apply data_range in H5a; lia|done]|done].
    + intros i Hi. rewrite Hs. intros H0. destruct (H6 i Hi H0) as [O1 O2 O3 O4]. split; [done|apply Hu; [apply data_range in O1; lia|done]|done|by rewrite Hk].
    + intros i j Hi Hj. rewrite !Hs. by apply H7.
    + intros i Hi. rewrite Hs. by apply H8.
  - intros j Hj. unfold byte. rewrite Hs. case_decide; [done|]. by rewrite Hk by (lia || done).
Qed.
Lemma stored_frame cur cur' inum t l :
  stored cur inum t l → disk_dinode cur' inum = disk_dinode cur inum →
  (∀ i, (i ≤ MAXFILE)%nat → slot cur (disk_inode cur inum) i ≠ 0 → cur' (slot cur (disk_inode cur inum) i) = cur (slot cur (disk_inode cur inum) i)) →
  length (cur' (iblk inum)) = BSIZE → (∀ x, 0 ≤ x < 2000 → used cur mkfs_sb x = true → used cur' mkfs_sb x = true) →
  stored cur' inum t l ∧ ∀ i, slot cur' (disk_inode cur' inum) i = slot cur (disk_inode cur inum) i.
Proof.
  intros [S1 [S2a S2b] S3 S4 S5 S6] Hd Hk Hl Hu. assert (Hi : disk_inode cur' inum = disk_inode cur inum) by (unfold disk_inode; by rewrite Hd).
  destruct (file_frame cur cur' (disk_inode cur inum) S1 Hk Hl Hu) as (F & Hs & Hby). rewrite Hi. split; [|done].
  split; rewrite ?Hi, ?Hd; [exact F| | |exact S4|exact S5|].
  - split; [done|]. intros j Hj. rewrite Hby; [by apply S2b|]. apply block_lt. pose proof (fo_size _ _ _ _ S1). lia.
  - intros j Hj Hm. rewrite Hs, Hby by done. by apply S3.
  - intros i Hi'. rewrite Hs. by apply S6.
Qed.

(** Writing one inode. *)
Definition put_inode (inum : Z) (di : Dinode) (cur : Z → list Z) : Z → list Z :=
  upd (iblk inum) (put_at (cur (iblk inum)) (dinode_at inum) (dinode_bytes di)) cur.
Lemma put_inode_same inum di cur : dinode_ok di → length (cur (iblk inum)) = BSIZE → disk_dinode (put_inode inum di cur) inum = di.
Proof. intros Hd Hl. unfold disk_dinode, put_inode. rewrite upd_eq. apply get_put_dinode; [done|]. rewrite Hl. apply dinode_at_fits. Qed.
Lemma put_inode_other inum inum' di cur :
  length (di_addrs di) = S NDIRECT → length (cur (iblk inum)) = BSIZE → 0 ≤ inum < 208 → 0 ≤ inum' < 208 → inum' ≠ inum →
  disk_dinode (put_inode inum di cur) inum' = disk_dinode cur inum'.
Proof.
  intros Ha Hl H1 H2 Hne. unfold disk_dinode, put_inode, upd. destruct (iblock inum H1) as [E1 _]. destruct (iblock inum' H2) as [E2 _].
  case_decide as E; [|done]. rewrite E. pose proof (dinode_at_fits inum). apply get_dinode_other; [by apply length_dinode|lia|].
  apply dinode_at_other; [done|]. unfold IPB. lia.
Qed.
Lemma put_inode_block inum di cur x : x ≠ iblk inum → put_inode inum di cur x = cur x.
Proof. apply upd_ne. Qed.
Lemma put_inode_length inum di cur : length (di_addrs di) = S NDIRECT → length (cur (iblk inum)) = BSIZE → length (put_inode inum di cur (iblk inum)) = BSIZE.
Proof. intros Ha Hl. unfold put_inode. rewrite upd_eq, length_put_at; [done|]. rewrite length_dinode, Hl by done. apply dinode_at_fits. Qed.
Lemma put_inode_used inum di cur x : 0 ≤ inum < 208 → 0 ≤ x < 2000 → used (put_inode inum di cur) mkfs_sb x = used cur mkfs_sb x.
Proof. intros Hi Hx. unfold used. rewrite bblock by done. rewrite put_inode_block; [done|]. pose proof (iblock inum Hi). lia. Qed.

(** ** What one operation leaves of the other files *)

(** [cur'] differs from [cur] only in free blocks and in blocks of file [k],
    besides its inode. *)
Record only_file (cur : Z → list Z) (D : list (Z * list Z)) (k : nat) (cur' : Z → list Z) : Prop := {
  of_dinode : ∀ inum, 0 < inum < 208 → inum ≠ Z.of_nat (S k) → disk_dinode cur' inum = disk_dinode cur inum;
  of_block : ∀ k' t l i, D !! k' = Some (t, l) → k' ≠ k → (i ≤ MAXFILE)%nat → let a := slot cur (disk_inode cur (Z.of_nat (S k'))) i in a ≠ 0 → cur' a = cur a;
  of_used : ∀ x, 0 ≤ x < 2000 → used cur mkfs_sb x = true → used cur' mkfs_sb x = true;
  of_meta : ∀ x, 1 ≤ x ≤ 32 → cur' x = cur x;
  of_iblocks : ∀ x, 33 ≤ x < 46 → length (cur' x) = BSIZE
}.

Lemma inum_range (D : list (Z * list Z)) k : (length D ≤ 207)%nat → (k < length D)%nat → 0 < Z.of_nat (S k) < 208.
Proof. lia. Qed.

Lemma other_stored cur D k cur' k' t l :
  good cur D → only_file cur D k cur' → (length D ≤ 207)%nat → D !! k' = Some (t, l) → k' ≠ k →
  stored cur' (Z.of_nat (S k')) t l ∧ ∀ i, slot cur' (disk_inode cur' (Z.of_nat (S k'))) i = slot cur (disk_inode cur (Z.of_nat (S k'))) i.
Proof.
  intros Gd [O1 O2 O3 O4 O5] Hn Hk Hne. pose proof (inum_range D k' Hn (lookup_lt_Some _ _ _ Hk)) as Hr.
  apply stored_frame; [by eapply gd_files|apply O1; [done|lia]| |apply O5; apply (iblock (Z.of_nat (S k'))); lia|done].
  intros i Hi. by eapply O2.
Qed.

(** Blocks that file [k] has now and had not before were free. *)
Definition took_free (cur : Z → list Z) (D : list (Z * list Z)) (k : nat) (cur' : Z → list Z) : Prop :=
  ∀ i, (i ≤ MAXFILE)%nat → let a := slot cur' (disk_inode cur' (Z.of_nat (S k))) i in
    a = 0 ∨ (k < length D)%nat ∧ a = slot cur (disk_inode cur (Z.of_nat (S k))) i ∨ used cur mkfs_sb a = false.

Lemma stored_used cur inum t l i : stored cur inum t l → (i ≤ MAXFILE)%nat → slot cur (disk_inode cur inum) i ≠ 0 → used cur mkfs_sb (slot cur (disk_inode cur inum) i) = true.
Proof. intros S Hi H0. by destruct (fo_own _ _ _ _ (st_file _ _ _ _ S) i Hi H0). Qed.

(** One file replaced, or added behind the others. *)
Lemma good_step cur D k cur' t l D' :
  good cur D → (length D ≤ 207)%nat → only_file cur D k cur' → took_free cur D k cur' → stored cur' (Z.of_nat (S k)) t l →
  (∀ k', D' !! k' = if decide (k' = k) then Some (t, l) else D !! k') → good cur' D'.
Proof.
  intros Gd Hn Ho Ht Hs HD. pose proof Ho as [O1 O2 O3 O4 O5].
  assert (HkD : (k < length D')%nat) by (apply lookup_lt_is_Some; rewrite HD, decide_True by done; done).
  assert (HlD : (length D ≤ length D')%nat).
  { destruct D as [|x D0] eqn:ED; [cbn [length]; lia|]. rewrite <- ED in *. assert (Hlt : (length D - 1 < length D)%nat) by (rewrite ED; cbn [length]; lia).
    cut (length D - 1 < length D')%nat; [lia|]. apply lookup_lt_is_Some. rewrite HD. case_decide; [done|]. by apply lookup_lt_is_Some. }
  assert (Hin : ∀ k', (k' < length D')%nat → k' ≠ k → (k' < length D)%nat).
  { intros k' Hk' Hne. apply lookup_lt_is_Some in Hk'. rewrite HD, decide_False in Hk' by done. by apply lookup_lt_is_Some. }
  assert (Hother : ∀ k', (k' < length D)%nat → k' ≠ k → ∃ t' l', D !! k' = Some (t', l') ∧ stored cur' (Z.of_nat (S k')) t' l' ∧
    ∀ i, slot cur' (disk_inode cur' (Z.of_nat (S k'))) i = slot cur (disk_inode cur (Z.of_nat (S k'))) i).
  { intros k' Hk' Hne. destruct (lookup_lt_is_Some_2 D k' Hk') as [[t' l'] E]. exists t', l'. split; [done|]. by eapply other_stored. }
  assert (Hap : ∀ k' i j, (k' < length D)%nat → k' ≠ k → (i ≤ MAXFILE)%nat → (j ≤ MAXFILE)%nat → slot cur' (disk_inode cur' (Z.of_nat (S k))) i ≠ 0 →
    slot cur' (disk_inode cur' (Z.of_nat (S k))) i ≠ slot cur' (disk_inode cur' (Z.of_nat (S k'))) j).
  { intros k' i j Hk' Hne Hi Hj H0 E. destruct (Hother k' Hk' Hne) as (t' & l' & E' & _ & Hsl). rewrite Hsl in E.
    destruct (Ht i Hi) as [?|[[Hk E2]|Hf]]; [done| |].
    - rewrite E2 in E, H0. apply (gd_apart _ _ Gd k k' i j) in E; (done || by apply not_eq_sym).
    - rewrite E in Hf, H0. rewrite (stored_used cur _ t' l') in Hf; [done|by eapply gd_files|done|done]. }
  split.
  - intros k' t' l' E. rewrite HD in E. destruct (decide (k' = k)) as [->|Hne]; [by injection E as <- <-|].
    eapply other_stored; [exact Gd|exact Ho|done|done|done].
  - intros k1 k2 i j H1 H2 Hne Hi Hj H0. destruct (decide (k1 = k)) as [->|N1]; [apply Hap; (done || auto)|].
    destruct (decide (k2 = k)) as [->|N2].
    + intros E. rewrite E in H0. symmetry in E. apply (Hap k1 j i) in E; (done || auto).
    + destruct (Hother k1 (Hin _ H1 N1) N1) as (_ & _ & _ & _ & E1). destruct (Hother k2 (Hin _ H2 N2) N2) as (_ & _ & _ & _ & E2).
      rewrite E1 in H0 |- *. rewrite E2. by apply (gd_apart _ _ Gd); auto.
  - intros inum Hi. rewrite O1 by lia. apply (gd_unused _ _ Gd). lia.
  - rewrite O4 by lia. apply Gd.
  - intros x Hx. rewrite O4 by lia. by apply (gd_log _ _ Gd).
  - done.
Qed.

(** ** Appending to one of the files *)

Section Append.
Context (cur : Z → list Z) (D : list (Z * list Z)) (k : nat) (t : Z) (l bs : list Z) (cur1 : Z → list Z) (di1 : Dinode).
#[local] Abbreviation inum := (Z.of_nat (S k)).
#[local] Abbreviation ip := (disk_inode cur (Z.of_nat (S k))).
Hypothesis Hgood : good cur D.
Hypothesis Hmany : (length D ≤ 207)%nat.
Hypothesis Hk : D !! k = Some (t, l).
Hypothesis Hlow : ∀ x, 0 ≤ x < 2000 → used cur mkfs_sb x = false → nmeta ≤ x.
Hypothesis HW : fwrote cur ip (length l) bs cur1 (inode_of inum di1).
Hypothesis HT : tail_zero cur1 (inode_of inum di1) (length l + length bs).
Hypothesis Hmax : (length l + length bs ≤ MAXFILE * BSIZE)%nat.

Let di2 : Dinode := with_dsize (Z.of_nat (length l + length bs)) di1.
Let cur2 : Z → list Z := put_inode inum di2 cur1.

Lemma app_range : 0 < inum < 208 ∧ 33 ≤ iblk inum < 46.
Proof. pose proof (inum_range D k Hmany (lookup_lt_Some _ _ _ Hk)) as H. split; [done|]. apply iblock. lia. Qed.
Lemma app_stored : stored cur inum t l.
Proof. by eapply gd_files. Qed.
Lemma app_low x : 1 ≤ x < 46 → cur1 x = cur x.
Proof.
  intros Hx. apply (wr_frame _ _ _ _ _ _ _ _ HW); [change (sb_size mkfs_sb) with 2000; lia| | |].
  - destruct (used cur mkfs_sb x) eqn:E; [done|]. apply Hlow in E; [|lia]. change nmeta with 47 in E. lia.
  - intros E%in_bitmap_46. lia.
  - intros i Hi E. pose proof (st_blocks _ _ _ _ app_stored i Hi) as Hb. rewrite E in Hb. change nmeta with 47 in Hb. lia.
Qed.
Lemma app_iblock : length (cur1 (iblk inum)) = BSIZE.
Proof. rewrite app_low by (pose proof app_range; lia). apply (gd_iblocks _ _ Hgood), app_range. Qed.

Lemma app_file : fok cur1 (inode_of inum di2) ∧ has_data cur1 (inode_of inum di2) (l ++ bs).
Proof.
  destruct (wrote_sized _ _ _ _ _ _ _ _ l HW (st_file _ _ _ _ app_stored) (st_data _ _ _ _ app_stored)) as [F Hd]; [lia|done|].
  assert (Hsz : i_size (inode_of inum di1) = Z.of_nat (length l)) by (rewrite (wr_same _ _ _ _ _ _ _ _ HW); apply (st_data _ _ _ _ app_stored)).
  assert (E : grow_size (inode_of inum di1) (Z.of_nat (length l + length bs)) = inode_of inum di2).
  { unfold grow_size. rewrite Hsz. destruct (Z.ltb_spec (Z.of_nat (length l)) (Z.of_nat (length l + length bs))) as [|Hge]; [done|].
    unfold di2, inode_of, with_dsize. cbn [di_type di_major di_minor di_nlink di_size di_addrs]. cbn [inode_of i_size] in Hsz. f_equal. lia. }
  rewrite E in F, Hd. split; [done|]. unfold put_at in Hd. rewrite firstn_all, drop_ge, app_nil_r in Hd by lia. done.
Qed.
Lemma app_dinode : dinode_ok di2.
Proof. destruct app_file as [F _]. pose proof (file_dinode _ _ _ _ F (wr_bitmap _ _ _ _ _ _ _ _ HW)) as Hd. by rewrite dinode_inode in Hd. Qed.
Lemma app_disk : disk_dinode cur2 inum = di2.
Proof. apply put_inode_same; [apply app_dinode|apply app_iblock]. Qed.
Lemma app_slots i : slot cur1 (inode_of inum di2) i = slot cur1 (inode_of inum di1) i.
Proof. done. Qed.

Lemma app_put : fok cur2 (inode_of inum di2) ∧ (∀ j, (j ≤ MAXFILE)%nat → slot cur2 (inode_of inum di2) j = slot cur1 (inode_of inum di1) j) ∧
  ∀ j, (j / BSIZE < MAXFILE)%nat → byte cur2 (inode_of inum di2) j = byte cur1 (inode_of inum di1) j.
Proof.
  destruct app_file as [F _]. destruct app_dinode as [_ _ [Ha _]].
  destruct (file_iblock _ _ _ _ (put_at (cur1 (iblk inum)) (dinode_at inum) (dinode_bytes di2)) F (wr_bitmap _ _ _ _ _ _ _ _ HW)) as (F2 & _ & Hs & _ & Hby).
  { rewrite length_put_at; [apply app_iblock|]. rewrite length_dinode, app_iblock by done. apply dinode_at_fits. }
  split_and!; [exact F2|exact Hs|exact Hby].
Qed.
Lemma app_new_low i : (i ≤ MAXFILE)%nat → slot cur1 (inode_of inum di1) i ≠ 0 → nmeta ≤ slot cur1 (inode_of inum di1) i.
Proof.
  intros Hi H0. destruct (wr_slots _ _ _ _ _ _ _ _ HW i Hi) as [E|[Hd Hu]].
  - rewrite E in H0 |- *. by apply (st_blocks _ _ _ _ app_stored).
  - apply Hlow; [|done]. apply data_range in Hd. lia.
Qed.
Lemma app_stored2 : stored cur2 inum t (l ++ bs).
Proof.
  destruct app_put as (F & Hs & Hby). destruct app_file as [_ [Hd1 Hd2]]. pose proof (wr_same _ _ _ _ _ _ _ _ HW) as Hsame.
  assert (Hin : disk_inode cur2 inum = inode_of inum di2) by (unfold disk_inode; by rewrite app_disk).
  split; rewrite ?Hin, ?app_disk.
  - exact F.
  - split; [exact Hd1|]. intros j Hj. rewrite Hby; [by apply Hd2|]. apply block_lt. rewrite length_app in Hj. lia.
  - rewrite length_app. intros j Hj Hm. rewrite Hs, Hby by lia. by apply HT.
  - rewrite <- (st_type _ _ _ _ app_stored). change (di_type di2) with (i_type (inode_of inum di1)). by rewrite Hsame.
  - rewrite <- (st_nlink _ _ _ _ app_stored). change (di_nlink di2) with (i_nlink (inode_of inum di1)). by rewrite Hsame.
  - intros i Hi. rewrite Hs by done. by apply app_new_low.
Qed.
Lemma app_only : only_file cur D k cur2.
Proof.
  pose proof app_range as [Hr HB]. destruct app_dinode as [_ _ [Ha _]]. pose proof app_iblock as Hl. split.
  - intros i Hi Hne. unfold cur2. rewrite put_inode_other by (done || lia). unfold disk_dinode. rewrite app_low; [done|]. pose proof (iblock i). lia.
  - intros k' t' l' i Hk' Hne Hi a H0. pose proof (gd_files _ _ Hgood _ _ _ Hk') as St. pose proof (st_blocks _ _ _ _ St i Hi H0) as Hm. fold a in Hm. change nmeta with 47 in Hm.
    unfold cur2. rewrite put_inode_block by lia. destruct (fo_own _ _ _ _ (st_file _ _ _ _ St) i Hi H0) as [(Hra & _ & Hnb) Hu _ _].
    apply (wr_frame _ _ _ _ _ _ _ _ HW); [fold a in Hra; lia|done|intros (y & Hy & E); by apply (Hnb y)|].
    intros j Hj E. apply (gd_apart _ _ Hgood k' k i j); [by eapply lookup_lt_Some|by eapply lookup_lt_Some|done|done|done|done|done].
  - intros x Hx Hu. unfold cur2. rewrite put_inode_used by lia. apply (wr_mono _ _ _ _ _ _ _ _ HW); [change (sb_size mkfs_sb) with 2000; lia|done].
  - intros x Hx. unfold cur2. rewrite put_inode_block by lia. apply app_low. lia.
  - intros x Hx. destruct (decide (x = iblk inum)) as [->|Hne]; [by apply put_inode_length|]. unfold cur2. rewrite put_inode_block by done.
    rewrite app_low by lia. by apply (gd_iblocks _ _ Hgood).
Qed.
Lemma app_took : took_free cur D k cur2.
Proof.
  intros i Hi. destruct app_put as (_ & Hs & _). assert (Hin : disk_inode cur2 inum = inode_of inum di2) by (unfold disk_inode; by rewrite app_disk).
  rewrite Hin. cbv zeta. rewrite Hs by done. destruct (wr_slots _ _ _ _ _ _ _ _ HW i Hi) as [E|[_ Hu]]; [|by right; right].
  right; left. split; [by eapply lookup_lt_Some|done].
Qed.
Lemma app_good : good cur2 (<[k := (t, l ++ bs)]> D).
Proof.
  eapply good_step; [exact Hgood|exact Hmany|exact app_only|exact app_took|exact app_stored2|]. intros k'.
  destruct (decide (k' = k)) as [->|Hne]; [apply list_lookup_insert_eq; by eapply lookup_lt_Some|by apply list_lookup_insert_ne].
Qed.
End Append.

(** ** The operations on all files *)

(** The builder has stored the files [D] and nothing else. *)
Record built (s : Mk) (D : list (Z * list Z)) : Prop := {
  bu_geo : geo s;
  bu_good : good (view s) D;
  bu_inodes : k_freeinode s = Z.of_nat (S (length D))
}.

Lemma view_low s x : geo s → 0 ≤ x < 2000 → used (view s) mkfs_sb x = false → nmeta ≤ x.
Proof. intros G Hx Hu. rewrite view_used in Hu by done. apply Z.ltb_ge in Hu. pose proof (g_fb _ G). lia. Qed.

Lemma mwp_rinode E inum (Q : Dinode → Mk → Prop) s : geo s → 0 ≤ inum < 208 → Q (disk_dinode (view s) inum) s → mwp E (rinode inum) Q s.
Proof.
  intros G Hi HQ. pose proof (iblock inum Hi) as [_ HB]. unfold rinode. apply mwp_bind, mwp_rsect; [done|lia|]. apply mwp_ret.
  unfold disk_dinode in HQ. by rewrite view_sect in HQ by lia.
Qed.
Lemma mwp_winode E inum di (Q : unit → Mk → Prop) s :
  geo s → 0 ≤ inum < 208 → length (di_addrs di) = S NDIRECT →
  (∀ s', geo s' → view s' = put_inode inum di (view s) → k_freeinode s' = k_freeinode s → Q tt s') → mwp E (winode inum di) Q s.
Proof.
  intros G Hi Ha HQ. pose proof (iblock inum Hi) as [_ HB]. pose proof (g_fb _ G) as Hfb. change nmeta with 47 in Hfb. unfold winode.
  apply mwp_bind, mwp_rsect; [done|lia|]. apply mwp_wsect; [done|lia|]. apply HQ; [|rewrite view_put by (apply G || lia); unfold put_inode; by rewrite view_sect by lia|done].
  apply put_sect_geo; [done|lia|]. pose proof (g_sect _ G (IBLOCK inum mkfs_sb)) as Hl. change FSSIZE with 2000 in Hl. specialize (Hl ltac:(lia)).
  rewrite length_put_at; [done|]. rewrite length_dinode, Hl by done. apply dinode_at_fits.
Qed.

Lemma mwp_iappend E s D k t l bs (Q : unit → Mk → Prop) :
  built s D → (length D ≤ 207)%nat → D !! k = Some (t, l) →
  (∀ s', FSSIZE < k_freeblock s' → E ReadFails s') → ((MAXFILE * BSIZE < length l + length bs)%nat → ∀ s', E FileTooBig s') →
  (∀ s', built s' (<[k := (t, l ++ bs)]> D) → Q tt s') → mwp E (iappend (Z.of_nat (S k)) bs) Q s.
Proof.
  intros [G Gd Hin] Hmany Hk HE HE2 HQ. pose proof (inum_range D k Hmany (lookup_lt_Some _ _ _ Hk)) as Hr.
  pose proof (gd_files _ _ Gd _ _ _ Hk) as St. unfold iappend. apply mwp_bind, mwp_rinode; [done|lia|].
  assert (Hsz : Z.to_nat (di_size (disk_dinode (view s) (Z.of_nat (S k)))) = length l) by (destruct (st_data _ _ _ _ St) as [Hz _]; unfold disk_inode, inode_of in Hz; cbn [i_size] in Hz; lia).
  rewrite Hsz. apply mwp_bind. eapply mwp_append_loop; [done|exact (st_file _ _ _ _ St)|exact (st_tail _ _ _ _ St)|lia| |exact HE|exact HE2|].
  { pose proof (fo_size _ _ _ _ (st_file _ _ _ _ St)) as Hs. rewrite (proj1 (st_data _ _ _ _ St)) in Hs. lia. }
  intros di1 s1 G1 W1 T1 I1 Hmax. cbn [fst snd]. apply mwp_winode; [done|lia|exact (fo_addrs _ _ _ _ (wr_file _ _ _ _ _ _ _ _ W1))|].
  intros s2 G2 V2 I2. apply HQ. split; [done| |rewrite length_insert; congruence]. rewrite V2. eapply app_good; [done|done|done| |exact W1|exact T1|done].
  intros x. by apply view_low.
Qed.

(** A new inode without blocks. *)
Definition dinode0 (t : Z) : Dinode := mkDinode t 0 0 1 0 (replicate (S NDIRECT) 0).
Lemma slot_dinode0 cur inum t i : slot cur (inode_of inum (dinode0 t)) i = 0.
Proof.
  unfold slot. change (indirect (inode_of inum (dinode0 t))) with 0. cbn [inode_of dinode0 di_addrs i_addrs]. case_decide.
  - by rewrite lookup_replicate_2 by lia.
  - case_decide; [done|]. by rewrite decide_True.
Qed.
Lemma dinode0_ok t : is_short t → dinode_ok (dinode0 t).
Proof.
  intros Ht. split; [unfold is_short in *; cbn [dinode0 di_type di_major di_minor di_nlink]; lia|unfold is_uint; cbn [dinode0 di_size]; lia|].
  split; [done|]. apply Forall_replicate. unfold is_uint. lia.
Qed.
Lemma iblock_data inum : 0 ≤ inum < 208 → data_block mkfs_sb (iblk inum).
Proof.
  intros Hi. destruct (iblock inum Hi) as [_ HB]. split_and!; change (sb_size mkfs_sb) with 2000; [lia|lia| |].
  - unfold is_home. change (sb_logstart mkfs_sb) with 2. change (Z.of_nat LOGBLOCKS) with 30. lia.
  - intros x Hx. rewrite bblock by done. lia.
Qed.
Lemma fresh_inode cur D t :
  good cur D → (length D ≤ 206)%nat → is_short t → (∀ x, 0 ≤ x < 2000 → used cur mkfs_sb x = false → nmeta ≤ x) →
  good (put_inode (Z.of_nat (S (length D))) (dinode0 t) cur) (D ++ [(t, [])]).
Proof.
  intros Gd Hn Ht Hlow. set (inum := Z.of_nat (S (length D))). assert (Hr : 0 < inum < 208) by lia. destruct (iblock inum) as [_ HB]; [lia|].
  pose proof (gd_iblocks _ _ Gd _ HB) as Hl. pose proof (dinode0_ok t Ht) as Hok. assert (Ha : length (di_addrs (dinode0 t)) = S NDIRECT) by done.
  set (cur' := put_inode inum (dinode0 t) cur). assert (Hd : disk_dinode cur' inum = dinode0 t) by (by apply put_inode_same).
  assert (Hin : disk_inode cur' inum = inode_of inum (dinode0 t)) by (unfold disk_inode; by rewrite Hd).
  apply (good_step cur D (length D) cur' t []); [done|lia|split|..].
  - intros i Hi Hne. apply put_inode_other; (done || lia).
  - intros k' t' l' i Hk' _ Hi a H0. apply put_inode_block. pose proof (st_blocks _ _ _ _ (gd_files _ _ Gd _ _ _ Hk') i Hi H0) as Hm. change nmeta with 47 in Hm. fold a in Hm. lia.
  - intros x Hx. unfold cur'. by rewrite put_inode_used by lia.
  - intros x Hx. apply put_inode_block. lia.
  - intros x Hx. destruct (decide (x = iblk inum)) as [->|Hne]; [by apply put_inode_length|]. unfold cur'. rewrite put_inode_block by done. by apply (gd_iblocks _ _ Gd).
  - intros i Hi. left. fold inum. rewrite Hin. apply slot_dinode0.
  - fold inum. split; rewrite ?Hin, ?Hd.
    + split; try done.
      * cbn [inode_of i_inum]. split_and!; [apply iblock_data; lia| |by apply put_inode_length].
        unfold cur'. rewrite put_inode_used by lia. destruct (used cur mkfs_sb (iblk inum)) eqn:E; [done|]. apply Hlow in E; [|lia]. change nmeta with 47 in E. lia.
      * intros i Hi H0. by rewrite slot_dinode0 in H0.
      * intros i j Hi Hj H0. by rewrite slot_dinode0 in H0.
      * intros i Hi H0. cbn [inode_of dinode0 i_size di_size] in H0. lia.
    + split; [done|]. intros j Hj. cbn [length] in Hj. lia.
    + intros j _ _ H0. by rewrite slot_dinode0 in H0.
    + done.
    + done.
    + intros i _ H0. by rewrite slot_dinode0 in H0.
  - intros k'. destruct (decide (k' = length D)) as [->|Hne]; [by rewrite list_lookup_middle|].
    destruct (decide (k' < length D)%nat); [by rewrite lookup_app_l|]. rewrite !lookup_ge_None_2; [done|lia|rewrite length_app; cbn [length]; lia].
Qed.

Lemma mwp_ialloc E s D t (Q : Z → Mk → Prop) :
  built s D → (length D ≤ 206)%nat → is_short t → (∀ s', built s' (D ++ [(t, [])]) → Q (Z.of_nat (S (length D))) s') → mwp E (mk_ialloc t) Q s.
Proof.
  intros [G Gd Hin] Hn Ht HQ. unfold mk_ialloc. apply mwp_bind. unfold mwp at 1. unfold new_inode. rewrite Hin. set (s1 := mkMk _ _ _).
  assert (G1 : geo s1) by (destruct G as [G1 G2 G3 G4]; by split).
  apply mwp_bind. apply mwp_winode; [exact G1|lia|done|]. intros s2 G2 V2 I2. apply mwp_ret, HQ. split; [done| |].
  - rewrite V2. apply fresh_inode; [exact Gd|done|done|]. intros x. by apply view_low.
  - rewrite I2, length_app. cbn [s1 k_freeinode length]. lia.
Qed.

(** ** The whole image *)

Definition h_bytes (f : Host) : list Z := mjoin (default [] (h_reads f)).
Definition short_name (f : Host) : list Z := skip_underscore (strip_user (h_arg f)).
(** The directory entries of the files, from inode [inum] on. *)
Fixpoint entries (inum : Z) (fs : list Host) : list Z :=
  match fs with [] => [] | f :: fs' => mk_dirent inum (short_name f) ++ entries (inum + 1) fs' end.
Definition stored_file (f : Host) : Z * list Z := (T_FILE, h_bytes f).

(** A name with a slash, or too long for a directory entry. *)
Definition bad_name (f : Host) : Prop := SLASH ∈ strip_user (h_arg f) ∨ (DIRSIZ < length (short_name f))%nat.
(** Why the builder may end early on the files [fs]: the disk is full, or one
    of the files is at fault. *)
Definition may_die (fs : list Host) (w : Why) (s : Mk) : Prop :=
  match w with
  | ReadFails => FSSIZE < k_freeblock s
  | FileTooBig => Exists (λ f, (MAXFILE * BSIZE < length (h_bytes f))%nat) fs
  | BadName => Exists bad_name fs
  | OpenFails => Exists (λ f, h_reads f = None) fs
  | TooManyBlocks | RootNotFirst => False
  end.

Lemma mk_dirent_length inum name : (length name ≤ DIRSIZ)%nat → length (mk_dirent inum name) = DESIZ.
Proof. intros H. unfold mk_dirent, dirent. rewrite !length_app, le_bytes_length, length_replicate. unfold DIRSIZ, DESIZ in *. lia. Qed.

Lemma mwp_append_pieces E s D k t l ps (Q : unit → Mk → Prop) :
  built s D → (length D ≤ 207)%nat → D !! k = Some (t, l) →
  (∀ s', FSSIZE < k_freeblock s' → E ReadFails s') → ((MAXFILE * BSIZE < length l + length (mjoin ps))%nat → ∀ s', E FileTooBig s') →
  (∀ s', built s' (<[k := (t, l ++ mjoin ps)]> D) → Q tt s') → mwp E (append_pieces (Z.of_nat (S k)) ps) Q s.
Proof.
  revert s D l. induction ps as [|p ps IH]; intros s D l Hb Hn Hk HE HE2 HQ.
  { apply mwp_ret, HQ. cbn [mjoin list_join]. rewrite app_nil_r. by rewrite list_insert_id. }
  change (mjoin (p :: ps)) with (p ++ mjoin ps) in *. rewrite length_app in HE2. cbn [append_pieces].
  apply mwp_bind. eapply mwp_iappend; [exact Hb|done|exact Hk|exact HE|intros; apply HE2; lia|]. intros s1 Hb1.
  eapply IH; [exact Hb1|by rewrite length_insert|apply list_lookup_insert_eq; by eapply lookup_lt_Some|exact HE|rewrite length_app; intros; apply HE2; lia|].
  intros s2. rewrite list_insert_insert_eq, <- app_assoc. apply HQ.
Qed.

Lemma insert_last {A} (a x y : A) F : <[S (length F) := y]> (a :: F ++ [x]) = a :: F ++ [y].
Proof. change (a :: F ++ ?b) with ((a :: F) ++ b). by rewrite insert_app_r_alt, Nat.sub_diag by done. Qed.
Lemma mwp_add_file E s r F f (Q : unit → Mk → Prop) :
  built s ((T_DIR, r) :: F) → (S (length F) ≤ 206)%nat → (length r + DESIZ ≤ MAXFILE * BSIZE)%nat →
  (∀ w s', may_die [f] w s' → E w s') →
  (∀ s', length (short_name f) ≤ DIRSIZ → built s' ((T_DIR, r ++ mk_dirent (Z.of_nat (2 + length F)) (short_name f)) :: F ++ [stored_file f]) → Q tt s')%nat →
  mwp E (add_file 1 f) Q s.
Proof.
  intros Hb Hn Hr HE HQ. unfold add_file. assert (HR : ∀ s', FSSIZE < k_freeblock s' → E ReadFails s') by (intros s' H; by apply HE).
  apply mwp_bind, mwp_assert; [intros _|intros Hs; apply HE, Exists_cons; left; left; by apply negb_false_iff, bool_decide_eq_true in Hs].
  destruct (h_reads f) as [ps|] eqn:Hf; [|apply HE, Exists_cons; by left]. fold (short_name f).
  apply mwp_bind, mwp_assert; [intros Hl%Nat.leb_le|intros Hl%Nat.leb_gt; apply HE, Exists_cons; left; by right].
  apply mwp_bind. eapply mwp_ialloc; [exact Hb|cbn [length]; lia|unfold is_short, T_FILE; lia|]. intros s1 Hb1. cbn [length].
  apply mwp_bind. eapply (mwp_iappend E s1 _ 0 T_DIR r); [exact Hb1|rewrite length_app; cbn [length]; lia|done|exact HR| |].
  { rewrite mk_dirent_length by done. lia. }
  intros s2 Hb2. cbn [app list_insert insert] in Hb2.
  eapply (mwp_append_pieces E s2 _ (S (length F)) T_FILE []); [exact Hb2|cbn [length]; rewrite length_app; cbn [length]; lia| |exact HR| |].
  - change ((T_DIR, ?a) :: F ++ ?b) with (((T_DIR, a) :: F) ++ b). by apply list_lookup_middle.
  - intros H. intros s'. apply HE, Exists_cons. left. unfold h_bytes. by rewrite Hf.
  - intros s3 Hb3. apply HQ; [done|]. rewrite insert_last in Hb3. unfold stored_file, h_bytes. rewrite Hf. exact Hb3.
Qed.

Lemma mwp_add_files E s r F fs (Q : unit → Mk → Prop) :
  built s ((T_DIR, r) :: F) → (length F + length fs ≤ 206)%nat → (length r + DESIZ * length fs ≤ MAXFILE * BSIZE)%nat →
  (∀ w s', may_die fs w s' → E w s') →
  (∀ s', Forall (λ f, length (short_name f) ≤ DIRSIZ)%nat fs → built s' ((T_DIR, r ++ entries (Z.of_nat (2 + length F)) fs) :: F ++ (stored_file <$> fs)) → Q tt s') →
  mwp E (add_files 1 fs) Q s.
Proof.
  revert s r F. induction fs as [|f fs IH]; intros s r F Hb Hn Hr HE HQ.
  { apply mwp_ret, HQ; [done|]. cbn [entries fmap list_fmap]. by rewrite !app_nil_r. }
  cbn [length] in Hn, Hr. cbn [add_files]. apply mwp_bind. eapply mwp_add_file; [exact Hb|lia|lia| |].
  { intros w s' Hw. apply HE. destruct w; cbn [may_die] in *; try done; apply Exists_cons; apply Exists_cons in Hw; destruct Hw as [?|Hw%Exists_nil]; by auto. }
  intros s1 Hl Hb1. eapply IH; [exact Hb1|rewrite length_app; cbn [length]; lia|rewrite length_app, mk_dirent_length by done; lia| |].
  - intros w s' Hw. apply HE. destruct w; cbn [may_die] in *; try done; apply Exists_cons; by right.
  - intros s2 Hls Hb2. apply HQ; [by constructor|]. rewrite length_app in Hb2. cbn [length] in Hb2. rewrite <- !app_assoc in Hb2.
    cbn [entries fmap list_fmap app] in Hb2 |- *. replace (Z.of_nat (2 + length F) + 1) with (Z.of_nat (2 + (length F + 1))) by lia. exact Hb2.
Qed.

(** The size of the root directory is rounded up: its tail holds zeros already. *)
Lemma wrote_zeros cur inum t l n :
  stored cur inum t l → bitmap_ok cur mkfs_sb → (length l mod BSIZE ≠ 0)%nat → (n ≤ BSIZE - length l mod BSIZE)%nat →
  fwrote cur (disk_inode cur inum) (length l) (replicate n 0) cur (disk_inode cur inum) ∧ tail_zero cur (disk_inode cur inum) (length l + length (replicate n 0)).
Proof.
  intros [F [Hsz Hd] T _ _ _] Hb Hm Hn. pose proof (fo_size _ _ _ _ F) as Hs. pose proof (Nat.div_mod_eq (length l) BSIZE) as Hdm.
  assert (Hq : (length l / BSIZE < MAXFILE)%nat) by nia. split; [|intros j Hj; apply T; lia].
  split; try done; [|by left]. rewrite length_replicate. intros j Hj. rewrite lookup_replicate_2 by done.
  destruct (div_chunk (length l) j) as [E1 E2]; [lia|]. apply T; [lia|by rewrite E1|]. rewrite E1. apply (fo_full _ _ _ _ F); [done|]. lia.
Qed.
Lemma mwp_fix_root E s D t l (Q : unit → Mk → Prop) :
  built s D → (length D ≤ 207)%nat → D !! 0%nat = Some (t, l) → (length l mod BSIZE ≠ 0)%nat → (length l < 12 * BSIZE)%nat →
  (∀ s', built s' (<[0%nat := (t, l ++ replicate (BSIZE - length l mod BSIZE) 0)]> D) → Q tt s') → mwp E (fix_root_size 1) Q s.
Proof.
  intros [G Gd Hin] Hn Hk Hm Hlt HQ. pose proof (gd_files _ _ Gd _ _ _ Hk) as St. change (Z.of_nat 1) with 1 in St.
  destruct (wrote_zeros (view s) 1 t l (BSIZE - length l mod BSIZE) St (view_ok s G) Hm ltac:(lia)) as [W T].
  pose proof (Nat.div_mod_eq (length l) BSIZE) as Hdm. pose proof (Nat.mod_upper_bound (length l) BSIZE ltac:(done)) as Hmb.
  assert (Hsz : (di_size (disk_dinode (view s) 1) / Z.of_nat BSIZE + 1) * Z.of_nat BSIZE = Z.of_nat (length l + length (replicate (BSIZE - length l mod BSIZE) 0))).
  { destruct (st_data _ _ _ _ St) as [Hz _]. unfold disk_inode, inode_of in Hz. cbn [i_size] in Hz. rewrite Hz, <- Nat2Z.inj_div, length_replicate. nia. }
  unfold fix_root_size. apply mwp_bind, mwp_rinode; [done|lia|]. rewrite Hsz. apply mwp_winode; [done|lia|exact (fo_addrs _ _ _ _ (st_file _ _ _ _ St))|].
  intros s' G' V' I'. apply HQ. split; [done| |rewrite length_insert; congruence]. rewrite V'.
  apply (app_good (view s) D 0 t l (replicate (BSIZE - length l mod BSIZE) 0) (view s) (disk_dinode (view s) 1)); [done|done|done| |exact W|exact T|].
  - intros x. by apply view_low.
  - rewrite length_replicate. unfold MAXFILE, NDIRECT, NINDIRECT. nia.
Qed.

(** ** The empty disk *)

Definition mk0 : Mk := mkMk (<[1%nat := sb_sector]> (replicate (Z.to_nat FSSIZE) (replicate BSIZE 0))) 1 nmeta.
Lemma clear_run n i b : clear_sectors n (mkMk [] i b) = Made tt (mkMk (replicate n (replicate BSIZE 0)) i b).
Proof.
  induction n as [|n IH]; [done|]. cbn [clear_sectors]. rewrite (mk_bind_run _ _ _ _ _ IH). unfold wsect. cbn [k_img k_freeinode k_freeblock].
  rewrite length_replicate, Nat2Z.id, decide_False, Nat.sub_diag, replicate_S_end by lia. done.
Qed.
Lemma init_run : init_image mk_start = Made tt mk0.
Proof.
  unfold init_image. erewrite mk_bind_run by reflexivity. cbn [mk_start k_img k_freeinode]. erewrite mk_bind_run by apply clear_run.
  unfold wsect. cbn [k_img k_freeinode k_freeblock]. rewrite decide_True; [reflexivity|]. rewrite length_replicate. change FSSIZE with 2000. lia.
Qed.
Lemma sect_mk0 x : 0 ≤ x < 2000 → sect mk0 x = if decide (x = 1) then sb_sector else replicate BSIZE 0.
Proof.
  intros Hx. unfold sect, mk0. cbn [k_img]. change FSSIZE with 2000. destruct (decide (x = 1)) as [->|Hne].
  - rewrite list_lookup_insert_eq by (rewrite length_replicate; lia). reflexivity.
  - rewrite list_lookup_insert_ne, lookup_replicate_2 by lia. reflexivity.
Qed.
Lemma sb_sector_length : length sb_sector = BSIZE.
Proof. vm_compute. reflexivity. Qed.
Lemma geo_mk0 : geo mk0.
Proof.
  split.
  - unfold mk0. cbn [k_img]. by rewrite length_insert, length_replicate.
  - change FSSIZE with 2000. intros x Hx. rewrite sect_mk0 by done. case_decide; [apply sb_sector_length|apply length_replicate].
  - unfold mk0. cbn [k_freeblock]. change nmeta with 47. change FSSIZE with 2000. lia.
  - unfold mk0. cbn [k_freeblock]. change nmeta with 47. change FSSIZE with 2000. intros x Hx. fold mk0. rewrite sect_mk0, decide_False by lia. done.
Qed.
Lemma get16_zeros n off : get16 (replicate n 0) off = 0.
Proof. unfold get16. rewrite drop_replicate, take_replicate. generalize (2 `min` (n - off))%nat. intros m. induction m as [|m IH]; cbn; lia. Qed.
Lemma built_mk0 : built mk0 [].
Proof.
  split; [exact geo_mk0| |reflexivity]. split; try done.
  - intros k k' i j Hk. cbn [length] in Hk. lia.
  - cbn [length]. intros inum Hi. pose proof (iblock inum) as [_ HB]; [lia|]. unfold disk_dinode. rewrite view_sect, sect_mk0, decide_False by lia.
    unfold get_dinode. cbn [di_type]. by rewrite get16_zeros.
  - intros x Hx. by rewrite view_sect, sect_mk0, decide_False by lia.
  - intros x Hx. rewrite view_sect, sect_mk0, decide_False by lia. apply length_replicate.
Qed.

(** ** The image *)

(** The super block as [readsb] reads it. *)
Definition sb_of (d : list Z) : SuperBlock := mkSb (get32 d 0) (get32 d 4) (get32 d 8) (get32 d 12) (get32 d 16) (get32 d 20) (get32 d 24) (get32 d 28).
(** The root directory: the entries, then zeros up to the end of the block. *)
Definition root_entries (fs : list Host) : list Z := mk_dirent 1 [46] ++ mk_dirent 1 [46; 46] ++ entries 2 fs.
Definition root_dir (fs : list Host) : list Z := let r := root_entries fs in r ++ replicate (BSIZE - length r mod BSIZE) 0.

Record image_ok (s : Mk) (fs : list Host) : Prop := {
  im_length : length (k_img s) = Z.to_nat FSSIZE;
  im_super : sb_of (sect s 1) = mkfs_sb;
  im_log : is_header (sect s (sb_logstart mkfs_sb)) [];
  im_bitmap : bitmap_ok (sect s) mkfs_sb;
  im_used : ∀ b, 0 ≤ b < FSSIZE → used (sect s) mkfs_sb b = (b <? k_freeblock s);
  im_files : good (sect s) ((T_DIR, root_dir fs) :: (stored_file <$> fs))
}.

Lemma entries_length inum fs : Forall (λ f, length (short_name f) ≤ DIRSIZ)%nat fs → length (entries inum fs) = (DESIZ * length fs)%nat.
Proof.
  intros H. revert inum. induction H as [|f fs Hf H IH]; intros inum; [done|]. cbn [entries length]. rewrite length_app, mk_dirent_length, IH by done. lia.
Qed.
Lemma root_length fs : Forall (λ f, length (short_name f) ≤ DIRSIZ)%nat fs → length (root_entries fs) = (DESIZ * (2 + length fs))%nat.
Proof. intros H. unfold root_entries. rewrite !length_app, entries_length by done. change (length (mk_dirent 1 [46])) with 16%nat. change (length (mk_dirent 1 [46; 46])) with 16%nat. unfold DESIZ. lia. Qed.

Lemma mwp_write_bitmap E s (Q : unit → Mk → Prop) :
  geo s → (∀ s', sect s' = view s → length (k_img s') = Z.to_nat FSSIZE → k_freeblock s' = k_freeblock s → Q tt s') → mwp E write_bitmap Q s.
Proof.
  intros G HQ. pose proof (g_fb _ G) as Hfb. change nmeta with 47 in Hfb. change FSSIZE with 2000 in Hfb.
  change (mwp E (mk_balloc (k_freeblock s)) Q s). unfold mk_balloc. change (sb_bmapstart mkfs_sb) with 46. fold (bits_to (k_freeblock s)).
  apply mwp_bind, mwp_assert; [intros _|intros H%Z.ltb_ge; unfold BPB in H; lia]. apply mwp_wsect; [done|lia|]. apply HQ; [|cbn [put_sect k_img]; rewrite length_insert; apply G|done].
  apply functional_extensionality. intros y. rewrite put_sect_at by (apply G || lia). unfold view, upd. done.
Qed.

Lemma built_image s s' fs : built s ((T_DIR, root_dir fs) :: (stored_file <$> fs)) → sect s' = view s → length (k_img s') = Z.to_nat FSSIZE → k_freeblock s' = k_freeblock s → image_ok s' fs.
Proof.
  intros [G Gd _] Hv Hl Hf. split; rewrite ?Hv; [done| | |by apply view_ok| |exact Gd].
  - rewrite (gd_super _ _ Gd). vm_compute. reflexivity.
  - rewrite (gd_log _ _ Gd) by (change (sb_logstart mkfs_sb) with 2; lia). split_and!; [apply length_replicate|vm_compute; reflexivity|]. intros i b Hi. done.
  - intros b Hb. rewrite Hf. by apply view_used.
Qed.

Lemma max_bytes : (4096 ≤ MAXFILE * BSIZE)%nat.
Proof. change 4096%nat with (4 * BSIZE)%nat. apply Nat.mul_le_mono_r. unfold MAXFILE, NDIRECT, NINDIRECT. lia. Qed.

(** A run that ends well in a state of [Q], or early for a reason that [E] allows. *)
Definition ends {A} (Q : Mk → Prop) (E : Why → Mk → Prop) (r : MkRes A) : Prop :=
  match r with Made _ s => Q s | Dies w s => E w s | NoFuel => False end.
Lemma mwp_ends {A} E (m : MkM A) Q s : mwp E m (λ _, Q) s → ends Q E (m s).
Proof. done. Qed.
Lemma mwp_mkfs fs : (length fs ≤ 206)%nat → ((2 + length fs) mod 64 ≠ 0)%nat → mwp (may_die fs) (mkfs fs) (λ _ s, image_ok s fs) mk_start.
Proof.
  intros Hn H64. unfold mkfs. apply mwp_bind. unfold mwp at 1. rewrite init_run. unfold populate.
  assert (HR : ∀ s', FSSIZE < k_freeblock s' → may_die fs ReadFails s') by done.
  apply mwp_bind. eapply mwp_ialloc; [exact built_mk0|cbn [length]; lia|unfold is_short, T_DIR; lia|]. intros s1 B1. cbn [length app] in *. change (Z.of_nat 1) with 1.
  apply mwp_bind, mwp_assert; [intros _|done].
  apply mwp_bind. eapply (mwp_iappend _ s1 _ 0 T_DIR []); [exact B1|cbn [length]; lia|done|exact HR|intros Hbig; exfalso; pose proof max_bytes; revert Hbig; change (length (mk_dirent 1 [46])) with 16%nat; cbn [length]; lia|]. intros s2 B2. cbn [app insert list_insert] in B2.
  apply mwp_bind. eapply (mwp_iappend _ s2 _ 0 T_DIR (mk_dirent 1 [46])); [exact B2|cbn; lia|done|exact HR| |].
  { intros Hbig; exfalso; revert Hbig. change (length (mk_dirent 1 [46])) with 16%nat. change (length (mk_dirent 1 [46; 46])) with 16%nat. pose proof max_bytes. lia. }
  intros s3 B3. apply mwp_bind. eapply (mwp_add_files _ s3 _ []); [exact B3|cbn [length]; lia| |done|].
  { rewrite length_app. change (length (mk_dirent 1 [46])) with 16%nat. change (length (mk_dirent 1 [46; 46])) with 16%nat. pose proof max_bytes. unfold DESIZ. lia. }
  intros s4 Hl B4. rewrite <- app_assoc in B4. cbn [app length] in B4. change (Z.of_nat (2 + 0)) with 2 in B4. fold (root_entries fs) in B4.
  pose proof (root_length fs Hl) as Hrl. apply mwp_bind. eapply mwp_fix_root; [exact B4|cbn [length]; rewrite length_fmap; lia|done| | |].
  - rewrite Hrl. unfold DESIZ, BSIZE. change 1024%nat with (16 * 64)%nat. rewrite Nat.Div0.mul_mod_distr_l. lia.
  - rewrite Hrl. unfold DESIZ, BSIZE. lia.
  - intros s5 B5. cbn [insert list_insert] in B5. fold (root_dir fs) in B5. apply mwp_write_bitmap; [apply B5|]. intros s6. by apply built_image.
Qed.

(** C8: on at most 206 host files, but not on 62, 126 or 190 of them (the
    entries of the root directory must not fill its blocks exactly, see
    [mkfs_root_hole]), the builder ends, whatever the files are.  The
    image it makes is well-formed as the kernel needs it: its super block is
    what [readsb] expects, its log is empty, its bitmap marks exactly the blocks
    before [freeblock], the blocks of different files are disjoint, the unused
    inodes have type 0; and inode 1 is the root directory with its entries and
    zeros behind them, the next inodes are the host's files with their bytes.
    It gives up only when the disk is full or a file is at fault. *)
Theorem mkfs_image fs (Hn : (length fs ≤ 206)%nat) (H64 : ((2 + length fs) mod 64 ≠ 0)%nat) :
  ends (λ s, image_ok s fs) (may_die fs) (mkfs fs mk_start).
Proof. apply mwp_ends. by apply mwp_mkfs. Qed.

Definition is_made {A} (r : MkRes A) : bool := match r with Made _ _ => true | _ => false end.
(** "user/_cat" with three bytes read in two pieces, and "README". *)
Definition sample_files : list Host :=
  [mkHost (user_slash ++ [95; 99; 97; 116]) (Some [[1; 2]; [3]]); mkHost [82; 69; 65; 68; 77; 69] (Some [replicate 1024 7; [8]])].
Lemma mkfs_image_witness :
  is_made (mkfs sample_files mk_start) = true ∧ ends (λ s, image_ok s sample_files) (may_die sample_files) (mkfs sample_files mk_start).
Proof. split; [vm_compute; reflexivity|]. apply (mkfs_image sample_files); [apply (Nat.leb_le 2 206); reflexivity|vm_compute; discriminate]. Defined.

(** The rounding of main adds a block that does not exist when the entries of
    the root directory fill their blocks: with 62 files its size is 2048, and
    the address of its second block is 0. *)
Example mkfs_root_hole :
  match mkfs (replicate 62 (mkHost [97] (Some []))) mk_start with
  | Made _ s => let di := disk_dinode (sect s) 1 in (di_size di, take 2 (di_addrs di)) = (2048, [47; 0])
  | _ => False
  end.
Proof. vm_compute. reflexivity. Qed.

(** [ialloc] does not check for the end of the inode blocks: inode 208 is in
    the bitmap block, which [balloc] overwrites; the builder ends well and the
    last of 207 files is no file. *)
Example mkfs_lost_inode :
  match mkfs (replicate 207 (mkHost [97] (Some []))) mk_start with
  | Made _ s => (di_type (disk_dinode (sect s) 207), di_type (disk_dinode (sect s) 208)) = (T_FILE, -1)
  | _ => False
  end.
Proof. vm_compute. reflexivity. Qed.
