(* ===== verification/File.v ===== *)
(** * file.c: stat, read and write on open files

    The device switch is an interface; a missing function is a null pointer. *)

From S2P Require Import Prelude CString Kernel KLogic Spinlock KMem Kalloc Vm Proc Pipe Fork Bio Log Fs.
Open Scope Z_scope.
Open Scope os_scope.

Definition NDEV : Z := 10.

(** [devsw[major].read(user_dst, dst, n)] and [devsw[major].write]. *)
Class DevSw := {
  dev_read : Z → option (bool → Z → Z → M Z);
  dev_write : Z → option (bool → Z → Z → M Z)
}.

Definition with_off (v : Z) (f : File) : File :=
  mkFile (f_type f) (f_ref f) (f_readable f) (f_writable f) (f_pipe f) (f_ip f) v (f_major f).

Section File.
Context `{KernelImage} `{Disk} `{DevSw}.
(** The bound on the number of sleeps, and the stack bytes under the padding
    of [filestat]'s local structure. *)
Context (sleeps : nat) (stat_pad : list Z).

Definition filestat (k : nat) (addr : Z) : M Z :=
  i ← curproc;
  f ← getf k;
  match f_type f with
  | FD_INODE | FD_DEVICE =>
      ip ← need (f_ip f);
      ilock sleeps ip;;
      st ← stati ip stat_pad;
      iunlock ip;;
      p ← getp i;
      r ← copyout (p_pagetable p) addr st;
      mret (if r <? 0 then -1 else 0)
  | _ => mret (-1)
  end.

Definition dev_call (op : Z → option (bool → Z → Z → M Z)) (major addr n : Z) : M Z :=
  if (major <? 0) || (NDEV <=? major) then mret (-1) else
  match op major with
  | None => mret (-1)
  | Some g => g true addr n
  end.

Definition fileread (k : nat) (addr n : Z) : M Z :=
  f ← getf k;
  if negb (f_readable f) then mret (-1) else
  match f_type f with
  | FD_PIPE => piperead sleeps (f_pipe f) addr n
  | FD_DEVICE => dev_call dev_read (f_major f) addr n
  | FD_INODE =>
      ip ← need (f_ip f);
      ilock sleeps ip;;
      f ← getf k;
      r ← readi sleeps ip (User addr) (f_off f) (u32 n);
      when (0 <? r.1) (f ← getf k; putf k (with_off (u32 (f_off f + r.1)) f));;
      iunlock ip;;
      mret r.1
  | FD_NONE => panic "fileread"
  end.

(** At most this many bytes in one transaction. *)
Definition write_max : Z := (Z.of_nat MAXOPBLOCKS - 1 - 1 - 2) / 2 * Z.of_nat BSIZE.

(** The loop of [filewrite]; the result is [i]. *)
Fixpoint filewrite_loop (fuel : nat) (k ip : nat) (addr n i : Z) : M Z :=
  if i <? n then
    match fuel with
    | O => halt NoFuel
    | S fuel' =>
        let n1 := if write_max <? n - i then write_max else n - i in
        log_begin_op sleeps;;
        ilock sleeps ip;;
        f ← getf k;
        r ← writei sleeps ip (User (u64 (addr + i))) [] (f_off f) n1;
        when (0 <? r) (f ← getf k; putf k (with_off (u32 (f_off f + r)) f));;
        iunlock ip;;
        log_end_op sleeps;;
        if negb (r =? n1) then mret i else filewrite_loop fuel' k ip addr n (i + r)
    end
  else mret i.

Definition filewrite (k : nat) (addr n : Z) : M Z :=
  f ← getf k;
  if negb (f_writable f) then mret (-1) else
  match f_type f with
  | FD_PIPE => pipewrite (sleeps + Z.to_nat n) (f_pipe f) addr n
  | FD_DEVICE => dev_call dev_write (f_major f) addr n
  | FD_INODE =>
      ip ← need (f_ip f);
      i ← filewrite_loop (S (Z.to_nat (n / write_max))) k ip addr n 0;
      mret (if i =? n then n else -1)
  | FD_NONE => panic "filewrite"
  end.
End File.
