(* ===== verification/Exec.v ===== *)
(** * exec.c: loading a program

    The ELF and program headers are read as the bytes of the structures.  The
    argument strings are in kernel memory, at the addresses [argv]. *)

From S2P Require Import Prelude CString Kernel KLogic Spinlock KMem Kalloc Vm Proc Pipe Fork Bio Log Fs.
Open Scope Z_scope.
Open Scope os_scope.

Definition MAXARG : nat := 32.
Definition USERSTACK : Z := 1.
Definition ELF_MAGIC : Z := 0x464C457F.
Definition ELF_PROG_LOAD : Z := 1.
Definition TF_a1 : Z := 120.

Definition get64 (d : list Z) (off : nat) : Z := le_val (take 8 (drop off d)).

(** [struct elfhdr]. *)
Definition ELFHDR_SIZE : Z := 64.
Definition elf_magic (d : list Z) : Z := get32 d 0.
Definition elf_entry (d : list Z) : Z := get64 d 24.
Definition elf_phoff (d : list Z) : Z := get64 d 32.
Definition elf_phnum (d : list Z) : Z := get16 d 56.

(** [struct proghdr]. *)
Definition PROGHDR_SIZE : Z := 56.
Definition ph_type (d : list Z) : Z := get32 d 0.
Definition ph_flags (d : list Z) : Z := get32 d 4.
Definition ph_off (d : list Z) : Z := get64 d 8.
Definition ph_vaddr (d : list Z) : Z := get64 d 16.
Definition ph_filesz (d : list Z) : Z := get64 d 32.
Definition ph_memsz (d : list Z) : Z := get64 d 40.

Definition flags2perm (flags : Z) : Z :=
  let perm := if Z.land flags 1 =? 0 then 0 else PTE_X in
  if Z.land flags 2 =? 0 then perm else Z.lor perm PTE_W.

(** The path behind its last slash. *)
Fixpoint last_elem (last s : list Z) : list Z :=
  match s with
  | [] => last
  | c :: s' => last_elem (if c =? SLASH then s' else last) s'
  end.

Section Exec.
Context `{KernelImage} `{Disk}.
Context (sleeps : nat).

Fixpoint loadseg_loop (fuel : nat) (pagetable va : Z) (k : nat) (offset sz i : Z) : M Z :=
  if i <? sz then
    match fuel with
    | O => halt NoFuel
    | S fuel' =>
        pa ← walkaddr pagetable (u64 (va + i));
        if pa =? 0 then panic "loadseg: address should exist" else
        let n := if sz - i <? PGSIZE then sz - i else PGSIZE in
        r ← readi sleeps k (Kern pa) (u32 (offset + i)) n;
        if negb (u32 r.1 =? n) then mret (-1) else
        loadseg_loop fuel' pagetable va k offset sz (u32 (i + PGSIZE))
    end
  else mret 0.
Definition loadseg (pagetable va : Z) (k : nat) (offset sz : Z) : M Z :=
  loadseg_loop (S (Z.to_nat (sz / PGSIZE))) pagetable va k offset sz 0.

(** The label [bad]. *)
Definition exec_bad (pagetable sz : Z) (ip : option nat) : M Z :=
  when (negb (pagetable =? 0)) (proc_freepagetable pagetable sz);;
  match ip with Some k => iunlockput sleeps k;; log_end_op sleeps | None => mret tt end;;
  mret (-1).

(** The program headers, [n] of them from [off]: whether all could be loaded,
    and the size of the image. *)
Fixpoint load_segments (n : nat) (k : nat) (pagetable sz off : Z) : M (bool * Z) :=
  match n with
  | O => mret (true, sz)
  | S n' =>
      r ← readi sleeps k Local (u32 off) PROGHDR_SIZE;
      if negb (r.1 =? PROGHDR_SIZE) then mret (false, sz) else
      let ph := r.2 in
      if negb (ph_type ph =? ELF_PROG_LOAD) then
        off' ← iadd off PROGHDR_SIZE; load_segments n' k pagetable sz off' else
      if ph_memsz ph <? ph_filesz ph then mret (false, sz) else
      if u64 (ph_vaddr ph + ph_memsz ph) <? ph_vaddr ph then mret (false, sz) else
      if negb (ph_vaddr ph mod PGSIZE =? 0) then mret (false, sz) else
      sz1 ← uvmalloc pagetable sz (u64 (ph_vaddr ph + ph_memsz ph)) (flags2perm (ph_flags ph));
      if sz1 =? 0 then mret (false, sz) else
      l ← loadseg pagetable (ph_vaddr ph) k (u32 (ph_off ph)) (u32 (ph_filesz ph));
      if l <? 0 then mret (false, sz1) else
      off' ← iadd off PROGHDR_SIZE;
      load_segments n' k pagetable sz1 off'
  end.

(** [sp -= n; sp -= sp % 16]. *)
Definition push (sp n : Z) : Z := let sp := u64 (sp - n) in sp - sp mod 16.

(** The argument strings, copied to the new stack: the stack pointer and the
    addresses of the strings, or [None] for [goto bad]. *)
Fixpoint push_args (argv : list Z) (pagetable stackbase sp : Z) (ustack : list Z) : M (option (Z * list Z)) :=
  match argv with
  | [] => mret (Some (sp, ustack))
  | a :: argv' =>
      if (MAXARG <=? length ustack)%nat then mret None else
      o ← gets (λ s, strlen (ram s) a);
      len ← need o;
      let sp := push sp (len + 1) in
      if sp <? stackbase then mret None else
      bs ← gets (λ s, bytes_at (ram s) a (Z.to_nat (len + 1)));
      r ← copyout pagetable sp bs;
      if r <? 0 then mret None else
      push_args argv' pagetable stackbase sp (ustack ++ [sp])
  end.

(** The end of [kexec], on the loaded image. *)
Definition exec_image (path : list Z) (argv : list Z) (pagetable sz entry : Z) : M Z :=
  i ← curproc;
  p ← getp i;
  let oldsz := p_sz p in
  let sz := PGROUNDUP sz in
  sz1 ← uvmalloc pagetable sz (u64 (sz + (USERSTACK + 1) * PGSIZE)) PTE_W;
  if sz1 =? 0 then exec_bad pagetable sz None else
  let sz := sz1 in
  uvmclear pagetable (u64 (sz - (USERSTACK + 1) * PGSIZE));;
  let stackbase := u64 (sz - USERSTACK * PGSIZE) in
  o ← push_args argv pagetable stackbase sz [];
  match o with
  | None => exec_bad pagetable sz None
  | Some (sp, ustack) =>
      let argc := length ustack in
      if (MAXARG <=? argc)%nat then halt Undef else
      let sp := push sp (8 * (Z.of_nat argc + 1)) in
      if sp <? stackbase then exec_bad pagetable sz None else
      r ← copyout pagetable sp (mjoin (le_bytes 8 <$> ustack ++ [0]));
      if r <? 0 then exec_bad pagetable sz None else
      p ← getp i;
      store64 (p_trapframe p + TF_a1) sp;;
      putp i (λ q, with_name (arr_safestrcpy (p_name q) (last_elem path path ++ [0]) 16) q);;
      p ← getp i;
      let oldpagetable := p_pagetable p in
      putp i (with_pagetable pagetable);;
      putp i (with_sz sz);;
      store64 (p_trapframe p + TF_epc) entry;;
      store64 (p_trapframe p + TF_sp) sp;;
      proc_freepagetable oldpagetable oldsz;;
      mret (Z.of_nat argc)
  end.

Definition kexec (path : list Z) (argv : list Z) : M Z :=
  i ← curproc;
  log_begin_op sleeps;;
  o ← namei_ sleeps path;
  match o with
  | None => log_end_op sleeps;; mret (-1)
  | Some k =>
      ilock sleeps k;;
      r ← readi sleeps k Local 0 ELFHDR_SIZE;
      if negb (r.1 =? ELFHDR_SIZE) then exec_bad 0 0 (Some k) else
      let elf := r.2 in
      if negb (elf_magic elf =? ELF_MAGIC) then exec_bad 0 0 (Some k) else
      pagetable ← proc_pagetable i;
      if pagetable =? 0 then exec_bad 0 0 (Some k) else
      l ← load_segments (Z.to_nat (elf_phnum elf)) k pagetable 0 (s32 (elf_phoff elf));
      if negb l.1 then exec_bad pagetable l.2 (Some k) else
      iunlockput sleeps k;;
      log_end_op sleeps;;
      exec_image path argv pagetable l.2 (elf_entry elf)
  end.
End Exec.
