(* ===== verification/Sysfile.v ===== *)
(** * sysfile.c: the file system calls

    A handler returns the value that [syscall] stores in register a0.  The
    goto labels are definitions of their own. *)

From S2P Require Import Prelude CString Kernel KLogic Spinlock KMem Kalloc Vm Proc Pipe Fork Sysproc Bio Log Fs File Exec.
Open Scope Z_scope.
Open Scope os_scope.

Definition MAXPATH : nat := 128.
Definition OM_RDONLY : Z := 0x000.
Definition OM_WRONLY : Z := 0x001.
Definition OM_RDWR : Z := 0x002.
Definition OM_CREATE : Z := 0x200.
Definition OM_TRUNC : Z := 0x400.

(** The string in a buffer that [argstr] has filled. *)
Fixpoint cstring (buf : list Z) : list Z :=
  match buf with c :: buf' => if c =? 0 then [] else c :: cstring buf' | [] => [] end.

Definition file_open (t : filetype) (ip : nat) (r w : bool) (off major : Z) (f : File) : File :=
  mkFile t (f_ref f) r w (f_pipe f) (Some ip) off major.

Section Sysfile.
Context `{KernelImage} `{Disk} `{DevSw}.
Context (sleeps : nat) (stat_pad : list Z).
#[local] Instance layer : FileLayer := fs_layer sleeps.

(** The descriptor and the file; [None] is the return value -1. *)
Definition argfd (n : Z) : M (option (nat * nat)) :=
  fd ← argint n;
  if (fd <? 0) || (Z.of_nat NOFILE <=? fd) then mret None else
  i ← curproc;
  p ← getp i;
  o ← need (p_ofile p !! Z.to_nat fd);
  mret (match o with Some f => Some (Z.to_nat fd, f) | None => None end).

Fixpoint fdalloc_loop (l : list nat) (i f : nat) : M Z :=
  match l with
  | [] => mret (-1)
  | fd :: l' =>
      p ← getp i;
      o ← need (p_ofile p !! fd);
      match o with
      | None => putp i (λ q, with_ofile (<[fd := Some f]> (p_ofile q)) q);; mret (Z.of_nat fd)
      | Some _ => fdalloc_loop l' i f
      end
  end.
Definition fdalloc (f : nat) : M Z := i ← curproc; fdalloc_loop (seq 0 NOFILE) i f.

Definition sys_dup : M Z :=
  o ← argfd 0;
  match o with
  | None => mret (-1)
  | Some (_, f) => fd ← fdalloc f; if fd <? 0 then mret (-1) else filedup f;; mret fd
  end.

Definition sys_read : M Z :=
  p ← argaddr 1;
  n ← argint 2;
  o ← argfd 0;
  match o with None => mret (-1) | Some (_, f) => fileread sleeps f p n end.

Definition sys_write : M Z :=
  p ← argaddr 1;
  n ← argint 2;
  o ← argfd 0;
  match o with None => mret (-1) | Some (_, f) => filewrite sleeps f p n end.

Definition sys_close : M Z :=
  o ← argfd 0;
  match o with
  | None => mret (-1)
  | Some (fd, f) =>
      i ← curproc;
      putp i (λ q, with_ofile (<[fd := None]> (p_ofile q)) q);;
      fileclose f;;
      mret 0
  end.

Definition sys_fstat : M Z :=
  st ← argaddr 1;
  o ← argfd 0;
  match o with None => mret (-1) | Some (_, f) => filestat sleeps stat_pad f st end.

(** [ip->nlink += d], in 16 bits. *)
Definition add_nlink (k : nat) (d : Z) : M unit := puti k (λ ip, with_nlink (s16 (i_nlink ip + d)) ip).

(** The label [bad] of [sys_link]. *)
Definition link_bad (ip : nat) : M Z :=
  ilock sleeps ip;;
  add_nlink ip (-1);;
  iupdate sleeps ip;;
  iunlockput sleeps ip;;
  log_end_op sleeps;;
  mret (-1).

Definition sys_link : M Z :=
  old ← argstr 0 MAXPATH;
  if old.1 <? 0 then mret (-1) else
  new ← argstr 1 MAXPATH;
  if new.1 <? 0 then mret (-1) else
  log_begin_op sleeps;;
  o ← namei_ sleeps (cstring old.2);
  match o with
  | None => log_end_op sleeps;; mret (-1)
  | Some ip =>
      ilock sleeps ip;;
      x ← geti ip;
      if i_type x =? T_DIR then iunlockput sleeps ip;; log_end_op sleeps;; mret (-1) else
      add_nlink ip 1;;
      iupdate sleeps ip;;
      iunlock ip;;
      d ← nameiparent sleeps (cstring new.2) (replicate DIRSIZ 0);
      match d with
      | None => link_bad ip
      | Some (dp, name) =>
          ilock sleeps dp;;
          xd ← geti dp;
          x ← geti ip;
          r ← (if negb (i_dev xd =? i_dev x) then mret (-1) else dirlink sleeps dp name (i_inum x));
          if r <? 0 then iunlockput sleeps dp;; link_bad ip else
          iunlockput sleeps dp;;
          iput_ sleeps ip;;
          log_end_op sleeps;;
          mret 0
      end
  end.

Fixpoint dirempty_loop (fuel : nat) (k : nat) (off : Z) : M bool :=
  dp ← geti k;
  if u32 off <? i_size dp then
    match fuel with
    | O => halt NoFuel
    | S fuel' =>
        de ← read_dirent sleeps k (u32 off) "isdirempty: readi";
        if negb (de_inum de =? 0) then mret false else
        off' ← iadd off (Z.of_nat DESIZ);
        dirempty_loop fuel' k off'
    end
  else mret true.
Definition isdirempty (k : nat) : M bool :=
  dp ← geti k;
  dirempty_loop (S (Z.to_nat (i_size dp / Z.of_nat DESIZ))) k (2 * Z.of_nat DESIZ).

Definition unlink_bad (dp : nat) : M Z := iunlockput sleeps dp;; log_end_op sleeps;; mret (-1).

Definition sys_unlink : M Z :=
  path ← argstr 0 MAXPATH;
  if path.1 <? 0 then mret (-1) else
  log_begin_op sleeps;;
  d ← nameiparent sleeps (cstring path.2) (replicate DIRSIZ 0);
  match d with
  | None => log_end_op sleeps;; mret (-1)
  | Some (dp, name) =>
      ilock sleeps dp;;
      if (namecmp name [46] =? 0) || (namecmp name [46; 46] =? 0) then unlink_bad dp else
      o ← dirlookup sleeps dp name;
      match o with
      | None => unlink_bad dp
      | Some (ip, off) =>
          ilock sleeps ip;;
          x ← geti ip;
          if i_nlink x <? 1 then panic "unlink: nlink < 1" else
          full ← (if i_type x =? T_DIR then e ← isdirempty ip; mret (negb e) else mret false);
          if (full : bool) then iunlockput sleeps ip;; unlink_bad dp else
          r ← writei sleeps dp Local (replicate DESIZ 0) off (Z.of_nat DESIZ);
          if negb (r =? Z.of_nat DESIZ) then panic "unlink: writei" else
          x ← geti ip;
          when (i_type x =? T_DIR) (add_nlink dp (-1);; iupdate sleeps dp);;
          iunlockput sleeps dp;;
          add_nlink ip (-1);;
          iupdate sleeps ip;;
          iunlockput sleeps ip;;
          log_end_op sleeps;;
          mret 0
      end
  end.

(** The label [fail] of [create]. *)
Definition create_fail (ip dp : nat) : M (option nat) :=
  puti ip (with_nlink 0);;
  iupdate sleeps ip;;
  iunlockput sleeps ip;;
  iunlockput sleeps dp;;
  mret None.

Definition create (path : list Z) (type major minor : Z) : M (option nat) :=
  d ← nameiparent sleeps path (replicate DIRSIZ 0);
  match d with
  | None => mret None
  | Some (dp, name) =>
      ilock sleeps dp;;
      o ← dirlookup sleeps dp name;
      match o with
      | Some (ip, _) =>
          iunlockput sleeps dp;;
          ilock sleeps ip;;
          x ← geti ip;
          if (type =? T_FILE) && ((i_type x =? T_FILE) || (i_type x =? T_DEVICE)) then mret (Some ip) else
          iunlockput sleeps ip;; mret None
      | None =>
          xd ← geti dp;
          a ← ialloc sleeps (i_dev xd) type;
          match a with
          | None => iunlockput sleeps dp;; mret None
          | Some ip =>
              ilock sleeps ip;;
              puti ip (λ x, with_dinode (mkDinode (i_type x) major minor 1 (i_size x) (i_addrs x)) x);;
              iupdate sleeps ip;;
              x ← geti ip;
              ok ← (if type =? T_DIR then
                      r ← dirlink sleeps ip [46] (i_inum x);
                      if r <? 0 then mret false else
                      xd ← geti dp;
                      r ← dirlink sleeps ip [46; 46] (i_inum xd);
                      mret (negb (r <? 0))
                    else mret true);
              if negb ok then create_fail ip dp else
              x ← geti ip;
              r ← dirlink sleeps dp name (i_inum x);
              if r <? 0 then create_fail ip dp else
              when (type =? T_DIR) (add_nlink dp 1;; iupdate sleeps dp);;
              iunlockput sleeps dp;;
              mret (Some ip)
          end
      end
  end.

(** The exits of [sys_open] with the inode locked. *)
Definition open_fail (ip : nat) : M Z := iunlockput sleeps ip;; log_end_op sleeps;; mret (-1).

(** [sys_open] from the check of the device number on. *)
Definition open_inode (ip : nat) (omode : Z) : M Z :=
  x ← geti ip;
  if (i_type x =? T_DEVICE) && ((i_major x <? 0) || (NDEV <=? i_major x)) then open_fail ip else
  o ← filealloc;
  match o with
  | None => open_fail ip
  | Some f =>
      fd ← fdalloc f;
      if fd <? 0 then fileclose f;; open_fail ip else
      x ← geti ip;
      fl ← getf f;
      let rd := Z.land omode OM_WRONLY =? 0 in
      let wr := negb (Z.land omode OM_WRONLY =? 0) || negb (Z.land omode OM_RDWR =? 0) in
      putf f (if i_type x =? T_DEVICE then file_open FD_DEVICE ip rd wr (f_off fl) (i_major x) fl
              else file_open FD_INODE ip rd wr 0 (f_major fl) fl);;
      when (negb (Z.land omode OM_TRUNC =? 0) && (i_type x =? T_FILE)) (itrunc sleeps ip);;
      iunlock ip;;
      log_end_op sleeps;;
      mret fd
  end.

Definition sys_open : M Z :=
  omode ← argint 1;
  path ← argstr 0 MAXPATH;
  if path.1 <? 0 then mret (-1) else
  log_begin_op sleeps;;
  if negb (Z.land omode OM_CREATE =? 0) then
    o ← create (cstring path.2) T_FILE 0 0;
    match o with
    | None => log_end_op sleeps;; mret (-1)
    | Some ip => open_inode ip omode
    end
  else
    o ← namei_ sleeps (cstring path.2);
    match o with
    | None => log_end_op sleeps;; mret (-1)
    | Some ip =>
        ilock sleeps ip;;
        x ← geti ip;
        if (i_type x =? T_DIR) && negb (omode =? OM_RDONLY) then open_fail ip else open_inode ip omode
    end.

Definition sys_mkdir : M Z :=
  log_begin_op sleeps;;
  path ← argstr 0 MAXPATH;
  o ← (if path.1 <? 0 then mret None else create (cstring path.2) T_DIR 0 0);
  match o with
  | None => log_end_op sleeps;; mret (-1)
  | Some ip => iunlockput sleeps ip;; log_end_op sleeps;; mret 0
  end.

Definition sys_mknod : M Z :=
  log_begin_op sleeps;;
  major ← argint 1;
  minor ← argint 2;
  path ← argstr 0 MAXPATH;
  o ← (if path.1 <? 0 then mret None else create (cstring path.2) T_DEVICE (s16 major) (s16 minor));
  match o with
  | None => log_end_op sleeps;; mret (-1)
  | Some ip => iunlockput sleeps ip;; log_end_op sleeps;; mret 0
  end.

Definition sys_chdir : M Z :=
  i ← curproc;
  log_begin_op sleeps;;
  path ← argstr 0 MAXPATH;
  o ← (if path.1 <? 0 then mret None else namei_ sleeps (cstring path.2));
  match o with
  | None => log_end_op sleeps;; mret (-1)
  | Some ip =>
      ilock sleeps ip;;
      x ← geti ip;
      if negb (i_type x =? T_DIR) then open_fail ip else
      iunlock ip;;
      p ← getp i;
      w ← need (p_cwd p);
      iput_ sleeps w;;
      log_end_op sleeps;;
      putp i (with_cwd (Some ip));;
      mret 0
  end.

(** [kfree] of the pages of the arguments. *)
Fixpoint free_args (argv : list Z) : M unit :=
  match argv with [] => mret tt | a :: argv' => kfree a;; free_args argv' end.

(** The loop of [sys_exec]: the pages with the arguments read so far, and
    whether the list was complete. *)
Fixpoint exec_args (fuel : nat) (uargv : Z) (argv : list Z) : M (bool * list Z) :=
  match fuel with
  | O => mret (false, argv)
  | S fuel' =>
      o ← fetchaddr (u64 (uargv + 8 * Z.of_nat (length argv)));
      match o with
      | None => mret (false, argv)
      | Some uarg =>
          if uarg =? 0 then mret (true, argv) else
          pg ← kalloc;
          if pg =? 0 then mret (false, argv) else
          r ← fetchstr uarg (Z.to_nat PGSIZE);
          modify (λ s, set_ram (put_bytes (ram s) pg r.2) s);;
          if r.1 <? 0 then mret (false, argv ++ [pg]) else
          exec_args fuel' uargv (argv ++ [pg])
      end
  end.
Definition sys_exec : M Z :=
  uargv ← argaddr 1;
  path ← argstr 0 MAXPATH;
  if path.1 <? 0 then mret (-1) else
  a ← exec_args MAXARG uargv [];
  if negb a.1 then free_args a.2;; mret (-1) else
  ret ← kexec sleeps (cstring path.2) a.2;
  free_args a.2;;
  mret ret.

Definition set_ofile (i : nat) (fd : Z) : M unit :=
  putp i (λ q, with_ofile (<[Z.to_nat fd := None]> (p_ofile q)) q).

Definition sys_pipe : M Z :=
  i ← curproc;
  fdarray ← argaddr 0;
  o ← pipealloc;
  match o with
  | None => mret (-1)
  | Some (rf, wf) =>
      fd0 ← fdalloc rf;
      if fd0 <? 0 then fileclose rf;; fileclose wf;; mret (-1) else
      fd1 ← fdalloc wf;
      if fd1 <? 0 then set_ofile i fd0;; fileclose rf;; fileclose wf;; mret (-1) else
      p ← getp i;
      r ← copyout (p_pagetable p) fdarray (le_bytes 4 fd0);
      r' ← (if r <? 0 then mret r else copyout (p_pagetable p) (u64 (fdarray + 4)) (le_bytes 4 fd1));
      if r' <? 0 then set_ofile i fd0;; set_ofile i fd1;; fileclose rf;; fileclose wf;; mret (-1)
      else mret 0
  end.
End Sysfile.
