(* ===== verification/System.v ===== *)
(** * The system calls on the file system

    The handlers of sysfile.c and the boot path of fs.c as the interfaces
    that the dispatch of system calls and [forkret] are written against. *)

From S2P Require Import Prelude CString Kernel KLogic Spinlock KMem Kalloc Vm Proc Pipe Fork Sysproc Trap Bio Log Fs File Exec Sysfile.
Open Scope Z_scope.
Open Scope os_scope.

Section System.
Context `{KernelImage} `{Disk} `{DevSw}.
(** [init_argv]: the address of the string /init, the only argument of the
    first program. *)
Context (sleeps : nat) (stat_pad : list Z) (init_argv : Z).

Definition file_calls : SysFile := {|
  Trap.sys_pipe := Sysfile.sys_pipe sleeps;
  Trap.sys_read := Sysfile.sys_read sleeps;
  Trap.sys_exec := Sysfile.sys_exec sleeps;
  Trap.sys_fstat := Sysfile.sys_fstat sleeps stat_pad;
  Trap.sys_chdir := Sysfile.sys_chdir sleeps;
  Trap.sys_dup := Sysfile.sys_dup;
  Trap.sys_open := Sysfile.sys_open sleeps;
  Trap.sys_write := Sysfile.sys_write sleeps;
  Trap.sys_mknod := Sysfile.sys_mknod sleeps;
  Trap.sys_unlink := Sysfile.sys_unlink sleeps;
  Trap.sys_link := Sysfile.sys_link sleeps;
  Trap.sys_mkdir := Sysfile.sys_mkdir sleeps;
  Trap.sys_close := Sysfile.sys_close sleeps |}.

Definition boot_fs : BootFs := {|
  fsinit := fsinit_ sleeps;
  kexec_init := kexec sleeps (string_bytes "/init") [init_argv] |}.
End System.
